(* ===== verification/_CoqProject ===== *)
-Q . S2P
Prelude.v
Order.v
RustStr.v
Crates.v
Samples.v
Core.v
Requirement.v
Resolve.v
ResolveGraph.v
ResolveLimits.v
LockKey.v
Json.v
JsonValue.v
Lockfile.v
LockfileJson.v
LockfileInv.v
Policy.v
Manifest.v
ManifestInv.v
Workspace.v
WorkspaceInv.v
Why.v
WhyInv.v
Snapshot.v
Comparison.v
SnapshotInv.v
ComparisonInv.v
Search.v
NpmImport.v
NpmLock.v
NpmRun.v
NpmInv.v
NpmEntry.v
NpmPlaced.v
NpmGraph.v
NpmValid.v
NpmLockInv.v
Archive.v
ArchiveTree.v
ArchiveInv.v
ArchiveTreeInv.v
ArchiveDigest.v
ArchiveExtracted.v
Layout.v
LayoutInv.v
LayoutPlan.v
LayoutSound.v
LayoutThm.v
CrashFs.v
Activation.v
CrashLogic.v
Slots.v
ActivationInv.v
Settling.v
Confined.v
ActivationThm.v
Journal.v
JournalInv.v
JournalThm.v
RunnerConfig.v
RunnerConfigThm.v
Lifecycle.v
LifecycleThm.v
WinCommand.v
WinCommandThm.v
Enforcement.v
Grants.v
Request.v
GrantsThm.v
Execution.v
ExecutionThm.v
Signatures.v
SecurityEvidence.v
SignaturesThm.v
SecurityEvidenceThm.v
