(* ===== verification/Prelude.v ===== *)
(** * Verification library for Tapid

    Tapid is a package manager for the npm and JSR registries, written in Rust as a
    workspace of crates (src/crates).  This library models the part of it that decides
    what an installation is: the identities of packages, the requirements and the
    resolver that selects a graph of packages, the lockfile that records the graph, the
    manifests and workspaces that ask for it, the explanation of a locked graph, the policy
    decision about a package's capabilities, the import of npm's own lock, the archives
    and trees that an installation is made of, the layout of its node_modules, the
    replacement of node_modules under a journal, with its recovery from crashes, and the
    decisions of the runner: under which policy, with which approval and under whose
    supervision a script runs.  Beside it stand the trust envelopes of releases and of
    security evidence about packages.

    ** How the program's parts interact

    A command parses package.json ([Manifest.manifest_parse]) or discovers the members of
    a workspace ([Workspace.discover]).  The declared dependencies become [Requirement]s
    and, with the metadata of the registries, the input of
    [Resolve.resolve_graph_with_preferences]; its [Resolution] becomes locked packages,
    which [Lockfile.insert_graph] adds to a lockfile as one transaction.
    [LockfileJson.to_json] writes the lockfile and [LockfileJson.from_json] reads it back
    with all its checks; [Lockfile.validate_replay] decides whether an installation may
    follow it; [Why.explain_roots] explains it, [Snapshot.inspect] lists it and
    [Comparison.compare] compares two. [NpmLock.import] takes a package-lock.json instead
    and keeps it, with the verified trees and receipts that an installation adds.  A
    downloaded archive is validated and unpacked by [ArchiveTree.extract_to];
    [ArchiveTree.canonical_tree_digest] names the tree, and that digest is what the
    lockfiles and the store record.  [Layout.plan_workspace_layout] plans where the trees
    are stored and which links in node_modules lead to them.  An installation takes the lock
    of the project ([Journal.acquire], which recovers), writes its journal
    ([Journal.begin]), replaces the lockfile and node_modules
    ([Activation.activate_node_modules_with_preflight]), decides ([Journal.mark_committed])
    and cleans up ([Journal.finish]).  A script is run under the policy of tapid.toml as
    the invocation selects it ([RunnerConfig.select]), a hook of a dependency only under an
    approval ([Lifecycle.approval_for]); policy, command and environment become a request
    ([Request.build]), which [Execution.execute_with_backend] validates, resolves to grants
    on the host ([Request.resolve_policy], [Grants]), hands to a platform backend and
    supervises until it has ended and its evidence is checked.  A release manifest is
    verified with the embedded keys ([Signatures.verify_manifest]); evidence about a package
    is asked for by a [SecurityEvidence.SecurityRequest] and accepted by
    [SecurityEvidence.verify_security_evidence] from an envelope that verifies.

    ** Files and the code they model

    - [Prelude]: fallible code as [result], its monad and loops ([for_each], [try_fold],
      [try_map]), the tactics and the hint databases of the library.
    - [Order]: the class [Ord] with its laws, derived orders, and the ascending iteration
      of [BTreeMap] and [BTreeSet].
    - [RustStr]: strings as UTF-8 bytes and the methods of [str], [char], [u64] and [Path]
      that the sources call.
    - [Crates]: the third-party crates semver, url, base64 and sha2 as classes of
      operations, with the documented behaviour that theorems use as law classes.
    - [Samples]: concrete instances of those classes, for the witnesses only.
    - [Core]: crates/tapid-core (lib.rs, platform.rs, artifact_url.rs, source.rs).
    - [Requirement]: version requirements of crates/tapid-resolver/src/lib.rs.
    - [Resolve], [ResolveGraph], [ResolveLimits]: the resolver of the same file; its
      definitions, the theorems about a resolved graph, and those about metadata limits
      and the order of the input.
    - [LockKey]: package identities of crates/tapid-lockfile (model.rs, error.rs,
      validation.rs).
    - [Json]: JSON trees and what serde's derived codecs do with a struct.
    - [Lockfile], [LockfileJson], [LockfileInv]: the lockfile and its operations
      (model.rs, lib.rs), its JSON form, and the invariant of every reachable lockfile.
    - [Snapshot], [SnapshotInv]: the preflight, opening, inventory and scopes of a
      persisted graph (crates/tapid-lockfile/src/inspection.rs, inspection/preflight.rs)
      and their theorems.
    - [Comparison], [ComparisonInv]: the comparison of two such graphs
      (inspection/comparison.rs) and its theorems.
    - [Policy]: crates/tapid-policy/src/lib.rs.
    - [Manifest], [ManifestInv]: crates/tapid-manifest (model.rs, parse.rs, lifecycle.rs,
      error.rs) and the theorems about manifests.
    - [Workspace], [WorkspaceInv]: crates/tapid-manifest/src/workspace.rs and the theorems
      about discovery.
    - [Why], [WhyInv]: crates/tapid-cli/src/application/why.rs with [dep_parts] of
      online.rs, and the theorems about the graph and the search.

    - [Search]: depth-first search with a visited set and fuel, against reachability.
    - [NpmImport], [NpmLock]: the import of package-lock.json (crates/tapid-lockfile/src
      npm_import.rs, npm_import/parse.rs, npm_import/workspace.rs, npm_import/json.rs): its
      graph of placements, and the imported lock with its operations and JSON form.
      [NpmRun] (running fallible code without panics, the lookup of placements), [NpmInv]
      (edges, members, links), [NpmEntry] (entry points), [NpmPlaced] (the graph that was
      read), [NpmGraph] (the search and the selection for a platform), [NpmValid]
      (accepted graphs) and [NpmLockInv] (imported locks) hold the theorems.
    - [Archive], [ArchiveInv]: the entries of an archive (crates/tapid-archive/src/lib.rs)
      and what their validation accepts.
    - [ArchiveTree]: the passes over an archive, extraction, tree digests and validate_tree
      (lib.rs, tree_validation.rs); [ArchiveTreeInv] (extraction), [ArchiveDigest] (what a
      digest covers) and [ArchiveExtracted] (digests of extracted and generated trees).

    - [Layout]: crates/tapid-linker (layout.rs, workspace.rs, platform.rs); [LayoutInv]
      (paths and package directories), [LayoutPlan] (a step of the planner's loop and its
      termination), [LayoutSound] (the invariant of the loop), [LayoutThm] (the theorems).

    - [CrashFs]: a tree of files, the calls of [std::fs] on it, and computations that any
      call can end with an error or a crash.  [Activation]: crates/tapid-cli/src/filesystem
      activation.rs; [Journal]: lifecycle_journal.rs, the lock of activation.rs and the
      lockfile functions of atomic.rs.  [CrashLogic] (weakest preconditions with a
      condition for crashes), [Slots] (the places of a project), [ActivationInv] (an
      activation keeps what was there), [Settling] (rollback and commit), [Confined] (what
      they leave alone), [ActivationThm], [JournalInv] (recovery) and [JournalThm] (an
      installation from its journal to its end) hold the theorems.

    - [RunnerConfig]: tapid.toml and sandbox policies (crates/tapid-runner/src/config.rs)
      and the permissions of an invocation (crates/tapid-cli/src/commands/run/
      permissions.rs).  [Lifecycle]: the approvals of crates/tapid-runner (lib.rs,
      lifecycle.rs).  [WinCommand]: Windows command lines and environment blocks
      (execution/request.rs).  [Enforcement] (dimensions and their evidence), [Grants]
      (filesystem grants and bindings) and [Execution] (receipts, outcomes, supervision):
      execution.rs and execution/supervision.rs.  [Request]: execution/request.rs and
      execution/policy_ceiling.rs.  [RunnerConfigThm], [LifecycleThm], [WinCommandThm],
      [GrantsThm] and [ExecutionThm] hold the theorems.

    - [JsonValue]: what the strict readers of [Json] see of values that say the same.
      [Signatures]: crates/tapid-signatures (lib.rs, release.rs) and
      crates/tapid-transparency.  [SecurityEvidence]: crates/tapid-protocol (lib.rs,
      security.rs) and crates/tapid-attestations (lib.rs, security.rs).  [SignaturesThm] and
      [SecurityEvidenceThm] hold the theorems.

    Definitions keep the names of the source; a method [T::m] is [T_m] where [m] alone
    would clash.  A loop of the code is a [Fixpoint] over its list or its fuel, its body
    a definition of its own.

    ** How state and effects are modelled

    Methods on [&mut self] are functions from the state to the new state and a result, so
    that what a failed call leaves behind is part of the model.  Files are a value that the code
    takes or returns, except where it replaces them in place: there, a computation
    ([CrashFs.io]) runs on a disk under a list of events, one per call, each of which lets
    the call happen, makes it fail, or ends the process at it; theorems hold for every
    list.  A crash keeps the effects of earlier calls in their order.  Panics ([expect],
    [unwrap]) are an outcome of their own, and theorems exclude them.  [BTreeMap] and
    [BTreeSet] are [gmap] and [gset], iterated in ascending key order.  Machine integers
    are [Z] with the checks and saturations of the code.  Fuel is proved to be enough for
    every input where a loop is not structural: the resolver's worklist
    ([Resolve.worklist_fuel]), the searches of an npm graph ([NpmImport.reach_fuel],
    [NpmImport.select_fuel]), the climbs through placements (the length of a path), the
    chunks of a hashed file ([ArchiveTree.hash_loop], its length), and the loop of the
    layout planner ([LayoutPlan.weight]), and the climb to an existing ancestor of a grant
    ([Grants.ancestor_fuel], the components of the path and one); the depth of the path
    search is the budget [Why.MAX_DEPTH] of the code itself, and the steps and candidates of
    a workspace discovery are the code's own limits.

    ** What the theorems show

    - Resolver: a resolution terminates without panic; its roots and edges are what the
      selector chooses for their requirements, it is closed under dependencies, holds
      nothing unreachable and binds peers to direct roots; a failure names metadata that
      is really missing; metadata totals are exact; the order of the direct dependencies
      does not matter.
    - Requirements: what carets and x-ranges accept, complementary comparators,
      prereleases only on request, well-formedness of everything parsed.
    - Lockfile: an invariant that every sequence of public operations keeps, atomic
      failure of each, no panics, exact identities (printing and parsing of keys), and
      which lockfiles survive a round trip through their text.
    - Manifests and workspaces: the round trip of a manifest, the effect of dependency
      edits, contained bin targets, the position of diagnostics, and for discovery the
      members found, their canonical and contained paths and the irrelevance of unexhausted
      budgets.
    - Snapshots: the preflight counts exactly; what opens satisfies the lockfile
      invariant; the inventory and its scopes list exactly what is recorded; a comparison
      reports real differences only, misses none if the references do not collide, and
      reports nothing between equal snapshots.
    - Why: the graph of a lockfile is total and exact; a reported path is genuine and
      simple, and an unbroken search reports all of them.
    - npm locks: reading one ends without panic, and an accepted graph is read from the
      document, closed, reachable and representable; a lookup finds the nearest placement;
      the selection for a platform is exact; every operation on an imported lock keeps its
      invariant or leaves it unchanged; round trips, replay and the binding of members.
    - Archives: what path normalisation and entry validation accept; the bytes that the
      validation of a hostile archive can read; extraction is all or nothing, creates
      exactly the archive's members, and succeeds on compatible members; the digest of the
      tree is a function of the members and identifies the tree up to a SHA-256 collision;
      generated trees that are accepted are covered by their digest.
    - Layouts: planning ends and does not panic; a finished plan places the roots and every
      dependency of what it places where its resolution visits, links each target once,
      within the managed root and around the links of the workspace; two examples show
      where a plan differs from what was asked (hoisting that shadows a resolved
      dependency, instances that share a directory).
    - Activation and journal: whatever fails and wherever a process crashes, from the
      journal over its rewrites to the activation and the decision, and however often
      recovery itself is interrupted, a project ends up as it was before the installation
      or, once the journal says so, as installed; an activation and its rollback touch
      nothing else; rollback and commit succeed when they are left to finish; writing the
      journal is atomic.  An existing tree is assumed not to be empty - an example shows
      why -, the manifest to be package.json and the project to have no workspace members.
    - Runner: which configurations are accepted, and that they are the overlay of their
      tables; an invocation gives no more than was asked for or configured; a hook needs an
      exact approval, and derived outputs are keyed by all their inputs; requests are
      bounded and pass on allowed variables only; whatever a backend does, a successful
      execution has enforced and confirmed what the policy asks for, on the granted paths
      only, and an execution that fails has cleaned up once; Windows command lines and
      environment blocks are read back as what was written.
    - Trust: an envelope or release manifest that verifies is what a trusted key signed, and
      a signature cannot be moved, relabelled or taken from the other kind; what is signed
      verifies.  Accepted security evidence is authentic, answers the request and is current;
      it is never rolled back; and evidence issued by the rules is accepted.
    - Core and policy: accepted names, platforms and sources; the decision table.

    ** Parameters and their laws

    [Semver]/[SemverLaws] (parsing, printing and a total order that agrees with equality),
    [UrlCrate]/[UrlLaws], [Base64]/[Base64Laws], [Sha256] (no law is needed),
    [JsonCodec]/[JsonLaws] (parsing what was printed gives it back: integers in range,
    doubles that [float_exact] says survive, and a nesting within the recursion limit),
    [JsonCompact]/[JsonCompactLaws] (the same for the compact text),
    [FileSystem]/[FileSystemLaws] and [TarCrate]/[TarLaws] (the entries of an archive,
    with the bytes that each step of the iteration reads; their paths are valid strings),
    [TomlConfig] and [TomlLifecycle] (the TOML parser with serde's derived reader of the two
    documents, without laws), [Host] (metadata and canonical paths on the machine that runs a
    script, without laws).  [ExecutionBackend] is the trait of the platform backends;
    [Ed25519]/[Ed25519Laws], [Jcs]/[JcsLaws] (canonical texts determine values, numbers as the
    doubles they denote), [Sha256Laws] (the shape of a digest), [Base64Message] and [TimeCrate]
    (no laws); nothing assumes that signatures cannot be forged or that SHA-256 has no
    collisions: where a theorem depends on it, its conclusion names the two texts that collide.
    [BackendLaws] says that the outcomes of a backend are made with their checked constructors,
    as private fields enforce, and that an attempt keeps its preflight.  What [fs::remove_dir_all]
    leaves when it fails during a cleanup is an argument of [ArchiveTree.extract_to], the
    recovery of the store an argument of [Journal.recover].  The closures that the resolver takes
    are function arguments.  [Samples], [Json], [WorkspaceInv], [ArchiveTreeInv], [SignaturesThm]
    and the files of the runner's theorems hold instances that satisfy the laws, on which each
    theorem with a hypothesis is applied.

    ** Not modelled

    - The platform backends of tapid-runner (Linux, macOS and Windows sandboxes and their
      process I/O), its uncontained execution, and the parts of requests and grants that are
      compiled for Windows or macOS only; the JSON text of a policy's provenance.
    - Network, process and filesystem code: tapid-registry-client, tapid-store,
      tapid-publish, tapid-release-client and most of tapid-cli, which interleave small
      decisions with I/O, operating-system interfaces and crates that the repository does
      not contain.
    - tapid-resolver: the entry point [resolve] over a registry snapshot and the texts of
      [ResolveError].
    - tapid-lockfile: snapshots of imported npm locks (inspection/imported.rs).
    - tapid-linker: the executable shims (shims.rs), which read files, and the texts of
      [PlanError].
    - tapid-archive: the Windows build; a disk that fails, other than in the cleanup of an
      extraction, or a tree that changes during an operation; the contents of tar headers,
      which are the tar crate's.
    - tapid-manifest: the Windows build of workspace discovery; a filesystem that changes
      during a discovery.
    - tapid-cli: reading the files for [explain] and the registry configuration, from
      which it computes the root keys of a lockfile without bindings.*)
From Stdlib Require Export ZArith Lia.
From stdpp Require Export base tactics option list strings gmap sorting pretty numbers.
From stdpp Require Export list.

#[global] Set Default Goal Selector "!".

Declare Scope tapid_scope.
Delimit Scope tapid_scope with tapid.
#[global] Open Scope tapid_scope.

(** ** Fallible code: [Result<T, E>] *)
Inductive result (E A : Type) : Type :=
| Ok (a : A)
| Err (e : E).
Arguments Ok {E A} a.
Arguments Err {E A} e.

#[export] Instance result_ret {E} : MRet (result E) := λ A a, Ok a.
#[export] Instance result_bind {E} : MBind (result E) := λ A B f r,
  match r with Ok a => f a | Err e => Err e end.
#[export] Instance result_fmap {E} : FMap (result E) := λ A B f r,
  match r with Ok a => Ok (f a) | Err e => Err e end.
#[export] Instance result_eq_dec {E A} `{EqDecision E, EqDecision A} :
  EqDecision (result E A).
Proof. solve_decision. Defined.

Definition map_err {E F A} (f : E → F) (r : result E A) : result F A :=
  match r with Ok a => Ok a | Err e => Err (f e) end.
Definition ok_or {E A} (e : E) (o : option A) : result E A :=
  match o with Some a => Ok a | None => Err e end.
Definition to_ok {E A} (r : result E A) : option A :=
  match r with Ok a => Some a | Err _ => None end.
Definition is_ok {E A} (r : result E A) : bool :=
  match r with Ok _ => true | Err _ => false end.
(** [if !b { return Err(e) }] *)
Definition ensure {E} (b : bool) (e : E) : result E () :=
  if b then Ok () else Err e.
(** A loop [for x in l { f(x)?; }]. *)
Fixpoint for_each {E A} (f : A → result E ()) (l : list A) : result E () :=
  match l with
  | [] => Ok ()
  | x :: l => f x ≫= λ _, for_each f l
  end.
(** A loop that threads local state: [for x in l { s = f(s, x)?; }]. *)
Fixpoint try_fold {E A S} (f : S → A → result E S) (s : S) (l : list A) : result E S :=
  match l with
  | [] => Ok s
  | x :: l => f s x ≫= λ s', try_fold f s' l
  end.
(** [iter().map(f).collect::<Result<Vec<_>, _>>()] *)
Fixpoint try_map {E A B} (f : A → result E B) (l : list A) : result E (list B) :=
  match l with
  | [] => Ok []
  | x :: l => f x ≫= λ y, try_map f l ≫= λ ys, Ok (y :: ys)
  end.

(** ** Methods on [&mut self]: the state is returned on errors as well *)
Definition mutating (S E A : Type) : Type := S → S * result E A.
Definition mut_lift {S E A} (r : result E A) : mutating S E A := λ s, (s, r).
Definition mut_get {S E} : mutating S E S := λ s, (s, Ok s).
Definition mut_put {S E} (s : S) : mutating S E () := λ _, (s, Ok ()).
#[export] Instance mutating_ret {S E} : MRet (mutating S E) := λ A a s, (s, Ok a).
#[export] Instance mutating_bind {S E} : MBind (mutating S E) := λ A B f m s,
  match m s with
  | (s', Ok a) => f a s'
  | (s', Err e) => (s', Err e)
  end.

(** ** Inversion lemmas and the tactics built from them *)
Section result_lemmas.
Context {E A B : Type}.

Lemma bind_Ok (r : result E A) (f : A → result E B) b :
  r ≫= f = Ok b ↔ ∃ a, r = Ok a ∧ f a = Ok b.
Proof. destruct r; naive_solver. Qed.

Lemma map_err_Ok {F} (g : E → F) (r : result E A) a :
  map_err g r = Ok a ↔ r = Ok a.
Proof. destruct r; naive_solver. Qed.

Lemma ok_or_Ok (e : E) (o : option A) a : ok_or e o = Ok a ↔ o = Some a.
Proof. destruct o; naive_solver. Qed.

Lemma fmap_Ok (f : A → B) (r : result E A) b :
  f <$> r = Ok b ↔ ∃ a, r = Ok a ∧ b = f a.
Proof. destruct r; naive_solver. Qed.

Lemma to_ok_Some (r : result E A) a : to_ok r = Some a ↔ r = Ok a.
Proof. destruct r; naive_solver. Qed.

Lemma is_ok_true (r : result E A) : is_ok r = true ↔ ∃ a, r = Ok a.
Proof. destruct r; naive_solver. Qed.

Lemma ensure_Ok b (e : E) u : ensure b e = Ok u ↔ b = true.
Proof. destruct b, u; naive_solver. Qed.

Lemma bind_Err (r : result E A) (f : A → result E B) e :
  r ≫= f = Err e ↔ r = Err e ∨ ∃ a, r = Ok a ∧ f a = Err e.
Proof. destruct r; naive_solver. Qed.
Lemma map_err_Err {F} (g : E → F) (r : result E A) e :
  map_err g r = Err e ↔ ∃ e', r = Err e' ∧ e = g e'.
Proof. destruct r; naive_solver. Qed.
Lemma ok_or_Err (e e' : E) (o : option A) : ok_or e o = Err e' ↔ o = None ∧ e' = e.
Proof. destruct o; naive_solver. Qed.
Lemma fmap_Err (f : A → B) (r : result E A) e : f <$> r = Err e ↔ r = Err e.
Proof. destruct r; naive_solver. Qed.
Lemma try_map_Err (f : A → result E B) l e :
  try_map f l = Err e → ∃ x, x ∈ l ∧ f x = Err e.
Proof.
  induction l as [|x l IH]; simpl; [done|].
  destruct (f x) as [y|e'] eqn:Hx; simpl; [|intros [= ->]; exists x; set_solver].
  destruct (try_map f l); simpl; [done|]. intros [= ->]. destruct IH as (y'&?&?); [done|].
  exists y'. set_solver.
Qed.

Lemma for_each_Ok (f : A → result E ()) l u :
  for_each f l = Ok u ↔ ∀ x, x ∈ l → f x = Ok ().
Proof.
  destruct u. induction l as [|x l IH]; simpl.
  - split; [by intros _ x ?%not_elem_of_nil|done].
  - destruct (f x) as [[]|e] eqn:Hx; simpl.
    + rewrite IH. split; [|set_solver]. intros H y [->|?]%elem_of_cons; auto.
    + split; [done|]. intros H. rewrite (H x) in Hx by set_solver. done.
Qed.

Lemma for_each_Err (f : A → result E ()) l e :
  for_each f l = Err e → ∃ x, x ∈ l ∧ f x = Err e.
Proof.
  induction l as [|x l IH]; simpl; [done|].
  destruct (f x) as [[]|e'] eqn:Hx; simpl.
  - intros (y & ? & ?)%IH. exists y. set_solver.
  - intros [= ->]. exists x. set_solver.
Qed.

Lemma try_map_Ok (f : A → result E B) l k :
  try_map f l = Ok k ↔ Forall2 (λ x y, f x = Ok y) l k.
Proof.
  revert k. induction l as [|x l IH]; intros k; simpl.
  - split; [by intros [= <-]|by intros ->%Forall2_nil_inv_l].
  - destruct (f x) as [y|e] eqn:Hx; simpl.
    + destruct (try_map f l) as [ys|e] eqn:Hl; simpl.
      * split; [intros [= <-]; constructor; [done|by apply IH]|].
        intros (y'&k'&?&Hk&->)%Forall2_cons_inv_l. apply IH in Hk. congruence.
      * split; [done|]. intros (y'&k'&?&?%IH&->)%Forall2_cons_inv_l. congruence.
    + split; [done|]. intros (y'&k'&?&?&->)%Forall2_cons_inv_l. congruence.
Qed.

(** An invariant of the loop state is an invariant of the loop. *)
Lemma try_fold_inv {S} (P : S → Prop) (f : S → A → result E S) l s s' :
  (∀ s x s', x ∈ l → P s → f s x = Ok s' → P s') →
  P s → try_fold f s l = Ok s' → P s'.
Proof.
  revert s. induction l as [|x l IH]; intros s Hf Hs; simpl; [by intros [= <-]|].
  destruct (f s x) as [s1|e] eqn:Hx; simpl; [|done].
  intros Hl. refine (IH s1 _ _ Hl).
  - intros ??????. eapply Hf; [by apply elem_of_cons; right|done|done].
  - eapply (Hf s x s1); [by apply elem_of_cons; left|done|done].
Qed.

(** The same with the part of the vector already visited. *)
Lemma try_fold_prefix {S} (P : list A → S → Prop) (f : S → A → result E S) l s s' :
  (∀ pre x post s s', l = pre ++ x :: post → P pre s → f s x = Ok s' → P (pre ++ [x]) s') →
  P [] s → try_fold f s l = Ok s' → P l s'.
Proof.
  intros Hf. assert (∀ post pre s, l = pre ++ post → P pre s →
    try_fold f s post = Ok s' → P l s') as Hgen; [|by apply (Hgen l [])].
  intros post. induction post as [|x post IH]; intros pre s0 Hl Hpre; simpl.
  - intros [= <-]. by rewrite Hl, app_nil_r.
  - destruct (f s0 x) as [s1|e] eqn:Hx; simpl; [|done].
    apply (IH (pre ++ [x])); [by rewrite <-app_assoc|by eapply Hf].
Qed.

(** A loop whose steps only extend the state, and each of which handles its
    element for good, ends with every element handled. *)
Lemma try_fold_handled {S} (P : S → Prop) (R : S → S → Prop) `{!PreOrder R}
    (Q : A → S → Prop) (f : S → A → result E S) l s s' :
  (∀ s x s', x ∈ l → P s → f s x = Ok s' → P s' ∧ R s s' ∧ Q x s') →
  (∀ s s' x, R s s' → Q x s → Q x s') →
  P s → try_fold f s l = Ok s' → P s' ∧ R s s' ∧ ∀ x, x ∈ l → Q x s'.
Proof.
  intros Hf HQ Hs.
  apply (try_fold_prefix (λ pre s', P s' ∧ R s s' ∧ ∀ x, x ∈ pre → Q x s')).
  - intros pre x post s1 s2 -> (HP&HR&Hpre) Hx.
    destruct (Hf s1 x s2) as (HP2&HR2&HQ2); [set_solver|done..|].
    split_and!; [done|by etrans|]. intros y [Hy|Hy]%elem_of_app.
    + eauto.
    + apply list_elem_of_singleton in Hy as ->. done.
  - split_and!; [done|reflexivity|]. by intros x ?%not_elem_of_nil.
Qed.

(** A failing loop fails with the error of one of its steps. *)
Lemma try_fold_Err {S} (f : S → A → result E S) l s e :
  try_fold f s l = Err e → ∃ s' x, x ∈ l ∧ f s' x = Err e.
Proof.
  revert s. induction l as [|x l IH]; intros s; simpl; [done|].
  destruct (f s x) as [s1|e1] eqn:Hx; simpl.
  - intros (s'&y&?&?)%IH. exists s', y. set_solver.
  - intros [= ->]. exists s, x. set_solver.
Qed.

(** A loop none of whose steps fails does not fail. *)
Lemma try_fold_total {S} (f : S → A → result E S) l s :
  (∀ s x, x ∈ l → ∃ s', f s x = Ok s') → ∃ s', try_fold f s l = Ok s'.
Proof.
  revert s. induction l as [|x l IH]; intros s Hf; simpl; [by eexists|].
  destruct (Hf s x) as [s1 Hx]; [set_solver|]. rewrite Hx. simpl.
  apply IH. set_solver.
Qed.
End result_lemmas.

(** [run_ok H]: decompose a successful computation in hypothesis [H]. *)
Ltac run_ok H :=
  repeat first
    [ rewrite bind_Ok in H | rewrite map_err_Ok in H | rewrite ok_or_Ok in H
    | rewrite fmap_Ok in H | rewrite ensure_Ok in H ];
  lazymatch type of H with
  | ex _ => let x := fresh "x" in let H1 := fresh H in destruct H as [x H];
            run_ok H
  | _ ∧ _ => let H1 := fresh H in destruct H as [H1 H]; run_ok H1; run_ok H
  | _ => idtac
  end.

(** Boolean guards as propositions. *)
Ltac bool_prop :=
  repeat match goal with
  | H : _ && _ = true |- _ => apply andb_true_iff in H as [? ?]
  | H : _ || _ = false |- _ => apply orb_false_iff in H as [? ?]
  | H : negb _ = true |- _ => apply negb_true_iff in H
  | H : negb _ = false |- _ => apply negb_false_iff in H
  end.

(** [Forall] over a literal list, one goal per element. *)
Ltac forall_list :=
  repeat match goal with
  | |- Forall _ [] => apply List.Forall_nil
  | |- Forall _ (_ :: _) => apply List.Forall_cons
  end.

(** ** Lists *)
Lemma elem_of_concat_fmap {A B} (f : A → list B) (l : list A) (x : B) :
  x ∈ concat (f <$> l) ↔ ∃ a, a ∈ l ∧ x ∈ f a.
Proof.
  induction l as [|a l IH]; cbn; [setoid_rewrite elem_of_nil; naive_solver|].
  rewrite elem_of_app, IH. setoid_rewrite elem_of_cons. naive_solver.
Qed.
Lemma filter_all {A} (P : A → Prop) `{∀ x, Decision (P x)} (l : list A) :
  (∀ x, x ∈ l → P x) → base.filter P l = l.
Proof.
  induction l as [|x l IH]; intros Hl; [done|]. rewrite filter_cons_True by (apply Hl; by left).
  f_equal. apply IH. intros; apply Hl. by right.
Qed.
Lemma filter_sublist {A} (P : A → Prop) `{∀ x, Decision (P x)} (l : list A) : base.filter P l `sublist_of` l.
Proof. induction l as [|x l IH]; [constructor|]. rewrite filter_cons. case_decide; by constructor. Qed.

(** ** Finite sets *)
Lemma size_list_to_set_le {A} `{Countable A} (l : list A) :
  (size (list_to_set l : gset A) ≤ length l)%nat.
Proof.
  induction l as [|x l IH]; [done|]. rewrite list_to_set_cons. simpl length.
  rewrite size_union_alt, size_singleton.
  assert (size (list_to_set l ∖ {[x]} : gset A) ≤ size (list_to_set l : gset A))%nat; [|lia].
  apply subseteq_size. set_solver.
Qed.

(** ** Machine integers: [usize] is 64 bits wide *)
Definition u64_max : Z := 2 ^ 64 - 1.
Definition u64_checked_add (a b : Z) : option Z :=
  if (a + b <=? u64_max)%Z then Some (a + b)%Z else None.
Definition u64_saturating_add (a b : Z) : Z := Z.min (a + b) u64_max.
Definition u64_saturating_mul (a b : Z) : Z := Z.min (a * b) u64_max.
