(* ===== verification/Order.v ===== *)
(** * Total orders and the ordered iteration of [BTreeMap] and [BTreeSet]

    Rust's [Ord] as a class with its laws, the derived (lexicographic) orders of
    strings, options, vectors and tuples, and the iteration order of the standard
    ordered collections.  A [BTreeMap<K, V>] is modelled by [gmap K V] and a
    [BTreeSet<K>] by [gset K]; [btree_iter] and [bset_iter] list them in ascending
    key order, as [iter()] does. *)
From S2P Require Import Prelude.

(** ** [Ord] *)
Class Ord (A : Type) : Type := cmp : A → A → comparison.
Class OrdLaws (A : Type) `{Ord A} : Prop := {
  cmp_eq (x y : A) : cmp x y = Eq ↔ x = y;
  cmp_opp (x y : A) : cmp y x = CompOpp (cmp x y);
  cmp_trans (x y z : A) : cmp x y = Lt → cmp y z = Lt → cmp x z = Lt;
}.

Definition lt_of {A} `{Ord A} (x y : A) : Prop := cmp x y = Lt.
Definition le_of {A} `{Ord A} (x y : A) : Prop := cmp x y ≠ Gt.
Definition ltb {A} `{Ord A} (x y : A) : bool :=
  match cmp x y with Lt => true | _ => false end.
Definition leb {A} `{Ord A} (x y : A) : bool :=
  match cmp x y with Gt => false | _ => true end.
#[export] Instance le_of_dec {A} `{Ord A} : RelDecision (@le_of A _).
Proof. intros x y. unfold le_of. apply _. Defined.

Section ord_theory.
Context {A : Type} `{OrdLaws A}.
Implicit Types x y z : A.

Lemma cmp_refl x : cmp x x = Eq.
Proof. by apply cmp_eq. Qed.
Lemma cmp_gt x y : cmp x y = Gt ↔ cmp y x = Lt.
Proof. rewrite (cmp_opp x y). by destruct (cmp x y). Qed.
Lemma lt_of_irrefl x : ¬ lt_of x x.
Proof. unfold lt_of. by rewrite cmp_refl. Qed.
Lemma le_of_lt_eq x y : le_of x y ↔ lt_of x y ∨ x = y.
Proof.
  unfold le_of, lt_of. rewrite <-cmp_eq. destruct (cmp x y); naive_solver.
Qed.
Lemma leb_le x y : leb x y = true ↔ le_of x y.
Proof. unfold leb, le_of. destruct (cmp x y); naive_solver. Qed.
Lemma ltb_lt x y : ltb x y = true ↔ lt_of x y.
Proof. unfold ltb, lt_of. destruct (cmp x y); naive_solver. Qed.
Lemma ltb_leb x y : ltb x y = negb (leb y x).
Proof. unfold ltb, leb. rewrite (cmp_opp x y). by destruct (cmp x y). Qed.
Lemma ltb_false x y : ltb x y = false ↔ le_of y x.
Proof. rewrite ltb_leb, negb_false_iff. apply leb_le. Qed.

#[export] Instance lt_of_trans : Transitive (@lt_of A _).
Proof. intros x y z. apply cmp_trans. Qed.
#[export] Instance le_of_refl : Reflexive (@le_of A _).
Proof. intros x. unfold le_of. by rewrite cmp_refl. Qed.
#[export] Instance le_of_trans : Transitive (@le_of A _).
Proof.
  intros x y z. rewrite !le_of_lt_eq. intros [?| ->] [?| ->]; eauto.
  left. by etrans.
Qed.
#[export] Instance le_of_antisymm : AntiSymm (=) (@le_of A _).
Proof.
  intros x y Hxy Hyx. apply cmp_eq. unfold le_of in *.
  rewrite (cmp_opp x y) in Hyx. by destruct (cmp x y).
Qed.
#[export] Instance le_of_total : Total (@le_of A _).
Proof.
  intros x y. unfold le_of. rewrite (cmp_opp x y). destruct (cmp x y); auto.
Qed.
Lemma not_le_of x y : ¬ le_of x y ↔ lt_of y x.
Proof. rewrite <-leb_le, not_true_iff_false, <-ltb_lt, ltb_leb.
  by destruct (leb x y). Qed.
Lemma lt_le_trans x y z : lt_of x y → le_of y z → lt_of x z.
Proof. rewrite le_of_lt_eq. intros ? [?| ->]; [by etrans|done]. Qed.
Lemma le_lt_trans x y z : le_of x y → lt_of y z → lt_of x z.
Proof. rewrite le_of_lt_eq. intros [?| ->] ?; [by etrans|done]. Qed.
Lemma lt_le x y : lt_of x y → le_of x y.
Proof. rewrite le_of_lt_eq. by left. Qed.
End ord_theory.

(** ** Instances *)
#[export] Instance unit_ord : Ord () := λ _ _, Eq.
#[export] Instance unit_ord_laws : OrdLaws ().
Proof. split; [by intros [] []|by intros [] []|by intros [] [] []]. Qed.

#[export] Instance Z_ord : Ord Z := Z.compare.
#[export] Instance Z_ord_laws : OrdLaws Z.
Proof.
  split; unfold cmp, Z_ord.
  - intros. apply Z.compare_eq_iff.
  - intros. apply Z.compare_antisym.
  - intros x y z. rewrite !Z.compare_lt_iff. lia.
Qed.

#[export] Instance N_ord : Ord N := N.compare.
#[export] Instance N_ord_laws : OrdLaws N.
Proof.
  split; unfold cmp, N_ord.
  - intros. apply N.compare_eq_iff.
  - intros. apply N.compare_antisym.
  - intros x y z. rewrite !N.compare_lt_iff. lia.
Qed.

#[export] Instance nat_ord : Ord nat := Nat.compare.
#[export] Instance nat_ord_laws : OrdLaws nat.
Proof.
  split; unfold cmp, nat_ord.
  - intros. apply Nat.compare_eq_iff.
  - intros. apply Nat.compare_antisym.
  - intros x y z. rewrite !Nat.compare_lt_iff. lia.
Qed.

#[export] Instance bool_ord : Ord bool := Bool.compare.
#[export] Instance bool_ord_laws : OrdLaws bool.
Proof. split; [by intros [] []|by intros [] []|by intros [] [] []]. Qed.

(** [str] compares byte by byte. *)
#[export] Instance string_ord : Ord string := String.compare.
#[export] Instance string_ord_laws : OrdLaws string.
Proof.
  split; unfold cmp, string_ord.
  - intros x y. split; [apply String.compare_eq_iff|]. intros ->.
    induction y as [|a y IH]; simpl; [done|]. unfold Ascii.compare. by rewrite N.compare_refl.
  - intros. apply String.compare_antisym.
  - intros x. induction x as [|a x IH]; intros [|b y] [|c z]; simpl; try done.
    unfold Ascii.compare.
    destruct (N.compare_spec (Ascii.N_of_ascii a) (Ascii.N_of_ascii b)) as [Hab|Hab|Hab]; [| |done];
    destruct (N.compare_spec (Ascii.N_of_ascii b) (Ascii.N_of_ascii c)) as [Hbc|Hbc|Hbc]; try done;
    destruct (N.compare_spec (Ascii.N_of_ascii a) (Ascii.N_of_ascii c)) as [Hac|Hac|Hac];
      try done; try lia. apply IH.
Qed.

#[export] Instance option_ord {A} `{Ord A} : Ord (option A) := λ x y,
  match x, y with
  | None, None => Eq
  | None, Some _ => Lt
  | Some _, None => Gt
  | Some x, Some y => cmp x y
  end.
#[export] Instance option_ord_laws {A} `{OrdLaws A} : OrdLaws (option A).
Proof.
  split; unfold cmp at 1, option_ord.
  - intros [x|] [y|]; try done. rewrite cmp_eq. naive_solver.
  - intros [x|] [y|]; try done. exact (cmp_opp x y).
  - unfold cmp, option_ord. intros [x|] [y|] [z|]; try done. apply cmp_trans.
Qed.

Definition cmp_then (c d : comparison) : comparison :=
  match c with Eq => d | _ => c end.
#[export] Instance prod_ord {A B} `{Ord A, Ord B} : Ord (A * B) := λ x y,
  cmp_then (cmp x.1 y.1) (cmp x.2 y.2).
#[export] Instance prod_ord_laws {A B} `{OrdLaws A, OrdLaws B} : OrdLaws (A * B).
Proof.
  split.
  - intros [x1 x2] [y1 y2]. unfold cmp, prod_ord, cmp_then; simpl.
    destruct (cmp x1 y1) eqn:E1; [apply cmp_eq in E1 as ->; rewrite cmp_eq; naive_solver| |];
      split; try done; intros [= -> ->]; by rewrite cmp_refl in E1.
  - intros [x1 x2] [y1 y2]. unfold cmp at 1 2, prod_ord, cmp_then; simpl.
    rewrite (cmp_opp x1 y1), (cmp_opp x2 y2). by destruct (cmp x1 y1).
  - intros [x1 x2] [y1 y2] [z1 z2]. unfold cmp, prod_ord, cmp_then; simpl.
    destruct (cmp x1 y1) eqn:E1, (cmp y1 z1) eqn:E2; try done; rewrite ?cmp_eq in *; subst.
    + rewrite cmp_refl. apply cmp_trans.
    + by rewrite E2.
    + by rewrite E1.
    + by rewrite (cmp_trans _ _ _ E1 E2).
Qed.

Fixpoint list_cmp {A} `{Ord A} (l k : list A) : comparison :=
  match l, k with
  | [], [] => Eq
  | [], _ :: _ => Lt
  | _ :: _, [] => Gt
  | x :: l, y :: k => cmp_then (cmp x y) (list_cmp l k)
  end.
#[export] Instance list_ord {A} `{Ord A} : Ord (list A) := list_cmp.
#[export] Instance list_ord_laws {A} `{OrdLaws A} : OrdLaws (list A).
Proof.
  split; unfold cmp at 1, list_ord.
  - intros x. induction x as [|a x IH]; intros [|b y]; simpl; [by split..|].
    unfold cmp_then. destruct (cmp a b) eqn:E.
    + apply cmp_eq in E as ->. rewrite IH. naive_solver.
    + split; [done|]. intros [= -> ->]. by rewrite cmp_refl in E.
    + split; [done|]. intros [= -> ->]. by rewrite cmp_refl in E.
  - intros x y. change (list_cmp y x = CompOpp (list_cmp x y)). revert y.
    induction x as [|a x IH]; intros [|b y]; simpl; [done..|].
    unfold cmp_then. rewrite (cmp_opp a b). destruct (cmp a b); simpl; [apply IH|done..].
  - intros x. unfold cmp. induction x as [|a x IH]; intros [|b y] [|c z]; simpl; try done.
    unfold cmp_then.
    destruct (cmp a b) eqn:E1, (cmp b c) eqn:E2; try done; rewrite ?cmp_eq in *; subst.
    + rewrite cmp_refl. apply IH.
    + by rewrite E2.
    + by rewrite E1.
    + by rewrite (cmp_trans _ _ _ E1 E2).
Qed.

(** Records derive their order from the tuple of their fields. *)
Definition cmp_on {A B} `{Ord B} (f : A → B) : Ord A := λ x y, cmp (f x) (f y).
Lemma cmp_on_laws {A B} `{OrdLaws B} (f : A → B) `{!Inj (=) (=) f} :
  @OrdLaws A (cmp_on f).
Proof.
  split; unfold cmp at 1, cmp_on.
  - intros x y. rewrite cmp_eq. split; [apply (inj f)|by intros ->].
  - intros x y. exact (cmp_opp (f x) (f y)).
  - intros x y z. exact (cmp_trans (f x) (f y) (f z)).
Qed.

(** [std::cmp::Reverse] *)
Record Reverse (A : Type) := mk_reverse { reversed : A }.
Arguments mk_reverse {A} reversed.
Arguments reversed {A} r.
#[export] Instance Reverse_ord {A} `{Ord A} : Ord (Reverse A) := λ x y,
  cmp (reversed y) (reversed x).
#[export] Instance Reverse_ord_laws {A} `{OrdLaws A} : OrdLaws (Reverse A).
Proof.
  split; unfold cmp at 1, Reverse_ord.
  - intros [x] [y]; simpl. rewrite cmp_eq. naive_solver.
  - intros [x] [y]. exact (cmp_opp y x).
  - intros [x] [y] [z]. unfold cmp, Reverse_ord; simpl. intros ??. by apply (cmp_trans z y x).
Qed.

(** ** Sorting and deduplication of vectors *)
(** [v.sort_by(|a, b| key(a).cmp(&key(b)))], a stable sort; [v.sort()] is [sort]. *)
Definition key_le {A K} `{Ord K} (key : A → K) (x y : A) : Prop := le_of (key x) (key y).
#[export] Instance key_le_dec {A K} `{Ord K} (key : A → K) : RelDecision (key_le key).
Proof. intros x y. unfold key_le. apply _. Defined.
Fixpoint insert_by {A K} `{Ord K} (key : A → K) (x : A) (l : list A) : list A :=
  match l with
  | [] => [x]
  | y :: l => if decide (key_le key x y) then x :: y :: l else y :: insert_by key x l
  end.
Definition sort_by {A K} `{Ord K} (key : A → K) : list A → list A :=
  foldr (insert_by key) [].
Definition sort {A} `{Ord A} : list A → list A := sort_by id.
(** [v.dedup()] removes consecutive duplicates. *)
Fixpoint dedup {A} `{EqDecision A} (l : list A) : list A :=
  match l with
  | [] => []
  | x :: l => match dedup l with
              | y :: l' => if decide (x = y) then y :: l' else x :: y :: l'
              | [] => [x]
              end
  end.
(** Is the vector strictly ascending? *)
Fixpoint ascending {A} `{Ord A} (l : list A) : bool :=
  match l with
  | [] => true
  | x :: l => match l with [] => true | y :: _ => ltb x y && ascending l end
  end.

Section sort_theory.
Context {A K : Type} `{OrdLaws K} (key : A → K).

Lemma insert_by_perm x l : insert_by key x l ≡ₚ x :: l.
Proof.
  induction l as [|y l IH]; simpl; [done|]. case_decide; [done|].
  rewrite IH. constructor.
Qed.
Lemma sort_by_perm l : sort_by key l ≡ₚ l.
Proof.
  induction l as [|x l IH]; simpl; [done|]. by rewrite insert_by_perm, IH.
Qed.
Lemma elem_of_sort_by x l : x ∈ sort_by key l ↔ x ∈ l.
Proof. by rewrite sort_by_perm. Qed.

Lemma insert_by_sorted x l :
  StronglySorted (key_le key) l → StronglySorted (key_le key) (insert_by key x l).
Proof.
  induction 1 as [|y l Hl IH Hy]; simpl; [by repeat constructor|].
  case_decide as Hxy.
  - constructor; [by constructor|]. constructor; [done|].
    eapply Forall_impl; [exact Hy|]. unfold key_le in *. simpl. intros z Hz. by etrans.
  - constructor; [done|]. rewrite Forall_forall in *. intros z.
    rewrite insert_by_perm, elem_of_cons. intros [->|?]; [|by apply Hy].
    unfold key_le in *. apply lt_le. by apply not_le_of.
Qed.
Lemma sort_by_sorted l : StronglySorted (key_le key) (sort_by key l).
Proof. induction l; simpl; [constructor|]. by apply insert_by_sorted. Qed.

(** Sorted with distinct keys is strictly sorted. *)
Lemma sorted_by_strict l :
  StronglySorted (key_le key) l → NoDup (key <$> l) →
  StronglySorted (λ x y, lt_of (key x) (key y)) l.
Proof.
  induction 1 as [|x l Hl IH Hx]; simpl; [constructor|].
  intros [Hxl Hnd]%NoDup_cons. constructor; [auto|].
  rewrite Forall_forall in *. intros y Hy.
  destruct (proj1 (le_of_lt_eq (key x) (key y)) (Hx _ Hy)) as [?|Heq]; [done|].
  destruct Hxl. rewrite Heq. by apply list_elem_of_fmap_2.
Qed.

(** Sorting a sorted vector changes nothing. *)
Lemma sort_by_id l : StronglySorted (key_le key) l → sort_by key l = l.
Proof.
  induction 1 as [|x l Hl IH Hx]; simpl; [done|]. rewrite IH.
  destruct l as [|y l]; simpl; [done|]. rewrite decide_True; [done|].
  by inversion Hx.
Qed.
End sort_theory.

Section ascending_theory.
Context {A : Type} `{OrdLaws A}.

Lemma ascending_sorted (l : list A) : ascending l = true ↔ StronglySorted lt_of l.
Proof.
  induction l as [|x l IH]; simpl; [by repeat constructor|].
  destruct l as [|y l]; [by repeat constructor|].
  rewrite andb_true_iff, ltb_lt, IH. split.
  - intros [Hxy Hl]. constructor; [done|]. constructor; [done|].
    inversion Hl as [|? ? ? Hy]. eapply Forall_impl; [exact Hy|].
    intros z. by apply cmp_trans.
  - intros Hl. inversion Hl as [|? ? ? Hx]. split; [by inversion Hx|done].
Qed.

Lemma sorted_lt_NoDup (l : list A) : StronglySorted lt_of l → NoDup l.
Proof.
  induction 1 as [|x l Hl IH Hx]; constructor; [|done].
  rewrite Forall_forall in Hx. intros ?%Hx. by eapply lt_of_irrefl.
Qed.
Lemma sorted_lt_le (l : list A) : StronglySorted lt_of l → StronglySorted le_of l.
Proof.
  induction 1 as [|x l Hl IH Hx]; constructor; [done|].
  eapply Forall_impl; [done|]. apply lt_le.
Qed.
Lemma sorted_le_lt (l : list A) :
  StronglySorted le_of l → NoDup l → StronglySorted lt_of l.
Proof.
  induction 1 as [|x l Hl IH Hx]; [constructor|].
  intros [Hxl Hnd]%NoDup_cons. constructor; [auto|].
  rewrite Forall_forall in *. intros y Hy.
  destruct (proj1 (le_of_lt_eq x y) (Hx _ Hy)) as [?| ->]; done.
Qed.

(** An ascending vector is determined by its elements. *)
Lemma sorted_lt_unique (l k : list A) :
  StronglySorted lt_of l → StronglySorted lt_of k →
  (∀ x, x ∈ l ↔ x ∈ k) → l = k.
Proof.
  intros Hl Hk Hlk. apply (StronglySorted_unique le_of);
    [by apply sorted_lt_le..|].
  apply NoDup_Permutation; [by apply sorted_lt_NoDup..|done].
Qed.

Lemma sort_sorted (l : list A) : StronglySorted le_of (sort l).
Proof. apply (sort_by_sorted (A:=A) id). Qed.
Lemma sort_perm (l : list A) : sort l ≡ₚ l.
Proof. apply (sort_by_perm (A:=A) id). Qed.
End ascending_theory.

Lemma elem_of_dedup {A} `{EqDecision A} (l : list A) x : x ∈ dedup l ↔ x ∈ l.
Proof.
  induction l as [|y l IH]; simpl; [done|].
  destruct (dedup l) as [|z k] eqn:E; [set_solver|].
  case_decide as Hyz; subst; set_solver.
Qed.
Lemma elem_of_sort_dedup {A} `{Ord A} `{EqDecision A} (l : list A) x : x ∈ dedup (sort l) ↔ x ∈ l.
Proof. by rewrite elem_of_dedup, sort_perm. Qed.

Section dedup_theory.
Context {A : Type} `{OrdLaws A} `{EqDecision A}.

Lemma dedup_sorted (l : list A) :
  StronglySorted le_of l → StronglySorted lt_of (dedup l).
Proof.
  induction 1 as [|x l Hl IH Hx]; simpl; [constructor|].
  pose proof (elem_of_dedup l) as Hd.
  destruct (dedup l) as [|z k] eqn:E; [by repeat constructor|].
  case_decide as Hxz; [done|]. constructor; [done|].
  rewrite Forall_forall in *. intros y Hy.
  assert (lt_of x z) as Hlt.
  { destruct (proj1 (le_of_lt_eq x z)) as [?| ->]; try done. apply Hx, Hd. by left. }
  apply elem_of_cons in Hy as [->|Hy]; [done|].
  inversion IH as [|? ? ? Hz]; subst. rewrite Forall_forall in Hz.
  etrans; [done|]. by apply Hz.
Qed.

Lemma sort_dedup_ascending (l : list A) : StronglySorted lt_of (dedup (sort l)).
Proof. apply dedup_sorted, sort_sorted. Qed.

(** Sorting and deduplicating is idempotent exactly on ascending vectors. *)
Lemma sort_dedup_id (l : list A) :
  dedup (sort l) = l ↔ ascending l = true.
Proof.
  rewrite ascending_sorted. split.
  - intros <-. apply sort_dedup_ascending.
  - intros Hl. apply sorted_lt_unique; [apply sort_dedup_ascending|done|].
    apply elem_of_sort_dedup.
Qed.
End dedup_theory.

(** ** Ordered collections *)
Definition btree_iter {K V} `{Ord K} `{Countable K} (m : gmap K V) : list (K * V) :=
  sort_by fst (map_to_list m).
Definition btree_keys {K V} `{Ord K} `{Countable K} (m : gmap K V) : list K :=
  (btree_iter m).*1.
Definition btree_values {K V} `{Ord K} `{Countable K} (m : gmap K V) : list V :=
  (btree_iter m).*2.
Definition bset_iter {K} `{Ord K} `{Countable K} (X : gset K) : list K :=
  sort (elements X).
Definition contains_key {K V} `{Countable K} (k : K) (m : gmap K V) : bool :=
  match m !! k with Some _ => true | None => false end.
(** [iter().collect::<BTreeMap<_, _>>()]: a later entry replaces an earlier one. *)
Definition btree_collect {K V} `{Countable K} (l : list (K * V)) : gmap K V :=
  foldl (λ m kv, <[kv.1 := kv.2]> m) ∅ l.

Section btree_theory.
Context {K V : Type} `{OrdLaws K} `{Countable K}.
Implicit Types m : gmap K V.

Lemma btree_iter_perm m : btree_iter m ≡ₚ map_to_list m.
Proof. apply sort_by_perm. Qed.
Lemma elem_of_btree_iter m k v : (k, v) ∈ btree_iter m ↔ m !! k = Some v.
Proof. by rewrite btree_iter_perm, elem_of_map_to_list. Qed.
Lemma elem_of_btree_iter_pair m kv : kv ∈ btree_iter m ↔ m !! kv.1 = Some kv.2.
Proof. destruct kv. apply elem_of_btree_iter. Qed.
Lemma elem_of_btree_keys m k : k ∈ btree_keys m ↔ is_Some (m !! k).
Proof.
  unfold btree_keys. rewrite list_elem_of_fmap. split.
  - intros ([k' v]&->&?%elem_of_btree_iter). eauto.
  - intros [v ?]. exists (k, v). by rewrite elem_of_btree_iter.
Qed.
Lemma elem_of_btree_values m v : v ∈ btree_values m ↔ ∃ k, m !! k = Some v.
Proof.
  unfold btree_values. rewrite list_elem_of_fmap. split.
  - intros ([k v']&->&?%elem_of_btree_iter). eauto.
  - intros [k ?]. exists (k, v). by rewrite elem_of_btree_iter.
Qed.
Lemma btree_keys_ascending m : StronglySorted lt_of (btree_keys m).
Proof.
  apply sorted_le_lt.
  - pose proof (sort_by_sorted fst (map_to_list m)) as Hs. fold (btree_iter m) in Hs.
    unfold btree_keys. induction Hs as [|x l Hl IH Hx]; simpl; constructor; [done|].
    apply Forall_forall. intros k (y&->&Hy)%list_elem_of_fmap.
    exact (proj1 (Forall_forall _ _) Hx y Hy).
  - unfold btree_keys. rewrite btree_iter_perm. apply NoDup_fst_map_to_list.
Qed.
Lemma btree_iter_NoDup m : NoDup (btree_iter m).
Proof. rewrite btree_iter_perm. apply NoDup_map_to_list. Qed.
Lemma length_btree_iter m : length (btree_iter m) = size m.
Proof. rewrite btree_iter_perm. apply length_map_to_list. Qed.
Lemma btree_iter_nil m : btree_iter m = [] ↔ m = ∅.
Proof.
  rewrite <-length_zero_iff_nil, length_btree_iter. apply map_size_empty_iff.
Qed.
Lemma contains_key_true m k : contains_key k m = true ↔ is_Some (m !! k).
Proof. unfold contains_key. destruct (m !! k); split; [eauto|done| |intros [? ?]]; done. Qed.
Lemma contains_key_false m k : contains_key k m = false ↔ m !! k = None.
Proof. unfold contains_key. by destruct (m !! k). Qed.

Lemma elem_of_bset_iter (X : gset K) k : k ∈ bset_iter X ↔ k ∈ X.
Proof. unfold bset_iter. by rewrite sort_perm, elem_of_elements. Qed.
Lemma bset_iter_ascending (X : gset K) : StronglySorted lt_of (bset_iter X).
Proof.
  apply sorted_le_lt; [apply sort_sorted|]. unfold bset_iter.
  rewrite sort_perm. apply NoDup_elements.
Qed.

(** Rebuilding a map from its iteration gives the map back. *)
Lemma btree_collect_lookup (l : list (K * V)) k v :
  NoDup l.*1 → (k, v) ∈ l → btree_collect l !! k = Some v.
Proof.
  unfold btree_collect. generalize (∅ : gmap K V) as m0.
  induction l as [|[k' v'] l IH]; simpl; intros m0 Hnd Hin; [by apply not_elem_of_nil in Hin|].
  apply NoDup_cons in Hnd as [Hk' Hnd].
  apply elem_of_cons in Hin as [[= -> ->]|Hin]; [|by apply IH].
  clear IH. assert (<[k':=v']> m0 !! k' = Some v') as Hm by apply lookup_insert_eq.
  revert Hm Hk' Hnd. generalize (<[k':=v']> m0) as m. clear.
  induction l as [|[k2 v2] l IH]; simpl; intros m Hm Hk Hnd; [done|].
  apply not_elem_of_cons in Hk as [Hne Hk]. apply NoDup_cons in Hnd as [_ Hnd].
  apply IH; [|done..]. by rewrite lookup_insert_ne.
Qed.
Lemma btree_collect_None (l : list (K * V)) k :
  k ∉ l.*1 → btree_collect l !! k = None.
Proof.
  unfold btree_collect.
  assert ((∅ : gmap K V) !! k = None) as Hm by apply lookup_empty.
  revert Hm. generalize (∅ : gmap K V) as m.
  induction l as [|[k' v'] l IH]; simpl; intros m Hm Hk; [done|].
  apply not_elem_of_cons in Hk as [Hne Hk]. apply IH; [|done].
  by rewrite lookup_insert_ne.
Qed.
Lemma btree_collect_is_Some (l : list (K * V)) k v : (k, v) ∈ l → is_Some (btree_collect l !! k).
Proof.
  intros Hin. unfold btree_collect.
  assert (is_Some ((∅ : gmap K V) !! k) ∨ (k, v) ∈ l) as H' by (by right). clear Hin. revert H'.
  generalize (∅ : gmap K V) as m. induction l as [|[k' v'] l IH]; simpl; intros m H'.
  - by destruct H' as [|?%not_elem_of_nil].
  - apply IH. destruct (decide (k' = k)) as [->|Hne]; [left; rewrite lookup_insert_eq; by eexists|].
    rewrite lookup_insert_ne by done. destruct H' as [|[[= -> ->]|]%elem_of_cons]; [by left|done|by right].
Qed.
Lemma btree_collect_iter m : btree_collect (btree_iter m) = m.
Proof.
  assert (NoDup (btree_iter m).*1) as Hnd.
  { rewrite btree_iter_perm. apply NoDup_fst_map_to_list. }
  apply map_eq. intros k. destruct (m !! k) as [v|] eqn:Hk.
  - apply btree_collect_lookup; [done|]. by apply elem_of_btree_iter.
  - apply btree_collect_None. change (k ∉ btree_keys m).
    rewrite elem_of_btree_keys, Hk. by intros [].
Qed.

Lemma btree_collect_elem (l : list (K * V)) k v :
  btree_collect l !! k = Some v → (k, v) ∈ l.
Proof.
  unfold btree_collect. intros Hk.
  enough ((k, v) ∈ l ∨ (∅ : gmap K V) !! k = Some v) as [?|Hn]; [done|by rewrite lookup_empty in Hn|].
  revert Hk. generalize (∅ : gmap K V) as m.
  induction l as [|[k' v'] l IH]; simpl; intros m Hm; [by right|].
  apply IH in Hm as [?|[[-> ->]|[_ ?]]%lookup_insert_Some]; [by left; right|by left; left|by right].
Qed.
Lemma btree_collect_fmap {W} (f : V → W) (l : list (K * V)) :
  btree_collect ((λ kv, (kv.1, f kv.2)) <$> l) = f <$> btree_collect l.
Proof.
  unfold btree_collect. rewrite <-(fmap_empty f : f <$> (∅ : gmap K V) = ∅). generalize (∅ : gmap K V) as m.
  induction l as [|[k v] l IH]; simpl; intros m; [done|]. by rewrite <-IH, fmap_insert.
Qed.
(** Entries with ascending keys are the iteration of their map. *)
Lemma keys_sorted (l : list (K * V)) :
  StronglySorted lt_of l.*1 ↔ StronglySorted (λ x y, lt_of x.1 y.1) l.
Proof.
  induction l as [|x l IH]; simpl; [by repeat constructor|]. split; intros Hs;
    apply StronglySorted_inv in Hs as [Hl Hx]; (constructor; [by apply IH|]).
  - apply Forall_forall. intros y Hy. rewrite Forall_forall in Hx.
    by apply Hx, list_elem_of_fmap_2.
  - apply Forall_forall. intros k (y&->&Hy)%list_elem_of_fmap. rewrite Forall_forall in Hx.
    by apply Hx.
Qed.
Lemma sorted_keys_unique (l k : list (K * V)) :
  StronglySorted lt_of l.*1 → StronglySorted lt_of k.*1 → l ≡ₚ k → l = k.
Proof.
  rewrite !keys_sorted. intros Hl Hk.
  assert (AntiSymm (=) (λ x y : K * V, lt_of x.1 y.1)).
  { intros x y Hxy Hyx. exfalso. eapply lt_of_irrefl, cmp_trans; [exact Hxy|exact Hyx]. }
  by apply (StronglySorted_unique (λ x y : K * V, lt_of x.1 y.1)).
Qed.
Lemma btree_iter_collect (l : list (K * V)) :
  StronglySorted lt_of l.*1 → btree_iter (btree_collect l) = l.
Proof.
  intros Hl. apply sorted_keys_unique; [apply btree_keys_ascending|done|].
  apply NoDup_Permutation.
  - apply btree_iter_NoDup.
  - by eapply NoDup_fmap_1, sorted_lt_NoDup.
  - intros [k v]. rewrite elem_of_btree_iter. apply sorted_lt_NoDup in Hl. split.
    + intros Hk. destruct (decide (k ∈ l.*1)) as [Hin|Hin].
      * apply list_elem_of_fmap in Hin as ([k' v']&->&Hin). simpl in *.
        pose proof (btree_collect_lookup _ _ _ Hl Hin). congruence.
      * pose proof (btree_collect_None _ _ Hin). congruence.
    + by apply btree_collect_lookup.
Qed.
End btree_theory.

(** Mapping the values of an iteration. *)
Lemma btree_iter_fmap {K V W} `{OrdLaws K} `{Countable K} (f : V → W) (m : gmap K V) :
  btree_iter (f <$> m) = (λ kv, (kv.1, f kv.2)) <$> btree_iter m.
Proof.
  assert (((λ kv, (kv.1, f kv.2)) <$> btree_iter m).*1 = btree_keys m) as Hkeys.
  { unfold btree_keys. rewrite <-list_fmap_compose. by apply list_fmap_ext. }
  apply sorted_keys_unique; [apply btree_keys_ascending|rewrite Hkeys; apply btree_keys_ascending|].
  apply NoDup_Permutation.
  - apply btree_iter_NoDup.
  - apply (NoDup_fmap_1 fst). rewrite Hkeys. apply sorted_lt_NoDup, btree_keys_ascending.
  - intros [k w]. rewrite elem_of_btree_iter, lookup_fmap, fmap_Some, list_elem_of_fmap. split.
    + intros (v&Hv&->). exists (k, v). by rewrite elem_of_btree_iter.
    + intros ([k' v]&[= -> ->]&Hv%elem_of_btree_iter). by exists v.
Qed.
