(* ===== verification/RustStr.v ===== *)
(** * Rust string semantics

    [str] as its UTF-8 bytes: a [string] is a list of [ascii] bytes.  The methods
    of [str], [char], [u8], [u64] and [Path] that the sources call are defined
    here with the standard library's documented behaviour, together with the
    lemmas that relate splitting, stripping and joining. *)
From S2P Require Import Prelude Order.
From Stdlib Require Ascii.
Export (notations) Stdlib.Strings.Ascii.
Export Stdlib.Strings.Ascii (ascii(..), N_of_ascii, ascii_of_N, ascii_N_embedding, N_ascii_bounded).
From Stdlib Require Import DecimalString.

(** ** Bytes *)
Definition code (a : ascii) : Z := Z.of_N (N_of_ascii a).
Definition between (lo hi c : Z) : bool := (lo <=? c)%Z && (c <=? hi)%Z.
Definition byte_is_digit (a : ascii) : bool := between 48 57 (code a).
Definition byte_is_lower (a : ascii) : bool := between 97 122 (code a).
Definition byte_is_upper (a : ascii) : bool := between 65 90 (code a).
Definition byte_is_alphabetic (a : ascii) : bool := byte_is_lower a || byte_is_upper a.
Definition byte_is_alphanumeric (a : ascii) : bool := byte_is_alphabetic a || byte_is_digit a.
Definition byte_is_control (a : ascii) : bool := between 0 31 (code a) || (code a =? 127)%Z.
Definition byte_is_ascii (a : ascii) : bool := (code a <? 128)%Z.
Definition to_lower (a : ascii) : ascii :=
  if byte_is_upper a then ascii_of_N (Z.to_N (code a + 32)) else a.

(** [char::to_digit(16)] on a byte. *)
Definition to_digit16 (a : ascii) : option Z :=
  if byte_is_digit a then Some (code a - 48)%Z
  else if between 97 102 (code a) then Some (code a - 87)%Z
  else if between 65 70 (code a) then Some (code a - 55)%Z
  else None.
Definition is_hexdigit (a : ascii) : bool :=
  match to_digit16 a with Some _ => true | None => false end.
Definition upper_hex_digit (n : Z) : ascii :=
  ascii_of_N (Z.to_N (if (n <? 10)%Z then 48 + n else 55 + n)).
(** [format!("{byte:02X}")] *)
Definition format_02X (a : ascii) : string :=
  String (upper_hex_digit (code a / 16)) (String (upper_hex_digit (code a mod 16)) "").

(** ** Traversals *)
Fixpoint str_forallb (f : ascii → bool) (s : string) : bool :=
  match s with "" => true | String a s => f a && str_forallb f s end.
Definition str_existsb (f : ascii → bool) (s : string) : bool :=
  negb (str_forallb (λ a, negb (f a)) s).
Fixpoint str_map (f : ascii → ascii) (s : string) : string :=
  match s with "" => "" | String a s => String (f a) (str_map f s) end.
Fixpoint str_flat_map (f : ascii → string) (s : string) : string :=
  match s with "" => "" | String a s => f a +:+ str_flat_map f s end.
Definition ascii_eqb (a b : ascii) : bool := bool_decide (a = b).
Definition str_eqb (s t : string) : bool := bool_decide (s = t).
Definition contains_char (c : ascii) (s : string) : bool := str_existsb (ascii_eqb c) s.
Definition contains_any (cs : list ascii) (s : string) : bool :=
  existsb (λ c, contains_char c s) cs.
Definition str_len (s : string) : Z := Z.of_nat (String.length s).
Definition is_empty (s : string) : bool := match s with "" => true | _ => false end.
Definition to_ascii_lowercase : string → string := str_map to_lower.
Definition eq_ignore_ascii_case (s t : string) : bool :=
  str_eqb (to_ascii_lowercase s) (to_ascii_lowercase t).
Definition str_is_ascii : string → bool := str_forallb byte_is_ascii.

(** ** Prefixes and suffixes *)
Fixpoint strip_prefix (p s : string) : option string :=
  match p, s with
  | "", _ => Some s
  | String a p, String b s => if ascii_eqb a b then strip_prefix p s else None
  | _, "" => None
  end.
Definition starts_with (p s : string) : bool :=
  match strip_prefix p s with Some _ => true | None => false end.
Fixpoint ends_with (p s : string) : bool :=
  str_eqb p s || match s with "" => false | String _ s => ends_with p s end.
Definition starts_with_char (c : ascii) (s : string) : bool :=
  match s with "" => false | String a _ => ascii_eqb c a end.
Fixpoint ends_with_char (c : ascii) (s : string) : bool :=
  match s with
  | "" => false
  | String a "" => ascii_eqb c a
  | String _ s => ends_with_char c s
  end.
(** [trim_start_matches("./")] *)
Fixpoint trim_start_matches_fuel (n : nat) (p s : string) : string :=
  match n, strip_prefix p s with
  | S n, Some s' => trim_start_matches_fuel n p s'
  | _, _ => s
  end.
Definition trim_start_matches (p s : string) : string :=
  trim_start_matches_fuel (String.length s) p s.

(** ** Splitting and joining *)
(** [s.split(c)]: always at least one piece. *)
Fixpoint split (c : ascii) (s : string) : list string :=
  match s with
  | "" => [""]
  | String a s =>
      if ascii_eqb a c then "" :: split c s
      else match split c s with
           | x :: l => String a x :: l
           | [] => [String a ""]
           end
  end.
(** [s.split_once(pat)]: at the first occurrence. *)
Fixpoint split_once (pat s : string) : option (string * string) :=
  match strip_prefix pat s with
  | Some r => Some ("", r)
  | None =>
      match s with
      | "" => None
      | String a s => (λ '(x, y), (String a x, y)) <$> split_once pat s
      end
  end.
(** [s.rsplit_once(c)]: at the last occurrence. *)
Fixpoint rsplit_once (c : ascii) (s : string) : option (string * string) :=
  match s with
  | "" => None
  | String a s =>
      match rsplit_once c s with
      | Some (x, y) => Some (String a x, y)
      | None => if ascii_eqb a c then Some ("", s) else None
      end
  end.
(** [s.split(pat)] for a string pattern; every piece consumes the pattern, so the
    length of [s] is enough fuel. *)
Fixpoint split_str_fuel (n : nat) (pat s : string) : list string :=
  match n, split_once pat s with
  | S n, Some (x, y) => x :: split_str_fuel n pat y
  | _, _ => [s]
  end.
Definition split_str (pat s : string) : list string :=
  split_str_fuel (String.length s) pat s.
Fixpoint join (sep : string) (l : list string) : string :=
  match l with
  | [] => ""
  | [x] => x
  | x :: l => x +:+ sep +:+ join sep l
  end.

(** [s.replace(c, by)] *)
Definition replace_with (c : ascii) (by_ : string) : string → string :=
  str_flat_map (λ a, if ascii_eqb a c then by_ else String a "").
(** [s.rsplit_once(pat)]: at the last occurrence. *)
Fixpoint rsplit_once_str (pat s : string) : option (string * string) :=
  match match s with
        | "" => None
        | String a s => (λ '(x, y), (String a x, y)) <$> rsplit_once_str pat s
        end with
  | Some found => Some found
  | None => (λ y, ("", y)) <$> strip_prefix pat s
  end.
Fixpoint strip_suffix (suffix s : string) : option string :=
  if str_eqb s suffix then Some "" else
  match s with
  | "" => None
  | String a s => String a <$> strip_suffix suffix s
  end.
(** [s.trim_end_matches(c)] *)
Fixpoint trim_end_char (c : ascii) (s : string) : string :=
  match s with
  | "" => ""
  | String a s =>
      match trim_end_char c s with
      | "" => if ascii_eqb a c then "" else String a ""
      | rest => String a rest
      end
  end.
(** [s] before and from the first [c]. *)
Fixpoint break_at (c : ascii) (s : string) : string * string :=
  match s with
  | "" => ("", "")
  | String a rest =>
      if ascii_eqb a c then ("", s) else let '(x, y) := break_at c rest in (String a x, y)
  end.

(** [&s[n..]] *)
Fixpoint str_drop (n : nat) (s : string) : string :=
  match n, s with
  | S n, String _ s => str_drop n s
  | _, _ => s
  end.
Definition str_get (s : string) (n : nat) : option ascii := String.get n s.

(** ** Characters: UTF-8 decoding *)
(** A character with its bytes.  A byte that is not part of a well-formed
    sequence is kept with the code point [-1]; it never occurs in a [str]. *)
Definition uchar : Type := Z * string.
Definition is_continuation (a : ascii) : bool := between 128 191 (code a).
Definition low6 (a : ascii) : Z := (code a - 128)%Z.
Definition decode2 (a b : ascii) : option Z :=
  if between 194 223 (code a) && is_continuation b
  then Some ((code a - 192) * 64 + low6 b)%Z else None.
Definition decode3 (a b c : ascii) : option Z :=
  let cp := ((code a - 224) * 4096 + low6 b * 64 + low6 c)%Z in
  if between 224 239 (code a) && is_continuation b && is_continuation c
     && (2048 <=? cp)%Z && negb (between 55296 57343 cp)
  then Some cp else None.
Definition decode4 (a b c d : ascii) : option Z :=
  let cp := ((code a - 240) * 262144 + low6 b * 4096 + low6 c * 64 + low6 d)%Z in
  if between 240 244 (code a) && is_continuation b && is_continuation c
     && is_continuation d && between 65536 1114111 cp
  then Some cp else None.
Fixpoint uchars (s : string) : list uchar :=
  match s with
  | "" => []
  | String a s1 =>
      if byte_is_ascii a then (code a, String a "") :: uchars s1 else
      match s1 with
      | "" => [(-1, String a "")%Z]
      | String b s2 =>
          match decode2 a b with
          | Some cp => (cp, String a (String b "")) :: uchars s2
          | None =>
          match s2 with
          | "" => (-1, String a "")%Z :: uchars s1
          | String c s3 =>
              match decode3 a b c with
              | Some cp => (cp, String a (String b (String c ""))) :: uchars s3
              | None =>
              match s3 with
              | "" => (-1, String a "")%Z :: uchars s1
              | String d s4 =>
                  match decode4 a b c d with
                  | Some cp => (cp, String a (String b (String c (String d "")))) :: uchars s4
                  | None => (-1, String a "")%Z :: uchars s1
                  end
              end
              end
          end
          end
      end
  end.
Definition chars (s : string) : list Z := (uchars s).*1.
(** [String::from_utf8(bytes).is_ok()] *)
Definition utf8_valid (s : string) : bool := forallb (λ c, 0 <=? c)%Z (chars s).

(** [char::is_whitespace] (White_Space) and [char::is_control] (Cc). *)
Definition char_is_whitespace (c : Z) : bool :=
  between 9 13 c || (c =? 32)%Z || (c =? 133)%Z || (c =? 160)%Z || (c =? 5760)%Z
  || between 8192 8202 c || (c =? 8232)%Z || (c =? 8233)%Z || (c =? 8239)%Z
  || (c =? 8287)%Z || (c =? 12288)%Z.
Definition char_is_control (c : Z) : bool := between 0 31 c || between 127 159 c.
Definition chars_any (f : Z → bool) (s : string) : bool := existsb f (chars s).

Fixpoint ustrip (l : list uchar) : list uchar :=
  match l with
  | [] => []
  | (c, b) :: l' => if char_is_whitespace c then ustrip l' else l
  end.
Definition ustring (l : list uchar) : string := foldr (λ u s, u.2 +:+ s) "" l.
(** [String::from_utf8_lossy(bytes)]: an ill-formed sequence - a byte, with the bytes that
    could still continue it - becomes one replacement character. *)
Definition replacement : string :=
  String (ascii_of_N 239) (String (ascii_of_N 191) (String (ascii_of_N 189) "")).
Definition may_second (lead second : ascii) : bool :=
  let l := code lead in
  let s := code second in
  ((l =? 224)%Z && between 160 191 s) || (between 225 236 l && between 128 191 s)
  || ((l =? 237)%Z && between 128 159 s) || (between 238 239 l && between 128 191 s)
  || ((l =? 240)%Z && between 144 191 s) || (between 241 243 l && between 128 191 s)
  || ((l =? 244)%Z && between 128 143 s).
Definition may_third (lead third : ascii) : bool := between 240 244 (code lead) && is_continuation third.
Fixpoint lossy (l : list uchar) : string :=
  match l with
  | [] => ""
  | (c, bytes) :: l1 =>
      if (0 <=? c)%Z then bytes +:+ lossy l1 else
      replacement +:+
      match bytes, l1 with
      | String a _, (c2, String b _) :: l2 =>
          if (c2 <? 0)%Z && may_second a b then
            match l2 with
            | (c3, String d _) :: l3 => if (c3 <? 0)%Z && may_third a d then lossy l3 else lossy l2
            | _ => lossy l2
            end
          else lossy l1
      | _, _ => lossy l1
      end
  end.
Definition to_string_lossy (s : string) : string := lossy (uchars s).
(** [s.trim()] *)
Definition trim (s : string) : string :=
  ustring (reverse (ustrip (reverse (ustrip (uchars s))))).
Fixpoint ufields (l : list uchar) : string * list string :=
  match l with
  | [] => ("", [])
  | (c, b) :: l =>
      let '(cur, rest) := ufields l in
      if char_is_whitespace c
      then ("", if is_empty cur then rest else cur :: rest)
      else (b +:+ cur, rest)
  end.
(** [s.split_whitespace()] *)
Definition split_whitespace (s : string) : list string :=
  let '(cur, rest) := ufields (uchars s) in
  if is_empty cur then rest else cur :: rest.

(** ** Numbers *)
Fixpoint digits_value (acc : Z) (s : string) : option Z :=
  match s with
  | "" => Some acc
  | String a s =>
      if byte_is_digit a then digits_value (acc * 10 + (code a - 48)) s else None
  end.
(** [s.parse::<u64>().ok()] *)
Definition parse_u64 (s : string) : option Z :=
  let body := default s (strip_prefix "+" s) in
  if is_empty body then None else
  n ← digits_value 0 body; if (n <=? u64_max)%Z then Some n else None.
(** [u8::from_str_radix(s, 16).ok()] on a two-byte slice. *)
Definition u8_from_hex2 (a b : ascii) : option Z :=
  lo ← to_digit16 b;
  if ascii_eqb a "+" then Some lo
  else hi ← to_digit16 a; Some (hi * 16 + lo)%Z.
(** [n.to_string()] for an unsigned integer. *)
Definition show_u64 (n : Z) : string :=
  NilZero.string_of_uint (N.to_uint (Z.to_N n)).

(** ** [Path::components] on Unix *)
Inductive component :=
| RootDir
| CurDir
| ParentDir
| Normal (part : string).
#[export] Instance component_eq_dec : EqDecision component.
Proof. solve_decision. Defined.
Definition path_is_absolute (s : string) : bool := starts_with_char "/" s.
(** Later [.] components and repeated separators are skipped. *)
Definition later_component (part : string) : option component :=
  if str_eqb part "" || str_eqb part "." then None
  else if str_eqb part ".." then Some ParentDir
  else Some (Normal part).
Definition path_components (s : string) : list component :=
  let parts := split "/" s in
  if path_is_absolute s then RootDir :: omap later_component parts
  else match parts with
       | first :: rest =>
           if str_eqb first "." then CurDir :: omap later_component rest
           else omap later_component parts
       | [] => []
       end.

(** [s.lines()]: without the terminators, a carriage return before one included. *)
Definition line_end (s : string) : string :=
  default s (strip_suffix (String (ascii_of_N 13) "") s).
Definition newline_char : ascii := ascii_of_N 10.
Definition lines (s : string) : list string :=
  let pieces := split newline_char s in
  line_end <$> match last pieces with Some "" => removelast pieces | _ => pieces end.

(** ** Lemmas *)
Create HintDb rust_str.

Lemma ascii_eqb_true a b : ascii_eqb a b = true ↔ a = b.
Proof. apply bool_decide_eq_true. Qed.
Lemma ascii_eqb_refl a : ascii_eqb a a = true.
Proof. by apply ascii_eqb_true. Qed.
Lemma str_eqb_true s t : str_eqb s t = true ↔ s = t.
Proof. apply bool_decide_eq_true. Qed.
Lemma str_eqb_refl s : str_eqb s s = true.
Proof. by apply str_eqb_true. Qed.
Lemma is_empty_true s : is_empty s = true ↔ s = "".
Proof. by destruct s. Qed.

Lemma app_cons a s t : String a s +:+ t = String a (s +:+ t).
Proof. done. Qed.
Lemma app_nil_l' t : "" +:+ t = t.
Proof. done. Qed.
Lemma app_nil_r' s : s +:+ "" = s.
Proof. induction s as [|a s IH]; [done|]. by rewrite app_cons, IH. Qed.
Lemma app_assoc' s t u : (s +:+ t) +:+ u = s +:+ (t +:+ u).
Proof. induction s as [|a s IH]; [done|]. by rewrite !app_cons, IH. Qed.
Lemma length_app' s t : String.length (s +:+ t) = String.length s + String.length t.
Proof. induction s as [|a s IH]; [done|]. rewrite app_cons. simpl. by rewrite IH. Qed.
Lemma app_inj_length s t x y :
  String.length s = String.length t → s +:+ x = t +:+ y → s = t ∧ x = y.
Proof.
  revert t. induction s as [|a s IH]; intros [|b t]; cbn [String.length]; try done.
  intros [= Hl]. rewrite !app_cons. intros [= -> H]. by destruct (IH t Hl H) as [-> ->].
Qed.
#[export] Hint Rewrite app_cons app_nil_l' app_nil_r' app_assoc' : rust_str.

Section traversal_lemmas.
Implicit Types (f g : ascii → bool) (s t : string).

Lemma str_forallb_app f s t :
  str_forallb f (s +:+ t) = str_forallb f s && str_forallb f t.
Proof.
  induction s as [|a s IH]; [done|]. rewrite app_cons. simpl.
  by rewrite IH, andb_assoc.
Qed.
Lemma str_forallb_impl f g s :
  (∀ a, f a = true → g a = true) → str_forallb f s = true → str_forallb g s = true.
Proof.
  intros Hfg. induction s as [|a s IH]; simpl; [done|].
  rewrite !andb_true_iff. intros [??]; auto.
Qed.
Lemma str_existsb_app f s t :
  str_existsb f (s +:+ t) = str_existsb f s || str_existsb f t.
Proof. unfold str_existsb. by rewrite str_forallb_app, negb_andb. Qed.
Lemma str_existsb_cons f a s : str_existsb f (String a s) = f a || str_existsb f s.
Proof. unfold str_existsb. simpl. by rewrite negb_andb, negb_involutive. Qed.
Lemma contains_char_app c s t :
  contains_char c (s +:+ t) = contains_char c s || contains_char c t.
Proof. apply str_existsb_app. Qed.
Lemma contains_char_cons c a s :
  contains_char c (String a s) = ascii_eqb c a || contains_char c s.
Proof. apply str_existsb_cons. Qed.
(** A string whose bytes satisfy [f] contains no byte that does not. *)
Lemma forallb_contains_char f c s :
  str_forallb f s = true → f c = false → contains_char c s = false.
Proof.
  intros Hs Hc. induction s as [|a s IH]; [done|]. simpl in Hs. bool_prop.
  rewrite contains_char_cons, IH, orb_false_r by done.
  apply not_true_iff_false. intros ->%ascii_eqb_true. congruence.
Qed.
Lemma str_forallb_flat_map f (h : ascii → string) s :
  (∀ a, str_forallb f (h a) = true) → str_forallb f (str_flat_map h s) = true.
Proof.
  intros Hh. induction s as [|a s IH]; simpl; [done|].
  by rewrite str_forallb_app, Hh, IH.
Qed.
End traversal_lemmas.

Section split_lemmas.
Implicit Types (s t x y : string) (c : ascii).

Lemma strip_prefix_Some p s r : strip_prefix p s = Some r ↔ s = p +:+ r.
Proof.
  revert s. induction p as [|a p IH]; intros s; simpl.
  - rewrite app_nil_l'. naive_solver.
  - rewrite app_cons. destruct s as [|b s]; [done|].
    destruct (ascii_eqb a b) eqn:E.
    + apply ascii_eqb_true in E as ->. rewrite IH. naive_solver.
    + split; [done|]. intros [= -> ->]. by rewrite ascii_eqb_refl in E.
Qed.
Lemma strip_prefix_app p r : strip_prefix p (p +:+ r) = Some r.
Proof. by apply strip_prefix_Some. Qed.
Lemma starts_with_true p s : starts_with p s = true ↔ ∃ r, s = p +:+ r.
Proof.
  unfold starts_with. destruct (strip_prefix p s) eqn:E.
  - apply strip_prefix_Some in E as ->. naive_solver.
  - split; [done|]. intros [r ->]. by rewrite strip_prefix_app in E.
Qed.
Lemma starts_with_app p r : starts_with p (p +:+ r) = true.
Proof. apply starts_with_true. eauto. Qed.

Lemma split_not_nil c s : split c s ≠ [].
Proof. destruct s as [|a s]; simpl; [done|]. by repeat case_match. Qed.
Lemma split_separator c x y : split c (x +:+ String c y) = split c x ++ split c y.
Proof.
  induction x as [|a x IH].
  - rewrite app_nil_l'. cbn. by rewrite ascii_eqb_refl.
  - rewrite app_cons. cbn [split]. rewrite IH. destruct (ascii_eqb a c); [done|].
    destruct (split c x) as [|p l] eqn:E; [by apply split_not_nil in E|]. done.
Qed.
Lemma split_free c s : contains_char c s = false → split c s = [s].
Proof.
  induction s as [|a s IH]; [done|]. rewrite contains_char_cons.
  intros [Ha Hs]%orb_false_iff. simpl.
  assert (ascii_eqb a c = false) as ->.
  { apply not_true_iff_false. intros ->%ascii_eqb_true. by rewrite ascii_eqb_refl in Ha. }
  by rewrite IH.
Qed.
Lemma split_app c x y :
  contains_char c x = false → split c (x +:+ String c y) = x :: split c y.
Proof.
  induction x as [|a x IH].
  - intros _. rewrite app_nil_l'. simpl. by rewrite ascii_eqb_refl.
  - rewrite contains_char_cons, app_cons. intros [Ha Hx]%orb_false_iff. simpl.
    assert (ascii_eqb a c = false) as ->.
    { apply not_true_iff_false. intros ->%ascii_eqb_true. by rewrite ascii_eqb_refl in Ha. }
    by rewrite IH.
Qed.
Lemma join_split c s : join (String c "") (split c s) = s.
Proof.
  induction s as [|a s IH]; [done|]. simpl. pose proof (split_not_nil c s) as Hne.
  destruct (ascii_eqb a c) eqn:E.
  - apply ascii_eqb_true in E as ->. destruct (split c s) as [|x l]; [done|].
    simpl. by rewrite <-IH.
  - destruct (split c s) as [|x l]; [done|]. rewrite <-IH. by destruct l.
Qed.
Lemma split_pieces_free c s x : x ∈ split c s → contains_char c x = false.
Proof.
  revert x. induction s as [|a s IH]; intros x; simpl.
  - by intros ->%list_elem_of_singleton.
  - destruct (ascii_eqb a c) eqn:E.
    + intros [->|?]%elem_of_cons; auto.
    + assert (ascii_eqb c a = false) as E'.
      { apply not_true_iff_false. intros ->%ascii_eqb_true. by rewrite ascii_eqb_refl in E. }
      destruct (split c s) as [|z l].
      * intros ->%list_elem_of_singleton. by rewrite contains_char_cons, E'.
      * intros [->|?]%elem_of_cons; [|apply IH; set_solver].
        rewrite contains_char_cons, E'. apply IH. set_solver.
Qed.

Lemma split_join c (l : list string) :
  l ≠ [] → Forall (λ x, contains_char c x = false) l →
  split c (join (String c "") l) = l.
Proof.
  intros Hne Hl. induction Hl as [|x l Hx Hl IH]; [done|]. simpl.
  destruct l as [|y l]; [by apply split_free|].
  rewrite app_cons, app_nil_l', split_app by done. by rewrite IH.
Qed.

Lemma split_once_Some pat s x y :
  split_once pat s = Some (x, y) → s = x +:+ pat +:+ y.
Proof.
  revert x. induction s as [|a s IH]; intros x; simpl;
    destruct (strip_prefix pat _) as [r|] eqn:E; intros H; simplify_eq/=.
  - by apply strip_prefix_Some in E.
  - by apply strip_prefix_Some in E.
  - destruct (split_once pat s) as [[x' y']|]; simplify_eq/=.
    by rewrite app_cons, <-IH.
Qed.
(** The first occurrence is found when the pattern's first byte is not earlier. *)
Lemma split_once_app c p x y :
  contains_char c x = false →
  split_once (String c p) (x +:+ String c p +:+ y) = Some (x, y).
Proof.
  induction x as [|a x IH].
  - intros _. rewrite app_nil_l', app_cons. simpl. rewrite ascii_eqb_refl.
    by rewrite strip_prefix_app.
  - rewrite contains_char_cons, (app_cons a x). intros [Ha Hx]%orb_false_iff.
    simpl. rewrite Ha. by rewrite IH.
Qed.

Lemma rsplit_once_None c s : rsplit_once c s = None ↔ contains_char c s = false.
Proof.
  induction s as [|a s IH]; simpl; [done|]. rewrite contains_char_cons.
  destruct (rsplit_once c s) as [[x y]|].
  - split; [done|]. intros [_ ?%IH]%orb_false_iff. done.
  - rewrite orb_false_iff, <-IH.
    destruct (ascii_eqb a c) eqn:E.
    + apply ascii_eqb_true in E as ->. rewrite ascii_eqb_refl. naive_solver.
    + split; [intros _; split; [|done]|done].
      apply not_true_iff_false. intros ->%ascii_eqb_true. by rewrite ascii_eqb_refl in E.
Qed.
Lemma rsplit_once_Some c s x y :
  rsplit_once c s = Some (x, y) → s = x +:+ String c y ∧ contains_char c y = false.
Proof.
  revert x. induction s as [|a s IH]; intros x; simpl; [done|].
  destruct (rsplit_once c s) as [[x' y']|] eqn:E.
  - intros [= <- <-]. destruct (IH x') as [-> Hy]; [done|]. by rewrite app_cons.
  - destruct (ascii_eqb a c) eqn:Ea; [|done]. intros [= <- <-].
    apply ascii_eqb_true in Ea as ->. apply rsplit_once_None in E.
    by rewrite app_nil_l'.
Qed.
Lemma rsplit_once_app c x y :
  contains_char c y = false → rsplit_once c (x +:+ String c y) = Some (x, y).
Proof.
  intros Hy. induction x as [|a x IH].
  - rewrite app_nil_l'. simpl.
    by rewrite (proj2 (rsplit_once_None c y) Hy), ascii_eqb_refl.
  - rewrite app_cons. simpl. by rewrite IH.
Qed.

Lemma ends_with_char_app c x a y :
  ends_with_char c (x +:+ String a y) = ends_with_char c (String a y).
Proof.
  induction x as [|b x IH]; [done|]. rewrite app_cons, <-IH.
  destruct x; [done|]. by rewrite app_cons.
Qed.

Lemma split_once_char_app c x y :
  contains_char c x = false → split_once (String c "") (x +:+ String c y) = Some (x, y).
Proof. apply (split_once_app c "" x y). Qed.
End split_lemmas.

Lemma strip_suffix_Some suffix s prefix : strip_suffix suffix s = Some prefix → s = prefix +:+ suffix.
Proof.
  revert prefix. induction s as [|a s IH]; intros prefix; cbn; destruct (str_eqb _ suffix) eqn:He; try done.
  - apply str_eqb_true in He as <-. by intros [= <-].
  - apply str_eqb_true in He as <-. by intros [= <-].
  - intros (p&Hp&->)%fmap_Some. by rewrite (IH p Hp) at 1.
Qed.

(** ** Characters of ASCII strings *)
Lemma string_of_uint_digits d : str_forallb byte_is_digit (NilEmpty.string_of_uint d) = true.
Proof. induction d; simpl; auto. Qed.
Lemma show_u64_digits n : str_forallb byte_is_digit (show_u64 n) = true.
Proof.
  unfold show_u64, NilZero.string_of_uint.
  destruct (N.to_uint (Z.to_N n)); [done|..]; apply string_of_uint_digits.
Qed.
Lemma show_u64_free c n : byte_is_digit c = false → contains_char c (show_u64 n) = false.
Proof. apply forallb_contains_char, show_u64_digits. Qed.

Section chars_lemmas.
Implicit Types s : string.

Lemma code_range a : (0 <= code a < 256)%Z.
Proof. unfold code. pose proof (N_ascii_bounded a). lia. Qed.
Lemma code_inj a b : code a = code b → a = b.
Proof.
  unfold code. intros H%N2Z.inj. apply (f_equal ascii_of_N) in H.
  by rewrite !ascii_N_embedding in H.
Qed.

Lemma decode2_nonascii a b cp : decode2 a b = Some cp → (128 <= cp)%Z.
Proof.
  unfold decode2, between, low6, is_continuation.
  destruct (_ && _) eqn:E; [|done]. intros [= <-]. bool_prop. unfold between in *. bool_prop. lia.
Qed.
Lemma decode3_nonascii a b c cp : decode3 a b c = Some cp → (128 <= cp)%Z.
Proof.
  unfold decode3. destruct (_ && _) eqn:E; [|done]. intros [= <-]. bool_prop. lia.
Qed.
Lemma decode4_nonascii a b c d cp : decode4 a b c d = Some cp → (128 <= cp)%Z.
Proof.
  unfold decode4. destruct (_ && _) eqn:E; [|done]. intros [= <-].
  unfold between in E. bool_prop. lia.
Qed.

(** A test that only ASCII characters pass, holding of every character, holds
    of every byte. *)
Lemma chars_ascii_only (P : Z → bool) s :
  (∀ c, P c = true → 0 <= c < 128)%Z →
  forallb P (chars s) = true → str_forallb (λ a, P (code a)) s = true.
Proof.
  intros HP.
  assert (∀ cp, (128 <= cp)%Z → P cp = false) as Hbig.
  { intros cp Hcp. apply not_true_iff_false. intros ?%HP. lia. }
  assert (P (-1)%Z = false) as Hneg.
  { apply not_true_iff_false. intros ?%HP. lia. }
  unfold chars. induction s as [|a s IH]; simpl; [done|].
  destruct (byte_is_ascii a); simpl.
  { rewrite !andb_true_iff. intros [??]; auto. }
  destruct s as [|b s]; simpl; [by rewrite Hneg|].
  destruct (decode2 a b) eqn:E2; simpl.
  { by rewrite Hbig by (by eapply decode2_nonascii). }
  destruct s as [|c s]; simpl; [by rewrite Hneg|].
  destruct (decode3 a b c) eqn:E3; simpl.
  { by rewrite Hbig by (by eapply decode3_nonascii). }
  destruct s as [|d s]; simpl; [by rewrite Hneg|].
  destruct (decode4 a b c d) eqn:E4; simpl; [|by rewrite Hneg].
  by rewrite Hbig by (by eapply decode4_nonascii).
Qed.

Lemma chars_of_ascii (P : Z → bool) s :
  str_is_ascii s = true →
  forallb P (chars s) = str_forallb (λ a, P (code a)) s.
Proof.
  unfold str_is_ascii, chars. induction s as [|a s IH]; simpl; [done|].
  destruct (byte_is_ascii a); simpl; [|done]. intros ?. f_equal. by apply IH.
Qed.

Lemma chars_any_forallb f s : chars_any f s = negb (forallb (λ c, negb (f c)) (chars s)).
Proof.
  unfold chars_any. induction (chars s) as [|c l IH]; simpl; [done|].
  rewrite IH. by destruct (f c).
Qed.
Lemma utf8_valid_ascii s : str_is_ascii s = true → utf8_valid s = true.
Proof.
  intros Hs. unfold utf8_valid. rewrite chars_of_ascii by done.
  eapply str_forallb_impl; [|exact Hs]. intros a _. pose proof (code_range a). lia.
Qed.

(** An ASCII byte is never part of a multi-byte character. *)
Lemma ascii_not_continuation c : byte_is_ascii c = true → is_continuation c = false.
Proof. unfold byte_is_ascii, is_continuation, between. lia. Qed.
Lemma decode2_ascii a c : byte_is_ascii c = true → decode2 a c = None.
Proof.
  intros Hc%ascii_not_continuation. unfold decode2. by rewrite Hc, andb_false_r.
Qed.
Lemma decode3_ascii a b c :
  byte_is_ascii b = true ∨ byte_is_ascii c = true → decode3 a b c = None.
Proof.
  unfold decode3. intros [H%ascii_not_continuation|H%ascii_not_continuation];
    by rewrite H, ?andb_false_r.
Qed.
Lemma decode4_ascii a b c d :
  byte_is_ascii b = true ∨ byte_is_ascii c = true ∨ byte_is_ascii d = true →
  decode4 a b c d = None.
Proof.
  unfold decode4.
  intros [H%ascii_not_continuation|[H%ascii_not_continuation|H%ascii_not_continuation]];
    by rewrite H, ?andb_false_r.
Qed.
Lemma uchars_app x c y :
  byte_is_ascii c = true → uchars (x +:+ String c y) = uchars x ++ uchars (String c y).
Proof.
  intros Hc.
  assert (∀ n x, String.length x ≤ n → uchars (x +:+ String c y) = uchars x ++ uchars (String c y))
    as Hgen; [|by apply (Hgen (String.length x))].
  clear x. intros n. induction n as [|n IH]; intros x Hn.
  { destruct x; [done|simpl in Hn; lia]. }
  destruct x as [|a x1]; [done|]. simpl in Hn. rewrite app_cons.
  cbn [uchars]. destruct (byte_is_ascii a); [by rewrite IH by lia|].
  destruct x1 as [|b x2].
  { rewrite app_nil_l', decode2_ascii by done.
    destruct y as [|d [|e y]]; [done|..]; rewrite decode3_ascii by auto; [done|].
    by rewrite decode4_ascii by auto. }
  rewrite app_cons. simpl in Hn. rewrite <-(app_cons b x2).
  destruct (decode2 a b); [by rewrite IH by lia|].
  destruct x2 as [|b2 x3].
  { rewrite app_nil_l', decode3_ascii by auto.
    destruct y as [|d y]; [by rewrite IH by (simpl; lia)|].
    rewrite decode4_ascii by auto. by rewrite IH by (simpl; lia). }
  rewrite (app_cons b2 x3). simpl in Hn.
  destruct (decode3 a b b2); [by rewrite IH by lia|].
  destruct x3 as [|b3 x4].
  { rewrite app_nil_l', decode4_ascii by auto. by rewrite IH by (simpl; lia). }
  rewrite (app_cons b3 x4). simpl in Hn.
  destruct (decode4 a b b2 b3); [by rewrite IH by lia|]. by rewrite IH by (simpl; lia).
Qed.
Lemma chars_any_app f x c y :
  byte_is_ascii c = true →
  chars_any f (x +:+ String c y) = chars_any f x || f (code c) || chars_any f y.
Proof.
  intros Hc. unfold chars_any, chars. rewrite uchars_app by done. cbn [uchars]. rewrite Hc.
  rewrite fmap_app, existsb_app. simpl. by rewrite orb_assoc.
Qed.
Lemma chars_any_join f c (l : list string) :
  byte_is_ascii c = true → f (code c) = false →
  chars_any f (join (String c "") l) = existsb (chars_any f) l.
Proof.
  intros Hc Hf. induction l as [|x l IH]; [done|]. simpl.
  destruct l as [|y l]; [by rewrite orb_false_r|].
  rewrite app_cons, app_nil_l', chars_any_app, Hf, orb_false_r by done.
  f_equal. exact IH.
Qed.
End chars_lemmas.
(** The characters of a text are its bytes. *)
Lemma ustring_cons c bytes l : ustring ((c, bytes) :: l) = bytes +:+ ustring l.
Proof. done. Qed.
Lemma ustring_uchars s : ustring (uchars s) = s.
Proof.
  assert (∀ n s, String.length s ≤ n → ustring (uchars s) = s) as H; [|by apply (H (String.length s))].
  clear s. intros n. induction n as [|n IH]; intros s Hn; [destruct s; [done|simpl in Hn; lia]|].
  assert (∀ c a s, String.length s ≤ n → ustring ((c, String a "") :: uchars s) = String a s) as Hone.
  { intros c a t Ht. rewrite ustring_cons, app_cons, app_nil_l'. f_equal. by apply IH. }
  destruct s as [|a s]; [done|]. simpl in Hn. cbn [uchars]. destruct (byte_is_ascii a); [apply Hone; lia|].
  destruct s as [|b s]; [done|]. simpl in Hn. destruct (decode2 a b).
  { rewrite ustring_cons, !app_cons, app_nil_l'. rewrite IH by lia. done. }
  destruct s as [|c s]; [apply Hone; simpl; lia|]. simpl in Hn. destruct (decode3 a b c).
  { rewrite ustring_cons, !app_cons, app_nil_l'. rewrite IH by lia. done. }
  destruct s as [|d s]; [apply Hone; simpl; lia|]. simpl in Hn. destruct (decode4 a b c d).
  { rewrite ustring_cons, !app_cons, app_nil_l'. rewrite IH by lia. done. }
  apply Hone. simpl. lia.
Qed.
Lemma to_string_lossy_valid s : utf8_valid s = true → to_string_lossy s = s.
Proof.
  unfold utf8_valid, chars, to_string_lossy. rewrite <-(ustring_uchars s) at 3.
  induction (uchars s) as [|[c bytes] l IH]; [done|]. cbn. intros [-> Hl]%andb_true_iff. by rewrite IH.
Qed.
Example lossy_bytes :
  to_string_lossy (String (ascii_of_N 255) "a") = replacement +:+ "a" ∧
  to_string_lossy (String (ascii_of_N 226) (String (ascii_of_N 130) "a")) = replacement +:+ "a" ∧
  to_string_lossy (String (ascii_of_N 237) (String (ascii_of_N 160) (String (ascii_of_N 128) ""))) =
    replacement +:+ replacement +:+ replacement.
Proof. split_and!; vm_compute; reflexivity. Qed.
Lemma str_len_nonneg s : (0 <= str_len s)%Z.
Proof. unfold str_len. lia. Qed.
