(* ===== verification/Crates.v ===== *)
(** * Interfaces of the third-party crates

    The operations of [semver], [url], [base64] and [sha2] that the sources call
    are class parameters of the model; the documented behaviour that theorems rely
    on is stated in separate law classes, so that a theorem names exactly the
    crate behaviour it needs.  [Samples] instantiates every class. *)
From S2P Require Import Prelude Order RustStr.

(** ** [semver] *)
Class Semver : Type := {
  Version : Type;
  #[global] Version_eq_dec :: EqDecision Version;
  #[global] Version_countable :: Countable Version;
  #[global] Version_ord :: Ord Version;
  sv_parse : string → option Version;      (* [Version::parse] *)
  sv_display : Version → string;           (* [to_string] *)
  sv_new : Z → Z → Z → Version;            (* [Version::new] *)
  sv_major : Version → Z;
  sv_minor : Version → Z;
  sv_patch : Version → Z;
  sv_pre : Version → string;               (* [pre.as_str()] *)
  sv_build : Version → string;             (* [build.as_str()] *)
  sv_clear_build : Version → Version;      (* [version.build = BuildMetadata::EMPTY] *)
  sv_build_metadata : string → bool;       (* [BuildMetadata::new(s).is_ok()] *)
}.

Definition sv_triple `{Semver} (v : Version) : Z * Z * Z :=
  (sv_major v, sv_minor v, sv_patch v).
Definition is_u64 (n : Z) : Prop := (0 <= n <= u64_max)%Z.

(** The bytes of a printed version. *)
Definition semver_byte (a : ascii) : bool :=
  byte_is_alphanumeric a || ascii_eqb a "." || ascii_eqb a "-" || ascii_eqb a "+".

Class SemverLaws `{Semver} : Prop := {
  #[global] Version_ord_laws :: OrdLaws Version;
  (** Parsed versions print to text that parses to the same version. *)
  sv_parse_display s v : sv_parse s = Some v → sv_parse (sv_display v) = Some v;
  sv_display_bytes s v : sv_parse s = Some v → str_forallb semver_byte (sv_display v) = true;
  sv_parse_clear_build s v : sv_parse s = Some v →
    sv_parse (sv_display (sv_clear_build v)) = Some (sv_clear_build v);
  sv_parse_new a b c : is_u64 a → is_u64 b → is_u64 c →
    sv_parse (sv_display (sv_new a b c)) = Some (sv_new a b c);
  sv_new_triple a b c : is_u64 a → is_u64 b → is_u64 c →
    sv_triple (sv_new a b c) = (a, b, c);
  sv_new_pre a b c : sv_pre (sv_new a b c) = "";
  sv_new_build a b c : sv_build (sv_new a b c) = "";
  sv_clear_build_triple v : sv_triple (sv_clear_build v) = sv_triple v;
  sv_clear_build_build v : sv_build (sv_clear_build v) = "";
  sv_components v :
    is_u64 (sv_major v) ∧ is_u64 (sv_minor v) ∧ is_u64 (sv_patch v);
  (** Precedence compares the numeric components first ... *)
  sv_cmp_triple u v : sv_triple u ≠ sv_triple v →
    cmp u v = cmp (sv_triple u) (sv_triple v);
  (** ... and a prerelease precedes the release of the same components. *)
  sv_cmp_prerelease u v : sv_triple u = sv_triple v →
    sv_pre u ≠ "" → sv_pre v = "" → cmp u v = Lt;
  sv_release_eq u v : sv_triple u = sv_triple v →
    sv_pre u = "" → sv_pre v = "" → sv_build u = "" → sv_build v = "" → u = v;
}.

(** ** [url]: the accessors of a parsed URL *)
Record Url := mk_url {
  url_scheme : string;
  url_username : string;
  url_password : option string;
  url_host_str : option string;
  url_port : option Z;
  url_path : string;
  url_query : option string;
  url_fragment : option string;
  url_as_str : string;
}.
Class UrlCrate : Type := { url_parse : string → option Url }.

(** A serialised host of an [https] URL: nonempty, lowercase, free of the
    forbidden host code points, with IPv6 addresses in brackets. *)
Definition host_ok (host : string) : bool :=
  negb (is_empty host) && str_eqb (to_ascii_lowercase host) host
  && negb (contains_any ["@"; "|"; "/"; "#"; "?"; "\"; " "]%char host)
  && (negb (contains_char ":" host) || starts_with_char "[" host).
(** The text of an origin: the port is [None] when it is the scheme's default. *)
Definition origin_text (host : string) (port : option Z) : string :=
  "https://" +:+ host +:+ match port with Some p => ":" +:+ show_u64 p | None => "" end.
(** [url.origin().ascii_serialization()] of an [https] URL; one without host is opaque. *)
Definition url_origin (u : Url) : string :=
  match url_host_str u with Some host => origin_text host (url_port u) | None => "null" end.
Class UrlLaws `{UrlCrate} : Prop := {
  url_https_host s u : url_parse s = Some u → url_scheme u = "https" →
    ∃ host, url_host_str u = Some host ∧ host_ok host = true;
  url_https_port s u : url_parse s = Some u → url_scheme u = "https" →
    url_port u ≠ Some 443%Z;
  (** An origin printed from a parsed URL parses to that origin and nothing more. *)
  url_parse_origin s u host : url_parse s = Some u → url_scheme u = "https" →
    url_host_str u = Some host →
    url_parse (origin_text host (url_port u)) =
      Some (mk_url "https" "" None (Some host) (url_port u) "/" None None
              (origin_text host (url_port u) +:+ "/"));
}.

(** ** [base64] engines with and without padding *)
Class Base64 : Type := {
  b64_decode : string → option string;          (* [STANDARD.decode] *)
  b64_decode_no_pad : string → option string;   (* [STANDARD_NO_PAD.decode] *)
  b64_encode : string → string;                 (* [STANDARD.encode] *)
}.
Class Base64Laws `{Base64} : Prop := {
  (** 64 bytes encode to 86 characters and two padding characters. *)
  b64_encode_64 d : String.length d = 64%nat →
    ∃ body, b64_encode d = body +:+ "==" ∧ String.length body = 86%nat;
  b64_decode_encode d : String.length d = 64%nat → b64_decode (b64_encode d) = Some d;
}.

(** ** [sha2]: the lowercase hexadecimal digest of a byte string *)
Class Sha256 : Type := { sha256_hex : string → string }.
