(* ===== verification/Samples.v ===== *)
(** * Concrete crates for the witnesses

    Small executable stand-ins for the third-party crates, with proofs that they
    satisfy the law classes of [Crates]: a parser and order for semantic versions,
    a URL parser for [https] origins without ports, a 64-byte text encoding and a
    digest.  They show that the hypotheses of the theorems can hold and let the
    witnesses compute; no theorem depends on them. *)
From S2P Require Import Prelude Order RustStr Crates.
From Stdlib Require Import DecimalString DecimalN.

(** ** Semantic versions *)
Record raw_version := mk_raw {
  raw_major : Z; raw_minor : Z; raw_patch : Z; raw_pre : string; raw_build : string;
}.
Definition u64b (n : Z) : bool := (0 <=? n)%Z && (n <=? u64_max)%Z.
Definition raw_ok (v : raw_version) : bool :=
  u64b (raw_major v) && u64b (raw_minor v) && u64b (raw_patch v)
  && negb (contains_char "+" (raw_pre v))
  && (str_forallb semver_byte (raw_pre v) && str_forallb semver_byte (raw_build v)).
Definition raw_tuple (v : raw_version) : Z * Z * Z * string * string :=
  (raw_major v, raw_minor v, raw_patch v, raw_pre v, raw_build v).
#[export] Instance raw_eq_dec : EqDecision raw_version.
Proof. solve_decision. Defined.
#[export] Program Instance raw_countable : Countable raw_version :=
  inj_countable' raw_tuple (λ '(a, b, c, p, m), mk_raw a b c p m) _.
Next Obligation. by intros []. Qed.

Definition version : Type := { v : raw_version | Is_true (raw_ok v) }.
#[export] Instance version_eq_dec : EqDecision version.
Proof. apply _. Defined.
#[export] Instance version_countable : Countable version.
Proof. apply sig_countable; apply _. Defined.
Definition mk_sample (v : raw_version) : option version :=
  match decide (Is_true (raw_ok v)) with
  | left H => Some (v ↾ H)
  | right _ => None
  end.
Lemma mk_sample_ok (v : version) : mk_sample (`v) = Some v.
Proof.
  unfold mk_sample. destruct (decide _) as [H|H].
  - f_equal. by apply (sig_eq_pi _).
  - destruct H. exact (proj2_sig v).
Qed.

(** Decimal components without leading zeros. *)
Definition component (s : string) : option Z :=
  d ← NilZero.uint_of_string s;
  let n := Z.of_N (N.of_uint d) in
  if str_eqb (show_u64 n) s then Some n else None.
Definition raw_display (v : raw_version) : string :=
  show_u64 (raw_major v) +:+ "." +:+ show_u64 (raw_minor v) +:+ "."
    +:+ show_u64 (raw_patch v)
    +:+ (if is_empty (raw_pre v) then "" else "-" +:+ raw_pre v)
    +:+ (if is_empty (raw_build v) then "" else "+" +:+ raw_build v).
Definition split_suffix (c : ascii) (s : string) : option (string * string) :=
  match split_once (String c "") s with
  | None => Some (s, "")
  | Some (x, y) => if is_empty y then None else Some (x, y)
  end.
Definition raw_parse (s : string) : option raw_version :=
  '(rest, build) ← split_suffix "+" s;
  '(core, pre) ← split_suffix "-" rest;
  match split "." core with
  | [a; b; c] => a ← component a; b ← component b; c ← component c;
                 Some (mk_raw a b c pre build)
  | _ => None
  end.
Definition version_parse (s : string) : option version := v ← raw_parse s; mk_sample v.

Lemma component_show n : (0 <= n)%Z → component (show_u64 n) = Some n.
Proof.
  intros Hn. unfold component.
  assert (N.to_uint (Z.to_N n) ≠ Decimal.Nil) as Hnil.
  { destruct (Z.to_N n) as [|p]; [done|]. simpl. apply DecimalPos.Unsigned.to_uint_nonnil. }
  assert (NilZero.uint_of_string (show_u64 n) = Some (N.to_uint (Z.to_N n))) as ->.
  { unfold show_u64. by apply NilZero.usu. }
  simpl. rewrite DecimalN.Unsigned.of_to, Z2N.id by done.
  by rewrite str_eqb_refl.
Qed.
Lemma split_suffix_empty c s : contains_char c s = false → split_suffix c s = Some (s, "").
Proof.
  intros Hs. unfold split_suffix. destruct (split_once (String c "") s) as [[x y]|] eqn:E; [|done].
  apply split_once_Some in E as ->. rewrite contains_char_app, app_cons, contains_char_cons in Hs.
  rewrite ascii_eqb_refl, orb_true_r in Hs. done.
Qed.
Lemma split_suffix_app c x y :
  contains_char c x = false → y ≠ "" → split_suffix c (x +:+ String c y) = Some (x, y).
Proof.
  intros Hx Hy. unfold split_suffix. rewrite split_once_char_app by done. by destruct y.
Qed.
Definition raw_core (v : raw_version) : string :=
  show_u64 (raw_major v) +:+ String "." (show_u64 (raw_minor v) +:+ String "."
    (show_u64 (raw_patch v))).
Lemma raw_core_free c v :
  byte_is_digit c = false → ascii_eqb c "." = false → contains_char c (raw_core v) = false.
Proof.
  intros Hc Hd. unfold raw_core. rewrite contains_char_app, contains_char_cons,
    contains_char_app, contains_char_cons, Hd.
  by rewrite !show_u64_free.
Qed.
Lemma raw_parse_display v : raw_ok v = true → raw_parse (raw_display v) = Some v.
Proof.
  intros Hv. unfold raw_ok in Hv. bool_prop. unfold u64b in *. bool_prop.
  assert (raw_display v = (raw_core v
    +:+ (if is_empty (raw_pre v) then "" else "-" +:+ raw_pre v))
    +:+ (if is_empty (raw_build v) then "" else "+" +:+ raw_build v)) as ->.
  { unfold raw_display, raw_core. by rewrite !app_assoc', ?app_cons, !app_assoc'. }
  set (rest := raw_core v +:+ _). unfold raw_parse.
  assert (contains_char "+" rest = false) as Hrest.
  { unfold rest. rewrite contains_char_app, raw_core_free by done.
    destruct (is_empty (raw_pre v)); [done|]. by rewrite contains_char_app. }
  assert (split_suffix "+" (rest +:+ (if is_empty (raw_build v) then "" else "+" +:+ raw_build v))
    = Some (rest, raw_build v)) as ->.
  { destruct (raw_build v) as [|a b] eqn:E; simpl.
    - rewrite app_nil_r'. by apply split_suffix_empty.
    - by apply split_suffix_app. }
  simpl.
  assert (split_suffix "-" rest = Some (raw_core v, raw_pre v)) as ->.
  { unfold rest. destruct (raw_pre v) as [|a b] eqn:E; simpl.
    - rewrite app_nil_r'. apply split_suffix_empty. by apply raw_core_free.
    - apply split_suffix_app; [|done]. by apply raw_core_free. }
  simpl. unfold raw_core. rewrite !split_app, split_free by (by apply show_u64_free).
  rewrite !component_show by lia. by destruct v.
Qed.

Definition version_key (v : version) :=
  (raw_major (`v), raw_minor (`v), raw_patch (`v),
   (is_empty (raw_pre (`v)), (raw_pre (`v), raw_build (`v)))).
#[export] Instance version_key_inj : Inj (=) (=) version_key.
Proof.
  intros [[] ?] [[] ?] H. apply (sig_eq_pi _). unfold version_key in H. simpl in *. congruence.
Qed.
Definition clamp (n : Z) : Z := Z.max 0 (Z.min n u64_max).
Lemma clamp_ok a b c : Is_true (raw_ok (mk_raw (clamp a) (clamp b) (clamp c) "" "")).
Proof.
  unfold raw_ok, u64b, clamp, u64_max. cbn -[Z.leb Z.pow].
  apply Is_true_true. rewrite !andb_true_iff. repeat split; lia.
Qed.
Lemma clear_ok (v : version) : Is_true (raw_ok (mk_raw (raw_major (`v)) (raw_minor (`v))
  (raw_patch (`v)) (raw_pre (`v)) "")).
Proof.
  destruct v as [[a b c p m] Hv]. simpl in *. apply Is_true_true in Hv. apply Is_true_true.
  unfold raw_ok in *. simpl in *. rewrite !andb_true_iff in *. tauto.
Qed.

Definition new_version (a b c : Z) : version :=
  exist (λ v, Is_true (raw_ok v)) (mk_raw (clamp a) (clamp b) (clamp c) "" "") (clamp_ok a b c).
Definition clear_version (v : version) : version :=
  exist (λ v, Is_true (raw_ok v)) (mk_raw (raw_major (`v)) (raw_minor (`v))
    (raw_patch (`v)) (raw_pre (`v)) "") (clear_ok v).

#[export] Instance sample_semver : Semver := {|
  Version := version;
  Version_ord := cmp_on version_key;
  sv_parse := version_parse;
  sv_display v := raw_display (`v);
  sv_new := new_version;
  sv_major v := raw_major (`v);
  sv_minor v := raw_minor (`v);
  sv_patch v := raw_patch (`v);
  sv_pre v := raw_pre (`v);
  sv_build v := raw_build (`v);
  sv_clear_build := clear_version;
  sv_build_metadata s := negb (is_empty s);
|}.

(** Two prereleases of 1.2.3. *)
Definition beta : @Version sample_semver :=
  exist (λ v, Is_true (raw_ok v)) (mk_raw 1 2 3 "beta" "") I.
Definition rc : @Version sample_semver :=
  exist (λ v, Is_true (raw_ok v)) (mk_raw 1 2 3 "rc.1" "") I.

Lemma version_parse_display (v : version) : version_parse (raw_display (`v)) = Some v.
Proof.
  unfold version_parse. rewrite raw_parse_display.
  - simpl. apply mk_sample_ok.
  - apply Is_true_true. exact (proj2_sig v).
Qed.

Lemma raw_display_bytes v : raw_ok v = true → str_forallb semver_byte (raw_display v) = true.
Proof.
  intros Hv. unfold raw_ok in Hv. bool_prop.
  assert (∀ n, str_forallb semver_byte (show_u64 n) = true) as Hn.
  { intros n. eapply str_forallb_impl; [|apply show_u64_digits].
    intros a Ha. unfold semver_byte, byte_is_alphanumeric. by rewrite Ha, orb_true_r. }
  unfold raw_display. rewrite !str_forallb_app, !Hn. simpl.
  destruct (is_empty (raw_pre v)), (is_empty (raw_build v)); simpl;
    rewrite ?str_forallb_app; simpl; by rewrite ?andb_true_iff.
Qed.

Lemma clamp_id n : is_u64 n → clamp n = n.
Proof. unfold is_u64, clamp. lia. Qed.
Lemma version_components (v : version) :
  is_u64 (raw_major (`v)) ∧ is_u64 (raw_minor (`v)) ∧ is_u64 (raw_patch (`v)).
Proof.
  destruct v as [v Hv]. cbn [proj1_sig]. apply Is_true_eq_true in Hv. unfold raw_ok, u64b in Hv.
  bool_prop. cbn [proj1_sig]. unfold is_u64. lia.
Qed.

Definition sample_triple (v : version) : Z * Z * Z := @sv_triple sample_semver v.
Lemma sample_cmp (u v : version) :
  @cmp version (cmp_on version_key) u v =
  cmp_then (cmp (sample_triple u) (sample_triple v))
    (cmp (version_key u).2 (version_key v).2).
Proof. done. Qed.

#[export] Instance sample_semver_laws : SemverLaws.
Proof.
  split; simpl.
  - apply (cmp_on_laws version_key).
  - intros s v _. apply version_parse_display.
  - intros s v _. apply raw_display_bytes, Is_true_true. exact (proj2_sig v).
  - intros s v _. apply (version_parse_display (clear_version v)).
  - intros a b c _ _ _. apply (version_parse_display (new_version a b c)).
  - intros a b c ???. unfold sv_triple. simpl. by rewrite !clamp_id.
  - done.
  - done.
  - done.
  - done.
  - apply version_components.
  - intros u v Hne. rewrite sample_cmp.
    fold (sample_triple u) (sample_triple v) in *.
    destruct (cmp (sample_triple u) (sample_triple v)) eqn:E; [|done..].
    by apply cmp_eq in E.
  - intros u v Heq Hu Hv. rewrite sample_cmp.
    fold (sample_triple u) (sample_triple v) in Heq.
    rewrite Heq, cmp_refl. unfold version_key. simpl in *. rewrite Hv.
    by destruct (raw_pre (`u)).
  - intros u v. unfold sv_triple. simpl. intros [= H1 H2 H3] H4 H5 H6 H7.
    apply (inj version_key). unfold version_key. congruence.
Qed.

(** ** URLs: [https://host/path] without credentials, port, query or fragment *)
Fixpoint until (c : ascii) (s : string) : string * string :=
  match s with
  | "" => ("", "")
  | String a t => if ascii_eqb a c then ("", s) else let '(x, y) := until c t in (String a x, y)
  end.
Definition https_url (host path : string) : Url :=
  mk_url "https" "" None (Some host) None path None None ("https://" +:+ host +:+ path).
Definition sample_url_parse (s : string) : option Url :=
  rest ← strip_prefix "https://" s;
  let '(host, path) := until "/" rest in
  if host_ok host && negb (contains_char ":" host)
     && negb (contains_any ["?"; "#"; "@"]%char path)
  then Some (https_url host (if is_empty path then "/" else path)) else None.
#[export] Instance sample_url : UrlCrate := {| url_parse := sample_url_parse |}.

Lemma until_free c s : contains_char c s = false → until c s = (s, "").
Proof.
  induction s as [|a s IH]; [done|]. rewrite contains_char_cons. intros [Ha Hs]%orb_false_iff.
  simpl. rewrite IH by done. destruct (ascii_eqb a c) eqn:E; [|done].
  apply ascii_eqb_true in E as ->. by rewrite ascii_eqb_refl in Ha.
Qed.
Lemma sample_url_inv s u :
  sample_url_parse s = Some u → ∃ host path, u = https_url host path ∧
    host_ok host = true ∧ contains_char ":" host = false.
Proof.
  unfold sample_url_parse. destruct (strip_prefix _ s); simpl; [|done].
  destruct (until "/" s0) as [host path]. destruct (_ && _ && _) eqn:E; [|done].
  intros [= <-]. bool_prop. eauto.
Qed.
#[export] Instance sample_url_laws : UrlLaws.
Proof.
  split; cbn [url_parse sample_url].
  - intros s u (host&path&->&Hh&_)%sample_url_inv _. exists host. done.
  - intros s u (host&path&->&Hh&_)%sample_url_inv _. done.
  - intros s u host (host'&path&->&Hh&Hc)%sample_url_inv _ [= ->].
    unfold sample_url_parse, origin_text. cbn [url_port https_url].
    rewrite app_nil_r', strip_prefix_app. simpl.
    assert (contains_char "/" host = false) as Hslash.
    { unfold host_ok in Hh. bool_prop. unfold contains_any in *. simpl in *. bool_prop. done. }
    rewrite until_free by done. rewrite Hh, Hc. simpl. unfold https_url.
    by rewrite ?app_assoc'.
Qed.

(** ** A 64-byte text encoding of 88 characters *)
Fixpoint str_take (n : nat) (s : string) : string :=
  match n, s with S n, String a s => String a (str_take n s) | _, _ => "" end.
Fixpoint str_repeat (n : nat) (a : ascii) : string :=
  match n with O => "" | S n => String a (str_repeat n a) end.
Definition sample_encode (d : string) : string := d +:+ str_repeat 22 "A" +:+ "==".
Definition sample_decode (s : string) : option string :=
  if (88 <=? String.length s)%nat then Some (str_take (String.length s - 24) s) else None.
#[export] Instance sample_base64 : Base64 := {|
  b64_decode := sample_decode;
  b64_decode_no_pad s := if (str_len s =? 86)%Z then Some (str_take 64 s) else None;
  b64_encode := sample_encode;
|}.
Lemma str_take_app s t : str_take (String.length s) (s +:+ t) = s.
Proof. induction s as [|a s IH]; [by destruct t|]. rewrite app_cons. simpl. by rewrite IH. Qed.

(** ** A digest: 64 hexadecimal digits of a polynomial checksum *)
Fixpoint checksum (acc : Z) (s : string) : Z :=
  match s with "" => acc | String a s => checksum ((acc * 257 + code a + 1) mod 2 ^ 256) s end.
Fixpoint hex_digits (n : nat) (z : Z) : string :=
  match n with
  | O => ""
  | S n => hex_digits n (z / 16) +:+ String (to_lower (upper_hex_digit (z mod 16))) ""
  end.
#[export] Instance sample_sha256 : Sha256 := {| sha256_hex s := hex_digits 64 (checksum 0 s) |}.
#[export] Instance sample_base64_laws : Base64Laws.
Proof.
  split; cbn [b64_encode b64_decode sample_base64]; unfold sample_encode, sample_decode.
  - intros d Hd. exists (d +:+ str_repeat 22 "A"). rewrite app_assoc', length_app', Hd. done.
  - intros d Hd. rewrite length_app', Hd.
    change (Some (str_take 64 (d +:+ str_repeat 22 "A" +:+ "==")) = Some d).
    rewrite <-Hd at 1. by rewrite str_take_app.
Qed.
