(* ===== verification/Core.v ===== *)
(** * tapid-core: validated identities

    Package names, versions, digests, registry origins, integrities, copied
    package sources, peer and platform contexts, artifact URLs and npm platform
    constraints (crates/tapid-core/src). *)
From S2P Require Import Prelude Order RustStr Crates Samples.

Inductive DomainError :=
| InvalidPackageName (value : string)
| InvalidPackageVersion (value : string)
| InvalidArtifactDigest (value : string)
| InvalidRegistryOrigin (value : string)
| InvalidPackageIntegrity (value : string)
| InvalidPlatformContext
| InvalidPackageSource
| InvalidArtifactUrl.
#[export] Instance DomainError_eq_dec : EqDecision DomainError.
Proof. solve_decision. Defined.

Definition DomainError_display (e : DomainError) : string :=
  match e with
  | InvalidPackageName value => "invalid package name: " +:+ value
  | InvalidPackageVersion value => "invalid package version: " +:+ value
  | InvalidArtifactDigest value => "invalid artifact digest: " +:+ value
  | InvalidRegistryOrigin value => "invalid registry origin: " +:+ value
  | InvalidPackageIntegrity value => "invalid package integrity: " +:+ value
  | InvalidArtifactUrl => "invalid artifact URL"
  | InvalidPackageSource => "invalid copied package source"
  | InvalidPlatformContext => "invalid platform context"
  end.

(** ** Package names *)
Record PackageName := mk_name { name_str : string }.
#[export] Instance PackageName_eq_dec : EqDecision PackageName.
Proof. solve_decision. Defined.
#[export] Program Instance PackageName_countable : Countable PackageName :=
  inj_countable' name_str mk_name _.
Next Obligation. by intros []. Qed.
#[export] Instance name_str_inj : Inj (=) (=) name_str.
Proof. intros [] []; simpl; congruence. Qed.
#[export] Instance PackageName_ord : Ord PackageName := cmp_on name_str.
#[export] Instance PackageName_ord_laws : OrdLaws PackageName.
Proof. apply cmp_on_laws. apply _. Qed.

Definition is_name_character (c : Z) : bool :=
  between 97 122 c || between 65 90 c || between 48 57 c
  || (c =? 45)%Z || (c =? 95)%Z || (c =? 46)%Z.
Definition not_name_character (c : Z) : bool := negb (is_name_character c).

Definition PackageName_from_str (value : string) : result DomainError PackageName :=
  if is_empty value
     || (214 <? str_len value)%Z
     || starts_with_char "." value
     || starts_with_char "_" value
     || ends_with_char "." value
     || ends_with_char "_" value
     || chars_any char_is_whitespace value
  then Err (InvalidPackageName value)
  else if starts_with_char "@" value then
    let parts := split "/" value in
    let scope := default "" (parts !! 0) in
    let name := default "" (parts !! 1) in
    if bool_decide (is_Some (parts !! 2))
       || (str_len scope <? 2)%Z
       || is_empty name
       || chars_any not_name_character (str_drop 1 scope)
       || chars_any not_name_character name
    then Err (InvalidPackageName value)
    else Ok (mk_name value)
  else if chars_any not_name_character value
  then Err (InvalidPackageName value)
  else Ok (mk_name value).
Definition PackageName_display (n : PackageName) : string := name_str n.

(** ** Artifact digests *)
Definition is_ascii_hexdigit (c : Z) : bool :=
  between 48 57 c || between 65 70 c || between 97 102 c.
Record ArtifactDigest := mk_digest { digest_str : string }.
#[export] Instance ArtifactDigest_eq_dec : EqDecision ArtifactDigest.
Proof. solve_decision. Defined.
Definition ArtifactDigest_from_str (value : string) : result DomainError ArtifactDigest :=
  match strip_prefix "sha256-" value with
  | None => Err (InvalidArtifactDigest value)
  | Some hex =>
      if negb (str_len hex =? 64)%Z
         || chars_any (λ c, negb (is_ascii_hexdigit c)) hex
      then Err (InvalidArtifactDigest value)
      else Ok (mk_digest (to_ascii_lowercase value))
  end.
Definition ArtifactDigest_display (d : ArtifactDigest) : string := digest_str d.

(** ** Platform contexts *)
Record PlatformContext := mk_platform {
  pc_os : option string;
  pc_cpu : option string;
  pc_libc : option string;
}.
#[export] Instance PlatformContext_eq_dec : EqDecision PlatformContext.
Proof. solve_decision. Defined.

Definition invalid_platform_value (v : string) : bool :=
  is_empty v || chars_any char_is_whitespace v || chars_any char_is_control v
  || str_eqb v "-" || contains_char "|" v.
Definition PlatformContext_new (os cpu libc : option string) :
    result DomainError PlatformContext :=
  let context := mk_platform os cpu libc in
  if existsb invalid_platform_value (omap id [os; cpu; libc])
  then Err InvalidPlatformContext
  else Ok context.
Definition PlatformContext_display (c : PlatformContext) : string :=
  match c with
  | mk_platform None None None => ""
  | mk_platform os cpu libc => join "-" (default "" <$> [os; cpu; libc])
  end.
(** The context without any constraint, [PlatformContext::new(None, None, None)]. *)
Definition PlatformContext_none : PlatformContext := mk_platform None None None.

(** ** Versions, origins, sources and integrities, over the crate interfaces *)
Section versions.
Context `{SV : Semver}.

Record PackageVersion := mk_version { pv : Version }.
#[export] Instance PackageVersion_eq_dec : EqDecision PackageVersion.
Proof. solve_decision. Defined.
#[export] Program Instance PackageVersion_countable : Countable PackageVersion :=
  inj_countable' pv mk_version _.
Next Obligation. by intros []. Qed.
#[export] Instance pv_inj : Inj (=) (=) pv.
Proof. intros [] []; simpl; congruence. Qed.
#[export] Instance PackageVersion_ord : Ord PackageVersion := cmp_on pv.
#[export] Instance PackageVersion_ord_laws `{!SemverLaws} : OrdLaws PackageVersion.
Proof. apply cmp_on_laws. apply _. Qed.

Definition stable (major minor patch : Z) : PackageVersion :=
  mk_version (sv_new major minor patch).
Definition major (v : PackageVersion) : Z := sv_major (pv v).
Definition minor (v : PackageVersion) : Z := sv_minor (pv v).
Definition patch (v : PackageVersion) : Z := sv_patch (pv v).
Definition prerelease (v : PackageVersion) : option string :=
  if is_empty (sv_pre (pv v)) then None else Some (sv_pre (pv v)).
Definition PackageVersion_from_str (value : string) : result DomainError PackageVersion :=
  match sv_parse value with
  | None => Err (InvalidPackageVersion value)
  | Some version =>
      if negb (is_empty (sv_build version)) then Err (InvalidPackageVersion value)
      else Ok (mk_version version)
  end.
Definition PackageVersion_display (v : PackageVersion) : string := sv_display (pv v).

(** [PeerContext(BTreeMap<PackageName, PackageVersion>)] *)
Definition PeerContext : Type := gmap PackageName PackageVersion.
Definition PeerContext_with (c : PeerContext) (name : PackageName)
    (version : PackageVersion) : PeerContext := <[name := version]> c.
Definition PeerContext_display (c : PeerContext) : string :=
  join "," ((λ '(name, version),
    PackageName_display name +:+ "@" +:+ PackageVersion_display version) <$> btree_iter c).
End versions.

Record RegistryOrigin := mk_origin { origin_str : string }.
#[export] Instance RegistryOrigin_eq_dec : EqDecision RegistryOrigin.
Proof. solve_decision. Defined.
#[export] Program Instance RegistryOrigin_countable : Countable RegistryOrigin :=
  inj_countable' origin_str mk_origin _.
Next Obligation. by intros []. Qed.
#[export] Instance origin_str_inj : Inj (=) (=) origin_str.
Proof. intros [] []; simpl; congruence. Qed.
#[export] Instance RegistryOrigin_ord : Ord RegistryOrigin := cmp_on origin_str.
#[export] Instance RegistryOrigin_ord_laws : OrdLaws RegistryOrigin.
Proof. apply cmp_on_laws. apply _. Qed.

Section origins.
Context `{UC : UrlCrate}.

Definition RegistryOrigin_from_str (value : string) : result DomainError RegistryOrigin :=
  match url_parse value with
  | None => Err (InvalidRegistryOrigin value)
  | Some parsed =>
      if negb (str_eqb (url_scheme parsed) "https")
         || negb (is_empty (url_username parsed))
         || contains_char "@" value
         || bool_decide (is_Some (url_password parsed))
         || bool_decide (is_Some (url_query parsed))
         || bool_decide (is_Some (url_fragment parsed))
         || negb (bool_decide (is_Some (url_host_str parsed)))
         || negb (str_forallb (ascii_eqb "/") (url_path parsed))
      then Err (InvalidRegistryOrigin value)
      else
        let host := to_ascii_lowercase (default "" (url_host_str parsed)) in
        let host := if contains_char ":" host && negb (starts_with_char "[" host)
                    then "[" +:+ host +:+ "]" else host in
        let authority := match url_port parsed with
                         | Some port => if negb (port =? 443)%Z
                                        then host +:+ ":" +:+ show_u64 port else host
                         | None => host
                         end in
        Ok (mk_origin ("https://" +:+ authority))
  end.

(** *** Artifact URLs *)
Record ArtifactUrl := mk_artifact_url { artifact_url_str : string }.

Fixpoint path_has_noncanonical_percent_encoding (bytes : string) : bool :=
  match bytes with
  | "" => false
  | String b rest =>
      if negb (ascii_eqb b "%") then path_has_noncanonical_percent_encoding rest
      else match rest with
      | String hi (String lo rest') =>
          if between 97 102 (code hi) || between 97 102 (code lo) then true
          else if negb (utf8_valid (String hi (String lo ""))) then true
          else match u8_from_hex2 hi lo with
          | None => true
          | Some decoded =>
              if between 0 31 decoded || (decoded =? 127)%Z
                 || between 97 122 decoded || between 65 90 decoded
                 || between 48 57 decoded
                 || existsb (λ c, decoded =? code c)%Z ["-"; "."; "_"; "~"]%char
              then true
              else path_has_noncanonical_percent_encoding rest'
          end
      | _ => true
      end
  end.

(** The part of [s] before the first of the bytes [cs]. *)
Fixpoint take_until (cs : list ascii) (s : string) : string :=
  match s with
  | "" => ""
  | String a s => if existsb (ascii_eqb a) cs then "" else String a (take_until cs s)
  end.

Definition canonical_url (raw : string) (url : Url) : bool :=
  if negb (str_is_ascii raw) then false else
  match strip_prefix "https://" raw with
  | None => false
  | Some remainder =>
      let authority := take_until ["/"; "?"; "#"]%char remainder in
      negb (is_empty authority)
      && negb (starts_with_char "/" authority)
      && negb (contains_char "@" authority)
      && str_eqb (url_as_str url) raw
      && negb (str_existsb (λ b, byte_is_control b || ascii_eqb b " ") raw)
      && negb (contains_char "\" raw)
      && negb (path_has_noncanonical_percent_encoding (url_path url))
      && str_eqb (url_scheme url) "https"
      && bool_decide (is_Some (url_host_str url))
      && is_empty (url_username url)
      && negb (bool_decide (is_Some (url_password url)))
      && negb (bool_decide (is_Some (url_query url)))
      && negb (bool_decide (is_Some (url_fragment url)))
  end.
Definition ArtifactUrl_from_str (value : string) : result DomainError ArtifactUrl :=
  match url_parse value with
  | None => Err InvalidArtifactUrl
  | Some url => if negb (canonical_url value url) then Err InvalidArtifactUrl
                else Ok (mk_artifact_url value)
  end.
End origins.

(** ** Package sources *)
Record PackageSource := mk_source {
  identity : string;
  source_registry : option RegistryOrigin;
}.
#[export] Instance PackageSource_eq_dec : EqDecision PackageSource.
Proof. solve_decision. Defined.
Definition source_key (s : PackageSource) : string * option RegistryOrigin :=
  (identity s, source_registry s).
#[export] Instance source_key_inj : Inj (=) (=) source_key.
Proof. intros [] []; unfold source_key; simpl; congruence. Qed.
#[export] Program Instance PackageSource_countable : Countable PackageSource :=
  inj_countable' source_key (λ '(i, r), mk_source i r) _.
Next Obligation. by intros []. Qed.
#[export] Instance PackageSource_ord : Ord PackageSource := cmp_on source_key.
#[export] Instance PackageSource_ord_laws : OrdLaws PackageSource.
Proof. apply cmp_on_laws. apply _. Qed.

Definition source_as_str (s : PackageSource) : string := identity s.
Definition source_of_registry (r : RegistryOrigin) : PackageSource :=
  mk_source (origin_str r) (Some r).
Definition file_parts (s : PackageSource) : option (string * string) :=
  rest ← strip_prefix "file:" (identity s); rsplit_once "#" rest.
Definition git_parts (s : PackageSource) : option (string * string * string) :=
  rest ← strip_prefix "git+" (identity s);
  '(repository, pin) ← rsplit_once "#" rest;
  '(commit, digest) ← split_once "!" pin;
  Some (repository, commit, digest).
Definition artifact_digest (s : PackageSource) : option string :=
  match file_parts s with
  | Some (_, digest) => Some digest
  | None => (λ '(_, _, digest), digest) <$> git_parts s
  end.

Definition is_lower_hex (a : ascii) : bool := byte_is_digit a || between 97 102 (code a).

Section sources.
Context `{UC : UrlCrate}.

Record GitRepository := mk_repository { repository_str : string }.
Definition GitRepository_from_str (value : string) : result DomainError GitRepository :=
  match url_parse value with
  | None => Err InvalidPackageSource
  | Some url =>
      let authority := match split_once "://" value with
                       | Some (_, rest) => default "" (head (split "/" rest))
                       | None => ""
                       end in
      if negb (str_eqb (url_scheme url) "https")
         || negb (bool_decide (is_Some (url_host_str url)))
         || str_eqb (url_path url) "/"
         || negb (is_empty (url_username url))
         || bool_decide (is_Some (url_password url))
         || contains_char "@" authority
         || bool_decide (is_Some (url_query url))
         || bool_decide (is_Some (url_fragment url))
         || contains_any ["|"; "#"; "!"]%char value
         || chars_any char_is_control value
      then Err InvalidPackageSource
      else Ok (mk_repository (url_as_str url))
  end.

(** The digest of a copied source must already be canonical. *)
Definition canonical_source_digest (digest : string) : result DomainError () :=
  parsed ← map_err (λ _, InvalidPackageSource) (ArtifactDigest_from_str digest);
  ensure (str_eqb (digest_str parsed) digest) InvalidPackageSource.

Definition file_source_from_str (value rest : string) : result DomainError PackageSource :=
  '(path, digest) ← ok_or InvalidPackageSource (rsplit_once "#" rest);
  if is_empty path
     || starts_with_char "/" path
     || contains_any ["\"; ":"; "|"; "#"]%char path
     || chars_any char_is_control path
     || existsb (λ part, is_empty part || str_eqb part "." || str_eqb part "..")
          (split "/" path)
  then Err InvalidPackageSource
  else _ ← canonical_source_digest digest; Ok (mk_source value None).

Definition git_source_from_str (value rest : string) : result DomainError PackageSource :=
  '(repository, pin) ← ok_or InvalidPackageSource (rsplit_once "#" rest);
  '(commit, digest) ← ok_or InvalidPackageSource (split_once "!" pin);
  parsed_repository ← map_err (λ _, InvalidPackageSource) (GitRepository_from_str repository);
  if negb (str_eqb (repository_str parsed_repository) repository)
     || negb ((str_len commit =? 40)%Z || (str_len commit =? 64)%Z)
     || negb (str_forallb is_lower_hex commit)
  then Err InvalidPackageSource
  else _ ← canonical_source_digest digest; Ok (mk_source value None).

Definition PackageSource_from_str (value : string) : result DomainError PackageSource :=
  match strip_prefix "file:" value with
  | Some rest => file_source_from_str value rest
  | None =>
  match strip_prefix "git+" value with
  | Some rest => git_source_from_str value rest
  | None => source_of_registry <$> RegistryOrigin_from_str value
  end
  end.
Definition source_file (path : string) (digest : ArtifactDigest) :
    result DomainError PackageSource :=
  PackageSource_from_str ("file:" +:+ path +:+ "#" +:+ digest_str digest).
Definition source_git (repository commit : string) (digest : ArtifactDigest) :
    result DomainError PackageSource :=
  PackageSource_from_str ("git+" +:+ repository +:+ "#" +:+ commit +:+ "!" +:+ digest_str digest).
End sources.

(** ** Artifact integrity *)
Record PackageIntegrity := mk_integrity { integrity_str : string }.
Definition PackageIntegrity_from_str `{Base64} (value : string) :
    result DomainError PackageIntegrity :=
  match strip_prefix "sha512-" value with
  | None => Err (InvalidPackageIntegrity value)
  | Some encoded =>
      let decoded :=
        if (str_len encoded =? 86)%Z && negb (contains_char "=" encoded)
        then Some (b64_decode_no_pad encoded)
        else if (str_len encoded =? 88)%Z && ends_with "==" encoded
        then Some (b64_decode encoded)
        else None in
      match decoded with
      | Some (Some digest) =>
          if negb (str_len digest =? 64)%Z then Err (InvalidPackageIntegrity value)
          else Ok (mk_integrity ("sha512-" +:+ b64_encode digest))
      | _ => Err (InvalidPackageIntegrity value)
      end
  end.

(** ** Package instances *)
Section instances.
Context `{SV : Semver}.

Record PackageInstanceId := mk_instance {
  id_registry : PackageSource;
  id_name : PackageName;
  id_version : PackageVersion;
}.
#[export] Instance PackageInstanceId_eq_dec : EqDecision PackageInstanceId.
Proof. solve_decision. Defined.
Definition instance_key (i : PackageInstanceId) : PackageSource * (PackageName * PackageVersion) :=
  (id_registry i, (id_name i, id_version i)).
#[export] Instance instance_key_inj : Inj (=) (=) instance_key.
Proof. intros [] []; unfold instance_key; simpl; congruence. Qed.
#[export] Program Instance PackageInstanceId_countable : Countable PackageInstanceId :=
  inj_countable' instance_key (λ '(r, (n, v)), mk_instance r n v) _.
Next Obligation. by intros []. Qed.
#[export] Instance PackageInstanceId_ord : Ord PackageInstanceId := cmp_on instance_key.
#[export] Instance PackageInstanceId_ord_laws `{!SemverLaws} : OrdLaws PackageInstanceId.
Proof. apply cmp_on_laws. apply _. Qed.
Definition from_source (registry : PackageSource) (name : PackageName)
    (version : PackageVersion) : PackageInstanceId := mk_instance registry name version.
Definition instance_new (registry : RegistryOrigin) (name : PackageName)
    (version : PackageVersion) : PackageInstanceId :=
  mk_instance (source_of_registry registry) name version.
Definition instance_display (i : PackageInstanceId) : string :=
  source_as_str (id_registry i) +:+ ":" +:+ PackageName_display (id_name i) +:+ "@"
    +:+ PackageVersion_display (id_version i).
End instances.

(** ** npm platform constraints *)
Record PackagePlatform := mk_pkg_platform {
  pp_os : list string;
  pp_cpu : list string;
  pp_libc : list string;
}.
Definition unrestricted : PackagePlatform := mk_pkg_platform [] [] [].
Definition npm_os (value : string) : string :=
  if str_eqb value "macos" then "darwin"
  else if str_eqb value "windows" then "win32" else value.
Definition npm_cpu (value : string) : string :=
  if str_eqb value "aarch64" then "arm64"
  else if str_eqb value "x86_64" then "x64"
  else if str_eqb value "x86" then "ia32" else value.
Definition all_exclusions (values : list string) : bool :=
  forallb (starts_with_char "!") values.

Inductive context_error := MissingLibc | ContextDomain (e : DomainError).
Definition selected_context (p : PackagePlatform) (os cpu : string) (libc : option string) :
    result context_error PlatformContext :=
  libc_context ←
    (if bool_decide (pp_libc p = [])
        || negb (str_eqb (npm_os os) "linux")
        || (all_exclusions (pp_libc p) && bool_decide (libc = None))
     then Ok None
     else Some <$> ok_or MissingLibc libc);
  map_err ContextDomain
    (PlatformContext_new
      (if bool_decide (pp_os p = []) then None else Some (npm_os os))
      (if bool_decide (pp_cpu p = []) then None else Some (npm_cpu cpu))
      libc_context).

(** The loop over the constraint list, with its early return and two flags. *)
Fixpoint value_matches_loop (values : list string) (current : string)
    (has_positive positive_match : bool) : bool :=
  match values with
  | [] => negb has_positive || positive_match
  | value :: values =>
      match strip_prefix "!" value with
      | Some excluded =>
          if str_eqb excluded current then false
          else value_matches_loop values current has_positive positive_match
      | None => value_matches_loop values current true (positive_match || str_eqb value current)
      end
  end.
Definition value_matches (values : list string) (current : option string) : bool :=
  match values, current with
  | [], _ => true
  | _, None => false
  | _, Some current => value_matches_loop values current false false
  end.
Definition platform_matches (p : PackagePlatform) (os cpu : string) (libc : option string) : bool :=
  let os := npm_os os in
  let cpu := npm_cpu cpu in
  let libc_matches :=
    if negb (str_eqb os "linux") || (bool_decide (libc = None) && all_exclusions (pp_libc p))
    then true else value_matches (pp_libc p) libc in
  value_matches (pp_os p) (Some os) && value_matches (pp_cpu p) (Some cpu) && libc_matches.

(** ** Properties *)

(** *** Package names *)
Definition name_byte (a : ascii) : bool := is_name_character (code a).

Lemma is_name_character_ascii c : is_name_character c = true → (0 <= c < 128)%Z.
Proof.
  unfold is_name_character, between. rewrite !orb_true_iff, !andb_true_iff. lia.
Qed.
Lemma name_bytes_ascii s : str_forallb name_byte s = true → str_is_ascii s = true.
Proof.
  apply str_forallb_impl. intros a Ha. unfold byte_is_ascii.
  apply is_name_character_ascii in Ha. lia.
Qed.
(** [chars().any(|c| !is_name_character(c))] is a test on bytes. *)
Lemma name_characters_spec s :
  chars_any not_name_character s = negb (str_forallb name_byte s).
Proof.
  unfold not_name_character. rewrite chars_any_forallb. f_equal.
  apply eq_bool_prop_intro; rewrite !Is_true_true.
  assert (∀ l, forallb (λ c : Z, negb (negb (is_name_character c))) l
    = forallb is_name_character l) as ->.
  { intros l. induction l as [|c l IH]; simpl; [done|]. by rewrite IH, negb_involutive. }
  split.
  - intros Hs. apply (chars_ascii_only is_name_character); [|done].
    apply is_name_character_ascii.
  - intros Hs. rewrite chars_of_ascii; [done|]. by apply name_bytes_ascii.
Qed.
Lemma name_byte_not_whitespace a :
  name_byte a || ascii_eqb a "@" || ascii_eqb a "/" = true →
  char_is_whitespace (code a) = false.
Proof. destruct a as [[][][][][][][][]]; vm_compute; congruence. Qed.

(** What [PackageName] admits: at most 214 bytes of name characters, optionally
    with one scope, neither starting nor ending with a dot or an underscore. *)
Definition edge_byte (a : ascii) : bool := ascii_eqb "." a || ascii_eqb "_" a.
Inductive name_shape : string → Prop :=
| unscoped_shape s :
    s ≠ "" → str_forallb name_byte s = true → name_shape s
| scoped_shape scope name :
    scope ≠ "" → name ≠ "" → str_forallb name_byte scope = true →
    str_forallb name_byte name = true →
    name_shape (String "@" (scope +:+ String "/" name)).
Definition valid_name (s : string) : Prop :=
  name_shape s ∧ (str_len s <= 214)%Z ∧
  starts_with_char "." s = false ∧ starts_with_char "_" s = false ∧
  ends_with_char "." s = false ∧ ends_with_char "_" s = false.

Lemma name_free (c : ascii) s :
  str_forallb name_byte s = true → name_byte c = false → contains_char c s = false.
Proof. apply forallb_contains_char. Qed.

Lemma scoped_split scope name :
  str_forallb name_byte scope = true → str_forallb name_byte name = true →
  split "/" (String "@" (scope +:+ String "/" name)) = [String "@" scope; name].
Proof.
  intros Hs Hn. change (String "@" (scope +:+ String "/" name))
    with (String "@" scope +:+ String "/" name).
  rewrite split_app, split_free; [done| |].
  - by apply name_free.
  - rewrite contains_char_cons. by rewrite (name_free _ scope).
Qed.

Lemma name_shape_bytes s :
  name_shape s →
  str_forallb (λ a, name_byte a || ascii_eqb a "@" || ascii_eqb a "/") s = true.
Proof.
  intros [t _ Hs|scope name _ _ Hs Hn].
  - eapply str_forallb_impl; [|exact Hs]. intros a ->. done.
  - simpl. rewrite str_forallb_app. simpl.
    rewrite andb_true_iff. split;
      (eapply str_forallb_impl; [|eassumption]); intros a ->; done.
Qed.
Lemma name_shape_no_whitespace s :
  name_shape s → chars_any char_is_whitespace s = false.
Proof.
  intros Hs. pose proof (name_shape_bytes s Hs) as Hb.
  rewrite chars_any_forallb, negb_false_iff, chars_of_ascii.
  - eapply str_forallb_impl; [|exact Hb]. intros a Ha.
    apply negb_true_iff. by apply name_byte_not_whitespace.
  - eapply str_forallb_impl; [|exact Hb]. clear.
    intros a. destruct a as [[][][][][][][][]]; vm_compute; congruence.
Qed.

(** The two branches after the common checks accept exactly [name_shape]. *)
Definition scoped_ok (value : string) : bool :=
  let parts := split "/" value in
  let scope := default "" (parts !! 0) in
  let name := default "" (parts !! 1) in
  negb (bool_decide (is_Some (parts !! 2)) || (str_len scope <? 2)%Z || is_empty name
    || chars_any not_name_character (str_drop 1 scope)
    || chars_any not_name_character name).

Lemma str_len_cons a s : str_len (String a s) = (1 + str_len s)%Z.
Proof. unfold str_len. simpl. lia. Qed.
Lemma str_len_pos s : s ≠ "" ↔ (1 <= str_len s)%Z.
Proof. destruct s; [done|]. rewrite str_len_cons. unfold str_len. split; [lia|done]. Qed.

Lemma scoped_ok_shape s : scoped_ok (String "@" s) = true ↔ name_shape (String "@" s).
Proof.
  unfold scoped_ok. rewrite negb_true_iff. split.
  - rewrite !orb_false_iff, !name_characters_spec, !negb_false_iff.
    intros ((((H2&Hlen)&Hne)&Hs)&Hn).
    pose proof (join_split "/" (String "@" s)) as Hj.
    destruct (split "/" (String "@" s)) as [|scope [|name [|third rest]]]; try done.
    simpl in H2, Hlen, Hne, Hs, Hn, Hj.
    destruct scope as [|a scope]; [done|]. rewrite app_cons in Hj.
    injection Hj as -> <-. simpl in Hs.
    apply scoped_shape; try done; [|by destruct name].
    rewrite str_len_cons in Hlen. apply str_len_pos. lia.
  - intros H. inversion H as [? _ Hb|scope name Hs1 Hn1 Hs2 Hn2]; subst; [done|].
    rewrite scoped_split by done. simpl.
    rewrite !name_characters_spec, Hs2, Hn2, str_len_cons.
    apply str_len_pos in Hs1. destruct name; [done|].
    simpl. rewrite !orb_false_r. apply Z.ltb_ge. lia.
Qed.

Lemma PackageName_from_str_cases (s : string) :
  (valid_name s ∧ PackageName_from_str s = Ok (mk_name s)) ∨
  (¬ valid_name s ∧ PackageName_from_str s = Err (InvalidPackageName s)).
Proof.
  unfold PackageName_from_str, valid_name.
  destruct (_ || _) eqn:Hpre.
  - right. split; [|done]. intros (Hshape&Hlen&H1&H2&H3&H4).
    rewrite H1, H2, H3, H4, name_shape_no_whitespace in Hpre by done.
    rewrite !orb_false_r in Hpre. apply orb_true_iff in Hpre as [He|Hl]; [|lia].
    apply is_empty_true in He as ->. by inversion Hshape.
  - rewrite !orb_false_iff in Hpre. destruct Hpre as ((((((He&Hl)&H1)&H2)&H3)&H4)&Hw).
    assert (str_len s <= 214)%Z by lia.
    destruct s as [|a s]; [done|]. cbn [starts_with_char].
    destruct (ascii_eqb "@" a) eqn:Ha.
    + apply ascii_eqb_true in Ha as <-.
      pose proof (scoped_ok_shape s) as Hok. unfold scoped_ok in Hok.
      destruct (bool_decide _ || _ || _ || _ || _); simpl in Hok.
      * right. split; [|done]. intros (Hs%Hok&_). done.
      * left. split; [|done]. split_and!; try done. by apply Hok.
    + rewrite name_characters_spec.
      destruct (str_forallb name_byte (String a s)) eqn:Hb; simpl.
      * left. split_and!; try done. by apply unscoped_shape.
      * right. split; [|done]. intros (Hs&_). inversion Hs; [congruence|].
        subst. by rewrite ascii_eqb_refl in Ha.
Qed.

(** The package-name parser accepts exactly the valid names, returning them
    unchanged, and reports every other string as the invalid name it is. *)
Theorem PackageName_from_str_spec (s : string) :
  (valid_name s ∧ PackageName_from_str s = Ok (mk_name s)) ∨
  (¬ valid_name s ∧ PackageName_from_str s = Err (InvalidPackageName s)).
Proof. apply PackageName_from_str_cases. Qed.

Lemma PackageName_from_str_Ok s n :
  PackageName_from_str s = Ok n ↔ valid_name s ∧ n = mk_name s.
Proof. destruct (PackageName_from_str_cases s) as [[? ->]|[? ->]]; naive_solver. Qed.
Lemma PackageName_reparse s n :
  PackageName_from_str s = Ok n → PackageName_from_str (PackageName_display n) = Ok n.
Proof. by rewrite PackageName_from_str_Ok; intros H; destruct H as [H ->]; apply PackageName_from_str_Ok. Qed.

Definition safe_component (part : string) : Prop := part ≠ "" ∧ part ≠ "." ∧ part ≠ "..".
(** Bytes that delimit the fields of lockfile identities, or leave a directory. *)
Definition delimiters : list ascii := ["|"; ":"; ";"; ","; "="; "\"; " "; "%"]%char.

(** A validated package name is safe to use as a path below a directory: none
    of its components is empty, [.] or [..], and it contains no backslash, drive
    or identity delimiter. *)
Theorem PackageName_path_safe (s : string) (n : PackageName) :
  PackageName_from_str s = Ok n →
  Forall safe_component (split "/" (name_str n)) ∧
  Forall (λ c, contains_char c (name_str n) = false) delimiters.
Proof.
  rewrite PackageName_from_str_Ok. intros [(Hs&_&Hdot&_&Hend&_) ->]. simpl.
  split.
  - destruct Hs as [s Hne Hb|scope name Hs1 Hn1 Hs2 Hn2].
    + rewrite split_free by (by apply name_free). constructor; [|constructor].
      split_and!; [done|..]; intros ->; done.
    + rewrite scoped_split by done. change (String "@" (scope +:+ String "/" name))
        with (String "@" scope +:+ String "/" name) in Hend.
      rewrite ends_with_char_app in Hend.
      apply Forall_cons; split; [done|]. apply Forall_singleton.
      split_and!; [done|..]; by intros ->.
  - assert (str_forallb (λ a, name_byte a || ascii_eqb a "@" || ascii_eqb a "/") s = true) as Hb.
    { by apply name_shape_bytes. }
    repeat constructor; by eapply forallb_contains_char.
Qed.
Lemma PackageName_path_safe_witness :
  PackageName_from_str "@tapid/core" = Ok (mk_name "@tapid/core") ∧
  split "/" "@tapid/core" = ["@tapid"; "core"] ∧
  Forall safe_component (split "/" "@tapid/core").
Proof.
  split_and!; [reflexivity|reflexivity|].
  apply (PackageName_path_safe "@tapid/core" (mk_name "@tapid/core")). reflexivity.
Defined.

(** *** Artifact digests *)
Definition digest_byte (a : ascii) : bool := is_ascii_hexdigit (code a).

Lemma to_lower_idem a : to_lower (to_lower a) = to_lower a.
Proof. destruct a as [[][][][][][][][]]; reflexivity. Qed.
Lemma digest_byte_lower a : digest_byte a = true → is_lower_hex (to_lower a) = true.
Proof. destruct a as [[][][][][][][][]]; vm_compute; congruence. Qed.
Lemma lower_hex_digest_byte a : is_lower_hex a = true → digest_byte a = true.
Proof. destruct a as [[][][][][][][][]]; vm_compute; congruence. Qed.
Lemma lower_hex_fixed a : is_lower_hex a = true → to_lower a = a.
Proof. destruct a as [[][][][][][][][]]; vm_compute; congruence. Qed.
Lemma str_map_app f s t : str_map f (s +:+ t) = str_map f s +:+ str_map f t.
Proof. induction s as [|a s IH]; [done|]. rewrite !app_cons. simpl. by rewrite IH, app_cons. Qed.
Lemma str_len_map f s : str_len (str_map f s) = str_len s.
Proof. induction s as [|a s IH]; [done|]. simpl. by rewrite !str_len_cons, IH. Qed.
Lemma str_len_app s t : str_len (s +:+ t) = (str_len s + str_len t)%Z.
Proof. unfold str_len. rewrite length_app'. lia. Qed.

Lemma digest_characters_spec s :
  chars_any (λ c, negb (is_ascii_hexdigit c)) s = negb (str_forallb digest_byte s).
Proof.
  rewrite chars_any_forallb. f_equal. apply eq_bool_prop_intro; rewrite !Is_true_true.
  assert (∀ l, forallb (λ c : Z, negb (negb (is_ascii_hexdigit c))) l = forallb is_ascii_hexdigit l) as ->.
  { intros l. induction l as [|c l IH]; simpl; [done|]. by rewrite IH, negb_involutive. }
  assert (∀ c, is_ascii_hexdigit c = true → (0 <= c < 128)%Z) as Hd.
  { intros c. unfold is_ascii_hexdigit, between. rewrite !orb_true_iff, !andb_true_iff. lia. }
  split.
  - by apply chars_ascii_only.
  - intros Hs. rewrite chars_of_ascii; [done|]. eapply str_forallb_impl; [|exact Hs].
    intros a Ha%Hd. unfold byte_is_ascii. lia.
Qed.

(** A canonical digest: the prefix and 64 lowercase hexadecimal digits. *)
Definition canonical_digest (s : string) : Prop :=
  ∃ hex, s = "sha256-" +:+ hex ∧ str_len hex = 64%Z ∧ str_forallb is_lower_hex hex = true.

Lemma ArtifactDigest_from_str_Ok s d :
  ArtifactDigest_from_str s = Ok d ↔
  ∃ hex, s = "sha256-" +:+ hex ∧ str_len hex = 64%Z ∧ str_forallb digest_byte hex = true ∧
         d = mk_digest (to_ascii_lowercase s).
Proof.
  unfold ArtifactDigest_from_str. destruct (strip_prefix "sha256-" s) as [hex|] eqn:E.
  - apply strip_prefix_Some in E. rewrite (digest_characters_spec hex).
    destruct (_ || _) eqn:Hb.
    + split; [done|]. intros (hex'&->&Hl&Hh&_).
      assert (hex' = hex) as -> by (by apply (inj (String.app "sha256-"))).
      rewrite Hl, Hh in Hb. done.
    + apply orb_false_iff in Hb as [Hl Hh]. apply negb_false_iff in Hl, Hh.
      split; [intros [= <-]; exists hex; split_and!; [done|lia|done..]|].
      by intros (?&?&?&?&->).
  - split; [done|]. intros (hex&->&_). by rewrite strip_prefix_app in E.
Qed.
Lemma canonical_digest_parse s :
  canonical_digest s ↔ ArtifactDigest_from_str s = Ok (mk_digest s).
Proof.
  split.
  - intros (hex&->&Hl&Hh). apply ArtifactDigest_from_str_Ok. exists hex.
    split_and!; try done.
    + eapply str_forallb_impl; [|exact Hh]. apply lower_hex_digest_byte.
    + f_equal. unfold to_ascii_lowercase. rewrite str_map_app. f_equal.
      clear Hl. induction hex as [|a hex IH]; [done|]. simpl in *. bool_prop.
      rewrite lower_hex_fixed by done. f_equal. auto.
  - intros (hex&->&Hl&Hh&Heq)%ArtifactDigest_from_str_Ok. exists hex.
    split_and!; try done. apply (f_equal digest_str) in Heq. cbn [digest_str] in Heq.
    unfold to_ascii_lowercase in Heq. rewrite str_map_app in Heq.
    change (str_map to_lower "sha256-") with "sha256-" in Heq.
    apply (inj (String.app "sha256-")) in Heq. rewrite Heq.
    clear -Hh. induction hex as [|a hex IH]; [done|]. simpl in *. bool_prop.
    rewrite digest_byte_lower, IH by done. done.
Qed.
Lemma ArtifactDigest_parse_canonical s d :
  ArtifactDigest_from_str s = Ok d → canonical_digest (digest_str d).
Proof.
  intros (hex&->&Hl&Hh&->)%ArtifactDigest_from_str_Ok. exists (str_map to_lower hex).
  simpl. unfold to_ascii_lowercase. rewrite str_map_app, str_len_map. split_and!; [done..|].
  clear Hl. induction hex as [|a hex IH]; [done|]. simpl in *. bool_prop.
  by rewrite digest_byte_lower, IH by done.
Qed.

(** Digest parsing normalises: the result is the lowercase form of the input,
    is canonical and parses back to itself; two spellings denote the same digest
    exactly when they agree up to ASCII case. *)
Theorem ArtifactDigest_canonical (s t : string) (d e : ArtifactDigest) :
  ArtifactDigest_from_str s = Ok d → ArtifactDigest_from_str t = Ok e →
  canonical_digest (digest_str d) ∧
  ArtifactDigest_from_str (digest_str d) = Ok d ∧
  (d = e ↔ eq_ignore_ascii_case s t = true).
Proof.
  intros Hd He. pose proof (ArtifactDigest_parse_canonical _ _ Hd) as Hc.
  split_and!; [done| |].
  - apply canonical_digest_parse in Hc. rewrite Hc. by destruct d.
  - apply ArtifactDigest_from_str_Ok in Hd as (?&_&_&_&->), He as (?&_&_&_&->).
    unfold eq_ignore_ascii_case. rewrite str_eqb_true. split; congruence.
Qed.
Definition sample_hex : string :=
  "0123456789ABCDEF0123456789abcdef0123456789abcdef0123456789abcdef".
Lemma ArtifactDigest_canonical_witness :
  canonical_digest ("sha256-" +:+ to_ascii_lowercase sample_hex).
Proof.
  apply (ArtifactDigest_canonical ("sha256-" +:+ sample_hex) ("sha256-" +:+ sample_hex)
    (mk_digest ("sha256-" +:+ to_ascii_lowercase sample_hex))
    (mk_digest ("sha256-" +:+ to_ascii_lowercase sample_hex))); reflexivity.
Defined.

(** *** npm platform constraints *)
(** The exclusions and the positive constraints of a list. *)
Definition excluded (values : list string) (current : string) : Prop :=
  String "!" current ∈ values.
Definition listed (values : list string) (current : string) : Prop :=
  current ∈ values ∧ starts_with_char "!" current = false.

Lemma strip_bang_Some v ex : strip_prefix "!" v = Some ex ↔ v = String "!" ex.
Proof. apply strip_prefix_Some. Qed.
Lemma strip_bang_None v : strip_prefix "!" v = None ↔ starts_with_char "!" v = false.
Proof. destruct v as [|a v]; [done|]. simpl. by destruct (ascii_eqb "!" a). Qed.
Lemma value_matches_loop_spec values current hp pm :
  value_matches_loop values current hp pm = true ↔
  ¬ excluded values current ∧
  ((hp = false ∧ all_exclusions values = true) ∨ pm = true ∨ listed values current).
Proof.
  unfold all_exclusions, excluded, listed.
  revert hp pm. induction values as [|v values IH]; intros hp pm;
    cbn [value_matches_loop forallb].
  { rewrite orb_true_iff, negb_true_iff. set_solver. }
  destruct (strip_prefix "!" v) as [ex|] eqn:E.
  - apply strip_bang_Some in E as ->. simpl.
    destruct (str_eqb ex current) eqn:Hex.
    { apply str_eqb_true in Hex as ->. set_solver. }
    assert (ex ≠ current) by (intros ->; by rewrite str_eqb_refl in Hex).
    assert (current = String "!" ex → starts_with_char "!" current = true) by (by intros ->).
    rewrite IH, !elem_of_cons. destruct (starts_with_char "!" current); naive_solver.
  - apply strip_bang_None in E. rewrite IH, !elem_of_cons, E, orb_true_iff, str_eqb_true. simpl.
    assert (v ≠ String "!" current) by (by intros ->). naive_solver.
Qed.

(** A platform constraint list admits a value exactly when it does not exclude
    it and, as soon as the list has a positive entry, names it; a package runs on a
    platform exactly when its [os], [cpu] and (on Linux only) [libc] lists do. *)
Theorem platform_matches_spec (p : PackagePlatform) (os cpu : string) (libc : option string) :
  let admits values current :=
    ¬ excluded values current ∧ (all_exclusions values = true ∨ listed values current) in
  platform_matches p os cpu libc = true ↔
  admits (pp_os p) (npm_os os) ∧ admits (pp_cpu p) (npm_cpu cpu) ∧
  (npm_os os = "linux" →
   match libc with
   | Some libc => admits (pp_libc p) libc
   | None => all_exclusions (pp_libc p) = true
   end).
Proof.
  assert (∀ values current, value_matches values (Some current) = true ↔
    ¬ excluded values current ∧ (all_exclusions values = true ∨ listed values current)) as Hv.
  { intros values current. unfold value_matches. destruct values as [|v values].
    - unfold excluded. split; [|done]. intros _. split; [set_solver|by left].
    - rewrite value_matches_loop_spec. naive_solver. }
  unfold platform_matches. rewrite !andb_true_iff, !Hv.
  enough (∀ P Q R R' : Prop, (R ↔ R') → ((P ∧ Q) ∧ R ↔ P ∧ Q ∧ R')) as Hen.
  { apply Hen. destruct (str_eqb (npm_os os) "linux") eqn:Hos; simpl.
    - apply str_eqb_true in Hos. destruct libc as [libc|]; simpl.
      + rewrite Hv. naive_solver.
      + destruct (all_exclusions (pp_libc p)) eqn:E; [naive_solver|].
        destruct (pp_libc p); naive_solver.
    - split; [|done]. intros _ Heq. rewrite Heq in Hos. done. }
  tauto.
Qed.

(** *** Package sources *)
Definition safe_relative_path (path : string) : Prop :=
  Forall safe_component (split "/" path) ∧
  Forall (λ c, contains_char c path = false) ["\"; ":"; "|"; "#"]%char.
Definition full_commit (commit : string) : Prop :=
  (str_len commit = 40 ∨ str_len commit = 64)%Z ∧ str_forallb is_lower_hex commit = true.

Lemma contains_any_false cs s :
  contains_any cs s = false ↔ Forall (λ c, contains_char c s = false) cs.
Proof.
  unfold contains_any. induction cs as [|c cs IH]; simpl; [by repeat constructor|].
  by rewrite orb_false_iff, Forall_cons, IH.
Qed.
Lemma existsb_unsafe_parts l :
  existsb (λ part, is_empty part || str_eqb part "." || str_eqb part "..") l = false ↔
  Forall safe_component l.
Proof.
  induction l as [|x l IH]; simpl; [by repeat constructor|].
  rewrite !orb_false_iff, Forall_cons, IH. unfold safe_component.
  rewrite <-!not_true_iff_false, is_empty_true, !str_eqb_true. tauto.
Qed.
Lemma canonical_source_digest_Ok digest u :
  canonical_source_digest digest = Ok u → canonical_digest digest.
Proof.
  unfold canonical_source_digest. rewrite bind_Ok.
  intros (d & Hd%map_err_Ok & Heq). apply ensure_Ok, str_eqb_true in Heq as <-.
  by eapply ArtifactDigest_parse_canonical.
Qed.
Lemma canonical_digest_bytes digest :
  canonical_digest digest →
  str_forallb (λ a, is_lower_hex a || ascii_eqb a "-" || byte_is_lower a) digest = true.
Proof.
  intros (hex&->&_&Hh). rewrite str_forallb_app. simpl.
  eapply str_forallb_impl; [|exact Hh]. by intros a ->.
Qed.
Lemma canonical_digest_free c digest :
  is_lower_hex c || ascii_eqb c "-" || byte_is_lower c = false →
  canonical_digest digest → contains_char c digest = false.
Proof.
  intros Hc Hd. eapply forallb_contains_char; [by apply canonical_digest_bytes|done].
Qed.

Section source_theory.
Context `{UC : UrlCrate}.

Lemma file_source_inv value rest s :
  file_source_from_str value rest = Ok s →
  ∃ path digest, rest = path +:+ String "#" digest ∧ safe_relative_path path ∧
    canonical_digest digest ∧ s = mk_source value None.
Proof.
  unfold file_source_from_str. rewrite bind_Ok. intros ([path digest] & Hs & H).
  apply ok_or_Ok, rsplit_once_Some in Hs as [-> _].
  destruct (_ || _) eqn:E; [done|].
  rewrite !orb_false_iff in E. destruct E as ((((_&_)&Hc)&_)&Hp).
  apply bind_Ok in H as (u & Hd & [= <-]).
  exists path, digest. split_and!; [done| |by eapply canonical_source_digest_Ok|done].
  split; [by apply existsb_unsafe_parts|by apply contains_any_false].
Qed.

Lemma GitRepository_free value repository :
  GitRepository_from_str value = Ok repository → contains_char "|" value = false.
Proof.
  unfold GitRepository_from_str. destruct (url_parse value) as [u|]; [|done].
  destruct (_ || _) eqn:E; [done|]. intros _.
  rewrite !orb_false_iff in E. destruct E as [[_ E] _].
  apply contains_any_false in E. by apply Forall_inv in E.
Qed.
Lemma git_source_inv value rest s :
  git_source_from_str value rest = Ok s →
  ∃ repository commit digest,
    rest = repository +:+ String "#" (commit +:+ String "!" digest) ∧
    full_commit commit ∧ canonical_digest digest ∧ s = mk_source value None ∧
    contains_char "|" repository = false.
Proof.
  unfold git_source_from_str. rewrite bind_Ok. intros ([repository pin] & Hs & H).
  apply ok_or_Ok, rsplit_once_Some in Hs as [-> _].
  apply bind_Ok in H as ([commit digest] & Hp & H).
  apply ok_or_Ok, split_once_Some in Hp as ->.
  apply bind_Ok in H as (repo & Hrepo%map_err_Ok & H).
  apply GitRepository_free in Hrepo.
  destruct (_ || _) eqn:E; [done|].
  rewrite !orb_false_iff, !negb_false_iff, orb_true_iff, !Z.eqb_eq in E.
  destruct E as ((_&Hl)&Hh).
  apply bind_Ok in H as (u & Hd & [= <-]).
  exists repository, commit, digest.
  split_and!; [done|done|by eapply canonical_source_digest_Ok|done|done].
Qed.

Lemma copied_source_inv v s :
  PackageSource_from_str v = Ok s → source_registry s = None →
  s = mk_source v None ∧
  ((∃ rest, v = "file:" +:+ rest ∧ file_source_from_str v rest = Ok s) ∨
   (∃ rest, v = "git+" +:+ rest ∧ git_source_from_str v rest = Ok s)).
Proof.
  unfold PackageSource_from_str. intros H Hr.
  destruct (strip_prefix "file:" v) as [rest|] eqn:Ef.
  { apply strip_prefix_Some in Ef. split; [|by eauto].
    by apply file_source_inv in H as (?&?&_&_&_&->). }
  destruct (strip_prefix "git+" v) as [rest|] eqn:Eg.
  { apply strip_prefix_Some in Eg. split; [|by eauto].
    by apply git_source_inv in H as (?&?&?&_&_&_&->&_). }
  apply fmap_Ok in H as (o&_&->). done.
Qed.

(** A copied source keeps its text as its identity and reparses to itself;
    it is either a file below the project (every component of its path safe) or
    a full-length commit of a repository, pinned by a canonical digest. *)
Theorem copied_source_identity (v : string) (s : PackageSource) :
  PackageSource_from_str v = Ok s → source_registry s = None →
  identity s = v ∧ PackageSource_from_str (source_as_str s) = Ok s ∧
  (∃ digest, artifact_digest s = Some digest ∧ canonical_digest digest ∧
    ((∃ path, file_parts s = Some (path, digest) ∧ git_parts s = None ∧
        safe_relative_path path) ∨
     (∃ repository commit, git_parts s = Some (repository, commit, digest) ∧
        file_parts s = None ∧ full_commit commit))).
Proof.
  intros H Hr. destruct (copied_source_inv v s H Hr) as [-> Hcase].
  split_and!; [done|done|]. unfold artifact_digest.
  destruct Hcase as [(rest&Hv&Hf)|(rest&Hv&Hg)].
  - apply file_source_inv in Hf as (path&digest&->&Hpath&Hd&_).
    assert (file_parts (mk_source v None) = Some (path, digest)) as Hparts.
    { unfold file_parts. cbn [identity]. rewrite Hv, strip_prefix_app. simpl.
      apply rsplit_once_app. by apply canonical_digest_free. }
    exists digest. rewrite Hparts. split_and!; [done|done|]. left.
    exists path. split_and!; [done| |done]. unfold git_parts. by rewrite Hv.
  - apply git_source_inv in Hg as (repository&commit&digest&->&Hcommit&Hd&_&_).
    assert (git_parts (mk_source v None) = Some (repository, commit, digest)) as Hparts.
    { unfold git_parts. cbn [identity]. rewrite Hv, strip_prefix_app. simpl.
      assert (∀ c, is_lower_hex c = false → contains_char c commit = false) as Hc.
      { intros c. apply forallb_contains_char, Hcommit. }
      rewrite rsplit_once_app.
      - simpl. rewrite split_once_char_app; [done|by apply Hc].
      - rewrite contains_char_app, contains_char_cons, Hc by done.
        simpl. by apply canonical_digest_free. }
    assert (file_parts (mk_source v None) = None) as Hfile.
    { unfold file_parts. by rewrite Hv. }
    exists digest. rewrite Hfile, Hparts. split_and!; [done|done|]. right.
    exists repository, commit. done.
Qed.
End source_theory.
Lemma copied_source_identity_witness :
  ∃ s, PackageSource_from_str ("file:vendor/pkg.tgz#sha256-" +:+ to_ascii_lowercase sample_hex) = Ok s ∧
    PackageSource_from_str (source_as_str s) = Ok s ∧
    file_parts s = Some ("vendor/pkg.tgz", "sha256-" +:+ to_ascii_lowercase sample_hex).
Proof.
  set (v := "file:vendor/pkg.tgz#sha256-" +:+ to_ascii_lowercase sample_hex).
  exists (mk_source v None). split_and!; [reflexivity| |reflexivity].
  apply (copied_source_identity v (mk_source v None)); reflexivity.
Defined.

(** *** Registry origins *)
Section origin_theory.
Context `{UC : UrlCrate} `{UL : !UrlLaws}.

Lemma str_forallb_path_root : str_forallb (ascii_eqb "/") "/" = true.
Proof. done. Qed.
Lemma host_ok_inv host :
  host_ok host = true →
  host ≠ "" ∧ to_ascii_lowercase host = host ∧
  Forall (λ c, contains_char c host = false) ["@"; "|"; "/"; "#"; "?"; "\"; " "]%char ∧
  contains_char ":" host && negb (starts_with_char "[" host) = false.
Proof.
  unfold host_ok. intros H. bool_prop. apply str_eqb_true in H2.
  apply contains_any_false in H1. split_and!; try done; [by intros ->|].
  destruct (contains_char ":" host), (starts_with_char "[" host); done.
Qed.

(** The origin produced for a parsed URL is its serialised host and port. *)
Lemma RegistryOrigin_from_str_Ok v o :
  RegistryOrigin_from_str v = Ok o →
  ∃ u host, url_parse v = Some u ∧ url_scheme u = "https" ∧
    url_host_str u = Some host ∧ host_ok host = true ∧
    o = mk_origin (origin_text host (url_port u)).
Proof.
  unfold RegistryOrigin_from_str. destruct (url_parse v) as [u|] eqn:Hu; [|done].
  destruct (_ || _) eqn:E; [done|]. intros H.
  assert (url_scheme u = "https") as Hs.
  { rewrite !orb_false_iff in E. destruct E as [[[[[[[E _] _] _] _] _] _] _].
    by apply negb_false_iff, str_eqb_true in E. }
  destruct (url_https_host _ _ Hu Hs) as (host&Hh&Hok).
  exists u, host. split_and!; try done.
  apply host_ok_inv in Hok as (_&Hl&_&Hc). rewrite Hh in H. simpl in H.
  rewrite Hl, Hc in H. injection H as <-. f_equal. unfold origin_text. f_equal.
  destruct (url_port u) as [p|] eqn:Hp; [|by rewrite app_nil_r'].
  destruct (p =? 443)%Z eqn:E443; simpl; [|done].
  apply Z.eqb_eq in E443 as ->. by destruct (url_https_port _ _ Hu Hs).
Qed.

Lemma origin_text_free c host port :
  host_ok host = true → c ∈ ["@"; "|"; "#"; "?"]%char →
  contains_char c (origin_text host port) = false.
Proof.
  intros (_&_&Hf&_)%host_ok_inv Hc. unfold origin_text.
  rewrite !contains_char_app. rewrite Forall_forall in Hf.
  rewrite (Hf c) by set_solver.
  assert (contains_char c "https://" = false ∧ ascii_eqb c ":" = false ∧
    byte_is_digit c = false) as (H1&H2&H3) by (set_unfold; naive_solver).
  rewrite H1. destruct port as [p|]; [|done]. simpl.
  change (":" +:+ show_u64 p) with (String ":" (show_u64 p)).
  by rewrite contains_char_cons, H2, show_u64_free.
Qed.

Lemma RegistryOrigin_reparse v o :
  RegistryOrigin_from_str v = Ok o →
  starts_with "https://" (origin_str o) = true ∧
  contains_any ["@"; "|"; "#"; "?"]%char (origin_str o) = false ∧
  RegistryOrigin_from_str (origin_str o) = Ok o ∧
  PackageSource_from_str (origin_str o) = Ok (source_of_registry o).
Proof.
  intros (u&host&Hu&Hs&Hh&Hok&->)%RegistryOrigin_from_str_Ok. cbn [origin_str].
  assert (contains_char "@" (origin_text host (url_port u)) = false) as Hat.
  { apply origin_text_free; [done|set_solver]. }
  assert (RegistryOrigin_from_str (origin_text host (url_port u)) =
    Ok (mk_origin (origin_text host (url_port u)))) as Hparse.
  { unfold RegistryOrigin_from_str. erewrite url_parse_origin by done.
    cbn -[origin_text contains_char show_u64 to_ascii_lowercase str_forallb String.app].
    rewrite Hat, str_forallb_path_root.
    pose proof (host_ok_inv _ Hok) as (_&Hl&_&Hc). rewrite Hl, Hc. do 2 f_equal.
    unfold origin_text. f_equal.
    destruct (url_port u) as [p|] eqn:Hp; [|by rewrite app_nil_r'].
    destruct (p =? 443)%Z eqn:E443; simpl; [|done].
    apply Z.eqb_eq in E443 as ->. by destruct (url_https_port _ _ Hu Hs). }
  split_and!; [apply starts_with_app| |done|].
  - apply contains_any_false, Forall_forall. intros c Hc. by apply origin_text_free.
  - unfold PackageSource_from_str. unfold origin_text at 1 2.
    rewrite (app_cons "h"). simpl. by rewrite Hparse.
Qed.

(** A parsed registry origin is an [https] origin without credentials or
    field delimiters, and is canonical: it parses to itself, both as an origin
    and as a package source that remembers its registry. *)
Theorem RegistryOrigin_canonical (v : string) (o : RegistryOrigin) :
  RegistryOrigin_from_str v = Ok o →
  starts_with "https://" (origin_str o) = true ∧
  contains_any ["@"; "|"; "#"; "?"]%char (origin_str o) = false ∧
  RegistryOrigin_from_str (origin_str o) = Ok o ∧
  PackageSource_from_str (origin_str o) = Ok (source_of_registry o).
Proof. apply RegistryOrigin_reparse. Qed.
End origin_theory.
Lemma RegistryOrigin_canonical_witness :
  RegistryOrigin_from_str "https://registry.npmjs.org///" =
    Ok (mk_origin "https://registry.npmjs.org") ∧
  RegistryOrigin_from_str "https://registry.npmjs.org" =
    Ok (mk_origin "https://registry.npmjs.org").
Proof.
  split; [reflexivity|].
  apply (RegistryOrigin_canonical "https://registry.npmjs.org///"
    (mk_origin "https://registry.npmjs.org")). reflexivity.
Defined.

(** *** Artifact integrity *)
Lemma PackageIntegrity_from_str_Ok `{B64 : Base64} v i :
  PackageIntegrity_from_str v = Ok i →
  ∃ digest, String.length digest = 64%nat ∧
    i = mk_integrity ("sha512-" +:+ b64_encode digest).
Proof.
  unfold PackageIntegrity_from_str. destruct (strip_prefix _ v) as [encoded|]; [|done].
  destruct (if _ && _ then _ else _) as [[digest|]|]; [|done..].
  destruct (str_len digest =? 64)%Z eqn:E; [|done]. intros [= <-].
  exists digest. unfold str_len in E. split; [lia|done].
Qed.
Lemma ends_with_app x y : ends_with y (x +:+ y) = true.
Proof.
  induction x as [|a x IH].
  - rewrite app_nil_l'. destruct y; simpl; by rewrite ?str_eqb_refl.
  - rewrite app_cons. simpl. by rewrite IH, orb_true_r.
Qed.
(** Integrity parsing canonicalises: padded and unpadded spellings of 64 bytes
    become the padded [sha512-] form, which parses back to itself. *)
Theorem PackageIntegrity_canonical `{B64 : Base64} `{!Base64Laws} (v : string) (i : PackageIntegrity) :
  PackageIntegrity_from_str v = Ok i →
  PackageIntegrity_from_str (integrity_str i) = Ok i ∧
  (str_len (integrity_str i) = 95)%Z ∧ ends_with "==" (integrity_str i) = true.
Proof.
  intros (digest&Hlen&->)%PackageIntegrity_from_str_Ok. cbn [integrity_str].
  destruct (b64_encode_64 digest Hlen) as (body&Henc&Hbody).
  assert (str_len (b64_encode digest) = 88)%Z as H88.
  { rewrite Henc, str_len_app. unfold str_len. rewrite Hbody. done. }
  split_and!.
  - unfold PackageIntegrity_from_str. rewrite strip_prefix_app, H88.
    assert (ends_with "==" (b64_encode digest) = true) as ->.
    { rewrite Henc. apply ends_with_app. }
    simpl.
    rewrite b64_decode_encode by done. unfold str_len. by rewrite Hlen.
  - rewrite str_len_app, H88. done.
  - rewrite Henc, <-app_assoc'. apply ends_with_app.
Qed.
Lemma PackageIntegrity_canonical_witness :
  PackageIntegrity_from_str (integrity_str (mk_integrity
    ("sha512-" +:+ sample_encode (str_repeat 64 "x")))) =
  Ok (mk_integrity ("sha512-" +:+ sample_encode (str_repeat 64 "x"))).
Proof.
  apply (PackageIntegrity_canonical ("sha512-" +:+ str_repeat 64 "x" +:+ str_repeat 22 "A")).
  reflexivity.
Defined.
