(* ===== verification/Requirement.v ===== *)
(** * tapid-resolver: version requirements

    npm ranges, dist-tags and aliases: the data of [Requirement], its parser
    ([Requirement::from_str], [parse_x_range], [parse_requirement_base]) and
    matching ([matches_requirement]), with the derived orders that [BTreeSet]
    uses (crates/tapid-resolver/src/lib.rs). *)
From S2P Require Import Prelude Order RustStr Crates Samples Core.

Inductive RequirementOperator :=
| Exact | Caret | Tilde | Greater | GreaterEqual | Less | LessEqual.
#[export] Instance RequirementOperator_eq_dec : EqDecision RequirementOperator.
Proof. solve_decision. Defined.
Definition operator_index (op : RequirementOperator) : nat :=
  match op with
  | Exact => 0 | Caret => 1 | Tilde => 2 | Greater => 3
  | GreaterEqual => 4 | Less => 5 | LessEqual => 6
  end.
Definition operator_of_index (n : nat) : RequirementOperator :=
  match n with
  | 0 => Exact | 1 => Caret | 2 => Tilde | 3 => Greater
  | 4 => GreaterEqual | 5 => Less | _ => LessEqual
  end.
Inductive RequirementPrecision := Full | Major | Minor.
#[export] Instance RequirementPrecision_eq_dec : EqDecision RequirementPrecision.
Proof. solve_decision. Defined.
Definition precision_index (p : RequirementPrecision) : nat :=
  match p with Full => 0 | Major => 1 | Minor => 2 end.
Definition precision_of_index (n : nat) : RequirementPrecision :=
  match n with 0 => Full | 1 => Major | _ => Minor end.

Section requirements.
Context `{SV : Semver}.

Record RequirementBase := mk_base {
  base_version : PackageVersion;
  base_precision : RequirementPrecision;
}.
Record RequirementComparator := mk_comparator {
  comparator_op : RequirementOperator;
  comparator_base : RequirementBase;
}.
Inductive RequirementClause :=
| AnyStable
| Comparators (comparators : list RequirementComparator).
Record Requirement := mk_requirement {
  raw : string;
  alias : option PackageName;
  tag : option string;
  clauses : list RequirementClause;
}.

(** Derived [Eq] and [Ord], through the tuples of the fields. *)
Definition comparator_key (c : RequirementComparator) : nat * (PackageVersion * nat) :=
  (operator_index (comparator_op c),
   (base_version (comparator_base c), precision_index (base_precision (comparator_base c)))).
Definition comparator_of_key (k : nat * (PackageVersion * nat)) : RequirementComparator :=
  mk_comparator (operator_of_index k.1) (mk_base k.2.1 (precision_of_index k.2.2)).
Definition clause_key (c : RequirementClause) : option (list (nat * (PackageVersion * nat))) :=
  match c with AnyStable => None | Comparators l => Some (comparator_key <$> l) end.
Definition clause_of_key (k : option (list (nat * (PackageVersion * nat)))) : RequirementClause :=
  match k with None => AnyStable | Some l => Comparators (comparator_of_key <$> l) end.
Definition requirement_key (r : Requirement) :=
  (raw r, (alias r, (tag r, clause_key <$> clauses r))).
Definition requirement_of_key
    (k : string * (option PackageName * (option string
           * list (option (list (nat * (PackageVersion * nat))))))) : Requirement :=
  mk_requirement k.1 k.2.1 k.2.2.1 (clause_of_key <$> k.2.2.2).

Lemma comparator_of_to c : comparator_of_key (comparator_key c) = c.
Proof. by destruct c as [[] [? []]]. Qed.
Lemma fmap_of_to {A B} (f : A → B) (g : B → A) (l : list A) : (∀ x, g (f x) = x) → g <$> (f <$> l) = l.
Proof. intros Hgf. induction l as [|x l IH]; [done|]. rewrite !fmap_cons. by rewrite Hgf, IH. Qed.
Lemma clause_of_to c : clause_of_key (clause_key c) = c.
Proof. destruct c as [|l]; [done|]. simpl. f_equal. apply fmap_of_to, comparator_of_to. Qed.
Lemma requirement_of_to r : requirement_of_key (requirement_key r) = r.
Proof.
  destruct r as [? ? ? cs]. unfold requirement_of_key, requirement_key. simpl. f_equal.
  apply fmap_of_to, clause_of_to.
Qed.
#[export] Instance requirement_key_inj : Inj (=) (=) requirement_key.
Proof. intros x y H. by rewrite <-(requirement_of_to x), H, requirement_of_to. Qed.
#[export] Instance Requirement_eq_dec : EqDecision Requirement.
Proof.
  intros x y. destruct (decide (requirement_key x = requirement_key y)) as [H|H];
    [left; by apply (inj requirement_key)|right; congruence].
Defined.
#[export] Instance Requirement_countable : Countable Requirement :=
  inj_countable' requirement_key requirement_of_key requirement_of_to.
#[export] Instance Requirement_ord : Ord Requirement := cmp_on requirement_key.
#[export] Instance Requirement_ord_laws `{!SemverLaws} : OrdLaws Requirement.
Proof. apply cmp_on_laws. apply _. Qed.

(** Failures of parsing and of graph selection. *)
Record RequirementOrigin := mk_requirement_origin {
  origin_name : PackageName;
  origin_package : option PackageInstanceId;
}.
Inductive ResolveError :=
| MetadataLimitExceeded
| InvalidRequirement (value : string)
| UnsupportedRange (value : string)
| UnsupportedMode (value : string)
| RegistryRouting (value : string)
| DuplicateMetadata (package : string)
| MissingMetadata (packages : list (string * string))
| MissingCandidate (origin : RequirementOrigin) (registry name requirement : string)
    (available : list string)
| Conflict (origin : RequirementOrigin) (registry name : string)
    (requirements available : list string)
| PeerDependency (package : PackageInstanceId) (peer requirement : string)
    (provider : option PackageInstanceId).

(** ** Parsing *)
Definition separated_operator (token : string) : option RequirementOperator :=
  if str_eqb token "~" then Some Tilde
  else if str_eqb token ">" then Some Greater
  else if str_eqb token ">=" then Some GreaterEqual
  else if str_eqb token "<" then Some Less
  else if str_eqb token "<=" then Some LessEqual
  else if str_eqb token "=" then Some Exact
  else None.

Definition operator_prefixes : list (string * RequirementOperator) :=
  [(">=", GreaterEqual); ("<=", LessEqual); (">", Greater); ("<", Less);
   ("^", Caret); ("~", Tilde); ("=", Exact)].
Fixpoint first_prefix (l : list (string * RequirementOperator)) (token : string) :
    RequirementOperator * string :=
  match l with
  | [] => (Exact, token)
  | (prefix, op) :: l =>
      match strip_prefix prefix token with
      | Some value => (op, value)
      | None => first_prefix l token
      end
  end.
Definition requirement_token (token : string) : RequirementOperator * string :=
  first_prefix operator_prefixes token.

Definition strip_v (value : string) : string := default value (strip_prefix "v" value).
(** Not a decimal component: empty, not all digits, or with a leading zero. *)
Definition bad_number (part : string) : bool :=
  is_empty part || negb (str_forallb byte_is_digit part)
  || ((1 <? str_len part)%Z && starts_with_char "0" part).

Definition parse_requirement_base (op : RequirementOperator) (value : string) :
    option RequirementBase :=
  let value := strip_v value in
  match sv_parse value with
  | Some version =>
      version ← to_ok (PackageVersion_from_str (sv_display (sv_clear_build version)));
      Some (mk_base version Full)
  | None =>
      let components := split "." value in
      let n := length components in
      let operator_supported :=
        match op with
        | Exact | Tilde | Greater | GreaterEqual | Less | LessEqual => true
        | Caret => (n =? 1)%nat || (n =? 2)%nat
        end in
      if negb ((n =? 1)%nat || (n =? 2)%nat)
         || existsb bad_number components
         || negb operator_supported
      then None
      else
        major ← components !! 0 ≫= parse_u64;
        minor ← match components !! 1 with None => Some 0%Z | Some value => parse_u64 value end;
        Some (mk_base (stable major minor 0)
                (if (n =? 1)%nat then Major else Minor))
  end.

Definition partial_upper_bound (base : PackageVersion) (precision : RequirementPrecision) :
    option PackageVersion :=
  match precision with
  | Full => None
  | Major => (λ major, stable major 0 0) <$> u64_checked_add (major base) 1
  | Minor =>
      match u64_checked_add (minor base) 1 with
      | Some minor => Some (stable (major base) minor 0)
      | None => (λ major, stable major 0 0) <$> u64_checked_add (major base) 1
      end
  end.

Definition caret_upper_bound (base : RequirementBase) : option PackageVersion :=
  let v := base_version base in
  if bool_decide (base_precision base = Major) || (0 <? major v)%Z
  then (λ major, stable major 0 0) <$> u64_checked_add (major v) 1
  else if bool_decide (base_precision base = Minor) || (0 <? minor v)%Z
  then (λ minor, stable 0 minor 0) <$> u64_checked_add (minor v) 1
  else (λ patch, stable 0 0 patch) <$> u64_checked_add (patch v) 1.

Definition is_wildcard (part : string) : bool :=
  str_eqb (to_ascii_lowercase part) "x" || str_eqb (to_ascii_lowercase part) "*".
Fixpoint position {A} (f : A → bool) (l : list A) : option nat :=
  match l with
  | [] => None
  | x :: l => if f x then Some 0 else S <$> position f l
  end.
Definition less_than (base : RequirementBase) : RequirementComparator := mk_comparator Less base.

(** The bounds of a wildcard range with at least one numeric component. *)
Definition x_range_bounds (op : RequirementOperator) (lower : RequirementBase) :
    option (list RequirementComparator) :=
  let lower_comparator := mk_comparator GreaterEqual lower in
  upper ← partial_upper_bound (base_version lower) (base_precision lower);
  let partial_upper := mk_base upper Full in
  match op with
  | Greater => Some [mk_comparator GreaterEqual partial_upper]
  | GreaterEqual => Some [lower_comparator]
  | Less => Some [less_than lower]
  | LessEqual => Some [less_than partial_upper]
  | Caret =>
      upper ← caret_upper_bound lower;
      Some [lower_comparator; less_than (mk_base upper Full)]
  | Tilde | Exact => Some [lower_comparator; less_than partial_upper]
  end.

Definition parse_x_range (clause : string) : option (list RequirementComparator) :=
  let '(op, value) := requirement_token clause in
  let value := strip_v value in
  value ← match split_once "+" value with
          | Some (version, build) => if sv_build_metadata build then Some version else None
          | None => Some value
          end;
  let parts := split "." value in
  wildcard_at ← position is_wildcard parts;
  if existsb (λ part, negb (is_wildcard part)) (drop wildcard_at parts) then None
  else if existsb bad_number (take wildcard_at parts) then None
  else if (wildcard_at =? 0)%nat then
    Some match op with
         | Greater | Less => [mk_comparator Less (mk_base (stable 0 0 0) Full)]
         | _ => []
         end
  else
    lower ← parse_requirement_base GreaterEqual (join "." (take wildcard_at parts));
    x_range_bounds op lower.

(** The token loop of one clause. *)
Fixpoint parse_tokens (raw : string) (tokens : list string) :
    result ResolveError (list RequirementComparator) :=
  match tokens with
  | [] => Ok []
  | token :: rest =>
      let plain (_ : ()) :=
        match parse_x_range token with
        | Some comparators => (comparators ++.) <$> parse_tokens raw rest
        | None =>
            match separated_operator token with
            | Some op =>
                match rest with
                | [] => Err (UnsupportedRange raw)
                | value :: rest =>
                    base ← ok_or (UnsupportedRange raw) (parse_requirement_base op value);
                    (mk_comparator op base ::.) <$> parse_tokens raw rest
                end
            | None =>
                let '(op, value) := requirement_token token in
                base ← ok_or (UnsupportedRange raw) (parse_requirement_base op value);
                (mk_comparator op base ::.) <$> parse_tokens raw rest
            end
        end in
      match separated_operator token, rest with
      | Some _, value :: rest' =>
          match parse_x_range (token +:+ value) with
          | Some comparators => (comparators ++.) <$> parse_tokens raw rest'
          | None => plain ()
          end
      | _, _ => plain ()
      end
  end.

Definition parse_clause (raw clause : string) : result ResolveError RequirementClause :=
  let clause := trim clause in
  if is_empty clause then Err (UnsupportedRange raw)
  else if str_eqb clause "*" || eq_ignore_ascii_case clause "x" then Ok AnyStable
  else
  match parse_x_range clause with
  | Some [] => Ok AnyStable
  | Some comparators => Ok (Comparators comparators)
  | None =>
      let tokens := split_whitespace clause in
      match tokens with
      | [lower; "-"; upper] =>
          lower ← ok_or (UnsupportedRange raw) (parse_requirement_base GreaterEqual lower);
          upper ← ok_or (UnsupportedRange raw) (parse_requirement_base LessEqual upper);
          Ok (Comparators [mk_comparator GreaterEqual lower; mk_comparator LessEqual upper])
      | _ => Comparators <$> parse_tokens raw tokens
      end
  end.

Definition is_dist_tag (raw : string) : bool :=
  negb (str_eqb raw "x") && negb (str_eqb raw "X")
  && match raw with "" => false | String a _ => byte_is_alphabetic a end
  && str_forallb (λ a, byte_is_alphanumeric a
                      || existsb (ascii_eqb a) ["-"; "_"; "."]%char) raw
  && bool_decide (parse_x_range raw = None)
  && bool_decide (parse_requirement_base Exact raw = None).

(** A requirement that is not an alias; [raw] is already trimmed. *)
Definition parse_plain (raw : string) : result ResolveError Requirement :=
  if is_empty raw then Ok (mk_requirement raw None None [AnyStable])
  else if is_dist_tag raw then Ok (mk_requirement raw None (Some raw) [])
  else clauses ← try_map (parse_clause raw) (split_str "||" raw);
       Ok (mk_requirement raw None None clauses).

Definition alias_parts (spec : string) : string * string :=
  match rsplit_once "@" spec with
  | Some (name, range) => if is_empty name then (spec, "*") else (name, range)
  | None => (spec, "*")
  end.
Definition Requirement_from_str (s : string) : result ResolveError Requirement :=
  let raw := trim s in
  match strip_prefix "npm:" raw with
  | Some spec =>
      let '(name, range) := alias_parts spec in
      name ← map_err (λ _, UnsupportedRange raw) (PackageName_from_str name);
      let range := trim range in
      if is_empty range || starts_with "npm:" range then Err (UnsupportedRange raw)
      else
        requirement ← map_err (λ _, UnsupportedRange raw) (parse_plain (trim range));
        Ok (mk_requirement raw (Some name) (tag requirement) (clauses requirement))
  | None => parse_plain raw
  end.

(** ** Matching *)
Definition same_triple (u v : PackageVersion) : bool :=
  (major u =? major v)%Z && (minor u =? minor v)%Z && (patch u =? patch v)%Z.

Definition matches_comparator (version : PackageVersion) (c : RequirementComparator) : bool :=
  let base := base_version (comparator_base c) in
  let precision := base_precision (comparator_base c) in
  match comparator_op c with
  | Exact =>
      match precision with
      | Full => bool_decide (version = base)
      | Major => leb base version && (major version =? major base)%Z
      | Minor => leb base version && (major version =? major base)%Z
                 && (minor version =? minor base)%Z
      end
  | Caret =>
      match caret_upper_bound (comparator_base c) with
      | Some upper => leb base version && ltb version upper
      | None =>
          if bool_decide (precision = Major) || (0 <? major base)%Z
          then leb base version && (major version =? major base)%Z
          else if bool_decide (precision = Minor) || (0 <? minor base)%Z
          then leb base version && (major version =? major base)%Z
               && (minor version =? minor base)%Z
          else bool_decide (version = base)
      end
  | Tilde =>
      leb base version && (major version =? major base)%Z
      && (bool_decide (precision = Major) || (minor version =? minor base)%Z)
  | Greater =>
      if bool_decide (precision = Full) then ltb base version
      else match partial_upper_bound base precision with
           | Some upper => leb upper version
           | None => false
           end
  | GreaterEqual => leb base version
  | Less =>
      match precision with
      | Full => ltb version base
      | Major => (major version <? major base)%Z
      | Minor => ltb (major version, minor version) (major base, minor base)
      end
  | LessEqual =>
      match precision with
      | Full => leb version base
      | Major => (major version <=? major base)%Z
      | Minor => leb (major version, minor version) (major base, minor base)
      end
  end.

Definition prerelease_is_eligible (version : PackageVersion)
    (comparators : list RequirementComparator) : bool :=
  bool_decide (prerelease version = None)
  || existsb (λ c, let base := base_version (comparator_base c) in
                   bool_decide (is_Some (prerelease base)) && same_triple version base)
       comparators.
Definition matches_clause (version : PackageVersion) (clause : RequirementClause) : bool :=
  match clause with
  | AnyStable => bool_decide (prerelease version = None)
  | Comparators comparators =>
      prerelease_is_eligible version comparators
      && forallb (matches_comparator version) comparators
  end.
Definition matches_requirement (version : PackageVersion) (requirement : Requirement) : bool :=
  existsb (matches_clause version) (clauses requirement).

Definition package_name (r : Requirement) (declared : PackageName) : PackageName :=
  default declared (alias r).
Definition is_alias (r : Requirement) : bool := bool_decide (is_Some (alias r)).
Definition dist_tag (r : Requirement) : option string := tag r.
Definition matches (r : Requirement) (version : PackageVersion) : bool :=
  matches_requirement version r.
Definition matches_tagged_version (r : Requirement) (version : PackageVersion)
    (tags : gset string) : bool :=
  match dist_tag r with
  | None => matches r version
  | Some tag => bool_decide (tag ∈ tags)
  end.
Definition matches_locked_version (r : Requirement) (version : PackageVersion) : bool :=
  bool_decide (is_Some (tag r)) || matches r version.

(** ** Accounting: [size_of] of the two element types is a compiler parameter. *)
Definition retained_bytes (size_of_clause size_of_comparator : Z) (r : Requirement) : Z :=
  let bytes :=
    u64_saturating_add
      (u64_saturating_add
         (u64_saturating_add (str_len (raw r)) (from_option str_len 0 (dist_tag r))%Z)
         (from_option (λ n, str_len (name_str n)) 0 (alias r))%Z)
      (u64_saturating_mul (Z.of_nat (length (clauses r))) size_of_clause) in
  foldl (λ bytes clause,
    match clause with
    | AnyStable => bytes
    | Comparators comparators =>
        foldl (λ bytes c, u64_saturating_add bytes
                 (from_option str_len 0 (prerelease (base_version (comparator_base c))))%Z)
          (u64_saturating_add bytes
             (u64_saturating_mul (Z.of_nat (length comparators)) size_of_comparator))
          comparators
    end) bytes (clauses r).
End requirements.

(** ** Precedence of releases and prereleases *)
Lemma cmp_Z_lt a b : cmp a b = Lt ↔ (a < b)%Z.
Proof. apply Z.compare_lt_iff. Qed.
Lemma triple_lt (a b c d e f : Z) :
  lt_of (a, b, c) (d, e, f) ↔ (a < d ∨ a = d ∧ (b < e ∨ b = e ∧ c < f))%Z.
Proof.
  unfold lt_of, cmp, prod_ord, cmp_then; simpl. unfold cmp, prod_ord, cmp_then; simpl.
  unfold cmp, Z_ord.
  destruct (Z.compare_spec a d), (Z.compare_spec b e), (Z.compare_spec c f);
    (split; [intros ?; try done; lia|intros ?; try done; lia]).
Qed.
Lemma triple_le (a b c d e f : Z) :
  le_of (a, b, c) (d, e, f) ↔ (a < d ∨ a = d ∧ (b < e ∨ b = e ∧ c <= f))%Z.
Proof. rewrite le_of_lt_eq, triple_lt. split; [intros [?|[= -> -> ->]]; lia|]. intros H.
  assert (c = f ∨ c ≠ f) as [->|?] by lia; [|left; lia].
  destruct (decide (a = d ∧ b = e)) as [[-> ->]|]; [by right|left; lia].
Qed.
Lemma pair_ltb (a b c d : Z) :
  ltb (a, b) (c, d) = true ↔ (a < c ∨ a = c ∧ b < d)%Z.
Proof.
  rewrite ltb_lt. unfold lt_of, cmp, prod_ord, cmp_then; simpl. unfold cmp, Z_ord.
  destruct (Z.compare_spec a c), (Z.compare_spec b d);
    (split; [intros ?; try done; lia|intros ?; try done; lia]).
Qed.

Section version_order.
Context `{SV : Semver} `{SL : !SemverLaws}.
Implicit Types u v : PackageVersion.

Definition triple (v : PackageVersion) : Z * Z * Z := (major v, minor v, patch v).
(** Package versions carry no build metadata. *)
Definition pv_wf (v : PackageVersion) : Prop := sv_build (pv v) = "".
Definition release (v : PackageVersion) : Prop := prerelease v = None.

Lemma prerelease_None v : prerelease v = None ↔ sv_pre (pv v) = "".
Proof. unfold prerelease. by destruct (sv_pre (pv v)). Qed.
Lemma PackageVersion_from_str_wf s v : PackageVersion_from_str s = Ok v → pv_wf v.
Proof.
  unfold PackageVersion_from_str. destruct (sv_parse s) as [w|]; [|done].
  destruct (is_empty (sv_build w)) eqn:E; [|done]. intros [= <-]. by apply is_empty_true.
Qed.
Lemma stable_wf a b c : pv_wf (stable a b c).
Proof. apply sv_new_build. Qed.
Lemma stable_release a b c : release (stable a b c).
Proof. apply prerelease_None, sv_new_pre. Qed.
Lemma stable_triple a b c : is_u64 a → is_u64 b → is_u64 c → triple (stable a b c) = (a, b, c).
Proof. apply sv_new_triple. Qed.
Lemma version_u64 v : is_u64 (major v) ∧ is_u64 (minor v) ∧ is_u64 (patch v).
Proof. apply sv_components. Qed.

Lemma cmp_triple u v : triple u ≠ triple v → cmp u v = cmp (triple u) (triple v).
Proof. apply sv_cmp_triple. Qed.
Lemma cmp_prerelease u v :
  triple u = triple v → ¬ release u → release v → cmp u v = Lt.
Proof. unfold release. rewrite !prerelease_None. intros. by apply sv_cmp_prerelease. Qed.
Lemma release_eq u v :
  triple u = triple v → release u → release v → pv_wf u → pv_wf v → u = v.
Proof.
  unfold release. rewrite !prerelease_None. intros. apply (inj pv). by apply sv_release_eq.
Qed.

Lemma le_triple u v : le_of u v → le_of (triple u) (triple v).
Proof.
  intros H. destruct (decide (triple u = triple v)) as [->|Hne]; [done|].
  unfold le_of in *. by rewrite cmp_triple in H.
Qed.
Lemma lt_triple u v : lt_of (triple u) (triple v) → lt_of u v.
Proof.
  intros H. unfold lt_of. rewrite cmp_triple; [done|].
  intros Heq. rewrite Heq in H. by apply lt_of_irrefl in H.
Qed.
(** Against a release, precedence is decided by the components. *)
Lemma release_le u v :
  release u → release v → pv_wf u → pv_wf v → le_of u v ↔ le_of (triple u) (triple v).
Proof.
  intros Hu Hv Wu Wv. split; [apply le_triple|]. rewrite !le_of_lt_eq.
  intros [H|H]; [left; by apply lt_triple|right; by apply release_eq].
Qed.
Lemma release_lt u v :
  release u → release v → pv_wf u → pv_wf v → lt_of u v ↔ lt_of (triple u) (triple v).
Proof. intros. rewrite <-!not_le_of. by rewrite release_le. Qed.

Lemma same_triple_true u v : same_triple u v = true ↔ triple u = triple v.
Proof.
  unfold same_triple, triple. rewrite !andb_true_iff, !Z.eqb_eq.
  split; [by intros ((->&->)&->)|by intros [= -> -> ->]].
Qed.
Lemma checked_add_spec a b :
  u64_checked_add a b = if decide (a + b <= u64_max)%Z then Some (a + b)%Z else None.
Proof.
  unfold u64_checked_add. destruct (Z.leb_spec (a + b) u64_max); by case_decide; try lia.
Qed.
End version_order.

Section requirement_theory.
Context `{SV : Semver} `{SL : !SemverLaws}.
Implicit Types v : PackageVersion.

(** The window of a caret range: the leftmost significant component is kept. *)
Definition caret_window (base : RequirementBase) (v : PackageVersion) : Prop :=
  let b := base_version base in
  if decide (base_precision base = Major ∨ (0 < major b)%Z) then major v = major b
  else if decide (base_precision base = Minor ∨ (0 < minor b)%Z)
  then major v = major b ∧ minor v = minor b
  else triple v = triple b ∧ (patch b = u64_max → v = b).

Definition eligible (v b : PackageVersion) : Prop :=
  release v ∨ (¬ release b ∧ triple v = triple b).

Lemma lt_stable v b a1 a2 a3 :
  eligible v b → pv_wf v → lt_of (triple b) (a1, a2, a3) →
  is_u64 a1 → is_u64 a2 → is_u64 a3 →
  lt_of v (stable a1 a2 a3) ↔ lt_of (triple v) (a1, a2, a3).
Proof.
  intros He Wv Hb H1 H2 H3. destruct He as [Hr|[_ Heq]].
  - rewrite release_lt; [by rewrite stable_triple| |apply stable_release| |apply stable_wf]; done.
  - rewrite Heq. split; [done|]. intros _. apply lt_triple. by rewrite Heq, stable_triple.
Qed.
Lemma bool_decide_or (P : Prop) `{Decision P} (b : bool) (Q : Prop) `{Decision Q} :
  (b = true ↔ Q) → bool_decide P || b = bool_decide (P ∨ Q).
Proof.
  intros HQ. apply eq_bool_prop_intro. rewrite !Is_true_true, orb_true_iff,
    !bool_decide_eq_true. tauto.
Qed.

Lemma caret_upper_spec (base : RequirementBase) v upper :
  caret_upper_bound base = Some upper → pv_wf v →
  eligible v (base_version base) → le_of (base_version base) v →
  ltb v upper = true ↔ caret_window base v.
Proof.
  destruct base as [b p]. unfold caret_upper_bound, caret_window. cbn [base_version base_precision].
  intros Hup Wv He Hle. pose proof (le_triple _ _ Hle) as Ht.
  pose proof (version_u64 b) as (B1&B2&B3). pose proof (version_u64 v) as (V1&V2&V3).
  unfold is_u64 in *. rewrite !checked_add_spec in Hup. rewrite ltb_lt.
  unfold triple in Ht. rewrite triple_le in Ht.
  rewrite (bool_decide_or (p = Major) (0 <? major b)%Z (0 < major b)%Z) in Hup by lia.
  rewrite (bool_decide_or (p = Minor) (0 <? minor b)%Z (0 < minor b)%Z) in Hup by lia.
  repeat case_bool_decide; repeat case_decide; try done; simplify_eq/=;
    (rewrite lt_stable; [|eassumption|done|unfold triple; rewrite triple_lt|..];
     unfold is_u64 in *; unfold triple; rewrite ?triple_lt; try lia).
  split; [|intros [[= -> -> ->] _]; lia]. intros ?.
  split; [f_equal; [f_equal|]; lia|lia].
Qed.

Lemma matches_caret_spec (base : RequirementBase) v :
  pv_wf v → pv_wf (base_version base) → eligible v (base_version base) →
  matches_comparator v (mk_comparator Caret base) = true ↔
  le_of (base_version base) v ∧ caret_window base v.
Proof.
  intros Wv Wb He. unfold matches_comparator. cbn [comparator_op comparator_base].
  destruct (caret_upper_bound base) as [upper|] eqn:Hup.
  { rewrite andb_true_iff, leb_le.
    split; intros [Hle H]; (split; [done|]); by apply (caret_upper_spec base v upper). }
  destruct base as [b p]. unfold caret_upper_bound, caret_window in *.
  cbn [base_version base_precision] in *.
  pose proof (version_u64 b) as (B1&B2&B3). pose proof (version_u64 v) as (V1&V2&V3).
  unfold is_u64 in *. rewrite !checked_add_spec in Hup.
  rewrite (bool_decide_or (p = Major) (0 <? major b)%Z (0 < major b)%Z) in Hup |- * by lia.
  rewrite (bool_decide_or (p = Minor) (0 <? minor b)%Z (0 < minor b)%Z) in Hup |- * by lia.
  repeat case_bool_decide; repeat case_decide; try done; simplify_eq/=;
    rewrite ?andb_true_iff, ?leb_le, ?Z.eqb_eq, ?bool_decide_eq_true; try tauto.
  - split; [intros _; split; [reflexivity|done]|done].
  - split; [done|]. intros [_ [_ Heq]]. assert (v = b) by (apply Heq; lia). done.
Qed.

(** A caret requirement admits exactly the versions at or above its base that
    keep the base's leftmost significant component, whether or not the exclusive
    upper bound is representable; a prerelease is considered only on the base's
    own components. *)
Theorem caret_requirement_spec (base : RequirementBase) (v : PackageVersion)
    (raw : string) :
  pv_wf v → pv_wf (base_version base) →
  matches (mk_requirement raw None None [Comparators [mk_comparator Caret base]]) v = true ↔
  eligible v (base_version base) ∧ le_of (base_version base) v ∧ caret_window base v.
Proof.
  intros Wv Wb. unfold matches, matches_requirement. cbn [clauses existsb matches_clause].
  rewrite orb_false_r, andb_true_iff. cbn [forallb]. rewrite andb_true_r.
  unfold prerelease_is_eligible. cbn [existsb comparator_base]. rewrite orb_false_r.
  assert ((bool_decide (prerelease v = None)
    || bool_decide (is_Some (prerelease (base_version base)))
       && same_triple v (base_version base)) = true ↔ eligible v (base_version base)) as Hel.
  { rewrite orb_true_iff, andb_true_iff, !bool_decide_eq_true, same_triple_true.
    unfold eligible, release. by rewrite <-not_eq_None_Some. }
  rewrite Hel. split; intros [He H]; (split; [done|]); by apply matches_caret_spec.
Qed.

(** Partial bases are completed with zeros. *)
Definition base_wf (base : RequirementBase) : Prop :=
  pv_wf (base_version base) ∧
  match base_precision base with
  | Full => True
  | Major => ∃ a, is_u64 a ∧ base_version base = stable a 0 0
  | Minor => ∃ a b, is_u64 a ∧ is_u64 b ∧ base_version base = stable a b 0
  end.

Lemma digits_value_nonneg acc s n :
  (0 <= acc)%Z → digits_value acc s = Some n → (0 <= n)%Z.
Proof.
  revert acc. induction s as [|a s IH]; intros acc Hacc; simpl; [by intros [= <-]|].
  destruct (byte_is_digit a) eqn:Hd; [|done]. apply IH.
  unfold byte_is_digit, between in Hd. bool_prop. lia.
Qed.
Lemma parse_u64_range s n : parse_u64 s = Some n → is_u64 n.
Proof.
  unfold parse_u64. destruct (is_empty _); [done|]. intros (m&Hm&Hn)%bind_Some.
  destruct (m <=? u64_max)%Z eqn:E; [|done]. simplify_eq. apply Z.leb_le in E.
  apply digits_value_nonneg in Hm; [|done]. by unfold is_u64.
Qed.
Lemma parse_requirement_base_wf op s base :
  parse_requirement_base op s = Some base → base_wf base.
Proof.
  unfold parse_requirement_base. destruct (sv_parse (strip_v s)) as [w|].
  - intros (v&Hv&[= <-])%bind_Some. apply to_ok_Some in Hv. split; [|done].
    by eapply PackageVersion_from_str_wf.
  - destruct (_ || _); [done|]. intros (a&Ha&H)%bind_Some.
    apply bind_Some in H as (b&Hb&[= <-]).
    apply bind_Some in Ha as (sa&Hsa&Ha%parse_u64_range).
    split; [apply stable_wf|]. cbn [base_precision base_version].
    destruct (_ =? 1)%nat eqn:Hn.
    + exists a. split; [done|]. apply Nat.eqb_eq in Hn.
      rewrite (lookup_ge_None_2 _ 1) in Hb by lia. by simplify_eq.
    + exists a, b. split_and!; [done| |done].
      destruct (_ !! 1); [by eapply parse_u64_range|].
      simplify_eq. unfold is_u64, u64_max. lia.
Qed.

Lemma stable_zero_u64 : is_u64 0.
Proof. unfold is_u64, u64_max. lia. Qed.
Lemma leb_stable a b c v :
  release v → pv_wf v → is_u64 a → is_u64 b → is_u64 c →
  leb (stable a b c) v = true ↔ le_of (a, b, c) (triple v).
Proof.
  intros Hr Hw Ha Hb Hc. rewrite leb_le, release_le; try done;
    [by rewrite stable_triple|apply stable_release|apply stable_wf].
Qed.
Lemma stable_components a b c :
  is_u64 a → is_u64 b → is_u64 c →
  major (stable a b c) = a ∧ minor (stable a b c) = b ∧ patch (stable a b c) = c.
Proof. intros. pose proof (stable_triple a b c) as Ht. unfold triple in Ht. naive_solver. Qed.

Lemma greater_lessequal (base : RequirementBase) v :
  release v → pv_wf v → base_wf base →
  matches_comparator v (mk_comparator Greater base) =
  negb (matches_comparator v (mk_comparator LessEqual base)).
Proof.
  intros Hr Hw [Wb Hb]. destruct base as [b p]. cbn [base_version base_precision] in *.
  pose proof (version_u64 v) as (V1&V2&V3). pose proof stable_zero_u64 as Z0.
  unfold matches_comparator. cbn [comparator_op comparator_base base_version base_precision].
  apply eq_bool_prop_intro. rewrite !Is_true_true, negb_true_iff, <-not_true_iff_false.
  destruct p; (case_bool_decide; try done; []); cbn [partial_upper_bound].
  - rewrite ltb_lt, leb_le. symmetry. apply not_le_of.
  - destruct Hb as (a&Ha&->). destruct (stable_components a 0 0) as (->&_&_); [done..|].
    rewrite checked_add_spec. unfold is_u64 in *. case_decide; simpl.
    + rewrite leb_stable by (unfold is_u64; done || lia). unfold triple. rewrite triple_le. lia.
    + split; [done|lia].
  - destruct Hb as (a&c&Ha&Hc&->).
    destruct (stable_components a c 0) as (->&->&_); [done..|].
    assert (leb (major v, minor v) (a, c) = true ↔ (major v < a ∨ major v = a ∧ minor v <= c)%Z) as ->.
    { rewrite <-negb_false_iff, <-ltb_leb, <-not_true_iff_false, pair_ltb. lia. }
    rewrite !checked_add_spec. unfold is_u64 in *.
    case_decide; [|simpl; case_decide; simpl].
    + rewrite leb_stable by (unfold is_u64; done || lia). unfold triple. rewrite triple_le. lia.
    + rewrite leb_stable by (unfold is_u64; done || lia). unfold triple. rewrite triple_le. lia.
    + split; [done|lia].
Qed.
Lemma less_greaterequal (base : RequirementBase) v :
  release v → pv_wf v → base_wf base →
  matches_comparator v (mk_comparator Less base) =
  negb (matches_comparator v (mk_comparator GreaterEqual base)).
Proof.
  intros Hr Hw [Wb Hb]. destruct base as [b p]. cbn [base_version base_precision] in *.
  pose proof (version_u64 v) as (V1&V2&V3). pose proof stable_zero_u64 as Z0.
  unfold matches_comparator. cbn [comparator_op comparator_base base_version base_precision].
  apply eq_bool_prop_intro. rewrite !Is_true_true, negb_true_iff, <-not_true_iff_false.
  destruct p.
  - rewrite ltb_lt, leb_le. symmetry. apply not_le_of.
  - destruct Hb as (a&Ha&->). rewrite leb_stable by done.
    destruct (stable_components a 0 0) as (->&_&_); [done..|].
    unfold triple, is_u64 in *. rewrite triple_le. lia.
  - destruct Hb as (a&c&Ha&Hc&->). rewrite leb_stable by done.
    destruct (stable_components a c 0) as (->&->&_); [done..|].
    rewrite pair_ltb. unfold triple, is_u64 in *. rewrite triple_le. lia.
Qed.

(** On releases, [>] is the complement of [<=] and [<] of [>=] for every base
    the parser produces, partial or full, including bases whose partial upper
    bound overflows. *)
Theorem comparators_complementary (op : RequirementOperator) (value : string)
    (base : RequirementBase) (v : PackageVersion) :
  parse_requirement_base op value = Some base → release v → pv_wf v →
  matches_comparator v (mk_comparator Greater base) =
    negb (matches_comparator v (mk_comparator LessEqual base)) ∧
  matches_comparator v (mk_comparator Less base) =
    negb (matches_comparator v (mk_comparator GreaterEqual base)).
Proof.
  intros Hb%parse_requirement_base_wf Hr Hw.
  split; [by apply greater_lessequal|by apply less_greaterequal].
Qed.

Lemma partial_upper_ltb (lower : RequirementBase) upper v :
  release v → pv_wf v → base_wf lower →
  partial_upper_bound (base_version lower) (base_precision lower) = Some upper →
  leb upper v = matches_comparator v (mk_comparator Greater lower).
Proof.
  intros Hr Hw [_ Hb] Hup. unfold matches_comparator.
  cbn [comparator_op comparator_base]. rewrite Hup.
  by destruct (base_precision lower).
Qed.
Lemma partial_window (lower : RequirementBase) v :
  release v → pv_wf v → base_wf lower → base_precision lower ≠ Full →
  matches_comparator v (mk_comparator Exact lower) =
    leb (base_version lower) v && matches_comparator v (mk_comparator LessEqual lower) ∧
  matches_comparator v (mk_comparator Tilde lower) =
    matches_comparator v (mk_comparator Exact lower).
Proof.
  intros Hr Hw [_ Hb] Hp. destruct lower as [b p]. cbn [base_version base_precision] in *.
  pose proof stable_zero_u64 as Z0. unfold matches_comparator.
  cbn [comparator_op comparator_base base_version base_precision].
  destruct p; [done| |].
  - split; [|by rewrite bool_decide_true, orb_true_l, andb_true_r by done].
    destruct Hb as (a&Ha&->). destruct (stable_components a 0 0) as (->&_&_); [done..|].
    apply eq_bool_prop_intro. rewrite !Is_true_true, !andb_true_iff, leb_stable by done.
    unfold triple. rewrite triple_le, Z.eqb_eq, Z.leb_le. lia.
  - rewrite bool_decide_false, orb_false_l by done. split; [|done].
    destruct Hb as (a&c&Ha&Hc&->). destruct (stable_components a c 0) as (->&->&_); [done..|].
    apply eq_bool_prop_intro. rewrite !Is_true_true, !andb_true_iff, leb_stable by done.
    rewrite <-(negb_false_iff (leb _ _)), <-ltb_leb, <-not_true_iff_false, pair_ltb.
    unfold triple. rewrite triple_le, !Z.eqb_eq. lia.
Qed.

Lemma x_range_bounds_spec op (lower : RequirementBase) cs v :
  release v → pv_wf v → base_wf lower → base_precision lower ≠ Full →
  x_range_bounds op lower = Some cs →
  forallb (matches_comparator v) cs = matches_comparator v (mk_comparator op lower).
Proof.
  intros Hr Hw Hb Hp. unfold x_range_bounds. intros (upper&Hup&H)%bind_Some.
  pose proof (partial_upper_ltb lower upper v Hr Hw Hb Hup) as Hge.
  pose proof (greater_lessequal lower v Hr Hw Hb) as Hle.
  destruct (partial_window lower v Hr Hw Hb Hp) as [Hexact Htilde].
  assert (matches_comparator v (less_than (mk_base upper Full)) =
    matches_comparator v (mk_comparator LessEqual lower)) as Hlt.
  { change (ltb v upper = matches_comparator v (mk_comparator LessEqual lower)).
    by rewrite ltb_leb, Hge, Hle, negb_involutive. }
  assert (matches_comparator v (mk_comparator GreaterEqual lower) =
    leb (base_version lower) v) as Hlow by done.
  destruct op; simplify_eq/=; rewrite ?andb_true_r.
  - by rewrite Hlt, Hexact.
  - apply bind_Some in H as (cup&Hcup&[= <-]). cbn [forallb]. rewrite andb_true_r, Hlow.
    unfold matches_comparator at 2. cbn [comparator_op comparator_base]. by rewrite Hcup.
  - by rewrite Hlt, Htilde, Hexact.
  - exact Hge.
  - done.
  - done.
  - exact Hlt.
Qed.

(** For every operator, a wildcard range [1.x], [1.2.*] accepts the same
    releases as the operator applied to the partial version [1], [1.2]. *)
Theorem x_range_is_partial (op : RequirementOperator) (text : string)
    (lower : RequirementBase) (cs : list RequirementComparator) (v : PackageVersion) :
  parse_requirement_base GreaterEqual text = Some lower → base_precision lower ≠ Full →
  x_range_bounds op lower = Some cs → release v → pv_wf v →
  forallb (matches_comparator v) cs = matches_comparator v (mk_comparator op lower).
Proof.
  intros Hl%parse_requirement_base_wf Hp Hcs Hr Hw. by apply x_range_bounds_spec.
Qed.

(** A prerelease is admitted by a range only through a comparator that itself
    names a prerelease of the same major, minor and patch. *)
Theorem prerelease_needs_opt_in (r : Requirement) (v : PackageVersion) :
  matches r v = true → ¬ release v →
  ∃ comparators c, Comparators comparators ∈ clauses r ∧ c ∈ comparators ∧
    ¬ release (base_version (comparator_base c)) ∧
    triple v = triple (base_version (comparator_base c)) ∧
    forallb (matches_comparator v) comparators = true.
Proof.
  unfold matches, matches_requirement. intros H Hpre.
  apply existsb_exists in H as (clause&Hin%list_elem_of_In&Hm).
  destruct clause as [|comparators]; simpl in Hm.
  { by apply bool_decide_eq_true in Hm. }
  apply andb_true_iff in Hm as [He Hall]. unfold prerelease_is_eligible in He.
  apply orb_true_iff in He as [He|He]; [by apply bool_decide_eq_true in He|].
  apply existsb_exists in He as (c&Hc%list_elem_of_In&He).
  apply andb_true_iff in He as [Hb Hs]. exists comparators, c. split_and!; try done.
  - apply bool_decide_eq_true in Hb. unfold release. by rewrite not_eq_None_Some.
  - by apply same_triple_true.
Qed.

(** *** The parser's results are well formed *)
Definition clause_wf (c : RequirementClause) : Prop :=
  match c with
  | AnyStable => True
  | Comparators l => Forall (λ c, base_wf (comparator_base c)) l
  end.
Definition requirement_wf (r : Requirement) : Prop :=
  (tag r = None ↔ clauses r ≠ []) ∧ Forall clause_wf (clauses r).

Lemma partial_upper_wf b p u : partial_upper_bound b p = Some u → pv_wf u.
Proof.
  destruct p; simpl; [done| |].
  - intros (a&_&->)%fmap_Some. apply stable_wf.
  - destruct (u64_checked_add (minor b) 1); [intros [= <-]; apply stable_wf|].
    intros (a&_&->)%fmap_Some. apply stable_wf.
Qed.
Lemma caret_upper_wf b u : caret_upper_bound b = Some u → pv_wf u.
Proof.
  unfold caret_upper_bound. repeat case_match; intros (a&_&->)%fmap_Some; apply stable_wf.
Qed.
Lemma x_range_bounds_wf op lower cs :
  base_wf lower → x_range_bounds op lower = Some cs → clause_wf (Comparators cs).
Proof.
  intros Hl (upper&Hup%partial_upper_wf&H)%bind_Some.
  assert (base_wf (mk_base upper Full)) as Hu by (by split).
  destruct (decide (op = Caret)) as [->|Hop].
  - apply bind_Some in H as (cup&Hcup%caret_upper_wf&[= <-]).
    simpl. forall_list; done.
  - destruct op; simplify_eq/=; forall_list; done.
Qed.
Lemma parse_x_range_wf s cs : parse_x_range s = Some cs → clause_wf (Comparators cs).
Proof.
  unfold parse_x_range. destruct (requirement_token s) as [op value].
  intros (value'&_&H)%bind_Some. apply bind_Some in H as (at'&_&H).
  destruct (existsb _ _); [done|]. destruct (existsb _ _); [done|].
  destruct (at' =? 0)%nat.
  - simplify_eq. simpl. destruct op; forall_list; (split; [apply stable_wf|done]).
  - apply bind_Some in H as (lower&Hl%parse_requirement_base_wf&H).
    by eapply x_range_bounds_wf.
Qed.
Lemma parse_tokens_wf raw tokens cs :
  parse_tokens raw tokens = Ok cs → clause_wf (Comparators cs).
Proof.
  remember (length tokens) as n eqn:Hn. revert tokens cs Hn.
  induction (lt_wf n) as [n _ IH]. intros tokens cs ->.
  assert (∀ rest op value base, length rest < length tokens →
    parse_requirement_base op value = Some base →
    ((mk_comparator op base ::.) <$> parse_tokens raw rest) = Ok cs →
    clause_wf (Comparators cs)) as Hbase.
  { intros rest op value base Hlt Hb%parse_requirement_base_wf (l&Hl&->)%fmap_Ok.
    apply Forall_cons. split; [done|]. by eapply (IH (length rest)). }
  assert (∀ rest s l, length rest < length tokens → parse_x_range s = Some l →
    ((l ++.) <$> parse_tokens raw rest) = Ok cs → clause_wf (Comparators cs)) as Hwild.
  { intros rest s l Hlt Hs%parse_x_range_wf (k&Hk&->)%fmap_Ok.
    apply Forall_app. split; [done|]. by eapply (IH (length rest)). }
  destruct tokens as [|token rest]; [intros [= <-]; by apply Forall_nil|].
  intros H. cbn [parse_tokens] in H. cbn [length] in *.
  destruct (separated_operator token) as [op|] eqn:Hop.
  - destruct rest as [|value rest']; cbn [length] in *.
    + destruct (parse_x_range token) eqn:Hx; [|done]. eapply (Hwild []); [|done..]. simpl. lia.
    + destruct (parse_x_range (token +:+ value)) eqn:Hxv.
      { eapply (Hwild rest'); [|done..]. lia. }
      destruct (parse_x_range token) eqn:Hx; [eapply (Hwild (value :: rest')); [|done..]; simpl; lia|].
      apply bind_Ok in H as (base&Hb%ok_or_Ok&H). eapply (Hbase rest'); [|done..]. lia.
  - destruct (parse_x_range token) eqn:Hx; [eapply (Hwild rest); [|done..]; lia|].
    destruct (requirement_token token) as [op value].
    apply bind_Ok in H as (base&Hb%ok_or_Ok&H). eapply (Hbase rest); [|done..]. lia.
Qed.
Lemma parse_clause_wf raw s c : parse_clause raw s = Ok c → clause_wf c.
Proof.
  unfold parse_clause. destruct (is_empty _); [done|].
  destruct (_ || _); [by intros [= <-]|].
  destruct (parse_x_range (trim s)) as [[|x l]|] eqn:Hx;
    [by intros [= <-]|intros [= <-]; by eapply parse_x_range_wf|].
  assert ((Comparators <$> parse_tokens raw (split_whitespace (trim s))) = Ok c → clause_wf c)
    as Hplain.
  { intros (l&Hl%parse_tokens_wf&->)%fmap_Ok. done. }
  repeat case_match; try done.
  intros (lo&Hlo%ok_or_Ok&H')%bind_Ok. apply bind_Ok in H' as (hi&Hhi%ok_or_Ok&[= <-]).
  simpl. forall_list; by eapply parse_requirement_base_wf.
Qed.
Lemma split_str_not_nil pat s : split_str pat s ≠ [].
Proof.
  unfold split_str. destruct (String.length s); simpl; [done|].
  by destruct (split_once pat s) as [[]|].
Qed.
Lemma parse_plain_wf raw r :
  parse_plain raw = Ok r →
  requirement_wf r ∧ Requirement.raw r = raw ∧ alias r = None ∧
  (∀ t, tag r = Some t → t = raw ∧ is_dist_tag raw = true).
Proof.
  unfold parse_plain. destruct (is_empty raw).
  { intros [= <-]. split; [|done]. split; [done|]. simpl. by forall_list. }
  destruct (is_dist_tag raw) eqn:Ht.
  { intros [= <-]. split; [split; [done|]; simpl; by forall_list|].
    split_and!; [done|done|]. by intros t [= <-]. }
  intros (cs&Hcs&[= <-])%bind_Ok. apply try_map_Ok in Hcs.
  split; [|done]. split; simpl.
  - split; [|done]. intros _ ->. apply Forall2_nil_inv_r in Hcs.
    by eapply split_str_not_nil.
  - apply Forall_forall. intros c Hc. apply list_elem_of_lookup in Hc as [i Hi].
    eapply Forall2_lookup_r in Hcs as (x&_&Hx); [|done]. by eapply parse_clause_wf.
Qed.

(** C40: parsing yields a well-formed requirement: it keeps the trimmed text, is a
    dist-tag without clauses or a nonempty union of clauses over well-formed
    bases, and is an alias, of a valid package name, exactly for [npm:] text. *)
Theorem Requirement_from_str_wf (s : string) (r : Requirement) :
  Requirement_from_str s = Ok r →
  requirement_wf r ∧ raw r = trim s ∧
  (is_alias r = true ↔ starts_with "npm:" (trim s) = true) ∧
  (∀ n, alias r = Some n → valid_name (name_str n)).
Proof.
  unfold Requirement_from_str, starts_with.
  destruct (strip_prefix "npm:" (trim s)) as [spec|].
  - destruct (alias_parts spec) as [name range].
    intros (n&Hn%map_err_Ok&H)%bind_Ok. destruct (_ || _); [done|].
    apply bind_Ok in H as (q&Hq%map_err_Ok&[= <-]).
    apply parse_plain_wf in Hq as (Hwf&_). apply PackageName_from_str_Ok in Hn as [Hn ->].
    split_and!; try done. simpl. by intros ? [= <-].
  - intros (Hwf&Hraw&Halias&_)%parse_plain_wf. unfold is_alias. rewrite Halias.
    split_and!; done.
Qed.
End requirement_theory.

(** ** Witnesses, over the sample crates *)
Lemma caret_requirement_spec_witness :
  caret_window (mk_base (stable 1 2 3) Full) (stable 1 9 0) ∧
  matches (mk_requirement "^1.2.3" None None
    [Comparators [mk_comparator Caret (mk_base (stable 1 2 3) Full)]]) (stable 1 9 0) = true.
Proof.
  split; [reflexivity|].
  apply (caret_requirement_spec (mk_base (stable 1 2 3) Full) (stable 1 9 0) "^1.2.3");
    [reflexivity|reflexivity|].
  split; [left; reflexivity|]. split; [vm_compute; discriminate|reflexivity].
Defined.
Lemma comparators_complementary_witness :
  parse_requirement_base Greater "1.2" = Some (mk_base (stable 1 2 0) Minor) ∧
  matches_comparator (stable 1 3 0) (mk_comparator Greater (mk_base (stable 1 2 0) Minor)) =
    negb (matches_comparator (stable 1 3 0)
            (mk_comparator LessEqual (mk_base (stable 1 2 0) Minor))).
Proof.
  assert (parse_requirement_base Greater "1.2" = Some (mk_base (stable 1 2 0) Minor)) as H
    by reflexivity.
  split; [exact H|].
  apply (comparators_complementary Greater "1.2" (mk_base (stable 1 2 0) Minor) (stable 1 3 0));
    [exact H|reflexivity|reflexivity].
Defined.
Lemma x_range_is_partial_witness :
  forallb (matches_comparator (stable 1 7 2))
    [mk_comparator GreaterEqual (mk_base (stable 1 0 0) Major);
     less_than (mk_base (stable 2 0 0) Full)] =
  matches_comparator (stable 1 7 2) (mk_comparator Caret (mk_base (stable 1 0 0) Major)).
Proof.
  apply (x_range_is_partial Caret "1"); try reflexivity. discriminate.
Defined.
Lemma prerelease_needs_opt_in_witness :
  let r := mk_requirement "^1.2.3-beta" None None
    [Comparators [mk_comparator Caret (mk_base (mk_version beta) Full)]] in
  matches r (mk_version rc) = true ∧
  ∃ comparators c, Comparators comparators ∈ clauses r ∧ c ∈ comparators ∧
    triple (mk_version rc) = triple (base_version (comparator_base c)).
Proof.
  intros r. assert (matches r (mk_version rc) = true) as Hm by (vm_compute; reflexivity).
  split; [exact Hm|].
  destruct (prerelease_needs_opt_in r (mk_version rc) Hm) as (comparators&c&H1&H2&_&H3&_).
  - vm_compute. discriminate.
  - exists comparators, c. split; [exact H1|]. split; [exact H2|exact H3].
Defined.
Lemma Requirement_from_str_wf_witness :
  match Requirement_from_str " npm:@scope/pkg@^1.0.0 || 2.x " with
  | Ok r => requirement_wf r ∧ raw r = "npm:@scope/pkg@^1.0.0 || 2.x"
  | Err _ => False
  end.
Proof.
  assert (is_ok (Requirement_from_str " npm:@scope/pkg@^1.0.0 || 2.x ") = true) as Hok
    by (vm_compute; reflexivity).
  destruct (Requirement_from_str _) as [r|e] eqn:Hr; [|discriminate Hok].
  destruct (Requirement_from_str_wf _ r Hr) as (Hwf&Hraw&_&_).
  split; [exact Hwf|]. rewrite Hraw. vm_compute. reflexivity.
Defined.
