(* ===== verification/Resolve.v ===== *)
(** * tapid-resolver: graph resolution

    Normalised registry metadata, candidate selection and the worklist that
    resolves a transitive graph ([resolve_graph_with_preferences]), with its peer
    contexts (crates/tapid-resolver/src/lib.rs).  The routing closure is a function
    parameter; a panic of the code ([expect]) and an exhausted fuel are outcomes of
    their own, which the theorems exclude. *)
From S2P Require Import Prelude Order RustStr Crates Samples Core Requirement.

(** The result of a loop of the code: a value, a panic, or an exhausted fuel. *)
Inductive outcome (A : Type) := Done (a : A) | Panicked | OutOfFuel.
Arguments Done {A} a.
Arguments Panicked {A}.
Arguments OutOfFuel {A}.

Section resolver.
Context `{SV : Semver}.

Record PackageVersionMetadata := mk_metadata {
  md_name : PackageName;
  md_version : PackageVersion;
  dist_tags : gset string;
  dependencies : gmap PackageName Requirement;
  peer_dependencies : gmap PackageName Requirement;
  optional_peer_dependencies : gset PackageName;
}.
Record RegistryMetadata := mk_registry {
  rm_registry : PackageSource;
  rm_packages : list PackageVersionMetadata;
}.
Record ResolutionOptions := mk_options { offline : bool; frozen : bool }.
Record ResolutionPreferences := mk_preferences {
  pref_versions : gset (PackageSource * PackageName * PackageVersion);
  refresh_roots : gset (PackageSource * PackageName * PackageName);
  pref_roots : gmap (PackageSource * PackageName * PackageName) PackageVersion;
}.
Definition fresh_preferences : ResolutionPreferences := mk_preferences ∅ ∅ ∅.
Record Dependency := mk_dependency {
  dep_registry : PackageSource;
  dep_name : PackageName;
  dep_requirement : Requirement;
}.

Record ResolvedDependency := mk_edge {
  edge_parent : PackageInstanceId;
  edge_dependency : PackageName;
  edge_child : PackageInstanceId;
}.
Definition edge_key (e : ResolvedDependency) : PackageInstanceId * (PackageName * PackageInstanceId) :=
  (edge_parent e, (edge_dependency e, edge_child e)).
#[export] Instance edge_key_inj : Inj (=) (=) edge_key.
Proof. intros [] []; unfold edge_key; simpl; congruence. Qed.
#[export] Instance ResolvedDependency_eq_dec : EqDecision ResolvedDependency.
Proof. solve_decision. Defined.
#[export] Program Instance ResolvedDependency_countable : Countable ResolvedDependency :=
  inj_countable' edge_key (λ '(p, (d, c)), mk_edge p d c) _.
Next Obligation. by intros []. Qed.
#[export] Instance ResolvedDependency_ord : Ord ResolvedDependency := cmp_on edge_key.
#[export] Instance ResolvedDependency_ord_laws `{!SemverLaws} : OrdLaws ResolvedDependency.
Proof. apply cmp_on_laws. apply _. Qed.

Record Resolution := mk_resolution {
  res_selected : list PackageInstanceId;
  res_roots : list PackageInstanceId;
  res_root_bindings : gmap (PackageSource * PackageName) PackageInstanceId;
  res_dependencies : list ResolvedDependency;
  res_peer_contexts : gmap PackageInstanceId PeerContext;
}.

(** ** Metadata limits *)
Definition max_packages : Z := 100000.
Definition max_relationships : Z := 1000000.
Definition max_bytes : Z := 64 * 1024 * 1024.

(** [size_of::<RequirementClause>()] and [size_of::<RequirementComparator>()]. *)
Variables size_of_clause size_of_comparator : Z.

Definition sat_add := u64_saturating_add.
Definition sat_sum (bytes : Z) (l : list Z) : Z := foldl sat_add bytes l.
Definition set_len {A} `{Countable A} (X : gset A) : Z := Z.of_nat (size X).
Definition map_len {K V} `{Countable K} (m : gmap K V) : Z := Z.of_nat (size m).

Definition record_relationships (record : PackageVersionMetadata) (n : Z) : Z :=
  sat_sum n [map_len (dependencies record); map_len (peer_dependencies record);
             set_len (optional_peer_dependencies record); set_len (dist_tags record)].
Definition requirement_bytes (bytes : Z) (entry : PackageName * Requirement) : Z :=
  sat_add (sat_add bytes (str_len (name_str entry.1)))
    (retained_bytes size_of_clause size_of_comparator entry.2).
Definition record_bytes (record : PackageVersionMetadata) (bytes : Z) : Z :=
  let bytes := sat_sum bytes
    [str_len (name_str (md_name record));
     from_option str_len 0%Z (prerelease (md_version record))] in
  let bytes := foldl requirement_bytes bytes
    (btree_iter (dependencies record) ++ btree_iter (peer_dependencies record)) in
  let bytes := sat_sum bytes
    ((λ n, str_len (name_str n)) <$> bset_iter (optional_peer_dependencies record)) in
  sat_sum bytes (str_len <$> bset_iter (dist_tags record)).

Definition validate_record (counts : Z * Z) (record : PackageVersionMetadata) :
    result ResolveError (Z * Z) :=
  let '(relationships, bytes) := counts in
  let relationships := record_relationships record relationships in
  if (max_relationships <? relationships)%Z then Err MetadataLimitExceeded else
  let bytes := record_bytes record bytes in
  if (max_bytes <? bytes)%Z then Err MetadataLimitExceeded else Ok (relationships, bytes).
Definition validate_registry (counts : Z * (Z * Z))
    (item : PackageSource * list PackageVersionMetadata) : result ResolveError (Z * (Z * Z)) :=
  let '(packages, (relationships, bytes)) := counts in
  let packages := sat_add packages (Z.of_nat (length item.2)) in
  let bytes := sat_add bytes (str_len (source_as_str item.1)) in
  if (max_packages <? packages)%Z || (max_bytes <? bytes)%Z then Err MetadataLimitExceeded
  else
    counts ← try_fold validate_record (relationships, bytes) item.2;
    Ok (packages, counts).
Definition validate_metadata (metadata : list (PackageSource * list PackageVersionMetadata)) :
    result ResolveError Z :=
  '(_, (_, bytes)) ← try_fold validate_registry (0, (0, 0))%Z metadata; Ok bytes.

(** ** [RegistryMetadata::normalize] *)
(** Name ascending, then version descending:
    [a.name.cmp(&b.name).then_with(|| b.version.cmp(&a.version))]. *)
Definition normal_key (p : PackageVersionMetadata) : PackageName * Reverse PackageVersion :=
  (md_name p, mk_reverse (md_version p)).
Definition sort_normal : list PackageVersionMetadata → list PackageVersionMetadata :=
  sort_by normal_key.

Definition insert_tag (registry : PackageSource) (name : PackageName)
    (tags : gset (PackageName * string)) (tag : string) :
    result ResolveError (gset (PackageName * string)) :=
  if bool_decide ((name, tag) ∈ tags)
  then Err (DuplicateMetadata
    (source_as_str registry +:+ ":" +:+ PackageName_display name +:+ "@" +:+ tag))
  else Ok ({[(name, tag)]} ∪ tags).
Definition insert_package_tags (registry : PackageSource)
    (tags : gset (PackageName * string)) (package : PackageVersionMetadata) :
    result ResolveError (gset (PackageName * string)) :=
  try_fold (insert_tag registry (md_name package)) tags (bset_iter (dist_tags package)).
Fixpoint check_windows (registry : PackageSource) (packages : list PackageVersionMetadata) :
    result ResolveError () :=
  match packages with
  | a :: packages' =>
      match packages' with
      | b :: _ =>
          if bool_decide (md_name a = md_name b) && bool_decide (md_version a = md_version b)
          then Err (DuplicateMetadata (source_as_str registry +:+ ":" +:+
                 PackageName_display (md_name a) +:+ "@" +:+ PackageVersion_display (md_version a)))
          else check_windows registry packages'
      | [] => Ok ()
      end
  | [] => Ok ()
  end.
Definition normalize (registry : PackageSource) (packages : list PackageVersionMetadata) :
    result ResolveError RegistryMetadata :=
  _ ← validate_metadata [(registry, packages)];
  let packages := sort_normal packages in
  _ ← try_fold (insert_package_tags registry) ∅ packages;
  _ ← check_windows registry packages;
  Ok (mk_registry registry packages).

(** ** Candidates *)
Definition CandidateIndex : Type :=
  gmap (PackageSource * PackageName) (list PackageVersionMetadata).
Definition index_package (registry : PackageSource) (index : CandidateIndex)
    (package : PackageVersionMetadata) : CandidateIndex :=
  let key := (registry, md_name package) in
  <[key := default [] (index !! key) ++ [package]]> index.
Definition candidate_index (metadata : list RegistryMetadata) : CandidateIndex :=
  foldl (λ index registry,
    foldl (index_package (rm_registry registry)) index (rm_packages registry)) ∅ metadata.

(** [max_by_key]: the last of the greatest elements. *)
Fixpoint max_by_key {A K} `{Ord K} (key : A → K) (best : option A) (l : list A) : option A :=
  match l with
  | [] => best
  | x :: l =>
      max_by_key key
        (match best with
         | Some b => if ltb (key x) (key b) then Some b else Some x
         | None => Some x
         end) l
  end.
Definition available (candidates : list PackageVersionMetadata) : list string :=
  PackageVersion_display <$> dedup (sort (md_version <$> candidates)).

Definition satisfies (requirements : gset Requirement) (package : PackageVersionMetadata) : bool :=
  forallb (λ requirement,
    matches_tagged_version requirement (md_version package) (dist_tags package))
    (bset_iter requirements).
Definition preference_key (registry : PackageSource) (name : PackageName)
    (preferred : ResolutionPreferences) (preferred_root : option PackageVersion)
    (package : PackageVersionMetadata) : bool * (bool * PackageVersion) :=
  (bool_decide (preferred_root = Some (md_version package)),
   (bool_decide ((registry, name, md_version package) ∈ pref_versions preferred),
    md_version package)).
Definition candidates_of (candidates : CandidateIndex) (registry : PackageSource)
    (name : PackageName) : list PackageVersionMetadata :=
  default [] (candidates !! (registry, name)).
Definition no_candidate (registry : PackageSource) (name : PackageName)
    (requirements : gset Requirement) (matching : list PackageVersionMetadata)
    (origin : RequirementOrigin) : ResolveError :=
  let raws := raw <$> bset_iter requirements in
  if (1 <? length raws)%nat
  then Conflict origin (source_as_str registry) (PackageName_display name) raws
         (available matching)
  else MissingCandidate origin (source_as_str registry) (PackageName_display name)
         (default "" (head raws)) (available matching).
Definition select_package (registry : PackageSource) (name : PackageName)
    (requirements : gset Requirement) (candidates : CandidateIndex)
    (preferred : ResolutionPreferences) (preferred_root : option PackageVersion)
    (origin : RequirementOrigin) : result ResolveError PackageVersionMetadata :=
  let matching := candidates_of candidates registry name in
  ok_or (no_candidate registry name requirements matching origin)
    (max_by_key (preference_key registry name preferred preferred_root) None
       (base.filter (λ package, satisfies requirements package = true) matching)).

(** Selection where a name without any metadata is recorded instead of failing. *)
Definition select_or_missing (registry : PackageSource) (name : PackageName)
    (requirements : gset Requirement) (candidates : CandidateIndex)
    (preferred : ResolutionPreferences) (preferred_root : option PackageVersion)
    (origin : RequirementOrigin) : result ResolveError (option PackageVersionMetadata) :=
  match select_package registry name requirements candidates preferred preferred_root origin with
  | Ok package => Ok (Some package)
  | Err (MissingCandidate _ _ _ _ _ as error) =>
      if contains_key (registry, name) candidates then Err error else Ok None
  | Err error => Err error
  end.
Definition missing_entry (registry : PackageSource) (name : PackageName) : string * string :=
  (source_as_str registry, PackageName_display name).

(** ** The resolution state *)
(** The collections shared by the two loops.  [queue] is the [Vec] used as a stack,
    its top first: [push] is [cons], [pop] takes the head. *)
Record Graph := mk_graph {
  selected : gset PackageInstanceId;
  selected_packages : gmap PackageInstanceId PackageVersionMetadata;
  queue : list PackageInstanceId;
  missing_metadata : gset (string * string);
}.
Definition empty_graph : Graph := mk_graph ∅ ∅ [] ∅.
Definition note_missing (registry : PackageSource) (name : PackageName) (g : Graph) : Graph :=
  mk_graph (selected g) (selected_packages g) (queue g)
    ({[missing_entry registry name]} ∪ missing_metadata g).
Definition note_selected (id : PackageInstanceId) (package : PackageVersionMetadata)
    (g : Graph) : Graph :=
  mk_graph ({[id]} ∪ selected g) (<[id := package]> (selected_packages g))
    (id :: queue g) (missing_metadata g).

(** *** Roots *)
Definition RootKey : Type := PackageSource * PackageName * PackageName.
Definition root_key (d : Dependency) : RootKey :=
  (dep_registry d, dep_name d, package_name (dep_requirement d) (dep_name d)).
Definition add_constraint (m : gmap RootKey (gset Requirement)) (d : Dependency) :
    gmap RootKey (gset Requirement) :=
  <[root_key d := {[dep_requirement d]} ∪ default ∅ (m !! root_key d)]> m.
Definition root_constraints (ds : list Dependency) : gmap RootKey (gset Requirement) :=
  foldl add_constraint ∅ ds.

Record Roots := mk_roots {
  roots_graph : Graph;
  roots_list : list PackageInstanceId;
  root_bindings : gmap (PackageSource * PackageName) PackageInstanceId;
}.
Definition select_root (candidates : CandidateIndex) (preferred : ResolutionPreferences)
    (s : Roots) (entry : RootKey * gset Requirement) : result ResolveError Roots :=
  let '((registry, local_name, name), requirements) := entry in
  let preferred := if bool_decide ((registry, local_name, name) ∈ refresh_roots preferred)
                   then fresh_preferences else preferred in
  choice ← select_or_missing registry name requirements candidates preferred
    (pref_roots preferred !! (registry, local_name, name))
    (mk_requirement_origin local_name None);
  match choice with
  | None => Ok (mk_roots (note_missing registry name (roots_graph s))
                  (roots_list s) (root_bindings s))
  | Some package =>
      let id := from_source registry name (md_version package) in
      let previous := root_bindings s !! (registry, local_name) in
      if bool_decide (previous = None ∨ previous = Some id)
      then Ok (mk_roots (note_selected id package (roots_graph s)) (roots_list s ++ [id])
                 (<[(registry, local_name) := id]> (root_bindings s)))
      else Err (RegistryRouting
             ("conflicting root binding for " +:+ PackageName_display local_name))
  end.
Definition select_roots (candidates : CandidateIndex) (preferred : ResolutionPreferences)
    (ds : list Dependency) : result ResolveError Roots :=
  try_fold (select_root candidates preferred) (mk_roots empty_graph [] ∅)
    (btree_iter (root_constraints ds)).

(** *** Transitive expansion *)
(** [registry_for_dependency]. *)
Definition Routing : Type := PackageSource → PackageName → result string PackageSource.

Definition expand_dependency (route : Routing) (candidates : CandidateIndex)
    (preferred : ResolutionPreferences) (parent : PackageInstanceId)
    (s : Graph * gset ResolvedDependency) (entry : PackageName * Requirement) :
    result ResolveError (Graph * gset ResolvedDependency) :=
  let '(g, edges) := s in
  let '(dependency, requirement) := entry in
  let actual_name := package_name requirement dependency in
  registry ← map_err RegistryRouting (route (id_registry parent) actual_name);
  choice ← select_or_missing registry actual_name {[requirement]} candidates preferred None
    (mk_requirement_origin dependency (Some parent));
  match choice with
  | None => Ok (note_missing registry actual_name g, edges)
  | Some package =>
      let child := from_source registry actual_name (md_version package) in
      let edges := {[mk_edge parent dependency child]} ∪ edges in
      if bool_decide (child ∈ selected g) then Ok (g, edges)
      else Ok (note_selected child package g, edges)
  end.

Fixpoint expand (fuel : nat) (route : Routing) (candidates : CandidateIndex)
    (preferred : ResolutionPreferences) (g : Graph) (edges : gset ResolvedDependency)
    (expanded : gset PackageInstanceId) :
    outcome (result ResolveError (Graph * gset ResolvedDependency)) :=
  match fuel with
  | O => OutOfFuel
  | S fuel =>
      match queue g with
      | [] => Done (Ok (g, edges))
      | parent :: rest =>
          let g := mk_graph (selected g) (selected_packages g) rest (missing_metadata g) in
          if bool_decide (parent ∈ expanded)
          then expand fuel route candidates preferred g edges expanded
          else match selected_packages g !! parent with
               | None => Panicked
               | Some package =>
                   match try_fold (expand_dependency route candidates preferred parent)
                           (g, edges) (btree_iter (dependencies package)) with
                   | Err e => Done (Err e)
                   | Ok (g, edges) =>
                       expand fuel route candidates preferred g edges ({[parent]} ∪ expanded)
                   end
               end
      end
  end.

(** *** Peers *)
Definition Providers : Type := gmap PackageName (list PackageInstanceId).
Definition add_provider (m : Providers)
    (binding : PackageSource * PackageName * PackageInstanceId) : Providers :=
  let '((_, local_name), root) := binding in
  <[local_name := default [] (m !! local_name) ++ [root]]> m.
Definition root_providers (bindings : gmap (PackageSource * PackageName) PackageInstanceId) :
    Providers :=
  foldl add_provider ∅ (btree_iter bindings).

Definition check_provider (route : Routing) (id : PackageInstanceId) (peer : PackageName)
    (requirement : Requirement) (provider : option PackageInstanceId)
    (candidate : PackageInstanceId) : result ResolveError (option PackageInstanceId) :=
  let actual_name := if is_alias requirement then package_name requirement peer
                     else id_name candidate in
  peer_registry ← map_err RegistryRouting (route (id_registry id) actual_name);
  if negb (bool_decide (id_registry candidate = peer_registry)) then Ok provider
  else match provider with
       | Some _ => Err (RegistryRouting
                          ("ambiguous root peer binding for " +:+ PackageName_display peer))
       | None => Ok (Some candidate)
       end.
Definition find_provider (route : Routing) (providers : Providers) (id : PackageInstanceId)
    (peer : PackageName) (requirement : Requirement) :
    result ResolveError (option PackageInstanceId) :=
  match providers !! peer with
  | Some candidates => try_fold (check_provider route id peer requirement) None candidates
  | None => _ ← map_err RegistryRouting
              (route (id_registry id) (package_name requirement peer)); Ok None
  end.
Definition provider_accepted (packages : gmap PackageInstanceId PackageVersionMetadata)
    (peer : PackageName) (requirement : Requirement) (provider : PackageInstanceId) : bool :=
  match packages !! provider with
  | Some metadata =>
      matches_tagged_version requirement (id_version provider) (dist_tags metadata)
  | None => false
  end && (negb (is_alias requirement)
          || bool_decide (package_name requirement peer = id_name provider)).
(** One iteration over [peer_dependencies]; the code's [expect] is on the branch
    where [provider_accepted] was just computed of that provider. *)
Definition resolve_peer (route : Routing) (providers : Providers)
    (packages : gmap PackageInstanceId PackageVersionMetadata) (id : PackageInstanceId)
    (package : PackageVersionMetadata) (context : PeerContext)
    (entry : PackageName * Requirement) : result ResolveError PeerContext :=
  let '(peer, requirement) := entry in
  provider ← find_provider route providers id peer requirement;
  match provider with
  | None =>
      if bool_decide (peer ∈ optional_peer_dependencies package) then Ok context
      else Err (PeerDependency id (PackageName_display peer) (raw requirement) None)
  | Some p =>
      if provider_accepted packages peer requirement p
      then Ok (PeerContext_with context peer (id_version p))
      else Err (PeerDependency id (PackageName_display peer) (raw requirement) provider)
  end.
Definition resolve_peers (route : Routing) (providers : Providers)
    (packages : gmap PackageInstanceId PackageVersionMetadata)
    (contexts : gmap PackageInstanceId PeerContext)
    (entry : PackageInstanceId * PackageVersionMetadata) :
    result ResolveError (gmap PackageInstanceId PeerContext) :=
  let '(id, package) := entry in
  context ← try_fold (resolve_peer route providers packages id package) ∅
    (btree_iter (peer_dependencies package));
  Ok (<[id := context]> contexts).
Definition peer_contexts (route : Routing)
    (bindings : gmap (PackageSource * PackageName) PackageInstanceId)
    (packages : gmap PackageInstanceId PackageVersionMetadata) :
    result ResolveError (gmap PackageInstanceId PeerContext) :=
  try_fold (resolve_peers route (root_providers bindings) packages) ∅ (btree_iter packages).

(** ** [resolve_graph_with_preferences] *)
Definition dependency_bytes (bytes : Z) (d : Dependency) : result ResolveError Z :=
  let bytes := sat_sum bytes
    [str_len (source_as_str (dep_registry d)); str_len (name_str (dep_name d));
     retained_bytes size_of_clause size_of_comparator (dep_requirement d)] in
  if (max_bytes <? bytes)%Z then Err MetadataLimitExceeded else Ok bytes.
Definition check_inputs (ds : list Dependency) (metadata : list RegistryMetadata)
    (options : ResolutionOptions) : result ResolveError () :=
  if frozen options
  then Err (UnsupportedMode "frozen resolution requires a lockfile replay input")
  else if offline options && bool_decide (metadata = [])
  then Err (UnsupportedMode "offline resolution requires a cached snapshot")
  else
    bytes ← validate_metadata ((λ item, (rm_registry item, rm_packages item)) <$> metadata);
    if (max_packages <? Z.of_nat (length ds))%Z then Err MetadataLimitExceeded else
    _ ← try_fold dependency_bytes bytes ds;
    Ok ().
(** Fuel for the worklist: every root and every candidate is popped at most once. *)
Definition package_count (metadata : list RegistryMetadata) : nat :=
  sum_list_with (λ item, length (rm_packages item)) metadata.
Definition worklist_fuel (ds : list Dependency) (metadata : list RegistryMetadata) : nat :=
  S (length ds + package_count metadata).
Definition assemble (route : Routing) (r : Roots) (g : Graph)
    (edges : gset ResolvedDependency) : result ResolveError Resolution :=
  if negb (bool_decide (missing_metadata g = ∅))
  then Err (MissingMetadata (bset_iter (missing_metadata g)))
  else
    contexts ← peer_contexts route (root_bindings r) (selected_packages g);
    Ok (mk_resolution (bset_iter (selected g)) (dedup (sort (roots_list r)))
          (root_bindings r) (bset_iter edges) contexts).
Definition resolve_graph_with_preferences (ds : list Dependency)
    (metadata : list RegistryMetadata) (options : ResolutionOptions) (route : Routing)
    (preferred : ResolutionPreferences) : outcome (result ResolveError Resolution) :=
  match
    _ ← check_inputs ds metadata options;
    select_roots (candidate_index metadata) preferred ds
  with
  | Err e => Done (Err e)
  | Ok r =>
      match expand (worklist_fuel ds metadata) route (candidate_index metadata) preferred
              (roots_graph r) ∅ ∅ with
      | Done (Ok (g, edges)) => Done (assemble route r g edges)
      | Done (Err e) => Done (Err e)
      | Panicked => Panicked
      | OutOfFuel => OutOfFuel
      end
  end.
Definition resolve_graph_with_routing (ds : list Dependency)
    (metadata : list RegistryMetadata) (options : ResolutionOptions) (route : Routing) :
    outcome (result ResolveError Resolution) :=
  resolve_graph_with_preferences ds metadata options route fresh_preferences.
Definition resolve_graph (ds : list Dependency) (metadata : list RegistryMetadata)
    (options : ResolutionOptions) : outcome (result ResolveError Resolution) :=
  resolve_graph_with_routing ds metadata options (λ parent _, Ok parent).
End resolver.

(** ** Theory of selection *)
Lemma max_by_key_None {A K} `{Ord K} (key : A → K) best l :
  max_by_key key best l = None ↔ best = None ∧ l = [].
Proof.
  revert best. induction l as [|x l IH]; intros best; simpl; [naive_solver|].
  rewrite IH. destruct best; [case_match; naive_solver|naive_solver].
Qed.
Lemma max_by_key_Some {A K} `{OrdLaws K} (key : A → K) best l m :
  max_by_key key best l = Some m →
  (m ∈ l ∨ best = Some m) ∧ ∀ y, (y ∈ l ∨ best = Some y) → le_of (key y) (key m).
Proof.
  revert best. induction l as [|x l IH]; intros best; simpl.
  - intros ->. split; [by right|]. intros y [?%not_elem_of_nil|[= ->]]; done.
  - intros [Hm Hle]%IH. destruct best as [b|].
    + destruct (ltb (key x) (key b)) eqn:E.
      * apply ltb_lt, lt_le in E. split; [set_solver|].
        intros y [[->|Hy]%elem_of_cons|[= ->]]; [|by auto..]. etrans; [done|]. by apply Hle; right.
      * apply ltb_false in E. split; [set_solver|].
        intros y [[->|Hy]%elem_of_cons|[= ->]]; [by auto..|]. etrans; [done|]. by apply Hle; right.
    + split; [set_solver|]. intros y [[->|Hy]%elem_of_cons|?]; [by auto..|done].
Qed.

Section resolve_theory.
Context `{SV : Semver} `{SL : !SemverLaws}.
Implicit Types (p q : PackageVersionMetadata) (id child parent : PackageInstanceId)
  (registry : PackageSource) (name : PackageName) (requirements : gset Requirement)
  (candidates : CandidateIndex) (preferred : ResolutionPreferences).

Lemma satisfies_true requirements p :
  satisfies requirements p = true ↔
  ∀ r, r ∈ requirements → matches_tagged_version r (md_version p) (dist_tags p) = true.
Proof.
  unfold satisfies. rewrite forallb_forall. split; intros Hr r; specialize (Hr r).
  - intros ?. apply Hr, list_elem_of_In, elem_of_bset_iter. done.
  - intros Hin%list_elem_of_In. by apply Hr, elem_of_bset_iter.
Qed.

(** The three-level preference of [select_package]. *)
Definition preferred_over registry name preferred (root : option PackageVersion) p q : Prop :=
  (root = Some (md_version q) → md_version p = md_version q) ∧
  (root ≠ Some (md_version p) →
   (registry, name, md_version q) ∈ pref_versions preferred →
   (registry, name, md_version p) ∈ pref_versions preferred) ∧
  (root ≠ Some (md_version p) →
   ((registry, name, md_version p) ∈ pref_versions preferred →
    (registry, name, md_version q) ∈ pref_versions preferred) →
   le_of (md_version q) (md_version p)).

Lemma preference_key_le registry name preferred root p q :
  le_of (preference_key registry name preferred root q)
    (preference_key registry name preferred root p) →
  preferred_over registry name preferred root p q.
Proof.
  unfold preference_key, preferred_over, le_of, cmp at 1, prod_ord, cmp_then, cmp at 1 2,
    bool_ord. simpl.
  destruct (bool_decide_reflect (root = Some (md_version p))) as [Hp|Hp];
  destruct (bool_decide_reflect (root = Some (md_version q))) as [Hq|Hq]; simpl; intros Hle.
  - split_and!; [by intros; congruence|done..].
  - split_and!; done.
  - done.
  - unfold cmp at 1 in Hle. simpl in Hle.
    destruct (bool_decide_reflect ((registry, name, md_version p) ∈ pref_versions preferred)),
      (bool_decide_reflect ((registry, name, md_version q) ∈ pref_versions preferred));
      simpl in Hle; split_and!; try done; naive_solver.
Qed.
Lemma select_package_inv registry name requirements candidates preferred root origin p :
  select_package registry name requirements candidates preferred root origin = Ok p →
  p ∈ candidates_of candidates registry name ∧ satisfies requirements p = true ∧
  ∀ q, q ∈ candidates_of candidates registry name → satisfies requirements q = true →
    preferred_over registry name preferred root p q.
Proof.
  unfold select_package. rewrite ok_or_Ok. intros [Hp Hmax]%max_by_key_Some.
  destruct Hp as [[Hs Hp]%list_elem_of_filter|]; [|done]. split_and!; [done..|].
  intros q Hq Hsq. apply preference_key_le, Hmax. left. by apply list_elem_of_filter.
Qed.
Lemma select_package_Err registry name requirements candidates preferred root origin e :
  select_package registry name requirements candidates preferred root origin = Err e ↔
  (∀ q, q ∈ candidates_of candidates registry name → satisfies requirements q = false) ∧
  e = no_candidate registry name requirements (candidates_of candidates registry name) origin.
Proof.
  unfold select_package.
  destruct (max_by_key _ _ _) as [m|] eqn:E; simpl.
  - apply max_by_key_Some in E as [[[Hs Hm]%list_elem_of_filter|] _]; [|done].
    split; [done|]. intros [Hno _]. by rewrite Hno in Hs.
  - apply max_by_key_None in E as [_ E]. split.
    + intros [= <-]. split; [|done]. intros q Hq. apply not_true_iff_false. intros Hs.
      apply (not_elem_of_nil q). rewrite <-E. by apply list_elem_of_filter.
    + by intros [_ ->].
Qed.

(** Selection returns a candidate of that registry and name which satisfies
    every requirement and to which no other satisfying candidate is preferred (the
    preferred root version first, then preferred versions, then the highest version);
    it fails exactly when no candidate satisfies the requirements, with a conflict
    when there are several requirements and a missing candidate otherwise. *)
Theorem select_package_spec registry name requirements candidates preferred root origin :
  match select_package registry name requirements candidates preferred root origin with
  | Ok p =>
      p ∈ candidates_of candidates registry name ∧
      (∀ r, r ∈ requirements →
        matches_tagged_version r (md_version p) (dist_tags p) = true) ∧
      ∀ q, q ∈ candidates_of candidates registry name →
        (∀ r, r ∈ requirements →
          matches_tagged_version r (md_version q) (dist_tags q) = true) →
        preferred_over registry name preferred root p q
  | Err e =>
      (∀ q, q ∈ candidates_of candidates registry name →
        ∃ r, r ∈ requirements ∧
          matches_tagged_version r (md_version q) (dist_tags q) = false) ∧
      match e with
      | Conflict o registry' name' raws _ =>
          (2 ≤ size requirements)%nat ∧ length raws = size requirements ∧
          o = origin ∧ registry' = source_as_str registry ∧ name' = PackageName_display name
      | MissingCandidate o registry' name' _ _ =>
          (size requirements ≤ 1)%nat ∧
          o = origin ∧ registry' = source_as_str registry ∧ name' = PackageName_display name
      | _ => False
      end
  end.
Proof.
  destruct (select_package _ _ _ _ _ _ _) as [p|e] eqn:E.
  - apply select_package_inv in E as (Hp&Hs&Hmax). split_and!; [done|by apply satisfies_true|].
    intros q Hq Hsq. apply Hmax; [done|]. by apply satisfies_true.
  - apply select_package_Err in E as [Hno ->]. split.
    + intros q Hq%Hno.
      destruct (decide (set_Exists (λ r,
        matches_tagged_version r (md_version q) (dist_tags q) = false) requirements))
        as [(r&?&?)|Hall]; [by exists r|].
      apply not_true_iff_false in Hq. destruct Hq. apply satisfies_true. intros r Hr.
      apply not_false_iff_true. intros Hf. apply Hall. by exists r.
    + unfold no_candidate, bset_iter.
      assert (length (raw <$> sort (elements requirements)) = size requirements) as Hlen.
      { rewrite length_fmap, sort_perm. done. }
      destruct (1 <? _)%nat eqn:Hb; rewrite Hlen in Hb.
      * apply Nat.ltb_lt in Hb. split_and!; [lia|done..].
      * apply Nat.ltb_ge in Hb. split_and!; [lia|done..].
Qed.

(** ** Normalisation *)
Definition package_tags p : list (PackageName * string) :=
  (λ t, (md_name p, t)) <$> bset_iter (dist_tags p).
Definition package_key p : PackageName * PackageVersion := (md_name p, md_version p).

Lemma insert_tag_Ok registry name tags t tags' :
  insert_tag registry name tags t = Ok tags' ↔
  (name, t) ∉ tags ∧ tags' = {[(name, t)]} ∪ tags.
Proof. unfold insert_tag. case_bool_decide; naive_solver. Qed.
Lemma insert_package_tags_Ok registry tags p tags' :
  insert_package_tags registry tags p = Ok tags' ↔
  (∀ k, k ∈ package_tags p → k ∉ tags) ∧ tags' = tags ∪ list_to_set (package_tags p).
Proof.
  unfold insert_package_tags, package_tags.
  pose proof (sorted_lt_NoDup _ (bset_iter_ascending (dist_tags p))) as Hnd. revert tags Hnd.
  induction (bset_iter (dist_tags p)) as [|t l IH]; intros tags Hnd; simpl.
  - rewrite (right_id_L ∅ (∪) tags). split.
    + intros [= <-]. split; [|done]. by intros k ?%not_elem_of_nil.
    + by intros [_ ->].
  - apply NoDup_cons in Hnd as [Ht Hnd]. rewrite bind_Ok. split.
    + intros (tags1&[Hin ->]%insert_tag_Ok&[Hno ->]%(IH _ Hnd)). split; [|set_solver].
      intros k [->|Hk]%elem_of_cons; [done|]. specialize (Hno _ Hk). set_solver.
    + intros [Hno ->]. exists ({[(md_name p, t)]} ∪ tags). split.
      { apply insert_tag_Ok. split; [|done]. apply Hno. by left. }
      apply (IH _ Hnd). split; [|set_solver].
      intros k Hk. rewrite elem_of_union, elem_of_singleton. intros [->|Hk2].
      * apply list_elem_of_fmap in Hk as (t'&[= <-]&?). done.
      * eapply Hno; [by right|done].
Qed.
Lemma package_tags_NoDup p : NoDup (package_tags p).
Proof.
  apply NoDup_fmap_2; [by intros ?? [= ->]|]. apply sorted_lt_NoDup, bset_iter_ascending.
Qed.
Lemma insert_all_tags_Ok registry tags packages :
  (∃ tags', try_fold (insert_package_tags registry) tags packages = Ok tags') ↔
  NoDup (packages ≫= package_tags) ∧ ∀ k, k ∈ packages ≫= package_tags → k ∉ tags.
Proof.
  revert tags. induction packages as [|p l IH]; intros tags; simpl.
  - split; [intros _; split; [constructor|set_solver]|by eexists].
  - rewrite NoDup_app. destruct (insert_package_tags registry tags p) as [tags1|e] eqn:E; simpl.
    + apply insert_package_tags_Ok in E as [Hno ->]. rewrite IH. split.
      * intros [Hnd Hl]. split; [split_and!; [apply package_tags_NoDup| |done]|].
        -- intros k Hk Hk'. eapply Hl; [done|]. set_solver.
        -- intros k [Hk|Hk]%elem_of_app; [by apply Hno|]. specialize (Hl k Hk). set_solver.
      * intros [(_&Hd&Hnd) Hl]. split; [done|]. intros k Hk.
        rewrite elem_of_union, elem_of_list_to_set. intros [Hk'|Hk'].
        -- by apply (Hl k); [apply elem_of_app; right|].
        -- by apply (Hd k).
    + split; [by intros [? ?]|]. intros [_ Hno].
      assert (insert_package_tags registry tags p =
              Ok (tags ∪ list_to_set (package_tags p))) as Hok; [|congruence].
      apply insert_package_tags_Ok. split; [|done].
      intros k Hk. apply Hno, elem_of_app. by left.
Qed.

Definition normal_lt p q : Prop := lt_of (normal_key p) (normal_key q).
Lemma normal_key_inj p q : normal_key p = normal_key q ↔ package_key p = package_key q.
Proof. unfold normal_key, package_key. split; congruence. Qed.
Lemma key_in_sorted_tail p q l :
  StronglySorted (key_le normal_key) (p :: q :: l) →
  package_key p ∈ package_key <$> q :: l → package_key p = package_key q.
Proof.
  intros Hs (r&Hr&Hin)%list_elem_of_fmap. apply normal_key_inj in Hr.
  inversion Hs as [|? ? Hl Hp]; subst. inversion Hl as [|? ? _ Hq]; subst.
  apply elem_of_cons in Hin as [->|Hin]; [by apply normal_key_inj|].
  rewrite Forall_forall in Hq. apply Forall_inv in Hp. specialize (Hq _ Hin).
  unfold key_le in *. rewrite <-Hr in Hq.
  apply normal_key_inj. by apply (anti_symm le_of).
Qed.
Lemma check_windows_Ok registry packages :
  StronglySorted (key_le normal_key) packages →
  check_windows registry packages = Ok () ↔ NoDup (package_key <$> packages).
Proof.
  induction packages as [|p l IH]; intros Hs; simpl; [by repeat constructor|].
  rewrite NoDup_cons. destruct l as [|q l]; [simpl; split; [|done]|].
  { intros _. split; [apply not_elem_of_nil|constructor]. }
  pose proof (key_in_sorted_tail p q l Hs) as Htail.
  assert (StronglySorted (key_le normal_key) (q :: l)) as Hl by by inversion Hs.
  specialize (IH Hl). rewrite <-IH.
  destruct (bool_decide_reflect (md_name p = md_name q)) as [Hn|Hn];
    [destruct (bool_decide_reflect (md_version p = md_version q)) as [Hv|Hv]|]; simpl.
  - split; [done|]. intros [Hno _]. destruct Hno. apply elem_of_cons. left.
    unfold package_key. by rewrite Hn, Hv.
  - split; [|tauto]. intros Hok. split; [|done]. intros [= ? ?]%Htail. done.
  - split; [|tauto]. intros Hok. split; [|done]. intros [= ? ?]%Htail. done.
Qed.

(** Normalisation succeeds exactly on metadata within the limits without a
    repeated version and without a tag that names two versions of a package, and
    then lists the same records by ascending name and strictly descending version. *)
Theorem normalize_spec (sc sk : Z) registry (packages : list PackageVersionMetadata) :
  (is_ok (normalize sc sk registry packages) = true ↔
    is_ok (validate_metadata sc sk [(registry, packages)]) = true ∧
    NoDup (package_key <$> packages) ∧ NoDup (packages ≫= package_tags)) ∧
  (∀ m, normalize sc sk registry packages = Ok m →
    rm_registry m = registry ∧ rm_packages m ≡ₚ packages ∧
    StronglySorted normal_lt (rm_packages m)).
Proof.
  pose proof (sort_by_perm normal_key packages) as Hperm. fold sort_normal in Hperm.
  pose proof (check_windows_Ok registry (sort_normal packages)
    (sort_by_sorted normal_key packages)) as Hw.
  pose proof (insert_all_tags_Ok registry ∅ (sort_normal packages)) as Ht.
  assert (NoDup (package_key <$> sort_normal packages) ↔ NoDup (package_key <$> packages))
    as Hkeys by by rewrite Hperm.
  assert (NoDup (sort_normal packages ≫= package_tags) ↔ NoDup (packages ≫= package_tags))
    as Htags by by rewrite Hperm.
  rewrite Hkeys in Hw. rewrite Htags in Ht. unfold normalize.
  destruct (validate_metadata sc sk _) as [b|e]; simpl; [|naive_solver].
  destruct (try_fold _ _ _) as [tags|e]; simpl.
  2:{ split; [|done]. split; [done|]. intros (_&_&Hnd).
      destruct (proj2 Ht) as [? ?]; [|done]. split; [done|]. intros. apply not_elem_of_empty. }
  destruct (check_windows _ _) as [[]|e]; simpl.
  - split.
    + split; [|done]. intros _. split_and!; [done|by apply Hw|]. by apply Ht; eexists.
    + intros m [= <-]. split_and!; [done|done|]. simpl.
      apply (sorted_by_strict normal_key); [apply sort_by_sorted|].
      apply (NoDup_fmap_1 (λ k, (k.1, reversed k.2))). rewrite <-list_fmap_compose.
      change (NoDup (package_key <$> sort_normal packages)). rewrite Hperm. by apply Hw.
  - split; [|done]. split; [done|]. intros (_&Hnd&_). by apply Hw in Hnd.
Qed.

(** ** The candidate index *)
(** A record of the metadata that describes this identity. *)
Definition provides (metadata : list RegistryMetadata) registry name p : Prop :=
  md_name p = name ∧
  ∃ item, item ∈ metadata ∧ rm_registry item = registry ∧ p ∈ rm_packages item.

Lemma index_package_lookup registry (index : CandidateIndex) p k :
  candidates_of (index_package registry index p) k.1 k.2 =
    candidates_of index k.1 k.2 ++
      (if bool_decide ((registry, md_name p) = k) then [p] else []).
Proof.
  unfold candidates_of, index_package. destruct k as [r n]; simpl.
  case_bool_decide as Hk.
  - injection Hk as -> ->. unfold CandidateIndex in *. by rewrite lookup_insert_eq.
  - unfold CandidateIndex in *. by rewrite lookup_insert_ne, app_nil_r.
Qed.
Lemma elem_of_index_registry registry packages (index : CandidateIndex) r n p :
  p ∈ candidates_of (foldl (index_package registry) index packages) r n ↔
  p ∈ candidates_of index r n ∨ (registry = r ∧ md_name p = n ∧ p ∈ packages).
Proof.
  revert index. induction packages as [|q l IH]; intros index; simpl.
  - split; [by left|]. intros [?|(_&_&?%not_elem_of_nil)]; done.
  - rewrite IH, (index_package_lookup _ _ _ (r, n)); simpl. rewrite elem_of_app.
    case_bool_decide as Hk; rewrite !elem_of_cons.
    + injection Hk as -> <-. rewrite elem_of_nil. split; [|naive_solver].
      intros [[?|[->|[]]]|(?&?&?)]; auto.
    + rewrite elem_of_nil. split; [naive_solver|].
      intros [?|(->&<-&[->|?])]; [by auto| |by auto]. done.
Qed.
Lemma elem_of_candidate_index (metadata : list RegistryMetadata) registry name p :
  p ∈ candidates_of (candidate_index metadata) registry name ↔
  provides metadata registry name p.
Proof.
  unfold candidate_index, provides.
  assert (∀ index : CandidateIndex,
    p ∈ candidates_of (foldl (λ index m,
      foldl (index_package (rm_registry m)) index (rm_packages m)) index metadata)
      registry name ↔
    p ∈ candidates_of index registry name ∨ (md_name p = name ∧
      ∃ item, item ∈ metadata ∧ rm_registry item = registry ∧ p ∈ rm_packages item)) as Hgen.
  { induction metadata as [|m l IH]; intros index; simpl.
    - split; [by left|]. intros [?|(_&?&?%not_elem_of_nil&_)]; done.
    - rewrite IH, elem_of_index_registry. setoid_rewrite elem_of_cons. naive_solver. }
  rewrite Hgen. split; [|by right]. intros [Hin|?]; [|done].
  unfold candidates_of, CandidateIndex in Hin. rewrite lookup_empty in Hin. by apply not_elem_of_nil in Hin.
Qed.

Lemma select_or_missing_Some registry name requirements candidates preferred root origin p :
  select_or_missing registry name requirements candidates preferred root origin = Ok (Some p) ↔
  select_package registry name requirements candidates preferred root origin = Ok p.
Proof.
  unfold select_or_missing. destruct (select_package _ _ _ _ _ _ _) as [q|[]];
    [split; congruence|..]; try done; by case_match.
Qed.
Lemma select_or_missing_None registry name requirements candidates preferred root origin :
  select_or_missing registry name requirements candidates preferred root origin = Ok None →
  candidates !! (registry, name) = None.
Proof.
  unfold select_or_missing. destruct (select_package _ _ _ _ _ _ _) as [q|[]]; try done.
  destruct (contains_key _ _) eqn:E; [done|]. by intros _; apply contains_key_false.
Qed.

(** ** Root constraints *)
Implicit Types (d : Dependency) (ds : list Dependency) (k : RootKey).

Lemma add_constraint_elem (m : gmap RootKey (gset Requirement)) d k r :
  r ∈ default ∅ (add_constraint m d !! k) ↔
  r ∈ default ∅ (m !! k) ∨ (root_key d = k ∧ dep_requirement d = r).
Proof.
  unfold add_constraint. destruct (decide (root_key d = k)) as [<-|Hk].
  - rewrite lookup_insert_eq. simpl. set_solver.
  - rewrite lookup_insert_ne by done. naive_solver.
Qed.
Lemma add_constraint_is_Some (m : gmap RootKey (gset Requirement)) d k :
  is_Some (add_constraint m d !! k) ↔ is_Some (m !! k) ∨ root_key d = k.
Proof.
  unfold add_constraint. rewrite lookup_insert_is_Some.
  destruct (decide (root_key d = k)); naive_solver.
Qed.
Lemma root_constraints_elem ds k r :
  r ∈ default ∅ (root_constraints ds !! k) ↔
  ∃ d, d ∈ ds ∧ root_key d = k ∧ dep_requirement d = r.
Proof.
  unfold root_constraints.
  assert (∀ m : gmap RootKey (gset Requirement),
    r ∈ default ∅ (foldl add_constraint m ds !! k) ↔
    r ∈ default ∅ (m !! k) ∨ ∃ d, d ∈ ds ∧ root_key d = k ∧ dep_requirement d = r) as Hgen.
  { induction ds as [|d ds IH]; intros m; simpl.
    - split; [by left|]. intros [?|(?&?%not_elem_of_nil&_)]; done.
    - rewrite IH, add_constraint_elem. setoid_rewrite elem_of_cons. naive_solver. }
  rewrite Hgen, lookup_empty. simpl. set_solver.
Qed.
Lemma root_constraints_is_Some ds k :
  is_Some (root_constraints ds !! k) ↔ ∃ d, d ∈ ds ∧ root_key d = k.
Proof.
  unfold root_constraints.
  assert (∀ m : gmap RootKey (gset Requirement),
    is_Some (foldl add_constraint m ds !! k) ↔
    is_Some (m !! k) ∨ ∃ d, d ∈ ds ∧ root_key d = k) as Hgen.
  { induction ds as [|d ds IH]; intros m; simpl.
    - split; [by left|]. intros [?|(?&?%not_elem_of_nil&_)]; done.
    - rewrite IH, add_constraint_is_Some. setoid_rewrite elem_of_cons. naive_solver. }
  rewrite Hgen, lookup_empty. split; [intros [[? ?]|]; done|by right].
Qed.
Lemma root_constraints_some ds k requirements :
  root_constraints ds !! k = Some requirements →
  ∀ r, r ∈ requirements ↔ ∃ d, d ∈ ds ∧ root_key d = k ∧ dep_requirement d = r.
Proof. intros Hk r. rewrite <-root_constraints_elem, Hk. done. Qed.
(** Only the set of direct dependencies matters. *)
Lemma root_constraints_ext ds ds' :
  (∀ d, d ∈ ds ↔ d ∈ ds') → root_constraints ds = root_constraints ds'.
Proof.
  intros Hds. apply map_eq. intros k.
  assert (is_Some (root_constraints ds !! k) ↔ is_Some (root_constraints ds' !! k)) as His.
  { rewrite !root_constraints_is_Some. naive_solver. }
  assert (default ∅ (root_constraints ds !! k) = default ∅ (root_constraints ds' !! k)) as Hd.
  { apply set_eq. intros r. rewrite !root_constraints_elem. naive_solver. }
  destruct (root_constraints ds !! k), (root_constraints ds' !! k); simpl in *.
  - by subst.
  - destruct His as [[? ?] _]; [by eexists|done].
  - destruct His as [_ [? ?]]; [by eexists|done].
  - done.
Qed.
Lemma root_constraints_size ds : size (root_constraints ds) ≤ length ds.
Proof.
  rewrite <-size_dom.
  trans (size (list_to_set (root_key <$> ds) : gset RootKey)).
  - apply subseteq_size. intros k. rewrite elem_of_dom, root_constraints_is_Some.
    rewrite elem_of_list_to_set, list_elem_of_fmap. naive_solver.
  - rewrite <-(length_fmap root_key ds). apply size_list_to_set_le.
Qed.
End resolve_theory.

(** ** Witness *)
Lemma normalize_spec_witness :
  let packages := [mk_metadata (mk_name "b") (stable 1 0 0) {["latest"]} ∅ ∅ ∅;
                   mk_metadata (mk_name "a") (stable 1 0 0) ∅ ∅ ∅ ∅;
                   mk_metadata (mk_name "a") (stable 2 0 0) {["latest"]} ∅ ∅ ∅] in
  let registry := source_of_registry (mk_origin "https://registry.npmjs.org") in
  match normalize 24 128 registry packages with
  | Ok m => StronglySorted normal_lt (rm_packages m)
  | Err _ => False
  end.
Proof.
  intros packages registry.
  assert (is_ok (normalize 24 128 registry packages) = true) as Hok by (vm_compute; reflexivity).
  destruct (normalize 24 128 registry packages) as [m|e] eqn:Hm; [|discriminate Hok].
  exact (proj2 (proj2 (proj2 (normalize_spec 24 128 registry packages) m Hm))).
Defined.
Definition sample_index : CandidateIndex :=
  candidate_index [mk_registry (source_of_registry (mk_origin "https://registry.npmjs.org"))
    [mk_metadata (mk_name "a") (stable 1 0 0) ∅ ∅ ∅ ∅;
     mk_metadata (mk_name "a") (stable 2 0 0) {["latest"]} ∅ ∅ ∅]].
Definition sample_request : RequirementOrigin := mk_requirement_origin (mk_name "a") None.
Lemma select_package_spec_witness :
  let registry := source_of_registry (mk_origin "https://registry.npmjs.org") in
  match select_package registry (mk_name "a") ∅ sample_index fresh_preferences None sample_request with
  | Ok p => ∀ q, q ∈ candidates_of sample_index registry (mk_name "a") →
      preferred_over registry (mk_name "a") fresh_preferences None p q
  | Err _ => False
  end.
Proof.
  intros registry.
  pose proof (select_package_spec registry (mk_name "a") ∅ sample_index fresh_preferences None sample_request)
    as H.
  assert (is_ok (select_package registry (mk_name "a") ∅ sample_index fresh_preferences None sample_request) = true)
    as Hok by (vm_compute; reflexivity).
  destruct (select_package _ _ _ _ _ _ _) as [p|e]; [|discriminate Hok].
  intros q Hq. apply (proj2 (proj2 H) q Hq). intros r Hr. by apply not_elem_of_empty in Hr.
Defined.
