(* ===== verification/ResolveLimits.v ===== *)
(** * tapid-resolver: metadata limits and input order

    The running totals of [validate_metadata] are exact (the saturating additions never
    matter for an accepted input), and a resolution does not depend on the order in
    which the direct dependencies are given. *)
From S2P Require Import Prelude Order RustStr Crates Samples Core Requirement Resolve ResolveGraph.

Definition sumZ (l : list Z) : Z := foldr Z.add 0%Z l.
Lemma sumZ_app l k : sumZ (l ++ k) = (sumZ l + sumZ k)%Z.
Proof. unfold sumZ. induction l as [|x l IH]; cbn [app foldr]; lia. Qed.
Lemma sumZ_nonneg l : Forall (Z.le 0) l → (0 ≤ sumZ l)%Z.
Proof. unfold sumZ. induction 1; cbn [foldr]; lia. Qed.
Lemma sumZ_perm l k : l ≡ₚ k → sumZ l = sumZ k.
Proof. unfold sumZ. induction 1; cbn [foldr]; lia. Qed.

Lemma sat_sum_exact b l :
  (0 ≤ b ≤ u64_max)%Z → Forall (Z.le 0) l → sat_sum b l = Z.min (b + sumZ l) u64_max.
Proof.
  intros Hb Hl. revert b Hb. unfold sat_sum, sumZ, sat_add, u64_saturating_add.
  induction Hl as [|x l Hx Hl IH]; intros b Hb; cbn [foldl foldr]; [lia|].
  rewrite IH by lia. pose proof (sumZ_nonneg l Hl). unfold sumZ in *. lia.
Qed.
Lemma sat_sum_app b l k : sat_sum b (l ++ k) = sat_sum (sat_sum b l) k.
Proof. unfold sat_sum. apply foldl_app. Qed.

Section limits.
Context `{SV : Semver} `{SL : !SemverLaws}.
Context (sc sk : Z) (sc_nonneg : (0 ≤ sc)%Z) (sk_nonneg : (0 ≤ sk)%Z).
Implicit Types (p : PackageVersionMetadata) (item : PackageSource * list PackageVersionMetadata).

Lemma retained_bytes_nonneg r : (0 ≤ retained_bytes sc sk r)%Z.
Proof.
  assert (∀ a b : Z, (0 ≤ a)%Z → (0 ≤ b)%Z → (0 ≤ u64_saturating_add a b)%Z) as Hadd.
  { unfold u64_saturating_add, u64_max. lia. }
  assert (∀ a b : Z, (0 ≤ a)%Z → (0 ≤ b)%Z → (0 ≤ u64_saturating_mul a b)%Z) as Hmul.
  { unfold u64_saturating_mul, u64_max. nia. }
  assert (∀ o : option string, (0 ≤ from_option str_len 0 o)%Z) as Hopt.
  { intros [s|]; simpl; [apply str_len_nonneg|done]. }
  assert (∀ cs b, (0 ≤ b)%Z → (0 ≤ foldl (λ b c, u64_saturating_add b
    (from_option str_len 0 (prerelease (base_version (comparator_base c))))) b cs)%Z) as Hcs.
  { intros cs. induction cs as [|c cs IH]; intros b Hb; cbn [foldl]; auto. }
  unfold retained_bytes.
  match goal with |- (0 ≤ foldl _ ?b0 _)%Z => assert (0 ≤ b0)%Z as Hb0 end.
  { apply Hadd; [apply Hadd; [apply Hadd|]|]; [apply str_len_nonneg|apply Hopt| |].
    - destruct (alias r); simpl; [apply str_len_nonneg|done].
    - apply Hmul; lia. }
  revert Hb0. match goal with |- (0 ≤ ?b0)%Z → _ => generalize b0 end.
  induction (clauses r) as [|[|cs] l IH]; intros b Hb; cbn [foldl]; [done|by apply IH|].
  apply IH, Hcs, Hadd; [done|]. apply Hmul; lia.
Qed.

(** The sizes that a record, a registry and the whole input count. *)
Definition relationship_sizes p : list Z :=
  [map_len (dependencies p); map_len (peer_dependencies p);
   set_len (optional_peer_dependencies p); set_len (dist_tags p)].
Definition requirement_sizes (entry : PackageName * Requirement) : list Z :=
  [str_len (name_str entry.1); retained_bytes sc sk entry.2].
Definition byte_sizes p : list Z :=
  [str_len (name_str (md_name p)); from_option str_len 0%Z (prerelease (md_version p))] ++
  ((btree_iter (dependencies p) ++ btree_iter (peer_dependencies p)) ≫= requirement_sizes) ++
  ((λ n, str_len (name_str n)) <$> bset_iter (optional_peer_dependencies p)) ++
  (str_len <$> bset_iter (dist_tags p)).
Definition total_packages (metadata : list (PackageSource * list PackageVersionMetadata)) : Z :=
  sumZ ((λ item, Z.of_nat (length item.2)) <$> metadata).
Definition total_relationships (records : list PackageVersionMetadata) : Z :=
  sumZ (records ≫= relationship_sizes).
Definition registry_bytes item : Z :=
  str_len (source_as_str item.1) + sumZ (item.2 ≫= byte_sizes).
Definition total_bytes (metadata : list (PackageSource * list PackageVersionMetadata)) : Z :=
  sumZ (registry_bytes <$> metadata).

Lemma requirement_bytes_sizes b l :
  foldl (requirement_bytes sc sk) b l = sat_sum b (l ≫= requirement_sizes).
Proof.
  revert b. induction l as [|e l IH]; intros b; [done|].
  rewrite bind_cons, sat_sum_app. cbn [foldl]. by rewrite IH.
Qed.
Lemma record_bytes_sizes p b : record_bytes sc sk p b = sat_sum b (byte_sizes p).
Proof.
  unfold record_bytes, byte_sizes. by rewrite requirement_bytes_sizes, !sat_sum_app.
Qed.
Lemma relationship_sizes_nonneg p : Forall (Z.le 0) (relationship_sizes p).
Proof. unfold relationship_sizes, map_len, set_len. forall_list; lia. Qed.
Lemma byte_sizes_nonneg p : Forall (Z.le 0) (byte_sizes p).
Proof.
  apply Forall_forall. intros z. unfold byte_sizes. rewrite !elem_of_app.
  intros [[->|[->|[]%elem_of_nil]%elem_of_cons]%elem_of_cons|[Hz|[Hz|Hz]]].
  - apply str_len_nonneg.
  - destruct (prerelease _); simpl; [apply str_len_nonneg|done].
  - apply list_elem_of_bind in Hz as (e&Hz&_). unfold requirement_sizes in Hz.
    rewrite !elem_of_cons, elem_of_nil in Hz.
    destruct Hz as [->|[->|[]]]; [apply str_len_nonneg|apply retained_bytes_nonneg].
  - apply list_elem_of_fmap in Hz as (n&->&_). apply str_len_nonneg.
  - apply list_elem_of_fmap in Hz as (n&->&_). apply str_len_nonneg.
Qed.

Lemma validate_record_Ok relationships bytes p r b :
  (0 ≤ relationships ≤ max_relationships)%Z → (0 ≤ bytes ≤ max_bytes)%Z →
  validate_record sc sk (relationships, bytes) p = Ok (r, b) ↔
  (r = relationships + sumZ (relationship_sizes p))%Z ∧ (r ≤ max_relationships)%Z ∧
  (b = bytes + sumZ (byte_sizes p))%Z ∧ (b ≤ max_bytes)%Z.
Proof.
  intros Hr Hb. unfold validate_record. rewrite record_bytes_sizes.
  change (record_relationships p relationships)
    with (sat_sum relationships (relationship_sizes p)).
  assert (max_relationships < u64_max ∧ max_bytes < u64_max)%Z as [??] by done.
  rewrite !sat_sum_exact by (lia || apply relationship_sizes_nonneg || apply byte_sizes_nonneg).
  pose proof (sumZ_nonneg _ (relationship_sizes_nonneg p)).
  pose proof (sumZ_nonneg _ (byte_sizes_nonneg p)).
  set (R := sumZ (relationship_sizes p)) in *. set (B := sumZ (byte_sizes p)) in *.
  clearbody R B.
  destruct (Z.ltb_spec max_relationships (Z.min (relationships + R) u64_max));
    [split; [done|lia]|].
  destruct (Z.ltb_spec max_bytes (Z.min (bytes + B) u64_max)); [split; [done|lia]|].
  rewrite !Z.min_l by lia. split.
  - intros [= <- <-]. split_and!; lia.
  - by intros (->&_&->&_).
Qed.
Lemma sumZ_bind_nonneg {A} (f : A → list Z) l :
  (∀ x, Forall (Z.le 0) (f x)) → (0 ≤ sumZ (l ≫= f))%Z.
Proof. intros Hf. by apply sumZ_nonneg, Forall_bind, Forall_true. Qed.
Lemma validate_records_Ok l relationships bytes r b :
  (0 ≤ relationships ≤ max_relationships)%Z → (0 ≤ bytes ≤ max_bytes)%Z →
  try_fold (validate_record sc sk) (relationships, bytes) l = Ok (r, b) ↔
  (r = relationships + sumZ (l ≫= relationship_sizes))%Z ∧ (r ≤ max_relationships)%Z ∧
  (b = bytes + sumZ (l ≫= byte_sizes))%Z ∧ (b ≤ max_bytes)%Z.
Proof.
  revert relationships bytes. induction l as [|p l IH]; intros relationships bytes Hr Hb.
  - simpl. split.
    + intros [= <- <-]. split_and!; lia.
    + intros (->&_&->&_). do 2 f_equal; lia.
  - rewrite !bind_cons, !sumZ_app. cbn [try_fold]. rewrite bind_Ok.
    pose proof (sumZ_nonneg _ (relationship_sizes_nonneg p)).
    pose proof (sumZ_nonneg _ (byte_sizes_nonneg p)).
    pose proof (sumZ_bind_nonneg _ l relationship_sizes_nonneg).
    pose proof (sumZ_bind_nonneg _ l byte_sizes_nonneg).
    split.
    + intros ([r1 b1]&Hone%validate_record_Ok&Htail); [|done..].
      apply IH in Htail; lia.
    + intros (->&?&->&?). eexists (_, _). split.
      * apply validate_record_Ok; [done..|]. split_and!; [reflexivity|lia|reflexivity|lia].
      * apply IH; lia.
Qed.

Definition registry_relationships item : Z := sumZ (item.2 ≫= relationship_sizes).
Lemma registry_sizes_nonneg item :
  (0 ≤ registry_relationships item)%Z ∧ (0 ≤ registry_bytes item)%Z.
Proof.
  unfold registry_relationships, registry_bytes. pose proof (str_len_nonneg (source_as_str item.1)).
  pose proof (sumZ_bind_nonneg _ item.2 relationship_sizes_nonneg).
  pose proof (sumZ_bind_nonneg _ item.2 byte_sizes_nonneg). lia.
Qed.
Lemma validate_registry_Ok packages relationships bytes item n r b :
  (0 ≤ packages ≤ max_packages)%Z →
  (0 ≤ relationships ≤ max_relationships)%Z → (0 ≤ bytes ≤ max_bytes)%Z →
  validate_registry sc sk (packages, (relationships, bytes)) item = Ok (n, (r, b)) ↔
  (n = packages + Z.of_nat (length item.2))%Z ∧ (n ≤ max_packages)%Z ∧
  (r = relationships + registry_relationships item)%Z ∧ (r ≤ max_relationships)%Z ∧
  (b = bytes + registry_bytes item)%Z ∧ (b ≤ max_bytes)%Z.
Proof.
  intros Hn Hr Hb. unfold validate_registry, registry_relationships, registry_bytes.
  pose proof (str_len_nonneg (source_as_str item.1)).
  pose proof (sumZ_bind_nonneg _ item.2 byte_sizes_nonneg).
  assert (max_packages < u64_max ∧ max_bytes < u64_max)%Z as [??] by done.
  unfold sat_add, u64_saturating_add.
  destruct (Z.ltb_spec max_packages (Z.min (packages + Z.of_nat (length item.2)) u64_max));
    [split; [done|lia]|].
  destruct (Z.ltb_spec max_bytes (Z.min (bytes + str_len (source_as_str item.1)) u64_max));
    [split; [done|lia]|].
  cbn [orb]. rewrite !Z.min_l by lia. rewrite bind_Ok. split.
  - intros ([r1 b1]&Hl&[= <- <- <-]). apply validate_records_Ok in Hl; [|lia..].
    split_and!; lia.
  - intros (->&?&->&?&->&?). eexists (_, _). split; [|reflexivity].
    apply validate_records_Ok; [lia..|]. split_and!; lia.
Qed.
Lemma validate_registries_Ok l packages relationships bytes n r b :
  (0 ≤ packages ≤ max_packages)%Z →
  (0 ≤ relationships ≤ max_relationships)%Z → (0 ≤ bytes ≤ max_bytes)%Z →
  try_fold (validate_registry sc sk) (packages, (relationships, bytes)) l = Ok (n, (r, b)) ↔
  (n = packages + total_packages l)%Z ∧ (n ≤ max_packages)%Z ∧
  (r = relationships + sumZ (registry_relationships <$> l))%Z ∧ (r ≤ max_relationships)%Z ∧
  (b = bytes + total_bytes l)%Z ∧ (b ≤ max_bytes)%Z.
Proof.
  unfold total_packages, total_bytes.
  revert packages relationships bytes. induction l as [|item l IH]; intros p0 r0 b0 Hp Hr Hb.
  - simpl. split; [intros [= <- <- <-]; split_and!; lia|].
    intros (->&_&->&_&->&_). do 3 f_equal; lia.
  - rewrite !fmap_cons. cbn [try_fold sumZ foldr]. rewrite bind_Ok.
    pose proof (registry_sizes_nonneg item).
    assert (∀ f : PackageSource * list PackageVersionMetadata → Z,
      (∀ i, 0 ≤ f i)%Z → (0 ≤ sumZ (f <$> l))%Z) as Hsum.
    { intros f Hf. apply sumZ_nonneg, Forall_fmap, Forall_true. exact Hf. }
    pose proof (Hsum _ (λ i, proj1 (registry_sizes_nonneg i))).
    pose proof (Hsum _ (λ i, proj2 (registry_sizes_nonneg i))).
    pose proof (Hsum (λ item, Z.of_nat (length item.2)) (λ i, Nat2Z.is_nonneg _)).
    unfold sumZ in *. split.
    + intros ([n1 [r1 b1]]&Hone%validate_registry_Ok&Htail); [|done..].
      apply IH in Htail; unfold sumZ in *; lia.
    + intros (->&?&->&?&->&?). eexists (_, (_, _)). split.
      * apply validate_registry_Ok; [done..|]. split_and!; [reflexivity|lia|reflexivity|lia|reflexivity|lia].
      * apply IH; unfold sumZ; lia.
Qed.

Lemma validate_metadata_bytes metadata bytes :
  validate_metadata sc sk metadata = Ok bytes → (0 ≤ bytes ≤ max_bytes)%Z.
Proof.
  unfold validate_metadata. rewrite bind_Ok. intros ([n [r b]]&H1&[= <-]).
  apply validate_registries_Ok in H1; [|done..].
  assert (0 ≤ total_bytes metadata)%Z; [|lia]. unfold total_bytes.
  apply sumZ_nonneg, Forall_fmap, Forall_true. intros i. apply registry_sizes_nonneg.
Qed.

(** The limits are on the exact totals: metadata is accepted, with its byte
    count, exactly when its records, relationships and retained bytes - summed
    without saturation - are within the three limits. *)
Theorem validate_metadata_exact (metadata : list (PackageSource * list PackageVersionMetadata))
    (bytes : Z) :
  validate_metadata sc sk metadata = Ok bytes ↔
  (total_packages metadata ≤ max_packages)%Z ∧
  (sumZ (registry_relationships <$> metadata) ≤ max_relationships)%Z ∧
  bytes = total_bytes metadata ∧ (total_bytes metadata ≤ max_bytes)%Z.
Proof.
  unfold validate_metadata. rewrite bind_Ok.
  assert (0 ≤ max_packages ∧ 0 ≤ max_relationships ∧ 0 ≤ max_bytes)%Z as (?&?&?) by done.
  split.
  - intros ([n [r b]]&Hl&[= <-]). apply validate_registries_Ok in Hl; lia.
  - intros (?&?&->&?).
    exists (total_packages metadata, (sumZ (registry_relationships <$> metadata),
      total_bytes metadata)). split; [|reflexivity].
    apply validate_registries_Ok; lia.
Qed.

(** ** The order of the direct dependencies *)
Definition dependency_sizes (d : Dependency) : list Z :=
  [str_len (source_as_str (dep_registry d)); str_len (name_str (dep_name d));
   retained_bytes sc sk (dep_requirement d)].
Lemma dependency_sizes_nonneg d : Forall (Z.le 0) (dependency_sizes d).
Proof. unfold dependency_sizes. forall_list; apply str_len_nonneg || apply retained_bytes_nonneg. Qed.
Lemma dependency_bytes_eq bytes d :
  dependency_bytes sc sk bytes d =
    if (max_bytes <? sat_sum bytes (dependency_sizes d))%Z then Err MetadataLimitExceeded
    else Ok (sat_sum bytes (dependency_sizes d)).
Proof. reflexivity. Qed.
Lemma dependency_bytes_fold ds bytes :
  (0 ≤ bytes ≤ max_bytes)%Z →
  try_fold (dependency_bytes sc sk) bytes ds =
    if (max_bytes <? bytes + sumZ (ds ≫= dependency_sizes))%Z then Err MetadataLimitExceeded
    else Ok (bytes + sumZ (ds ≫= dependency_sizes))%Z.
Proof.
  revert bytes. induction ds as [|d ds IH]; intros bytes Hb.
  - simpl. rewrite Z.add_0_r. destruct (Z.ltb_spec max_bytes bytes); [lia|done].
  - cbn [try_fold]. rewrite dependency_bytes_eq, bind_cons, sumZ_app.
    pose proof (sumZ_nonneg _ (dependency_sizes_nonneg d)).
    pose proof (sumZ_bind_nonneg _ ds dependency_sizes_nonneg).
    assert (max_bytes < u64_max)%Z by done.
    rewrite sat_sum_exact by (lia || apply dependency_sizes_nonneg).
    set (R := sumZ (dependency_sizes d)) in *. clearbody R.
    destruct (Z.ltb_spec max_bytes (Z.min (bytes + R) u64_max)); cbn [mbind result_bind].
    + destruct (Z.ltb_spec max_bytes (bytes + (R + sumZ (ds ≫= dependency_sizes)))); [done|lia].
    + rewrite Z.min_l by lia. rewrite IH by lia. by rewrite Z.add_assoc.
Qed.
Lemma check_inputs_perm ds ds' metadata options :
  ds ≡ₚ ds' → check_inputs sc sk ds metadata options = check_inputs sc sk ds' metadata options.
Proof.
  intros Hds. unfold check_inputs. destruct (frozen options); [done|].
  destruct (_ && _); [done|]. destruct (validate_metadata _ _ _) as [b|e] eqn:Hv; simpl; [|done].
  rewrite Hds. destruct (_ <? _)%Z; [done|].
  apply validate_metadata_bytes in Hv. rewrite !dependency_bytes_fold by done.
  by rewrite (sumZ_perm (ds ≫= dependency_sizes) (ds' ≫= dependency_sizes)) by (by rewrite Hds).
Qed.

(** The order in which the direct dependencies are given is irrelevant to the
    result, errors included. *)
Theorem resolve_order_irrelevant ds ds' metadata options route preferred :
  ds ≡ₚ ds' →
  resolve_graph_with_preferences sc sk ds metadata options route preferred =
  resolve_graph_with_preferences sc sk ds' metadata options route preferred.
Proof.
  intros Hds. unfold resolve_graph_with_preferences, select_roots, worklist_fuel.
  rewrite (check_inputs_perm ds ds') by done.
  rewrite (root_constraints_ext ds ds') by (intros d; by rewrite Hds).
  by rewrite (Permutation_length Hds).
Qed.
End limits.

(** ** Witnesses *)
Lemma validate_metadata_exact_witness :
  validate_metadata 24 128 [(sample_registry, sample_packages)] =
    Ok (total_bytes 24 128 [(sample_registry, sample_packages)]).
Proof.
  apply (validate_metadata_exact 24 128); [done..|].
  vm_compute. split_and!; try discriminate. reflexivity.
Defined.
Lemma resolve_order_irrelevant_witness :
  resolve_graph_with_preferences 24 128 sample_roots sample_metadata online
    (λ parent _, Ok parent) fresh_preferences =
  resolve_graph_with_preferences 24 128 (reverse sample_roots) sample_metadata online
    (λ parent _, Ok parent) fresh_preferences.
Proof.
  apply (resolve_order_irrelevant 24 128); [done..|].
  symmetry. apply reverse_Permutation.
Defined.
