(* ===== verification/LockKey.v ===== *)
(** * tapid-lockfile: package identities

    The errors of the lockfile crate and the persisted package identity: the
    percent-encoded peer and platform contexts, local workspace sources and
    [LockfilePackageKey] with its printer and parser
    (crates/tapid-lockfile/src/model.rs, error.rs, validation.rs). *)
From S2P Require Import Prelude Order RustStr Crates Samples Core.

(** [serde_json::Error] is represented by its message. *)
Inductive LockfileError :=
| Serialization (message : string)
| Domain (e : DomainError)
| InvalidUrl (value : string)
| InvalidSha512 (value : string)
| InvalidCopiedArtifactEvidence
| InvalidWorkspaceSource (value : string)
| UnsupportedVersion (version : Z)
| AliasMetadataInLegacySchema (version : Z)
| InvalidDerivedOutput (reason : string)
| RegenerationRequired (version : Z)
| DuplicatePackage (key : string)
| PackageKeyMismatch (key : string)
| NonCanonicalRegistryIdentity
| InvalidPackageKey (key : string)
| DanglingDependency (package dependency : string)
| DanglingRoot (root : string)
| MissingRoots
| WorkspaceIdentityRequiresCurrentVersion
| MissingRegistryIntegrityProvenance (package : string)
| UnverifiedRegistryArtifact (package : string)
| NonCanonicalRoots
| DependencyNameMismatch (package dependency target : string)
| SelfDependency (key : string)
| RootManifestDigestMismatch (expected actual : string).
#[export] Instance LockfileError_eq_dec : EqDecision LockfileError.
Proof. solve_decision. Defined.

Definition LockfileError_display (e : LockfileError) : string :=
  match e with
  | Serialization error => "invalid lockfile JSON: " +:+ error
  | Domain error => DomainError_display error
  | InvalidUrl value => "lockfile URL is not an approved HTTPS origin: " +:+ value
  | InvalidSha512 value => "invalid SHA-512 integrity: " +:+ value
  | InvalidCopiedArtifactEvidence =>
      "copied artifacts cannot carry registry authentication, download URLs, or derived hooks"
  | InvalidWorkspaceSource value => "invalid local workspace source identity: " +:+ value
  | UnsupportedVersion version => "unsupported lockfile version: " +:+ show_u64 version
  | InvalidDerivedOutput reason => "invalid lifecycle-derived output: " +:+ reason
  | AliasMetadataInLegacySchema version =>
      "lockfile version " +:+ show_u64 version +:+
      " cannot contain npm alias bindings; alias metadata requires schema 7"
  | RegenerationRequired version =>
      "lockfile version " +:+ show_u64 version +:+
      " lacks required integrity provenance; regenerate it online"
  | DuplicatePackage key => "duplicate locked package: " +:+ key
  | PackageKeyMismatch key => "lockfile package key does not match package: " +:+ key
  | NonCanonicalRegistryIdentity =>
      "noncanonical persisted registry identity; replay is refused without rekeying; preserve a backup of tapid.lock, then deliberately remove the incompatible original lock and re-resolve online with `tapid install` (without --offline or --frozen) and review the new graph; see docs/compatibility.md"
  | InvalidPackageKey key => "invalid canonical lockfile package key: " +:+ key
  | DanglingDependency package dependency =>
      "package " +:+ package +:+ " has dangling dependency " +:+ dependency
  | DanglingRoot root => "lockfile has dangling root package " +:+ root
  | MissingRoots => "current lockfile schema requires exact root packages"
  | WorkspaceIdentityRequiresCurrentVersion =>
      "workspace package identities require the current lockfile schema"
  | MissingRegistryIntegrityProvenance package =>
      "current lockfile schema requires registry integrity provenance for " +:+ package
  | UnverifiedRegistryArtifact package =>
      "lockfile package lacks registry-declared artifact integrity: " +:+ package
  | NonCanonicalRoots => "lockfile root packages must be sorted and unique"
  | DependencyNameMismatch package dependency target =>
      "package " +:+ package +:+ " dependency " +:+ dependency +:+ " targets package " +:+ target
  | SelfDependency key => "package cannot depend on itself: " +:+ key
  | RootManifestDigestMismatch expected actual =>
      "lockfile root manifest digest mismatch: expected " +:+ expected +:+ ", got " +:+ actual
  end.

(** ** Percent encoding of context fields *)
Definition encode_byte (byte : ascii) : string :=
  if byte_is_lower byte || byte_is_upper byte || byte_is_digit byte
     || ascii_eqb byte "_" || ascii_eqb byte "." || ascii_eqb byte "@"
  then String byte "" else String "%" (format_02X byte).
Definition encode (value : string) : string := str_flat_map encode_byte value.

(** The decoding loop over the bytes; [None] where the code returns its error.  The
    bound [index + 2 >= len] fails when fewer than two bytes follow the [%]. *)
Fixpoint percent_bytes (bytes : string) : option string :=
  match bytes with
  | "" => Some ""
  | String b rest =>
      if ascii_eqb b "%" then
        match rest with
        | String h (String l rest') =>
            high ← to_digit16 h;
            low ← to_digit16 l;
            decoded ← percent_bytes rest';
            Some (String (ascii_of_N (Z.to_N (high * 16 + low))) decoded)
        | _ => None
        end
      else decoded ← percent_bytes rest; Some (String b decoded)
  end.
Definition percent_decode (value original : string) : result LockfileError string :=
  match percent_bytes value with
  | Some decoded => if utf8_valid decoded then Ok decoded else Err (InvalidPackageKey original)
  | None => Err (InvalidPackageKey original)
  end.

Definition canonical_platform_context (context : PlatformContext) : string :=
  "os=" +:+ from_option encode "" (pc_os context) +:+
  ";cpu=" +:+ from_option encode "" (pc_cpu context) +:+
  ";libc=" +:+ from_option encode "" (pc_libc context).
Definition canonical_artifact_digest (value : string) : result LockfileError string :=
  map_err Domain (ArtifactDigest_display <$> ArtifactDigest_from_str value).
Definition context_or_dash (context : string) : string :=
  if is_empty context then "-" else context.
Definition parse_context (field prefix original : string) : result LockfileError string :=
  match strip_prefix prefix field with
  | None => Err (InvalidPackageKey original)
  | Some value =>
      if is_empty value || str_eqb value "-" then Ok ""
      else if chars_any char_is_whitespace value then Err (InvalidPackageKey original)
      else Ok value
  end.

Definition decode_field (original field : string) : result LockfileError (option string) :=
  if is_empty field then Ok None else Some <$> percent_decode field original.
Definition platform_fields (value : string) : option (string * string * string) :=
  value ← strip_prefix "os=" value;
  '(os, rest) ← split_once ";cpu=" value;
  '(cpu, libc) ← split_once ";libc=" rest;
  Some (os, cpu, libc).
Definition decode_platform_context (value original : string) :
    result LockfileError PlatformContext :=
  if is_empty value then map_err Domain (PlatformContext_new None None None) else
  '(os, cpu, libc) ← ok_or (InvalidPackageKey original) (platform_fields value);
  os ← decode_field original os;
  cpu ← decode_field original cpu;
  libc ← decode_field original libc;
  context ← map_err Domain (PlatformContext_new os cpu libc);
  _ ← ensure (str_eqb (canonical_platform_context context) value) (InvalidPackageKey original);
  Ok context.

(** ** Registry and artifact URLs *)
Definition validate_registry_url `{UrlCrate} (value : string) : result LockfileError () :=
  if contains_char "?" value || contains_char "#" value || contains_char "@" value
  then Err (InvalidUrl value)
  else map_err (λ _, InvalidUrl value) ((λ _, ()) <$> RegistryOrigin_from_str value).
Definition validate_artifact_url `{UrlCrate} (value : string) : result LockfileError () :=
  map_err (λ _, InvalidUrl value) ((λ _, ()) <$> ArtifactUrl_from_str value).

(** ** Workspace paths *)
Definition workspace_component (value : string) (components : list string) (c : RustStr.component) :
    result LockfileError (list string) :=
  match c with
  | Normal part =>
      if is_empty part || str_eqb part "." || contains_char ":" part
      then Err (InvalidWorkspaceSource value) else Ok (components ++ [part])
  | CurDir => Ok components
  | ParentDir | RootDir => Err (InvalidWorkspaceSource value)
  end.
Definition canonical_workspace_path (value : string) : result LockfileError string :=
  if is_empty value || contains_char "\" value || contains_char "|" value
     || chars_any char_is_control value
  then Err (InvalidWorkspaceSource value)
  else if path_is_absolute value then Err (InvalidWorkspaceSource value)
  else
    components ← try_fold (workspace_component value) [] (path_components value);
    if bool_decide (components = []) then Err (InvalidWorkspaceSource value)
    else Ok (join "/" components).

Section keys.
Context `{SV : Semver} `{UC : UrlCrate}.

Definition peer_item (entry : PackageName * PackageVersion) : string :=
  "name=" +:+ encode (PackageName_display entry.1) +:+
  ";version=" +:+ encode (PackageVersion_display entry.2).
Definition canonical_peer_context (context : PeerContext) : string :=
  join "," (peer_item <$> btree_iter context).
Definition item_fields (item : string) : option (string * string) :=
  '(name, version) ← split_once ";version=" item;
  name ← strip_prefix "name=" name;
  Some (name, version).
Definition decode_item (original : string) (context : PeerContext) (item : string) :
    result LockfileError PeerContext :=
  '(name, version) ← ok_or (InvalidPackageKey original) (item_fields item);
  name ← percent_decode name original;
  name ← map_err Domain (PackageName_from_str name);
  version ← percent_decode version original;
  version ← map_err Domain (PackageVersion_from_str version);
  Ok (PeerContext_with context name version).
Definition decode_peer_context (value original : string) : result LockfileError PeerContext :=
  if is_empty value then Ok ∅ else
  context ← try_fold (decode_item original) ∅ (split "," value);
  _ ← ensure (str_eqb (canonical_peer_context context) value) (InvalidPackageKey original);
  Ok context.

(** ** Local workspace sources *)
Record LocalWorkspaceSource := mk_workspace {
  ws_path : string;
  ws_name : string;
  ws_version : string;
}.
#[export] Instance LocalWorkspaceSource_eq_dec : EqDecision LocalWorkspaceSource.
Proof. solve_decision. Defined.
Definition LocalWorkspaceSource_new (path name version : string) :
    result LockfileError LocalWorkspaceSource :=
  path ← canonical_workspace_path path;
  name ← map_err Domain (PackageName_from_str name);
  version ← map_err Domain (PackageVersion_from_str version);
  Ok (mk_workspace path (PackageName_display name) (PackageVersion_display version)).
Definition workspace_identity (s : LocalWorkspaceSource) : string :=
  "workspace:" +:+ ws_path s +:+ ":" +:+ ws_name s +:+ "@" +:+ ws_version s.
Definition LocalWorkspaceSource_from_str (value : string) :
    result LockfileError LocalWorkspaceSource :=
  let invalid := InvalidWorkspaceSource value in
  rest ← ok_or invalid (strip_prefix "workspace:" value);
  '(path, package) ← ok_or invalid (rsplit_once ":" rest);
  '(name, version) ← ok_or invalid (rsplit_once "@" package);
  source ← LocalWorkspaceSource_new path name version;
  _ ← ensure (str_eqb (workspace_identity source) value) invalid;
  Ok source.

(** ** Package keys *)
Inductive LockfilePackageSource :=
| Registry (origin : RegistryOrigin)
| Copied (source : PackageSource)
| Workspace (source : LocalWorkspaceSource).
#[export] Instance LockfilePackageSource_eq_dec : EqDecision LockfilePackageSource.
Proof. solve_decision. Defined.
Definition package_source (s : LockfilePackageSource) : option PackageSource :=
  match s with
  | Registry origin => Some (source_of_registry origin)
  | Copied source => Some source
  | Workspace _ => None
  end.
Definition source_workspace (s : LockfilePackageSource) : option LocalWorkspaceSource :=
  match s with Workspace source => Some source | _ => None end.
Record LockfilePackageKey := mk_key {
  key_source : LockfilePackageSource;
  key_name : PackageName;
  key_version : PackageVersion;
  key_peer : string;
  key_platform : string;
}.
#[export] Instance LockfilePackageKey_eq_dec : EqDecision LockfilePackageKey.
Proof. solve_decision. Defined.
Definition source_text (s : LockfilePackageSource) : string :=
  match s with
  | Registry origin => origin_str origin
  | Copied source => source_as_str source
  | Workspace source => workspace_identity source
  end.
Definition key_text (source : string) (name : PackageName) (version : PackageVersion)
    (peer platform : string) : string :=
  source +:+ "|" +:+ PackageName_display name +:+ "@" +:+ PackageVersion_display version +:+
  "|peer=" +:+ context_or_dash peer +:+ "|platform=" +:+ context_or_dash platform.
Definition key_display (k : LockfilePackageKey) : string :=
  key_text (source_text (key_source k)) (key_name k) (key_version k) (key_peer k) (key_platform k).
Definition key_peer_context (k : LockfilePackageKey) : result LockfileError PeerContext :=
  decode_peer_context (key_peer k) (key_display k).
Definition key_platform_context (k : LockfilePackageKey) : result LockfileError PlatformContext :=
  decode_platform_context (key_platform k) (key_display k).

Definition key_with_source (source : LockfilePackageSource) (name : PackageName)
    (version : PackageVersion) (peer : PeerContext) (platform : PlatformContext) :
    LockfilePackageKey :=
  mk_key source name version (canonical_peer_context peer) (canonical_platform_context platform).
Definition key_from_source (source : PackageSource) (name : PackageName)
    (version : PackageVersion) (peer : PeerContext) (platform : PlatformContext) :
    LockfilePackageKey :=
  key_with_source
    match source_registry source with
    | Some origin => Registry origin
    | None => Copied source
    end name version peer platform.
Definition key_new (registry : RegistryOrigin) (name : PackageName) (version : PackageVersion)
    (peer : PeerContext) (platform : PlatformContext) : LockfilePackageKey :=
  key_with_source (Registry registry) name version peer platform.
(** [None] is the panic of the two [expect]s. *)
Definition key_workspace (source : LocalWorkspaceSource) : option LockfilePackageKey :=
  name ← to_ok (PackageName_from_str (ws_name source));
  version ← to_ok (PackageVersion_from_str (ws_version source));
  Some (mk_key (Workspace source) name version ""
          (canonical_platform_context PlatformContext_none)).

Definition parse_source (text : string) : result LockfileError LockfilePackageSource :=
  if starts_with "workspace:" text then Workspace <$> LocalWorkspaceSource_from_str text
  else if starts_with "file:" text || starts_with "git+" text
  then Copied <$> map_err Domain (PackageSource_from_str text)
  else
    origin ← map_err Domain (RegistryOrigin_from_str text);
    if negb (str_eqb (origin_str origin) text) then Err NonCanonicalRegistryIdentity
    else Ok (Registry origin).
Definition workspace_agrees (k : LockfilePackageKey) : bool :=
  match key_source k with
  | Workspace source => str_eqb (ws_name source) (name_str (key_name k))
                        && str_eqb (ws_version source) (PackageVersion_display (key_version k))
  | _ => true
  end.
Definition LockfilePackageKey_from_str (value : string) :
    result LockfileError LockfilePackageKey :=
  let invalid := InvalidPackageKey value in
  match split "|" value with
  | [p0; p1; p2; p3] =>
      if negb (starts_with "peer=" p2) || negb (starts_with "platform=" p3)
      then Err invalid else
      '(name, version) ← ok_or invalid (rsplit_once "@" p1);
      source ← parse_source p0;
      name ← map_err Domain (PackageName_from_str name);
      version ← map_err Domain (PackageVersion_from_str version);
      peer ← parse_context p2 "peer=" value;
      platform ← parse_context p3 "platform=" value;
      let key := mk_key source name version peer platform in
      _ ← decode_peer_context peer value;
      _ ← decode_platform_context platform value;
      _ ← ensure (str_eqb (key_display key) value) invalid;
      _ ← ensure (workspace_agrees key) invalid;
      Ok key
  | _ => Err invalid
  end.
End keys.

(** ** Percent encoding *)
Definition encoded_byte (a : ascii) : bool :=
  byte_is_alphanumeric a || ascii_eqb a "_" || ascii_eqb a "." || ascii_eqb a "@"
  || ascii_eqb a "%".
(** The two digits of an escaped byte. *)
Definition high_digit (a : ascii) : ascii := upper_hex_digit (code a / 16).
Definition low_digit (a : ascii) : ascii := upper_hex_digit (code a mod 16).
Definition escape_check (a : ascii) : bool :=
  match to_digit16 (high_digit a), to_digit16 (low_digit a) with
  | Some high, Some low => ascii_eqb (ascii_of_N (Z.to_N (high * 16 + low))) a
  | _, _ => false
  end && encoded_byte (high_digit a) && encoded_byte (low_digit a).
Lemma escape_check_all a : escape_check a = true.
Proof. by destruct a as [[] [] [] [] [] [] [] []]. Qed.
Lemma encode_byte_cases a :
  (encode_byte a = String a "" ∧ ascii_eqb a "%" = false ∧ encoded_byte a = true) ∨
  (∃ h l high low, encode_byte a = String "%" (String h (String l "")) ∧
     to_digit16 h = Some high ∧ to_digit16 l = Some low ∧
     ascii_of_N (Z.to_N (high * 16 + low)) = a ∧
     encoded_byte h = true ∧ encoded_byte l = true).
Proof.
  unfold encode_byte. destruct (_ || _) eqn:E.
  - left. split_and!; [done| |].
    + apply not_true_iff_false. intros ->%ascii_eqb_true. done.
    + unfold encoded_byte, byte_is_alphanumeric, byte_is_alphabetic. by rewrite E.
  - right. pose proof (escape_check_all a) as Hc. unfold escape_check in Hc.
    destruct (to_digit16 (high_digit a)) as [high|] eqn:Hh; [|done].
    destruct (to_digit16 (low_digit a)) as [low|] eqn:Hl; [|done].
    bool_prop. exists (high_digit a), (low_digit a), high, low.
    split_and!; try done. by apply ascii_eqb_true.
Qed.
Lemma encode_cons a s : encode (String a s) = encode_byte a +:+ encode s.
Proof. done. Qed.
Lemma percent_bytes_encode s : percent_bytes (encode s) = Some s.
Proof.
  induction s as [|a s IH]; [done|]. rewrite encode_cons.
  destruct (encode_byte_cases a) as [(->&Ha&_)|(h&l&high&low&->&Hh&Hl&Ha&_)].
  - rewrite app_cons, app_nil_l'. simpl. by rewrite Ha, IH.
  - rewrite !app_cons, app_nil_l'. simpl. by rewrite Hh, Hl, IH; simpl; rewrite Ha.
Qed.
Lemma encode_bytes s : str_forallb encoded_byte (encode s) = true.
Proof.
  induction s as [|a s IH]; [done|]. rewrite encode_cons, str_forallb_app, IH, andb_true_r.
  destruct (encode_byte_cases a) as [(->&_&Ha)|(h&l&high&low&->&_&_&_&Hh&Hl)]; simpl.
  - by rewrite Ha.
  - by rewrite Hh, Hl.
Qed.
Lemma encode_free c s : encoded_byte c = false → contains_char c (encode s) = false.
Proof. apply forallb_contains_char, encode_bytes. Qed.
Lemma encode_empty s : encode s = "" ↔ s = "".
Proof.
  split; [|by intros ->]. intros Hs. pose proof (percent_bytes_encode s) as H.
  rewrite Hs in H. simpl in H. congruence.
Qed.
Lemma percent_decode_encode s original :
  utf8_valid s = true → percent_decode (encode s) original = Ok s.
Proof. intros Hs. unfold percent_decode. by rewrite percent_bytes_encode, Hs. Qed.
Lemma percent_decode_utf8 value original s :
  percent_decode value original = Ok s → utf8_valid s = true.
Proof. unfold percent_decode. case_match; [|done]. case_match; [|done]. by intros [= <-]. Qed.

(** ** Platform contexts *)
Definition field_ok (field : option string) : Prop :=
  ∀ s, field = Some s → s ≠ "" ∧ utf8_valid s = true.
Definition platform_ok (c : PlatformContext) : Prop :=
  PlatformContext_new (pc_os c) (pc_cpu c) (pc_libc c) = Ok c ∧
  field_ok (pc_os c) ∧ field_ok (pc_cpu c) ∧ field_ok (pc_libc c).
Lemma decode_field_encode original field :
  field_ok field → decode_field original (from_option encode "" field) = Ok field.
Proof.
  unfold decode_field. destruct field as [s|]; simpl; [|done]. intros Hs.
  destruct (Hs s) as [Hne Hutf]; [done|].
  destruct (is_empty (encode s)) eqn:E; [by apply is_empty_true, encode_empty in E as ->|].
  by rewrite percent_decode_encode.
Qed.
Lemma field_free c field :
  encoded_byte c = false → contains_char c (from_option encode "" field) = false.
Proof. destruct field; [apply encode_free|done]. Qed.
Lemma platform_fields_canonical c :
  platform_fields (canonical_platform_context c) =
    Some (from_option encode "" (pc_os c), from_option encode "" (pc_cpu c),
          from_option encode "" (pc_libc c)).
Proof.
  unfold platform_fields, canonical_platform_context. rewrite strip_prefix_app. simpl.
  change (";cpu=" +:+ ?x) with (String ";" "cpu=" +:+ x).
  rewrite split_once_app by (by apply field_free). simpl.
  change (";libc=" +:+ ?x) with (String ";" "libc=" +:+ x).
  by rewrite split_once_app by (by apply field_free).
Qed.
Lemma canonical_platform_nonempty c : is_empty (canonical_platform_context c) = false.
Proof. done. Qed.
Lemma decode_canonical_platform c original :
  platform_ok c → decode_platform_context (canonical_platform_context c) original = Ok c.
Proof.
  intros (Hnew&Hos&Hcpu&Hlibc). unfold decode_platform_context.
  rewrite canonical_platform_nonempty, platform_fields_canonical. simpl.
  rewrite decode_field_encode by done. simpl. rewrite decode_field_encode by done. simpl.
  rewrite decode_field_encode by done. simpl. rewrite Hnew. simpl. by rewrite str_eqb_refl.
Qed.
Lemma PlatformContext_new_Ok os cpu libc c :
  PlatformContext_new os cpu libc = Ok c →
  c = mk_platform os cpu libc ∧ Forall (λ v, v ≠ "") (omap id [os; cpu; libc]).
Proof.
  unfold PlatformContext_new. destruct (existsb _ _) eqn:E; [done|]. intros [= <-].
  split; [done|]. apply Forall_forall. intros v Hv ->.
  apply not_true_iff_false in E. destruct E. apply existsb_exists.
  exists "". split; [by apply list_elem_of_In|done].
Qed.
Lemma decode_field_utf8 original field v :
  decode_field original field = Ok v → ∀ s, v = Some s → utf8_valid s = true.
Proof.
  unfold decode_field. case_match; [by intros [= <-]|].
  intros (s&Hs&->)%fmap_Ok s' [= <-]. by eapply percent_decode_utf8.
Qed.
Lemma platform_new_ok c :
  PlatformContext_new (pc_os c) (pc_cpu c) (pc_libc c) = Ok c →
  (∀ s, Some s ∈ [pc_os c; pc_cpu c; pc_libc c] → utf8_valid s = true) → platform_ok c.
Proof.
  intros Hnew Hutf. pose proof (PlatformContext_new_Ok _ _ _ _ Hnew) as [_ Hne].
  rewrite Forall_forall in Hne.
  assert (∀ field, field ∈ [pc_os c; pc_cpu c; pc_libc c] → field_ok field) as Hf.
  { intros field Hin s ->. split; [|by apply Hutf]. apply Hne, list_elem_of_omap.
    by exists (Some s). }
  split_and!; [done|apply Hf; set_solver..].
Qed.
Lemma platform_none_ok : platform_ok PlatformContext_none.
Proof. by apply platform_new_ok; [|set_solver]. Qed.
Lemma decode_platform_Ok value original c :
  decode_platform_context value original = Ok c →
  (value = "" ∧ c = PlatformContext_none) ∨ (platform_ok c ∧ value = canonical_platform_context c).
Proof.
  unfold decode_platform_context. destruct (is_empty value) eqn:E.
  { apply is_empty_true in E as ->. intros [= <-]. by left. }
  intros ([[os cpu] libc]&_&H)%bind_Ok. right.
  apply bind_Ok in H as (os'&Hos&H). apply bind_Ok in H as (cpu'&Hcpu&H).
  apply bind_Ok in H as (libc'&Hlibc&H). apply bind_Ok in H as (c'&Hnew%map_err_Ok&H).
  apply bind_Ok in H as ([]&Heq%ensure_Ok%str_eqb_true&[= ->]).
  split; [|done].
  pose proof (PlatformContext_new_Ok _ _ _ _ Hnew) as [-> _].
  apply platform_new_ok; [done|]. simpl.
  intros s Hs. rewrite !elem_of_cons, elem_of_nil in Hs.
  destruct Hs as [Hs|[Hs|[Hs|[]]]].
  - by apply (decode_field_utf8 _ _ _ Hos).
  - by apply (decode_field_utf8 _ _ _ Hcpu).
  - by apply (decode_field_utf8 _ _ _ Hlibc).
Qed.

(** ** Peer contexts and workspace sources *)
(** ** Workspace paths *)
(** A component that a canonical workspace path may have. *)
Definition workspace_part (part : string) : Prop :=
  safe_component part ∧
  Forall (λ c, contains_char c part = false) ["/"; ":"; "\"; "|"]%char ∧
  chars_any char_is_control part = false.
Definition canonical_path (path : string) : Prop :=
  ∃ parts, path = join "/" parts ∧ parts ≠ [] ∧ Forall workspace_part parts.

Lemma contains_char_join c (l : list string) :
  ascii_eqb c "/" = false →
  contains_char c (join "/" l) = existsb (contains_char c) l.
Proof.
  intros Hc. induction l as [|x l IH]; [done|]. simpl. destruct l as [|y l]; [by rewrite orb_false_r|].
  rewrite app_cons, app_nil_l', contains_char_app, contains_char_cons, Hc. f_equal. exact IH.
Qed.
Lemma existsb_false {A} (f : A → bool) l : existsb f l = false ↔ Forall (λ x, f x = false) l.
Proof.
  induction l as [|x l IH]; simpl; [by repeat constructor|].
  by rewrite orb_false_iff, IH, Forall_cons.
Qed.
Lemma later_components_Normal parts :
  Forall safe_component parts → omap later_component parts = RustStr.Normal <$> parts.
Proof.
  induction 1 as [|x l (H1&H2&H3) Hl IH]; [done|]. simpl. unfold later_component at 1.
  destruct (str_eqb x "") eqn:E1; [by apply str_eqb_true in E1|].
  destruct (str_eqb x ".") eqn:E2; [by apply str_eqb_true in E2|].
  destruct (str_eqb x "..") eqn:E3; [by apply str_eqb_true in E3|]. simpl. f_equal. exact IH.
Qed.
Lemma workspace_components_Ok value acc parts :
  Forall workspace_part parts →
  try_fold (workspace_component value) acc (RustStr.Normal <$> parts) = Ok (acc ++ parts).
Proof.
  intros Hp. revert acc. induction Hp as [|x l ((H1&H2&_)&Hc&_) Hl IH]; intros acc; simpl.
  - by rewrite app_nil_r.
  - destruct (is_empty x) eqn:E1; [by apply is_empty_true in E1|].
    destruct (str_eqb x ".") eqn:E2; [by apply str_eqb_true in E2|].
    rewrite Forall_forall in Hc. rewrite (Hc ":"%char) by set_solver. simpl.
    rewrite IH. by rewrite <-app_assoc.
Qed.
Lemma canonical_path_fixed path :
  canonical_path path → canonical_workspace_path path = Ok path.
Proof.
  intros (parts&->&Hne&Hp). unfold canonical_workspace_path.
  assert (∀ c, c ∈ [":"; "\"; "|"]%char → contains_char c (join "/" parts) = false) as Hfree.
  { intros c Hc. rewrite contains_char_join by (set_unfold; naive_solver).
    apply existsb_false. eapply Forall_impl; [exact Hp|]. intros x (_&Hx&_).
    rewrite Forall_forall in Hx. apply Hx. set_solver. }
  assert (split "/" (join "/" parts) = parts) as Hsplit.
  { apply split_join; [done|]. eapply Forall_impl; [exact Hp|]. intros x (_&Hx&_).
    by apply Forall_inv in Hx. }
  assert (chars_any char_is_control (join "/" parts) = false) as ->.
  { rewrite chars_any_join by done. apply existsb_false.
    eapply Forall_impl; [exact Hp|]. by intros x (_&_&Hx). }
  rewrite !Hfree by set_solver.
  assert (Forall safe_component parts) as Hsafe.
  { eapply Forall_impl; [exact Hp|]. by intros x (Hx&_). }
  destruct parts as [|first parts]; [done|].
  assert (path_is_absolute (join "/" (first :: parts)) = false) as Habs.
  { apply Forall_inv in Hp as ((Hx&_)&Hc&_). apply Forall_inv in Hc.
    unfold path_is_absolute. destruct first as [|a first]; [done|].
    simpl. rewrite contains_char_cons in Hc. apply orb_false_iff in Hc as [Hc _].
    by destruct parts; simpl; rewrite Hc. }
  assert (is_empty (join "/" (first :: parts)) = false) as ->.
  { apply Forall_inv in Hsafe as (Hx&_). destruct first; [done|]. by destruct parts. }
  rewrite Habs. simpl orb. cbn iota.
  assert (path_components (join "/" (first :: parts)) = RustStr.Normal <$> (first :: parts)) as ->.
  { unfold path_components. rewrite Habs, Hsplit.
    destruct (str_eqb first ".") eqn:E.
    - apply str_eqb_true in E as ->. by apply Forall_inv in Hsafe as (_&?&_).
    - by apply later_components_Normal. }
  rewrite workspace_components_Ok by done. done.
Qed.
Lemma canonical_workspace_path_Ok value path :
  canonical_workspace_path value = Ok path → canonical_path path.
Proof.
  unfold canonical_workspace_path. destruct (_ || _) eqn:E1; [done|].
  destruct (path_is_absolute value) eqn:Habs; [done|].
  intros (parts&Hfold&H)%bind_Ok. case_bool_decide as Hne; [done|]. injection H as <-.
  exists parts. split_and!; [done|done|].
  rewrite !orb_false_iff in E1. destruct E1 as [[[_ Hbs] Hbar] Hctl].
  assert (∀ x, x ∈ split "/" value → Forall (λ c, contains_char c x = false) ["/"; "\"; "|"]%char ∧
    chars_any char_is_control x = false) as Hpiece.
  { rewrite <-(join_split "/" value) in Hbs, Hbar, Hctl.
    rewrite contains_char_join in Hbs, Hbar by done. rewrite chars_any_join in Hctl by done.
    rewrite existsb_false, Forall_forall in Hbs, Hbar, Hctl.
    intros x Hx. split; [|by apply Hctl]. forall_list.
    - by eapply split_pieces_free.
    - by apply Hbs.
    - by apply Hbar. }
  assert (∀ part, RustStr.Normal part ∈ path_components value →
    part ∈ split "/" value ∧ safe_component part) as Hcomp.
  { assert (∀ part (l : list string), RustStr.Normal part ∈ omap later_component l → part ∈ l ∧ safe_component part)
      as Hlater.
    { intros part l (x&Hx&Hl)%list_elem_of_omap. unfold later_component in Hl.
      destruct (_ || _) eqn:E; [done|]. apply orb_false_iff in E as [E1 E2].
      destruct (str_eqb x "..") eqn:E3; [done|]. injection Hl as <-. split; [done|].
      split_and!; by intros ->. }
    intros part. unfold path_components. rewrite Habs.
    destruct (split "/" value) as [|first rest]; [by intros ?%not_elem_of_nil|].
    destruct (str_eqb first "."); [|apply Hlater].
    intros [?|Hin]%elem_of_cons; [done|]. apply Hlater in Hin. set_solver. }
  apply Forall_forall. revert Hfold.
  apply (try_fold_prefix (λ pre (parts : list string), ∀ x, x ∈ parts → workspace_part x)).
  - intros pre c post acc acc' Hl Hacc Hx. destruct c as [| | |part]; simpl in Hx; [done| |done|].
    { by injection Hx as <-. }
    destruct (_ || contains_char ":" part) eqn:E; [done|].
    injection Hx as <-. intros x [?|Hx%list_elem_of_singleton]%elem_of_app; [by apply Hacc|].
    subst x.
    apply orb_false_iff in E as [_ Hcolon].
    destruct (Hcomp part) as [Hin Hsafe]; [rewrite Hl; set_solver|].
    destruct (Hpiece part Hin) as [Hf Hctl']. split_and!; [done| |done].
    rewrite !Forall_cons in *. tauto.
  - by intros x ?%not_elem_of_nil.
Qed.

Section key_theory.
Context `{SV : Semver} `{SL : !SemverLaws} `{UC : UrlCrate} `{UL : !UrlLaws}.
Implicit Types (n : PackageName) (v : PackageVersion).

Definition name_ok n : Prop := PackageName_from_str (name_str n) = Ok n.
Definition version_ok v : Prop := PackageVersion_from_str (PackageVersion_display v) = Ok v.

Lemma name_from_str_ok s n : PackageName_from_str s = Ok n → name_ok n ∧ name_str n = s.
Proof. intros H. split; [by apply (PackageName_reparse s)|]. by apply PackageName_from_str_Ok in H as [_ ->]. Qed.
Lemma version_from_str_ok s v : PackageVersion_from_str s = Ok v → version_ok v.
Proof.
  unfold version_ok, PackageVersion_from_str, PackageVersion_display.
  destruct (sv_parse s) as [w|] eqn:Hs; [|done].
  destruct (is_empty (sv_build w)) eqn:Hb; simpl; [|done]. intros [= <-]. simpl.
  rewrite (sv_parse_display _ _ Hs). by rewrite Hb.
Qed.
Lemma stable_ok a b c : is_u64 a → is_u64 b → is_u64 c → version_ok (stable a b c).
Proof.
  intros Ha Hb Hc. unfold version_ok, PackageVersion_from_str, PackageVersion_display, stable.
  simpl. rewrite sv_parse_new by done. by rewrite sv_new_build.
Qed.
Definition name_text_byte (a : ascii) : bool := name_byte a || ascii_eqb a "@" || ascii_eqb a "/".
Lemma name_bytes n : name_ok n → str_forallb name_text_byte (name_str n) = true.
Proof. intros [[H _] _]%PackageName_from_str_Ok. by apply name_shape_bytes. Qed.
Lemma version_bytes v : version_ok v → str_forallb semver_byte (PackageVersion_display v) = true.
Proof.
  unfold version_ok, PackageVersion_from_str, PackageVersion_display.
  destruct (sv_parse (sv_display (pv v))) as [w|] eqn:Hs; [|done].
  destruct (negb _); [done|]. intros [= <-]. simpl in *. by eapply sv_display_bytes.
Qed.
Lemma name_text_free c n : name_ok n → name_text_byte c = false → contains_char c (name_str n) = false.
Proof. intros H. by apply forallb_contains_char, name_bytes. Qed.
Lemma version_free c v :
  version_ok v → semver_byte c = false → contains_char c (PackageVersion_display v) = false.
Proof. intros H. by apply forallb_contains_char, version_bytes. Qed.
Lemma name_utf8 n : name_ok n → utf8_valid (name_str n) = true.
Proof.
  intros H%name_bytes. apply utf8_valid_ascii. eapply str_forallb_impl; [|exact H].
  intros a Ha. unfold name_text_byte in Ha. rewrite !orb_true_iff in Ha.
  destruct Ha as [[Ha|Ha%ascii_eqb_true]|Ha%ascii_eqb_true]; [|by subst..].
  unfold name_byte in Ha. apply is_name_character_ascii in Ha.
  unfold byte_is_ascii. lia.
Qed.
Lemma version_utf8 v : version_ok v → utf8_valid (PackageVersion_display v) = true.
Proof.
  intros H%version_bytes. apply utf8_valid_ascii. eapply str_forallb_impl; [|exact H].
  by intros [[] [] [] [] [] [] [] []].
Qed.

(** *** Peer contexts *)
Definition peer_ok (c : PeerContext) : Prop :=
  ∀ n v, c !! n = Some v → name_ok n ∧ version_ok v.
Lemma item_fields_peer n v :
  name_ok n → version_ok v →
  item_fields (peer_item (n, v)) = Some (encode (name_str n), encode (PackageVersion_display v)).
Proof.
  intros Hn Hv. unfold item_fields, peer_item. cbn [fst snd].
  change (";version=" +:+ ?x) with (String ";" "version=" +:+ x).
  rewrite <-app_assoc'. rewrite split_once_app.
  - cbn [mbind option_bind]. by rewrite strip_prefix_app.
  - by rewrite contains_char_app, encode_free.
Qed.
Lemma decode_item_peer original c n v :
  name_ok n → version_ok v →
  decode_item original c (peer_item (n, v)) = Ok (PeerContext_with c n v).
Proof.
  intros Hn Hv. unfold decode_item. rewrite item_fields_peer by done. simpl.
  rewrite (percent_decode_encode (name_str n)) by (by apply name_utf8). simpl.
  rewrite Hn. simpl.
  rewrite percent_decode_encode by (by apply version_utf8). simpl. by rewrite Hv.
Qed.
Lemma decode_items original l c :
  Forall (λ nv, name_ok nv.1 ∧ version_ok nv.2) l →
  try_fold (decode_item original) c (peer_item <$> l) =
    Ok (foldl (λ c nv, PeerContext_with c nv.1 nv.2) c l).
Proof.
  intros Hl. revert c. induction Hl as [|[n v] l [Hn Hv] Hl IH]; intros c; simpl; [done|].
  rewrite decode_item_peer by done. simpl. apply IH.
Qed.
Lemma peer_item_free c n v :
  encoded_byte c = false → c ∈ [","; "|"]%char → contains_char c (peer_item (n, v)) = false.
Proof.
  intros Hc Hin. unfold peer_item. rewrite !contains_char_app, !encode_free by done.
  rewrite !elem_of_cons, elem_of_nil in Hin. by destruct Hin as [->|[->|[]]].
Qed.
Lemma decode_canonical_peer c original :
  peer_ok c → decode_peer_context (canonical_peer_context c) original = Ok c.
Proof.
  intros Hc. unfold decode_peer_context.
  destruct (is_empty (canonical_peer_context c)) eqn:E.
  - apply is_empty_true in E. unfold canonical_peer_context in E.
    destruct (btree_iter c) as [|[n v] l] eqn:Hl.
    + apply btree_iter_nil in Hl as ->. done.
    + simpl in E. by destruct l.
  - assert (split "," (canonical_peer_context c) = peer_item <$> btree_iter c) as ->.
    { apply split_join.
      - intros Hl%fmap_nil_inv. unfold canonical_peer_context in E. by rewrite Hl in E.
      - apply Forall_fmap, Forall_true. intros [n v]. apply peer_item_free; [done|set_solver]. }
    rewrite decode_items.
    + assert (foldl (λ c nv, PeerContext_with c nv.1 nv.2) ∅ (btree_iter c) = c) as ->.
      { apply btree_collect_iter. }
      simpl. by rewrite str_eqb_refl.
    + apply Forall_forall. intros [n v] ?%elem_of_btree_iter. by apply Hc.
Qed.
Lemma decode_peer_Ok value original c :
  decode_peer_context value original = Ok c → peer_ok c ∧ value = canonical_peer_context c.
Proof.
  unfold decode_peer_context. destruct (is_empty value) eqn:E.
  { apply is_empty_true in E as ->. intros [= <-]. split; [|done].
    intros n v. unfold PeerContext. by rewrite lookup_empty. }
  intros (c'&Hfold&H)%bind_Ok. apply bind_Ok in H as ([]&Heq%ensure_Ok%str_eqb_true&[= ->]).
  split; [|done]. revert Hfold. apply (try_fold_inv peer_ok).
  - intros c1 item c2 _ Hc1 Hx. unfold decode_item in Hx.
    apply bind_Ok in Hx as ([name version]&_&Hx). apply bind_Ok in Hx as (name1&_&Hx).
    apply bind_Ok in Hx as (name2&Hname%map_err_Ok&Hx). apply bind_Ok in Hx as (version1&_&Hx).
    apply bind_Ok in Hx as (version2&Hversion%map_err_Ok&[= <-]).
    intros n' v'. unfold PeerContext_with, PeerContext. rewrite lookup_insert_Some.
    intros [[<- <-]|[_ ?]]; [|by apply Hc1].
    split; [by eapply name_from_str_ok|by eapply version_from_str_ok].
  - intros n v. unfold PeerContext. by rewrite lookup_empty.
Qed.

(** The persisted contexts are lossless: decoding the canonical text of a peer
    context or of a platform context gives the context back, for every context of
    parsed names and versions and every valid platform; conversely an accepted text
    is canonical (or the empty legacy spelling of the unconstrained platform). *)
Theorem contexts_roundtrip (original : string) :
  (∀ c, peer_ok c → decode_peer_context (canonical_peer_context c) original = Ok c) ∧
  (∀ c, platform_ok c →
    decode_platform_context (canonical_platform_context c) original = Ok c) ∧
  (∀ value c, decode_peer_context value original = Ok c →
    peer_ok c ∧ value = canonical_peer_context c) ∧
  (∀ value c, decode_platform_context value original = Ok c →
    (value = "" ∧ c = PlatformContext_none) ∨
    (platform_ok c ∧ value = canonical_platform_context c)).
Proof.
  split_and!.
  - intros c. apply decode_canonical_peer.
  - intros c. apply decode_canonical_platform.
  - intros value c. apply decode_peer_Ok.
  - intros value c. apply decode_platform_Ok.
Qed.

(** *** Workspace sources *)
Definition workspace_ok (w : LocalWorkspaceSource) : Prop :=
  LocalWorkspaceSource_new (ws_path w) (ws_name w) (ws_version w) = Ok w.
Lemma LocalWorkspaceSource_new_Ok path name version w :
  LocalWorkspaceSource_new path name version = Ok w →
  ∃ n v, canonical_path (ws_path w) ∧ name_ok n ∧ version_ok v ∧
    ws_name w = name_str n ∧ ws_version w = PackageVersion_display v.
Proof.
  unfold LocalWorkspaceSource_new. intros (path'&Hpath&H)%bind_Ok.
  apply bind_Ok in H as (n&Hn%map_err_Ok&H). apply bind_Ok in H as (v&Hv%map_err_Ok&[= <-]).
  exists n, v. split_and!; [by eapply canonical_workspace_path_Ok| |by eapply version_from_str_ok|done..].
  by eapply name_from_str_ok.
Qed.
Lemma workspace_ok_intro w n v :
  canonical_path (ws_path w) → name_ok n → version_ok v →
  ws_name w = name_str n → ws_version w = PackageVersion_display v → workspace_ok w.
Proof.
  intros Hp Hn Hv Hname Hversion. unfold workspace_ok, LocalWorkspaceSource_new.
  rewrite canonical_path_fixed by done. simpl. rewrite Hname, Hversion, Hn. simpl.
  rewrite Hv. simpl. destruct w; simpl in *. by subst.
Qed.
Lemma workspace_new_ok path name version w :
  LocalWorkspaceSource_new path name version = Ok w → workspace_ok w.
Proof.
  intros (n&v&Hp&Hn&Hv&H1&H2)%LocalWorkspaceSource_new_Ok. by eapply workspace_ok_intro.
Qed.
Lemma workspace_parts w :
  workspace_ok w → ∃ n v, canonical_path (ws_path w) ∧ name_ok n ∧ version_ok v ∧
    ws_name w = name_str n ∧ ws_version w = PackageVersion_display v.
Proof. by intros (n&v&?)%LocalWorkspaceSource_new_Ok; exists n, v. Qed.
Lemma workspace_from_identity w :
  workspace_ok w → LocalWorkspaceSource_from_str (workspace_identity w) = Ok w.
Proof.
  intros Hw. destruct (workspace_parts w Hw) as (n&v&_&Hn&Hv&Hname&Hversion).
  unfold LocalWorkspaceSource_from_str.
  assert (strip_prefix "workspace:" (workspace_identity w) =
    Some (ws_path w +:+ String ":" (ws_name w +:+ String "@" (ws_version w)))) as ->.
  { apply strip_prefix_app. }
  cbn [ok_or mbind result_bind]. rewrite rsplit_once_app.
  2:{ rewrite contains_char_app, contains_char_cons, Hname, Hversion.
      by rewrite name_text_free, version_free. }
  cbn [ok_or mbind result_bind]. rewrite rsplit_once_app.
  2:{ rewrite Hversion. by apply version_free. }
  cbn [ok_or mbind result_bind]. rewrite Hw. cbn [mbind result_bind].
  by rewrite str_eqb_refl.
Qed.
Lemma workspace_identity_free w : workspace_ok w → contains_char "|" (workspace_identity w) = false.
Proof.
  intros Hw. destruct (workspace_parts w Hw) as (n&v&(parts&Hpath&_&Hp)&Hn&Hv&Hname&Hversion).
  unfold workspace_identity. rewrite !contains_char_app, Hpath, Hname, Hversion.
  rewrite name_text_free, version_free, contains_char_join by done. simpl. rewrite !orb_false_r.
  apply existsb_false. eapply Forall_impl; [exact Hp|]. intros x (_&Hx&_).
  rewrite Forall_forall in Hx. apply Hx. set_solver.
Qed.

Lemma registry_source_inv text s o :
  PackageSource_from_str text = Ok s → source_registry s = Some o →
  RegistryOrigin_from_str text = Ok o ∧ s = source_of_registry o.
Proof.
  unfold PackageSource_from_str. destruct (strip_prefix "file:" text).
  { by intros (?&?&_&_&_&->)%file_source_inv. }
  destruct (strip_prefix "git+" text).
  { by intros (?&?&?&_&_&_&->&_)%git_source_inv. }
  intros (o'&Ho&->)%fmap_Ok. simpl. by intros [= ->].
Qed.

(** *** Package keys *)
Definition source_ok (s : LockfilePackageSource) : Prop :=
  match s with
  | Registry o => RegistryOrigin_from_str (origin_str o) = Ok o
  | Copied c => PackageSource_from_str (identity c) = Ok c ∧ source_registry c = None
  | Workspace w => workspace_ok w
  end.
Record key_ok (k : LockfilePackageKey) : Prop := {
  ko_source : source_ok (key_source k);
  ko_name : name_ok (key_name k);
  ko_version : version_ok (key_version k);
  ko_peer : ∃ c, peer_ok c ∧ key_peer k = canonical_peer_context c;
  ko_platform : key_platform k = "" ∨
    ∃ c, platform_ok c ∧ key_platform k = canonical_platform_context c;
  ko_workspace : workspace_agrees k = true;
}.

Lemma copied_text_free c :
  PackageSource_from_str (identity c) = Ok c → source_registry c = None →
  contains_char "|" (identity c) = false ∧
  (starts_with "file:" (identity c) || starts_with "git+" (identity c) = true) ∧
  starts_with "workspace:" (identity c) = false.
Proof.
  intros Hc Hr. destruct (copied_source_inv _ _ Hc Hr) as [_ [(rest&Hv&Hf)|(rest&Hv&Hg)]]; rewrite Hv.
  - apply file_source_inv in Hf as (path&digest&->&[_ Hpath]&Hd&_). split_and!; [|done..].
    rewrite !contains_char_app, (contains_char_cons "|" "#" digest).
    rewrite Forall_forall in Hpath. rewrite (Hpath "|"%char) by set_solver.
    by rewrite (canonical_digest_free "|" digest) by done.
  - apply git_source_inv in Hg as (repository&commit&digest&->&[_ Hcommit]&Hd&_&Hrepo).
    split_and!; [|done..].
    rewrite !contains_char_app, (contains_char_cons "|" "#"), contains_char_app.
    rewrite (contains_char_cons "|" "!"), Hrepo.
    by rewrite (forallb_contains_char _ "|" commit Hcommit),
      (canonical_digest_free "|" digest) by done.
Qed.
Lemma parse_source_text s :
  source_ok s → parse_source (source_text s) = Ok s ∧ contains_char "|" (source_text s) = false.
Proof.
  unfold parse_source. destruct s as [o|c|w]; cbn [source_ok source_text].
  - intros Ho. destruct (RegistryOrigin_reparse _ _ Ho) as (Hs&Hf&_).
    apply starts_with_true in Hs as [r Hs]. split.
    + assert (starts_with "workspace:" (origin_str o) = false) as -> by by rewrite Hs.
      assert (starts_with "file:" (origin_str o) = false) as -> by by rewrite Hs.
      assert (starts_with "git+" (origin_str o) = false) as -> by by rewrite Hs.
      simpl. rewrite Ho. simpl. by rewrite str_eqb_refl.
    + apply contains_any_false in Hf. rewrite Forall_forall in Hf. apply Hf. set_solver.
  - intros [Hc Hr]. destruct (copied_text_free c Hc Hr) as (Hf&Hp&Hw).
    unfold source_as_str. rewrite Hw, Hp, Hc. done.
  - intros Hw. split; [|by apply workspace_identity_free].
    assert (starts_with "workspace:" (workspace_identity w) = true) as ->.
    { apply starts_with_app. }
    by rewrite workspace_from_identity.
Qed.
Lemma parse_source_ok text s : parse_source text = Ok s → source_ok s ∧ source_text s = text.
Proof.
  unfold parse_source. destruct (starts_with "workspace:" text).
  - intros (w&Hw&->)%fmap_Ok. simpl. unfold LocalWorkspaceSource_from_str in Hw.
    apply bind_Ok in Hw as (rest&_&Hw). apply bind_Ok in Hw as ([path package]&_&Hw).
    apply bind_Ok in Hw as ([name version]&_&Hw). apply bind_Ok in Hw as (w'&Hnew&Hw).
    apply bind_Ok in Hw as (_&Heq%ensure_Ok%str_eqb_true&[= <-]).
    split; [by eapply workspace_new_ok|done].
  - destruct (starts_with "file:" text || starts_with "git+" text) eqn:Hp.
    + intros (c&Hc%map_err_Ok&->)%fmap_Ok. simpl.
      assert (source_registry c = None) as Hr.
      { unfold PackageSource_from_str in Hc. unfold starts_with in Hp.
        destruct (strip_prefix "file:" text) as [rest|].
        { by apply file_source_inv in Hc as (?&?&_&_&_&->). }
        destruct (strip_prefix "git+" text) as [rest|]; [|done].
        by apply git_source_inv in Hc as (?&?&?&_&_&_&->&_). }
      destruct (copied_source_inv _ _ Hc Hr) as [-> _]. done.
    + intros (o&Ho%map_err_Ok&H)%bind_Ok.
      destruct (str_eqb (origin_str o) text) eqn:Heq; [|done]. injection H as <-.
      apply str_eqb_true in Heq as <-. done.
Qed.

(** The bytes of an encoded context. *)
Definition context_byte (a : ascii) : bool :=
  encoded_byte a || ascii_eqb a "=" || ascii_eqb a ";" || ascii_eqb a ",".
Lemma encode_context_bytes s : str_forallb context_byte (encode s) = true.
Proof.
  eapply str_forallb_impl; [|apply encode_bytes]. intros a Ha. unfold context_byte. by rewrite Ha.
Qed.
Lemma peer_item_bytes entry : str_forallb context_byte (peer_item entry) = true.
Proof. unfold peer_item. by rewrite !str_forallb_app, !encode_context_bytes. Qed.
Lemma canonical_peer_bytes c : str_forallb context_byte (canonical_peer_context c) = true.
Proof.
  unfold canonical_peer_context. induction (btree_iter c) as [|e l IH]; [done|]. simpl.
  destruct (list_fmap _ _ peer_item l) as [|x k] eqn:Hl; [apply peer_item_bytes|].
  rewrite !str_forallb_app, peer_item_bytes. simpl in *. unfold fmap in IH. by rewrite Hl in IH.
Qed.
Lemma canonical_platform_bytes c : str_forallb context_byte (canonical_platform_context c) = true.
Proof.
  assert (∀ field, str_forallb context_byte (from_option encode "" field) = true) as Hf.
  { intros [s|]; [apply encode_context_bytes|done]. }
  unfold canonical_platform_context. by rewrite !str_forallb_app, !Hf.
Qed.
Lemma context_no_whitespace s :
  str_forallb context_byte s = true → chars_any char_is_whitespace s = false.
Proof.
  intros Hs. rewrite chars_any_forallb, negb_false_iff, chars_of_ascii.
  - eapply str_forallb_impl; [|exact Hs]. by intros [[] [] [] [] [] [] [] []].
  - eapply str_forallb_impl; [|exact Hs]. by intros [[] [] [] [] [] [] [] []].
Qed.
(** A context field parses back from its printed form. *)
Lemma parse_context_dash prefix c original :
  str_forallb context_byte c = true →
  parse_context (prefix +:+ context_or_dash c) prefix original = Ok c ∧
  (contains_char "|" prefix = false →
   contains_char "|" (prefix +:+ context_or_dash c) = false).
Proof.
  intros Hc. split.
  - unfold parse_context. rewrite strip_prefix_app. unfold context_or_dash.
    destruct (is_empty c) eqn:E; [by apply is_empty_true in E as ->|]. rewrite E.
    destruct (str_eqb c "-") eqn:E'; [by apply str_eqb_true in E' as ->|]. simpl.
    by rewrite context_no_whitespace.
  - intros Hp. rewrite contains_char_app, Hp. unfold context_or_dash. simpl.
    destruct (is_empty c); [done|]. by apply (forallb_contains_char context_byte).
Qed.

Lemma key_ok_contexts k original :
  key_ok k →
  (∃ c, decode_peer_context (key_peer k) original = Ok c) ∧
  (∃ c, decode_platform_context (key_platform k) original = Ok c) ∧
  str_forallb context_byte (key_peer k) = true ∧
  str_forallb context_byte (key_platform k) = true.
Proof.
  intros [_ _ _ (c&Hc&->) Hplat _]. split_and!.
  - exists c. by apply decode_canonical_peer.
  - destruct Hplat as [->|(p&Hp&->)]; [by eexists|exists p; by apply decode_canonical_platform].
  - apply canonical_peer_bytes.
  - destruct Hplat as [->|(p&_&->)]; [done|apply canonical_platform_bytes].
Qed.
Lemma key_parts k :
  key_ok k →
  split "|" (key_display k) =
    [source_text (key_source k);
     name_str (key_name k) +:+ String "@" (PackageVersion_display (key_version k));
     "peer=" +:+ context_or_dash (key_peer k); "platform=" +:+ context_or_dash (key_platform k)].
Proof.
  intros Hk. destruct (key_ok_contexts k "" Hk) as (_&_&Hpeer&Hplat).
  destruct Hk as [Hs Hn Hv _ _ _].
  unfold key_display, key_text, PackageName_display.
  change ("|" +:+ ?x) with (String "|" x). change ("@" +:+ ?x) with (String "@" x).
  change ("|peer=" +:+ ?x) with (String "|" ("peer=" +:+ x)).
  change ("|platform=" +:+ ?x) with (String "|" ("platform=" +:+ x)).
  rewrite split_app by (by apply parse_source_text). f_equal.
  assert (name_str (key_name k) +:+ String "@" (PackageVersion_display (key_version k) +:+
    String "|" ("peer=" +:+ context_or_dash (key_peer k) +:+
      String "|" ("platform=" +:+ context_or_dash (key_platform k)))) =
    (name_str (key_name k) +:+ String "@" (PackageVersion_display (key_version k))) +:+
    String "|" (("peer=" +:+ context_or_dash (key_peer k)) +:+
      String "|" ("platform=" +:+ context_or_dash (key_platform k)))) as ->.
  { by rewrite !app_assoc', !app_cons. }
  rewrite split_app.
  2:{ rewrite contains_char_app, contains_char_cons. by rewrite name_text_free, version_free. }
  f_equal. rewrite split_app, split_free; [done|..].
  - by apply (parse_context_dash "platform=" (key_platform k) "").
  - by apply (parse_context_dash "peer=" (key_peer k) "").
Qed.

Lemma key_parse_display k : key_ok k → LockfilePackageKey_from_str (key_display k) = Ok k.
Proof.
  intros Hk. unfold LockfilePackageKey_from_str. rewrite key_parts by done.
  destruct (key_ok_contexts k (key_display k) Hk) as ([c Hc]&[p Hp]&Hpeer&Hplat).
  rewrite !starts_with_app. cbn [negb orb].
  destruct Hk as [Hs Hn Hv _ _ Hw].
  rewrite rsplit_once_app by (by apply version_free). cbn [ok_or mbind result_bind].
  rewrite (proj1 (parse_source_text _ Hs)), Hn. cbn [map_err mbind result_bind].
  rewrite Hv. cbn [map_err mbind result_bind].
  rewrite (proj1 (parse_context_dash "peer=" _ (key_display k) Hpeer)).
  cbn [mbind result_bind].
  rewrite (proj1 (parse_context_dash "platform=" _ (key_display k) Hplat)).
  cbn [mbind result_bind].
  rewrite Hc. cbn [mbind result_bind]. rewrite Hp. cbn [mbind result_bind].
  destruct k as [src n v peer plat]. cbn [key_source key_name key_version key_peer key_platform] in *.
  rewrite str_eqb_refl. cbn [ensure mbind result_bind]. by rewrite Hw.
Qed.
Lemma key_from_str_ok value k :
  LockfilePackageKey_from_str value = Ok k → key_ok k ∧ value = key_display k.
Proof.
  unfold LockfilePackageKey_from_str.
  destruct (split "|" value) as [|p0 [|p1 [|p2 [|p3 [|? ?]]]]]; try done.
  destruct (_ || _); [done|]. intros ([name version]&_&H)%bind_Ok.
  apply bind_Ok in H as (source&[Hsource _]%parse_source_ok&H).
  apply bind_Ok in H as (n&[Hn _]%map_err_Ok%name_from_str_ok&H).
  apply bind_Ok in H as (v&Hv%map_err_Ok%version_from_str_ok&H).
  apply bind_Ok in H as (peer&_&H). apply bind_Ok in H as (platform&_&H).
  apply bind_Ok in H as (c&[Hc Hpeer]%decode_peer_Ok&H).
  apply bind_Ok in H as (pc&Hpc%decode_platform_Ok&H).
  apply bind_Ok in H as (_&Heq%ensure_Ok%str_eqb_true&H).
  apply bind_Ok in H as (_&Hw%ensure_Ok&[= <-]).
  split; [|done]. split; simpl; [done..| | |done].
  - by exists c.
  - destruct Hpc as [[-> _]|[? ->]]; [by left|right; by exists pc].
Qed.
Lemma key_display_inj k k' : key_ok k → key_ok k' → key_display k = key_display k' → k = k'.
Proof.
  intros Hk Hk' Heq. apply key_parse_display in Hk, Hk'. rewrite Heq in Hk. congruence.
Qed.

(** C4: the persisted key is an exact identity: parsing accepts precisely the
    printed forms of well-formed keys - canonical origin, copied source or local
    workspace path, parsed name and version, canonical contexts - and returns the
    key that was printed; so distinct well-formed keys have distinct texts. *)
Theorem LockfilePackageKey_roundtrip :
  (∀ value k, LockfilePackageKey_from_str value = Ok k ↔ key_ok k ∧ value = key_display k) ∧
  (∀ k k', key_ok k → key_ok k' → key_display k = key_display k' → k = k').
Proof.
  split; [|apply key_display_inj]. intros value k. split; [apply key_from_str_ok|].
  intros [Hk ->]. by apply key_parse_display.
Qed.

Lemma key_workspace_ok w :
  workspace_ok w → ∃ k, key_workspace w = Some k ∧ key_ok k ∧
    key_source k = Workspace w ∧ name_str (key_name k) = ws_name w ∧
    PackageVersion_display (key_version k) = ws_version w.
Proof.
  intros Hw. destruct (workspace_parts w Hw) as (n&v&_&Hn&Hv&Hname&Hversion).
  unfold key_workspace. rewrite Hname, Hn, Hversion. simpl. rewrite Hv. simpl.
  eexists. split_and!; [done| |done..].
  split; simpl; [done..| | |].
  - exists ∅. split; [|done]. intros ??. unfold PeerContext. by rewrite lookup_empty.
  - right. exists PlatformContext_none. split; [apply platform_none_ok|done].
  - unfold workspace_agrees. simpl. by rewrite Hname, Hversion, !str_eqb_refl.
Qed.

(** Keys built from parsed parts and contexts are well formed: the constructors
    for registry, copied and workspace packages, whose name and version are the
    source's, never fail or panic on validated arguments. *)
Theorem key_constructors_ok n v (peer : PeerContext) (platform : PlatformContext) :
  name_ok n → version_ok v → peer_ok peer → platform_ok platform →
  (∀ source, PackageSource_from_str (source_as_str source) = Ok source →
    key_ok (key_from_source source n v peer platform)) ∧
  (∀ w, workspace_ok w → ∃ k, key_workspace w = Some k ∧ key_ok k ∧
    key_source k = Workspace w ∧ name_str (key_name k) = ws_name w ∧
    PackageVersion_display (key_version k) = ws_version w).
Proof.
  intros Hn Hv Hpeer Hplat. split.
  - intros source Hsource. unfold key_from_source, key_with_source.
    split; simpl; [|done..| | |].
    + destruct (source_registry source) as [o|] eqn:Hr; simpl; [|done].
      apply (registry_source_inv _ _ _ Hsource) in Hr as [Ho _]. by apply RegistryOrigin_reparse in Ho as (_&_&?&_).
    + by exists peer.
    + right. by exists platform.
    + by destruct (source_registry source).
  - apply key_workspace_ok.
Qed.
End key_theory.

(** ** Witnesses *)
Definition sample_workspace : LocalWorkspaceSource := mk_workspace "packages/app" "@acme/app" "1.0.0".
Lemma sample_workspace_ok : workspace_ok sample_workspace.
Proof. vm_compute. reflexivity. Qed.
Lemma key_constructors_ok_witness :
  key_ok (key_from_source (source_of_registry (mk_origin "https://registry.npmjs.org"))
    (mk_name "left-pad") (stable 1 3 0) {[mk_name "react" := stable 18 2 0]}
    (mk_platform (Some "linux") None (Some "glibc"))).
Proof.
  apply (key_constructors_ok (mk_name "left-pad") (stable 1 3 0) {[mk_name "react" := stable 18 2 0]}
    (mk_platform (Some "linux") None (Some "glibc"))).
  - reflexivity.
  - by apply stable_ok.
  - intros n v. unfold PeerContext. intros [<- <-]%lookup_singleton_Some. split; [reflexivity|by apply stable_ok].
  - apply platform_new_ok; [reflexivity|].
    intros s. cbn [pc_os pc_cpu pc_libc]. rewrite !elem_of_cons, elem_of_nil.
    intros [[= ->]|[?|[[= ->]|[]]]]; [reflexivity|done|reflexivity].
  - reflexivity.
Defined.
Definition sample_key_text : string :=
  "https://registry.npmjs.org|left-pad@1.3.0|peer=name=react;version=18.2.0|platform=os=linux;cpu=;libc=glibc".
Lemma LockfilePackageKey_roundtrip_witness :
  match LockfilePackageKey_from_str sample_key_text with
  | Ok k => key_ok k ∧ sample_key_text = key_display k
  | Err _ => False
  end.
Proof.
  assert (is_ok (LockfilePackageKey_from_str sample_key_text) = true) as Hok
    by (vm_compute; reflexivity).
  destruct (LockfilePackageKey_from_str sample_key_text) as [k|e] eqn:Hk; [|discriminate Hok].
  exact (proj1 (proj1 LockfilePackageKey_roundtrip sample_key_text k) Hk).
Defined.
Definition sample_platform : PlatformContext := mk_platform (Some "linux") None (Some "glibc").
Lemma contexts_roundtrip_witness :
  decode_platform_context (canonical_platform_context sample_platform) "key" = Ok sample_platform.
Proof.
  apply (contexts_roundtrip "key"). apply platform_new_ok; [reflexivity|].
  intros s. cbn [pc_os pc_cpu pc_libc]. rewrite !elem_of_cons, elem_of_nil.
  intros [[= ->]|[?|[[= ->]|[]]]]; [reflexivity|done|reflexivity].
Defined.
(** An empty platform context is printed in full. *)
Example empty_contexts_text :
  key_display (key_new (mk_origin "https://registry.npmjs.org") (mk_name "is-char") (stable 1 0 0)
    ∅ PlatformContext_none) =
  "https://registry.npmjs.org|is-char@1.0.0|peer=-|platform=os=;cpu=;libc=".
Proof. vm_compute. reflexivity. Qed.
