(* ===== verification/Json.v ===== *)
(** * JSON documents and serde's derived struct codecs

    JSON values as trees, the [serde_json] printer and parser as a class with its
    round-trip law, and the behaviour of [#[derive(Serialize, Deserialize)]] on
    structs - absent, defaulted, duplicate and unknown fields, objects and positional
    arrays - which the attributes of the lockfile records select.  A concrete codec
    instantiates the class. *)
From Stdlib Require Import SpecFloat.
From S2P Require Import Prelude Order RustStr.

Inductive json :=
| JNull
| JBool (b : bool)
| JNumber (n : Z)
| JFloat (f64 : spec_float)            (* a finite [f64] *)
| JString (s : string)
| JArray (l : list json)
| JObject (fields : list (string * json)).

Definition json_depth : nat := 127.
Definition newline : string := String (ascii_of_N 10) "".

Class JsonCodec : Type := {
  json_pretty : json → string;             (* [serde_json::to_string_pretty] *)
  json_parse : string → option json;       (* [serde_json::from_str::<Value>] *)
  json_message : string → string;          (* the text of the error for an input *)
  float_exact : spec_float → bool;         (* the printed double reads back as itself: without
                                              the feature [float_roundtrip] not every one does *)
}.
(** Values that [serde_json] prints and reads back exactly: integers in range, doubles that
    survive, and a nesting below its recursion limit of 128. *)
Fixpoint json_ok `{JsonCodec} (depth : nat) (v : json) : bool :=
  match depth with
  | O => false
  | S depth =>
      match v with
      | JNumber n => (- 2 ^ 63 <=? n)%Z && (n <=? u64_max)%Z
      | JFloat x => float_exact x
      | JArray l => forallb (json_ok depth) l
      | JObject fields => forallb (λ kv, json_ok depth kv.2) fields
      | _ => true
      end
  end.
Class JsonLaws `{JsonCodec} : Prop := {
  json_parse_pretty v : json_ok json_depth v = true →
    json_parse (json_pretty v +:+ newline) = Some v;
}.

(** [serde_json::to_string] and [Value::to_string]. *)
Class JsonCompact : Type := { json_compact : json → string }.
Class JsonCompactLaws `{JsonCodec} `{JsonCompact} : Prop := {
  json_parse_compact v : json_ok json_depth v = true → json_parse (json_compact v) = Some v;
}.

(** ** [serde_json::Value]
    Objects are [BTreeMap]s: sorted keys, the last of several equal ones. *)
Fixpoint to_value (v : json) : json :=
  match v with
  | JArray l => JArray (to_value <$> l)
  | JObject fields =>
      JObject (btree_iter (btree_collect ((λ kv, (kv.1, to_value kv.2)) <$> fields)))
  | v => v
  end.
Definition parse_value `{JsonCodec} (input : string) : option json := to_value <$> json_parse input.
Definition as_object (v : json) : option (gmap string json) :=
  match v with JObject fields => Some (btree_collect fields) | _ => None end.
Definition as_str (v : json) : option string := match v with JString s => Some s | _ => None end.
Definition as_bool (v : json) : option bool := match v with JBool b => Some b | _ => None end.
(** [value.get(key)] *)
Definition value_get (key : string) (v : json) : option json := object ← as_object v; object !! key.
(** [serde_json::to_value] of a map, and the map read back. *)
Definition of_object (m : gmap string json) : json := JObject (btree_iter m).

(** ** Derived deserialization of structs *)
(** A field without attribute, one with [#[serde(default)]], and an [Option] field
    without attribute, which may be absent from an object. *)
Inductive presence := Required | Defaulted | Optional.
Definition object_field (fields : list (string * json)) (spec : string * presence) :
    option (option json) :=
  match base.filter (λ kv, kv.1 = spec.1) fields with
  | [] => match spec.2 with Required => None | _ => Some None end
  | [(_, v)] => Some (Some v)
  | _ => None
  end.
Fixpoint array_fields (specs : list (string * presence)) (l : list json) :
    option (list (option json)) :=
  match specs, l with
  | [], [] => Some []
  | [], _ :: _ => None
  | spec :: specs, v :: l => rest ← array_fields specs l; Some (Some v :: rest)
  | spec :: specs, [] =>
      match spec.2 with
      | Defaulted => rest ← array_fields specs []; Some (None :: rest)
      | _ => None
      end
  end.
Definition struct_fields (deny_unknown : bool) (specs : list (string * presence)) (v : json) :
    option (list (option json)) :=
  match v with
  | JObject fields =>
      if deny_unknown && negb (forallb (λ kv, bool_decide (kv.1 ∈ specs.*1)) fields) then None
      else mapM (object_field fields) specs
  | JArray l => array_fields specs l
  | _ => None
  end.

(** ** Scalars and collections *)
Definition read_string (v : json) : option string :=
  match v with JString s => Some s | _ => None end.
Definition u32_max : Z := 2 ^ 32 - 1.
Definition read_u32 (v : json) : option Z :=
  match v with
  | JNumber n => if (0 <=? n)%Z && (n <=? u32_max)%Z then Some n else None
  | _ => None
  end.
Definition read_option {A} (read : json → option A) (v : json) : option (option A) :=
  match v with JNull => Some None | v => Some <$> read v end.
Definition read_bool (v : json) : option bool :=
  match v with JBool b => Some b | _ => None end.
Definition read_vec {A} (read : json → option A) (v : json) : option (list A) :=
  match v with JArray l => mapM read l | _ => None end.
Definition read_map {A} (read : json → option A) (v : json) : option (gmap string A) :=
  match v with
  | JObject fields =>
      btree_collect <$> mapM (λ kv, value ← read kv.2; Some (kv.1, value)) fields
  | _ => None
  end.
(** A present field is read, an absent one takes the default. *)
Definition read_field {A} (read : json → option A) (d : option A) (field : option json) : option A :=
  match field with Some v => read v | None => d end.

(** ** Derived serialization *)
Definition write_map {A} (write : A → json) (m : gmap string A) : json :=
  JObject ((λ kv, (kv.1, write kv.2)) <$> btree_iter m).
Definition write_strings (l : list string) : json := JArray (JString <$> l).
(** A struct field, present or skipped by [skip_serializing_if]. *)
Definition field (name : string) (v : json) : string * option json := (name, Some v).
Definition field_unless (skip : bool) (name : string) (v : json) : string * option json :=
  (name, if skip then None else Some v).
Definition write_struct (entries : list (string * option json)) : json :=
  JObject (omap (λ e, pair e.1 <$> e.2) entries).

(** ** Reading back what was written *)
Section json_lemmas.
Context {A : Type} (read : json → option A) (write : A → json).

Lemma mapM_write (P : A → Prop) l :
  (∀ x, P x → read (write x) = Some x) → Forall P l → mapM read (write <$> l) = Some l.
Proof.
  intros Hrw. induction 1 as [|x l Hx Hl IH]; [done|].
  rewrite fmap_cons. cbn [mapM]. rewrite Hrw by done. cbn. by rewrite IH.
Qed.
Lemma read_write_map (P : A → Prop) (m : gmap string A) :
  (∀ x, P x → read (write x) = Some x) → (∀ k x, m !! k = Some x → P x) →
  read_map read (write_map write m) = Some m.
Proof.
  intros Hrw Hm. unfold read_map, write_map.
  assert (Forall (λ kv, P kv.2) (btree_iter m)) as HP.
  { apply Forall_forall. intros [k x] ?%elem_of_btree_iter. by eapply Hm. }
  assert (mapM (λ kv, value ← read kv.2; Some (kv.1, value))
    ((λ kv, (kv.1, write kv.2)) <$> btree_iter m) = Some (btree_iter m)) as ->.
  { induction HP as [|[k x] l Hx Hl IH]; [done|].
    rewrite fmap_cons. cbn [mapM fst snd]. rewrite Hrw by done. cbn. by rewrite IH. }
  simpl. by rewrite btree_collect_iter.
Qed.
End json_lemmas.
Lemma read_write_strings l : read_vec read_string (write_strings l) = Some l.
Proof. apply (mapM_write _ _ (λ _, True)); [done|]. by apply Forall_true. Qed.
Lemma read_write_string_map (m : gmap string string) :
  read_map read_string (write_map JString m) = Some m.
Proof. by apply (read_write_map _ _ (λ _, True)). Qed.

Lemma json_ok_map `{JC : JsonCodec} {A} (write : A → json) (m : gmap string A) n :
  (∀ k x, m !! k = Some x → json_ok n (write x) = true) → json_ok (S n) (write_map write m) = true.
Proof.
  intros Hm. simpl. apply forallb_forall. intros [k v] Hin%list_elem_of_In.
  apply list_elem_of_fmap in Hin as ([k' x]&[= -> ->]&Hin%elem_of_btree_iter). simpl. by eapply Hm.
Qed.
Lemma json_ok_strings `{JC : JsonCodec} l n : json_ok (S (S n)) (write_strings l) = true.
Proof.
  simpl. apply forallb_forall. intros v Hin%list_elem_of_In.
  by apply list_elem_of_fmap in Hin as (s&->&_).
Qed.
Lemma json_ok_S `{JC : JsonCodec} n v : json_ok n v = true → json_ok (S n) v = true.
Proof.
  revert v. induction n as [|n IH]; intros v; [done|].
  destruct v as [| | | | |l|l]; simpl; try done.
  - rewrite !forallb_forall. eauto.
  - rewrite !forallb_forall. intros H x Hx. apply IH, H, Hx.
Qed.

(** A written struct reads back field by field. *)
Lemma filter_entries_other name (entries : list (string * option json)) :
  name ∉ entries.*1 →
  base.filter (λ kv, kv.1 = name) (omap (λ e, pair e.1 <$> e.2) entries) = [].
Proof.
  induction entries as [|[n [v|]] l IH]; simpl; [done|..]; rewrite not_elem_of_cons; intros [Hn Hl].
  - rewrite filter_cons_False by done. by apply IH.
  - by apply IH.
Qed.
Lemma object_field_entries pre name v post presence :
  name ∉ pre.*1 → name ∉ post.*1 → (presence = Required → is_Some v) →
  object_field (omap (λ e, pair e.1 <$> e.2) (pre ++ (name, v) :: post)) (name, presence) = Some v.
Proof.
  intros Hpre Hpost Hv. unfold object_field. cbn [fst snd].
  rewrite omap_app, filter_app, filter_entries_other by done. simpl.
  destruct v as [v|]; simpl.
  - rewrite filter_cons_True by done. by rewrite filter_entries_other.
  - rewrite filter_entries_other by done. destruct presence; [|done..].
    by destruct Hv as [? ?].
Qed.
Lemma struct_fields_entries deny specs (entries : list (string * option json)) :
  NoDup entries.*1 →
  Forall2 (λ spec e, spec.1 = e.1 ∧ (spec.2 = Required → is_Some e.2)) specs entries →
  struct_fields deny specs (write_struct entries) = Some entries.*2.
Proof.
  intros Hnd Hspecs. unfold struct_fields, write_struct.
  assert (forallb (λ kv, bool_decide (kv.1 ∈ specs.*1)) (omap (λ e, pair e.1 <$> e.2) entries) = true)
    as ->.
  { apply forallb_forall. intros [k v] Hin%list_elem_of_In. simpl. apply bool_decide_eq_true.
    apply list_elem_of_omap in Hin as ([n o]&Hin&Ho). destruct o as [w|]; [|done].
    injection Ho as -> ->. apply list_elem_of_lookup in Hin as [i Hi].
    destruct (Forall2_lookup_r _ _ _ _ _ Hspecs Hi) as ([m pres]&Hm&Heq&_). simpl in Heq.
    apply list_elem_of_fmap. exists (m, pres). split; [done|]. by eapply list_elem_of_lookup_2. }
  rewrite andb_false_r.
  assert (∀ pre post specs, entries = pre ++ post →
    Forall2 (λ spec e, spec.1 = e.1 ∧ (spec.2 = Required → is_Some e.2)) specs post →
    mapM (object_field (omap (λ e, pair e.1 <$> e.2) entries)) specs = Some post.*2) as Hgen.
  { intros pre post. revert pre. induction post as [|[n v] post IH]; intros pre specs' Hl H2.
    - by apply Forall2_nil_inv_r in H2 as ->.
    - apply Forall2_cons_inv_r in H2 as ([m pres]&specs''&[Hm Hpres]&H2&->). simpl in Hm, Hpres.
      subst m. cbn [mapM].
      assert (object_field (omap (λ e, pair e.1 <$> e.2) entries) (n, pres) = Some v) as ->.
      { rewrite Hl in Hnd |- *. rewrite fmap_app, fmap_cons in Hnd.
        apply NoDup_app in Hnd as (_&Hdis&[Hpost _]%NoDup_cons).
        apply object_field_entries; [|done|done]. intros Hin. apply (Hdis n Hin). by left. }
      cbn. rewrite (IH (pre ++ [(n, v)])); [done| |done]. by rewrite <-app_assoc. }
  by apply (Hgen [] entries).
Qed.
Ltac read_struct :=
  rewrite struct_fields_entries;
    [|simpl; repeat (constructor; [set_solver|]); constructor
     |repeat (constructor; [by repeat split; intros; try done; eexists|]); constructor].
Lemma read_field_unless {A} (read : json → option A) (d : A) (skip : bool) v x :
  (skip = true → d = x) → (skip = false → read v = Some x) →
  read_field read (Some d) (if skip then None else Some v) = Some x.
Proof. intros Ht Hf. destruct skip; simpl; [by rewrite Ht|by apply Hf]. Qed.
Lemma read_field_default {A} (read : json → option A) (d x : A) v `{!Decision (x = d)} :
  (x ≠ d → read v = Some x) →
  read_field read (Some d) (if bool_decide (x = d) then None else Some v) = Some x.
Proof. intros Hx. apply read_field_unless; case_bool_decide; [congruence|done|done|auto]. Qed.
Lemma json_ok_struct `{JC : JsonCodec} n (entries : list (string * option json)) :
  Forall (λ e, ∀ v, e.2 = Some v → json_ok n v = true) entries →
  json_ok (S n) (write_struct entries) = true.
Proof.
  intros He. simpl. apply forallb_forall. intros [k v] Hin%list_elem_of_In.
  apply list_elem_of_omap in Hin as ([m o]&Hin&Ho). rewrite Forall_forall in He.
  destruct o as [w|]; [|done]. injection Ho as -> ->. by apply (He _ Hin).
Qed.

(** ** Values *)
Section json_induction.
Context (P : json → Prop).
Context (Hnull : P JNull) (Hbool : ∀ b, P (JBool b)) (Hnumber : ∀ n, P (JNumber n))
  (Hfloat : ∀ x, P (JFloat x)) (Hstring : ∀ s, P (JString s))
  (Harray : ∀ l, Forall P l → P (JArray l))
  (Hobject : ∀ fields, Forall (λ kv : string * json, P kv.2) fields → P (JObject fields)).
Fixpoint json_induction (v : json) : P v :=
  match v with
  | JNull => Hnull
  | JBool b => Hbool b
  | JNumber n => Hnumber n
  | JFloat x => Hfloat x
  | JString s => Hstring s
  | JArray l =>
      Harray l ((fix all (l : list json) : Forall P l :=
        match l with
        | [] => List.Forall_nil P
        | v :: l => List.Forall_cons P v l (json_induction v) (all l)
        end) l)
  | JObject fields =>
      Hobject fields ((fix all (l : list (string * json)) : Forall (λ kv, P kv.2) l :=
        match l with
        | [] => List.Forall_nil (λ kv, P kv.2)
        | kv :: l => List.Forall_cons (λ kv, P kv.2) kv l (json_induction kv.2) (all l)
        end) fields)
  end.
End json_induction.

Lemma to_value_object fields :
  to_value (JObject fields) = of_object (to_value <$> btree_collect fields).
Proof. unfold of_object. rewrite <-btree_collect_fmap. done. Qed.
Lemma to_value_of_object (m : gmap string json) :
  to_value (of_object m) = of_object (to_value <$> m).
Proof. unfold of_object at 1. by rewrite to_value_object, btree_collect_iter. Qed.
(** A value is unchanged by another pass. *)
Lemma to_value_idem v : to_value (to_value v) = to_value v.
Proof.
  induction v as [| | | | |l Hl|fields Hf] using json_induction; try done.
  - simpl. f_equal. induction Hl as [|v l Hv Hl IH]; [done|]. rewrite !fmap_cons. by f_equal.
  - rewrite to_value_object, to_value_of_object. f_equal.
    apply map_eq. intros k. rewrite !lookup_fmap.
    destruct (btree_collect fields !! k) as [v|] eqn:Hv; [|done]. simpl. f_equal.
    apply btree_collect_elem in Hv. rewrite Forall_forall in Hf. exact (Hf _ Hv).
Qed.
Lemma as_object_of_object m : as_object (of_object m) = Some m.
Proof. simpl. by rewrite btree_collect_iter. Qed.
Lemma write_map_of_object {A} (write : A → json) (m : gmap string A) :
  write_map write m = of_object (write <$> m).
Proof. unfold write_map, of_object. by rewrite btree_iter_fmap. Qed.

Lemma fst_unique {A B} (l : list (A * B)) k v w :
  NoDup l.*1 → (k, v) ∈ l → (k, w) ∈ l → v = w.
Proof.
  induction l as [|[k' u] l IH]; simpl; [by intros _ ?%not_elem_of_nil|].
  intros [Hk Hl]%NoDup_cons Hv Hw. apply elem_of_cons in Hv as [Hv|Hv], Hw as [Hw|Hw].
  - congruence.
  - injection Hv as -> ->. destruct Hk. by apply (list_elem_of_fmap_2 fst) in Hw.
  - injection Hw as -> ->. destruct Hk. by apply (list_elem_of_fmap_2 fst) in Hv.
  - by apply IH.
Qed.

(** The object of a written struct, by field. *)
Lemma present_keys (entries : list (string * option json)) :
  NoDup entries.*1 → NoDup (omap (λ e, pair e.1 <$> e.2) entries).*1.
Proof.
  induction entries as [|[n [v|]] l IH]; simpl; [by intros; constructor|..];
    intros [Hn Hl]%NoDup_cons; [|by apply IH].
  constructor; [|by apply IH]. intros Hin. apply Hn.
  apply list_elem_of_fmap in Hin as ([k w]&->&Hin). simpl.
  apply list_elem_of_omap in Hin as ([k' o]&Hin&Ho). destruct o; [|done]. injection Ho as -> ->.
  apply (list_elem_of_fmap_2 fst) in Hin. done.
Qed.
Definition struct_object (entries : list (string * option json)) : gmap string json :=
  to_value <$> btree_collect (omap (λ e, pair e.1 <$> e.2) entries).
Lemma struct_object_lookup entries name o :
  NoDup entries.*1 → (name, o) ∈ entries → struct_object entries !! name = to_value <$> o.
Proof.
  intros Hnd Hin. unfold struct_object. rewrite lookup_fmap. f_equal. destruct o as [v|].
  - apply btree_collect_lookup; [by apply present_keys|].
    apply list_elem_of_omap. by exists (name, Some v).
  - apply btree_collect_None. intros ([k w]&->&Hw)%list_elem_of_fmap.
    apply list_elem_of_omap in Hw as ([k' [w'|]]&Hin'&[= -> ->]). simpl in *.
    by pose proof (fst_unique entries k None (Some w) Hnd Hin Hin').
Qed.
Lemma struct_object_None entries name : name ∉ entries.*1 → struct_object entries !! name = None.
Proof.
  intros Hn. unfold struct_object. rewrite lookup_fmap.
  rewrite (btree_collect_None (omap _ entries)); [done|].
  intros ([k w]&->&Hw)%list_elem_of_fmap.
  apply list_elem_of_omap in Hw as ([k' [w'|]]&Hin'&[= -> ->]).
  apply Hn. by apply (list_elem_of_fmap_2 fst) in Hin'.
Qed.

(** ** A codec: the tree in binary digits *)
Definition leaf : Type := bool + Z + string.
Definition float_leaves (x : spec_float) : list leaf :=
  match x with
  | S754_zero s => [inl (inl s)]
  | S754_infinity s => [inl (inl s); inl (inl s)]
  | S754_nan => []
  | S754_finite s m e => [inl (inl s); inl (inr (Zpos m)); inl (inr e)]
  end.
Definition leaves_float (l : list leaf) : spec_float :=
  match l with
  | [inl (inl s)] => S754_zero s
  | [inl (inl s); inl (inl _)] => S754_infinity s
  | [inl (inl s); inl (inr (Zpos m)); inl (inr e)] => S754_finite s m e
  | _ => S754_nan
  end.
Fixpoint json_tree (v : json) : gen_tree leaf :=
  match v with
  | JNull => GenNode 0 []
  | JBool b => GenLeaf (inl (inl b))
  | JNumber n => GenLeaf (inl (inr n))
  | JString s => GenLeaf (inr s)
  | JFloat x => GenNode 1 (GenLeaf <$> float_leaves x)
  | JArray l => GenNode 2 (json_tree <$> l)
  | JObject fields => GenNode 3 ((λ kv, GenNode 0 [GenLeaf (inr kv.1); json_tree kv.2]) <$> fields)
  end.
Fixpoint tree_json (t : gen_tree leaf) : json :=
  match t with
  | GenLeaf (inl (inl b)) => JBool b
  | GenLeaf (inl (inr n)) => JNumber n
  | GenLeaf (inr s) => JString s
  | GenNode 1 l => JFloat (leaves_float (omap (λ t, match t with GenLeaf x => Some x | _ => None end) l))
  | GenNode 2 l => JArray (tree_json <$> l)
  | GenNode 3 l =>
      JObject (omap (λ t, match t with
                          | GenNode _ [GenLeaf (inr k); v] => Some (k, tree_json v)
                          | _ => None
                          end) l)
  | _ => JNull
  end.
Fixpoint json_depth_of (v : json) : nat :=
  match v with
  | JArray l => S (max_list (json_depth_of <$> l))
  | JObject fields => S (max_list ((λ kv, json_depth_of kv.2) <$> fields))
  | _ => 0
  end.
Lemma tree_json_tree v : tree_json (json_tree v) = v.
Proof.
  enough (∀ n v, (json_depth_of v < n)%nat → tree_json (json_tree v) = v) as H by (apply (H (S (json_depth_of v))); lia).
  clear v. intros n. induction n as [|n IH]; [lia|].
  intros [| | |x| |l|l]; cbn [json_depth_of json_tree tree_json]; intros Hv; try done; f_equal.
  - by destruct x.
  - assert (Forall (λ v, json_depth_of v < n)%nat l) as Hl.
    { apply Forall_forall. intros v Hin%(list_elem_of_fmap_2 json_depth_of)%max_list_elem_of_le. lia. }
    clear Hv. induction Hl as [|v l Hv Hl IHl]; [done|]. rewrite !fmap_cons. f_equal; auto.
  - assert (Forall (λ kv : string * json, json_depth_of kv.2 < n)%nat l) as Hl.
    { apply Forall_forall.
      intros v Hin%(list_elem_of_fmap_2 (λ kv, json_depth_of kv.2))%max_list_elem_of_le. lia. }
    clear Hv. induction Hl as [|[k v] l Hv Hl IHl]; [done|].
    rewrite fmap_cons. simpl in *. f_equal; [|done]. f_equal. auto.
Qed.
Fixpoint bits (p : positive) : string :=
  match p with xH => "" | xO p => String "0" (bits p) | xI p => String "1" (bits p) end.
Fixpoint unbits (s : string) : positive :=
  match s with
  | String c s =>
      if ascii_eqb c "0" then xO (unbits s) else if ascii_eqb c "1" then xI (unbits s) else xH
  | "" => xH
  end.
Lemma unbits_bits p : unbits (bits p +:+ newline) = p.
Proof. induction p as [p IH|p IH|]; simpl; by rewrite ?IH. Qed.
#[export] Instance sample_json : JsonCodec := {|
  json_pretty v := bits (encode (json_tree v));
  json_parse s := tree_json <$> decode (unbits s);
  json_message _ := "unexpected input";
  float_exact _ := true;
|}.
#[export] Instance sample_json_laws : JsonLaws.
Proof.
  split. intros v _. cbn [json_parse json_pretty sample_json].
  rewrite unbits_bits, decode_encode. simpl. by rewrite tree_json_tree.
Qed.
#[export] Instance sample_json_compact : JsonCompact := {| json_compact := json_pretty |}.
#[export] Instance sample_compact_laws : JsonCompactLaws.
Proof.
  split. intros v _. cbn [json_parse json_compact json_pretty sample_json sample_json_compact].
  assert (∀ p, unbits (bits p) = p) as -> by (intros p; induction p as [p IH|p IH|]; simpl; by rewrite ?IH).
  rewrite decode_encode. simpl. by rewrite tree_json_tree.
Qed.
