(* ===== verification/JsonValue.v ===== *)
(** * What strict readers see of a JSON value

    Values that say the same up to the precision of numbers, as a canonical text preserves
    them, and the derived readers of [Json] on them: a document that is read into a struct is
    read the same from its [Value], and from any value that says the same. *)
From Stdlib Require Import SpecFloat.
From S2P Require Import Prelude Order RustStr Json.

(** ** Numbers
    Canonical texts write every number as a double: an integer as the double nearest to it,
    the even one of two.  A number has the value [m * 2 ^ e]. *)
Definition exact_max : Z := 9007199254740991.
(** The integer nearest to [n], in magnitude, with 53 significant bits. *)
Definition nearest_double (n : Z) : Z :=
  let drop := (Z.log2 n - 52)%Z in
  if (n <=? exact_max)%Z then n else
  let ulp := (2 ^ drop)%Z in
  let q := (n / ulp)%Z in
  let twice := (2 * (n mod ulp))%Z in
  let up := (ulp <? twice)%Z || ((twice =? ulp)%Z && Z.odd q) in
  ((if up then q + 1 else q) * ulp)%Z.
Definition number_value (v : json) : option (Z * Z) :=
  match v with
  | JNumber n => Some ((Z.sgn n * nearest_double (Z.abs n))%Z, 0%Z)
  | JFloat (S754_zero _) => Some (0%Z, 0%Z)
  | JFloat (S754_finite sign m e) => Some ((if sign then Zneg m else Zpos m), e)
  | _ => None
  end.
(** [m * 2 ^ e] and [m' * 2 ^ e'] are the same number. *)
Definition same_dyadic (x y : Z * Z) : Prop :=
  let low := Z.min x.2 y.2 in (x.1 * 2 ^ (x.2 - low) = y.1 * 2 ^ (y.2 - low))%Z.
Definition is_number (v : json) : bool := match v with JNumber _ | JFloat _ => true | _ => false end.
(** Numbers that canonical texts do not tell apart. *)
Definition same_number (v w : json) : Prop :=
  is_number v = true ∧ (v = w ∨ ∃ x y, number_value v = Some x ∧ number_value w = Some y ∧ same_dyadic x y).
Lemma same_number_exact m n :
  same_number (JNumber m) (JNumber n) → (Z.abs m <= exact_max)%Z → (Z.abs n <= exact_max)%Z → m = n.
Proof.
  intros [_ [[= ->]|(x&y&[= <-]&[= <-]&H)]] Hm Hn; [done|]. unfold same_dyadic in H. cbn in H. unfold nearest_double in H.
  rewrite !(proj2 (Z.leb_le _ _)) in H by done. rewrite !Z.mul_1_r in H. by rewrite !Z.sgn_abs in H || lia.
Qed.
Lemma same_number_inv v w : same_number v w → is_number v = true ∧ is_number w = true.
Proof. intros [Hv [<-|(x&y&_&Hw&_)]]; [done|]. split; [done|]. by destruct w. Qed.
Example half_is_not_one : ¬ same_number (JFloat (S754_finite false (2 ^ 52) (-53))) (JNumber 1).
Proof. intros [_ [|(x&y&[= <-]&[= <-]&H)]]; [done|]. vm_compute in H. discriminate H. Qed.
Example one_is_one : same_number (JFloat (S754_finite false (2 ^ 52) (-52))) (JNumber 1).
Proof. split; [done|]. right. eexists _, _. split_and!; [done..|]. vm_compute. reflexivity. Qed.
Example large_integers : same_number (JNumber (2 ^ 53)) (JNumber (2 ^ 53 + 1)).
Proof. split; [done|]. right. eexists _, _. split_and!; [done..|]. vm_compute. reflexivity. Qed.
Definition same_entry (same : json → json → Prop) (a b : string * json) : Prop := a.1 = b.1 ∧ same a.2 b.2.
Inductive same_value : json → json → Prop :=
| same_null : same_value JNull JNull
| same_bool b : same_value (JBool b) (JBool b)
| same_numbers v w : same_number v w → same_value v w
| same_string s : same_value (JString s) (JString s)
| same_array l k : Forall2 same_value l k → same_value (JArray l) (JArray k)
| same_object l k : Forall2 (λ a b, a.1 = b.1 ∧ same_value a.2 b.2) l k → same_value (JObject l) (JObject k).

(** ** Inversion *)
Lemma same_string_inv s w : same_value (JString s) w → w = JString s.
Proof. inversion 1 as [| |? ? [Hn _]| | |]; [done|done]. Qed.
Lemma same_null_inv w : same_value JNull w → w = JNull.
Proof. inversion 1 as [| |? ? [Hn _]| | |]; [done|done]. Qed.
Lemma same_array_inv l w : same_value (JArray l) w → ∃ k, w = JArray k ∧ Forall2 same_value l k.
Proof. inversion 1 as [| |? ? [Hn _]| | |]; [done|eauto]. Qed.
Lemma same_object_inv l w : same_value (JObject l) w →
  ∃ k, w = JObject k ∧ Forall2 (same_entry same_value) l k.
Proof. inversion 1 as [| |? ? [Hn _]| | |]; [done|eauto]. Qed.
Lemma same_value_refl v : same_value v v.
Proof.
  induction v as [| |n|s| |l Hl|l Hl] using json_induction.
  - constructor.
  - constructor.
  - apply same_numbers. split; [done|by left].
  - apply same_numbers. split; [done|by left].
  - apply same_string.
  - apply same_array. induction Hl; by constructor.
  - apply same_object. induction Hl; by constructor.
Qed.

(** ** Fields by their name *)
Lemma filter_no_key (l : list (string * json)) k :
  base.filter (λ kv, kv.1 = k) l = [] ↔ k ∉ l.*1.
Proof.
  induction l as [|[k' v] l IH]; simpl; [split; [intros _; apply not_elem_of_nil|done]|].
  rewrite not_elem_of_cons. destruct (decide (k' = k)) as [->|Hk].
  - rewrite filter_cons_True by done. split; [done|by intros []].
  - rewrite filter_cons_False by done. rewrite IH. naive_solver.
Qed.
Lemma filter_key (l : list (string * json)) k v :
  NoDup l.*1 → (k, v) ∈ l → base.filter (λ kv, kv.1 = k) l = [(k, v)].
Proof.
  induction l as [|[k' v'] l IH]; simpl; [by intros _ ?%not_elem_of_nil|].
  intros [Hk Hl]%NoDup_cons [[= <- <-]|Hin]%elem_of_cons.
  - rewrite filter_cons_True by done. f_equal. by apply filter_no_key.
  - rewrite filter_cons_False; [by apply IH|]. simpl. intros ->. by apply (list_elem_of_fmap_2 fst) in Hin.
Qed.
Lemma filter_collect (l : list (string * json)) k k' v :
  base.filter (λ kv, kv.1 = k) l = [(k', v)] → btree_collect l !! k = Some v.
Proof.
  intros Hl. assert ((k', v) ∈ base.filter (λ kv, kv.1 = k) l) as [Hk Hin]%list_elem_of_filter by (rewrite Hl; by left).
  simpl in Hk. subst k'. apply btree_collect_is_Some in Hin as [w Hw]. rewrite Hw. f_equal.
  apply btree_collect_elem in Hw. assert ((k, w) ∈ base.filter (λ kv, kv.1 = k) l) as Hf by by apply list_elem_of_filter.
  rewrite Hl in Hf. apply list_elem_of_singleton in Hf. congruence.
Qed.
Lemma filter_iter (m : gmap string json) k :
  base.filter (λ kv, kv.1 = k) (btree_iter m) = match m !! k with Some v => [(k, v)] | None => [] end.
Proof.
  destruct (m !! k) as [v|] eqn:Hk.
  - apply filter_key; [apply sorted_lt_NoDup, btree_keys_ascending|by apply elem_of_btree_iter].
  - apply filter_no_key. change (k ∉ btree_keys m). rewrite elem_of_btree_keys, Hk. by intros [].
Qed.

(** ** Reading from a [Value] *)
Notation valued := (λ o : option json, to_value <$> o).
Lemma object_field_to_value fields spec o :
  object_field fields spec = Some o →
  object_field (btree_iter (to_value <$> btree_collect fields)) spec = Some (to_value <$> o).
Proof.
  unfold object_field. rewrite filter_iter, lookup_fmap. destruct (base.filter _ fields) as [|[k v] [|]] eqn:Hf.
  - rewrite btree_collect_None by by apply filter_no_key. destruct spec.2; [done|by intros [= <-]..].
  - rewrite (filter_collect _ _ _ _ Hf). by intros [= <-].
  - done.
Qed.
Lemma array_fields_to_value specs l fs :
  array_fields specs l = Some fs → array_fields specs (to_value <$> l) = Some (valued <$> fs).
Proof.
  revert l fs. induction specs as [|spec specs IH]; intros [|v l] fs; simpl; try done; [by intros [= <-]| |].
  - destruct spec.2; try done. intros (rest&E&[= <-])%bind_Some. pose proof (IH [] rest E) as H. cbn in H.
    rewrite E in H. injection H as Hr. rewrite E. cbn. by rewrite <-Hr.
  - intros (rest&E&[= <-])%bind_Some. apply bind_Some. exists (valued <$> rest). split; [by apply IH|done].
Qed.
Lemma mapM_Some_map {A B C} (f : A → option B) (g : A → option C) (h : B → C) (l : list A) (k : list B) :
  (∀ x y, f x = Some y → g x = Some (h y)) → mapM f l = Some k → mapM g l = Some (h <$> k).
Proof.
  intros Hfg. revert k. induction l as [|x l IH]; intros k; [by intros [= <-]|]. cbn [mapM].
  intros (y&Hy&(ys&Hys&[= <-])%bind_Some)%bind_Some. rewrite (Hfg _ _ Hy). cbn. by rewrite (IH _ Hys).
Qed.
Lemma struct_fields_to_value deny specs v fs :
  struct_fields deny specs v = Some fs → struct_fields deny specs (to_value v) = Some (valued <$> fs).
Proof.
  destruct v as [| | | | |l|fields]; try done; [apply array_fields_to_value|].
  rewrite to_value_object. unfold struct_fields, of_object.
  destruct (deny && _) eqn:Hd; [done|]. intros Hfs.
  assert (deny && negb (forallb (λ kv, bool_decide (kv.1 ∈ specs.*1)) (btree_iter (to_value <$> btree_collect fields))) = false) as ->.
  { destruct deny; [|done]. simpl in *. apply negb_false_iff in Hd. apply negb_false_iff, forallb_forall.
    intros [k w] Hin%list_elem_of_In%elem_of_btree_iter. rewrite lookup_fmap, fmap_Some in Hin.
    destruct Hin as (u&Hu%btree_collect_elem&->). rewrite forallb_forall in Hd.
    by apply (Hd (k, u)), list_elem_of_In. }
  eapply mapM_Some_map; [|exact Hfs]. apply object_field_to_value.
Qed.

(** ** Reading values that say the same *)
Lemma same_filter k (l l' : list (string * json)) :
  Forall2 (same_entry same_value) l l' →
  Forall2 (same_entry same_value) (base.filter (λ kv, kv.1 = k) l) (base.filter (λ kv, kv.1 = k) l').
Proof.
  induction 1 as [|[a v] [b w] l l' [Hk Hv] Hl IH]; [constructor|]. simpl in Hk. subst b.
  destruct (decide (a = k)); [rewrite !filter_cons_True by done; by constructor|by rewrite !filter_cons_False].
Qed.
Lemma same_object_field l l' spec o o' :
  Forall2 (same_entry same_value) l l' → object_field l spec = Some o → object_field l' spec = Some o' →
  option_Forall2 same_value o o'.
Proof.
  intros Hl%(same_filter spec.1). unfold object_field.
  destruct Hl as [|[a v] [b w] k k' [_ Hv] Hk]; [destruct spec.2; naive_solver constructor|].
  destruct Hk; [|done]. intros [= <-] [= <-]. by constructor.
Qed.
Lemma same_array_fields specs l l' fs fs' :
  Forall2 same_value l l' → array_fields specs l = Some fs → array_fields specs l' = Some fs' →
  Forall2 (option_Forall2 same_value) fs fs'.
Proof.
  intros Hl. revert specs fs fs'. induction Hl as [|v w l l' Hv Hl IH]; intros specs fs fs' H H'.
  - assert (fs = fs') as <- by congruence. clear H'. revert fs H.
    induction specs as [|spec specs IHs]; simpl; intros fs; [intros [= <-]; constructor|].
    destruct spec.2; try done. intros (rest&Hr&[= <-])%bind_Some. constructor; [constructor|by apply IHs].
  - destruct specs as [|spec specs]; [done|]. simpl in H, H'.
    apply bind_Some in H as (rest&Hr&[= <-]). apply bind_Some in H' as (rest'&Hr'&[= <-]).
    constructor; [by constructor|by eapply IH].
Qed.
Lemma same_struct_fields deny specs v w fs gs :
  same_value v w → struct_fields deny specs v = Some fs → struct_fields deny specs w = Some gs →
  Forall2 (option_Forall2 same_value) fs gs.
Proof.
  intros Hs. unfold struct_fields. destruct v as [| | | | |l|l]; try done.
  - apply same_array_inv in Hs as (k&->&Hl). by apply same_array_fields.
  - apply same_object_inv in Hs as (k&->&Hl). destruct (deny && _); [done|]. destruct (deny && _); [done|].
    revert fs gs. induction specs as [|spec specs IH]; intros fs gs; cbn [mapM]; [by intros [= <-] [= <-]|].
    intros (o&Ho&(os&Hos&[= <-])%bind_Some)%bind_Some (o'&Ho'&(os'&Hos'&[= <-])%bind_Some)%bind_Some.
    constructor; [by eapply same_object_field|by apply IH].
Qed.

(** A reader that reads the same from the [Value], and that reads values that say the same
    to results related by [R]. *)
Definition value_stable {A} (read : json → option A) : Prop := ∀ v x, read v = Some x → read (to_value v) = Some x.
Definition respects {A} (R : A → A → Prop) (read : json → option A) : Prop :=
  ∀ v w x y, same_value v w → read v = Some x → read w = Some y → R x y.
Lemma stable_string : value_stable read_string.
Proof. by intros []. Qed.
Lemma respects_string : respects eq read_string.
Proof. intros [] w x y Hs; try done. apply same_string_inv in Hs as ->. simpl. congruence. Qed.
Lemma stable_vec {A} (read : json → option A) : value_stable read → value_stable (read_vec read).
Proof.
  intros Hr [| | | | |l|] x; try done. simpl. revert x. induction l as [|v l IH]; intros x; [done|].
  rewrite fmap_cons. cbn [mapM]. intros (y&Hy%Hr&(ys&Hys%IH&[= <-])%bind_Some)%bind_Some. rewrite Hy. cbn. by rewrite Hys.
Qed.
Lemma respects_vec {A} (read : json → option A) : respects eq read → respects eq (read_vec read).
Proof.
  intros Hr [| | | | |l|] w x y Hs; try done. apply same_array_inv in Hs as (k&->&Hl). simpl. revert x y.
  induction Hl as [|v w l k Hv Hl IH]; intros x y; cbn [mapM]; [congruence|].
  intros (a&Ha&(b&Hb&[= <-])%bind_Some)%bind_Some (c&Hc&(d&Hd&[= <-])%bind_Some)%bind_Some.
  f_equal; [by eapply Hr|by apply IH].
Qed.
Lemma stable_option {A} (read : json → option A) : value_stable read → value_stable (read_option read).
Proof.
  intros Hr v x. destruct v; simpl; try done; intros (y&Hy%Hr&->)%fmap_Some; simpl in Hy; by rewrite Hy.
Qed.
Lemma respects_option {A} (read : json → option A) : respects eq read → respects eq (read_option read).
Proof.
  intros Hr v w x y Hs. assert (v = JNull ∨ v ≠ JNull) as [->|Hv] by (destruct v; auto).
  - apply same_null_inv in Hs as ->. simpl. congruence.
  - assert (w ≠ JNull) as Hw.
    { intros ->. inversion Hs as [|? |? ? Hn%same_number_inv| | |]; subst; [done|]. by destruct Hn. }
    assert (∀ u z, u ≠ JNull → read_option read u = Some z → ∃ a, read u = Some a ∧ z = Some a) as Hread.
    { intros [] z Hu; simpl; try done; intros (a&?&->)%fmap_Some; eauto. }
    intros (a&Ha&->)%Hread (b&Hb&->)%Hread; [|done..]. f_equal. by eapply Hr.
Qed.
Lemma stable_field {A} (read : json → option A) d o x :
  value_stable read → read_field read d o = Some x → read_field read d (to_value <$> o) = Some x.
Proof. intros Hr. destruct o; [apply Hr|done]. Qed.
Lemma respects_field {A} (read : json → option A) d o o' x y :
  respects eq read → option_Forall2 same_value o o' →
  read_field read d o = Some x → read_field read d o' = Some y → x = y.
Proof. intros Hr [v w Hs|]; simpl; [by apply Hr|congruence]. Qed.

(** ** Objects as maps *)
Lemma same_object_lookup (m m' : gmap string json) k :
  same_value (to_value (of_object m)) (to_value (of_object m')) →
  option_Forall2 (λ v w, same_value (to_value v) (to_value w)) (m !! k) (m' !! k).
Proof.
  rewrite !to_value_of_object. unfold of_object. intros (l&[= <-]&Hl)%same_object_inv.
  apply (same_filter k) in Hl. rewrite !filter_iter, !lookup_fmap in Hl.
  destruct (m !! k), (m' !! k); simpl in *; try by inversion Hl.
  - apply Forall2_cons_1 in Hl as [[_ Hv] _]. by constructor.
  - constructor.
Qed.
Lemma same_objects (m m' : gmap string json) :
  (∀ k, option_Forall2 (λ v w, same_value (to_value v) (to_value w)) (m !! k) (m' !! k)) →
  same_value (to_value (of_object m)) (to_value (of_object m')).
Proof.
  intros Hm. rewrite !to_value_of_object. apply same_object.
  assert (btree_keys (to_value <$> m) = btree_keys (to_value <$> m')) as Hk.
  { apply sorted_lt_unique; [apply btree_keys_ascending..|]. intros k. rewrite !elem_of_btree_keys, !lookup_fmap, !fmap_is_Some.
    specialize (Hm k). split; intros [v Hv]; rewrite Hv in Hm; inversion Hm; eauto. }
  assert (∀ a b, a ∈ btree_iter (to_value <$> m) → b ∈ btree_iter (to_value <$> m') → a.1 = b.1 → same_value a.2 b.2) as Hsame.
  { intros [k v] [k' w]. rewrite !elem_of_btree_iter, !lookup_fmap, !fmap_Some. simpl.
    intros (v'&Hv&->) (w'&Hw&->) <-. specialize (Hm k). rewrite Hv, Hw in Hm. by inversion Hm. }
  revert Hk Hsame. unfold btree_keys. generalize (btree_iter (to_value <$> m)), (btree_iter (to_value <$> m')).
  intros l. induction l as [|a l IH]; intros [|b k]; simpl; try done. intros [= Hab Hlk] Hsame.
  constructor; [split; [done|apply Hsame; [by left|by left|done]]|].
  apply IH; [done|]. intros. apply Hsame; [by right|by right|done].
Qed.
Lemma same_string_lookup (m m' : gmap string json) k s s' :
  same_value (to_value (of_object m)) (to_value (of_object m')) →
  m !! k = Some (JString s) → m' !! k = Some (JString s') → s = s'.
Proof.
  intros H%(same_object_lookup _ _ k) Hm Hm'. rewrite Hm, Hm' in H. inversion H as [? ? Hs|]; subst.
  by apply same_string_inv in Hs as [= ->].
Qed.
