(* ===== verification/Lockfile.v ===== *)
(** * tapid-lockfile: the lockfile model

    Locked registry, copied and workspace packages, derived hook outputs and the
    [Lockfile] with its mutating operations, its validation and its JSON form
    (crates/tapid-lockfile/src/model.rs, lib.rs).  A failed operation is an error of
    the crate or a panic of one of its [expect]s, so that the theorems can exclude the
    latter; methods on [&mut self] are in the [mutating] monad. *)
From S2P Require Import Prelude Order RustStr Crates Samples Core LockKey Json.

(** ** Schema versions (lib.rs) *)
Definition LOCKFILE_VERSION : Z := 7.
Definition LIFECYCLE_LOCKFILE_VERSION : Z := 9.
Definition COPIED_SOURCE_LOCKFILE_VERSION : Z := 10.
Definition ROOTS_LEGACY_LOCKFILE_VERSION : Z := 6.
Definition REGISTRY_ONLY_LOCKFILE_VERSION : Z := ROOTS_LEGACY_LOCKFILE_VERSION.
Definition LEGACY_LOCKFILE_VERSION : Z := 4.
Definition PROVENANCE_LEGACY_LOCKFILE_VERSION : Z := 5.

(** An error returned by the code, or a panic. *)
Inductive failure := Fails (e : LockfileError) | Panics.
Definition lock_result : Type → Type := result failure.
Definition lifted {A} (r : result LockfileError A) : lock_result A := map_err Fails r.
Definition expect {A E} (r : result E A) : lock_result A := map_err (λ _, Panics) r.
Definition fail {A} (e : LockfileError) : lock_result A := Err (Fails e).

(** ** Derived hook outputs *)
Record DerivedHookOutput := mk_hook {
  attestation : string;
  hook : string;
  hook_key : string;
  hook_tree_digest : string;
}.
#[export] Instance DerivedHookOutput_eq_dec : EqDecision DerivedHookOutput.
Proof. solve_decision. Defined.

Definition hook_rank (hook : string) : option Z :=
  if str_eqb hook "preinstall" then Some 0%Z
  else if str_eqb hook "install" then Some 1%Z
  else if str_eqb hook "postinstall" then Some 2%Z
  else None.
Definition check_hook_digest (digest : string) : result LockfileError () :=
  canonical ← canonical_artifact_digest digest;
  ensure (str_eqb canonical digest && starts_with "sha256-" digest)
    (InvalidDerivedOutput "noncanonical digest").
Definition validate_hook (previous : option Z) (output : DerivedHookOutput) :
    result LockfileError (option Z) :=
  tag ← ok_or (InvalidDerivedOutput "missing lifecycle output authentication")
    (strip_prefix "hmac-sha256-" (attestation output));
  _ ← ensure ((str_len tag =? 64)%Z
              && str_forallb (λ b, byte_is_digit b || between 97 102 (code b)) tag)
        (InvalidDerivedOutput "invalid lifecycle output authentication");
  rank ← ok_or (InvalidDerivedOutput "unsupported hook") (hook_rank (hook output));
  _ ← ensure (negb (from_option (λ previous, rank <=? previous)%Z false previous))
        (InvalidDerivedOutput "duplicate or unordered hooks");
  _ ← for_each check_hook_digest [hook_key output; hook_tree_digest output];
  Ok (Some rank).
Definition validate_derived_hooks (outputs : list DerivedHookOutput) : result LockfileError () :=
  _ ← try_fold validate_hook None outputs; Ok ().
Definition DerivedHookOutput_new (hook key tree_digest attestation : string) :
    result LockfileError DerivedHookOutput :=
  let output := mk_hook attestation hook key tree_digest in
  _ ← validate_derived_hooks [output]; Ok output.

Inductive RegistryIntegrityProvenance := RegistryDeclared | LocallyComputed.

Section lockfile.
Context `{SV : Semver} `{UC : UrlCrate} `{B64 : Base64}.

(** ** Locked packages *)
Record LockedPackage := mk_package {
  lp_registry : string;
  lp_name : string;
  lp_version : string;
  artifact_integrity : string;
  registry_integrity_declared : option bool;
  unpacked_digest : string;
  tree_digest : string;
  derived_hooks : list DerivedHookOutput;
  artifact_url : option string;
  lp_peer_context : string;
  lp_platform_context : string;
  lp_dependencies : gmap string string;
  lp_dependency_aliases : gmap string string;
}.
#[export] Instance LockedPackage_eq_dec : EqDecision LockedPackage.
Proof. solve_decision. Defined.

Definition LockedPackage_source (p : LockedPackage) : option PackageSource :=
  to_ok (PackageSource_from_str (lp_registry p)).
(** [package.source().is_some_and(|source| source.registry().is_none())] *)
Definition is_copied (p : LockedPackage) : bool :=
  from_option (λ source, bool_decide (source_registry source = None)) false
    (LockedPackage_source p).
Definition is_registry (p : LockedPackage) : bool :=
  from_option (λ source, bool_decide (is_Some (source_registry source))) false
    (LockedPackage_source p).
Definition LockedPackage_key (p : LockedPackage) : lock_result string :=
  registry ← expect (PackageSource_from_str (lp_registry p));
  name ← expect (PackageName_from_str (lp_name p));
  version ← expect (PackageVersion_from_str (lp_version p));
  Ok (key_text (source_as_str registry) name version (lp_peer_context p) (lp_platform_context p)).
Definition install_tree_digest (p : LockedPackage) : string :=
  from_option hook_tree_digest (tree_digest p) (last (derived_hooks p)).

(** An alias entry: its names parse and it names the target of its dependency. *)
Definition validate_alias (key : lock_result string) (dependencies : gmap string string)
    (entry : string * string) : lock_result () :=
  let '(name, actual) := entry in
  _ ← lifted (map_err Domain (PackageName_from_str name));
  _ ← lifted (map_err Domain (PackageName_from_str actual));
  match dependencies !! name with
  | None => key ← key; fail (DependencyNameMismatch key name actual)
  | Some dependency =>
      target ← lifted (LockfilePackageKey_from_str dependency);
      if negb (str_eqb actual (name_str (key_name target))) || str_eqb name actual
      then key ← key;
           fail (DependencyNameMismatch key name (PackageName_display (key_name target)))
      else Ok ()
  end.
Definition validate_name (name : string) : lock_result () :=
  lifted ((λ _, ()) <$> map_err Domain (PackageName_from_str name)).

(** Registry evidence belongs to registry packages only. *)
Definition validate_evidence (registry : PackageSource) (p : LockedPackage) : lock_result () :=
  if bool_decide (is_Some (source_registry registry))
  then lifted (validate_registry_url (lp_registry p))
  else if bool_decide (is_Some (registry_integrity_declared p))
          || bool_decide (is_Some (artifact_url p))
          || negb (bool_decide (derived_hooks p = []))
  then fail InvalidCopiedArtifactEvidence else Ok ().
Definition LockedPackage_validate (p : LockedPackage) : lock_result () :=
  registry ← lifted (map_err Domain (PackageSource_from_str (lp_registry p)));
  if negb (str_eqb (source_as_str registry) (lp_registry p))
  then fail NonCanonicalRegistryIdentity else
  _ ← lifted (map_err Domain (PackageName_from_str (lp_name p)));
  _ ← lifted (map_err Domain (PackageVersion_from_str (lp_version p)));
  integrity ← lifted (map_err Domain (PackageIntegrity_from_str (artifact_integrity p)));
  if negb (str_eqb (integrity_str integrity) (artifact_integrity p))
  then fail (InvalidSha512 (artifact_integrity p)) else
  _ ← lifted (map_err Domain (ArtifactDigest_from_str (unpacked_digest p)));
  _ ← lifted (map_err Domain (ArtifactDigest_from_str (tree_digest p)));
  key ← LockedPackage_key p;
  _ ← lifted (decode_peer_context (lp_peer_context p) key);
  _ ← lifted (decode_platform_context (lp_platform_context p) key);
  _ ← validate_evidence registry p;
  _ ← match artifact_url p with
      | Some url => lifted (validate_artifact_url url)
      | None => Ok ()
      end;
  _ ← for_each (validate_alias (LockedPackage_key p) (lp_dependencies p))
        (btree_iter (lp_dependency_aliases p));
  for_each validate_name (btree_keys (lp_dependencies p)).

Definition new_with_context_and_provenance (registry name version artifact_integrity
    unpacked_digest : string) (contexts : PeerContext * PlatformContext)
    (integrity_provenance : RegistryIntegrityProvenance) : lock_result LockedPackage :=
  source ← lifted (map_err Domain (PackageSource_from_str registry));
  parsed_name ← lifted (map_err Domain (PackageName_from_str name));
  parsed_version ← lifted (map_err Domain (PackageVersion_from_str version));
  integrity ← lifted (map_err Domain (PackageIntegrity_from_str artifact_integrity));
  digest ← lifted (map_err Domain (ArtifactDigest_from_str unpacked_digest));
  let package := mk_package
    (source_as_str source) (PackageName_display parsed_name)
    (PackageVersion_display parsed_version) (integrity_str integrity)
    ((λ _, match integrity_provenance with RegistryDeclared => true | LocallyComputed => false end)
       <$> source_registry source)
    (ArtifactDigest_display digest) unpacked_digest [] None
    (canonical_peer_context contexts.1) (canonical_platform_context contexts.2) ∅ ∅ in
  _ ← LockedPackage_validate package;
  Ok package.
Definition new_with_provenance (registry name version artifact_integrity unpacked_digest : string)
    (integrity_provenance : RegistryIntegrityProvenance) : lock_result LockedPackage :=
  new_with_context_and_provenance registry name version artifact_integrity unpacked_digest
    (∅, PlatformContext_none) integrity_provenance.

(** Record update of the two dependency maps. *)
Definition with_dependencies (p : LockedPackage) (dependencies aliases : gmap string string) :
    LockedPackage :=
  mk_package (lp_registry p) (lp_name p) (lp_version p) (artifact_integrity p)
    (registry_integrity_declared p) (unpacked_digest p) (tree_digest p) (derived_hooks p)
    (artifact_url p) (lp_peer_context p) (lp_platform_context p) dependencies aliases.
Definition with_hooks (p : LockedPackage) (outputs : list DerivedHookOutput) : LockedPackage :=
  mk_package (lp_registry p) (lp_name p) (lp_version p) (artifact_integrity p)
    (registry_integrity_declared p) (unpacked_digest p) (tree_digest p) outputs
    (artifact_url p) (lp_peer_context p) (lp_platform_context p) (lp_dependencies p)
    (lp_dependency_aliases p).
Definition with_artifact_url (p : LockedPackage) (url : option string) : LockedPackage :=
  mk_package (lp_registry p) (lp_name p) (lp_version p) (artifact_integrity p)
    (registry_integrity_declared p) (unpacked_digest p) (tree_digest p) (derived_hooks p)
    url (lp_peer_context p) (lp_platform_context p) (lp_dependencies p) (lp_dependency_aliases p).

Definition set_artifact_url (url : string) : mutating LockedPackage failure () :=
  _ ← mut_lift (lifted (validate_artifact_url url));
  p ← mut_get;
  mut_put (with_artifact_url p (Some url)).

(** The pair of maps after [add_dependency] and [add_alias_dependency], shared by the
    two package kinds; [self_key] is the package's own key. *)
Definition dependency_edit (self_key : lock_result string) (dependencies aliases : gmap string string)
    (name key : string) : lock_result (gmap string string * gmap string string) :=
  name ← lifted (map_err Domain (PackageName_from_str name));
  parsed ← lifted (LockfilePackageKey_from_str key);
  if negb (bool_decide (key_name parsed = name))
  then package ← self_key;
       fail (DependencyNameMismatch package (PackageName_display name)
               (PackageName_display (key_name parsed)))
  else
    own ← self_key;
    if str_eqb key own then fail (SelfDependency key)
    else Ok (<[PackageName_display name := key]> dependencies, delete (name_str name) aliases).
Definition alias_edit (self_key : lock_result string) (dependencies aliases : gmap string string)
    (name key : string) : lock_result (gmap string string * gmap string string) :=
  name ← lifted (PackageName_display <$> map_err Domain (PackageName_from_str name));
  target ← lifted (LockfilePackageKey_from_str key);
  own ← self_key;
  if str_eqb key own then fail (SelfDependency key)
  else Ok (<[name := key]> dependencies,
           if negb (str_eqb name (name_str (key_name target)))
           then <[name := PackageName_display (key_name target)]> aliases
           else delete name aliases).
Definition LockedPackage_add_dependency (name key : string) : mutating LockedPackage failure () :=
  p ← mut_get;
  maps ← mut_lift (dependency_edit (LockedPackage_key p) (lp_dependencies p)
                     (lp_dependency_aliases p) name key);
  mut_put (with_dependencies p maps.1 maps.2).
Definition LockedPackage_add_alias_dependency (name key : string) :
    mutating LockedPackage failure () :=
  p ← mut_get;
  maps ← mut_lift (alias_edit (LockedPackage_key p) (lp_dependencies p)
                     (lp_dependency_aliases p) name key);
  mut_put (with_dependencies p maps.1 maps.2).

(** ** Workspace packages *)
Record LockedWorkspacePackage := mk_workspace_package {
  wp_source : LocalWorkspaceSource;
  manifest_digest : string;
  wp_dependencies : gmap string string;
  wp_dependency_aliases : gmap string string;
}.
#[export] Instance LockedWorkspacePackage_eq_dec : EqDecision LockedWorkspacePackage.
Proof. solve_decision. Defined.
Definition LockedWorkspacePackage_new (source : LocalWorkspaceSource) (manifest_digest : string) :
    lock_result LockedWorkspacePackage :=
  digest ← lifted (map_err Domain (ArtifactDigest_from_str manifest_digest));
  Ok (mk_workspace_package source (ArtifactDigest_display digest) ∅ ∅).
Definition LockedWorkspacePackage_key (p : LockedWorkspacePackage) : lock_result string :=
  match key_workspace (wp_source p) with
  | Some key => Ok (key_display key)
  | None => Err Panics
  end.
Definition with_workspace_dependencies (p : LockedWorkspacePackage)
    (dependencies aliases : gmap string string) : LockedWorkspacePackage :=
  mk_workspace_package (wp_source p) (manifest_digest p) dependencies aliases.
Definition LockedWorkspacePackage_add_dependency (name key : string) :
    mutating LockedWorkspacePackage failure () :=
  p ← mut_get;
  maps ← mut_lift (dependency_edit (LockedWorkspacePackage_key p) (wp_dependencies p)
                     (wp_dependency_aliases p) name key);
  mut_put (with_workspace_dependencies p maps.1 maps.2).
Definition LockedWorkspacePackage_add_alias_dependency (name key : string) :
    mutating LockedWorkspacePackage failure () :=
  p ← mut_get;
  maps ← mut_lift (alias_edit (LockedWorkspacePackage_key p) (wp_dependencies p)
                     (wp_dependency_aliases p) name key);
  mut_put (with_workspace_dependencies p maps.1 maps.2).
Definition validate_workspace_edge (p : LockedWorkspacePackage) (entry : string * string) :
    lock_result () :=
  let '(name, dependency) := entry in
  parsed ← lifted (LockfilePackageKey_from_str dependency);
  if negb (str_eqb (name_str (key_name parsed)) name)
     && negb (bool_decide (wp_dependency_aliases p !! name
                           = Some (PackageName_display (key_name parsed))))
  then key ← LockedWorkspacePackage_key p;
       fail (DependencyNameMismatch key name (PackageName_display (key_name parsed)))
  else
    key ← LockedWorkspacePackage_key p;
    if str_eqb dependency key then fail (SelfDependency key) else Ok ().
Definition LockedWorkspacePackage_validate (p : LockedWorkspacePackage) : lock_result () :=
  let s := wp_source p in
  source ← lifted (LocalWorkspaceSource_new (ws_path s) (ws_name s) (ws_version s));
  if negb (bool_decide (source = s))
  then fail (InvalidWorkspaceSource (workspace_identity s)) else
  digest ← lifted (map_err Domain (ArtifactDigest_from_str (manifest_digest p)));
  if negb (str_eqb (ArtifactDigest_display digest) (manifest_digest p))
  then key ← LockedWorkspacePackage_key p; fail (InvalidPackageKey key) else
  _ ← for_each (validate_workspace_edge p) (btree_iter (wp_dependencies p));
  for_each (validate_alias (LockedWorkspacePackage_key p) (wp_dependencies p))
    (btree_iter (wp_dependency_aliases p)).

(** ** The lockfile *)
Record Lockfile := mk_lockfile {
  lockfile_version : Z;
  root_manifest_digest : string;
  resolver_version : string;
  linker_version : string;
  roots : list string;
  lf_root_bindings : gmap string string;
  packages : gmap string LockedPackage;
  workspace_packages : gmap string LockedWorkspacePackage;
}.
#[export] Instance Lockfile_eq_dec : EqDecision Lockfile.
Proof. solve_decision. Defined.
Definition Lockfile_new (digest : string) : lock_result Lockfile :=
  digest ← lifted (canonical_artifact_digest digest);
  Ok (mk_lockfile LOCKFILE_VERSION digest "0" "0" [] ∅ ∅ ∅).
Definition contains_package_key (l : Lockfile) (key : string) : bool :=
  contains_key key (packages l) || contains_key key (workspace_packages l).
Definition with_version (l : Lockfile) (version : Z) : Lockfile :=
  mk_lockfile version (root_manifest_digest l) (resolver_version l) (linker_version l)
    (roots l) (lf_root_bindings l) (packages l) (workspace_packages l).
Definition with_packages (l : Lockfile) (ps : gmap string LockedPackage)
    (ws : gmap string LockedWorkspacePackage) : Lockfile :=
  mk_lockfile (lockfile_version l) (root_manifest_digest l) (resolver_version l)
    (linker_version l) (roots l) (lf_root_bindings l) ps ws.
Definition with_roots (l : Lockfile) (rs : list string) (bindings : gmap string string) : Lockfile :=
  mk_lockfile (lockfile_version l) (root_manifest_digest l) (resolver_version l)
    (linker_version l) rs bindings (packages l) (workspace_packages l).

Definition set_derived_hooks (key : string) (outputs : list DerivedHookOutput) :
    mutating Lockfile failure () :=
  _ ← mut_lift (lifted (validate_derived_hooks outputs));
  l ← mut_get;
  package ← mut_lift (ok_or (Fails (InvalidPackageKey key)) (packages l !! key));
  let l := with_packages l (<[key := with_hooks package outputs]> (packages l))
             (workspace_packages l) in
  mut_put (if negb (bool_decide (outputs = []))
           then with_version l (Z.max (lockfile_version l) LIFECYCLE_LOCKFILE_VERSION) else l).
Definition source_graph (l : Lockfile) : Lockfile :=
  let l' := if (lockfile_version l =? LIFECYCLE_LOCKFILE_VERSION)%Z
            then with_version l LOCKFILE_VERSION else l in
  with_packages l' ((λ p, with_hooks p []) <$> packages l') (workspace_packages l').

(** [validate_dependency_target] *)
Definition validate_dependency_target (package : string) (aliases : gmap string string)
    (exists_key : string → bool) (entry : string * string) : result LockfileError () :=
  let '(name, dependency) := entry in
  target ← LockfilePackageKey_from_str dependency;
  if str_eqb dependency package then Err (SelfDependency package)
  else if negb (str_eqb (name_str (key_name target)) name)
          && negb (bool_decide (aliases !! name = Some (PackageName_display (key_name target))))
  then Err (DependencyNameMismatch package name (PackageName_display (key_name target)))
  else ensure (exists_key dependency) (DanglingDependency package dependency).
Definition validate_package_edges (exists_key : string → bool) (entry : string * LockedPackage) :
    lock_result () :=
  lifted (for_each (validate_dependency_target entry.1 (lp_dependency_aliases entry.2) exists_key)
            (btree_iter (lp_dependencies entry.2))).
Definition validate_workspace_edges (exists_key : string → bool)
    (entry : string * LockedWorkspacePackage) : lock_result () :=
  lifted (for_each (validate_dependency_target entry.1 (wp_dependency_aliases entry.2) exists_key)
            (btree_iter (wp_dependencies entry.2))).

(** One package of a batch: validated, with a key that is new to the lockfile and to
    both batches. *)
Definition batch_package (l : Lockfile) (batch : gmap string LockedPackage)
    (package : LockedPackage) : lock_result (gmap string LockedPackage) :=
  _ ← LockedPackage_validate package;
  key ← LockedPackage_key package;
  if contains_package_key l key || contains_key key batch
  then fail (DuplicatePackage key) else Ok (<[key := package]> batch).
Definition batch_workspace (l : Lockfile) (registry_batch : gmap string LockedPackage)
    (batch : gmap string LockedWorkspacePackage) (package : LockedWorkspacePackage) :
    lock_result (gmap string LockedWorkspacePackage) :=
  _ ← LockedWorkspacePackage_validate package;
  key ← LockedWorkspacePackage_key package;
  if contains_package_key l key || contains_key key registry_batch || contains_key key batch
  then fail (DuplicatePackage key) else Ok (<[key := package]> batch).
Definition plan_graph (l : Lockfile) (registry_packages : list LockedPackage)
    (workspaces : list LockedWorkspacePackage) :
    lock_result (gmap string LockedPackage * gmap string LockedWorkspacePackage) :=
  registry_batch ← try_fold (batch_package l) ∅ registry_packages;
  workspace_batch ← try_fold (batch_workspace l registry_batch) ∅ workspaces;
  let exists_key key := contains_package_key l key || contains_key key registry_batch
                        || contains_key key workspace_batch in
  _ ← for_each (validate_package_edges exists_key) (btree_iter registry_batch);
  _ ← for_each (validate_workspace_edges exists_key) (btree_iter workspace_batch);
  Ok (registry_batch, workspace_batch).
Definition insert_graph (registry_packages : list LockedPackage)
    (workspaces : list LockedWorkspacePackage) : mutating Lockfile failure () :=
  l ← mut_get;
  batches ← mut_lift (plan_graph l registry_packages workspaces);
  let l := if existsb is_copied registry_packages
           then with_version l COPIED_SOURCE_LOCKFILE_VERSION else l in
  mut_put (with_packages l (batches.1 ∪ packages l) (batches.2 ∪ workspace_packages l)).
Definition insert_package (package : LockedPackage) : mutating Lockfile failure () :=
  insert_graph [package] [].
Definition insert_packages (batch : list LockedPackage) : mutating Lockfile failure () :=
  insert_graph batch [].
Definition insert_workspace_package (package : LockedWorkspacePackage) :
    mutating Lockfile failure () := insert_graph [] [package].

Definition check_root (l : Lockfile) (root : string) : lock_result () :=
  _ ← lifted (LockfilePackageKey_from_str root);
  if negb (contains_package_key l root) then fail (DanglingRoot root) else Ok ().
Definition set_roots (new_roots : list string) : mutating Lockfile failure () :=
  l ← mut_get;
  let sorted := dedup (sort new_roots) in
  _ ← mut_lift (for_each (check_root l) sorted);
  mut_put (with_roots l sorted ∅).
Definition check_binding (l : Lockfile) (entry : string * string) : lock_result () :=
  let '(name, target) := entry in
  _ ← lifted (map_err Domain (PackageName_from_str name));
  _ ← lifted (LockfilePackageKey_from_str target);
  if negb (bool_decide (target ∈ roots l)) then fail (DanglingRoot target) else Ok ().
(** Every registry or copied root is the target of some binding. *)
Definition check_bound (bindings : gmap string string) (root : string) : lock_result () :=
  if negb (bool_decide (root ∈ btree_values bindings))
     && from_option (λ key, bool_decide (source_workspace (key_source key) = None)) true
          (to_ok (LockfilePackageKey_from_str root))
  then fail NonCanonicalRoots else Ok ().
Definition set_root_bindings (bindings : gmap string string) : mutating Lockfile failure () :=
  l ← mut_get;
  _ ← mut_lift (for_each (check_binding l) (btree_iter bindings));
  _ ← mut_lift (for_each (check_bound bindings) (roots l));
  mut_put (with_roots l (roots l) bindings).

Definition validate_replay (l : Lockfile) (current : string) : lock_result () :=
  current ← lifted (canonical_artifact_digest current);
  if negb (str_eqb (root_manifest_digest l) current)
  then fail (RootManifestDigestMismatch (root_manifest_digest l) current)
  else if (lockfile_version l =? PROVENANCE_LEGACY_LOCKFILE_VERSION)%Z
  then fail (RegenerationRequired PROVENANCE_LEGACY_LOCKFILE_VERSION)
  else match head (base.filter (λ kv, registry_integrity_declared kv.2 = Some false)
                     (btree_iter (packages l))) with
       | Some (key, _) => fail (UnverifiedRegistryArtifact key)
       | None => Ok ()
       end.
Definition validate_alias_schema (l : Lockfile) : lock_result () :=
  if (lockfile_version l <? LIFECYCLE_LOCKFILE_VERSION)%Z
     && existsb (λ p, negb (bool_decide (derived_hooks p = []))) (btree_values (packages l))
  then fail (InvalidDerivedOutput "derived hooks require schema 9")
  else if (lockfile_version l <? COPIED_SOURCE_LOCKFILE_VERSION)%Z
          && existsb is_copied (btree_values (packages l))
  then fail (UnsupportedVersion (lockfile_version l))
  else
    _ ← for_each (λ p, lifted (validate_derived_hooks (derived_hooks p)))
          (btree_values (packages l));
    if (lockfile_version l <? LOCKFILE_VERSION)%Z
       && (negb (bool_decide (lf_root_bindings l = ∅))
           || existsb (λ p, negb (bool_decide (lp_dependency_aliases p = ∅)))
                (btree_values (packages l)))
    then fail (AliasMetadataInLegacySchema (lockfile_version l))
    else Ok ().
(** Registry packages without recorded provenance, in key order. *)
Definition unproven (l : Lockfile) : option string :=
  fst <$> head (base.filter (λ kv, is_registry kv.2 = true ∧
                                   registry_integrity_declared kv.2 = None)
                  (btree_iter (packages l))).
Definition has_packages (l : Lockfile) : bool :=
  negb (bool_decide (packages l = ∅)) || negb (bool_decide (workspace_packages l = ∅)).
(** Entries with their parsed keys, in key order. *)
Definition typed_entry {A} (entry : string * A) : result LockfileError (LockfilePackageKey * A) :=
  key ← LockfilePackageKey_from_str entry.1; Ok (key, entry.2).
Definition packages_typed (l : Lockfile) : result LockfileError (list (LockfilePackageKey * LockedPackage)) :=
  try_map typed_entry (btree_iter (packages l)).
Definition workspace_packages_typed (l : Lockfile) :
    result LockfileError (list (LockfilePackageKey * LockedWorkspacePackage)) :=
  try_map typed_entry (btree_iter (workspace_packages l)).
End lockfile.

(** ** Failures *)
Lemma lifted_Ok {A} (r : result LockfileError A) a : lifted r = Ok a ↔ r = Ok a.
Proof. apply map_err_Ok. Qed.
Lemma expect_Ok {A E} (r : result E A) a : expect r = Ok a ↔ r = Ok a.
Proof. apply map_err_Ok. Qed.
(** [safe r]: the computation does not panic. *)
Definition safe {A} (r : lock_result A) : Prop := r ≠ Err Panics.
Lemma lifted_safe {A} (r : result LockfileError A) : safe (lifted r).
Proof. by destruct r. Qed.
Lemma fail_safe {A} e : safe (@fail A e).
Proof. done. Qed.
Lemma Ok_safe {A} (a : A) : safe (Ok a).
Proof. done. Qed.
Lemma bind_safe {A B} (r : lock_result A) (f : A → lock_result B) :
  safe r → (∀ a, r = Ok a → safe (f a)) → safe (r ≫= f).
Proof. unfold safe. destruct r as [a|e]; simpl; [auto|]. intros H _ Heq. congruence. Qed.
Lemma for_each_safe {A} (f : A → lock_result ()) l :
  (∀ x, x ∈ l → safe (f x)) → safe (for_each f l).
Proof.
  induction l as [|x l IH]; simpl; intros Hf; [done|].
  apply bind_safe; [apply Hf; set_solver|]. intros. apply IH. set_solver.
Qed.
Lemma try_fold_safe {A S} (f : S → A → lock_result S) l s :
  (∀ s x, x ∈ l → safe (f s x)) → safe (try_fold f s l).
Proof.
  revert s. induction l as [|x l IH]; simpl; intros s Hf; [done|].
  apply bind_safe; [apply Hf; set_solver|]. intros. apply IH. set_solver.
Qed.
Create HintDb lock_safe.
#[export] Hint Resolve lifted_safe fail_safe Ok_safe : lock_safe.
Lemma if_safe {A} (b : bool) (r r' : lock_result A) : safe r → safe r' → safe (if b then r else r').
Proof. by destruct b. Qed.
#[export] Hint Resolve if_safe : lock_safe.

(** *** Digests and hooks *)
Lemma canonical_artifact_digest_Ok value d :
  canonical_artifact_digest value = Ok d → canonical_digest d ∧ canonical_artifact_digest d = Ok d.
Proof.
  unfold canonical_artifact_digest. intros H. apply map_err_Ok, fmap_Ok in H as (digest&H&->).
  assert (canonical_digest (digest_str digest)) as Hd by by eapply ArtifactDigest_parse_canonical.
  split; [done|]. unfold ArtifactDigest_display.
  by apply canonical_digest_parse in Hd as ->.
Qed.

(** An accepted output: an authenticated canonical tree of one of the three hooks. *)
Definition hook_ok (output : DerivedHookOutput) : Prop :=
  (∃ tag, attestation output = "hmac-sha256-" +:+ tag ∧ str_len tag = 64%Z ∧
     str_forallb is_lower_hex tag = true) ∧
  canonical_digest (hook_key output) ∧ canonical_digest (hook_tree_digest output).
Lemma check_hook_digest_Ok digest u : check_hook_digest digest = Ok u → canonical_digest digest.
Proof.
  unfold check_hook_digest. intros (c&[Hc _]%canonical_artifact_digest_Ok&Heq%ensure_Ok)%bind_Ok.
  apply andb_true_iff in Heq as [->%str_eqb_true _]. done.
Qed.
Lemma validate_hook_Ok previous output rank :
  validate_hook previous output = Ok rank →
  ∃ r, rank = Some r ∧ hook_rank (hook output) = Some r ∧ hook_ok output ∧
    ∀ r', previous = Some r' → (r' < r)%Z.
Proof.
  unfold validate_hook. intros (tag&Htag%ok_or_Ok%strip_prefix_Some&H)%bind_Ok.
  apply bind_Ok in H as (_&Hlen%ensure_Ok&H). apply bind_Ok in H as (r&Hr%ok_or_Ok&H).
  apply bind_Ok in H as (_&Hprev%ensure_Ok&H). apply bind_Ok in H as ([]&Hd&[= <-]).
  rewrite for_each_Ok in Hd. bool_prop. exists r. split_and!; [done|done| |].
  - split_and!.
    + exists tag. split_and!; [done|lia|done].
    + eapply check_hook_digest_Ok, Hd. by left.
    + eapply check_hook_digest_Ok, Hd. right. by left.
  - intros r' ->. simpl in Hprev. lia.
Qed.
Lemma hook_rank_range h r : hook_rank h = Some r → (0 <= r <= 2)%Z.
Proof. unfold hook_rank. repeat case_match; intros; simplify_eq; lia. Qed.
Lemma hook_rank_inj h h' r : hook_rank h = Some r → hook_rank h' = Some r → h = h'.
Proof.
  unfold hook_rank. repeat case_match; intros; simplify_eq;
    by repeat match goal with H : str_eqb _ _ = true |- _ => apply str_eqb_true in H as -> end.
Qed.
(** The ranks of a validated list, in order. *)
Lemma validate_derived_hooks_ranks outputs u :
  validate_derived_hooks outputs = Ok u →
  ∃ ranks : list Z, Forall2 (λ o r, hook_rank (hook o) = Some r) outputs ranks ∧
    StronglySorted Z.lt ranks ∧ Forall hook_ok outputs.
Proof.
  unfold validate_derived_hooks. intros (final&Hfold&_)%bind_Ok.
  assert (∀ previous, try_fold validate_hook previous outputs = Ok final →
    ∃ ranks : list Z, Forall2 (λ o r, hook_rank (hook o) = Some r) outputs ranks ∧
      StronglySorted Z.lt ranks ∧ Forall hook_ok outputs ∧
      ∀ r', previous = Some r' → Forall (Z.lt r') ranks) as Hgen.
  { clear Hfold. induction outputs as [|o l IH]; intros previous; simpl.
    - intros _. exists []. split_and!; [constructor..|]. intros. constructor.
    - intros (rank&(r&->&Hr&Ho&Hprev)%validate_hook_Ok&Hl)%bind_Ok.
      apply IH in Hl as (ranks&H2&Hs&Hok&Hall). specialize (Hall r eq_refl).
      exists (r :: ranks). split_and!; [by constructor|by constructor|by constructor|].
      intros r' Hr'. constructor; [by apply Hprev|].
      eapply Forall_impl; [exact Hall|]. intros x ?. specialize (Hprev _ Hr'). lia. }
  apply Hgen in Hfold as (ranks&?&?&?&_). by exists ranks.
Qed.
Lemma ranks_sublist outputs (ranks : list Z) :
  Forall2 (λ o r, hook_rank (hook o) = Some r) outputs ranks → StronglySorted Z.lt ranks →
  hook <$> outputs `sublist_of` ["preinstall"; "install"; "postinstall"].
Proof.
  intros H2 Hs.
  assert (∀ lo, Forall (Z.le lo) ranks → (0 <= lo)%Z →
    hook <$> outputs `sublist_of` drop (Z.to_nat lo) ["preinstall"; "install"; "postinstall"]) as Hgen.
  { induction H2 as [|o r outputs ranks Hr H2 IH]; intros lo Hlo Hpos; [apply sublist_nil_l|].
    apply StronglySorted_inv in Hs as [Hs Hall]. apply Forall_inv in Hlo.
    assert (hook <$> outputs `sublist_of`
      drop (Z.to_nat (r + 1)) ["preinstall"; "install"; "postinstall"]) as Hsub.
    { apply IH; [done| |lia]. eapply Forall_impl; [exact Hall|]. intros; lia. }
    assert (drop (Z.to_nat r) ["preinstall"; "install"; "postinstall"] =
      hook o :: drop (Z.to_nat (r + 1)) ["preinstall"; "install"; "postinstall"]) as Hdrop.
    { unfold hook_rank in Hr. repeat case_match; simplify_eq;
        by repeat match goal with H : str_eqb _ _ = true |- _ => apply str_eqb_true in H as -> end. }
    rewrite fmap_cons. trans (drop (Z.to_nat r) ["preinstall"; "install"; "postinstall"]).
    - rewrite Hdrop. by constructor.
    - replace (Z.to_nat r) with (Z.to_nat lo + (Z.to_nat r - Z.to_nat lo))%nat by lia.
      rewrite <-drop_drop. apply sublist_drop. }
  apply (Hgen 0%Z); [|done].
  clear Hs Hgen. induction H2 as [|o r outputs ranks Hr H2 IH]; constructor; [|done].
  apply hook_rank_range in Hr. lia.
Qed.
(** A validated list of derived outputs has at most one output per lifecycle
    hook, in lifecycle order - so at most three - and each of them is authenticated by
    a 64-digit tag and carries canonical digests. *)
Theorem validate_derived_hooks_spec (outputs : list DerivedHookOutput) :
  validate_derived_hooks outputs = Ok () →
  (length outputs <= 3)%nat ∧
  hook <$> outputs `sublist_of` ["preinstall"; "install"; "postinstall"] ∧
  Forall hook_ok outputs.
Proof.
  intros (ranks&H2&Hs&Hok)%validate_derived_hooks_ranks.
  pose proof (ranks_sublist outputs ranks H2 Hs) as Hsub. split_and!; [|done..].
  apply sublist_length in Hsub. by rewrite length_fmap in Hsub.
Qed.

Section lockfile_theory.
Context `{SV : Semver} `{SL : !SemverLaws} `{UC : UrlCrate} `{UL : !UrlLaws} `{B64 : Base64}.
Implicit Types (p : LockedPackage) (w : LockedWorkspacePackage) (l : Lockfile) (key : string).

(** *** Keys of validated packages *)
Lemma parsed_source_ok text source :
  PackageSource_from_str text = Ok source → source_as_str source = text →
  ∃ s, source_ok s ∧ source_text s = text ∧ package_source s = Some source ∧
    source_workspace s = None.
Proof.
  intros Hsource Htext. destruct (source_registry source) as [o|] eqn:Hr.
  - destruct (registry_source_inv _ _ _ Hsource Hr) as [Ho ->]. exists (Registry o).
    simpl in *. by rewrite Htext.
  - exists (Copied source). unfold source_as_str in Htext. simpl. by rewrite Htext.
Qed.
(** What validation establishes of the identity fields. *)
Record package_identity p : Prop := {
  pi_source : ∃ source, PackageSource_from_str (lp_registry p) = Ok source ∧
    source_as_str source = lp_registry p;
  pi_name : ∃ n, PackageName_from_str (lp_name p) = Ok n;
  pi_version : ∃ v, PackageVersion_from_str (lp_version p) = Ok v;
  pi_peer : ∃ c, peer_ok c ∧ lp_peer_context p = canonical_peer_context c;
  pi_platform : lp_platform_context p = "" ∨
    ∃ c, platform_ok c ∧ lp_platform_context p = canonical_platform_context c;
}.
Lemma package_identity_key p :
  package_identity p →
  ∃ k, key_ok k ∧ LockedPackage_key p = Ok (key_display k) ∧
    name_str (key_name k) = lp_name p ∧ source_workspace (key_source k) = None.
Proof.
  intros [(source&Hsource&Htext) (n&Hn) (v&Hv) Hpeer Hplat].
  destruct (parsed_source_ok _ _ Hsource Htext) as (s&Hs&Hst&_&Hw).
  destruct (name_from_str_ok _ _ Hn) as [Hn' Hname].
  exists (mk_key s n v (lp_peer_context p) (lp_platform_context p)). split_and!; [|..].
  - split; simpl; [done|done|by eapply version_from_str_ok|done|done|].
    unfold workspace_agrees. by destruct s.
  - unfold LockedPackage_key, key_display. rewrite Hsource, Hn, Hv. simpl. by rewrite Hst, Htext.
  - done.
  - done.
Qed.
Lemma LockedPackage_validate_identity p : LockedPackage_validate p = Ok () → package_identity p.
Proof.
  unfold LockedPackage_validate. intros (source&Hsource&H)%bind_Ok.
  destruct (str_eqb (source_as_str source) (lp_registry p)) eqn:Htext; [|done]. simpl in H.
  apply lifted_Ok, map_err_Ok in Hsource. apply str_eqb_true in Htext.
  apply bind_Ok in H as (n&Hn%lifted_Ok%map_err_Ok&H).
  apply bind_Ok in H as (v&Hv%lifted_Ok%map_err_Ok&H).
  apply bind_Ok in H as (i&_&H). destruct (str_eqb (integrity_str i) _); [|done]. simpl in H.
  apply bind_Ok in H as (d1&_&H). apply bind_Ok in H as (d2&_&H).
  apply bind_Ok in H as (key&_&H). apply bind_Ok in H as (c&[Hc Hpeer]%lifted_Ok%decode_peer_Ok&H).
  apply bind_Ok in H as (pc&Hplat%lifted_Ok%decode_platform_Ok&_).
  split.
  - by exists source.
  - by exists n.
  - by exists v.
  - by exists c.
  - destruct Hplat as [[? _]|?]; [by left|right; by exists pc].
Qed.
Lemma workspace_validate_source w :
  LockedWorkspacePackage_validate w = Ok () → workspace_ok (wp_source w).
Proof.
  unfold LockedWorkspacePackage_validate. intros (source&Hs%lifted_Ok&H)%bind_Ok.
  case_bool_decide as Heq; [|done]. unfold workspace_ok. congruence.
Qed.
Lemma workspace_key_ok w :
  workspace_ok (wp_source w) →
  ∃ k, key_ok k ∧ LockedWorkspacePackage_key w = Ok (key_display k) ∧
    key_source k = Workspace (wp_source w).
Proof.
  intros Hw. destruct (key_workspace_ok _ Hw) as (k&Hk&Hok&Hs&_).
  exists k. unfold LockedWorkspacePackage_key. by rewrite Hk.
Qed.

(** *** Validation never panics *)
Lemma LockedPackage_key_safe p source n v :
  PackageSource_from_str (lp_registry p) = Ok source → PackageName_from_str (lp_name p) = Ok n →
  PackageVersion_from_str (lp_version p) = Ok v → safe (LockedPackage_key p).
Proof. intros Hs Hn Hv. unfold LockedPackage_key. by rewrite Hs, Hn, Hv. Qed.
Lemma validate_alias_safe own dependencies entry :
  safe own → safe (validate_alias own dependencies entry).
Proof.
  destruct entry as [name actual]. intros Hown. unfold validate_alias.
  apply bind_safe; [auto with lock_safe|intros _ _].
  apply bind_safe; [auto with lock_safe|intros _ _].
  destruct (dependencies !! name) as [dependency|].
  - apply bind_safe; [auto with lock_safe|intros target _]. apply if_safe; [|done].
    apply bind_safe; auto with lock_safe.
  - apply bind_safe; auto with lock_safe.
Qed.
Lemma LockedPackage_validate_safe p : safe (LockedPackage_validate p).
Proof.
  unfold LockedPackage_validate.
  apply bind_safe; [auto with lock_safe|intros source Hs%lifted_Ok%map_err_Ok].
  apply if_safe; [auto with lock_safe|].
  apply bind_safe; [auto with lock_safe|intros n Hn%lifted_Ok%map_err_Ok].
  apply bind_safe; [auto with lock_safe|intros v Hv%lifted_Ok%map_err_Ok].
  pose proof (LockedPackage_key_safe _ _ _ _ Hs Hn Hv) as Hkey.
  apply bind_safe; [auto with lock_safe|intros i _]. apply if_safe; [auto with lock_safe|].
  apply bind_safe; [auto with lock_safe|intros _ _].
  apply bind_safe; [auto with lock_safe|intros _ _].
  apply bind_safe; [done|intros key _].
  apply bind_safe; [auto with lock_safe|intros _ _].
  apply bind_safe; [auto with lock_safe|intros _ _].
  apply bind_safe; [unfold validate_evidence; auto with lock_safe|intros _ _].
  apply bind_safe; [destruct (artifact_url p); auto with lock_safe|intros _ _].
  apply bind_safe; [|intros _ _; apply for_each_safe; intros; apply lifted_safe].
  apply for_each_safe. intros. by apply validate_alias_safe.
Qed.
Lemma LockedPackage_key_valid_safe p : LockedPackage_validate p = Ok () → safe (LockedPackage_key p).
Proof.
  intros (k&_&Hk&_)%LockedPackage_validate_identity%package_identity_key. by rewrite Hk.
Qed.
Lemma workspace_key_safe w : workspace_ok (wp_source w) → safe (LockedWorkspacePackage_key w).
Proof. intros (k&_&Hk&_)%workspace_key_ok. by rewrite Hk. Qed.
Lemma LockedWorkspacePackage_validate_safe w : safe (LockedWorkspacePackage_validate w).
Proof.
  unfold LockedWorkspacePackage_validate.
  apply bind_safe; [auto with lock_safe|intros source Hs%lifted_Ok].
  case_bool_decide as Heq; [|by auto with lock_safe]. simpl.
  assert (safe (LockedWorkspacePackage_key w)) as Hkey.
  { apply workspace_key_safe. unfold workspace_ok. congruence. }
  apply bind_safe; [auto with lock_safe|intros d _]. apply if_safe.
  { apply bind_safe; auto with lock_safe. }
  apply bind_safe.
  - apply for_each_safe. intros [name dependency] _. unfold validate_workspace_edge.
    apply bind_safe; [auto with lock_safe|intros target _]. apply if_safe.
    + apply bind_safe; auto with lock_safe.
    + apply bind_safe; [done|intros]. auto with lock_safe.
  - intros _ _. apply for_each_safe. intros. by apply validate_alias_safe.
Qed.

(** *** Operations of the lockfile *)
Inductive lock_op :=
| InsertGraph (ps : list LockedPackage) (ws : list LockedWorkspacePackage)
| SetDerivedHooks (key : string) (outputs : list DerivedHookOutput)
| SetRoots (new_roots : list string)
| SetRootBindings (bindings : gmap string string).
Definition run_op (op : lock_op) : mutating Lockfile failure () :=
  match op with
  | InsertGraph ps ws => insert_graph ps ws
  | SetDerivedHooks key outputs => set_derived_hooks key outputs
  | SetRoots new_roots => set_roots new_roots
  | SetRootBindings bindings => set_root_bindings bindings
  end.

Lemma plan_graph_safe l ps ws : safe (plan_graph l ps ws).
Proof.
  unfold plan_graph. apply bind_safe; [|intros batch _; apply bind_safe; [|intros wbatch _]].
  - apply try_fold_safe. intros batch p _. unfold batch_package.
    apply bind_safe; [apply LockedPackage_validate_safe|intros [] Hv].
    apply bind_safe; [by apply LockedPackage_key_valid_safe|]. auto with lock_safe.
  - apply try_fold_safe. intros wbatch w _. unfold batch_workspace.
    apply bind_safe; [apply LockedWorkspacePackage_validate_safe|intros [] Hv].
    apply bind_safe; [by apply workspace_key_safe, workspace_validate_source|].
    auto with lock_safe.
  - apply bind_safe; [apply for_each_safe; intros; apply lifted_safe|intros _ _].
    apply bind_safe; [apply for_each_safe; intros; apply lifted_safe|done].
Qed.
Lemma run_op_atomic l (op : lock_op) :
  match run_op op l with
  | (_, Ok ()) => True
  | (l', Err e) => l' = l ∧ e ≠ Panics
  end.
Proof.
  destruct op as [ps ws|key outputs|new_roots|bindings]; simpl.
  - unfold insert_graph, mbind, mutating_bind, mut_get, mut_lift. simpl.
    pose proof (plan_graph_safe l ps ws) as Hsafe.
    destruct (plan_graph l ps ws) as [[b wb]|e]; simpl; [done|]. split; [done|congruence].
  - unfold set_derived_hooks, mbind, mutating_bind, mut_get, mut_lift. simpl.
    destruct (lifted (validate_derived_hooks outputs)) as [u|e] eqn:Hv; simpl.
    + destruct (packages l !! key); simpl; done.
    + split; [done|]. intros ->. by apply (lifted_safe (validate_derived_hooks outputs)).
  - unfold set_roots, mbind, mutating_bind, mut_get, mut_lift. simpl.
    destruct (for_each (check_root l) _) as [u|e] eqn:Hv; simpl; [done|].
    split; [done|]. intros ->. revert Hv. apply for_each_safe. intros root _.
    unfold check_root. apply bind_safe; auto with lock_safe.
  - unfold set_root_bindings, mbind, mutating_bind, mut_get, mut_lift. simpl.
    destruct (for_each (check_binding l) _) as [u|e] eqn:Hv; simpl.
    + destruct (for_each (check_bound bindings) _) as [u'|e] eqn:Hb; simpl; [done|].
      split; [done|]. intros ->. revert Hb. apply for_each_safe. intros root _.
      unfold check_bound. auto with lock_safe.
    + split; [done|]. intros ->. revert Hv. apply for_each_safe. intros [name target] _.
      unfold check_binding. apply bind_safe; [auto with lock_safe|intros].
      apply bind_safe; auto with lock_safe.
Qed.
(** C33: no operation on a lockfile panics, whatever packages, hooks, roots or
    bindings it is given, and a failing operation leaves the lockfile untouched. *)
Theorem run_op_safe_atomic l (op : lock_op) :
  match run_op op l with
  | (_, Ok ()) => True
  | (l', Err e) => l' = l ∧ e ≠ Panics
  end.
Proof. apply run_op_atomic. Qed.

(** *** Batches *)
Lemma batch_fold {A} (validate : A → lock_result ()) (keyf : A → lock_result string)
    (taken : string → bool) (l : list A) (batch : gmap string A) :
  try_fold (λ (batch : gmap string A) x,
    _ ← validate x; key ← keyf x;
    if taken key || contains_key key batch then fail (DuplicatePackage key)
    else Ok (<[key := x]> batch)) ∅ l = Ok batch →
  (∀ key x, batch !! key = Some x ↔ x ∈ l ∧ keyf x = Ok key) ∧
  (∀ x, x ∈ l → validate x = Ok ()) ∧
  (∀ key, is_Some (batch !! key) → taken key = false).
Proof.
  apply (try_fold_prefix (λ pre (batch : gmap string A),
    (∀ key x, batch !! key = Some x ↔ x ∈ pre ∧ keyf x = Ok key) ∧
    (∀ x, x ∈ pre → validate x = Ok ()) ∧
    (∀ key, is_Some (batch !! key) → taken key = false))).
  2:{ split_and!.
      - intros key x. rewrite lookup_empty, elem_of_nil. naive_solver.
      - by intros x ?%not_elem_of_nil.
      - intros key. rewrite lookup_empty. by intros [? ?]. }
  intros pre x post b b' _ (Hb&Hv&Ht) ([]&Hval&H)%bind_Ok.
  apply bind_Ok in H as (key&Hkey&H).
  destruct (taken key || contains_key key b) eqn:E; [done|]. injection H as <-.
  apply orb_false_iff in E as [Htaken Hfresh%contains_key_false]. split_and!.
  - intros key' y. rewrite lookup_insert_Some, Hb, elem_of_app, list_elem_of_singleton. split.
    + intros [[<- <-]|[Hne [Hy Hk]]]; [by auto|by auto].
    + intros [[Hy| ->] Hk].
      * right. split; [|done]. intros <-. assert (b !! key = Some y) as Hby by by apply Hb.
        congruence.
      * left. split; congruence.
  - intros y [?|Hy%list_elem_of_singleton]%elem_of_app; [by apply Hv|by subst].
  - intros key' [y Hy]. apply lookup_insert_Some in Hy as [[<- _]|[_ Hy]]; [done|].
    apply Ht. by exists y.
Qed.

Lemma validate_target_mono package aliases (f g : string → bool) entry :
  (∀ key, f key = true → g key = true) →
  validate_dependency_target package aliases f entry = Ok () →
  validate_dependency_target package aliases g entry = Ok ().
Proof.
  destruct entry as [name dependency]. intros Hfg. unfold validate_dependency_target.
  destruct (LockfilePackageKey_from_str dependency) as [target|e]; simpl; [|done].
  destruct (str_eqb _ _); [done|]. destruct (_ && _); [done|].
  rewrite !ensure_Ok. apply Hfg.
Qed.
Lemma package_edges_mono (f g : string → bool) entry :
  (∀ key, f key = true → g key = true) →
  validate_package_edges f entry = Ok () → validate_package_edges g entry = Ok ().
Proof.
  intros Hfg. unfold validate_package_edges. rewrite !lifted_Ok, !for_each_Ok.
  intros H e He. eapply validate_target_mono; [done|by apply H].
Qed.
Lemma workspace_edges_mono (f g : string → bool) entry :
  (∀ key, f key = true → g key = true) →
  validate_workspace_edges f entry = Ok () → validate_workspace_edges g entry = Ok ().
Proof.
  intros Hfg. unfold validate_workspace_edges. rewrite !lifted_Ok, !for_each_Ok.
  intros H e He. eapply validate_target_mono; [done|by apply H].
Qed.

(** *** Inserting a graph *)
Record inserted l (ps : list LockedPackage) (ws : list LockedWorkspacePackage) l' : Prop := {
  in_packages key p : packages l' !! key = Some p ↔
    packages l !! key = Some p ∨ (p ∈ ps ∧ LockedPackage_key p = Ok key);
  in_workspaces key w : workspace_packages l' !! key = Some w ↔
    workspace_packages l !! key = Some w ∨ (w ∈ ws ∧ LockedWorkspacePackage_key w = Ok key);
  in_fresh key : (∃ p, p ∈ ps ∧ LockedPackage_key p = Ok key) ∨
    (∃ w, w ∈ ws ∧ LockedWorkspacePackage_key w = Ok key) → contains_package_key l key = false;
  in_valid p : p ∈ ps → LockedPackage_validate p = Ok () ∧
    ∃ key, LockedPackage_key p = Ok key ∧
      validate_package_edges (contains_package_key l') (key, p) = Ok ();
  in_workspace_valid w : w ∈ ws → LockedWorkspacePackage_validate w = Ok () ∧
    ∃ key, LockedWorkspacePackage_key w = Ok key ∧
      validate_workspace_edges (contains_package_key l') (key, w) = Ok ();
  in_version : lockfile_version l' =
    (if existsb is_copied ps then COPIED_SOURCE_LOCKFILE_VERSION else lockfile_version l);
  in_rest : root_manifest_digest l' = root_manifest_digest l ∧ roots l' = roots l ∧
    lf_root_bindings l' = lf_root_bindings l ∧ resolver_version l' = resolver_version l ∧
    linker_version l' = linker_version l;
}.
Lemma contains_package_key_true l key :
  contains_package_key l key = true ↔
  is_Some (packages l !! key) ∨ is_Some (workspace_packages l !! key).
Proof. unfold contains_package_key. by rewrite orb_true_iff, !contains_key_true. Qed.
Lemma contains_package_key_false l key :
  contains_package_key l key = false ↔
  packages l !! key = None ∧ workspace_packages l !! key = None.
Proof. unfold contains_package_key. by rewrite orb_false_iff, !contains_key_false. Qed.
Lemma insert_graph_inserted l ps ws l' :
  insert_graph ps ws l = (l', Ok ()) → inserted l ps ws l'.
Proof.
  unfold insert_graph, mbind, mutating_bind, mut_get, mut_lift, mut_put. simpl.
  destruct (plan_graph l ps ws) as [[b wb]|e] eqn:Hplan; simpl; [|done]. intros [= <-].
  unfold plan_graph in Hplan. apply bind_Ok in Hplan as (b'&Hb&Hplan).
  apply bind_Ok in Hplan as (wb'&Hwb&Hplan). apply bind_Ok in Hplan as ([]&Hedges&Hplan).
  apply bind_Ok in Hplan as ([]&Hwedges&[= <- <-]).
  apply batch_fold in Hb as (Hb&Hv&Ht).
  apply (batch_fold _ _ (λ key, contains_package_key l key || contains_key key b')) in Hwb
    as (Hwb&Hwv&Hwt).
  set (l1 := if existsb is_copied ps then with_version l COPIED_SOURCE_LOCKFILE_VERSION else l).
  assert (packages l1 = packages l ∧ workspace_packages l1 = workspace_packages l) as [Hp Hw].
  { unfold l1. by destruct (existsb is_copied ps). }
  assert (b' ##ₘ packages l) as Hdis.
  { apply map_disjoint_spec. intros key x y Hx Hy.
    assert (contains_package_key l key = false) as [Hnone _]%contains_package_key_false
      by (apply Ht; by eexists). congruence. }
  assert (wb' ##ₘ workspace_packages l) as Hwdis.
  { apply map_disjoint_spec. intros key x y Hx Hy.
    assert (contains_package_key l key || contains_key key b' = false) as Hf
      by (apply Hwt; by eexists).
    apply orb_false_iff in Hf as [[_ Hnone]%contains_package_key_false _]. congruence. }
  set (l2 := with_packages l1 (b' ∪ packages l1) (wb' ∪ workspace_packages l1)).
  assert (∀ key, contains_package_key l key || contains_key key b' || contains_key key wb' = true →
    contains_package_key l2 key = true) as Hexists.
  { intros key. rewrite !orb_true_iff, !contains_package_key_true, !contains_key_true.
    simpl. rewrite Hp, Hw, !lookup_union_is_Some. tauto. }
  split.
  - intros key p. simpl. rewrite Hp, lookup_union_Some, Hb by done. tauto.
  - intros key w. simpl. rewrite Hw, lookup_union_Some, Hwb by done. tauto.
  - intros key [(p&Hin&Hk)|(w&Hin&Hk)].
    + apply Ht. exists p. by apply Hb.
    + assert (contains_package_key l key || contains_key key b' = false) as Hf
        by (apply Hwt; exists w; by apply Hwb).
      by apply orb_false_iff in Hf as [? _].
  - intros p Hin. pose proof (Hv p Hin) as Hval. split; [done|].
    destruct (package_identity_key p) as (k&_&Hk&_).
    { by apply LockedPackage_validate_identity. }
    exists (key_display k). split; [done|].
    eapply package_edges_mono; [exact Hexists|]. apply (proj1 (for_each_Ok _ _ _) Hedges).
    apply elem_of_btree_iter. by apply Hb.
  - intros w Hin. pose proof (Hwv w Hin) as Hval. split; [done|].
    destruct (workspace_key_ok w) as (k&_&Hk&_). { by apply workspace_validate_source. }
    exists (key_display k). split; [done|].
    eapply workspace_edges_mono; [exact Hexists|]. apply (proj1 (for_each_Ok _ _ _) Hwedges).
    apply elem_of_btree_iter. by apply Hwb.
  - simpl. unfold l1. by destruct (existsb is_copied ps).
  - simpl. unfold l1. by destruct (existsb is_copied ps).
Qed.
(** A successful insertion adds exactly the given packages under their own,
    previously unused keys and keeps everything else - the version alone is raised to
    the copied-source schema when a copied package is among them; every inserted
    package is valid and all of its dependencies exist afterwards. *)
Theorem insert_graph_spec l ps ws l' :
  insert_graph ps ws l = (l', Ok ()) → inserted l ps ws l'.
Proof. apply insert_graph_inserted. Qed.
End lockfile_theory.

(** *** Samples *)
Definition sample_digest : string := "sha256-" +:+ to_ascii_lowercase sample_hex.
Definition sample_hook : DerivedHookOutput :=
  mk_hook ("hmac-sha256-" +:+ to_ascii_lowercase sample_hex) "install" sample_digest sample_digest.
Lemma validate_derived_hooks_spec_witness :
  (length [sample_hook] <= 3)%nat ∧
  hook <$> [sample_hook] `sublist_of` ["preinstall"; "install"; "postinstall"] ∧
  Forall hook_ok [sample_hook].
Proof. apply (validate_derived_hooks_spec [sample_hook]). reflexivity. Defined.

Definition sample_origin_text : string := "https://registry.npmjs.org".
Definition sample_integrity : string := "sha512-" +:+ sample_encode (str_repeat 64 "x").
Definition sample_key (name version : string) : string :=
  sample_origin_text +:+ "|" +:+ name +:+ "@" +:+ version +:+ "|peer=-|platform=os=;cpu=;libc=".
Definition sample_locked (name version : string) (dependencies : gmap string string) : LockedPackage :=
  mk_package sample_origin_text name version sample_integrity (Some true) sample_digest
    sample_digest [] None "" "os=;cpu=;libc=" dependencies ∅.
Definition sample_locked_workspace : LockedWorkspacePackage :=
  mk_workspace_package sample_workspace sample_digest {["left-pad" := sample_key "left-pad" "1.3.0"]} ∅.
Definition sample_batch : list LockedPackage :=
  [sample_locked "left-pad" "1.3.0" ∅;
   sample_locked "acme" "2.0.0" {["left-pad" := sample_key "left-pad" "1.3.0"]}].
Definition empty_lockfile : Lockfile :=
  mk_lockfile LOCKFILE_VERSION sample_digest "0" "0" [] ∅ ∅ ∅.
Definition inserted_lockfile : Lockfile :=
  (insert_graph sample_batch [sample_locked_workspace] empty_lockfile).1.
Lemma insert_graph_spec_witness :
  inserted empty_lockfile sample_batch [sample_locked_workspace] inserted_lockfile.
Proof.
  apply insert_graph_spec, injective_projections; [reflexivity|]. vm_compute. reflexivity.
Defined.
Lemma run_op_safe_atomic_witness :
  (run_op (SetRoots [sample_key "absent" "1.0.0"]) inserted_lockfile).1 = inserted_lockfile.
Proof.
  pose proof (run_op_safe_atomic inserted_lockfile (SetRoots [sample_key "absent" "1.0.0"])) as H.
  assert (is_ok (run_op (SetRoots [sample_key "absent" "1.0.0"]) inserted_lockfile).2 = false) as Hok
    by (vm_compute; reflexivity).
  destruct (run_op _ _) as [l' [[]|e]]; [discriminate Hok|exact (proj1 H)].
Defined.
