(* ===== verification/LockfileJson.v ===== *)
(** * tapid-lockfile: the JSON form of the lockfile

    The derived serialization of the lockfile records with their field attributes,
    [Lockfile::to_json] and [Lockfile::from_json] with all of its validation
    (crates/tapid-lockfile/src/model.rs), and the round trip of every lockfile that
    the public operations can build. *)
From S2P Require Import Prelude Order RustStr Crates Samples Core LockKey Json Lockfile.

Section lockfile_json.
Context `{SV : Semver} `{UC : UrlCrate} `{B64 : Base64} `{JC : JsonCodec}.

(** ** [#[derive(Serialize)]] *)
Definition write_hook (h : DerivedHookOutput) : json :=
  write_struct [field "attestation" (JString (attestation h));
           field "hook" (JString (hook h));
           field "key" (JString (hook_key h));
           field "treeDigest" (JString (hook_tree_digest h))].
Definition write_package (p : LockedPackage) : json :=
  write_struct [
    field "registry" (JString (lp_registry p));
    field "name" (JString (lp_name p));
    field "version" (JString (lp_version p));
    field "artifactIntegrity" (JString (artifact_integrity p));
    field_unless (bool_decide (registry_integrity_declared p = None)) "registryIntegrityDeclared"
      (from_option JBool JNull (registry_integrity_declared p));
    field "unpackedDigest" (JString (unpacked_digest p));
    field "treeDigest" (JString (tree_digest p));
    field_unless (bool_decide (derived_hooks p = [])) "derivedHooks"
      (JArray (write_hook <$> derived_hooks p));
    field_unless (bool_decide (artifact_url p = None)) "artifactUrl"
      (from_option JString JNull (artifact_url p));
    field_unless (is_empty (lp_peer_context p)) "peerContext" (JString (lp_peer_context p));
    field_unless (is_empty (lp_platform_context p)) "platformContext"
      (JString (lp_platform_context p));
    field "dependencies" (write_map JString (lp_dependencies p));
    field_unless (bool_decide (lp_dependency_aliases p = ∅)) "dependencyAliases"
      (write_map JString (lp_dependency_aliases p))].
Definition write_source (s : LocalWorkspaceSource) : json :=
  write_struct [field "path" (JString (ws_path s));
           field "name" (JString (ws_name s));
           field "version" (JString (ws_version s))].
Definition write_workspace (p : LockedWorkspacePackage) : json :=
  write_struct [
    field "source" (write_source (wp_source p));
    field "manifestDigest" (JString (manifest_digest p));
    field_unless (bool_decide (wp_dependencies p = ∅)) "dependencies"
      (write_map JString (wp_dependencies p));
    field_unless (bool_decide (wp_dependency_aliases p = ∅)) "dependencyAliases"
      (write_map JString (wp_dependency_aliases p))].
Definition write_lockfile (l : Lockfile) : json :=
  write_struct [
    field "lockfileVersion" (JNumber (lockfile_version l));
    field "rootManifestDigest" (JString (root_manifest_digest l));
    field "resolverVersion" (JString (resolver_version l));
    field "linkerVersion" (JString (linker_version l));
    field_unless (bool_decide (roots l = [])) "roots" (write_strings (roots l));
    field_unless (bool_decide (lf_root_bindings l = ∅)) "rootBindings"
      (write_map JString (lf_root_bindings l));
    field "packages" (write_map write_package (packages l));
    field_unless (bool_decide (workspace_packages l = ∅)) "workspacePackages"
      (write_map write_workspace (workspace_packages l))].

(** ** [#[derive(Deserialize)]] *)
Definition hook_specs : list (string * presence) :=
  [("attestation", Required); ("hook", Required); ("key", Required); ("treeDigest", Required)].
Definition read_hook (v : json) : option DerivedHookOutput :=
  fields ← struct_fields true hook_specs v;
  match fields with
  | [Some a; Some h; Some k; Some t] =>
      a ← read_string a; h ← read_string h; k ← read_string k; t ← read_string t;
      Some (mk_hook a h k t)
  | _ => None
  end.
Definition package_specs : list (string * presence) :=
  [("registry", Required); ("name", Required); ("version", Required);
   ("artifactIntegrity", Required); ("registryIntegrityDeclared", Defaulted);
   ("unpackedDigest", Required); ("treeDigest", Required); ("derivedHooks", Defaulted);
   ("artifactUrl", Optional); ("peerContext", Defaulted); ("platformContext", Defaulted);
   ("dependencies", Required); ("dependencyAliases", Defaulted)].
Definition read_package (v : json) : option LockedPackage :=
  fields ← struct_fields false package_specs v;
  match fields with
  | [r; n; v; i; d; u; t; h; a; pe; pl; ds; al] =>
      r ← read_field read_string None r;
      n ← read_field read_string None n;
      v ← read_field read_string None v;
      i ← read_field read_string None i;
      d ← read_field (read_option read_bool) (Some None) d;
      u ← read_field read_string None u;
      t ← read_field read_string None t;
      h ← read_field (read_vec read_hook) (Some []) h;
      a ← read_field (read_option read_string) (Some None) a;
      pe ← read_field read_string (Some "") pe;
      pl ← read_field read_string (Some "") pl;
      ds ← read_field (read_map read_string) None ds;
      al ← read_field (read_map read_string) (Some ∅) al;
      Some (mk_package r n v i d u t h a pe pl ds al)
  | _ => None
  end.
(** [Deserialize for LocalWorkspaceSource] validates through [new]. *)
Definition source_specs : list (string * presence) :=
  [("path", Required); ("name", Required); ("version", Required)].
Definition read_source (v : json) : option LocalWorkspaceSource :=
  fields ← struct_fields false source_specs v;
  match fields with
  | [Some p; Some n; Some v] =>
      p ← read_string p; n ← read_string n; v ← read_string v;
      to_ok (LocalWorkspaceSource_new p n v)
  | _ => None
  end.
Definition workspace_specs : list (string * presence) :=
  [("source", Required); ("manifestDigest", Required); ("dependencies", Defaulted);
   ("dependencyAliases", Defaulted)].
Definition read_workspace (v : json) : option LockedWorkspacePackage :=
  fields ← struct_fields false workspace_specs v;
  match fields with
  | [s; d; ds; al] =>
      s ← read_field read_source None s;
      d ← read_field read_string None d;
      ds ← read_field (read_map read_string) (Some ∅) ds;
      al ← read_field (read_map read_string) (Some ∅) al;
      Some (mk_workspace_package s d ds al)
  | _ => None
  end.
Definition lockfile_specs : list (string * presence) :=
  [("lockfileVersion", Required); ("rootManifestDigest", Required);
   ("resolverVersion", Required); ("linkerVersion", Required); ("roots", Defaulted);
   ("rootBindings", Defaulted); ("packages", Required); ("workspacePackages", Defaulted)].
Definition read_lockfile (v : json) : option Lockfile :=
  fields ← struct_fields false lockfile_specs v;
  match fields with
  | [v; d; r; l; rs; b; ps; ws] =>
      v ← read_field read_u32 None v;
      d ← read_field read_string None d;
      r ← read_field read_string None r;
      l ← read_field read_string None l;
      rs ← read_field (read_vec read_string) (Some []) rs;
      b ← read_field (read_map read_string) (Some ∅) b;
      ps ← read_field (read_map read_package) None ps;
      ws ← read_field (read_map read_workspace) (Some ∅) ws;
      Some (mk_lockfile v d r l rs b ps ws)
  | _ => None
  end.

(** ** [Lockfile::to_json] *)
Definition to_json (l : Lockfile) : lock_result string :=
  _ ← validate_alias_schema l;
  if (ROOTS_LEGACY_LOCKFILE_VERSION <=? lockfile_version l)%Z && has_packages l
     && bool_decide (roots l = [])
  then fail MissingRoots
  else match (if (ROOTS_LEGACY_LOCKFILE_VERSION <=? lockfile_version l)%Z
              then unproven l else None) with
       | Some key => fail (MissingRegistryIntegrityProvenance key)
       | None => Ok (json_pretty (write_lockfile l) +:+ newline)
       end.

(** ** [Lockfile::from_json] *)
Definition supported_version (version : Z) : bool :=
  (version =? COPIED_SOURCE_LOCKFILE_VERSION)%Z || (version =? LOCKFILE_VERSION)%Z
  || (version =? LIFECYCLE_LOCKFILE_VERSION)%Z || (version =? LEGACY_LOCKFILE_VERSION)%Z
  || (version =? PROVENANCE_LEGACY_LOCKFILE_VERSION)%Z
  || (version =? REGISTRY_ONLY_LOCKFILE_VERSION)%Z.
Definition check_package_entry (entry : string * LockedPackage) : lock_result () :=
  let '(key, package) := entry in
  _ ← lifted (LockfilePackageKey_from_str key);
  _ ← LockedPackage_validate package;
  own ← LockedPackage_key package;
  if negb (str_eqb key own) then fail (PackageKeyMismatch key) else Ok ().
Definition check_workspace_entry (entry : string * LockedWorkspacePackage) : lock_result () :=
  let '(key, package) := entry in
  _ ← lifted (LockfilePackageKey_from_str key);
  _ ← LockedWorkspacePackage_validate package;
  own ← LockedWorkspacePackage_key package;
  if negb (str_eqb key own) then fail (PackageKeyMismatch key) else Ok ().
Definition check_graph (l : Lockfile) : lock_result () :=
  _ ← for_each check_package_entry (btree_iter (packages l));
  _ ← for_each check_workspace_entry (btree_iter (workspace_packages l));
  _ ← for_each (validate_package_edges (contains_package_key l)) (btree_iter (packages l));
  for_each (validate_workspace_edges (contains_package_key l)) (btree_iter (workspace_packages l)).
(** The checks of [from_json] between the parse and the graph. *)
Definition check_header (l : Lockfile) : lock_result () :=
  if (PROVENANCE_LEGACY_LOCKFILE_VERSION <=? lockfile_version l)%Z && has_packages l
     && bool_decide (roots l = [])
  then fail MissingRoots
  else match (if (REGISTRY_ONLY_LOCKFILE_VERSION <=? lockfile_version l)%Z
              then unproven l else None) with
       | Some key => fail (MissingRegistryIntegrityProvenance key)
       | None =>
           if negb (bool_decide (dedup (sort (roots l)) = roots l)) then fail NonCanonicalRoots
           else if (lockfile_version l <? LOCKFILE_VERSION)%Z
                   && negb (bool_decide (workspace_packages l = ∅))
           then fail WorkspaceIdentityRequiresCurrentVersion
           else _ ← for_each (check_root l) (roots l); validate_alias_schema l
       end.
Definition rebind (l : Lockfile) : lock_result Lockfile :=
  if negb (bool_decide (lf_root_bindings l = ∅))
  then match set_root_bindings (lf_root_bindings l) l with
       | (l', Ok _) => Ok l'
       | (_, Err e) => Err e
       end
  else Ok l.
Definition with_digest (l : Lockfile) (digest : string) : Lockfile :=
  mk_lockfile (lockfile_version l) digest (resolver_version l) (linker_version l)
    (roots l) (lf_root_bindings l) (packages l) (workspace_packages l).
Definition from_json (input : string) : lock_result Lockfile :=
  l ← lifted (ok_or (Serialization (json_message input))
                (v ← json_parse input; read_lockfile v));
  if negb (supported_version (lockfile_version l))
  then fail (UnsupportedVersion (lockfile_version l)) else
  digest ← lifted (canonical_artifact_digest (root_manifest_digest l));
  let l := with_digest l digest in
  _ ← check_header l;
  l ← rebind l;
  _ ← check_graph l;
  Ok l.
End lockfile_json.
