(* ===== verification/LockfileInv.v ===== *)
(** * tapid-lockfile: the lockfile invariant and the round trip

    What every lockfile satisfies that the public operations can build - created,
    parsed, edited in any order - and the round trip of [Lockfile::to_json] and
    [Lockfile::from_json] over those lockfiles. *)
From S2P Require Import Prelude Order RustStr Crates Samples Core LockKey Json Lockfile LockfileJson.

Section lockfile_inv.
Context `{SV : Semver} `{SL : !SemverLaws} `{UC : UrlCrate} `{UL : !UrlLaws} `{B64 : Base64}
  `{JC : JsonCodec}.
Implicit Types (p : LockedPackage) (w : LockedWorkspacePackage) (l : Lockfile) (key : string).

(** ** The invariant *)
(** A copied package without derived outputs, or a registry package. *)
Definition hooks_allowed p : Prop := is_copied p = true → derived_hooks p = [].
Record package_ok l key p : Prop := {
  po_valid : LockedPackage_validate (with_hooks p []) = Ok ();
  po_key : LockedPackage_key p = Ok key;
  po_edges : validate_package_edges (contains_package_key l) (key, p) = Ok ();
}.
Record workspace_package_ok l key w : Prop := {
  wo_valid : LockedWorkspacePackage_validate w = Ok ();
  wo_key : LockedWorkspacePackage_key w = Ok key;
  wo_edges : validate_workspace_edges (contains_package_key l) (key, w) = Ok ();
}.
Record lock_inv l : Prop := {
  li_version : supported_version (lockfile_version l) = true;
  li_digest : canonical_digest (root_manifest_digest l);
  li_roots : StronglySorted lt_of (roots l);
  li_root root : root ∈ roots l → contains_package_key l root = true;
  li_binding name target : lf_root_bindings l !! name = Some target →
    is_Some (to_ok (PackageName_from_str name)) ∧ target ∈ roots l;
  li_bound root : lf_root_bindings l ≠ ∅ → root ∈ roots l →
    (∃ name, lf_root_bindings l !! name = Some root) ∨
    (∃ k, LockfilePackageKey_from_str root = Ok k ∧ is_Some (source_workspace (key_source k)));
  li_packages key p : packages l !! key = Some p → package_ok l key p;
  li_workspaces key w : workspace_packages l !! key = Some w → workspace_package_ok l key w;
}.
Inductive reachable : Lockfile → Prop :=
| reach_new digest l : Lockfile_new digest = Ok l → reachable l
| reach_parsed input l : from_json input = Ok l → reachable l
| reach_op op l : reachable l → reachable (run_op op l).1
| reach_source_graph l : reachable l → reachable (source_graph l).

(** ** Hooks and validation *)
Lemma validate_with_hooks p (outputs : list DerivedHookOutput) :
  LockedPackage_validate p = Ok () → (is_copied p = true → outputs = []) →
  LockedPackage_validate (with_hooks p outputs) = Ok ().
Proof.
  intros H Hhooks. unfold LockedPackage_validate in H |- *. cbn -[validate_evidence LockedPackage_key] in H |- *.
  apply bind_Ok in H as (source&Hs&H). rewrite Hs. cbn -[validate_evidence LockedPackage_key].
  destruct (negb (str_eqb (source_as_str source) (lp_registry p))); [done|].
  apply bind_Ok in H as (n&Hn&H). rewrite Hn. cbn -[validate_evidence LockedPackage_key].
  apply bind_Ok in H as (v&Hv&H). rewrite Hv. cbn -[validate_evidence LockedPackage_key].
  apply bind_Ok in H as (i&Hi&H). rewrite Hi. cbn -[validate_evidence LockedPackage_key].
  destruct (negb _); [done|].
  apply bind_Ok in H as (d&Hd&H). rewrite Hd. cbn -[validate_evidence LockedPackage_key].
  apply bind_Ok in H as (t&Ht&H). rewrite Ht. cbn -[validate_evidence LockedPackage_key].
  apply bind_Ok in H as (key&Hk&H).
  change (LockedPackage_key (with_hooks p outputs)) with (LockedPackage_key p).
  rewrite Hk. cbn -[validate_evidence LockedPackage_key].
  apply bind_Ok in H as (c&Hc&H). rewrite Hc. cbn -[validate_evidence LockedPackage_key].
  apply bind_Ok in H as (f&Hf&H). rewrite Hf. cbn -[validate_evidence LockedPackage_key].
  apply bind_Ok in H as (e&He&H).
  assert (validate_evidence source (with_hooks p outputs) = Ok e) as ->; [|rewrite Hk in H; exact H].
  revert He. unfold validate_evidence. cbn.
  case_bool_decide as Hr; [done|]. simpl. destruct (_ || _) eqn:E; [done|].
  apply orb_false_iff in E as [-> _].
  rewrite Hhooks; [done|]. unfold is_copied, LockedPackage_source.
  apply lifted_Ok, map_err_Ok in Hs. rewrite Hs. simpl. apply bool_decide_eq_true.
  destruct (source_registry source); [|done]. destruct Hr. by eexists.
Qed.
Lemma validate_hooks_allowed p : LockedPackage_validate p = Ok () → hooks_allowed p.
Proof.
  unfold LockedPackage_validate, hooks_allowed, is_copied, LockedPackage_source.
  intros (source&Hs%lifted_Ok%map_err_Ok&H)%bind_Ok. rewrite Hs. simpl.
  destruct (negb _); [done|].
  do 3 (apply bind_Ok in H as (?&_&H)). destruct (negb _); [done|].
  do 5 (apply bind_Ok in H as (?&_&H)). apply bind_Ok in H as (?&He&_).
  intros Hnone%bool_decide_eq_true. revert He. unfold validate_evidence. rewrite Hnone.
  rewrite bool_decide_false by (by intros [? ?]).
  destruct (_ || _) eqn:E; [done|]. intros _. bool_prop. by eapply bool_decide_eq_true_1.
Qed.
Lemma with_hooks_self p : with_hooks (with_hooks p []) (derived_hooks p) = p.
Proof. by destruct p. Qed.
Lemma is_copied_with_hooks p outputs : is_copied (with_hooks p outputs) = is_copied p.
Proof. done. Qed.
(** Validation splits into that of the package without outputs and the rule for
    copied packages. *)
Lemma validate_split p :
  LockedPackage_validate p = Ok () ↔
  LockedPackage_validate (with_hooks p []) = Ok () ∧ hooks_allowed p.
Proof.
  split.
  - intros H. split; [by apply validate_with_hooks|by apply validate_hooks_allowed].
  - intros [H Ha]. rewrite <-(with_hooks_self p). by apply validate_with_hooks.
Qed.

(** ** Preservation *)
Lemma contains_same_keys l l' :
  (∀ key, is_Some (packages l !! key) → is_Some (packages l' !! key)) →
  (∀ key, is_Some (workspace_packages l !! key) → is_Some (workspace_packages l' !! key)) →
  ∀ key, contains_package_key l key = true → contains_package_key l' key = true.
Proof. intros Hp Hw key. rewrite !contains_package_key_true. naive_solver. Qed.
Lemma package_ok_mono l l' key p :
  (∀ key, contains_package_key l key = true → contains_package_key l' key = true) →
  package_ok l key p → package_ok l' key p.
Proof. intros Hc [? ? ?]. split; [done..|]. by eapply package_edges_mono. Qed.
Lemma workspace_package_ok_mono l l' key w :
  (∀ key, contains_package_key l key = true → contains_package_key l' key = true) →
  workspace_package_ok l key w → workspace_package_ok l' key w.
Proof. intros Hc [? ? ?]. split; [done..|]. by eapply workspace_edges_mono. Qed.
Lemma package_ok_hooks l key p outputs :
  package_ok l key p → package_ok l key (with_hooks p outputs).
Proof. intros [? ? ?]. by split. Qed.

Lemma new_inv digest l : Lockfile_new digest = Ok l → lock_inv l.
Proof.
  intros (d&[Hd _]%lifted_Ok%canonical_artifact_digest_Ok&[= <-])%bind_Ok.
  split; simpl; try done; try (by intros ? ?%not_elem_of_nil); constructor.
Qed.
Lemma insert_inv l ps ws l' : lock_inv l → inserted l ps ws l' → lock_inv l'.
Proof.
  intros [Hv Hd Hs Hr Hb Hbound Hp Hw] [Ip Iw Ifresh Ivalid Iwvalid Iv (Id&Ir&Ib&_)].
  assert (∀ key, contains_package_key l key = true → contains_package_key l' key = true) as Hmono.
  { apply contains_same_keys; intros key [x Hx]; exists x; [apply Ip|apply Iw]; auto. }
  split; rewrite ?Id, ?Ir, ?Ib; try done.
  - rewrite Iv. by destruct (existsb is_copied ps).
  - intros root Hin. by apply Hmono, Hr.
  - intros key p [Hold|[Hin Hkey]]%Ip; [eapply package_ok_mono; [done|by apply Hp]|].
    destruct (Ivalid _ Hin) as (Hval&key'&Hkey'&Hedges).
    assert (key' = key) as -> by congruence.
    apply validate_split in Hval as [? _]. by split.
  - intros key w [Hold|[Hin Hkey]]%Iw; [eapply workspace_package_ok_mono; [done|by apply Hw]|].
    destruct (Iwvalid _ Hin) as (Hval&key'&Hkey'&Hedges).
    assert (key' = key) as -> by congruence. by split.
Qed.
(** Replacing the outputs of packages and moving between supported versions. *)
Lemma hooks_inv l version (ps : gmap string LockedPackage) :
  lock_inv l → supported_version version = true →
  (∀ key, is_Some (packages l !! key) → is_Some (ps !! key)) →
  (∀ key p, ps !! key = Some p → ∃ p' outputs, packages l !! key = Some p' ∧
    p = with_hooks p' outputs) →
  lock_inv (with_version (with_packages l ps (workspace_packages l)) version).
Proof.
  intros [Hv Hd Hs Hr Hb Hbound Hp Hw] Hversion Hkeys Hps.
  set (l' := with_version _ _).
  assert (∀ key, contains_package_key l key = true → contains_package_key l' key = true) as Hmono
    by (by apply contains_same_keys).
  split; simpl; try done.
  - intros root Hin. by apply Hmono, Hr.
  - intros key p (p'&outputs&Hp'&->)%Hps.
    by apply package_ok_hooks, (package_ok_mono l), Hp.
  - intros key w Hw'. by apply (workspace_package_ok_mono l), Hw.
Qed.
Lemma with_version_self l : with_version l (lockfile_version l) = l.
Proof. by destruct l. Qed.
Lemma with_version_packages l ps ws version :
  with_version (with_packages l ps ws) version = with_packages (with_version l version) ps ws.
Proof. done. Qed.
Lemma supported_cases version :
  supported_version version = true ↔ version ∈ ([4; 5; 6; 7; 9; 10]%Z : list Z).
Proof.
  unfold supported_version, COPIED_SOURCE_LOCKFILE_VERSION, LOCKFILE_VERSION,
    LIFECYCLE_LOCKFILE_VERSION, LEGACY_LOCKFILE_VERSION, PROVENANCE_LEGACY_LOCKFILE_VERSION,
    REGISTRY_ONLY_LOCKFILE_VERSION, ROOTS_LEGACY_LOCKFILE_VERSION.
  rewrite !orb_true_iff, !Z.eqb_eq. set_solver.
Qed.
Lemma supported_max version :
  supported_version version = true →
  supported_version (Z.max version LIFECYCLE_LOCKFILE_VERSION) = true.
Proof.
  rewrite !supported_cases. unfold LIFECYCLE_LOCKFILE_VERSION. intros Hv.
  repeat (apply elem_of_cons in Hv as [->|Hv]; [simpl; set_solver|]).
  by apply not_elem_of_nil in Hv.
Qed.
Lemma set_hooks_inv l key outputs : lock_inv l → lock_inv (set_derived_hooks key outputs l).1.
Proof.
  intros Hl. unfold set_derived_hooks, mbind, mutating_bind, mut_get, mut_lift, mut_put. simpl.
  destruct (lifted (validate_derived_hooks outputs)) as [u|e]; simpl; [|done].
  destruct (packages l !! key) as [p|] eqn:Hp; simpl; [|done].
  assert (∀ version, supported_version version = true →
    lock_inv (with_version (with_packages l (<[key:=with_hooks p outputs]> (packages l))
      (workspace_packages l)) version)) as Hinv.
  { intros version Hversion. apply hooks_inv; [done|done|..].
    - intros key' [x Hx]. destruct (decide (key' = key)) as [->|Hne].
      + rewrite lookup_insert_eq. by eexists.
      + rewrite lookup_insert_ne by done. by eexists.
    - intros key' x [[<- <-]|[Hne Hx]]%lookup_insert_Some; [by eexists _, _|].
      exists x, (derived_hooks x). split; [done|]. by destruct x. }
  destruct (negb _).
  - apply Hinv. by apply supported_max, li_version.
  - apply (Hinv (lockfile_version l)). by apply li_version.
Qed.
Lemma run_set_root_bindings bindings l l' :
  set_root_bindings bindings l = (l', Ok ()) ↔
  l' = with_roots l (roots l) bindings ∧
  (∀ entry, entry ∈ btree_iter bindings → check_binding l entry = Ok ()) ∧
  (∀ root, root ∈ roots l → check_bound bindings root = Ok ()).
Proof.
  unfold set_root_bindings, mbind, mutating_bind, mut_get, mut_lift, mut_put. simpl.
  rewrite <-(for_each_Ok (check_binding l) _ ()), <-(for_each_Ok (check_bound bindings) _ ()).
  destruct (for_each (check_binding l) _) as [[]|e]; simpl; [|naive_solver].
  destruct (for_each (check_bound bindings) _) as [[]|e]; naive_solver.
Qed.
Lemma with_roots_self l : with_roots l (roots l) (lf_root_bindings l) = l.
Proof. by destruct l. Qed.
Lemma rebind_Ok l l' :
  rebind l = Ok l' ↔ l' = l ∧ (lf_root_bindings l ≠ ∅ →
    (∀ entry, entry ∈ btree_iter (lf_root_bindings l) → check_binding l entry = Ok ()) ∧
    (∀ root, root ∈ roots l → check_bound (lf_root_bindings l) root = Ok ())).
Proof.
  unfold rebind. case_bool_decide as He; simpl; [naive_solver|].
  pose proof (run_set_root_bindings (lf_root_bindings l) l) as H.
  destruct (set_root_bindings (lf_root_bindings l) l) as [l1 [[]|e]].
  - specialize (H l1) as [H _]. specialize (H eq_refl) as (->&?&?).
    rewrite with_roots_self. naive_solver.
  - split; [done|]. intros [-> Hb]. destruct (Hb He) as [??].
    assert ((l1, Err e) = (l, Ok ())) as [=]. apply H. by rewrite with_roots_self.
Qed.
Lemma check_binding_Ok l name target :
  check_binding l (name, target) = Ok () ↔
  is_Some (to_ok (PackageName_from_str name)) ∧
  is_Some (to_ok (LockfilePackageKey_from_str target)) ∧ target ∈ roots l.
Proof.
  unfold check_binding.
  destruct (PackageName_from_str name) as [n|e]; simpl; [|split; [done|by intros [[? ?] _]]].
  destruct (LockfilePackageKey_from_str target) as [k|e]; simpl;
    [|split; [done|by intros (_&[? ?]&_)]].
  case_bool_decide; simpl; (split; [intros Heq|by intros (_&_&?)]); [|done].
  split; [by eexists|]. split; [by eexists|done].
Qed.
Lemma check_bound_Ok (bindings : gmap string string) root :
  check_bound bindings root = Ok () ↔
  (∃ name, bindings !! name = Some root) ∨
  (∃ k, LockfilePackageKey_from_str root = Ok k ∧ is_Some (source_workspace (key_source k))).
Proof.
  unfold check_bound. rewrite <-elem_of_btree_values.
  destruct (decide (root ∈ btree_values bindings)) as [Hin|Hin].
  - rewrite bool_decide_true by done. naive_solver.
  - rewrite bool_decide_false by done. simpl.
    destruct (LockfilePackageKey_from_str root) as [k|e]; simpl.
    + case_bool_decide as Hs; split; try done.
      * intros [?|(k'&[= <-]&[? ?])]; [done|congruence].
      * intros _. right. exists k. split; [done|]. by apply not_eq_None_Some.
    + split; [done|]. intros [?|(k'&?&_)]; done.
Qed.
Lemma check_root_Ok l root :
  check_root l root = Ok () ↔
  is_Some (to_ok (LockfilePackageKey_from_str root)) ∧ contains_package_key l root = true.
Proof.
  unfold check_root. destruct (LockfilePackageKey_from_str root) as [k|e]; simpl.
  - destruct (contains_package_key l root); simpl; naive_solver.
  - split; [done|]. by intros [[? ?] _].
Qed.
Lemma set_roots_inv l new_roots l' :
  lock_inv l → set_roots new_roots l = (l', Ok ()) → lock_inv l'.
Proof.
  intros [Hv Hd Hs Hr Hb Hbound Hp Hw].
  unfold set_roots, mbind, mutating_bind, mut_get, mut_lift, mut_put. simpl.
  destruct (for_each (check_root l) _) as [[]|e] eqn:E; [|done]. intros [= <-].
  rewrite for_each_Ok in E. split; simpl; try done.
  - apply sort_dedup_ascending.
  - intros root Hin%E. by apply check_root_Ok in Hin as [_ ?].
  - intros key p Hp'. by apply (package_ok_mono l), Hp.
  - intros key w Hw'. by apply (workspace_package_ok_mono l), Hw.
Qed.
Lemma set_bindings_inv l bindings l' :
  lock_inv l → set_root_bindings bindings l = (l', Ok ()) → lock_inv l'.
Proof.
  intros [Hv Hd Hs Hr Hb Hbound Hp Hw] (->&Hbind&Hall)%run_set_root_bindings.
  split; simpl; try done.
  - intros name target Hn%elem_of_btree_iter.
    by apply Hbind, check_binding_Ok in Hn as (?&_&?).
  - intros root _ Hin. by apply check_bound_Ok, Hall.
  - intros key p Hp'. by apply (package_ok_mono l), Hp.
  - intros key w Hw'. by apply (workspace_package_ok_mono l), Hw.
Qed.
Lemma source_graph_inv l : lock_inv l → lock_inv (source_graph l).
Proof.
  intros Hl.
  set (version := if (lockfile_version l =? LIFECYCLE_LOCKFILE_VERSION)%Z
                  then LOCKFILE_VERSION else lockfile_version l).
  assert (source_graph l = with_version (with_packages l ((λ p, with_hooks p []) <$> packages l)
    (workspace_packages l)) version) as ->.
  { unfold source_graph, version.
    destruct (lockfile_version l =? LIFECYCLE_LOCKFILE_VERSION)%Z; [done|]. by destruct l. }
  apply hooks_inv; [done|..].
  - unfold version. destruct (_ =? _)%Z; [done|]. by apply li_version.
  - intros key [p Hp]. rewrite lookup_fmap, Hp. by eexists.
  - intros key p. rewrite lookup_fmap. intros (p'&Hp'&->)%fmap_Some_1. by eexists _, _.
Qed.

(** ** Parsed lockfiles *)
Lemma check_package_entry_Ok key p :
  check_package_entry (key, p) = Ok () ↔
  is_Some (to_ok (LockfilePackageKey_from_str key)) ∧ LockedPackage_validate p = Ok () ∧
  LockedPackage_key p = Ok key.
Proof.
  unfold check_package_entry.
  destruct (LockfilePackageKey_from_str key) as [k|e]; simpl;
    [|split; [done|by intros [[? ?] _]]].
  destruct (LockedPackage_validate p) as [[]|e]; simpl; [|naive_solver].
  destruct (LockedPackage_key p) as [own|e]; simpl; [|naive_solver].
  destruct (str_eqb key own) eqn:E; simpl.
  - apply str_eqb_true in E as <-. naive_solver.
  - split; [done|]. intros (_&_&[= ->]). by rewrite str_eqb_refl in E.
Qed.
Lemma check_workspace_entry_Ok key w :
  check_workspace_entry (key, w) = Ok () ↔
  is_Some (to_ok (LockfilePackageKey_from_str key)) ∧ LockedWorkspacePackage_validate w = Ok () ∧
  LockedWorkspacePackage_key w = Ok key.
Proof.
  unfold check_workspace_entry.
  destruct (LockfilePackageKey_from_str key) as [k|e]; simpl;
    [|split; [done|by intros [[? ?] _]]].
  destruct (LockedWorkspacePackage_validate w) as [[]|e]; simpl; [|naive_solver].
  destruct (LockedWorkspacePackage_key w) as [own|e]; simpl; [|naive_solver].
  destruct (str_eqb key own) eqn:E; simpl.
  - apply str_eqb_true in E as <-. naive_solver.
  - split; [done|]. intros (_&_&[= ->]). by rewrite str_eqb_refl in E.
Qed.

(** ** The checks as propositions *)
Definition rooted l : Prop := has_packages l = true → roots l ≠ [].
Lemma guard_Ok {A} (b : bool) (e : LockfileError) (r : lock_result A) a :
  (if b then fail e else r) = Ok a ↔ b = false ∧ r = Ok a.
Proof. destruct b; naive_solver. Qed.
Lemma rooted_guard l version :
  (version <=? lockfile_version l)%Z && has_packages l && bool_decide (roots l = []) = false ↔
  ((version <= lockfile_version l)%Z → rooted l).
Proof.
  unfold rooted. rewrite !andb_false_iff, bool_decide_eq_false, Z.leb_gt. split.
  - intros [[?|Hp]|?] ??; [lia|congruence|done].
  - intros H. destruct (decide (version <= lockfile_version l)%Z); [|left; left; lia].
    destruct (has_packages l); [right; by apply H|by left; right].
Qed.
Lemma unproven_guard {A} l version (r : lock_result A) a :
  match (if (version <=? lockfile_version l)%Z then unproven l else None) with
  | Some key => fail (MissingRegistryIntegrityProvenance key)
  | None => r
  end = Ok a ↔ ((version <= lockfile_version l)%Z → unproven l = None) ∧ r = Ok a.
Proof.
  destruct (version <=? lockfile_version l)%Z eqn:E.
  - apply Z.leb_le in E. destruct (unproven l); naive_solver.
  - apply Z.leb_gt in E. split; [|naive_solver]. intros. split; [lia|done].
Qed.
Lemma check_header_Ok l :
  check_header l = Ok () ↔
  ((5 <= lockfile_version l)%Z → rooted l) ∧
  ((6 <= lockfile_version l)%Z → unproven l = None) ∧
  dedup (sort (roots l)) = roots l ∧
  ((lockfile_version l < 7)%Z → workspace_packages l = ∅) ∧
  (∀ root, root ∈ roots l → check_root l root = Ok ()) ∧
  validate_alias_schema l = Ok ().
Proof.
  unfold check_header. rewrite guard_Ok, rooted_guard, unproven_guard, !guard_Ok.
  rewrite negb_false_iff, bool_decide_eq_true, andb_false_iff, negb_false_iff,
    bool_decide_eq_true, Z.ltb_ge.
  rewrite <-(for_each_Ok (check_root l) _ ()).
  unfold PROVENANCE_LEGACY_LOCKFILE_VERSION, REGISTRY_ONLY_LOCKFILE_VERSION,
    ROOTS_LEGACY_LOCKFILE_VERSION, LOCKFILE_VERSION.
  assert ((7 <= lockfile_version l)%Z ∨ workspace_packages l = ∅ ↔
          ((lockfile_version l < 7)%Z → workspace_packages l = ∅)) as ->.
  { split; [intros [?|?] ?; [lia|done]|]. intros H.
    destruct (decide (lockfile_version l < 7)%Z); [right; by apply H|left; lia]. }
  destruct (for_each (check_root l) (roots l)) as [[]|e]; naive_solver.
Qed.
Lemma check_graph_Ok l :
  check_graph l = Ok () ↔
  (∀ key p, packages l !! key = Some p →
     check_package_entry (key, p) = Ok () ∧
     validate_package_edges (contains_package_key l) (key, p) = Ok ()) ∧
  (∀ key w, workspace_packages l !! key = Some w →
     check_workspace_entry (key, w) = Ok () ∧
     validate_workspace_edges (contains_package_key l) (key, w) = Ok ()).
Proof.
  unfold check_graph. split.
  - intros ([]&H1&H)%bind_Ok. apply bind_Ok in H as ([]&H2&H).
    apply bind_Ok in H as ([]&H3&H4). rewrite for_each_Ok in H1. rewrite for_each_Ok in H2.
    rewrite for_each_Ok in H3. rewrite for_each_Ok in H4.
    split; intros key x Hx%elem_of_btree_iter; auto.
  - intros [Hp Hw].
    repeat (apply bind_Ok; exists (); split); apply for_each_Ok; intros [key x] Hx%elem_of_btree_iter.
    + by apply Hp.
    + by apply Hw.
    + by apply Hp.
    + by apply Hw.
Qed.
Lemma canonical_digest_fixed d : canonical_digest d → canonical_artifact_digest d = Ok d.
Proof.
  intros Hd. unfold canonical_artifact_digest, ArtifactDigest_display.
  by apply canonical_digest_parse in Hd as ->.
Qed.
(** What [from_json] establishes of its result, and the converse for a lockfile whose
    digest is already canonical. *)
Definition admitted l : Prop :=
  supported_version (lockfile_version l) = true ∧ check_header l = Ok () ∧ rebind l = Ok l ∧
  check_graph l = Ok ().
Lemma from_json_inv input l :
  from_json input = Ok l → canonical_digest (root_manifest_digest l) ∧ admitted l.
Proof.
  unfold from_json. intros (l0&_&H)%bind_Ok.
  apply guard_Ok in H as [Hv%negb_false_iff H].
  apply bind_Ok in H as (d&[Hd _]%lifted_Ok%canonical_artifact_digest_Ok&H).
  apply bind_Ok in H as ([]&Hheader&H). apply bind_Ok in H as (l1&Hrebind&H).
  apply bind_Ok in H as ([]&Hgraph&[= <-]).
  pose proof Hrebind as [-> _]%rebind_Ok. done.
Qed.
Lemma from_json_intro input v l :
  json_parse input = Some v → read_lockfile v = Some l →
  canonical_digest (root_manifest_digest l) → admitted l → from_json input = Ok l.
Proof.
  intros Hparse Hread Hd (Hv&Hheader&Hrebind&Hgraph). unfold from_json.
  rewrite Hparse. simpl. rewrite Hread. simpl. rewrite Hv. simpl.
  rewrite canonical_digest_fixed by done. simpl.
  assert (with_digest l (root_manifest_digest l) = l) as -> by by destruct l.
  rewrite Hheader. simpl. rewrite Hrebind. simpl. by rewrite Hgraph.
Qed.
Lemma parsed_inv input l : from_json input = Ok l → lock_inv l.
Proof.
  intros (Hd&Hv&Hheader&Hrebind&Hgraph)%from_json_inv.
  apply check_header_Ok in Hheader as (_&_&Hroots&_&Hroot&_).
  apply rebind_Ok in Hrebind as [_ Hbind]. apply check_graph_Ok in Hgraph as [Hp Hw].
  split; try done.
  - rewrite <-Hroots. apply sort_dedup_ascending.
  - intros root Hin. by apply Hroot, check_root_Ok in Hin as [_ ?].
  - intros name target Hn. destruct (Hbind) as [Hb _].
    { intros He. rewrite He in Hn. by rewrite lookup_empty in Hn. }
    apply elem_of_btree_iter in Hn. by apply Hb, check_binding_Ok in Hn as (?&_&?).
  - intros root Hne Hin. destruct (Hbind Hne) as [_ Hb]. by apply check_bound_Ok, Hb.
  - intros key p [He Hedges]%Hp. apply check_package_entry_Ok in He as (_&[Hval _]%validate_split&Hk).
    by split.
  - intros key w [He Hedges]%Hw. apply check_workspace_entry_Ok in He as (_&Hval&Hk).
    by split.
Qed.

Lemma reachable_lock_inv l : reachable l → lock_inv l.
Proof.
  induction 1 as [digest l Hl|input l Hl|op l _ IH|l _ IH].
  - by eapply new_inv.
  - by eapply parsed_inv.
  - destruct (run_op op l) as [l' [[]|e]] eqn:Hop; simpl.
    + destruct op as [ps ws|key outputs|new_roots|bindings]; simpl in Hop.
      * eapply insert_inv; [exact IH|by apply insert_graph_inserted].
      * pose proof (set_hooks_inv l key outputs IH) as Hinv. by rewrite Hop in Hinv.
      * by eapply set_roots_inv.
      * by eapply set_bindings_inv.
    + pose proof (run_op_atomic l op) as Hatomic. rewrite Hop in Hatomic. by destruct Hatomic as [-> _].
  - by apply source_graph_inv.
Qed.
(** The key of a package is the canonical text of its identity. *)
Lemma package_ok_key l key p :
  package_ok l key p → ∃ k, LockfilePackageKey_from_str key = Ok k ∧ key_display k = key ∧
    name_str (key_name k) = lp_name p ∧ source_workspace (key_source k) = None.
Proof.
  intros [Hval Hkey _].
  destruct (package_identity_key (with_hooks p [])) as (k&Hk&Hkk&Hname&Hsource).
  { by apply LockedPackage_validate_identity. }
  change (LockedPackage_key (with_hooks p [])) with (LockedPackage_key p) in Hkk.
  assert (key = key_display k) as -> by congruence.
  exists k. split_and!; [by apply key_parse_display|done..].
Qed.
Lemma workspace_package_ok_key l key w :
  workspace_package_ok l key w → ∃ k, LockfilePackageKey_from_str key = Ok k ∧
    key_display k = key ∧ source_workspace (key_source k) = Some (wp_source w).
Proof.
  intros [Hval Hkey _].
  destruct (workspace_key_ok w) as (k&Hk&Hkk&Hsource).
  { by apply workspace_validate_source. }
  assert (key = key_display k) as -> by congruence.
  exists k. split_and!; [by apply key_parse_display|done|]. by rewrite Hsource.
Qed.
Lemma contained_key_parses l key :
  lock_inv l → contains_package_key l key = true →
  ∃ k, LockfilePackageKey_from_str key = Ok k ∧ key_display k = key.
Proof.
  intros Hl [[p Hp]|[w Hw]]%contains_package_key_true.
  - destruct (package_ok_key l key p) as (k&?&?&_); [by apply li_packages|by exists k].
  - destruct (workspace_package_ok_key l key w) as (k&?&?&_); [by apply li_workspaces|by exists k].
Qed.

(** Dependencies lead to locked packages. *)
Lemma validated_target package aliases exists_key name target :
  validate_dependency_target package aliases exists_key (name, target) = Ok () → exists_key target = true.
Proof.
  intros (k&_&H)%bind_Ok. cbn in H. destruct (str_eqb _ _); [done|].
  destruct (_ && _); [done|]. by apply ensure_Ok in H.
Qed.
Lemma package_target l key p name target :
  lock_inv l → packages l !! key = Some p → lp_dependencies p !! name = Some target →
  contains_package_key l target = true.
Proof.
  intros Hl Hp Hd. apply li_packages in Hp as [_ _ Hedges]; [|done]. unfold validate_package_edges in Hedges.
  rewrite lifted_Ok, for_each_Ok in Hedges. eapply validated_target, Hedges. by apply elem_of_btree_iter.
Qed.
Lemma workspace_target l key w name target :
  lock_inv l → workspace_packages l !! key = Some w → wp_dependencies w !! name = Some target →
  contains_package_key l target = true.
Proof.
  intros Hl Hw Hd. apply li_workspaces in Hw as [_ _ Hedges]; [|done]. unfold validate_workspace_edges in Hedges.
  rewrite lifted_Ok, for_each_Ok in Hedges. eapply validated_target, Hedges. by apply elem_of_btree_iter.
Qed.

(** ** Reading back a written lockfile *)
Lemma read_write_hook h : read_hook (write_hook h) = Some h.
Proof. unfold read_hook, write_hook. by read_struct; destruct h. Qed.
Lemma read_write_package p : read_package (write_package p) = Some p.
Proof.
  unfold read_package, write_package. read_struct. cbn [fmap list_fmap snd field field_unless read_field].
  destruct p as [r n v i d u t hs a pe pl ds al].
  pose proof (read_field_default (read_option read_bool) None d (from_option JBool JNull d)) as Hd.
  pose proof (read_field_default (read_vec read_hook) [] hs (JArray (write_hook <$> hs))) as Hhs.
  pose proof (read_field_default (read_option read_string) None a (from_option JString JNull a)) as Ha.
  pose proof (read_field_unless read_string "" (is_empty pe) (JString pe) pe) as Hpe.
  pose proof (read_field_unless read_string "" (is_empty pl) (JString pl) pl) as Hpl.
  pose proof (read_field_default (read_map read_string) ∅ al (write_map JString al)) as Hal.
  cbn [registry_integrity_declared derived_hooks artifact_url lp_peer_context lp_platform_context
       lp_registry lp_name lp_version artifact_integrity unpacked_digest tree_digest
       lp_dependencies lp_dependency_aliases read_string mbind option_bind].
  rewrite Hd by (by destruct d). cbn [mbind option_bind].
  rewrite Hhs
    by (intros _; apply (mapM_write _ _ (λ _, True)); [intros; apply read_write_hook|by apply Forall_true]).
  cbn [mbind option_bind]. rewrite Ha by (by destruct a). cbn [mbind option_bind].
  rewrite Hpe by (by destruct pe). cbn [mbind option_bind].
  rewrite Hpl by (by destruct pl). cbn [mbind option_bind].
  change (read_field (read_map read_string) None (Some (write_map JString ds))) with (read_map read_string (write_map JString ds)).
  rewrite read_write_string_map. cbn [mbind option_bind].
  by rewrite Hal by (intros _; apply read_write_string_map).
Qed.
Lemma read_write_source source :
  workspace_ok source → read_source (write_source source) = Some source.
Proof.
  intros Hs. unfold read_source, write_source. read_struct. destruct source as [a b c].
  cbn -[LocalWorkspaceSource_new]. unfold workspace_ok in Hs. cbn -[LocalWorkspaceSource_new] in Hs.
  by rewrite Hs.
Qed.
Lemma read_write_workspace w :
  workspace_ok (wp_source w) → read_workspace (write_workspace w) = Some w.
Proof.
  intros Hs. unfold read_workspace, write_workspace. read_struct.
  destruct w as [source d ds al]. cbn -[read_source write_source read_map write_map].
  rewrite read_write_source by done. cbn -[read_map write_map].
  rewrite (read_field_default (read_map read_string) ∅ ds) by (intros _; apply read_write_string_map).
  cbn -[read_map write_map].
  rewrite (read_field_default (read_map read_string) ∅ al) by (intros _; apply read_write_string_map).
  done.
Qed.
Lemma read_write_lockfile l :
  (0 <= lockfile_version l <= u32_max)%Z →
  (∀ key w, workspace_packages l !! key = Some w → workspace_ok (wp_source w)) →
  read_lockfile (write_lockfile l) = Some l.
Proof.
  intros Hv Hw. unfold read_lockfile, write_lockfile. read_struct.
  destruct l as [v d r k rs b ps ws]. simpl in Hv, Hw.
  cbn -[read_package write_package read_workspace write_workspace read_map write_map read_u32
        write_strings].
  assert (read_u32 (JNumber v) = Some v) as ->.
  { unfold read_u32. by rewrite (proj2 (Z.leb_le 0 v)), (proj2 (Z.leb_le v _)) by tauto. }
  cbn -[read_package write_package read_workspace write_workspace read_map write_map write_strings].
  rewrite (read_field_default (read_vec read_string) [] rs) by (intros _; apply read_write_strings).
  cbn -[read_package write_package read_workspace write_workspace read_map write_map].
  rewrite (read_field_default (read_map read_string) ∅ b) by (intros _; apply read_write_string_map).
  cbn -[read_package write_package read_workspace write_workspace read_map write_map].
  rewrite (read_write_map read_package write_package (λ _, True));
    [|intros; apply read_write_package|done].
  cbn -[read_workspace write_workspace read_map write_map].
  rewrite (read_field_default (read_map read_workspace) ∅ ws)
    by (intros _; apply (read_write_map _ _ _ _ read_write_workspace Hw)).
  done.
Qed.

Lemma json_ok_string_map (m : gmap string string) n : json_ok (S (S n)) (write_map JString m) = true.
Proof. by apply json_ok_map. Qed.
Ltac json_struct :=
  apply json_ok_struct; unfold field, field_unless; forall_list; intros v;
  cbn [snd]; try (case_match; [done|]); intros [= <-].
Lemma json_ok_hook h : json_ok 2 (write_hook h) = true.
Proof. by json_struct. Qed.
Lemma json_ok_package p : json_ok 4 (write_package p) = true.
Proof.
  json_struct; try done; try apply json_ok_string_map.
  - by destruct (registry_integrity_declared p).
  - cbn -[write_hook]. apply forallb_forall. intros v Hin%list_elem_of_In.
    apply list_elem_of_fmap in Hin as (h&->&_). exact (json_ok_hook h).
  - by destruct (artifact_url p).
Qed.
Lemma json_ok_workspace w : json_ok 4 (write_workspace w) = true.
Proof.
  json_struct; try done; try apply json_ok_string_map.
Qed.
Lemma json_ok_le n m v : (n <= m)%nat → json_ok n v = true → json_ok m v = true.
Proof. induction 1; [done|]. intros. by apply json_ok_S, IHle. Qed.
Lemma json_ok_lockfile l :
  (0 <= lockfile_version l <= u32_max)%Z → json_ok json_depth (write_lockfile l) = true.
Proof.
  intros Hv. apply (json_ok_le 6); [unfold json_depth; lia|].
  json_struct; try done; try apply json_ok_string_map; try apply json_ok_strings.
  - simpl. unfold u32_max, u64_max in *. apply andb_true_iff. rewrite !Z.leb_le. lia.
  - apply json_ok_map. intros key p _. apply json_ok_package.
  - apply json_ok_map. intros key w _. apply json_ok_workspace.
Qed.

(** ** The round trip *)
Lemma to_json_Ok l text :
  to_json l = Ok text ↔
  validate_alias_schema l = Ok () ∧ ((6 <= lockfile_version l)%Z → rooted l) ∧
  ((6 <= lockfile_version l)%Z → unproven l = None) ∧
  text = json_pretty (write_lockfile l) +:+ newline.
Proof.
  unfold to_json. destruct (validate_alias_schema l) as [[]|e]; simpl; [|naive_solver].
  rewrite guard_Ok, rooted_guard, unproven_guard. unfold ROOTS_LEGACY_LOCKFILE_VERSION.
  split; [intros (?&?&[= <-])|intros (_&?&?&->)]; done.
Qed.
(** What the versions before the current one cannot represent. *)
Definition representable l : Prop :=
  (∀ key p, packages l !! key = Some p → hooks_allowed p) ∧
  ((lockfile_version l < 7)%Z → workspace_packages l = ∅) ∧
  (lockfile_version l = 5%Z → rooted l).
Lemma inv_version l : lock_inv l → (0 <= lockfile_version l <= u32_max)%Z.
Proof.
  intros Hl%li_version%supported_cases. unfold u32_max.
  repeat (apply elem_of_cons in Hl as [->|Hl]; [lia|]). by apply not_elem_of_nil in Hl.
Qed.
Lemma admitted_iff l text :
  lock_inv l → to_json l = Ok text → admitted l ↔ representable l.
Proof.
  intros Hl (Halias&Hrooted&Hproven&_)%to_json_Ok. split.
  - intros (_&Hheader&_&Hgraph). apply check_header_Ok in Hheader as (H5&_&_&Hws&_).
    apply check_graph_Ok in Hgraph as [Hp _]. split_and!; [|done|intros ?; apply H5; lia].
    intros key p [(_&[_ ?]%validate_split&_)%check_package_entry_Ok _]%Hp. done.
  - intros (Hhooks&Hws&H5). split_and!.
    + by apply li_version.
    + apply check_header_Ok. split_and!; try done.
      * intros ?. destruct (decide (lockfile_version l = 5%Z)); [by apply H5|apply Hrooted; lia].
      * by apply sort_dedup_id, ascending_sorted, li_roots.
      * intros root Hin%(li_root l Hl). apply check_root_Ok. split; [|done].
        destruct (contained_key_parses l root Hl Hin) as (k&->&_). by eexists.
    + apply rebind_Ok. split; [done|]. intros Hne. split.
      * intros [name target] [Hn Ht]%elem_of_btree_iter%(li_binding l Hl).
        apply check_binding_Ok. split_and!; [done| |done].
        destruct (contained_key_parses l target Hl) as (k&->&_); [by apply li_root|by eexists].
      * intros root Hin. apply check_bound_Ok. by apply li_bound.
    + apply check_graph_Ok. split.
      * intros key p Hp. pose proof (li_packages l Hl key p Hp) as Hok. split; [|apply Hok].
        apply check_package_entry_Ok. split_and!.
        -- destruct (package_ok_key l key p Hok) as (k&->&_). by eexists.
        -- apply validate_split. split; [apply Hok|by eapply Hhooks].
        -- apply Hok.
      * intros key w Hw. pose proof (li_workspaces l Hl key w Hw) as Hok. split; [|apply Hok].
        apply check_workspace_entry_Ok. split_and!; [|apply Hok..].
        destruct (workspace_package_ok_key l key w Hok) as (k&->&_). by eexists.
Qed.
Context `{JL : !JsonLaws}.
Lemma to_json_parse l text :
  lock_inv l → to_json l = Ok text →
  json_parse text = Some (write_lockfile l) ∧ read_lockfile (write_lockfile l) = Some l.
Proof.
  intros Hl (_&_&_&->)%to_json_Ok. pose proof (inv_version l Hl). split.
  - by apply json_parse_pretty, json_ok_lockfile.
  - apply read_write_lockfile; [done|]. intros key w Hw.
    by apply workspace_validate_source, (wo_valid l key), li_workspaces.
Qed.
Lemma to_json_from_json l text l' :
  lock_inv l → to_json l = Ok text → from_json text = Ok l' ↔ l' = l ∧ representable l.
Proof.
  intros Hl Htext. destruct (to_json_parse _ _ Hl Htext) as [Hparse Hread]. split.
  - intros Hfrom. assert (l' = l) as ->; [|split; [done|]].
    + unfold from_json in Hfrom. rewrite Hparse in Hfrom. simpl in Hfrom.
      rewrite Hread in Hfrom. simpl in Hfrom. apply guard_Ok in Hfrom as [_ Hfrom].
      rewrite canonical_digest_fixed in Hfrom by by apply li_digest. simpl in Hfrom.
      assert (with_digest l (root_manifest_digest l) = l) as Hd by by destruct l.
      rewrite Hd in Hfrom. apply bind_Ok in Hfrom as ([]&_&H).
      apply bind_Ok in H as (l1&[-> _]%rebind_Ok&H). by apply bind_Ok in H as ([]&_&[= <-]).
    + apply (admitted_iff l text Hl Htext). by apply from_json_inv in Hfrom as [_ ?].
  - intros [-> Hrep]. eapply from_json_intro; [done..|by apply li_digest|].
    by apply (admitted_iff l text Hl Htext).
Qed.

(** *** Valid packages *)
Definition all_valid l : Prop := ∀ key p, packages l !! key = Some p → LockedPackage_validate p = Ok ().
(** The operation records outputs on a copied package. *)
Definition hooks_copied l (op : lock_op) : Prop :=
  ∃ key outputs p, op = SetDerivedHooks key outputs ∧ outputs ≠ [] ∧
    packages l !! key = Some p ∧ is_copied p = true.
Lemma valid_iff_allowed l :
  lock_inv l → ∀ key p, packages l !! key = Some p → LockedPackage_validate p = Ok () ↔ hooks_allowed p.
Proof.
  intros Hl key p Hp. rewrite validate_split. split; [by intros []|]. split; [|done].
  by eapply po_valid, li_packages.
Qed.
Lemma valid_allowed l :
  lock_inv l → all_valid l ↔ ∀ key p, packages l !! key = Some p → hooks_allowed p.
Proof.
  intros Hl. split; intros H key p Hp; [by eapply validate_hooks_allowed, H|].
  apply (valid_iff_allowed l Hl key); [done|by eapply H].
Qed.
Lemma source_graph_allowed l key p : packages (source_graph l) !! key = Some p → hooks_allowed p.
Proof.
  unfold source_graph. simpl. rewrite lookup_fmap. by intros (p'&_&->)%fmap_Some_1 _.
Qed.
Lemma set_hooks_allowed l key outputs :
  (∀ k p, packages l !! k = Some p → hooks_allowed p) →
  ¬ hooks_copied l (SetDerivedHooks key outputs) →
  ∀ k p, packages (set_derived_hooks key outputs l).1 !! k = Some p → hooks_allowed p.
Proof.
  intros Ha Hc. unfold set_derived_hooks, mbind, mutating_bind, mut_get, mut_lift, mut_put. simpl.
  destruct (lifted (validate_derived_hooks outputs)); simpl; [|done].
  destruct (packages l !! key) as [p|] eqn:Hp; simpl; [|done]. intros k q.
  assert (packages (if negb (bool_decide (outputs = []))
    then with_version (with_packages l (<[key:=with_hooks p outputs]> (packages l)) (workspace_packages l))
      (Z.max (lockfile_version l) LIFECYCLE_LOCKFILE_VERSION)
    else with_packages l (<[key:=with_hooks p outputs]> (packages l)) (workspace_packages l)) =
    <[key:=with_hooks p outputs]> (packages l)) as -> by by destruct (negb _).
  intros [[<- <-]|[_ Hq]]%lookup_insert_Some; [|by eapply Ha].
  unfold hooks_allowed. rewrite is_copied_with_hooks. intros Hcopied. simpl.
  destruct (decide (outputs = [])) as [|Hne]; [done|]. destruct Hc. by exists key, outputs, p.
Qed.
Lemma run_op_allowed l op :
  (∀ key p, packages l !! key = Some p → hooks_allowed p) → ¬ hooks_copied l op →
  ∀ key p, packages (run_op op l).1 !! key = Some p → hooks_allowed p.
Proof.
  intros Ha Hc. destruct (run_op op l) as [l' [[]|e]] eqn:Hop; simpl.
  2: { pose proof (run_op_atomic l op) as Hatomic. rewrite Hop in Hatomic. by destruct Hatomic as [-> _]. }
  destruct op as [ps ws|key outputs|new_roots|bindings]; simpl in Hop.
  - apply insert_graph_inserted in Hop as [Ip _ _ Iv _ _ _].
    intros key p [Hold|[Hin _]]%Ip; [by eapply Ha|]. by apply validate_hooks_allowed, Iv.
  - pose proof (set_hooks_allowed l key outputs Ha Hc) as H. by rewrite Hop in H.
  - revert Hop. unfold set_roots, mbind, mutating_bind, mut_get, mut_lift, mut_put. simpl.
    destruct (for_each (check_root l) _) as [[]|e]; [|done]. by intros [= <-].
  - by apply run_set_root_bindings in Hop as (->&_&_).
Qed.

(** *** Properties *)
(** C2: every lockfile that the public operations can build - created, parsed from
    any text, edited by any sequence of operations, stripped of its derived outputs -
    satisfies the lockfile invariant: a supported version, a canonical digest, sorted
    and contained roots, bindings onto roots, and packages that are stored under their
    own key, closed under dependencies and, without their derived outputs, valid.  A
    package is valid as it stands exactly when it is not a copied package with derived
    outputs; a lockfile without its outputs has valid packages only, and every operation
    keeps them valid but one that records outputs on a copied package.  No key names both
    a registry and a workspace package. *)
Theorem reachable_inv l :
  reachable l →
  lock_inv l ∧
  (∀ key p, packages l !! key = Some p → LockedPackage_validate p = Ok () ↔ hooks_allowed p) ∧
  all_valid (source_graph l) ∧
  (∀ op, all_valid l → ¬ hooks_copied l op → all_valid (run_op op l).1) ∧
  ∀ key p w, packages l !! key = Some p → workspace_packages l !! key ≠ Some w.
Proof.
  intros Hreach. pose proof (reachable_lock_inv l Hreach) as Hl. split_and!; [done| | | |].
  - by apply valid_iff_allowed.
  - apply valid_allowed; [by apply source_graph_inv|]. by apply source_graph_allowed.
  - intros op Hv Hc. rewrite valid_allowed in Hv by done.
    apply valid_allowed; [by apply reachable_lock_inv, reach_op|by apply run_op_allowed].
  - intros key p w Hp Hw.
    destruct (package_ok_key l key p) as (k&Hk&_&_&Hnone); [by apply li_packages|].
    destruct (workspace_package_ok_key l key w) as (k'&Hk'&_&Hsome); [by apply li_workspaces|].
    congruence.
Qed.
(** C3: the text written for a reachable lockfile parses back to that same lockfile,
    and to no other, exactly when the lockfile has no outputs on a copied package, no
    workspaces below schema 7 and no packages without roots at schema 5. *)
Theorem lockfile_roundtrip l text l' :
  reachable l → to_json l = Ok text → from_json text = Ok l' ↔ l' = l ∧ representable l.
Proof. intros Hl. by apply to_json_from_json, reachable_lock_inv. Qed.
(** A lockfile that was read can be written, and what is written reads back to
    the same lockfile. *)
Theorem from_json_stable input l :
  from_json input = Ok l → ∃ text, to_json l = Ok text ∧ from_json text = Ok l.
Proof.
  intros Hfrom. pose proof (parsed_inv _ _ Hfrom) as Hl.
  apply from_json_inv in Hfrom as (_&Hadm).
  assert (to_json l = Ok (json_pretty (write_lockfile l) +:+ newline)) as Htext.
  { destruct Hadm as (_&Hheader&_). apply check_header_Ok in Hheader as (H5&H6&_&_&_&Ha).
    apply to_json_Ok. split_and!; [done|intros; apply H5; lia|done|done]. }
  eexists. split; [exact Htext|]. apply (to_json_from_json l _ l Hl Htext). split; [done|].
  by apply (admitted_iff l _ Hl Htext).
Qed.
(** A replay is accepted exactly when the root manifest is the locked one, the
    lockfile records provenance, and no registry artifact was trusted on the word of
    its first download. *)
Theorem validate_replay_spec l current :
  validate_replay l current = Ok () ↔
  canonical_artifact_digest current = Ok (root_manifest_digest l) ∧
  lockfile_version l ≠ PROVENANCE_LEGACY_LOCKFILE_VERSION ∧
  ∀ key p, packages l !! key = Some p → registry_integrity_declared p ≠ Some false.
Proof.
  unfold validate_replay.
  assert (head (base.filter (λ kv, registry_integrity_declared kv.2 = Some false)
            (btree_iter (packages l))) = None ↔
          ∀ key p, packages l !! key = Some p → registry_integrity_declared p ≠ Some false) as Hhead.
  { rewrite head_None. split.
    - intros Hnil key p Hp%elem_of_btree_iter Hd.
      apply (not_elem_of_nil (key, p)). rewrite <-Hnil. by apply list_elem_of_filter.
    - intros Hall. apply elem_of_nil_inv. intros [key p] [Hd Hp%elem_of_btree_iter]%list_elem_of_filter.
      by apply (Hall key p). }
  rewrite <-Hhead. split.
  - intros (d&Hd%lifted_Ok&H)%bind_Ok.
    apply guard_Ok in H as [<-%negb_false_iff%str_eqb_true H].
    apply guard_Ok in H as [Hv%Z.eqb_neq H]. split_and!; [done..|]. by destruct (head _) as [[]|].
  - intros (->&Hv%Z.eqb_neq&->). simpl. by rewrite str_eqb_refl, Hv.
Qed.

Lemma validate_alias_schema_safe l : safe (validate_alias_schema l).
Proof.
  unfold validate_alias_schema. apply if_safe; [done|]. apply if_safe; [done|].
  apply bind_safe; [apply for_each_safe; auto with lock_safe|auto with lock_safe].
Qed.
(** Reading a lockfile never panics, whatever the text: the [expect]s on keys are
    only reached for packages whose identity has been validated. *)
Theorem from_json_safe input : safe (from_json input).
Proof.
  unfold from_json. apply bind_safe; [auto with lock_safe|intros l0 _].
  apply if_safe; [done|]. apply bind_safe; [auto with lock_safe|intros d _].
  apply bind_safe; [|intros _ _; apply bind_safe; [|intros l1 _; apply bind_safe; [|done]]].
  - unfold check_header. apply if_safe; [done|]. case_match; [done|].
    apply if_safe; [done|]. apply if_safe; [done|].
    apply bind_safe; [|intros; apply validate_alias_schema_safe].
    apply for_each_safe. intros root _. unfold check_root.
    apply bind_safe; auto with lock_safe.
  - unfold rebind. apply if_safe; [|done].
    pose proof (run_op_atomic (with_digest l0 d)
      (SetRootBindings (lf_root_bindings (with_digest l0 d)))) as Hop.
    simpl run_op in Hop.
    destruct (set_root_bindings _ _) as [l1 [[]|e]]; [done|].
    destruct Hop as [_ ?]. unfold safe. congruence.
  - unfold check_graph. apply bind_safe; [|intros; apply bind_safe; [|intros; apply bind_safe]].
    + apply for_each_safe. intros [key p] _. unfold check_package_entry.
      apply bind_safe; [auto with lock_safe|intros _ _].
      apply bind_safe; [apply LockedPackage_validate_safe|intros [] Hv].
      apply bind_safe; [by apply LockedPackage_key_valid_safe|auto with lock_safe].
    + apply for_each_safe. intros [key w] _. unfold check_workspace_entry.
      apply bind_safe; [auto with lock_safe|intros _ _].
      apply bind_safe; [apply LockedWorkspacePackage_validate_safe|intros [] Hv].
      apply bind_safe; [by apply workspace_key_safe, workspace_validate_source|].
      auto with lock_safe.
    + apply for_each_safe. intros; apply lifted_safe.
    + intros. apply for_each_safe. intros; apply lifted_safe.
Qed.
End lockfile_inv.

(** *** Samples *)
Definition rooted_lockfile : Lockfile :=
  (set_roots [sample_key "left-pad" "1.3.0"; sample_key "acme" "2.0.0"] inserted_lockfile).1.
Definition rooted_text : string := json_pretty (write_lockfile rooted_lockfile) +:+ newline.
Lemma rooted_reachable : reachable rooted_lockfile.
Proof.
  change rooted_lockfile with
    (run_op (SetRoots [sample_key "left-pad" "1.3.0"; sample_key "acme" "2.0.0"])
       (run_op (InsertGraph sample_batch [sample_locked_workspace]) empty_lockfile).1).1.
  apply (reach_op (SetRoots [sample_key "left-pad" "1.3.0"; sample_key "acme" "2.0.0"])).
  apply (reach_op (InsertGraph sample_batch [sample_locked_workspace])).
  apply (reach_new sample_digest). vm_compute. reflexivity.
Qed.
Lemma rooted_to_json : to_json rooted_lockfile = Ok rooted_text.
Proof.
  apply to_json_Ok. split_and!.
  - vm_compute. reflexivity.
  - intros _ _ H. vm_compute in H. discriminate H.
  - intros _. vm_compute. reflexivity.
  - reflexivity.
Qed.
Lemma rooted_representable : representable rooted_lockfile.
Proof.
  split_and!.
  - intros key p Hp _.
    assert (forallb (λ kv, bool_decide (derived_hooks kv.2 = [])) (btree_iter (packages rooted_lockfile)) = true)
      as Hall by (vm_compute; reflexivity).
    rewrite forallb_forall in Hall. apply elem_of_btree_iter, list_elem_of_In, Hall in Hp.
    by apply bool_decide_eq_true in Hp.
  - intros H. vm_compute in H. discriminate H.
  - intros _ _ H. vm_compute in H. discriminate H.
Qed.
Lemma reachable_inv_witness :
  lock_inv rooted_lockfile ∧ all_valid (source_graph rooted_lockfile) ∧
  ∀ key p w, packages rooted_lockfile !! key = Some p →
    workspace_packages rooted_lockfile !! key ≠ Some w.
Proof.
  destruct (reachable_inv rooted_lockfile rooted_reachable) as (Hl&_&Hs&_&Hk). by split_and!.
Defined.
Lemma lockfile_roundtrip_witness : from_json rooted_text = Ok rooted_lockfile.
Proof.
  apply (lockfile_roundtrip rooted_lockfile rooted_text rooted_lockfile rooted_reachable rooted_to_json).
  split; [reflexivity|exact rooted_representable].
Defined.
Lemma rooted_from_json : from_json rooted_text = Ok rooted_lockfile.
Proof.
  apply (to_json_from_json rooted_lockfile rooted_text rooted_lockfile).
  - apply reachable_lock_inv, rooted_reachable.
  - apply rooted_to_json.
  - split; [reflexivity|exact rooted_representable].
Qed.
Lemma from_json_stable_witness :
  ∃ text, to_json rooted_lockfile = Ok text ∧ from_json text = Ok rooted_lockfile.
Proof. exact (from_json_stable rooted_text rooted_lockfile rooted_from_json). Defined.
Lemma from_json_safe_witness : safe (from_json rooted_text).
Proof. exact (from_json_safe rooted_text). Defined.

(** Hooks recorded for a copied package: the text that [to_json] writes is refused by
    [from_json]. *)
Definition copied_text : string := "file:vendor/lib#" +:+ sample_digest.
Definition copied_key : string := copied_text +:+ "|lib@1.0.0|peer=-|platform=os=;cpu=;libc=".
Definition copied_lockfile : Lockfile :=
  (set_roots [copied_key]
    (insert_graph [mk_package copied_text "lib" "1.0.0" sample_integrity None sample_digest
      sample_digest [] None "" "os=;cpu=;libc=" ∅ ∅] [] empty_lockfile).1).1.
Example copied_lockfile_readable :
  match to_json copied_lockfile with
  | Ok text => is_ok (from_json text) = true
  | Err _ => False
  end.
Proof. vm_compute. reflexivity. Qed.
Example copied_hooks_unreadable :
  let l := (set_derived_hooks copied_key [sample_hook] copied_lockfile).1 in
  l ≠ copied_lockfile ∧
  match to_json l with
  | Ok text => is_ok (from_json text) = false
  | Err _ => False
  end.
Proof. split; [intros H; apply (f_equal (λ l, derived_hooks <$> packages l !! copied_key)) in H; vm_compute in H; discriminate H|vm_compute; reflexivity]. Qed.
