(* ===== verification/Policy.v ===== *)
(** * tapid-policy: capability evidence and decisions

    Evidence about a package's capabilities, the decision drawn from it and its two
    renderings (crates/tapid-policy/src/lib.rs).  The compact JSON printer is a class
    parameter; the document handed to it is modelled. *)
From S2P Require Import Prelude Order RustStr Json.

Inductive Capability :=
| Network | FilesystemRead | FilesystemWrite | ProcessSpawn | EnvironmentRead
| CredentialAccess | NativeCode | Unknown (name : string).
#[export] Instance Capability_eq_dec : EqDecision Capability.
Proof. solve_decision. Defined.
Inductive EvidenceKind := KDeclared | KInferred | KObserved | KEnforced.
#[export] Instance EvidenceKind_eq_dec : EqDecision EvidenceKind.
Proof. solve_decision. Defined.

Record DeclaredEvidence := mk_declared { de_capability : Capability; de_statement : string }.
Record InferredEvidence := mk_inferred { ie_capability : Capability; ie_statement : string }.
Record ObservedEvidence := mk_observed { oe_capability : Capability; oe_statement : string }.
Record EnforcedEvidence := mk_enforced { ee_capability : Capability; ee_statement : string }.
Inductive Evidence :=
| Declared (d : DeclaredEvidence)
| Inferred (i : InferredEvidence)
| Observed (o : ObservedEvidence)
| Enforced (e : EnforcedEvidence)
| Ambiguous (capability : Capability) (statement : string).
Definition evidence_declared (c : Capability) (s : string) : Evidence := Declared (mk_declared c s).
Definition evidence_inferred (c : Capability) (s : string) : Evidence := Inferred (mk_inferred c s).
Definition evidence_observed (c : Capability) (s : string) : Evidence := Observed (mk_observed c s).
Definition evidence_enforced (c : Capability) (s : string) : Evidence := Enforced (mk_enforced c s).
Definition evidence_ambiguous (c : Capability) (s : string) : Evidence := Ambiguous c s.
Definition evidence_kind (e : Evidence) : EvidenceKind :=
  match e with
  | Declared _ => KDeclared
  | Inferred _ => KInferred
  | Observed _ => KObserved
  | Enforced _ => KEnforced
  | Ambiguous _ _ => KInferred
  end.
Definition evidence_capability (e : Evidence) : Capability :=
  match e with
  | Declared v => de_capability v
  | Inferred v => ie_capability v
  | Observed v => oe_capability v
  | Enforced v => ee_capability v
  | Ambiguous capability _ => capability
  end.
Definition is_ambiguous (e : Evidence) : bool :=
  match e with Ambiguous _ _ => true | _ => false end.

(** Derived order: the declaration order. *)
Inductive Decision := Allow | Warn | Prompt | Deny.
#[export] Instance Decision_eq_dec : EqDecision Decision.
Proof. solve_decision. Defined.
Definition decision_rank (d : Decision) : Z :=
  match d with Allow => 0 | Warn => 1 | Prompt => 2 | Deny => 3 end.
Inductive ReasonCode :=
| DeclaredNetworkCapability | InferredCapability | ObservedCapability | EnforcedCapability
| AmbiguousEvidence | UnattendedRequiresPrompt | UnsupportedOs.
Definition reason_as_str (r : ReasonCode) : string :=
  match r with
  | DeclaredNetworkCapability => "POLICY_DECLARED_NETWORK"
  | InferredCapability => "POLICY_INFERRED_CAPABILITY"
  | ObservedCapability => "POLICY_OBSERVED_CAPABILITY"
  | EnforcedCapability => "POLICY_ENFORCED_CAPABILITY"
  | AmbiguousEvidence => "POLICY_AMBIGUOUS_EVIDENCE"
  | UnattendedRequiresPrompt => "POLICY_UNATTENDED_FAIL_CLOSED"
  | UnsupportedOs => "POLICY_OS_LIMITATION"
  end.
Definition ReasonCode_display (r : ReasonCode) : string := reason_as_str r.

Record PolicyDecision := mk_policy {
  pd_decision : Decision;
  pd_reasons : list ReasonCode;
  pd_evidence : list Evidence;
}.
Definition needs_prompt (e : Evidence) : bool :=
  match evidence_kind e with KInferred | KObserved => true | _ => false end.
Definition declares_network (e : Evidence) : bool :=
  bool_decide (evidence_kind e = KDeclared) && bool_decide (evidence_capability e = Network).
Definition from_evidence (evidence : list Evidence) (unattended : bool) : PolicyDecision :=
  let '(decision, reasons) :=
    if existsb is_ambiguous evidence then (Deny, [AmbiguousEvidence])
    else if unattended && existsb needs_prompt evidence then (Deny, [UnattendedRequiresPrompt])
    else if existsb declares_network evidence then (Warn, [DeclaredNetworkCapability])
    else (Allow, []) in
  mk_policy decision reasons evidence.
Definition decision_label (d : Decision) : string :=
  match d with Allow => "allow" | Warn => "warn" | Prompt => "prompt" | Deny => "deny" end.
Definition human (d : PolicyDecision) : string :=
  decision_label (pd_decision d) +:+ ": " +:+ join ", " (ReasonCode_display <$> pd_reasons d).

(** ** [#[derive(Serialize)]] with the [serde] attributes of the types *)
Definition capability_label (c : Capability) : string :=
  match c with
  | Network => "network" | FilesystemRead => "filesystem_read"
  | FilesystemWrite => "filesystem_write" | ProcessSpawn => "process_spawn"
  | EnvironmentRead => "environment_read" | CredentialAccess => "credential_access"
  | NativeCode => "native_code" | Unknown _ => "unknown"
  end.
Definition write_capability (c : Capability) : json :=
  match c with
  | Unknown name => JObject [("unknown", JString name)]
  | _ => JString (capability_label c)
  end.
Definition write_detail (kind : string) (capability : Capability) (statement : string) : json :=
  JObject [("kind", JString kind);
           ("detail", JObject [("capability", write_capability capability);
                               ("statement", JString statement)])].
Definition write_evidence (e : Evidence) : json :=
  match e with
  | Declared v => write_detail "declared" (de_capability v) (de_statement v)
  | Inferred v => write_detail "inferred" (ie_capability v) (ie_statement v)
  | Observed v => write_detail "observed" (oe_capability v) (oe_statement v)
  | Enforced v => write_detail "enforced" (ee_capability v) (ee_statement v)
  | Ambiguous c s => write_detail "ambiguous" c s
  end.
Definition reason_variant (r : ReasonCode) : string :=
  match r with
  | DeclaredNetworkCapability => "DeclaredNetworkCapability"
  | InferredCapability => "InferredCapability"
  | ObservedCapability => "ObservedCapability"
  | EnforcedCapability => "EnforcedCapability"
  | AmbiguousEvidence => "AmbiguousEvidence"
  | UnattendedRequiresPrompt => "UnattendedRequiresPrompt"
  | UnsupportedOs => "UnsupportedOs"
  end.
Definition write_policy (d : PolicyDecision) : json :=
  JObject [("decision", JString (decision_label (pd_decision d)));
           ("reasons", JArray ((λ r, JString (reason_variant r)) <$> pd_reasons d));
           ("evidence", JArray (write_evidence <$> pd_evidence d))].
Definition policy_to_json `{JsonCompact} (d : PolicyDecision) : string := json_compact (write_policy d).
Definition human_json_equivalent `{JsonCompact} (d : PolicyDecision) : string :=
  json_compact (write_policy d).

(** ** Properties *)
Lemma existsb_mono {A} (f : A → bool) (l k : list A) :
  l ⊆ k → existsb f l = true → existsb f k = true.
Proof.
  rewrite !existsb_exists. intros Hsub (x&Hin&Hx). exists x. split; [|done].
  apply list_elem_of_In, Hsub. by apply list_elem_of_In.
Qed.
Lemma existsb_elem {A} (f : A → bool) (l : list A) : existsb f l = true ↔ ∃ x, x ∈ l ∧ f x = true.
Proof. rewrite existsb_exists. by setoid_rewrite <-list_elem_of_In. Qed.
(** The evidence that denies outright, or when nobody can be asked. *)
Definition denied (evidence : list Evidence) (unattended : bool) : Prop :=
  ∃ e, e ∈ evidence ∧ (is_ambiguous e = true ∨ unattended = true ∧ needs_prompt e = true).
Lemma denied_guard evidence unattended :
  denied evidence unattended ↔
  existsb is_ambiguous evidence || unattended && existsb needs_prompt evidence = true.
Proof.
  unfold denied. rewrite orb_true_iff, andb_true_iff, !existsb_elem. split.
  - intros (e&He&[?|[??]]); eauto 6.
  - intros [(e&?&?)|[? (e&?&?)]]; exists e; auto.
Qed.
(** Evidence denies exactly when some of it is ambiguous or, unattended, some was
    only inferred or observed; otherwise it warns exactly when the network capability
    was declared, and allows the rest; it never prompts.  The reason names the rule
    that applied, and the evidence is kept as given. *)
Theorem from_evidence_spec evidence unattended :
  let d := from_evidence evidence unattended in
  (pd_decision d = Deny ↔ denied evidence unattended) ∧
  (pd_decision d = Warn ↔ ¬ denied evidence unattended ∧
     ∃ e, e ∈ evidence ∧ evidence_kind e = KDeclared ∧ evidence_capability e = Network) ∧
  pd_decision d ≠ Prompt ∧
  (pd_reasons d = [] ↔ pd_decision d = Allow) ∧
  (AmbiguousEvidence ∈ pd_reasons d ↔ ∃ e, e ∈ evidence ∧ is_ambiguous e = true) ∧
  pd_evidence d = evidence.
Proof.
  assert (existsb declares_network evidence = true ↔
    ∃ e, e ∈ evidence ∧ evidence_kind e = KDeclared ∧ evidence_capability e = Network) as Hnet.
  { rewrite existsb_elem. unfold declares_network.
    setoid_rewrite andb_true_iff. by setoid_rewrite bool_decide_eq_true. }
  cbv zeta. rewrite <-Hnet, denied_guard, <-existsb_elem. unfold from_evidence.
  destruct (existsb is_ambiguous evidence), (unattended && existsb needs_prompt evidence),
    (existsb declares_network evidence); simpl; rewrite ?list_elem_of_singleton, ?elem_of_nil;
    naive_solver.
Qed.
(** A decision only becomes stricter as evidence is added or a session becomes
    unattended; in particular it does not depend on the order of the evidence. *)
Theorem from_evidence_monotone evidence evidence' (unattended unattended' : bool) :
  evidence ⊆ evidence' → (unattended = true → unattended' = true) →
  (decision_rank (pd_decision (from_evidence evidence unattended))
   <= decision_rank (pd_decision (from_evidence evidence' unattended')))%Z.
Proof.
  intros Hsub Hun. unfold from_evidence.
  pose proof (existsb_mono is_ambiguous _ _ Hsub) as Ha.
  pose proof (existsb_mono needs_prompt _ _ Hsub) as Hp.
  pose proof (existsb_mono declares_network _ _ Hsub) as Hn.
  destruct (existsb is_ambiguous evidence); [by rewrite Ha|].
  destruct (existsb needs_prompt evidence), (existsb declares_network evidence);
    rewrite ?Hp, ?Hn by done;
    destruct unattended, unattended', (existsb is_ambiguous evidence'),
      (existsb needs_prompt evidence'), (existsb declares_network evidence');
    simpl; try lia; by discriminate Hun.
Qed.
Lemma from_evidence_monotone_witness :
  (decision_rank (pd_decision (from_evidence [evidence_declared Network "fetches"] false))
   <= decision_rank (pd_decision (from_evidence
        [evidence_observed ProcessSpawn "spawned"; evidence_declared Network "fetches"] true)))%Z.
Proof. apply from_evidence_monotone; [set_solver|done]. Defined.

Lemma write_capability_inj : Inj (=) (=) write_capability.
Proof. intros [] [] [=]; congruence. Qed.
Lemma write_evidence_inj : Inj (=) (=) write_evidence.
Proof.
  intros e e' H.
  destruct e as [[]|[]|[]|[]|], e' as [[]|[]|[]|[]|]; unfold write_evidence, write_detail in H;
    simpl in H; try discriminate H; injection H as Hc ->; apply write_capability_inj in Hc as ->; done.
Qed.
(** The JSON report of a decision determines the decision, its reasons and all of
    its evidence. *)
Theorem write_policy_inj d d' : write_policy d = write_policy d' ↔ d = d'.
Proof.
  split; [|by intros ->]. destruct d as [d r e], d' as [d' r' e']. unfold write_policy. simpl.
  intros [= Hd Hr He]. f_equal.
  - by destruct d, d'.
  - revert r' Hr. induction r as [|x r IH]; intros [|y r']; [done..|]. rewrite !fmap_cons.
    intros [= Hx Hr]. f_equal; [by destruct x, y|by apply IH].
  - revert e' He. induction e as [|x e IH]; intros [|y e']; [done..|]. rewrite !fmap_cons.
    intros [= Hx He]. f_equal; [by apply write_evidence_inj|by apply IH].
Qed.
