(* ===== verification/Manifest.v ===== *)
(** * tapid-manifest: package manifests

    Parsing, editing and writing [package.json], bin targets, lifecycle hooks and
    parse diagnostics (crates/tapid-manifest/src/model.rs, parse.rs, lifecycle.rs,
    error.rs).  A [PathBuf] is its text; the compact printer of an offending value is a
    class parameter. *)
From S2P Require Import Prelude Order RustStr Crates Samples Core LockKey Json.

(** ** Errors (error.rs) *)
Inductive ManifestError :=
| InvalidJson (message : string)
| RootMustBeObject
| RequiredString (key : string)
| ExpectedString (key : string)
| ExpectedBoolean (key : string)
| ExpectedMap (key : string)
| ExpectedMapValueString (field key : string)
| BadPackageName (error : DomainError)
| BadPackageVersion (error : DomainError)
| InvalidDependencyName (error : DomainError)
| DependencyNotDeclared (field name : string)
| InvalidBin (command target : string)
| ExpectedBinString (key : string).
Definition ManifestError_display (e : ManifestError) : string :=
  match e with
  | InvalidJson error => "invalid package.json: " +:+ error
  | RootMustBeObject => "package.json root must be an object"
  | RequiredString key | ExpectedString key => "package.json field '" +:+ key +:+ "' must be a string"
  | ExpectedBoolean key => "package.json field '" +:+ key +:+ "' must be a boolean"
  | ExpectedMap key => "package.json field '" +:+ key +:+ "' must be an object"
  | ExpectedMapValueString field key =>
      "package.json field '" +:+ field +:+ "' entry '" +:+ key +:+ "' must be a string"
  | DependencyNotDeclared field name =>
      "dependency '" +:+ name +:+ "' is not declared in package.json field '" +:+ field +:+ "'"
  | BadPackageName error | InvalidDependencyName error | BadPackageVersion error =>
      DomainError_display error
  | InvalidBin command target => "invalid package bin '" +:+ command +:+ "' -> '" +:+ target +:+ "'"
  | ExpectedBinString key => "package.json bin entry '" +:+ key +:+ "' must be a string"
  end.
Definition manifest_result : Type → Type := result ManifestError.

(** ** The manifest (model.rs) *)
Inductive DependencyKind := Dependencies | DevDependencies | OptionalDependencies | PeerDependencies.
#[export] Instance DependencyKind_eq_dec : EqDecision DependencyKind.
Proof. solve_decision. Defined.
Definition field_name (kind : DependencyKind) : string :=
  match kind with
  | Dependencies => "dependencies"
  | DevDependencies => "devDependencies"
  | OptionalDependencies => "optionalDependencies"
  | PeerDependencies => "peerDependencies"
  end.
Record BinTarget := mk_target { bt_command : string; bt_target : string }.
Record PackageBin := mk_bin { pb_name : PackageName; pb_targets : list BinTarget }.
Definition command_names (bin : PackageBin) : list string := bt_command <$> pb_targets bin.

(** ** Names and bins (parse.rs) *)
Definition dependency_candidate (name : string) : string :=
  match strip_prefix "jsr:" name with
  | Some rest => rest
  | None => default name (strip_prefix "npm:" name)
  end.
Definition valid_command (value : string) : bool :=
  negb (is_empty value) && negb (str_eqb value ".") && negb (str_eqb value "..")
  && negb (contains_char "/" value) && negb (contains_char "\" value)
  && negb (chars_any (λ c, (c =? 0)%Z || char_is_control c) value).
Definition windows_drive (value : string) : bool :=
  match value with
  | String a (String b _) => byte_is_alphabetic a && ascii_eqb b ":"
  | _ => false
  end.
Definition escaping_component (c : RustStr.component) : bool :=
  match c with ParentDir | RootDir => true | _ => false end.
Definition valid_target (value : string) : bool :=
  if is_empty value || contains_char (ascii_of_N 0) value || contains_char "\" value then false
  else if windows_drive value || starts_with "//" value then false
  else negb (path_is_absolute value)
       && forallb (λ c, negb (escaping_component c)) (path_components value).
Definition bin_target (entry : string * string) : manifest_result BinTarget :=
  let '(command, target) := entry in
  if negb (valid_command command) || negb (valid_target target)
  then Err (InvalidBin command target)
  else Ok (mk_target command (trim_start_matches "./" target)).
Definition bin_string (entry : string * json) : manifest_result (string * string) :=
  let '(command, target) := entry in
  target ← ok_or (ExpectedBinString command) (as_str target);
  Ok (command, target).
Definition parse_bin `{JsonCompact} (value : json) (package_name : PackageName) :
    manifest_result PackageBin :=
  entries ← match value with
            | JString target =>
                Ok [(default "" (last (split "/" (PackageName_display package_name))), target)]
            | JObject fields =>
                let map := btree_collect fields in
                if bool_decide (map = ∅) then Err (InvalidBin "<bin>" (json_compact value))
                else try_map bin_string (btree_iter map)
            | _ => Err (InvalidBin "<bin>" (json_compact value))
            end;
  targets ← try_map bin_target entries;
  Ok (mk_bin package_name (sort_by bt_command targets)).

Definition required_string (object : gmap string json) (key : string) : manifest_result string :=
  ok_or (RequiredString key) (v ← object !! key; as_str v).
Definition optional_bool (object : gmap string json) (key : string) : manifest_result bool :=
  match object !! key with
  | None => Ok false
  | Some value => ok_or (ExpectedBoolean key) (as_bool value)
  end.
Definition optional_string (object : gmap string json) (key : string) :
    manifest_result (option string) :=
  match object !! key with
  | None => Ok None
  | Some value => ok_or (ExpectedString key) (Some <$> as_str value)
  end.
Definition map_entry (field : string) (validate_names : bool) (entry : string * json) :
    manifest_result (string * string) :=
  let '(name, version) := entry in
  _ ← (if validate_names
       then (λ _, ()) <$> map_err InvalidDependencyName (PackageName_from_str (dependency_candidate name))
       else Ok ());
  version ← ok_or (ExpectedMapValueString field name) (as_str version);
  Ok (name, version).
Definition parse_string_map (value : json) (field : string) (validate_names : bool) :
    manifest_result (gmap string string) :=
  object ← ok_or (ExpectedMap field) (as_object value);
  btree_collect <$> try_map (map_entry field validate_names) (btree_iter object).
(** [if let Some(value) = object.get(field) { ... }], with the default of [new]. *)
Definition optional_map (object : gmap string json) (field : string) (validate_names : bool) :
    manifest_result (gmap string string) :=
  match object !! field with
  | None => Ok ∅
  | Some value => parse_string_map value field validate_names
  end.
Definition known_fields : list string :=
  ["name"; "version"; "private"; "description"; "license"; "dependencies"; "devDependencies";
   "optionalDependencies"; "peerDependencies"; "overrides"; "scripts"; "bin"].

Section manifest.
Context `{SV : Semver} `{JC : JsonCodec} `{JT : JsonCompact}.

Record PackageManifest := mk_manifest {
  pm_name : PackageName;
  pm_version : PackageVersion;
  pm_private : bool;
  pm_description : option string;
  pm_license : option string;
  pm_dependencies : gmap string string;
  pm_dev_dependencies : gmap string string;
  pm_optional_dependencies : gmap string string;
  pm_peer_dependencies : gmap string string;
  pm_overrides : gmap string string;
  pm_scripts : gmap string string;
  pm_bin : option PackageBin;
  pm_extra : gmap string json;
}.
Definition PackageManifest_new (name version : string) (private : bool) :
    manifest_result PackageManifest :=
  name ← map_err BadPackageName (PackageName_from_str name);
  version ← map_err BadPackageVersion (PackageVersion_from_str version);
  Ok (mk_manifest name version private None None ∅ ∅ ∅ ∅ ∅ ∅ None ∅).

(** [PackageManifest::parse] *)
Definition parse_object (object : gmap string json) : manifest_result PackageManifest :=
  name ← required_string object "name";
  version ← required_string object "version";
  private ← optional_bool object "private";
  manifest ← PackageManifest_new name version private;
  description ← optional_string object "description";
  license ← optional_string object "license";
  dependencies ← optional_map object "dependencies" true;
  dev_dependencies ← optional_map object "devDependencies" true;
  optional_dependencies ← optional_map object "optionalDependencies" true;
  peer_dependencies ← optional_map object "peerDependencies" true;
  overrides ← optional_map object "overrides" false;
  scripts ← optional_map object "scripts" false;
  bin ← match object !! "bin" with
        | None => Ok None
        | Some value => Some <$> parse_bin value (pm_name manifest)
        end;
  let extra := base.filter (λ kv, kv.1 ∉ known_fields) object in
  Ok (mk_manifest (pm_name manifest) (pm_version manifest) (pm_private manifest) description
        license dependencies dev_dependencies optional_dependencies peer_dependencies overrides
        scripts bin extra).
Definition manifest_object (input : string) : manifest_result (gmap string json) :=
  value ← ok_or (InvalidJson (json_message input)) (parse_value input);
  ok_or RootMustBeObject (as_object value).
Definition manifest_parse (input : string) : manifest_result PackageManifest :=
  object ← manifest_object input;
  parse_object object.

(** ** Dependency sections *)
Definition section (m : PackageManifest) (kind : DependencyKind) : gmap string string :=
  match kind with
  | Dependencies => pm_dependencies m
  | DevDependencies => pm_dev_dependencies m
  | OptionalDependencies => pm_optional_dependencies m
  | PeerDependencies => pm_peer_dependencies m
  end.
Definition with_sections (m : PackageManifest) (f : DependencyKind → gmap string string) :
    PackageManifest :=
  mk_manifest (pm_name m) (pm_version m) (pm_private m) (pm_description m) (pm_license m)
    (f Dependencies) (f DevDependencies) (f OptionalDependencies) (f PeerDependencies)
    (pm_overrides m) (pm_scripts m) (pm_bin m) (pm_extra m).
(** [*section_mut(kind) = map] *)
Definition set_section (m : PackageManifest) (kind : DependencyKind) (map : gmap string string) :
    PackageManifest :=
  with_sections m (λ k, if decide (k = kind) then map else section m k).
Definition validation_name (name : string) : string :=
  match strip_prefix "npm:" name with
  | Some rest => rest
  | None => default name (strip_prefix "jsr:" name)
  end.
Definition remove_everywhere (name : string) (m : PackageManifest) : PackageManifest :=
  with_sections m (λ k, delete name (section m k)).
Definition set_dependency (kind : DependencyKind) (name requirement : string)
    (m : PackageManifest) : manifest_result PackageManifest :=
  _ ← map_err BadPackageName (PackageName_from_str (validation_name name));
  let m := remove_everywhere name m in
  Ok (set_section m kind (<[name := trim requirement]> (section m kind))).
Definition with_dependency (name requirement : string) (m : PackageManifest) :
    manifest_result PackageManifest := set_dependency Dependencies name requirement m.
Definition with_dependency_kind (kind : DependencyKind) (name requirement : string)
    (m : PackageManifest) : manifest_result PackageManifest :=
  set_dependency kind name requirement m.
Definition update_dependency_kind (kind : DependencyKind) (name requirement : string)
    (m : PackageManifest) : manifest_result PackageManifest :=
  _ ← ok_or (DependencyNotDeclared (field_name kind) name) (section m kind !! name);
  Ok (set_section m kind (<[name := trim requirement]> (section m kind))).
Definition without_dependency (name : string) (m : PackageManifest) :
    manifest_result PackageManifest :=
  _ ← map_err BadPackageName (PackageName_from_str (validation_name name));
  Ok (remove_everywhere name m).
Definition dependency_sections (m : PackageManifest) :
    list (DependencyKind * gmap string string) :=
  [(Dependencies, pm_dependencies m); (DevDependencies, pm_dev_dependencies m);
   (OptionalDependencies, pm_optional_dependencies m);
   (PeerDependencies, pm_peer_dependencies m)].
Definition dependency_kind (m : PackageManifest) (name : string) : option DependencyKind :=
  head (omap (λ s, if contains_key name s.2 then Some s.1 else None) (dependency_sections m)).

(** ** [to_json] *)
Definition write_bin (bin : PackageBin) : json :=
  write_map JString (btree_collect ((λ t, (bt_command t, bt_target t)) <$> pb_targets bin)).
Definition section_field (kind_name : string) (map : gmap string string) : string * option json :=
  field_unless (bool_decide (map = ∅)) kind_name (write_map JString map).
Definition manifest_entries (m : PackageManifest) : list (string * option json) :=
  [field "name" (JString (PackageName_display (pm_name m)));
   field "version" (JString (PackageVersion_display (pm_version m)));
   field "private" (JBool (pm_private m));
   ("description", JString <$> pm_description m);
   ("license", JString <$> pm_license m);
   section_field "dependencies" (pm_dependencies m);
   section_field "devDependencies" (pm_dev_dependencies m);
   section_field "optionalDependencies" (pm_optional_dependencies m);
   section_field "peerDependencies" (pm_peer_dependencies m);
   section_field "overrides" (pm_overrides m);
   section_field "scripts" (pm_scripts m);
   ("bin", write_bin <$> pm_bin m)]
  ++ ((λ kv, field kv.1 kv.2) <$> btree_iter (pm_extra m)).
Definition write_manifest (m : PackageManifest) : json := write_struct (manifest_entries m).
Definition manifest_to_json (m : PackageManifest) : string :=
  json_pretty (write_manifest m) +:+ newline.

(** ** Lifecycle hooks of dependencies (lifecycle.rs) *)
Record DependencyLifecyclePlan := mk_plan {
  plan_commands : list (string * string);
  implicit_install : bool;
}.
Definition lifecycle_names : list string :=
  ["preinstall"; "install"; "postinstall"; "prepublish"; "preprepare"; "prepare"; "postprepare"].
Definition check_script (entry : string * json) : manifest_result () :=
  ensure (bool_decide (is_Some (as_str entry.2))) (ExpectedMapValueString "scripts" entry.1).
Definition lifecycle_command (scripts : gmap string json) (name : string) :
    option (string * string) :=
  command ← (v ← scripts !! name; as_str v);
  if is_empty (trim command) then None else Some (name, command).
Definition dependency_lifecycle_plan (input : string) (binding_gyp : bool) :
    manifest_result DependencyLifecyclePlan :=
  object ← manifest_object input;
  scripts ← match object !! "scripts" with
            | Some scripts => ok_or (ExpectedMap "scripts") (as_object scripts)
            | None => Ok ∅
            end;
  _ ← for_each check_script (btree_iter scripts);
  let commands := omap (lifecycle_command scripts) lifecycle_names in
  let implicit := binding_gyp && negb (contains_key "install" scripts)
                  && negb (contains_key "preinstall" scripts) in
  Ok (mk_plan (if implicit then ("install", "node-gyp rebuild") :: commands else commands) implicit).
Definition dependency_lifecycle_commands (input : string) (binding_gyp : bool) :
    manifest_result (list (string * string)) :=
  plan_commands <$> dependency_lifecycle_plan input binding_gyp.
Definition dependency_lifecycle_hooks (input : string) : manifest_result (list string) :=
  fmap fst <$> dependency_lifecycle_commands input false.

(** ** Diagnostics (error.rs) *)
Record ManifestDiagnostic := mk_diagnostic {
  md_field : option string;
  md_key : option string;
  md_expected : string;
  md_observed : string;
}.
Definition dependency_fields : list string :=
  ["dependencies"; "devDependencies"; "optionalDependencies"; "peerDependencies"].
Definition find_dependency_name (value : option json) (name field : string) :
    option (string * string) :=
  object ← (v ← value; v ← value_get field v; as_object v);
  key ← head (base.filter (λ key, dependency_candidate key = name) (btree_keys object));
  Some (field, key).
Definition diagnostic_location (value : option json) (e : ManifestError) :
    option string * option string * string :=
  match e with
  | InvalidJson _ => (None, None, "valid_json")
  | RootMustBeObject => (None, None, "object")
  | RequiredString field | ExpectedString field => (Some field, None, "string")
  | ExpectedBoolean field => (Some field, None, "boolean")
  | ExpectedMap field => (Some field, None, "object")
  | ExpectedMapValueString field key => (Some field, Some key, "string")
  | BadPackageName _ => (Some "name", None, "package_name")
  | BadPackageVersion _ => (Some "version", None, "semver_version")
  | InvalidDependencyName (InvalidPackageName name) =>
      match head (omap (find_dependency_name value name) dependency_fields) with
      | Some (field, key) => (Some field, Some key, "dependency_name")
      | None => (None, None, "dependency_name")
      end
  | DependencyNotDeclared field name => (Some field, Some name, "declared_dependency")
  | ExpectedBinString key => (Some "bin", Some key, "string")
  | InvalidBin command _ =>
      let key := (map ← (v ← value; v ← value_get "bin" v; as_object v);
                  if contains_key command map then Some command else None) in
      (Some "bin", key, "contained_bin_target")
  | InvalidDependencyName _ => (None, None, "dependency_name")
  end.
Definition json_kind (v : option json) : string :=
  match v with
  | None => "missing"
  | Some JNull => "null"
  | Some (JBool _) => "boolean"
  | Some (JNumber _) | Some (JFloat _) => "number"
  | Some (JString _) => "string"
  | Some (JArray _) => "array"
  | Some (JObject _) => "object"
  end.
Definition diagnostic (e : ManifestError) (input : string) : ManifestDiagnostic :=
  let value := parse_value input in
  let '(field, key, expected) := diagnostic_location value e in
  let observed :=
    match value with
    | None => "invalid_json"
    | Some v =>
        let observed := match field with Some field => value_get field v | None => Some v end in
        json_kind (match key with Some key => o ← observed; value_get key o | None => observed end)
    end in
  mk_diagnostic field key expected observed.
End manifest.

(** ** Names *)
Lemma strip_npm_jsr name rest rest' :
  strip_prefix "npm:" name = Some rest → strip_prefix "jsr:" name = Some rest' → False.
Proof. intros ->%strip_prefix_Some H. discriminate H. Qed.
(** Editing and parsing look through the same registry prefixes. *)
Lemma validation_name_candidate name : validation_name name = dependency_candidate name.
Proof.
  unfold validation_name, dependency_candidate.
  destruct (strip_prefix "npm:" name) as [r|] eqn:Hn, (strip_prefix "jsr:" name) as [r'|] eqn:Hj;
    simpl; try done. by destruct (strip_npm_jsr name r r').
Qed.
Lemma trim_start_fixed p n s :
  p ≠ "" → (String.length s <= n)%nat → strip_prefix p (trim_start_matches_fuel n p s) = None.
Proof.
  intros Hp. revert s. induction n as [|n IH]; intros s Hs; simpl.
  - destruct s; [|simpl in Hs; lia]. by destruct p.
  - destruct (strip_prefix p s) as [r|] eqn:E; [|done].
    apply IH. apply strip_prefix_Some in E as ->. rewrite length_app' in Hs.
    destruct p; [done|]. simpl in Hs. lia.
Qed.
Lemma trim_start_matches_fixed p s : p ≠ "" → strip_prefix p (trim_start_matches p s) = None.
Proof. intros Hp. by apply trim_start_fixed. Qed.
Lemma trim_start_matches_id p s : strip_prefix p s = None → trim_start_matches p s = s.
Proof. unfold trim_start_matches. intros Hs. destruct (String.length s); simpl; [done|by rewrite Hs]. Qed.

(** ** String maps *)
Definition names_ok (map : gmap string string) : Prop :=
  ∀ name version, map !! name = Some version →
    is_Some (to_ok (PackageName_from_str (dependency_candidate name))).
Lemma map_entry_Ok field validate name value entry :
  map_entry field validate (name, value) = Ok entry ↔
  ∃ version, value = JString version ∧ entry = (name, version) ∧
    (validate = true → is_Some (to_ok (PackageName_from_str (dependency_candidate name)))).
Proof.
  unfold map_entry. split.
  - intros (u&Hn&H)%bind_Ok. apply bind_Ok in H as (version&Hv%ok_or_Ok&[= <-]).
    destruct value; try done. injection Hv as ->. exists version. split_and!; [done..|].
    intros ->. apply fmap_Ok in Hn as (n&Hn%map_err_Ok&_). rewrite Hn. by eexists.
  - intros (version&->&->&Hn). destruct validate; simpl; [|done].
    destruct Hn as [n Hn]; [done|]. apply to_ok_Some in Hn as ->. done.
Qed.
Lemma parse_string_map_names value field map :
  parse_string_map value field true = Ok map → names_ok map.
Proof.
  unfold parse_string_map. intros (object&_&H)%bind_Ok. apply fmap_Ok in H as (l&Hl%try_map_Ok&->).
  intros name version Hin%btree_collect_elem. apply list_elem_of_lookup in Hin as [i Hi].
  destruct (Forall2_lookup_r _ _ _ _ _ Hl Hi) as ([n v]&_&He).
  apply map_entry_Ok in He as (?&_&[= -> _]&Hn). by apply Hn.
Qed.
Lemma optional_map_names object field map : optional_map object field true = Ok map → names_ok map.
Proof.
  unfold optional_map. destruct (object !! field); [by apply parse_string_map_names|].
  intros [= <-] name version Hn. by rewrite lookup_empty in Hn.
Qed.
Lemma parse_string_map_written map field validate :
  (validate = true → names_ok map) →
  parse_string_map (of_object (JString <$> map)) field validate = Ok map.
Proof.
  intros Hnames. unfold parse_string_map. rewrite as_object_of_object. cbn [ok_or mbind result_bind].
  rewrite btree_iter_fmap.
  assert (try_map (map_entry field validate) ((λ kv, (kv.1, JString kv.2)) <$> btree_iter map)
    = Ok (btree_iter map)) as ->; [|simpl; by rewrite btree_collect_iter].
  apply try_map_Ok, Forall2_fmap_l, Forall2_same_length_lookup_2; [done|].
  intros i [n v] [n' v'] Hi Hi'. assert ((n, v) = (n', v')) as [= <- <-] by congruence.
  apply map_entry_Ok. exists v. split_and!; [done..|]. intros Hval.
  eapply Hnames; [done|]. apply elem_of_btree_iter. by eapply list_elem_of_lookup_2.
Qed.
Lemma to_value_strings map : to_value (write_map JString map) = of_object (JString <$> map).
Proof.
  rewrite write_map_of_object, to_value_of_object. f_equal. rewrite <-map_fmap_compose.
  by apply map_fmap_ext.
Qed.
Lemma optional_map_written object map field validate :
  (validate = true → names_ok map) →
  object !! field = to_value <$> (section_field field map).2 →
  optional_map object field validate = Ok map.
Proof.
  intros Hnames Hfield. unfold optional_map, section_field, field_unless in *.
  cbn [snd] in Hfield. rewrite Hfield. case_bool_decide as Hmap; [by rewrite Hmap|].
  cbn [fmap option_fmap option_map]. rewrite to_value_strings. by apply parse_string_map_written.
Qed.

(** ** Bins *)
Record bin_ok (bin : PackageBin) : Prop := {
  bo_some : pb_targets bin ≠ [];
  bo_sorted : StronglySorted lt_of (command_names bin);
  bo_command t : t ∈ pb_targets bin → valid_command (bt_command t) = true;
  bo_trimmed t : t ∈ pb_targets bin → strip_prefix "./" (bt_target t) = None;
}.
Definition targets_valid (bin : PackageBin) : Prop :=
  ∀ t, t ∈ pb_targets bin → valid_target (bt_target t) = true.
Lemma bin_target_Ok command target t :
  bin_target (command, target) = Ok t ↔
  valid_command command = true ∧ valid_target target = true ∧
  t = mk_target command (trim_start_matches "./" target).
Proof.
  unfold bin_target. destruct (valid_command command), (valid_target target); simpl; naive_solver.
Qed.
Lemma bin_string_Ok entry e :
  bin_string entry = Ok e ↔ entry.2 = JString e.2 ∧ entry.1 = e.1.
Proof.
  destruct entry as [c v], e as [c' t]; destruct v; simpl; naive_solver.
Qed.
Lemma try_map_commands (entries : list (string * string)) targets :
  try_map bin_target entries = Ok targets →
  bt_command <$> targets = entries.*1 ∧
  (∀ t, t ∈ targets → valid_command (bt_command t) = true ∧
    ∃ text, (bt_command t, text) ∈ entries ∧ valid_target text = true ∧
      bt_target t = trim_start_matches "./" text).
Proof.
  intros H%try_map_Ok. induction H as [|[c text] t entries targets Ht H IH]; simpl.
  - split; [done|]. by intros t ?%not_elem_of_nil.
  - apply bin_target_Ok in Ht as (Hc&Htext&->). destruct IH as [IH1 IH2]. split.
    + simpl. by f_equal.
    + intros t' [->|Hin]%elem_of_cons; simpl.
      * split; [done|]. exists text. split_and!; [by left|done..].
      * destruct (IH2 _ Hin) as (?&text'&?&?&?). split; [done|]. exists text'.
        split_and!; [by right|done..].
Qed.
Lemma try_map_strings (entries : list (string * json)) k :
  try_map bin_string entries = Ok k → k.*1 = entries.*1 ∧ length k = length entries.
Proof.
  intros H%try_map_Ok. induction H as [|e e' entries k He H [IH1 IH2]]; [done|].
  apply bin_string_Ok in He as [_ He]. rewrite !fmap_cons. simpl. split; [by f_equal|lia].
Qed.
Lemma commands_sort targets :
  StronglySorted lt_of (bt_command <$> targets) → sort_by bt_command targets = targets.
Proof.
  intros Hs. apply sort_by_id. induction targets as [|t l IH]; [constructor|].
  rewrite fmap_cons in Hs. apply StronglySorted_inv in Hs as [Hl Ht]. constructor; [by apply IH|].
  apply Forall_forall. intros t' Hin. rewrite Forall_forall in Ht. apply lt_le, Ht.
  by apply list_elem_of_fmap_2.
Qed.
Lemma parse_bin_ok `{JT : JsonCompact} value name bin :
  parse_bin value name = Ok bin → pb_name bin = name ∧ bin_ok bin.
Proof.
  unfold parse_bin. intros (entries&Hentries&H)%bind_Ok.
  apply bind_Ok in H as (targets&Ht&[= <-]). split; [done|].
  assert (StronglySorted lt_of entries.*1 ∧ entries ≠ []) as [Hs Hne].
  { destruct value as [| | | |s| |fields]; try done.
    - injection Hentries as <-. split; [|done]. simpl. repeat constructor.
    - simpl in Hentries. case_bool_decide as Hmap; [done|].
      apply try_map_strings in Hentries as [-> Hlen]. split; [apply btree_keys_ascending|].
      intros ->. apply Hmap, btree_iter_nil. by destruct (btree_iter _). }
  destruct (try_map_commands _ _ Ht) as [Hcommands Hall].
  assert (sort_by bt_command targets = targets) as Hsort by (apply commands_sort; by rewrite Hcommands).
  split; unfold command_names; cbn [pb_targets]; rewrite ?Hsort.
  - intros ->. apply Hne. destruct entries; [done|]. by rewrite fmap_cons in Hcommands.
  - by rewrite Hcommands.
  - intros t Hin. by apply Hall.
  - intros t Hin. destruct (Hall t Hin) as (_&text&_&_&->). by apply trim_start_matches_fixed.
Qed.
Lemma parse_bin_written `{JT : JsonCompact} bin name bin' :
  bin_ok bin →
  parse_bin (to_value (write_bin bin)) name = Ok bin' ↔
  bin' = mk_bin name (pb_targets bin) ∧ targets_valid bin.
Proof.
  intros [Hsome Hs Hcommand Htrim]. set (pairs := (λ t, (bt_command t, bt_target t)) <$> pb_targets bin).
  assert (StronglySorted lt_of pairs.*1) as Hpairs.
  { unfold pairs. by rewrite <-list_fmap_compose. }
  unfold write_bin. fold pairs. rewrite to_value_strings. unfold parse_bin, of_object.
  rewrite btree_collect_iter. rewrite bool_decide_false.
  2:{ intros Hnil. apply fmap_empty_inv in Hnil. apply Hsome.
      assert (btree_iter (btree_collect pairs) = []) as Hit by (by apply btree_iter_nil).
      rewrite btree_iter_collect in Hit by done. unfold pairs in Hit. by destruct (pb_targets bin). }
  rewrite btree_iter_fmap, btree_iter_collect by done.
  assert (try_map bin_string ((λ kv, (kv.1, JString kv.2)) <$> pairs) = Ok pairs) as ->.
  { apply try_map_Ok, Forall2_fmap_l, Forall2_same_length_lookup_2; [done|].
    intros i [c t] [c' t'] H1 H2. apply bin_string_Ok. simpl. naive_solver congruence. }
  cbn [mbind result_bind].
  assert (∀ ts, (∀ t, t ∈ ts → valid_command (bt_command t) = true) →
    (∀ t, t ∈ ts → strip_prefix "./" (bt_target t) = None) → ∀ ts',
    try_map bin_target ((λ t, (bt_command t, bt_target t)) <$> ts) = Ok ts' ↔
    ts' = ts ∧ ∀ t, t ∈ ts → valid_target (bt_target t) = true) as Hgen.
  { clear. intros ts Hc Ht ts'. rewrite try_map_Ok, Forall2_fmap_l. split.
    - intros H2. revert Hc Ht. induction H2 as [|t t' ts ts' Htt H2 IH]; intros Hc Ht.
      + split; [done|]. by intros t ?%not_elem_of_nil.
      + simpl in Htt. apply bin_target_Ok in Htt as (_&Hv&->).
        rewrite trim_start_matches_id by (apply Ht; by left).
        destruct IH as [-> Hall]; [set_solver|set_solver|]. split; [by destruct t|].
        intros t' [->|Hin]%elem_of_cons; [done|by apply Hall].
    - intros [-> Hv]. apply Forall2_same_length_lookup_2; [done|]. intros i t t' Hi Hi'.
      assert (t' = t) as -> by congruence. apply list_elem_of_lookup_2 in Hi. simpl.
      apply bin_target_Ok. rewrite trim_start_matches_id by by apply Ht.
      split_and!; [by apply Hc|by apply Hv|by destruct t]. }
  split.
  - intros (ts&Hts&[= <-])%bind_Ok. apply Hgen in Hts as [-> Hv]; [|done..].
    by rewrite commands_sort.
  - intros [-> Hv]. apply bind_Ok. exists (pb_targets bin). rewrite commands_sort by done.
    split; [|done]. by apply Hgen.
Qed.
