(* ===== verification/ManifestInv.v ===== *)
(** * Invariants of package manifests

    What parsing and every edit keep of a manifest, the round trip of its text, the
    effect of the edits on the dependency sections, the paths a bin target can hold,
    the lifecycle plan and the location of parse diagnostics
    (crates/tapid-manifest/src/model.rs, parse.rs, lifecycle.rs, error.rs). *)
From S2P Require Import Prelude Order RustStr Crates Samples Core LockKey Json Manifest.

Section manifest_inv.
Context `{SV : Semver} `{SL : !SemverLaws} `{JC : JsonCodec} `{JT : JsonCompact}.

(** ** The invariant *)
Record manifest_ok (m : PackageManifest) : Prop := {
  mo_name : name_ok (pm_name m);
  mo_version : version_ok (pm_version m);
  mo_sections kind : names_ok (section m kind);
  mo_extra key v : pm_extra m !! key = Some v → key ∉ known_fields ∧ to_value v = v;
  mo_bin bin : pm_bin m = Some bin → pb_name bin = pm_name m ∧ bin_ok bin;
}.

Inductive manifest_edit :=
| Add (kind : DependencyKind) (name requirement : string)
| Update (kind : DependencyKind) (name requirement : string)
| Remove (name : string).
Definition run_edit (e : manifest_edit) (m : PackageManifest) : manifest_result PackageManifest :=
  match e with
  | Add kind name requirement => with_dependency_kind kind name requirement m
  | Update kind name requirement => update_dependency_kind kind name requirement m
  | Remove name => without_dependency name m
  end.
(** The manifests a program can hold. *)
Inductive reachable_manifest : PackageManifest → Prop :=
| rm_new name version private m :
    PackageManifest_new name version private = Ok m → reachable_manifest m
| rm_parse input m : manifest_parse input = Ok m → reachable_manifest m
| rm_edit e m m' : reachable_manifest m → run_edit e m = Ok m' → reachable_manifest m'.

Lemma section_with_sections m f kind : section (with_sections m f) kind = f kind.
Proof. by destruct kind. Qed.
Lemma section_set m kind map k :
  section (set_section m kind map) k = if decide (k = kind) then map else section m k.
Proof. apply section_with_sections. Qed.
Lemma section_removed name m k : section (remove_everywhere name m) k = delete name (section m k).
Proof. apply section_with_sections. Qed.
Lemma names_ok_insert map name requirement :
  names_ok map → is_Some (to_ok (PackageName_from_str (dependency_candidate name))) →
  names_ok (<[name := requirement]> map).
Proof.
  intros Hmap Hname n v. rewrite lookup_insert_Some. intros [[<- _]|[_ Hn]]; [done|by eapply Hmap].
Qed.
Lemma names_ok_delete map name : names_ok map → names_ok (delete name map).
Proof. intros Hmap n v [_ Hn]%lookup_delete_Some. by eapply Hmap. Qed.
(** A change of the sections alone. *)
Lemma manifest_ok_sections m f :
  manifest_ok m → (∀ kind, names_ok (f kind)) → manifest_ok (with_sections m f).
Proof. intros [] Hf. split; simpl; try done. intros kind. by rewrite section_with_sections. Qed.
Lemma validated_name name (u : PackageName) :
  map_err BadPackageName (PackageName_from_str (validation_name name)) = Ok u →
  is_Some (to_ok (PackageName_from_str (dependency_candidate name))).
Proof. rewrite validation_name_candidate. intros ->%map_err_Ok. by eexists. Qed.

Lemma new_ok name version private m :
  PackageManifest_new name version private = Ok m → manifest_ok m.
Proof.
  unfold PackageManifest_new. intros (n&[Hn _]%map_err_Ok%name_from_str_ok&H)%bind_Ok.
  apply bind_Ok in H as (v&Hv%map_err_Ok%version_from_str_ok&[= <-]).
  split; simpl; [done|done| | |done].
  - intros kind n' v'. by destruct kind; simpl; rewrite lookup_empty.
  - intros k w. by rewrite lookup_empty.
Qed.

(** ** Parsing *)
Lemma manifest_object_Ok input object :
  manifest_object input = Ok object →
  ∃ v, parse_value input = Some v ∧ as_object v = Some object.
Proof.
  unfold manifest_object. intros (v&Hv%ok_or_Ok&H%ok_or_Ok)%bind_Ok. by exists v.
Qed.
(** The members of a parsed document are values themselves. *)
Lemma to_value_member v object key w :
  to_value v = v → as_object v = Some object → object !! key = Some w → to_value w = w.
Proof.
  destruct v as [| | | | | |fields]; try done. intros Hv [= <-].
  rewrite to_value_object in Hv. unfold of_object in Hv. injection Hv as Hv.
  rewrite <-Hv, btree_collect_iter, lookup_fmap.
  intros (u&_&->)%fmap_Some. apply to_value_idem.
Qed.
Lemma parse_object_ok object m :
  (∀ key w, object !! key = Some w → to_value w = w) →
  parse_object object = Ok m → manifest_ok m.
Proof.
  intros Hvalue. unfold parse_object. intros (name&_&H)%bind_Ok.
  apply bind_Ok in H as (version&_&H). apply bind_Ok in H as (private&_&H).
  apply bind_Ok in H as (m0&[Hn Hv _ _ _]%new_ok&H).
  do 2 apply bind_Ok in H as (?&_&H).
  do 4 apply bind_Ok in H as (?&?%optional_map_names&H).
  do 2 apply bind_Ok in H as (?&_&H).
  apply bind_Ok in H as (bin&Hbin&[= <-]). split; simpl; [done|done| | |].
  - by intros [].
  - intros key w [Hw Hkey]%map_lookup_filter_Some. split; [done|]. by eapply Hvalue.
  - intros b ->. destruct (object !! "bin"); [|done]. apply fmap_Ok in Hbin as (?&Hb&[= <-]).
    by apply parse_bin_ok in Hb.
Qed.
Lemma parse_ok input m : manifest_parse input = Ok m → manifest_ok m.
Proof.
  unfold manifest_parse. intros (object&(v&Hv&Hobject)%manifest_object_Ok&H)%bind_Ok.
  eapply parse_object_ok; [|done]. intros key w. apply (to_value_member v); [|done].
  unfold parse_value in Hv. apply fmap_Some in Hv as (u&_&->). apply to_value_idem.
Qed.

(** ** Edits *)
Lemma removed_ok name m : manifest_ok m → manifest_ok (remove_everywhere name m).
Proof.
  intros Hm. apply manifest_ok_sections; [done|]. intros kind. by apply names_ok_delete, Hm.
Qed.
Lemma insert_ok m kind name requirement :
  manifest_ok m → is_Some (to_ok (PackageName_from_str (dependency_candidate name))) →
  manifest_ok (set_section m kind (<[name := requirement]> (section m kind))).
Proof.
  intros Hm Hname. apply manifest_ok_sections; [done|]. intros k. case_decide as Hk.
  - subst k. apply names_ok_insert; [apply Hm|done].
  - apply Hm.
Qed.
Lemma run_edit_ok e m m' : manifest_ok m → run_edit e m = Ok m' → manifest_ok m'.
Proof.
  intros Hm. destruct e as [kind name req|kind name req|name]; simpl.
  - unfold with_dependency_kind, set_dependency. intros (u&Hu%validated_name&[= <-])%bind_Ok.
    apply insert_ok; [by apply removed_ok|done].
  - unfold update_dependency_kind. intros (v&Hv%ok_or_Ok&[= <-])%bind_Ok.
    apply insert_ok; [done|]. by eapply (mo_sections m Hm kind).
  - unfold without_dependency. intros (u&_&[= <-])%bind_Ok. by apply removed_ok.
Qed.
Lemma reachable_manifest_ok m : reachable_manifest m → manifest_ok m.
Proof.
  induction 1 as [name version private m H|input m H|e m m' _ IH H].
  - by eapply new_ok.
  - by eapply parse_ok.
  - by eapply run_edit_ok.
Qed.

(** ** Writing *)
Lemma entries_names m : (manifest_entries m).*1 = known_fields ++ btree_keys (pm_extra m).
Proof.
  unfold manifest_entries. rewrite fmap_app. f_equal. unfold btree_keys.
  rewrite <-list_fmap_compose. by apply list_fmap_ext.
Qed.
Lemma entries_NoDup m : manifest_ok m → NoDup (manifest_entries m).*1.
Proof.
  intros Hm. rewrite entries_names. apply NoDup_app. split_and!.
  - by apply (bool_decide_unpack _).
  - intros key Hkey [v Hv]%elem_of_btree_keys. by apply (mo_extra m Hm) in Hv as [? _].
  - apply sorted_lt_NoDup, btree_keys_ascending.
Qed.
Definition written (m : PackageManifest) : gmap string json := struct_object (manifest_entries m).
Lemma written_field m name o :
  manifest_ok m → (name, o) ∈ manifest_entries m → written m !! name = to_value <$> o.
Proof. intros Hm. by apply struct_object_lookup, entries_NoDup. Qed.
Lemma written_extra m :
  manifest_ok m → base.filter (λ kv, kv.1 ∉ known_fields) (written m) = pm_extra m.
Proof.
  intros Hm. apply map_eq. intros key. destruct (pm_extra m !! key) as [v|] eqn:Hv.
  - destruct (mo_extra m Hm key v Hv) as [Hkey Hvalue]. apply map_lookup_filter_Some. split; [|done].
    rewrite (written_field m key (Some v)); [by simpl; rewrite Hvalue|done|].
    unfold manifest_entries. apply elem_of_app. right. apply list_elem_of_fmap.
    exists (key, v). split; [done|]. by apply elem_of_btree_iter.
  - apply map_lookup_filter_None. destruct (decide (key ∈ known_fields)) as [Hk|Hk].
    + right. intros w _ H. by apply H.
    + left. apply struct_object_None. rewrite entries_names, elem_of_app, elem_of_btree_keys, Hv.
      intros [?|[? ?]]; done.
Qed.
Lemma manifest_object_written m :
  manifest_ok m → json_ok json_depth (write_manifest m) = true →
  ∀ `{!JsonLaws}, manifest_object (manifest_to_json m) = Ok (written m).
Proof.
  intros Hm Hjson JL. unfold manifest_object, manifest_to_json, parse_value.
  rewrite json_parse_pretty by done. cbn [fmap option_fmap option_map ok_or mbind result_bind].
  unfold write_manifest, write_struct. by rewrite to_value_object, as_object_of_object.
Qed.
Ltac in_entries :=
  unfold manifest_entries; apply elem_of_app; left;
  solve [repeat first [apply list_elem_of_here | apply list_elem_of_further]].
Lemma read_sections m :
  manifest_ok m →
  optional_map (written m) "dependencies" true = Ok (pm_dependencies m) ∧
  optional_map (written m) "devDependencies" true = Ok (pm_dev_dependencies m) ∧
  optional_map (written m) "optionalDependencies" true = Ok (pm_optional_dependencies m) ∧
  optional_map (written m) "peerDependencies" true = Ok (pm_peer_dependencies m) ∧
  optional_map (written m) "overrides" false = Ok (pm_overrides m) ∧
  optional_map (written m) "scripts" false = Ok (pm_scripts m).
Proof.
  intros Hm.
  assert (∀ name map validate, (name, (section_field name map).2) ∈ manifest_entries m →
    (validate = true → names_ok map) → optional_map (written m) name validate = Ok map) as Hread.
  { intros name map validate Hin Hnames. apply optional_map_written; [done|].
    by apply written_field. }
  split_and!; apply Hread;
    first [in_entries | done | intros _].
  - apply (mo_sections m Hm Dependencies).
  - apply (mo_sections m Hm DevDependencies).
  - apply (mo_sections m Hm OptionalDependencies).
  - apply (mo_sections m Hm PeerDependencies).
Qed.
Lemma read_header m :
  manifest_ok m →
  required_string (written m) "name" = Ok (PackageName_display (pm_name m)) ∧
  required_string (written m) "version" = Ok (PackageVersion_display (pm_version m)) ∧
  optional_bool (written m) "private" = Ok (pm_private m) ∧
  optional_string (written m) "description" = Ok (pm_description m) ∧
  optional_string (written m) "license" = Ok (pm_license m).
Proof.
  intros Hm. unfold required_string, optional_bool, optional_string.
  rewrite (written_field m "name" (Some (JString (PackageName_display (pm_name m))))) by first [done|in_entries].
  rewrite (written_field m "version" (Some (JString (PackageVersion_display (pm_version m))))) by first [done|in_entries].
  rewrite (written_field m "private" (Some (JBool (pm_private m)))) by first [done|in_entries].
  rewrite (written_field m "description" (JString <$> pm_description m)) by first [done|in_entries].
  rewrite (written_field m "license" (JString <$> pm_license m)) by first [done|in_entries].
  destruct (pm_description m), (pm_license m); done.
Qed.
Lemma parse_written m m' :
  manifest_ok m →
  parse_object (written m) = Ok m' ↔ m' = m ∧ ∀ bin, pm_bin m = Some bin → targets_valid bin.
Proof.
  intros Hm. unfold parse_object. destruct (read_header m Hm) as (->&->&->&->&->).
  cbn [mbind result_bind]. unfold PackageManifest_new.
  rewrite (mo_name m Hm). cbn [map_err mbind result_bind].
  rewrite (mo_version m Hm). cbn [map_err mbind result_bind pm_name pm_version pm_private].
  destruct (read_sections m Hm) as (->&->&->&->&->&->). cbn [mbind result_bind].
  rewrite (written_field m "bin" (write_bin <$> pm_bin m)) by first [done|in_entries].
  rewrite written_extra by done.
  destruct (pm_bin m) as [bin|] eqn:Hbin; cbn [fmap option_fmap option_map].
  - destruct (mo_bin m Hm bin Hbin) as [Hname Hok]. split.
    + intros (b&Hb&[= <-])%bind_Ok. apply fmap_Ok in Hb as (b'&Hb'&[= ->]).
      apply parse_bin_written in Hb' as [-> Hvalid]; [|done].
      rewrite <-Hname. split; [|by intros ? [= <-]].
      destruct m, bin; simpl in *; by subst.
    + intros [-> Hvalid]. apply bind_Ok. exists (Some bin). split.
      * apply fmap_Ok. exists bin. split; [|done]. apply parse_bin_written; [done|].
        split; [rewrite <-Hname; by destruct bin|by apply Hvalid].
      * destruct m; simpl in *; by subst.
  - cbn [mbind result_bind]. split.
    + intros [= <-]. split; [destruct m; simpl in *; by subst|done].
    + intros [-> _]. destruct m; simpl in *; by subst.
Qed.

(** C37: writing a manifest and parsing the text gives back the same manifest - sections,
    scripts, overrides, bin and the fields the model does not know, in full - exactly
    when the stored bin targets are themselves accepted.  It holds for every manifest the
    program can hold (created, parsed or edited) whose document serde_json itself reads
    back: integers of 64 bits, doubles whose text reads back as the same double (without
    the feature float_roundtrip not all do), and a nesting within the recursion limit. *)
Theorem manifest_roundtrip `{!JsonLaws} m m' :
  reachable_manifest m → json_ok json_depth (write_manifest m) = true →
  manifest_parse (manifest_to_json m) = Ok m' ↔
  m' = m ∧ ∀ bin, pm_bin m = Some bin → targets_valid bin.
Proof.
  intros Hm%reachable_manifest_ok Hjson. unfold manifest_parse.
  rewrite manifest_object_written by done. by apply parse_written.
Qed.

(** ** Effect of the edits *)
Definition declarable (name : string) : Prop :=
  is_Some (to_ok (PackageName_from_str (dependency_candidate name))).
Lemma dependency_kind_eq m name :
  dependency_kind m name =
  head (omap (λ k, if contains_key name (section m k) then Some k else None)
    [Dependencies; DevDependencies; OptionalDependencies; PeerDependencies]).
Proof. done. Qed.
Lemma dependency_kind_only m name kind :
  is_Some (section m kind !! name) → (∀ k, k ≠ kind → section m k !! name = None) →
  dependency_kind m name = Some kind.
Proof.
  intros Hin Hout. rewrite dependency_kind_eq.
  assert (∀ k, contains_key name (section m k) = bool_decide (k = kind)) as Hk.
  { intros k. case_bool_decide as Hk; [by subst; apply contains_key_true|].
    by apply contains_key_false, Hout. }
  cbn [omap list_omap]. rewrite !Hk. by destruct kind.
Qed.
Lemma dependency_kind_ext m m' name :
  (∀ k, section m k !! name = section m' k !! name) →
  dependency_kind m name = dependency_kind m' name.
Proof.
  intros H. rewrite !dependency_kind_eq. unfold contains_key. cbn [omap list_omap]. by rewrite !H.
Qed.
Lemma dependency_kind_None m name :
  (∀ k, section m k !! name = None) → dependency_kind m name = None.
Proof.
  intros H. rewrite dependency_kind_eq. unfold contains_key. cbn [omap list_omap]. by rewrite !H.
Qed.
Lemma with_sections_eq m f g : (∀ k, f k = g k) → with_sections m f = with_sections m g.
Proof. intros H. unfold with_sections. by rewrite !H. Qed.
Lemma with_sections_same m : with_sections m (section m) = m.
Proof. by destruct m. Qed.
(** A manifest edited in the sections only. *)
Definition same_rest (m m' : PackageManifest) : Prop := with_sections m' (section m) = m.
Lemma same_rest_with m f : same_rest m (with_sections m f).
Proof. unfold same_rest. by destruct m. Qed.
Lemma validation_result name :
  (declarable name ∧ ∃ u, map_err BadPackageName (PackageName_from_str (validation_name name)) = Ok u) ∨
  (¬ declarable name ∧ ∃ e,
    map_err BadPackageName (PackageName_from_str (validation_name name)) = Err (BadPackageName e)).
Proof.
  unfold declarable. rewrite validation_name_candidate.
  destruct (PackageName_from_str _) as [u|e]; [left|right]; simpl; [by eauto|].
  split; [by intros [? ?]|by exists e].
Qed.
Lemma with_dependency_kind_Ok kind name requirement m m' :
  with_dependency_kind kind name requirement m = Ok m' ↔
  declarable name ∧ m' = with_sections m (λ k,
    if decide (k = kind) then <[name := trim requirement]> (section m k)
    else delete name (section m k)).
Proof.
  unfold with_dependency_kind, set_dependency.
  assert (set_section (remove_everywhere name m) kind
      (<[name := trim requirement]> (section (remove_everywhere name m) kind)) =
    with_sections m (λ k, if decide (k = kind) then <[name := trim requirement]> (section m k)
      else delete name (section m k))) as Heq.
  { transitivity (with_sections m (λ k, if decide (k = kind)
      then <[name := trim requirement]> (section (remove_everywhere name m) kind)
      else section (remove_everywhere name m) k)); [done|].
    apply with_sections_eq. intros k. rewrite !section_removed. case_decide as Hk; [|done].
    subst k. by rewrite insert_delete_eq. }
  destruct (validation_result name) as [[Hn [u ->]]|[Hn [e ->]]]; simpl.
  - rewrite Heq. split; [intros [= <-]; done|by intros [_ ->]].
  - split; [done|by intros [? _]].
Qed.
Lemma without_dependency_Ok name m m' :
  without_dependency name m = Ok m' ↔ declarable name ∧ m' = remove_everywhere name m.
Proof.
  unfold without_dependency. destruct (validation_result name) as [[Hn [u ->]]|[Hn [e ->]]]; simpl.
  - split; [intros [= <-]; done|by intros [_ ->]].
  - split; [done|by intros [? _]].
Qed.

(** Adding a dependency succeeds exactly for a valid name after its registry
    prefix; it is then declared in the chosen section alone, with the trimmed
    requirement, while every other declaration and the rest of the manifest stay as they
    were; removing deletes it from every section, whatever was added before; an update
    needs the declaration in that very section and changes nothing else. *)
Theorem dependency_edits_spec kind name requirement m :
  (is_ok (with_dependency_kind kind name requirement m) = true ↔ declarable name) ∧
  (∀ m', with_dependency_kind kind name requirement m = Ok m' →
    section m' kind !! name = Some (trim requirement) ∧
    dependency_kind m' name = Some kind ∧
    (∀ n k, n ≠ name → section m' k !! n = section m k !! n) ∧
    (∀ n, n ≠ name → dependency_kind m' n = dependency_kind m n) ∧
    same_rest m m' ∧
    without_dependency name m' = without_dependency name m) ∧
  (∀ m', without_dependency name m = Ok m' →
    dependency_kind m' name = None ∧
    (∀ n, n ≠ name → dependency_kind m' n = dependency_kind m n) ∧ same_rest m m') ∧
  (∀ m', update_dependency_kind kind name requirement m = Ok m' ↔
    is_Some (section m kind !! name) ∧ section m' kind = <[name := trim requirement]> (section m kind) ∧
    (∀ k, k ≠ kind → section m' k = section m k) ∧ same_rest m m').
Proof.
  split_and!.
  - rewrite is_ok_true. split; [by intros (m'&[? _]%with_dependency_kind_Ok)|].
    intros Hn. eexists. by apply with_dependency_kind_Ok.
  - intros m' [Hn Hm']%with_dependency_kind_Ok.
    assert (∀ k, section m' k = if decide (k = kind) then <[name := trim requirement]> (section m k)
      else delete name (section m k)) as Hs by (intros k; subst m'; apply section_with_sections).
    assert (∀ n k, n ≠ name → section m' k !! n = section m k !! n) as Hother.
    { intros n k Hne. rewrite Hs. case_decide; by rewrite ?lookup_insert_ne, ?lookup_delete_ne. }
    assert (section m' kind !! name = Some (trim requirement)) as Hin.
    { rewrite Hs, decide_True by done. apply lookup_insert_eq. }
    split_and!; [done| |done|by intros n Hne; apply dependency_kind_ext; intros; apply Hother| |].
    + apply dependency_kind_only; [by rewrite Hin|]. intros k Hk. rewrite Hs, decide_False by done.
      apply lookup_delete_eq.
    + subst m'. apply same_rest_with.
    + assert (remove_everywhere name m' = remove_everywhere name m) as Heq.
      { unfold remove_everywhere. transitivity (with_sections m (λ k, delete name (section m' k))).
        - by subst m'.
        - apply with_sections_eq. intros k. rewrite Hs.
          case_decide; [apply delete_insert_eq|apply delete_delete_eq]. }
      unfold without_dependency. by rewrite Heq.
  - intros m' [_ ->]%without_dependency_Ok. split_and!.
    + apply dependency_kind_None. intros k. rewrite section_removed. apply lookup_delete_eq.
    + intros n Hne. apply dependency_kind_ext. intros k. rewrite section_removed.
      by apply lookup_delete_ne.
    + apply same_rest_with.
  - intros m'. unfold update_dependency_kind. split.
    + intros (v&Hv%ok_or_Ok&[= <-])%bind_Ok. split_and!; [by eexists| | |apply same_rest_with].
      * by rewrite section_set, decide_True.
      * intros k Hk. by rewrite section_set, decide_False.
    + intros ([v Hv]&Hkind&Hother&Hrest). rewrite Hv. simpl. f_equal.
      unfold set_section. unfold same_rest in Hrest. rewrite <-Hrest at 1.
      transitivity (with_sections m' (section m')); [|apply with_sections_same].
      transitivity (with_sections m' (λ k, if decide (k = kind) then
        <[name := trim requirement]> (section m kind) else section m k)); [done|].
      apply with_sections_eq. intros k. case_decide as Hk; [by subst k|symmetry; by apply Hother].
Qed.
End manifest_inv.

(** ** The paths a bin target can hold *)
Lemma split_current c s : c ≠ "."%char → split c ("." +:+ String c s) = "." :: split c s.
Proof.
  intros Hc. apply split_app. rewrite contains_char_cons. simpl.
  rewrite orb_false_r. by apply bool_decide_eq_false.
Qed.
Lemma later_components parts :
  forallb (λ c, negb (escaping_component c)) (omap later_component parts) = true ↔ ".." ∉ parts.
Proof.
  induction parts as [|p parts IH]; cbn [omap list_omap].
  { split; [by intros _ ?%not_elem_of_nil|done]. }
  rewrite not_elem_of_cons. unfold later_component at 1.
  destruct (str_eqb p "") eqn:H1; [apply str_eqb_true in H1 as ->|]; simpl.
  { rewrite IH. naive_solver. }
  destruct (str_eqb p ".") eqn:H2; [apply str_eqb_true in H2 as ->|]; simpl.
  { rewrite IH. naive_solver. }
  destruct (str_eqb p "..") eqn:H3; simpl.
  - apply str_eqb_true in H3 as ->. naive_solver.
  - rewrite IH. assert (p ≠ "..") by (intros ->; by rewrite str_eqb_refl in H3). naive_solver.
Qed.
Lemma relative_components s :
  path_is_absolute s = false →
  forallb (λ c, negb (escaping_component c)) (path_components s) = true ↔ ".." ∉ split "/" s.
Proof.
  intros Hs. unfold path_components. rewrite Hs. destruct (split "/" s) as [|first rest] eqn:Hp.
  { split; [by intros _ ?%not_elem_of_nil|done]. }
  destruct (str_eqb first ".") eqn:Hf; [|by rewrite later_components].
  apply str_eqb_true in Hf as ->. simpl. rewrite later_components, not_elem_of_cons. naive_solver.
Qed.
(** No NUL, no backslash, no parent component. *)
Definition plain_target (s : string) : Prop :=
  contains_char (ascii_of_N 0) s = false ∧ contains_char "\" s = false ∧ ".." ∉ split "/" s.
Definition anchored (s : string) : bool :=
  is_empty s || path_is_absolute s || windows_drive s.
Lemma starts_absolute s : starts_with "//" s = true → path_is_absolute s = true.
Proof. by intros [r ->]%starts_with_true. Qed.
Lemma valid_target_spec s : valid_target s = true ↔ plain_target s ∧ anchored s = false.
Proof.
  unfold valid_target, plain_target, anchored.
  destruct (is_empty s); [naive_solver|].
  destruct (contains_char (ascii_of_N 0) s); [naive_solver|].
  destruct (contains_char "\" s); [naive_solver|]. cbn [orb].
  destruct (windows_drive s); cbn [orb]; [rewrite orb_true_r; naive_solver|].
  destruct (path_is_absolute s) eqn:Ha.
  { destruct (starts_with "//" s); naive_solver. }
  destruct (starts_with "//" s) eqn:Hs; [apply starts_absolute in Hs; congruence|].
  cbn [negb andb orb]. rewrite relative_components by done. naive_solver.
Qed.
Lemma plain_current s : plain_target ("./" +:+ s) ↔ plain_target s.
Proof.
  unfold plain_target. change ("./" +:+ s) with ("." +:+ String "/" s).
  rewrite split_current by done. rewrite not_elem_of_cons.
  change ("." +:+ String "/" s) with (String "." (String "/" s)).
  rewrite !contains_char_cons. simpl. naive_solver.
Qed.
Lemma plain_trimmed s : plain_target s → plain_target (trim_start_matches "./" s).
Proof.
  unfold trim_start_matches. generalize (String.length s). intros n. revert s.
  induction n as [|n IH]; intros s Hs; cbn [trim_start_matches_fuel]; [done|].
  destruct (strip_prefix "./" s) as [r|] eqn:Hr; [|done].
  apply strip_prefix_Some in Hr as ->. apply IH. by apply plain_current.
Qed.
Lemma parse_bin_targets `{JT : JsonCompact} value name bin t :
  parse_bin value name = Ok bin → t ∈ pb_targets bin →
  valid_command (bt_command t) = true ∧
  ∃ text, valid_target text = true ∧ bt_target t = trim_start_matches "./" text.
Proof.
  unfold parse_bin. intros (entries&_&H)%bind_Ok.
  apply bind_Ok in H as (targets&[_ Hall]%try_map_commands&[= <-]).
  cbn [pb_targets]. rewrite elem_of_sort_by. intros (Hc&text&_&Htext&Ht)%Hall. eauto.
Qed.

(** Every stored bin target names a command free of separators and is free of parent
    components, backslashes and NULs; a stored target is refused as an input exactly when
    it is empty, absolute or starts with a drive - which the parser does not exclude,
    since it strips [./] after its check: the text [./] followed by any absolute path
    without parent components is accepted and stored as that absolute path, and [./]
    alone as the empty path. *)
Theorem bin_targets_spec `{JT : JsonCompact} value name bin :
  (parse_bin value name = Ok bin → ∀ t, t ∈ pb_targets bin →
    valid_command (bt_command t) = true ∧ plain_target (bt_target t) ∧
    (valid_target (bt_target t) = false ↔ anchored (bt_target t) = true)) ∧
  (∀ command path, valid_command command = true → plain_target path →
    path_is_absolute path = true →
    bin_target (command, "./" +:+ path) = Ok (mk_target command path)) ∧
  (∀ command, valid_command command = true →
    bin_target (command, "./") = Ok (mk_target command "")).
Proof.
  split_and!.
  - intros Hbin t Ht. destruct (parse_bin_targets _ _ _ _ Hbin Ht) as (Hc&text&Htext&->).
    apply valid_target_spec in Htext as [Hplain%plain_trimmed _].
    split_and!; [done|apply Hplain..|].
    destruct (valid_target (trim_start_matches "./" text)) eqn:Hv.
    + apply valid_target_spec in Hv as [_ Hv]. rewrite Hv. naive_solver.
    + split; [intros _|done]. apply not_false_iff_true. intros Ha.
      apply not_true_iff_false in Hv. apply Hv. by apply valid_target_spec.
  - intros command path Hc Hpath Habs. apply bin_target_Ok. split_and!; [done| |].
    + apply valid_target_spec. split; [by apply plain_current|]. done.
    + f_equal. unfold path_is_absolute, starts_with_char in Habs. destruct path as [|a path]; [done|].
      apply ascii_eqb_true in Habs as <-. reflexivity.
  - intros command Hc. apply bin_target_Ok. by split_and!.
Qed.

(** ** The lifecycle plan of a dependency *)
Section lifecycle.
Context `{JC : JsonCodec}.

(** The scripts of a document: none, or an object of strings. *)
Definition scripts_of (object : gmap string json) (scripts : gmap string string) : Prop :=
  match object !! "scripts" with
  | None => scripts = ∅
  | Some v => as_object v = Some (JString <$> scripts)
  end.
Lemma check_scripts (scripts : gmap string json) u :
  for_each check_script (btree_iter scripts) = Ok u ↔
  ∃ texts : gmap string string, scripts = JString <$> texts.
Proof.
  rewrite for_each_Ok. split.
  - intros Hall. exists (omap as_str scripts). apply map_eq. intros key.
    rewrite lookup_fmap, lookup_omap. destruct (scripts !! key) as [v|] eqn:Hv; [|done].
    apply elem_of_btree_iter, Hall, ensure_Ok, bool_decide_eq_true in Hv as [text Htext].
    by destruct v.
  - intros [texts ->] [key v] Hin%elem_of_btree_iter. rewrite lookup_fmap in Hin.
    apply fmap_Some in Hin as (text&_&->). by apply ensure_Ok, bool_decide_eq_true.
Qed.
Definition implicit_build (binding_gyp : bool) (scripts : gmap string string) : bool :=
  binding_gyp && negb (contains_key "install" scripts) && negb (contains_key "preinstall" scripts).
Definition script_command (scripts : gmap string string) (name : string) : option (string * string) :=
  command ← scripts !! name; if is_empty (trim command) then None else Some (name, command).
Lemma contains_key_fmap (key : string) (texts : gmap string string) :
  contains_key key (JString <$> texts) = contains_key key texts.
Proof. unfold contains_key. rewrite lookup_fmap. by destruct (texts !! key). Qed.
Lemma dependency_lifecycle_plan_Ok input binding_gyp plan :
  dependency_lifecycle_plan input binding_gyp = Ok plan ↔
  ∃ object scripts, manifest_object input = Ok object ∧ scripts_of object scripts ∧
    let commands := omap (script_command scripts) lifecycle_names in
    let implicit := implicit_build binding_gyp scripts in
    plan = mk_plan (if implicit then ("install", "node-gyp rebuild") :: commands else commands) implicit.
Proof.
  unfold dependency_lifecycle_plan.
  assert (∀ texts : gmap string string, omap (lifecycle_command (JString <$> texts)) lifecycle_names =
    omap (script_command texts) lifecycle_names) as Hcommands.
  { intros texts. apply list_omap_ext, Forall_Forall2_diag, Forall_true. intros name.
    unfold lifecycle_command, script_command. rewrite lookup_fmap. by destruct (texts !! name). }
  split.
  - intros (object&Hobject&H)%bind_Ok. apply bind_Ok in H as (scripts&Hscripts&H).
    apply bind_Ok in H as (u&[texts ->]%check_scripts&H).
    cbv zeta in H. rewrite Hcommands, !contains_key_fmap in H.
    apply (f_equal to_ok) in H. cbn [to_ok] in H. exists object, texts.
    split_and!; [done| |].
    + unfold scripts_of. destruct (object !! "scripts") as [v|]; [by apply ok_or_Ok in Hscripts|].
      injection Hscripts as Heq. symmetry in Heq. by apply fmap_empty_inv in Heq.
    + cbv zeta. unfold implicit_build. congruence.
  - intros (object&texts&Hobject&Hscripts&->). apply bind_Ok. exists object. split; [done|].
    apply bind_Ok. exists (JString <$> texts). split.
    + unfold scripts_of in Hscripts. destruct (object !! "scripts"); [by rewrite Hscripts|].
      by rewrite Hscripts, fmap_empty.
    + apply bind_Ok. exists (). split; [apply check_scripts; by exists texts|].
      unfold implicit_build. by rewrite Hcommands, !contains_key_fmap.
Qed.
Lemma omap_sublist {A B} (f : A → option B) (g : B → A) l :
  (∀ x y, f x = Some y → g y = x) → (g <$> omap f l) `sublist_of` l.
Proof.
  intros Hfg. induction l as [|x l IH]; simpl; [done|].
  destruct (f x) as [y|] eqn:Hf; simpl; [|by apply sublist_cons].
  rewrite (Hfg _ _ Hf). by apply sublist_skip.
Qed.
Lemma script_command_Some scripts name entry :
  script_command scripts name = Some entry ↔
  ∃ command, scripts !! name = Some command ∧ trim command ≠ "" ∧ entry = (name, command).
Proof.
  unfold script_command. destruct (scripts !! name) as [command|]; simpl; [|naive_solver].
  destruct (is_empty (trim command)) eqn:He.
  - apply is_empty_true in He. naive_solver.
  - assert (trim command ≠ "") by (intros H; rewrite H in He; done). naive_solver.
Qed.
Lemma elem_of_commands scripts hook command :
  (hook, command) ∈ omap (script_command scripts) lifecycle_names ↔
  hook ∈ lifecycle_names ∧ scripts !! hook = Some command ∧ trim command ≠ "".
Proof.
  rewrite list_elem_of_omap. split.
  - by intros (name&Hname&(?&?&?&[= -> ->])%script_command_Some).
  - intros (Hhook&Hc&Ht). exists hook. split; [done|]. apply script_command_Some. by exists command.
Qed.
Lemma commands_sublist scripts l :
  (omap (script_command scripts) l).*1 `sublist_of` l.
Proof. apply omap_sublist. by intros name entry (?&_&_&->)%script_command_Some. Qed.
Lemma implicit_build_true binding_gyp scripts :
  implicit_build binding_gyp scripts = true ↔
  binding_gyp = true ∧ scripts !! "install" = None ∧ scripts !! "preinstall" = None.
Proof.
  unfold implicit_build, contains_key.
  destruct binding_gyp, (scripts !! "install"), (scripts !! "preinstall"); naive_solver.
Qed.

(** The lifecycle plan of a dependency exists exactly when the document is an object
    whose scripts, if any, are an object of strings; it lists the non-blank lifecycle
    scripts in npm's order, each hook at most once, and adds the implicit native build
    exactly when a [binding.gyp] is present and neither install nor preinstall is
    declared. *)
Theorem dependency_lifecycle_spec input binding_gyp :
  (is_ok (dependency_lifecycle_plan input binding_gyp) = true ↔
    ∃ object scripts, manifest_object input = Ok object ∧ scripts_of object scripts) ∧
  ∀ plan, dependency_lifecycle_plan input binding_gyp = Ok plan →
    ∃ object scripts, manifest_object input = Ok object ∧ scripts_of object scripts ∧
    (implicit_install plan = true ↔
      binding_gyp = true ∧ scripts !! "install" = None ∧ scripts !! "preinstall" = None) ∧
    (∀ hook command, (hook, command) ∈ plan_commands plan ↔
      hook ∈ lifecycle_names ∧ scripts !! hook = Some command ∧ trim command ≠ "" ∨
      implicit_install plan = true ∧ hook = "install" ∧ command = "node-gyp rebuild") ∧
    (plan_commands plan).*1 `sublist_of` lifecycle_names.
Proof.
  split.
  { rewrite is_ok_true. setoid_rewrite dependency_lifecycle_plan_Ok. naive_solver. }
  intros plan (object&scripts&Hobject&Hscripts&->)%dependency_lifecycle_plan_Ok.
  exists object, scripts. cbn [implicit_install plan_commands].
  split_and!; [done|done|apply implicit_build_true| |].
  - intros hook command. rewrite <-elem_of_commands.
    destruct (implicit_build _ _); [rewrite elem_of_cons|]; naive_solver.
  - destruct (implicit_build binding_gyp scripts) eqn:Hi; [|apply commands_sublist].
    apply implicit_build_true in Hi as (_&Hinstall&Hpre).
    set (rest := ["postinstall"; "prepublish"; "preprepare"; "prepare"; "postprepare"]).
    assert (omap (script_command scripts) lifecycle_names = omap (script_command scripts) rest) as ->.
    { assert (script_command scripts "install" = None) as H1 by (unfold script_command; by rewrite Hinstall).
      assert (script_command scripts "preinstall" = None) as H2 by (unfold script_command; by rewrite Hpre).
      change lifecycle_names with ("preinstall" :: "install" :: rest). simpl. by rewrite H1, H2. }
    rewrite fmap_cons. apply sublist_cons, sublist_skip, commands_sublist.
Qed.
End lifecycle.

(** ** Where a parse error is reported *)
Section diagnostics.
Context `{SV : Semver} `{JC : JsonCodec} `{JT : JsonCompact}.

(** The member [key] of the object at [field]. *)
Definition member (object : gmap string json) (field key : string) (x : json) : Prop :=
  ∃ w o, object !! field = Some w ∧ as_object w = Some o ∧ o !! key = Some x.
(** How an object gives rise to each error. *)
Inductive raised (object : gmap string json) : ManifestError → Prop :=
| raised_required key :
    (∀ w, object !! key = Some w → as_str w = None) → raised object (RequiredString key)
| raised_string key w :
    object !! key = Some w → as_str w = None → raised object (ExpectedString key)
| raised_boolean key w :
    object !! key = Some w → as_bool w = None → raised object (ExpectedBoolean key)
| raised_map key w :
    object !! key = Some w → as_object w = None → raised object (ExpectedMap key)
| raised_entry field key x :
    member object field key x → as_str x = None → raised object (ExpectedMapValueString field key)
| raised_name e : raised object (BadPackageName e)
| raised_version e : raised object (BadPackageVersion e)
| raised_dependency field key x e :
    field ∈ dependency_fields → member object field key x →
    PackageName_from_str (dependency_candidate key) = Err e →
    raised object (InvalidDependencyName e)
| raised_bin command target : raised object (InvalidBin command target)
| raised_bin_string key x :
    member object "bin" key x → as_str x = None → raised object (ExpectedBinString key).

Lemma optional_string_raised object key e :
  optional_string object key = Err e → raised object e.
Proof.
  unfold optional_string. destruct (object !! key) as [w|] eqn:Hw; [|done].
  intros [Hs ->]%ok_or_Err. apply (raised_string _ key w); [done|]. by destruct (as_str w).
Qed.
Lemma optional_map_raised object field validate e :
  (validate = true → field ∈ dependency_fields) →
  optional_map object field validate = Err e → raised object e.
Proof.
  intros Hfield. unfold optional_map. destruct (object !! field) as [w|] eqn:Hw; [|done].
  unfold parse_string_map. intros [[Ho ->]%ok_or_Err|(o&Ho%ok_or_Ok&H%fmap_Err)]%bind_Err.
  { by apply (raised_map _ field w). }
  apply try_map_Err in H as ([name x]&Hx%elem_of_btree_iter&H).
  assert (member object field name x) as Hmember by (by exists w, o).
  unfold map_entry in H. apply bind_Err in H as [H|(u&_&H)].
  - destruct validate; [|done]. apply fmap_Err, map_err_Err in H as (e'&He'&->).
    apply (raised_dependency _ field name x); by auto.
  - apply bind_Err in H as [[Hs ->]%ok_or_Err|(text&_&H)]; [|done].
    by apply (raised_entry _ field name x).
Qed.
Lemma parse_bin_raised object w name e :
  object !! "bin" = Some w → parse_bin w name = Err e → raised object e.
Proof.
  intros Hw. unfold parse_bin. intros [H|(entries&_&H)]%bind_Err.
  - destruct w as [| | | | | |fields]; try (injection H as <-; constructor); [done|].
    cbv zeta in H. case_bool_decide; [injection H as <-; constructor|].
    apply try_map_Err in H as ([key x]&Hx%elem_of_btree_iter&H). simpl in H.
    apply bind_Err in H as [[Hs ->]%ok_or_Err|(?&_&?)]; [|done].
    apply (raised_bin_string _ key x); [|done]. by exists (JObject fields), (btree_collect fields).
  - apply bind_Err in H as [H|(?&_&?)]; [|done].
    apply try_map_Err in H as ([command target]&_&H). unfold bin_target in H.
    destruct (_ || _); [injection H as <-; constructor|done].
Qed.
Lemma parse_object_raised object e : parse_object object = Err e → raised object e.
Proof.
  unfold parse_object. intros [H|(name&_&H)]%bind_Err.
  { apply ok_or_Err in H as [H ->]. constructor. intros w Hw. by rewrite Hw in H. }
  apply bind_Err in H as [H|(version&_&H)].
  { apply ok_or_Err in H as [H ->]. constructor. intros w Hw. by rewrite Hw in H. }
  apply bind_Err in H as [H|(private&_&H)].
  { unfold optional_bool in H. destruct (object !! "private") as [w|] eqn:Hw; [|done].
    apply ok_or_Err in H as [H ->]. by apply (raised_boolean _ _ w). }
  apply bind_Err in H as [H|(m&_&H)].
  { unfold PackageManifest_new in H. apply bind_Err in H as [(?&_&->)%map_err_Err|(?&_&H)]; [constructor|].
    apply bind_Err in H as [(?&_&->)%map_err_Err|(?&_&?)]; [constructor|done]. }
  do 2 (apply bind_Err in H as [?%optional_string_raised|(?&_&H)]; [done|]).
  do 6 (apply bind_Err in H as [H|(?&_&H)];
    [by eapply optional_map_raised; [|exact H]; intros; set_solver|]).
  apply bind_Err in H as [H|(?&_&?)]; [|done].
  destruct (object !! "bin") as [w|] eqn:Hw; [|done]. apply fmap_Err in H.
  by eapply parse_bin_raised.
Qed.

Lemma kind_not_string v : as_str v = None → json_kind (Some v) ≠ "string".
Proof. by destruct v. Qed.
Lemma kind_not_boolean v : as_bool v = None → json_kind (Some v) ≠ "boolean".
Proof. by destruct v. Qed.
Lemma kind_not_object v : as_object v = None → json_kind (Some v) ≠ "object".
Proof. by destruct v. Qed.
Lemma kind_not_missing v : json_kind (Some v) ≠ "missing".
Proof. by destruct v. Qed.
Lemma find_dependency_name_Some v object name field field' key :
  as_object v = Some object →
  find_dependency_name (Some v) name field = Some (field', key) →
  field' = field ∧ dependency_candidate key = name ∧ ∃ x, member object field key x.
Proof.
  intros Hv. unfold find_dependency_name, value_get. cbn [mbind option_bind]. rewrite Hv.
  cbn [mbind option_bind]. destruct (object !! field) as [w|] eqn:Hw; [|done].
  cbn [mbind option_bind]. destruct (as_object w) as [o|] eqn:Ho; [|done]. cbn [mbind option_bind].
  destruct (head _) as [k|] eqn:Hk; [|done]. intros [= <- <-].
  apply head_Some_elem_of, list_elem_of_filter in Hk as [Hc [x Hx]%elem_of_btree_keys].
  split_and!; [done..|]. by exists x, w, o.
Qed.
Lemma find_dependency_name_complete v object name field key x :
  as_object v = Some object → member object field key x → dependency_candidate key = name →
  is_Some (find_dependency_name (Some v) name field).
Proof.
  intros Hv (w&o&Hw&Ho&Hx) Hc. unfold find_dependency_name, value_get. cbn [mbind option_bind].
  rewrite Hv. cbn [mbind option_bind]. rewrite Hw. cbn [mbind option_bind]. rewrite Ho.
  cbn [mbind option_bind]. destruct (base.filter _ (btree_keys o)) as [|k l] eqn:Hl; [|by eexists].
  exfalso. assert (key ∈ base.filter (λ k, dependency_candidate k = name) (btree_keys o)) as Hin.
  { apply list_elem_of_filter. split; [done|]. apply elem_of_btree_keys. by exists x. }
  rewrite Hl in Hin. by apply not_elem_of_nil in Hin.
Qed.
Lemma head_omap_Some {A B} (f : A → option B) l x :
  x ∈ l → is_Some (f x) → ∃ x' y, x' ∈ l ∧ f x' = Some y ∧ head (omap f l) = Some y.
Proof.
  induction l as [|z l IH]; [by intros ?%not_elem_of_nil|]. intros Hx Hf. simpl.
  destruct (f z) as [y|] eqn:Hz.
  - exists z, y. split_and!; [by left|done..].
  - apply elem_of_cons in Hx as [->|Hx]; [by rewrite Hz in Hf; destruct Hf|].
    destruct (IH Hx Hf) as (x'&y&?&?&?). exists x', y. split_and!; [by right|done..].
Qed.
Lemma observed_member v object field key x e input :
  parse_value input = Some v → as_object v = Some object → member object field key x →
  (diagnostic_location (Some v) e).1 = (Some field, Some key) →
  md_field (diagnostic e input) = Some field ∧ md_key (diagnostic e input) = Some key ∧
  md_observed (diagnostic e input) = json_kind (Some x).
Proof.
  intros Hinput Hv (w&o&Hw&Ho&Hx) He. unfold diagnostic. rewrite Hinput.
  destruct (diagnostic_location (Some v) e) as [[f k] expected]. simpl in He. injection He as -> ->.
  cbn [md_field md_key md_observed]. split_and!; [done..|]. unfold value_get. rewrite Hv. cbn [mbind option_bind].
  rewrite Hw. cbn [mbind option_bind]. rewrite Ho. cbn [mbind option_bind]. by rewrite Hx.
Qed.
Lemma observed_field v object field e input :
  parse_value input = Some v → as_object v = Some object →
  (diagnostic_location (Some v) e).1 = (Some field, None) →
  md_observed (diagnostic e input) = json_kind (object !! field).
Proof.
  intros Hinput Hv He. unfold diagnostic. rewrite Hinput.
  destruct (diagnostic_location (Some v) e) as [[f k] expected]. simpl in He. injection He as -> ->.
  cbn [md_observed]. unfold value_get. by rewrite Hv.
Qed.
Lemma expected_location e input v :
  parse_value input = Some v →
  md_expected (diagnostic e input) = (diagnostic_location (Some v) e).2.
Proof.
  intros Hv. unfold diagnostic. rewrite Hv. by destruct (diagnostic_location (Some v) e) as [[f k] expected].
Qed.
(** The kinds of values, against the expectations that are not kinds. *)
Lemma kind_not_other v expected :
  expected ∈ ["dependency_name"; "package_name"; "semver_version"; "contained_bin_target"] →
  json_kind v ≠ expected.
Proof.
  rewrite !elem_of_cons, elem_of_nil.
  intros [->|[->|[->|[->|[]]]]]; by destruct v as [[]|].
Qed.
Lemma observed_kind e input v :
  parse_value input = Some v → ∃ w, md_observed (diagnostic e input) = json_kind w.
Proof.
  intros Hv. unfold diagnostic. rewrite Hv.
  destruct (diagnostic_location (Some v) e) as [[f k] expected]. by eexists.
Qed.
Lemma observed_other e input v :
  parse_value input = Some v →
  (diagnostic_location (Some v) e).2 ∈
    ["dependency_name"; "package_name"; "semver_version"; "contained_bin_target"] →
  md_observed (diagnostic e input) ≠ (diagnostic_location (Some v) e).2.
Proof. intros Hv He. destruct (observed_kind e input v Hv) as [w ->]. by apply kind_not_other. Qed.
Lemma dependency_located v object field key x err :
  as_object v = Some object → field ∈ dependency_fields → member object field key x →
  PackageName_from_str (dependency_candidate key) = Err err →
  ∃ field' key' x', field' ∈ dependency_fields ∧ member object field' key' x' ∧
    PackageName_from_str (dependency_candidate key') = Err err ∧
    diagnostic_location (Some v) (InvalidDependencyName err) =
      (Some field', Some key', "dependency_name").
Proof.
  intros Hv Hfield Hx Hname.
  destruct (PackageName_from_str_cases (dependency_candidate key)) as [[_ Heq]|[_ Heq]];
    rewrite Heq in Hname; [done|]. injection Hname as <-.
  destruct (head_omap_Some (find_dependency_name (Some v) (dependency_candidate key))
    dependency_fields field) as (field'&[f k]&Hfield'&Hfind&Hhead); [done| |].
  { by eapply find_dependency_name_complete. }
  destruct (find_dependency_name_Some v object _ field' f k Hv Hfind) as (->&Hc&x'&Hx').
  exists field', k, x'. split_and!; [done..|by rewrite Hc|].
  unfold diagnostic_location. by rewrite Hhead.
Qed.
Lemma raised_observed input v object e :
  parse_value input = Some v → as_object v = Some object → raised object e →
  md_observed (diagnostic e input) ≠ md_expected (diagnostic e input) ∧
  ∀ err, e = InvalidDependencyName err → ∃ field key,
    md_field (diagnostic e input) = Some field ∧ md_key (diagnostic e input) = Some key ∧
    field ∈ dependency_fields ∧ md_observed (diagnostic e input) ≠ "missing" ∧
    PackageName_from_str (dependency_candidate key) = Err err.
Proof.
  intros Hinput Hv Hraised. rewrite (expected_location e input v Hinput).
  destruct Hraised as [key H|key w Hw H|key w Hw H|key w Hw H|field key x Hx H|err|err
    |field key x err Hfield Hx Hname|command target|key x Hx H]; (split; [|try done]).
  - rewrite (observed_field v object key) by done. simpl.
    destruct (object !! key) as [w|]; [by apply kind_not_string, H|done].
  - rewrite (observed_field v object key) by done. rewrite Hw. by apply kind_not_string.
  - rewrite (observed_field v object key) by done. rewrite Hw. by apply kind_not_boolean.
  - rewrite (observed_field v object key) by done. rewrite Hw. by apply kind_not_object.
  - destruct (observed_member v object field key x (ExpectedMapValueString field key) input)
      as (_&_&->); [done..|]. by apply kind_not_string.
  - apply observed_other; [done|]. simpl. set_solver.
  - apply observed_other; [done|]. simpl. set_solver.
  - destruct (dependency_located v object field key x err) as (f&k&x'&_&_&_&Hloc); [done..|].
    apply observed_other; [done|]. rewrite Hloc. simpl. set_solver.
  - intros err' [= <-].
    destruct (dependency_located v object field key x err) as (f&k&x'&Hf&Hx'&Hk&Hloc); [done..|].
    destruct (observed_member v object f k x' (InvalidDependencyName err) input) as (H1&H2&H3);
      [done..|by rewrite Hloc|].
    exists f, k. split_and!; [done..| |done]. rewrite H3. apply kind_not_missing.
  - apply observed_other; [done|]. simpl. set_solver.
  - destruct (observed_member v object "bin" key x (ExpectedBinString key) input)
      as (_&_&->); [done..|]. by apply kind_not_string.
Qed.

(** The diagnostic of a parse error points at what is wrong: the kind it observed in
    the document is never the kind it says was expected, and a bad dependency name is
    always located - in one of the dependency sections, at a key that is present there
    and whose name after its registry prefix is refused with that very error. *)
Theorem diagnostic_locates input e :
  manifest_parse input = Err e →
  md_observed (diagnostic e input) ≠ md_expected (diagnostic e input) ∧
  ∀ err, e = InvalidDependencyName err → ∃ field key,
    md_field (diagnostic e input) = Some field ∧ md_key (diagnostic e input) = Some key ∧
    field ∈ dependency_fields ∧ md_observed (diagnostic e input) ≠ "missing" ∧
    PackageName_from_str (dependency_candidate key) = Err err.
Proof.
  unfold manifest_parse, manifest_object.
  intros [[[Hv ->]%ok_or_Err|(v&Hv%ok_or_Ok&[Ho ->]%ok_or_Err)]%bind_Err|(object&H&Hraised)]%bind_Err.
  - split; [|done]. unfold diagnostic. by rewrite Hv.
  - split; [|done]. rewrite (expected_location _ input v Hv). unfold diagnostic. rewrite Hv.
    by apply kind_not_object.
  - apply bind_Ok in H as (v&Hv%ok_or_Ok&Ho%ok_or_Ok). apply parse_object_raised in Hraised.
    by eapply raised_observed.
Qed.
End diagnostics.

(** ** Witnesses *)
Definition sample_document (bin : string) (dependency : string) : string :=
  json_pretty (JObject [("name", JString "tool"); ("version", JString "1.0.0");
    ("private", JBool true); ("bin", JString bin);
    ("dependencies", JObject [(dependency, JString "^1.3.0")]);
    ("engines", JObject [("node", JString ">=18")])]) +:+ newline.
Definition round_trips (m : PackageManifest) : bool :=
  json_ok json_depth (write_manifest m) &&
  match pm_bin m with
  | Some bin => forallb (λ t, valid_target (bt_target t)) (pb_targets bin)
  | None => true
  end.
Lemma round_trips_true m :
  round_trips m = true →
  json_ok json_depth (write_manifest m) = true ∧ ∀ bin, pm_bin m = Some bin → targets_valid bin.
Proof.
  unfold round_trips. intros [Hj Hb]%andb_true_iff. split; [done|].
  intros bin Hbin t Ht. rewrite Hbin, forallb_forall in Hb. by apply Hb, list_elem_of_In.
Qed.
Lemma manifest_roundtrip_witness :
  match manifest_parse (sample_document "./cli.js" "npm:left-pad") with
  | Ok m => manifest_parse (manifest_to_json m) = Ok m
  | Err _ => False
  end.
Proof.
  assert (match manifest_parse (sample_document "./cli.js" "npm:left-pad") with
    | Ok m => round_trips m | Err _ => false end = true) as H by (vm_compute; reflexivity).
  destruct (manifest_parse _) as [m|e] eqn:Hm; [|discriminate H].
  apply round_trips_true in H as [Hj Hb].
  apply (manifest_roundtrip m m); [by eapply rm_parse|exact Hj|].
  split; [reflexivity|exact Hb].
Defined.
(** A manifest that the program reads, but no longer reads after writing it. *)
Example unreadable_manifest :
  match manifest_parse (sample_document "./" "npm:left-pad") with
  | Ok m => is_ok (manifest_parse (manifest_to_json m)) = false
  | Err _ => False
  end.
Proof. vm_compute. reflexivity. Qed.
Lemma diagnostic_locates_witness :
  match manifest_parse (sample_document "./cli.js" "npm:Left Pad") with
  | Err e =>
      md_observed (diagnostic e (sample_document "./cli.js" "npm:Left Pad")) ≠
      md_expected (diagnostic e (sample_document "./cli.js" "npm:Left Pad"))
  | Ok _ => False
  end.
Proof.
  assert (is_ok (manifest_parse (sample_document "./cli.js" "npm:Left Pad")) = false) as H
    by (vm_compute; reflexivity).
  destruct (manifest_parse _) as [m|e] eqn:Hm; [discriminate H|].
  exact (proj1 (diagnostic_locates _ e Hm)).
Defined.
