(* ===== verification/Workspace.v ===== *)
(** * tapid-manifest: workspace discovery

    Discovery of workspace members below a project directory
    (crates/tapid-manifest/src/workspace.rs): decoding the declared patterns, expanding
    them within a budget of steps and candidates, validating, reading and parsing each
    manifest, and selecting members by name.  The filesystem is a class parameter,
    frozen for the duration of a discovery; paths are their texts, compared by
    components as [std::path] does.  The Unix build is modelled. *)
From S2P Require Import Prelude Order RustStr Crates Samples Core LockKey Json Manifest.

(** ** [std::path] *)
(** [base.join(p)] *)
Definition path_join (base p : string) : string :=
  if path_is_absolute p then p
  else if is_empty base || ends_with_char "/" base then base +:+ p
  else base +:+ "/" +:+ p.
(** [component.as_os_str()] *)
Definition component_text (c : RustStr.component) : string :=
  match c with RootDir => "/" | CurDir => "." | ParentDir => ".." | Normal part => part end.
Definition component_key (c : RustStr.component) : nat * string :=
  match c with RootDir => (0, "") | CurDir => (1, "") | ParentDir => (2, "") | Normal part => (3, part) end.
#[export] Instance component_key_inj : Inj (=) (=) component_key.
Proof. by intros [] [] [=]; subst. Qed.
#[export] Instance component_ord : Ord RustStr.component := cmp_on component_key.
#[export] Instance component_ord_laws : OrdLaws RustStr.component.
Proof. apply (cmp_on_laws component_key). Qed.
Fixpoint strip_components (base l : list RustStr.component) : option (list RustStr.component) :=
  match base, l with
  | [], l => Some l
  | b :: base, c :: l => if decide (b = c) then strip_components base l else None
  | _ :: _, [] => None
  end.
(** [path.strip_prefix(base)], as components *)
Definition path_strip_prefix (base path : string) : option (list RustStr.component) :=
  strip_components (path_components base) (path_components path).
(** [path.starts_with(base)] *)
Definition path_starts_with (base path : string) : bool :=
  match path_strip_prefix base path with Some _ => true | None => false end.
Definition path_text (l : list RustStr.component) : string :=
  match l with
  | RootDir :: l => "/" +:+ join "/" (component_text <$> l)
  | l => join "/" (component_text <$> l)
  end.
(** [path.parent()] *)
Definition path_parent (path : string) : option string :=
  match last (path_components path) with
  | None | Some RootDir => None
  | Some _ => Some (path_text (removelast (path_components path)))
  end.
(** [paths.dedup()]: adjacent paths with equal components, of which the first stays. *)
Fixpoint path_dedup (l : list string) : list string :=
  match l with
  | p :: l =>
      match path_dedup l with
      | q :: k => if decide (path_components p = path_components q) then p :: k else p :: q :: k
      | [] => [p]
      end
  | [] => []
  end.

(** ** [std::fs] *)
Record io_error := mk_io { io_not_found : bool; io_message : string }.
Inductive file_type := RegularFile | Directory | Symlink | OtherType.
#[export] Instance file_type_eq_dec : EqDecision file_type.
Proof. solve_decision. Defined.
Record dir_entry := mk_entry { de_path : string; de_type : result io_error file_type }.
(** An open file: its metadata, and reading at most a number of bytes. *)
Record open_file := mk_open {
  of_metadata : result io_error (file_type * Z);
  of_take : Z → result io_error string;
}.
Class FileSystem : Type := {
  fs_canonicalize : string → result io_error string;
  fs_is_dir : string → bool;
  fs_symlink_metadata : string → result io_error file_type;
  fs_metadata : string → result io_error file_type;
  fs_read_dir : string → result io_error (list (result io_error dir_entry));
  fs_open : string → result io_error open_file;
  utf8_message : string → string;          (* the text of a [FromUtf8Error] *)
}.
(** [fs::canonicalize] returns the canonical, absolute form of a path: canonical paths are
    their own canonical form, and components determine their text. *)
Class FileSystemLaws `{FileSystem} : Prop := {
  fs_canonical_fixed path c : fs_canonicalize path = Ok c → fs_canonicalize c = Ok c;
  fs_canonical_text path c : fs_canonicalize path = Ok c → path_text (path_components c) = c;
}.

(** ** Errors *)
Inductive WorkspaceError :=
| Discovery (message : string)
| DiscoveryLimitExceeded
| ManifestRead (path message : string)
| InvalidManifest (path : string) (diagnostic : ManifestDiagnostic) (error : ManifestError).
Definition WorkspaceError_display (e : WorkspaceError) : string :=
  match e with
  | Discovery message | ManifestRead _ message => message
  | DiscoveryLimitExceeded => "workspace discovery limit exceeded"
  | InvalidManifest path _ error =>
      "invalid workspace manifest " +:+ path +:+ ": " +:+ ManifestError_display error
  end.
(** The subtraction of machine integers would wrap. *)
Inductive discovery_failure := Failed (e : WorkspaceError) | SubtractOverflow.
Definition MAX_MANIFEST_BYTES : Z := 32 * 1024 * 1024.
Definition usize_max : Z := 2 ^ 64 - 1.

Section workspace.
Context `{SV : Semver} `{JC : JsonCodec} `{JT : JsonCompact} `{FS : FileSystem}.

Record WorkspaceMember := mk_member {
  wm_name : string;
  wm_path : string;
  wm_manifest : PackageManifest;
}.
Record Workspace := mk_workspace_graph {
  ws_root : PackageManifest;
  ws_root_path : string;
  ws_members : list WorkspaceMember;
}.

Definition contained_path (root path : string) : result string string :=
  canonical ← map_err (λ error, "cannot canonicalize workspace path " +:+ path +:+ ": " +:+ io_message error)
                (fs_canonicalize path);
  if negb (path_starts_with root canonical)
  then Err ("workspace path is outside project: " +:+ path)
  else Ok canonical.
Definition read_file (path : string) : result WorkspaceError string :=
  let cannot_read message := ManifestRead path ("cannot read " +:+ path +:+ ": " +:+ message) in
  file ← map_err (λ error, cannot_read (io_message error)) (fs_open path);
  metadata ← map_err (λ error, ManifestRead path
                        ("cannot inspect " +:+ path +:+ ": " +:+ io_message error)) (of_metadata file);
  _ ← ensure (bool_decide (metadata.1 = RegularFile) && (metadata.2 <=? MAX_MANIFEST_BYTES)%Z)
        (ManifestRead path ("workspace manifest must be a regular file no larger than 32 MiB: " +:+ path));
  bytes ← map_err (λ error, cannot_read (io_message error)) (of_take file (MAX_MANIFEST_BYTES + 1));
  _ ← ensure (str_len bytes <=? MAX_MANIFEST_BYTES)%Z
        (ManifestRead path ("workspace manifest exceeds 32 MiB: " +:+ path));
  if utf8_valid bytes then Ok bytes else Err (cannot_read (utf8_message bytes)).

(** ** Patterns *)
Definition pattern_text (v : json) : result string string :=
  ok_or "package.json workspace patterns must be strings" (as_str v).
Definition workspace_patterns (workspaces : option json) : result string (list string) :=
  match workspaces with
  | None => Ok []
  | Some (JString pattern) => Ok [pattern]
  | Some (JArray values) => try_map pattern_text values
  | Some (JObject fields) =>
      match value_get "packages" (JObject fields) with
      | Some (JString pattern) => Ok [pattern]
      | Some (JArray values) => try_map pattern_text values
      | _ => Err "package.json workspaces.packages must be a string or array"
      end
  | Some _ => Err "package.json workspaces must be a string, array, or object"
  end.
Definition expansion_step (remaining : Z) : result WorkspaceError Z :=
  if (1 <=? remaining)%Z then Ok (remaining - 1)%Z else Err DiscoveryLimitExceeded.
Definition is_normal (c : RustStr.component) : bool :=
  match c with Normal _ => true | _ => false end.
Definition check_pattern (pattern : string) : result WorkspaceError () :=
  _ ← ensure (negb (path_is_absolute pattern
                    || existsb (λ c, bool_decide (c = ParentDir)) (path_components pattern)))
        (Discovery ("workspace pattern is outside project: " +:+ pattern));
  ensure (negb (negb (existsb is_normal (path_components pattern))
                || contains_any ["?"; "["; "]"; "{"; "}"; "!"; "("; ")"; "\"]%char pattern
                || existsb (λ c, contains_char "*" (component_text c)
                                 && negb (str_eqb (component_text c) "*"))
                     (path_components pattern)))
    (Discovery ("unsupported workspace pattern '" +:+ pattern +:+
       "'; use a relative directory path or a whole path component '*' for one directory level")).
Definition entry_kept (entry : dir_entry) (ty : file_type) : result WorkspaceError bool :=
  match ty with
  | Symlink =>
      target ← map_err (λ error, Discovery ("cannot inspect workspace symlink target " +:+
                          de_path entry +:+ ": " +:+ io_message error)) (fs_metadata (de_path entry));
      match target with
      | RegularFile => Ok false
      | Directory => Ok true
      | _ => Err (Discovery ("workspace glob encountered an unsupported symlink target: " +:+
                    de_path entry))
      end
  | Directory => Ok true
  | _ => Ok false
  end.
(** One turn of [for entry in entries]: the directories found and the budget left. *)
Definition glob_entry (root : string) (state : list string * Z) (entry : result io_error dir_entry) :
    result WorkspaceError (list string * Z) :=
  let '(next, remaining) := state in
  let cannot_inspect error :=
    Discovery ("cannot inspect workspace directory: " +:+ io_message error) in
  remaining ← expansion_step remaining;
  entry ← map_err cannot_inspect entry;
  ty ← map_err cannot_inspect (de_type entry);
  kept ← entry_kept entry ty;
  if negb kept then Ok (next, remaining) else
  target ← map_err Discovery (contained_path root (de_path entry));
  Ok (next ++ [target], remaining).
Definition glob_directory (root : string) (state : list string * Z) (path : string) :
    result WorkspaceError (list string * Z) :=
  path ← map_err Discovery (contained_path root path);
  entries ← map_err (λ error, Discovery ("cannot read workspace directory " +:+ path +:+ ": " +:+
                       io_message error)) (fs_read_dir path);
  try_fold (glob_entry root) state entries.
Definition push_name (name : string) (state : list string * Z) (path : string) :
    result WorkspaceError (list string * Z) :=
  remaining ← expansion_step state.2;
  Ok (state.1 ++ [path_join path name], remaining).
Definition expand_component (root : string) (state : list string * Z) (c : RustStr.component) :
    result WorkspaceError (list string * Z) :=
  let '(paths, remaining) := state in
  remaining ← expansion_step remaining;
  if str_eqb (component_text c) "*"
  then try_fold (glob_directory root) ([], remaining) paths
  else try_fold (push_name (component_text c)) ([], remaining) paths.
Definition probe_manifest (max_candidates : Z) (state : list string * Z) (path : string) :
    result WorkspaceError (list string * Z) :=
  let '(manifests, remaining) := state in
  remaining ← expansion_step remaining;
  let manifest := path_join path "package.json" in
  match fs_symlink_metadata manifest with
  | Ok _ =>
      if (Z.of_nat (length manifests) =? max_candidates)%Z then Err DiscoveryLimitExceeded
      else Ok (manifests ++ [manifest], remaining)
  | Err error =>
      if io_not_found error then Ok (manifests, remaining)
      else Err (ManifestRead manifest ("cannot inspect workspace manifest " +:+ manifest +:+ ": " +:+
                  io_message error))
  end.
Definition expand_pattern_bounded (root pattern : string) (max_candidates remaining : Z) :
    result WorkspaceError (list string * Z) :=
  remaining ← expansion_step remaining;
  _ ← check_pattern pattern;
  '(paths, remaining) ← try_fold (expand_component root) ([root], remaining) (path_components pattern);
  '(manifests, remaining) ← try_fold (probe_manifest max_candidates) ([], remaining) paths;
  Ok (sort_by path_components manifests, remaining).

(** ** Discovery *)
Definition expand_next (root : string) (max_candidates : Z) (state : list string * Z)
    (pattern : string) : result discovery_failure (list string * Z) :=
  let '(paths, remaining) := state in
  _ ← ensure (Z.of_nat (length paths) <=? max_candidates)%Z SubtractOverflow;
  '(found, remaining) ← map_err Failed
     (expand_pattern_bounded root pattern (max_candidates - Z.of_nat (length paths)) remaining);
  Ok (paths ++ found, remaining).
Definition declared_manifest (root path : string) : result WorkspaceError string :=
  let read_error message := ManifestRead path message in
  ty ← map_err (λ error, read_error ("cannot inspect workspace manifest " +:+ path +:+ ": " +:+
                  io_message error)) (fs_symlink_metadata path);
  _ ← ensure (bool_decide (ty = RegularFile))
        (read_error ("workspace manifest must be a regular file, not a symlink: " +:+ path));
  map_err read_error (contained_path root path).
Definition inside_node_modules (l : list RustStr.component) : bool :=
  existsb (λ c, str_eqb (component_text c) "node_modules") l.
(** The checks of a member up to its text. *)
Definition member_path (root path : string) : result WorkspaceError string :=
  canonical ← map_err (λ error, ManifestRead path ("cannot resolve workspace manifest " +:+ path +:+
                         ": " +:+ io_message error)) (fs_canonicalize path);
  let escapes := Discovery ("workspace member escapes workspace root: " +:+ path) in
  _ ← ensure (path_starts_with root canonical) escapes;
  member_root ← ok_or (Discovery "workspace member manifest has no parent") (path_parent canonical);
  relative ← ok_or escapes (path_strip_prefix root member_root);
  _ ← ensure (negb (inside_node_modules relative))
        (Discovery ("workspace member may not be inside root node_modules: " +:+ member_root));
  Ok canonical.
Definition parse_at (path text : string) : result WorkspaceError PackageManifest :=
  map_err (λ error, InvalidManifest path (diagnostic error text) error) (manifest_parse text).
(** What the callback has observed: member paths and their sources. *)
Definition observed : Type := list (string * string).
Definition observe (path text : string) : mutating observed discovery_failure () :=
  λ seen, (seen ++ [(path, text)], Ok ()).
Definition visit_member (root : string) (state : list WorkspaceMember * gset string) (path : string) :
    mutating observed discovery_failure (list WorkspaceMember * gset string) :=
  let '(members, names) := state in
  canonical ← mut_lift (map_err Failed (member_path root path));
  text ← mut_lift (map_err Failed (read_file canonical));
  manifest ← mut_lift (map_err Failed (parse_at canonical text));
  let name := PackageName_display (pm_name manifest) in
  _ ← mut_lift (ensure (bool_decide (name ∉ names))
        (Failed (Discovery ("duplicate workspace package name '" +:+ name +:+ "'"))));
  _ ← observe canonical text;
  mret (members ++ [mk_member name canonical manifest], {[name]} ∪ names).
Fixpoint visit_members (root : string) (state : list WorkspaceMember * gset string)
    (paths : list string) :
    mutating observed discovery_failure (list WorkspaceMember * gset string) :=
  match paths with
  | [] => mret state
  | path :: paths => state ← visit_member root state path; visit_members root state paths
  end.
(** Up to the parsed root manifest: its directory, path and contents. *)
Definition discover_root (project_dir : string) :
    result WorkspaceError (string * string * PackageManifest) :=
  root ← map_err (λ error, Discovery ("cannot resolve workspace root " +:+ project_dir +:+ ": " +:+
                    io_message error)) (fs_canonicalize project_dir);
  _ ← ensure (fs_is_dir root) (Discovery ("workspace root is not a directory: " +:+ root));
  let manifest_path := path_join root "package.json" in
  let read_error message := ManifestRead manifest_path message in
  ty ← map_err (λ error, read_error ("cannot inspect workspace root manifest: " +:+ io_message error))
         (fs_symlink_metadata manifest_path);
  _ ← ensure (bool_decide (ty = RegularFile))
        (read_error "workspace root package.json must be a regular file");
  root_path ← map_err read_error (contained_path root manifest_path);
  text ← read_file root_path;
  manifest ← parse_at root_path text;
  Ok (root, root_path, manifest).
Definition candidate_paths (root : string) (manifest : PackageManifest)
    (max_candidates max_expansion_steps : Z) : result discovery_failure (list string) :=
  patterns ← map_err (λ message, Failed (Discovery message))
               (workspace_patterns (pm_extra manifest !! "workspaces"));
  '(paths, _) ← try_fold (expand_next root max_candidates) ([], max_expansion_steps) patterns;
  paths ← map_err Failed (try_map (declared_manifest root) paths);
  Ok (path_dedup (sort_by path_components paths)).
Definition member_key (m : WorkspaceMember) : string * list RustStr.component :=
  (wm_name m, path_components (wm_path m)).
Definition discover_bounded_with_member_source (project_dir : string)
    (max_candidates max_expansion_steps : Z) : mutating observed discovery_failure Workspace :=
  '(root, root_path, manifest) ← mut_lift (map_err Failed (discover_root project_dir));
  paths ← mut_lift (candidate_paths root manifest max_candidates max_expansion_steps);
  '(members, _) ← visit_members root ([], {[PackageName_display (pm_name manifest)]}) paths;
  mret (mk_workspace_graph manifest root_path (sort_by member_key members)).
Definition discover_bounded (project_dir : string) (max_candidates max_expansion_steps : Z) :
    result discovery_failure Workspace :=
  (discover_bounded_with_member_source project_dir max_candidates max_expansion_steps []).2.
Definition discover_typed (project_dir : string) : result discovery_failure Workspace :=
  discover_bounded project_dir usize_max usize_max.
Definition failure_text (f : discovery_failure) : option string :=
  match f with Failed e => Some (WorkspaceError_display e) | SubtractOverflow => None end.
Definition discover (project_dir : string) : result (option string) Workspace :=
  map_err failure_text (discover_typed project_dir).

(** ** Selection *)
Definition find_member (w : Workspace) (name : string) : result string WorkspaceMember :=
  ok_or ("workspace member '" +:+ name +:+ "' was not found")
    (head (base.filter (λ m, wm_name m = name) (ws_members w))).
Definition select (w : Workspace) (name : option string) : result string PackageManifest :=
  match name with
  | None => Ok (ws_root w)
  | Some "" => Err "workspace selector cannot be empty"
  | Some name => wm_manifest <$> find_member w name
  end.
Definition select_path (w : Workspace) (name : option string) : result string string :=
  match name with
  | None => Ok (ws_root_path w)
  | Some "" => Err "workspace selector cannot be empty"
  | Some name => wm_path <$> find_member w name
  end.
End workspace.
