(* ===== verification/WorkspaceInv.v ===== *)
(** * Theorems of workspace discovery

    Independence of the budgets, the members that a discovery returns and their
    containment, and selection by name (crates/tapid-manifest/src/workspace.rs). *)
From S2P Require Import Prelude Order RustStr Crates Samples Core LockKey Json Manifest.
From S2P Require Import ManifestInv Workspace.

(** ** Two runs with different budgets *)
Section agreement.
Context {E A : Type} (limit : E).
(** A run that does not hit its limit is repeated by the run with [d] more steps. *)
Definition agrees (d : Z) (r r' : result E (A * Z)) : Prop :=
  match r with
  | Ok (a, n) => r' = Ok (a, n + d)%Z
  | Err e => e = limit ∨ r' = Err e
  end.
Lemma fold_agrees {X} (P : A → Prop) (g g' : A * Z → X → result E (A * Z)) d l :
  (∀ a n x, P a → agrees d (g (a, n) x) (g' (a, (n + d)%Z) x)) →
  (∀ a n x a' n', P a → g (a, n) x = Ok (a', n') → P a') →
  ∀ a n, P a → agrees d (try_fold g (a, n) l) (try_fold g' (a, (n + d)%Z) l).
Proof.
  intros Hstep Hpres. induction l as [|x l IH]; intros a n Ha; simpl; [done|].
  pose proof (Hstep a n x Ha) as Hx. destruct (g (a, n) x) as [[a' n']|e] eqn:Hg; simpl in *.
  - rewrite Hx. simpl. apply IH. by eapply Hpres.
  - destruct Hx as [-> | ->]; [by left|by right].
Qed.
End agreement.
Lemma agrees_bind {E A B} (limit : E) d (r r' : result E (A * Z)) (f f' : A * Z → result E (B * Z)) :
  agrees limit d r r' →
  (∀ a n, r = Ok (a, n) → agrees limit d (f (a, n)) (f' (a, (n + d)%Z))) →
  agrees limit d (r ≫= f) (r' ≫= f').
Proof.
  intros Hr Hf. destruct r as [[a n]|e]; simpl in *; [by rewrite Hr; apply Hf|].
  destruct Hr as [-> | ->]; [by left|by right].
Qed.
(** Steps that do not touch the budget. *)
Lemma agrees_same {E A B} (limit : E) d (r : result E A) (f f' : A → result E (B * Z)) :
  (∀ a, r = Ok a → agrees limit d (f a) (f' a)) → agrees limit d (r ≫= f) (r ≫= f').
Proof. intros Hf. destruct r as [a|e]; simpl; [by apply Hf|by right]. Qed.

Section workspace_inv.
Context `{SV : Semver} `{JC : JsonCodec} `{JT : JsonCompact} `{FS : FileSystem}.

Local Notation same := (agrees DiscoveryLimitExceeded).
Lemma step_agrees {B} n d (f f' : Z → result WorkspaceError (B * Z)) :
  (0 <= d)%Z → (∀ m, same d (f m) (f' (m + d)%Z)) →
  same d (expansion_step n ≫= f) (expansion_step (n + d) ≫= f').
Proof.
  intros Hd Hf. unfold expansion_step. destruct (Z.leb_spec 1 n); [|by left].
  destruct (Z.leb_spec 1 (n + d)); [|lia]. simpl.
  replace (n + d - 1)%Z with (n - 1 + d)%Z by lia. apply Hf.
Qed.
Lemma glob_entry_agrees root l n d entry :
  (0 <= d)%Z → same d (glob_entry root (l, n) entry) (glob_entry root (l, (n + d)%Z) entry).
Proof.
  intros Hd. unfold glob_entry. apply step_agrees; [done|]. intros m.
  do 3 (apply agrees_same; intros ? _). destruct (negb _); [done|].
  apply agrees_same. by intros ? _.
Qed.
Lemma glob_directory_agrees root l n d path :
  (0 <= d)%Z → same d (glob_directory root (l, n) path) (glob_directory root (l, (n + d)%Z) path).
Proof.
  intros Hd. unfold glob_directory. do 2 (apply agrees_same; intros ? _).
  apply (fold_agrees _ (λ _, True)); [|done|done]. intros. by apply glob_entry_agrees.
Qed.
Lemma expand_component_agrees root l n d c :
  (0 <= d)%Z → same d (expand_component root (l, n) c) (expand_component root (l, (n + d)%Z) c).
Proof.
  intros Hd. unfold expand_component. apply step_agrees; [done|]. intros m. destruct (str_eqb _ _).
  - apply (fold_agrees _ (λ _, True)); [|done|done]. intros. by apply glob_directory_agrees.
  - apply (fold_agrees _ (λ _, True)); [|done|done]. intros a k x _. unfold push_name.
    by apply step_agrees.
Qed.
Lemma probe_manifest_agrees c c' l n d path :
  (0 <= d)%Z → (c <= c')%Z → (Z.of_nat (length l) <= c)%Z →
  same d (probe_manifest c (l, n) path) (probe_manifest c' (l, (n + d)%Z) path).
Proof.
  intros Hd Hc Hl. unfold probe_manifest. apply step_agrees; [done|]. intros m.
  destruct (fs_symlink_metadata _) as [ty|e].
  - destruct (Z.eqb_spec (Z.of_nat (length l)) c); [by left|].
    destruct (Z.eqb_spec (Z.of_nat (length l)) c'); [lia|done].
  - destruct (io_not_found e); [done|by right].
Qed.
Lemma probe_manifest_length c l n path l' n' :
  (Z.of_nat (length l) <= c)%Z → probe_manifest c (l, n) path = Ok (l', n') →
  (Z.of_nat (length l') <= c)%Z.
Proof.
  intros Hl. unfold probe_manifest. intros (m&_&H)%bind_Ok.
  destruct (fs_symlink_metadata _) as [ty|e].
  - destruct (Z.eqb_spec (Z.of_nat (length l)) c); [done|]. injection H as <- <-.
    rewrite length_app. simpl. lia.
  - destruct (io_not_found e); [by injection H as <- <-|done].
Qed.
Lemma expand_agrees root pattern c c' n d :
  (0 <= d)%Z → (0 <= c)%Z → (c <= c')%Z →
  same d (expand_pattern_bounded root pattern c n) (expand_pattern_bounded root pattern c' (n + d)).
Proof.
  intros Hd H0 Hc. unfold expand_pattern_bounded. apply step_agrees; [done|]. intros m.
  apply agrees_same. intros _ _. apply agrees_bind.
  { apply (fold_agrees _ (λ _, True)); [|done|done]. intros. by apply expand_component_agrees. }
  intros paths k _. apply agrees_bind; [|done].
  apply (fold_agrees _ (λ l, Z.of_nat (length l) <= c)%Z); [| |simpl; lia].
  - intros. by apply probe_manifest_agrees.
  - intros. by eapply probe_manifest_length.
Qed.

Lemma expand_length root pattern c n l n' :
  (0 <= c)%Z → expand_pattern_bounded root pattern c n = Ok (l, n') → (Z.of_nat (length l) <= c)%Z.
Proof.
  intros H0. unfold expand_pattern_bounded. intros (m&_&H)%bind_Ok.
  apply bind_Ok in H as (_&_&H). apply bind_Ok in H as ([paths k]&_&H).
  apply bind_Ok in H as ([manifests k']&Hm&[= <- <-]).
  rewrite sort_by_perm. revert Hm.
  apply (try_fold_inv (λ s, Z.of_nat (length s.1) <= c)%Z); [|simpl; lia].
  intros [a b] x [a' b'] _. apply probe_manifest_length.
Qed.
Local Notation same' := (agrees (Failed DiscoveryLimitExceeded)).
Lemma agrees_failed {A} d (r r' : result WorkspaceError (A * Z)) :
  same d r r' → same' d (map_err Failed r) (map_err Failed r').
Proof.
  destruct r as [[a n]|e]; simpl; [by intros ->|]. intros [-> | ->]; [by left|by right].
Qed.
Lemma expand_next_agrees root c c' l n d pattern :
  (0 <= d)%Z → (c <= c')%Z → (Z.of_nat (length l) <= c)%Z →
  same' d (expand_next root c (l, n) pattern) (expand_next root c' (l, (n + d)%Z) pattern).
Proof.
  intros Hd Hc Hl. unfold expand_next.
  rewrite !(proj2 (ensure_Ok _ _ ())) by (apply Z.leb_le; lia). cbn [mbind result_bind].
  apply agrees_bind; [|done]. apply agrees_failed, expand_agrees; [done|lia..].
Qed.
Lemma expand_next_length root c l n pattern l' n' :
  (Z.of_nat (length l) <= c)%Z → expand_next root c (l, n) pattern = Ok (l', n') →
  (Z.of_nat (length l') <= c)%Z.
Proof.
  intros Hl. unfold expand_next. intros (_&_&H)%bind_Ok.
  apply bind_Ok in H as ([found k]&Hf%map_err_Ok&[= <- <-]).
  apply expand_length in Hf; [|lia]. rewrite length_app. lia.
Qed.
Lemma expand_all_length root c s patterns l n :
  (0 <= c)%Z → try_fold (expand_next root c) ([], s) patterns = Ok (l, n) →
  (Z.of_nat (length l) <= c)%Z.
Proof.
  intros H0. apply (try_fold_inv (λ st, Z.of_nat (length st.1) <= c)%Z); [|simpl; lia].
  intros [a b] x [a' b'] _. apply expand_next_length.
Qed.
Lemma expand_next_overflow root c s patterns :
  (0 <= c)%Z → try_fold (expand_next root c) ([], s) patterns ≠ Err SubtractOverflow.
Proof.
  intros H0. assert (∀ l n, (Z.of_nat (length l) <= c)%Z →
    try_fold (expand_next root c) (l, n) patterns ≠ Err SubtractOverflow) as H; [|apply H; simpl; lia].
  induction patterns as [|p patterns IH]; intros l n Hl; cbn [try_fold]; [done|].
  destruct (expand_next root c (l, n) p) as [[l' n']|e] eqn:Hp; cbn [mbind result_bind].
  - apply IH. by eapply expand_next_length.
  - intros [= ->]. unfold expand_next in Hp.
    rewrite (proj2 (ensure_Ok _ _ ())) in Hp by by apply Z.leb_le. simpl in Hp.
    apply bind_Err in Hp as [(?&_&?)%map_err_Err|([? ?]&_&?)]; done.
Qed.
(** The candidates of a run that does not hit a limit. *)
Lemma candidate_paths_agrees root manifest c s c' s' :
  (0 <= c <= c')%Z → (s <= s')%Z →
  candidate_paths root manifest c s = Err (Failed DiscoveryLimitExceeded) ∨
  candidate_paths root manifest c' s' = candidate_paths root manifest c s.
Proof.
  intros Hc Hs. unfold candidate_paths.
  destruct (map_err _ (workspace_patterns _)) as [patterns|e]; simpl; [|by right].
  assert (same' (s' - s) (try_fold (expand_next root c) ([], s) patterns)
    (try_fold (expand_next root c') ([], s') patterns)) as Ha.
  { replace s' with (s + (s' - s))%Z at 2 by lia.
    apply (fold_agrees _ (λ l, Z.of_nat (length l) <= c)%Z); [| |simpl; lia].
    - intros. apply expand_next_agrees; [lia..|done].
    - intros. by eapply expand_next_length. }
  destruct (try_fold (expand_next root c) _ _) as [[paths n]|e]; simpl in *.
  - rewrite Ha. by right.
  - destruct Ha as [-> | ->]; [by left|by right].
Qed.

(** Budgets only ever cut a discovery short: unless it stops with the limit error, a
    discovery - its workspace or its error, and the sources its callback saw - is the
    same under every larger candidate and step budget, the unbounded discovery included. *)
Theorem discover_bounded_agrees project_dir c s c' s' seen :
  (0 <= c <= c')%Z → (s <= s')%Z →
  (discover_bounded_with_member_source project_dir c s seen).2 =
    Err (Failed DiscoveryLimitExceeded) ∨
  discover_bounded_with_member_source project_dir c' s' seen =
    discover_bounded_with_member_source project_dir c s seen.
Proof.
  intros Hc Hs. unfold discover_bounded_with_member_source, mbind, mutating_bind, mut_lift.
  destruct (map_err Failed (discover_root project_dir)) as [[[root root_path] manifest]|e]; [|by right].
  destruct (candidate_paths_agrees root manifest c s c' s' Hc Hs) as [-> | ->]; [by left|by right].
Qed.
Lemma path_dedup_length l : length (path_dedup l) ≤ length l.
Proof.
  induction l as [|p l IH]; simpl; [done|]. destruct (path_dedup l) as [|q k]; simpl in *; [lia|].
  case_decide; simpl; lia.
Qed.
Lemma candidate_paths_bounds root manifest c s :
  (0 <= c)%Z →
  candidate_paths root manifest c s ≠ Err SubtractOverflow ∧
  ∀ l, candidate_paths root manifest c s = Ok l → (Z.of_nat (length l) <= c)%Z.
Proof.
  intros H0. unfold candidate_paths. split.
  - intros [(?&_&?)%map_err_Err|(patterns&_&H)]%bind_Err; [done|].
    apply bind_Err in H as [H|([paths n]&_&H)]; [by apply expand_next_overflow in H|].
    apply bind_Err in H as [(?&_&?)%map_err_Err|(?&_&?)]; done.
  - intros l (patterns&_&H)%bind_Ok. apply bind_Ok in H as ([paths n]&Hp%expand_all_length&H); [|done].
    apply bind_Ok in H as (canonical&Hc%map_err_Ok%try_map_Ok%Forall2_length&[= <-]).
    pose proof (path_dedup_length (sort_by path_components canonical)) as Hl.
    assert (length (sort_by path_components canonical) = length canonical) by (by rewrite sort_by_perm).
    lia.
Qed.

(** ** Members *)
(** A member discovered at a candidate path, with the source its callback saw. *)
Definition visited (root path : string) (mt : WorkspaceMember * string) : Prop :=
  member_path root path = Ok (wm_path mt.1) ∧ read_file (wm_path mt.1) = Ok mt.2 ∧
  manifest_parse mt.2 = Ok (wm_manifest mt.1) ∧
  wm_name mt.1 = PackageName_display (pm_name (wm_manifest mt.1)).
Lemma visit_member_Ok root members names path seen seen' members' names' :
  visit_member root (members, names) path seen = (seen', Ok (members', names')) →
  ∃ mt, visited root path mt ∧ members' = members ++ [mt.1] ∧ names' = {[wm_name mt.1]} ∪ names ∧
    wm_name mt.1 ∉ names ∧ seen' = seen ++ [(wm_path mt.1, mt.2)].
Proof.
  unfold visit_member, mbind, mutating_bind, mut_lift, observe, mret, mutating_ret.
  destruct (member_path root path) as [canonical|] eqn:Hp; [|done]. cbn [map_err].
  destruct (read_file canonical) as [text|] eqn:Hr; [|done]. cbn [map_err].
  unfold parse_at. destruct (manifest_parse text) as [manifest|] eqn:Hm; [|done]. cbn [map_err].
  case_bool_decide as Hn; [|done]. cbn [ensure]. intros [= <- <- <-].
  exists (mk_member (PackageName_display (pm_name manifest)) canonical manifest, text). by split_and!.
Qed.
Lemma visit_members_Ok root paths members names seen seen' members' names' :
  visit_members root (members, names) paths seen = (seen', Ok (members', names')) →
  ∃ new, Forall2 (visited root) paths new ∧ members' = members ++ new.*1 ∧
    seen' = seen ++ ((λ mt, (wm_path mt.1, mt.2)) <$> new) ∧
    NoDup (wm_name <$> new.*1) ∧ ∀ m, m ∈ new.*1 → wm_name m ∉ names.
Proof.
  revert members names seen. induction paths as [|path paths IH]; intros members names seen.
  - intros [= <- <- <-]. exists []. rewrite !app_nil_r. split_and!; try by constructor.
    by intros m ?%not_elem_of_nil.
  - cbn [visit_members]. unfold mbind, mutating_bind at 1.
    destruct (visit_member root (members, names) path seen) as [seen1 [[m1 n1]|e]] eqn:Hv; [|done].
    apply visit_member_Ok in Hv as (mt&Hmt&->&->&Hname&->).
    intros (new&H2&->&->&Hnd&Hnew)%IH. exists (mt :: new). split_and!.
    + by constructor.
    + by rewrite fmap_cons, <-app_assoc.
    + by rewrite fmap_cons, <-app_assoc.
    + rewrite !fmap_cons. constructor; [|done].
      intros (m&Heq&Hm)%list_elem_of_fmap. apply (Hnew m Hm). rewrite <-Heq. set_solver.
    + intros m. rewrite fmap_cons, elem_of_cons. intros [->|Hm]; [done|].
      specialize (Hnew m Hm). set_solver.
Qed.
Lemma discovered project_dir c s seen w :
  discover_bounded_with_member_source project_dir c s [] = (seen, Ok w) →
  ∃ root paths new,
    discover_root project_dir = Ok (root, ws_root_path w, ws_root w) ∧
    candidate_paths root (ws_root w) c s = Ok paths ∧
    Forall2 (visited root) paths new ∧
    ws_members w = sort_by member_key new.*1 ∧
    seen = ((λ mt, (wm_path mt.1, mt.2)) <$> new) ∧
    NoDup (wm_name <$> new.*1) ∧
    ∀ m, m ∈ new.*1 → wm_name m ≠ PackageName_display (pm_name (ws_root w)).
Proof.
  unfold discover_bounded_with_member_source, mbind, mutating_bind, mut_lift, mret, mutating_ret.
  destruct (discover_root project_dir) as [[[root root_path] manifest]|] eqn:Hr; [|done]. cbn [map_err].
  destruct (candidate_paths root manifest c s) as [paths|] eqn:Hp; [|done].
  destruct (visit_members _ _ _ _) as [seen' [[members names]|]] eqn:Hv; [|done].
  intros [= -> <-]. apply visit_members_Ok in Hv as (new&H2&->&->&Hnd&Hnew).
  exists root, paths, new. cbn [ws_root ws_root_path ws_members]. split_and!; [done..|].
  intros m Hm Heq. apply (Hnew m Hm). rewrite Heq. set_solver.
Qed.
Lemma discover_root_Ok project_dir root root_path manifest :
  discover_root project_dir = Ok (root, root_path, manifest) →
  fs_canonicalize project_dir = Ok root ∧ fs_is_dir root = true ∧
  fs_symlink_metadata (path_join root "package.json") = Ok RegularFile ∧
  fs_canonicalize (path_join root "package.json") = Ok root_path ∧
  path_starts_with root root_path = true ∧
  ∃ text, read_file root_path = Ok text ∧ manifest_parse text = Ok manifest.
Proof.
  unfold discover_root, contained_path, parse_at. intros (r&Hr%map_err_Ok&H)%bind_Ok.
  apply bind_Ok in H as (_&Hdir%ensure_Ok&H). cbv zeta in H.
  apply bind_Ok in H as (ty&Hty%map_err_Ok&H).
  apply bind_Ok in H as (_&Hreg%ensure_Ok%bool_decide_eq_true&H). subst ty.
  apply bind_Ok in H as (p&Hp%map_err_Ok&H).
  apply bind_Ok in H as (text&Htext&H). apply bind_Ok in H as (m&Hm%map_err_Ok&[= <- <- <-]).
  apply bind_Ok in Hp as (q&Hq%map_err_Ok&Hin). destruct (path_starts_with r q) eqn:Hs; [|done].
  injection Hin as <-. split_and!; eauto.
Qed.
Lemma member_path_Ok root path canonical :
  member_path root path = Ok canonical →
  fs_canonicalize path = Ok canonical ∧ path_starts_with root canonical = true ∧
  ∃ member_root relative, path_parent canonical = Some member_root ∧
    path_strip_prefix root member_root = Some relative ∧ inside_node_modules relative = false.
Proof.
  unfold member_path. intros (q&Hq%map_err_Ok&H)%bind_Ok.
  apply bind_Ok in H as (_&Hs%ensure_Ok&H). apply bind_Ok in H as (mr&Hmr%ok_or_Ok&H).
  apply bind_Ok in H as (rel&Hrel%ok_or_Ok&H). apply bind_Ok in H as (_&Hn%ensure_Ok&[= <-]).
  apply negb_true_iff in Hn. eauto 10.
Qed.
Lemma le_of_fst {A B} `{Ord A, Ord B} (x y : A * B) : le_of x y → le_of x.1 y.1.
Proof.
  unfold le_of. change (cmp x y) with (cmp_then (cmp x.1 y.1) (cmp x.2 y.2)).
  by destruct (cmp x.1 y.1).
Qed.
Lemma sorted_names l :
  StronglySorted (key_le member_key) l → NoDup (wm_name <$> l) → StronglySorted lt_of (wm_name <$> l).
Proof.
  intros Hs Hnd. apply sorted_le_lt; [|done].
  clear Hnd. induction Hs as [|m l Hs IH Hm]; rewrite ?fmap_cons; constructor; [done|].
  apply Forall_forall. intros n (m'&->&Hm')%list_elem_of_fmap. rewrite Forall_forall in Hm.
  exact (le_of_fst _ _ (Hm m' Hm')).
Qed.

Lemma visit_member_overflow root st path seen : (visit_member root st path seen).2 ≠ Err SubtractOverflow.
Proof.
  destruct st as [members names].
  unfold visit_member, mbind, mutating_bind, mut_lift, observe, mret, mutating_ret.
  destruct (member_path _ _); [|done]. cbn [map_err]. destruct (read_file _); [|done]. cbn [map_err].
  unfold parse_at. destruct (manifest_parse _); [|done]. cbn [map_err].
  by case_bool_decide.
Qed.
Lemma visit_members_overflow root st paths seen :
  (visit_members root st paths seen).2 ≠ Err SubtractOverflow.
Proof.
  revert st seen. induction paths as [|path paths IH]; intros st seen; [done|].
  cbn [visit_members]. unfold mbind, mutating_bind at 1.
  pose proof (visit_member_overflow root st path seen) as Hv.
  destruct (visit_member root st path seen) as [seen1 [st1|e]]; [apply IH|]. simpl in *. congruence.
Qed.
Lemma find_member_unique w m :
  NoDup (wm_name <$> ws_members w) → m ∈ ws_members w → find_member w (wm_name m) = Ok m.
Proof.
  unfold find_member. intros Hnd Hm.
  induction (ws_members w) as [|m' l IH]; [by apply not_elem_of_nil in Hm|].
  rewrite fmap_cons in Hnd. apply NoDup_cons in Hnd as [Hn Hnd].
  apply elem_of_cons in Hm as [->|Hm]; [by rewrite filter_cons_True|].
  rewrite filter_cons_False; [by apply IH|]. intros Heq. apply Hn. rewrite Heq.
  by apply list_elem_of_fmap_2.
Qed.
Lemma manifest_name_nonempty text m :
  manifest_parse text = Ok m → PackageName_display (pm_name m) ≠ "".
Proof.
  unfold manifest_parse. intros (object&_&H)%bind_Ok. unfold parse_object in H.
  apply bind_Ok in H as (name&_&H). apply bind_Ok in H as (version&_&H).
  apply bind_Ok in H as (private&_&H). apply bind_Ok in H as (m0&H0&H).
  repeat (apply bind_Ok in H as (?&_&H)). injection H as <-. cbn [pm_name].
  unfold PackageManifest_new in H0. apply bind_Ok in H0 as (n&Hn%map_err_Ok&H0).
  apply bind_Ok in H0 as (v&_&[= <-]). cbn [pm_name]. intros He.
  apply PackageName_reparse in Hn. rewrite He in Hn. discriminate Hn.
Qed.

(** C35: a discovery returns only manifests inside the project: the root manifest, a regular file
    of the canonical project directory, and every member's are read at paths that are their own
    canonical form, so that no symbolic link leads away from them, and that lie below that
    directory, a member's outside its [node_modules]; each is the parse of the text read there; no two packages, the
    root included, share a name; members come sorted by name, at most as many as the
    candidate budget, whose arithmetic never wraps; and the callback has seen exactly the
    sources of the members, each once. *)
Theorem discover_sound `{FL : !FileSystemLaws} project_dir c s seen w :
  (0 <= c)%Z →
  (discover_bounded_with_member_source project_dir c s []).2 ≠ Err SubtractOverflow ∧
  (discover_bounded_with_member_source project_dir c s [] = (seen, Ok w) →
    (Z.of_nat (length (ws_members w)) <= c)%Z ∧
    StronglySorted lt_of (wm_name <$> ws_members w) ∧
    PackageName_display (pm_name (ws_root w)) ∉ wm_name <$> ws_members w ∧
    seen.*1 ≡ₚ wm_path <$> ws_members w ∧
    ∃ root, fs_canonicalize project_dir = Ok root ∧ fs_is_dir root = true ∧ fs_canonicalize root = Ok root ∧
      fs_symlink_metadata (path_join root "package.json") = Ok RegularFile ∧
      fs_canonicalize (path_join root "package.json") = Ok (ws_root_path w) ∧
      fs_canonicalize (ws_root_path w) = Ok (ws_root_path w) ∧
      path_starts_with root (ws_root_path w) = true ∧
      (∃ text, read_file (ws_root_path w) = Ok text ∧ manifest_parse text = Ok (ws_root w)) ∧
      ∀ m, m ∈ ws_members w →
        fs_canonicalize (wm_path m) = Ok (wm_path m) ∧
        path_starts_with root (wm_path m) = true ∧
        (∃ member_root relative, path_parent (wm_path m) = Some member_root ∧
          path_strip_prefix root member_root = Some relative ∧
          inside_node_modules relative = false) ∧
        wm_name m = PackageName_display (pm_name (wm_manifest m)) ∧
        ∃ text, (wm_path m, text) ∈ seen ∧ read_file (wm_path m) = Ok text ∧
          manifest_parse text = Ok (wm_manifest m)).
Proof.
  intros H0. split.
  { unfold discover_bounded_with_member_source, mbind, mutating_bind, mut_lift.
    destruct (discover_root project_dir) as [[[root root_path] manifest]|e]; [|done]. cbn [map_err].
    pose proof (candidate_paths_bounds root manifest c s H0) as [Hc _].
    destruct (candidate_paths root manifest c s) as [paths|e]; [|simpl; congruence].
    destruct (visit_members root _ paths []) as [seen' [[members names]|e]] eqn:Hv; [done|].
    pose proof (visit_members_overflow root ([], {[PackageName_display (pm_name manifest)]}) paths []) as Ho.
    rewrite Hv in Ho. simpl in *. congruence. }
  intros (root&paths&new&Hroot&Hpaths&H2&Hmembers&->&Hnd&Hne)%discovered.
  assert (∀ m, m ∈ ws_members w ↔ m ∈ new.*1) as Hin.
  { intros m. rewrite Hmembers. apply elem_of_sort_by. }
  assert (ws_members w ≡ₚ new.*1) as Hperm by (rewrite Hmembers; apply sort_by_perm).
  split_and!.
  - rewrite Hperm, length_fmap, <-(Forall2_length _ _ _ H2).
    by apply (candidate_paths_bounds root (ws_root w) c s H0).
  - rewrite Hmembers. apply sorted_names; [apply sort_by_sorted|]. by rewrite sort_by_perm.
  - rewrite Hperm. intros (m&Heq&Hm)%list_elem_of_fmap. by apply (Hne m Hm).
  - rewrite Hperm, <-!list_fmap_compose. done.
  - apply discover_root_Ok in Hroot as (?&?&?&?&?&?). exists root.
    split_and!; [done|done|by eapply fs_canonical_fixed|done|done|by eapply fs_canonical_fixed|done|done|].
    intros m ([m' text]&->&Hm)%Hin%list_elem_of_fmap.
    apply list_elem_of_lookup in Hm as [k Hk].
    destruct (Forall2_lookup_r _ _ _ _ _ H2 Hk) as (path&_&Hp&Hread&Hparse&Hname).
    cbn [fst snd] in *. apply member_path_Ok in Hp as (?&?&?).
    split_and!; [by eapply fs_canonical_fixed|done..|].
    exists text. split_and!; [|done..]. apply list_elem_of_fmap. exists (m', text).
    split; [done|]. by eapply list_elem_of_lookup_2.
Qed.

(** Selection by name is exact: no selector selects the root, each member's own name
    selects that member's manifest and path, and any other selector is an error. *)
Theorem select_spec project_dir c s seen w :
  discover_bounded_with_member_source project_dir c s [] = (seen, Ok w) →
  select w None = Ok (ws_root w) ∧ select_path w None = Ok (ws_root_path w) ∧
  (∀ m, m ∈ ws_members w →
    select w (Some (wm_name m)) = Ok (wm_manifest m) ∧
    select_path w (Some (wm_name m)) = Ok (wm_path m)) ∧
  ∀ name, name ∉ wm_name <$> ws_members w →
    is_ok (select w (Some name)) = false ∧ is_ok (select_path w (Some name)) = false.
Proof.
  intros (root&paths&new&_&_&H2&Hmembers&_&Hnd&_)%discovered.
  assert (NoDup (wm_name <$> ws_members w)) as Hnames by (rewrite Hmembers; by rewrite sort_by_perm).
  assert (∀ m, m ∈ ws_members w → find_member w (wm_name m) = Ok m ∧ wm_name m ≠ "") as Hfind.
  { intros m Hm. split; [by apply find_member_unique|].
    rewrite Hmembers, elem_of_sort_by in Hm.
    apply list_elem_of_fmap in Hm as ([m' text]&->&Hm). apply list_elem_of_lookup in Hm as [k Hk].
    destruct (Forall2_lookup_r _ _ _ _ _ H2 Hk) as (path&_&_&_&Hparse&Hname). simpl in *.
    rewrite Hname. by apply manifest_name_nonempty in Hparse. }
  split_and!; [done|done| |].
  - intros m Hm. destruct (Hfind m Hm) as [Hf Hne]. unfold select, select_path. rewrite Hf.
    by destruct (wm_name m).
  - intros name Hname. assert (∃ e, find_member w name = Err e) as [e He].
    { unfold find_member. destruct (head _) as [m|] eqn:Hh; [|by eexists].
      apply head_Some_elem_of, list_elem_of_filter in Hh as [<- Hm].
      destruct Hname. by apply list_elem_of_fmap_2. }
    unfold select, select_path. rewrite He. by destruct name.
Qed.

(** ** The candidates of a pattern *)
(** An existing path and its canonical form inside the project. *)
Definition contained (root path canonical : string) : Prop :=
  fs_canonicalize path = Ok canonical ∧ path_starts_with root canonical = true.
(** An entry that a wildcard descends into: a directory, or a link to one. *)
Definition descends (entry : dir_entry) : Prop :=
  de_type entry = Ok Directory ∨
  (de_type entry = Ok Symlink ∧ fs_metadata (de_path entry) = Ok Directory).
Inductive step_to (root : string) (c : RustStr.component) (path : string) : string → Prop :=
| step_name :
    component_text c ≠ "*" → step_to root c path (path_join path (component_text c))
| step_wildcard directory entries entry target :
    component_text c = "*" → contained root path directory →
    fs_read_dir directory = Ok entries → Ok entry ∈ entries → descends entry →
    contained root (de_path entry) target → step_to root c path target.
(** The directories that the components of a pattern lead to. *)
Inductive expands (root : string) : list RustStr.component → string → string → Prop :=
| expands_nil path : expands root [] path path
| expands_cons c rest path next target :
    step_to root c path next → expands root rest next target → expands root (c :: rest) path target.

Lemma contained_path_Ok root path canonical :
  contained_path root path = Ok canonical ↔ contained root path canonical.
Proof.
  unfold contained_path, contained. rewrite bind_Ok. setoid_rewrite map_err_Ok. split.
  - intros (q&Hq&H). destruct (path_starts_with root q) eqn:Hs; [|done]. by injection H as <-.
  - intros [Hq Hs]. exists canonical. by rewrite Hs.
Qed.
Lemma try_fold_collect {E X} (g : list string * Z → X → result E (list string * Z))
    (R : X → string → Prop) l a n a' n' :
  (∀ a n x a' n', x ∈ l → g (a, n) x = Ok (a', n') → ∀ t, t ∈ a' ↔ t ∈ a ∨ R x t) →
  try_fold g (a, n) l = Ok (a', n') → ∀ t, t ∈ a' ↔ t ∈ a ∨ ∃ x, x ∈ l ∧ R x t.
Proof.
  revert a n. induction l as [|x l IH]; intros a n Hg; cbn [try_fold].
  - intros [= <- <-] t. split; [by left|]. by intros [?|(x&?%not_elem_of_nil&_)].
  - intros ([a1 n1]&Hx&H)%bind_Ok t.
    rewrite (IH a1 n1 (λ a n y a' n' Hy, Hg a n y a' n' (list_elem_of_further _ _ _ Hy)) H t).
    rewrite (Hg a n x a1 n1 (list_elem_of_here _ _) Hx t). setoid_rewrite elem_of_cons. naive_solver.
Qed.
Lemma entry_kept_Ok entry ty kept :
  de_type entry = Ok ty → entry_kept entry ty = Ok kept → kept = true ↔ descends entry.
Proof.
  intros Hty. unfold entry_kept, descends. rewrite Hty. destruct ty; try (intros [= <-]; naive_solver).
  intros (target&Ht%map_err_Ok&H)%bind_Ok. rewrite Ht. destruct target; naive_solver.
Qed.
Lemma glob_entry_collects root a n entry a' n' :
  glob_entry root (a, n) entry = Ok (a', n') →
  ∀ t, t ∈ a' ↔ t ∈ a ∨ ∃ e, entry = Ok e ∧ descends e ∧ contained root (de_path e) t.
Proof.
  unfold glob_entry. intros (m&_&H)%bind_Ok t.
  apply bind_Ok in H as (e&->%map_err_Ok&H). apply bind_Ok in H as (ty&Hty%map_err_Ok&H).
  apply bind_Ok in H as (kept&Hk&H). pose proof (entry_kept_Ok e ty kept Hty Hk) as Hd.
  destruct kept; simpl in H.
  - apply bind_Ok in H as (q&Hq%map_err_Ok%contained_path_Ok&[= <- <-]).
    rewrite elem_of_app, list_elem_of_singleton. split.
    + intros [?| ->]; [by left|]. right. exists e. split_and!; [done|by apply Hd|done].
    + intros [?|(e'&[= <-]&_&Ht)]; [by left|]. right. unfold contained in *. naive_solver congruence.
  - injection H as <- <-. split; [by left|]. intros [?|(e'&[= <-]&Hdesc&_)]; [done|].
    by apply Hd in Hdesc.
Qed.
Lemma glob_directory_collects root a n path a' n' :
  glob_directory root (a, n) path = Ok (a', n') →
  ∀ t, t ∈ a' ↔ t ∈ a ∨ ∃ directory entries e, contained root path directory ∧
    fs_read_dir directory = Ok entries ∧ Ok e ∈ entries ∧ descends e ∧ contained root (de_path e) t.
Proof.
  unfold glob_directory. intros (directory&Hd%map_err_Ok%contained_path_Ok&H)%bind_Ok t.
  apply bind_Ok in H as (entries&He%map_err_Ok&H).
  rewrite (try_fold_collect _ _ _ _ _ _ _ (λ a n x a' n' _, glob_entry_collects root a n x a' n') H t).
  split.
  - intros [?|(x&Hx&e&->&?&?)]; [by left|]. right. by exists directory, entries, e.
  - intros [?|(d'&entries'&e&Hd'&He'&Hx&?&?)]; [by left|]. right. exists (Ok e). split; [|eauto].
    assert (d' = directory) as -> by (unfold contained in *; naive_solver congruence). congruence.
Qed.
Lemma push_name_collects name a n path a' n' :
  push_name name (a, n) path = Ok (a', n') → ∀ t, t ∈ a' ↔ t ∈ a ∨ t = path_join path name.
Proof.
  unfold push_name. intros (r&_&[= <- <-])%bind_Ok t. simpl.
  by rewrite elem_of_app, list_elem_of_singleton.
Qed.
Lemma probe_manifest_collects c a n path a' n' :
  probe_manifest c (a, n) path = Ok (a', n') →
  ∀ t, t ∈ a' ↔ t ∈ a ∨ t = path_join path "package.json" ∧ is_ok (fs_symlink_metadata t) = true.
Proof.
  unfold probe_manifest. intros (r&_&H)%bind_Ok t.
  destruct (fs_symlink_metadata (path_join path "package.json")) as [ty|e] eqn:Hty.
  - destruct (_ =? _)%Z; [done|]. injection H as <- <-. rewrite elem_of_app, list_elem_of_singleton.
    split; [|by intros [?|[-> _]]; [left|right]]. intros [?| ->]; [by left|]. right. by rewrite Hty.
  - destruct (io_not_found e); [|done]. injection H as <- <-. split; [by left|].
    intros [?|[-> Hok]]; [done|]. by rewrite Hty in Hok.
Qed.
Lemma expand_component_collects root paths n c paths' n' :
  expand_component root (paths, n) c = Ok (paths', n') →
  ∀ t, t ∈ paths' ↔ ∃ q, q ∈ paths ∧ step_to root c q t.
Proof.
  unfold expand_component. intros (m&_&H)%bind_Ok t. destruct (str_eqb (component_text c) "*") eqn:Hc.
  - apply str_eqb_true in Hc.
    rewrite (try_fold_collect _ _ _ _ _ _ _ (λ a n x a' n' _, glob_directory_collects root a n x a' n') H t).
    split.
    + intros [?%not_elem_of_nil|(q&Hq&d&entries&e&?&?&?&?&?)]; [done|]. exists q. split; [done|].
      by eapply step_wildcard.
    + intros (q&Hq&Hs). right. exists q. split; [done|]. destruct Hs; [done|]. by eexists _, _, _.
  - assert (component_text c ≠ "*") as Hne by (intros He; by rewrite He in Hc).
    rewrite (try_fold_collect _ _ _ _ _ _ _ (λ a n x a' n' _, push_name_collects _ a n x a' n') H t).
    split.
    + intros [?%not_elem_of_nil|(q&Hq&->)]; [done|]. exists q. split; [done|]. by apply step_name.
    + intros (q&Hq&Hs). right. exists q. split; [done|]. by destruct Hs.
Qed.
Lemma expand_components_collects root comps paths n paths' n' :
  try_fold (expand_component root) (paths, n) comps = Ok (paths', n') →
  ∀ t, t ∈ paths' ↔ ∃ q, q ∈ paths ∧ expands root comps q t.
Proof.
  revert paths n. induction comps as [|c comps IH]; intros paths n; cbn [try_fold].
  - intros [= <- <-] t. split; [intros Ht; exists t; split; [done|constructor]|].
    intros (q&Hq&He). by inversion He; subst.
  - intros ([p1 n1]&Hc&H)%bind_Ok t. rewrite (IH _ _ H t). split.
    + intros (q1&Hq1&He). apply (expand_component_collects _ _ _ _ _ _ Hc) in Hq1 as (q&Hq&Hs).
      exists q. split; [done|]. by econstructor.
    + intros (q&Hq&He). inversion He as [|? ? ? q1 ? Hs He']; subst. exists q1. split; [|done].
      apply (expand_component_collects _ _ _ _ _ _ Hc). by exists q.
Qed.
(** An existing manifest below a directory that the pattern leads to. *)
Definition candidate (root pattern manifest : string) : Prop :=
  ∃ directory, expands root (path_components pattern) root directory ∧
    manifest = path_join directory "package.json" ∧ is_ok (fs_symlink_metadata manifest) = true.
Lemma expand_pattern_collects root pattern c n found n' :
  expand_pattern_bounded root pattern c n = Ok (found, n') →
  ∀ t, t ∈ found ↔ candidate root pattern t.
Proof.
  unfold expand_pattern_bounded. intros (m&_&H)%bind_Ok t. apply bind_Ok in H as (_&_&H).
  apply bind_Ok in H as ([paths k]&Hp&H). apply bind_Ok in H as ([manifests k']&Hm&[= <- <-]).
  rewrite elem_of_sort_by.
  rewrite (try_fold_collect _ _ _ _ _ _ _ (λ a n x a' n' _, probe_manifest_collects c a n x a' n') Hm t).
  unfold candidate. setoid_rewrite (expand_components_collects _ _ _ _ _ _ Hp).
  setoid_rewrite list_elem_of_singleton. split.
  - intros [?%not_elem_of_nil|(d&(q&->&He)&->&Hok)]; [done|]. by exists d.
  - intros (d&He&->&Hok). right. exists d. split; [by exists root|done].
Qed.

Lemma expand_next_collects root c a n pattern a' n' :
  expand_next root c (a, n) pattern = Ok (a', n') →
  ∀ t, t ∈ a' ↔ t ∈ a ∨ candidate root pattern t.
Proof.
  unfold expand_next. intros (_&_&H)%bind_Ok t.
  apply bind_Ok in H as ([found k]&Hf%map_err_Ok&[= <- <-]).
  by rewrite elem_of_app, (expand_pattern_collects _ _ _ _ _ _ Hf).
Qed.
Lemma declared_manifest_Ok root path canonical :
  declared_manifest root path = Ok canonical ↔
  fs_symlink_metadata path = Ok RegularFile ∧ contained root path canonical.
Proof.
  unfold declared_manifest. split.
  - intros (ty&Hty%map_err_Ok&H)%bind_Ok.
    apply bind_Ok in H as (_&->%ensure_Ok%bool_decide_eq_true&H%map_err_Ok%contained_path_Ok). done.
  - intros [Hty Hc%contained_path_Ok]. rewrite Hty. simpl. by rewrite Hc.
Qed.
Lemma elem_of_path_dedup l q : q ∈ path_dedup l → q ∈ l.
Proof.
  induction l as [|p l IH]; [done|]. cbn [path_dedup]. destruct (path_dedup l) as [|r k].
  { rewrite list_elem_of_singleton. intros ->. by left. }
  case_decide; rewrite ?elem_of_cons in *; naive_solver.
Qed.
Lemma path_dedup_covers l q :
  q ∈ l → ∃ q', q' ∈ path_dedup l ∧ path_components q' = path_components q.
Proof.
  induction l as [|p l IH]; [by intros ?%not_elem_of_nil|]. cbn [path_dedup].
  intros [->|Hq]%elem_of_cons.
  - exists p. destruct (path_dedup l) as [|r k]; [by split; [left|]|].
    case_decide; by split; [left|].
  - destruct (IH Hq) as (q'&Hq'&Heq). destruct (path_dedup l) as [|r k]; [by apply not_elem_of_nil in Hq'|].
    case_decide as Hr; [|exists q'; by split; [right|]].
    apply elem_of_cons in Hq' as [->|Hq']; [exists p; split; [by left|congruence]|].
    exists q'. by split; [right|].
Qed.
Lemma NoDup_finer {A B C} (f : A → B) (g : A → C) (l : list A) :
  NoDup (f <$> l) → (∀ x y, x ∈ l → y ∈ l → g x = g y → f x = f y) → NoDup (g <$> l).
Proof.
  induction l as [|x l IH]; rewrite ?fmap_cons; [by constructor|].
  intros [Hx Hl]%NoDup_cons Hfg. constructor.
  - intros (y&Heq&Hy)%list_elem_of_fmap. apply Hx. rewrite (Hfg x y); [|by left|by right|done].
    by apply list_elem_of_fmap_2.
  - apply IH; [done|]. intros y z Hy Hz. apply Hfg; by right.
Qed.
Lemma candidate_paths_Ok `{FL : !FileSystemLaws} root manifest c s paths :
  candidate_paths root manifest c s = Ok paths →
  ∃ patterns, workspace_patterns (pm_extra manifest !! "workspaces") = Ok patterns ∧
    (∀ q, q ∈ paths → fs_canonicalize q = Ok q) ∧
    ∀ q, q ∈ paths ↔ ∃ pattern t, pattern ∈ patterns ∧ candidate root pattern t ∧
      fs_symlink_metadata t = Ok RegularFile ∧ contained root t q.
Proof.
  unfold candidate_paths. intros (patterns&Hp%map_err_Ok&H)%bind_Ok.
  apply bind_Ok in H as ([found n]&Hf&H). apply bind_Ok in H as (canonical&Hc%map_err_Ok%try_map_Ok&[= <-]).
  exists patterns. split; [done|].
  assert (∀ q, q ∈ canonical ↔ ∃ pattern t, pattern ∈ patterns ∧ candidate root pattern t ∧
      fs_symlink_metadata t = Ok RegularFile ∧ contained root t q) as Hall.
  { intros q. split.
    - intros [k Hk]%list_elem_of_lookup. destruct (Forall2_lookup_r _ _ _ _ _ Hc Hk) as (t&Ht&[Hty Hin]%declared_manifest_Ok).
      apply list_elem_of_lookup_2 in Ht.
      apply (try_fold_collect _ _ _ _ _ _ _ (λ a n x a' n' _, expand_next_collects root c a n x a' n') Hf) in Ht
        as [?%not_elem_of_nil|(pattern&?&?)]; [done|]. by exists pattern, t.
    - intros (pattern&t&Hpat&Hcand&Hty&Hin). assert (t ∈ found) as [k Hk]%list_elem_of_lookup.
      { apply (try_fold_collect _ _ _ _ _ _ _ (λ a n x a' n' _, expand_next_collects root c a n x a' n') Hf).
        right. by exists pattern. }
      destruct (Forall2_lookup_l _ _ _ _ _ Hc Hk) as (q'&Hq'&[_ Hin']%declared_manifest_Ok).
      unfold contained in *. assert (q = q') as -> by naive_solver congruence.
      by eapply list_elem_of_lookup_2. }
  assert (∀ q, q ∈ canonical → fs_canonicalize q = Ok q ∧ path_text (path_components q) = q) as Hcanon.
  { intros q (pattern&t&_&_&_&[Hq _])%Hall. split; [by eapply fs_canonical_fixed|by eapply fs_canonical_text]. }
  assert (∀ q, q ∈ path_dedup (sort_by path_components canonical) ↔ q ∈ canonical) as Hdedup.
  { intros q. split; [by intros ?%elem_of_path_dedup%elem_of_sort_by|]. intros Hq.
    destruct (path_dedup_covers (sort_by path_components canonical) q) as (q'&Hq'&Heq); [by apply elem_of_sort_by|].
    assert (q' = q) as <-; [|done].
    destruct (Hcanon q Hq) as [_ <-]. rewrite <-Heq. symmetry.
    by apply Hcanon; apply elem_of_path_dedup, elem_of_sort_by in Hq'. }
  split; [by intros q Hq%Hdedup; apply Hcanon|]. intros q. by rewrite Hdedup, Hall.
Qed.

(** C34: the members are exactly what the root declares: a path is the path of a member if
    and only if it is the canonical form of an existing regular [package.json] below a
    directory that one of the declared patterns leads to - each component of a pattern
    being followed by name, or, for a whole [*], into every subdirectory and link to a
    directory, all inside the project; no such manifest is missed, and none is listed
    twice. *)
Theorem discover_members `{FL : !FileSystemLaws} project_dir c s seen w :
  discover_bounded_with_member_source project_dir c s [] = (seen, Ok w) →
  ∃ root patterns, fs_canonicalize project_dir = Ok root ∧
    workspace_patterns (pm_extra (ws_root w) !! "workspaces") = Ok patterns ∧
    (∀ q, q ∈ wm_path <$> ws_members w ↔
      ∃ pattern manifest, pattern ∈ patterns ∧ candidate root pattern manifest ∧
        fs_symlink_metadata manifest = Ok RegularFile ∧ contained root manifest q) ∧
    NoDup (wm_path <$> ws_members w).
Proof.
  intros (root&paths&new&Hroot&Hpaths&H2&Hmembers&_&Hnd&_)%discovered.
  apply discover_root_Ok in Hroot as [Hroot _].
  apply candidate_paths_Ok in Hpaths as (patterns&Hpatterns&Hcanon&Hall).
  exists root, patterns. split_and!; [done|done|..].
  - intros q. rewrite <-Hall, Hmembers. assert (wm_path <$> new.*1 = paths) as <-.
    { clear -H2 Hcanon. induction H2 as [|path [m text] paths new Hv H2 IH]; [done|].
      rewrite !fmap_cons. cbn [fst]. f_equal; [|apply IH; intros q Hq; apply Hcanon; by right].
      destruct Hv as [Hp _]. apply member_path_Ok in Hp as [Hp _]. cbn [fst] in Hp.
      rewrite Hcanon in Hp by by left. by injection Hp as <-. }
    rewrite !list_elem_of_fmap. by setoid_rewrite elem_of_sort_by.
  - rewrite Hmembers, sort_by_perm. apply (NoDup_finer wm_name); [done|].
    intros m1 m2 ([m1' t1]&->&[i Hi]%list_elem_of_lookup)%list_elem_of_fmap
      ([m2' t2]&->&[j Hj]%list_elem_of_lookup)%list_elem_of_fmap.
    destruct (Forall2_lookup_r _ _ _ _ _ H2 Hi) as (p1&_&_&Hr1&Hp1&Hn1).
    destruct (Forall2_lookup_r _ _ _ _ _ H2 Hj) as (p2&_&_&Hr2&Hp2&Hn2). simpl in *.
    intros Heq. rewrite Heq in Hr1. congruence.
Qed.
End workspace_inv.

(** ** Witnesses: a project with two members, reached through a wildcard and by name *)
Definition package_json (name : string) (fields : list (string * json)) : string :=
  json_pretty (JObject (("name", JString name) :: ("version", JString "1.0.0") :: fields)) +:+ newline.
Definition sample_directories : list string := ["/"; "/ws"; "/ws/packages"; "/ws/packages/lib"; "/ws/packages/app"].
Definition sample_files : list (string * string) :=
  [("/ws/package.json", package_json "root"
      [("workspaces", JArray [JString "./packages/*"; JString "packages/app"])]);
   ("/ws/packages/lib/package.json", package_json "lib" []);
   ("/ws/packages/app/package.json", package_json "app" [])].
Definition sample_paths : list string := sample_directories ++ sample_files.*1.
Definition sample_missing : io_error := mk_io true "No such file or directory".
Definition sample_type (path : string) : file_type :=
  if decide (path ∈ sample_directories) then Directory else RegularFile.
Definition sample_canonicalize (path : string) : result io_error string :=
  let canonical := path_text (path_components path) in
  if decide (canonical ∈ sample_paths) then Ok canonical else Err sample_missing.
Definition sample_open (path : string) : result io_error open_file :=
  text ← ok_or sample_missing (snd <$> head (base.filter (λ kv, kv.1 = path) sample_files));
  Ok (mk_open (Ok (RegularFile, str_len text)) (λ _, Ok text)).
#[export] Instance sample_filesystem : FileSystem := {|
  fs_canonicalize := sample_canonicalize;
  fs_is_dir path := bool_decide (path ∈ sample_directories);
  fs_symlink_metadata path := sample_type <$> sample_canonicalize path;
  fs_metadata path := sample_type <$> sample_canonicalize path;
  fs_read_dir path :=
    Ok ((λ p, Ok (mk_entry p (Ok (sample_type p)))) <$>
        base.filter (λ p, path_parent p = Some path) sample_paths);
  fs_open := sample_open;
  utf8_message _ := "invalid utf-8 sequence";
|}.
Lemma sample_paths_canonical path :
  path ∈ sample_paths → path_text (path_components path) = path.
Proof.
  intros Hp. assert (forallb (λ p, str_eqb (path_text (path_components p)) p) sample_paths = true) as Hall
    by (vm_compute; reflexivity).
  rewrite forallb_forall in Hall. apply str_eqb_true, Hall. by apply list_elem_of_In.
Qed.
Lemma sample_canonicalize_Ok path c :
  sample_canonicalize path = Ok c → c ∈ sample_paths ∧ c = path_text (path_components path).
Proof. unfold sample_canonicalize. case_decide; [|done]. by intros [= <-]. Qed.
#[export] Instance sample_filesystem_laws : FileSystemLaws.
Proof.
  split; intros path c [Hc _]%sample_canonicalize_Ok; [|by apply sample_paths_canonical].
  cbn [fs_canonicalize sample_filesystem]. unfold sample_canonicalize.
  rewrite sample_paths_canonical by done. by rewrite decide_True.
Qed.

Definition sample_discover (c s : Z) : observed * result discovery_failure Workspace :=
  discover_bounded_with_member_source "/ws/." c s [].
Definition discovered_names (r : observed * result discovery_failure Workspace) : list string :=
  match r.2 with Ok w => wm_name <$> ws_members w | Err _ => [] end.
Example sample_discovery : discovered_names (sample_discover 3 20) = ["app"; "lib"].
Proof. vm_compute. reflexivity. Qed.
Ltac run_discovery seen w Hr :=
  let Hok := fresh "Hok" in
  assert (is_ok (sample_discover 3 20).2 = true) as Hok by (vm_compute; reflexivity);
  destruct (sample_discover 3 20) as [seen [w|?]] eqn:Hr; [|discriminate Hok].

Lemma discover_bounded_agrees_witness : sample_discover 100 1000 = sample_discover 3 20.
Proof.
  destruct (discover_bounded_agrees "/ws/." 3 20 100 1000 []) as [Hlimit|H]; [lia|lia| |exact H].
  exfalso. assert (is_ok (sample_discover 3 20).2 = true) as Hok by (vm_compute; reflexivity).
  unfold sample_discover in Hok. rewrite Hlimit in Hok. discriminate Hok.
Defined.
Lemma discover_sound_witness :
  match sample_discover 3 20 with
  | (seen, Ok w) => seen.*1 ≡ₚ wm_path <$> ws_members w
  | _ => False
  end.
Proof.
  run_discovery seen w Hr.
  exact (proj1 (proj2 (proj2 (proj2 (proj2 (discover_sound "/ws/." 3 20 seen w ltac:(lia)) Hr))))).
Defined.
Lemma select_spec_witness :
  match sample_discover 3 20 with
  | (seen, Ok w) => select w None = Ok (ws_root w)
  | _ => False
  end.
Proof. run_discovery seen w Hr. exact (proj1 (select_spec "/ws/." 3 20 seen w Hr)). Defined.
Lemma discover_members_witness :
  match sample_discover 3 20 with
  | (seen, Ok w) => NoDup (wm_path <$> ws_members w)
  | _ => False
  end.
Proof.
  run_discovery seen w Hr.
  destruct (discover_members "/ws/." 3 20 seen w Hr) as (root&patterns&_&_&_&H). exact H.
Defined.
