(* ===== verification/Why.v ===== *)
(** * tapid-cli: why a package is installed

    The dependency graph of a lockfile and the bounded search for the paths that lead
    from the roots of a project to a package (crates/tapid-cli/src/application/why.rs),
    with the direct roots of a workspace member and the kinds of direct dependencies. *)
From S2P Require Import Prelude Order RustStr Crates Samples Core LockKey Json Lockfile Manifest.

Definition MAX_PATHS : nat := 50.
Definition MAX_DEPTH : nat := 128.
Definition MAX_VISITS : nat := Z.to_nat 10000.
Definition NPM : string := "https://registry.npmjs.org".
Definition JSR : string := "https://jsr.io".

Record WhyStep := mk_step {
  step_key : string;
  step_via : option string;
  step_edge_kind : option string;
  step_source_kind : string;
}.
(** A [WhyPath] is its steps. *)
Notation WhyPath := (list WhyStep).
Record Edge := mk_edge { edge_name : string; edge_target : string; edge_kind : string }.
Record Root := mk_root { root_key : string; root_name : string; root_kind : string }.
Record SearchState := mk_search { paths : list WhyPath; truncated : bool; visits : nat }.
Definition fresh_search : SearchState := mk_search [] false 0.

Section why.
Context `{SV : Semver} `{UC : UrlCrate} `{B64 : Base64}.

(** ** The graph *)
Record WhyGraph := mk_why_graph {
  graph_edges : gmap string (list Edge);
  graph_nodes : gmap string LockfilePackageKey;
}.
Definition dependency_edges (dependencies : gmap string string) : list Edge :=
  (λ entry, mk_edge entry.1 entry.2 "dependency") <$> btree_iter dependencies.
Definition add_node (g : WhyGraph) (key : LockfilePackageKey) (edges : list Edge) : WhyGraph :=
  mk_why_graph (<[key_display key := edges]> (graph_edges g)) (<[key_display key := key]> (graph_nodes g)).
(** The keys of [providers.get(&(source, name, version))], an index of the nodes. *)
Definition providers_of (nodes : gmap string LockfilePackageKey) (source : LockfilePackageSource)
    (name : PackageName) (version : PackageVersion) : list LockfilePackageKey :=
  base.filter (λ key, key_source key = source ∧ key_name key = name ∧ key_version key = version)
    (btree_values nodes).
Definition peer_edges (nodes : gmap string LockfilePackageKey) (source : LockfilePackageKey)
    (context : PeerContext) : list Edge :=
  concat ((λ entry, (λ target, mk_edge (PackageName_display entry.1) (key_display target) "peer") <$>
                    providers_of nodes (key_source source) entry.1 entry.2) <$> btree_iter context).
Definition add_peers (nodes : gmap string LockfilePackageKey)
    (edges : gmap string (list Edge)) (entry : string * LockfilePackageKey) :
    result LockfileError (gmap string (list Edge)) :=
  let '(encoded, source) := entry in
  context ← key_peer_context source;
  Ok (<[encoded := default [] (edges !! encoded) ++ peer_edges nodes source context]> edges).
Definition graph (l : Lockfile) : result LockfileError WhyGraph :=
  ps ← packages_typed l;
  let g := foldl (λ g entry, add_node g entry.1 (dependency_edges (lp_dependencies entry.2)))
             (mk_why_graph ∅ ∅) ps in
  ws ← workspace_packages_typed l;
  let g := foldl (λ g entry, add_node g entry.1 (dependency_edges (wp_dependencies entry.2))) g ws in
  edges ← try_fold (add_peers (graph_nodes g)) (graph_edges g) (btree_iter (graph_nodes g));
  Ok (mk_why_graph edges (graph_nodes g)).
Definition source_kind (key : LockfilePackageKey) : string :=
  match key_source key with
  | Workspace _ => "workspace"
  | Copied _ => "copied"
  | Registry _ => "registry"
  end.
Definition outgoing (g : WhyGraph) (key : string) : list Edge := default [] (graph_edges g !! key).

(** [requiring_edges] *)
Definition replace_char (c : ascii) (d : ascii) : string → string :=
  str_map (λ a, if ascii_eqb a c then d else a).
Definition add_reason (parent : string) (reasons : gmap string (list string)) (e : Edge) :
    gmap string (list string) :=
  <[edge_target e := default [] (reasons !! edge_target e) ++
      [parent +:+ " through " +:+ edge_kind e +:+ " '" +:+ edge_name e +:+ "'"]]> reasons.
Definition requiring_edges (l : Lockfile) : result LockfileError (gmap string (list string)) :=
  g ← graph l;
  Ok (foldl (λ reasons entry, foldl (add_reason (replace_char "|" " " entry.1)) reasons entry.2)
        ∅ (btree_iter (graph_edges g))).

(** ** The search *)
Definition truncate (s : SearchState) : SearchState := mk_search (paths s) true (visits s).
Definition visit (s : SearchState) : SearchState := mk_search (paths s) (truncated s) (S (visits s)).
(** A path that ends at the requested package. *)
Definition report_path (path : WhyPath) (s : SearchState) : SearchState :=
  if (length (paths s) =? MAX_PATHS)%nat then truncate s
  else mk_search (paths s ++ [path]) (truncated s) (visits s).
Definition edge_step (e : Edge) (key : LockfilePackageKey) : WhyStep :=
  mk_step (edge_target e) (Some (edge_name e)) (Some (edge_kind e)) (source_kind key).
(** The arguments that the code passes as [&mut]: the nodes on the path, the path itself
    and the state. *)
Definition search : Type := gset string * WhyPath * SearchState.
Definition search_state (x : search) : SearchState := x.2.
(** The loop [for edge in edges]; [recur] searches from the target of an edge. *)
Fixpoint search_edges (recur : string → search → search) (g : WhyGraph) (edges : list Edge)
    (x : search) : search :=
  match edges with
  | [] => x
  | e :: edges =>
      let '(visited, path, s) := x in
      if truncated s then x
      else if bool_decide (edge_target e ∈ visited) then search_edges recur g edges x
      else match graph_nodes g !! edge_target e with
           | None => search_edges recur g edges (visited, path, s)
           | Some key =>
               let '(visited, path, s) :=
                 recur (edge_target e) ({[edge_target e]} ∪ visited, path ++ [edge_step e key], s) in
               search_edges recur g edges (visited ∖ {[edge_target e]}, removelast path, s)
           end
  end.
(** [search_paths] at depth [MAX_DEPTH - budget]. *)
Fixpoint search_paths (budget : nat) (requested : PackageName) (g : WhyGraph) (current : string)
    (x : search) : search :=
  let '(visited, path, s) := x in
  if (MAX_VISITS <=? visits s)%nat then (visited, path, truncate s) else
  let s := visit s in
  match graph_nodes g !! current with
  | None => (visited, path, s)
  | Some key =>
      let s := if bool_decide (key_name key = requested) then report_path path s else s in
      match budget with
      | O => (visited, path, if bool_decide (outgoing g current = []) then s else truncate s)
      | S budget => search_edges (search_paths budget requested g) g (outgoing g current) (visited, path, s)
      end
  end.
(** The loop over the roots, left at the first truncation. *)
Fixpoint search_roots (requested : PackageName) (g : WhyGraph) (roots : list Root) (s : SearchState) :
    SearchState :=
  match roots with
  | [] => s
  | r :: roots =>
      match graph_nodes g !! root_key r with
      | None => search_roots requested g roots s
      | Some key =>
          let first := mk_step (root_key r) (Some (root_name r)) (Some (root_kind r)) (source_kind key) in
          let s := search_state (search_paths MAX_DEPTH requested g (root_key r)
                                   ({[root_key r]}, [first], s)) in
          if truncated s then s else search_roots requested g roots s
      end
  end.

(** ** The report *)
Record WhyReport := mk_report {
  report_schema_version : Z;
  report_operation : string;
  report_outcome : string;
  report_effective_project : string;
  report_changes : list string;
  report_warnings : list string;
  report_package : string;
  report_paths : list WhyPath;
  report_truncated : bool;
}.
Definition transitive_edge (path : WhyPath) : bool :=
  existsb (λ step, bool_decide (step_edge_kind step = Some "dependency")) (drop 1 path).
Definition report_of (root_dir : string) (requested : PackageName) (s : SearchState) : WhyReport :=
  mk_report 1 "why"
    (if truncated s then "partial" else if bool_decide (paths s = []) then "not_found" else "success")
    root_dir []
    (if existsb transitive_edge (paths s)
     then ["transitive dependency edge kinds are not recorded in the lockfile; those edges are labeled dependency"]
     else [])
    (PackageName_display requested) (paths s) (truncated s).
(** [explain], once the lockfile is validated and its roots are known. *)
Definition explain_roots (root_dir : string) (requested : PackageName) (l : Lockfile)
    (roots : list Root) : result LockfileError WhyReport :=
  g ← graph l;
  Ok (report_of root_dir requested (search_roots requested g roots fresh_search)).

(** ** Roots *)
Definition dep_parts (name : string) : result string (RegistryOrigin * PackageName) :=
  let '(origin, raw) := match strip_prefix "jsr:" name with
                        | Some v => (JSR, v)
                        | None => (NPM, default name (strip_prefix "npm:" name))
                        end in
  origin ← map_err DomainError_display (RegistryOrigin_from_str origin);
  package ← map_err DomainError_display (PackageName_from_str raw);
  Ok (origin, package).
Definition kind_entries (kind : DependencyKind) (name : string) : list (string * string) :=
  let normalized := match dep_parts name with
                    | Ok (_, package) => PackageName_display package
                    | Err _ => name
                    end in
  [(name, field_name kind); (normalized, field_name kind)].
Definition direct_dependency_kinds (m : PackageManifest) : gmap string string :=
  btree_collect (concat ((λ s, concat (kind_entries s.1 <$> btree_keys s.2)) <$> dependency_sections m)).
(** The end of [direct_roots]: the roots whose dependency the manifest declares. *)
Definition direct_root (kinds : gmap string string) (key name : string) : option Root :=
  mk_root key name <$> kinds !! name.
Definition legacy_root (kinds : gmap string string) (key : string) :
    result LockfileError (option Root) :=
  parsed ← LockfilePackageKey_from_str key;
  Ok (direct_root kinds key (PackageName_display (key_name parsed))).
Definition bound_roots (kinds bindings : gmap string string) : list Root :=
  omap (λ entry, direct_root kinds entry.2 entry.1) (btree_iter bindings).
Definition legacy_roots (kinds : gmap string string) (root_keys : list string) :
    result LockfileError (list Root) :=
  found ← try_map (legacy_root kinds) root_keys; Ok (omap (M:=list) id found).
Definition direct_roots (l : Lockfile) (m : PackageManifest) (root_keys : list string) :
    result LockfileError (list Root) :=
  let kinds := direct_dependency_kinds m in
  if negb (bool_decide (lf_root_bindings l = ∅)) then Ok (bound_roots kinds (lf_root_bindings l))
  else legacy_roots kinds root_keys.
(** The locked package of a member: its name, version, path and manifest digest agree. *)
Definition member_matches (m : PackageManifest) (relative_path member_digest : string)
    (entry : LockfilePackageKey * LockedWorkspacePackage) : bool :=
  bool_decide (key_name entry.1 = pm_name m) && bool_decide (key_version entry.1 = pm_version m) &&
  match source_workspace (key_source entry.1) with
  | Some source => str_eqb (ws_path source) relative_path
                   && str_eqb (manifest_digest entry.2) member_digest
  | None => false
  end.
Inductive why_error :=
| LockError (e : LockfileError)
| LockManifestMismatch (message : string).
Definition workspace_roots (l : Lockfile) (m : PackageManifest) (requested : PackageName)
    (relative_path member_digest : string) : result why_error (list Root) :=
  entries ← map_err LockError (workspace_packages_typed l);
  '(key, package) ← ok_or (LockManifestMismatch
      "selected workspace manifest or membership does not match tapid.lock")
    (head (base.filter (λ entry, member_matches m relative_path member_digest entry = true) entries));
  let kinds := direct_dependency_kinds m in
  let roots := (λ entry, mk_root entry.2 entry.1 (default "dependency" (kinds !! entry.1))) <$>
               btree_iter (wp_dependencies package) in
  Ok (if bool_decide (requested = pm_name m)
      then roots ++ [mk_root (key_display key) (PackageName_display (pm_name m)) "workspace"]
      else roots).
End why.
