(* ===== verification/WhyInv.v ===== *)
(** * Theorems of the path search

    The search of [tapid why] reports a prefix of the enumeration of all simple paths,
    all of them unless it says otherwise, within its limits; the graph of a lockfile and
    the kinds of direct dependencies
    (crates/tapid-cli/src/application/why.rs). *)
From S2P Require Import Prelude Order RustStr Crates Samples Core LockKey Json Lockfile LockfileJson LockfileInv Manifest Why.

Section paths.
Context `{SV : Semver} `{UC : UrlCrate} `{B64 : Base64}.
Context (requested : PackageName) (g : WhyGraph).

(** ** The reference: every simple path, in the order of the edges *)
Definition is_requested (key : string) : bool :=
  match graph_nodes g !! key with Some k => bool_decide (key_name k = requested) | None => false end.
Definition descend (visited : gset string) (path : WhyPath)
    (recur : gset string → string → WhyPath → list WhyPath) (e : Edge) : list WhyPath :=
  if bool_decide (edge_target e ∈ visited) then [] else
  match graph_nodes g !! edge_target e with
  | None => []
  | Some key => recur ({[edge_target e]} ∪ visited) (edge_target e) (path ++ [edge_step e key])
  end.
Fixpoint all_paths (budget : nat) (visited : gset string) (current : string) (path : WhyPath) :
    list WhyPath :=
  (if is_requested current then [path] else []) ++
  match budget with
  | O => []
  | S budget => concat (descend visited path (all_paths budget) <$> outgoing g current)
  end.

(** A continuation of a path along edges of the graph, through nodes not yet on it. *)
Inductive trail : gset string → string → WhyPath → Prop :=
| trail_nil visited current : trail visited current []
| trail_cons visited current e key rest :
    e ∈ outgoing g current → edge_target e ∉ visited →
    graph_nodes g !! edge_target e = Some key →
    trail ({[edge_target e]} ∪ visited) (edge_target e) rest →
    trail visited current (edge_step e key :: rest).
Definition end_of (current : string) (t : WhyPath) : string :=
  default current (step_key <$> last t).

Lemma end_of_cons current step t : end_of current (step :: t) = end_of (step_key step) t.
Proof. unfold end_of. by destruct t as [|x t]; [|rewrite last_cons_cons; destruct (last (x :: t)) eqn:E; [|apply last_None in E]]. Qed.
Lemma elem_of_descend visited path recur e p :
  p ∈ descend visited path recur e ↔
  ∃ key, edge_target e ∉ visited ∧ graph_nodes g !! edge_target e = Some key ∧
    p ∈ recur ({[edge_target e]} ∪ visited) (edge_target e) (path ++ [edge_step e key]).
Proof.
  unfold descend. case_bool_decide as Hv; [rewrite elem_of_nil; naive_solver|].
  destruct (graph_nodes g !! edge_target e) as [key|]; [|rewrite elem_of_nil]; naive_solver.
Qed.
Lemma elem_of_all_paths budget visited current path p :
  p ∈ all_paths budget visited current path ↔
  ∃ t, p = path ++ t ∧ trail visited current t ∧ (length t ≤ budget)%nat ∧
    is_requested (end_of current t) = true.
Proof.
  revert visited current path. induction budget as [|budget IH]; intros visited current path;
    cbn [all_paths]; rewrite elem_of_app.
  - split.
    + intros [Hp|?%not_elem_of_nil]; [|done]. destruct (is_requested current) eqn:Hr; [|by apply not_elem_of_nil in Hp].
      apply list_elem_of_singleton in Hp as ->. exists []. rewrite app_nil_r. split_and!; [done|constructor|done..].
    + intros (t&->&_&Hlen&Hr). destruct t; [|simpl in Hlen; lia]. left. cbn in Hr. rewrite Hr, app_nil_r.
      by apply list_elem_of_singleton.
  - rewrite elem_of_concat_fmap. split.
    + intros [Hp|(e&He&Hp)].
      * destruct (is_requested current) eqn:Hr; [|by apply not_elem_of_nil in Hp].
        apply list_elem_of_singleton in Hp as ->. exists []. rewrite app_nil_r.
        split_and!; [done|constructor|simpl; lia|done].
      * apply elem_of_descend in Hp as (key&Hv&Hk&Hp). apply IH in Hp as (t&->&Ht&Hlen&Hr).
        exists (edge_step e key :: t). rewrite <-app_assoc. split_and!; [done|by econstructor|simpl; lia|].
        by rewrite end_of_cons.
    + intros (t&->&Ht&Hlen&Hr). inversion Ht as [|? ? e key rest He Hv Hk Hrest]; subst.
      * left. cbn in Hr. rewrite Hr, app_nil_r. by apply list_elem_of_singleton.
      * right. exists e. split; [done|].
        apply elem_of_descend. exists key. split_and!; [done..|]. apply IH. exists rest.
        rewrite <-app_assoc. rewrite end_of_cons in Hr. split_and!; [done..| |done]. simpl in Hlen. lia.
Qed.

(** ** The search against the reference *)
(** The search went from [s] to [s'] while the reference enumerates [l]; [complete] is what
    it established if it was not cut. *)
Record found (s s' : SearchState) (l : list WhyPath) (complete : Prop) : Prop := mk_found {
  found_all : truncated s' = false → paths s' = paths s ++ l ∧ complete;
  found_prefix : ∃ k, paths s' = paths s ++ take k l;
  found_paths : (length (paths s') ≤ MAX_PATHS)%nat;
  found_visits : (visits s ≤ visits s' ≤ MAX_VISITS)%nat;
}.
Definition within (s : SearchState) : Prop :=
  truncated s = false ∧ (length (paths s) ≤ MAX_PATHS)%nat ∧ (visits s ≤ MAX_VISITS)%nat.
(** No simple continuation is longer than [budget]. *)
Definition explored (budget : nat) (visited : gset string) (current : string) : Prop :=
  ∀ t, trail visited current t → (length t ≤ budget)%nat.

Lemma found_within s s' l P : found s s' l P → truncated s' = false → within s'.
Proof. by intros [_ _ Hp [_ Hv]] Ht. Qed.
Lemma found_nil s (P : Prop) : within s → P → found s s [] P.
Proof. intros (_&Hp&Hv) HP. split; [by rewrite app_nil_r|exists 0%nat; by rewrite app_nil_r|done|lia]. Qed.
Lemma found_cut s s' l l' (P Q : Prop) :
  found s s' l P → truncated s' = true → found s s' (l ++ l') Q.
Proof.
  intros [_ [k Hk] Hp Hv] Ht. split; [congruence| |done..].
  exists (length (take k l)). rewrite Hk, take_app_le by (rewrite length_take; lia).
  f_equal. rewrite length_take. destruct (decide (k ≤ length l)%nat).
  - by rewrite Nat.min_l.
  - rewrite Nat.min_r, !take_ge by lia. done.
Qed.
Lemma found_app s s1 s2 l1 l2 (P Q R : Prop) :
  found s s1 l1 P → truncated s1 = false → found s1 s2 l2 Q → (P → Q → R) →
  found s s2 (l1 ++ l2) R.
Proof.
  intros [Ha _ _ Hv] Ht [Ha2 [k Hk] Hp2 Hv2] HR. destruct (Ha Ht) as [E HP]. split.
  - intros [E2 HQ]%Ha2. rewrite E2, E, app_assoc. auto.
  - exists (length l1 + k)%nat. rewrite Hk, E, take_app_add, app_assoc. done.
  - done.
  - lia.
Qed.
Lemma found_weaken s s' l (P Q : Prop) : (P → Q) → found s s' l P → found s s' l Q.
Proof. intros HPQ [Ha Hk Hp Hv]. split; [naive_solver|done..]. Qed.

Lemma report_found s path (b : bool) :
  within s → found s (if b then report_path path s else s) (if b then [path] else []) True.
Proof.
  intros W. destruct b; [|by apply found_nil]. destruct W as (Ht&Hp&Hv). unfold report_path.
  destruct (Nat.eqb_spec (length (paths s)) MAX_PATHS) as [E|E]; split; cbn.
  - done.
  - exists 0%nat. by rewrite app_nil_r.
  - done.
  - lia.
  - done.
  - by exists 1%nat.
  - rewrite length_app. cbn. lia.
  - lia.
Qed.

Lemma visit_found s : within s → (visits s < MAX_VISITS)%nat → found s (visit s) [] True.
Proof. intros (Ht&Hp&Hv) Hlt. split; cbn; [by rewrite app_nil_r|exists 0%nat; by rewrite app_nil_r|done|lia]. Qed.
Lemma remove_added (visited : gset string) k : k ∉ visited → ({[k]} ∪ visited) ∖ {[k]} = visited.
Proof. set_solver. Qed.

(** What the loop over the edges asks of the search one step deeper. *)
Definition searches (budget : nat) (recur : string → search → search) : Prop :=
  ∀ current visited path s, is_Some (graph_nodes g !! current) → within s →
  ∃ s', recur current (visited, path, s) = (visited, path, s') ∧
    found s s' (all_paths budget visited current path) (explored budget visited current).

Lemma search_edges_found budget recur edges visited path s :
  searches budget recur → within s →
  ∃ s', search_edges recur g edges (visited, path, s) = (visited, path, s') ∧
    found s s' (concat (descend visited path (all_paths budget) <$> edges))
      (∀ e, e ∈ edges → edge_target e ∉ visited → is_Some (graph_nodes g !! edge_target e) →
         explored budget ({[edge_target e]} ∪ visited) (edge_target e)).
Proof.
  intros HR. revert s. induction edges as [|e edges IH]; intros s W; cbn [search_edges].
  { exists s. split; [done|]. apply found_nil; [done|]. by intros ? ?%not_elem_of_nil. }
  destruct (W) as [Ht _]. rewrite Ht. cbn [fmap list_fmap concat]. unfold descend at 1.
  case_bool_decide as Hv.
  { destruct (IH s W) as (s'&->&F). exists s'. split; [done|]. cbn [app].
    refine (found_weaken _ _ _ _ _ _ F). intros C e' [-> | He]%elem_of_cons; [done|by apply C]. }
  destruct (graph_nodes g !! edge_target e) as [key|] eqn:Hk.
  2: { destruct (IH s W) as (s'&->&F). exists s'. split; [done|]. cbn [app].
       refine (found_weaken _ _ _ _ _ _ F).
       intros C e' [-> | He]%elem_of_cons; [rewrite Hk; by intros _ []|by apply C]. }
  destruct (HR (edge_target e) ({[edge_target e]} ∪ visited) (path ++ [edge_step e key]) s) as (s1&E1&F1);
    [done|done|].
  rewrite E1. cbn zeta beta. rewrite remove_added, removelast_last by done.
  destruct (truncated s1) eqn:Ht1.
  - exists s1. split; [by destruct edges; cbn; rewrite ?Ht1|]. by eapply found_cut.
  - destruct (IH s1) as (s2&E2&F2); [by eapply found_within|]. exists s2. split; [done|].
    eapply found_app; [done..|]. intros P1 P2 e' [-> | He]%elem_of_cons; [done|by apply P2].
Qed.
Lemma all_paths_leaf visited current path :
  all_paths 0 visited current path = if is_requested current then [path] else [].
Proof. cbn. by rewrite app_nil_r. Qed.
Lemma search_paths_found budget : searches budget (search_paths budget requested g).
Proof.
  induction budget as [|budget IH]; intros current visited path s [key Hk] W;
    cbn [search_paths]; destruct (Nat.leb_spec MAX_VISITS (visits s)) as [Hfull|Hfree].
  1,3: exists (truncate s); split; [done|]; destruct W as (?&?&?); split; cbn;
    [done|exists 0%nat; by rewrite app_nil_r|done|lia].
  all: pose proof (visit_found s W Hfree) as F0; pose proof (found_within _ _ _ _ F0 (proj1 W)) as W0.
  all: pose proof (report_found (visit s) path (is_requested current) W0) as F1.
  all: pose proof (found_app _ _ _ _ _ _ _ True F0 (proj1 W0) F1 (λ _ _, I)) as F.
  all: cbn zeta; rewrite Hk; unfold is_requested in F, F1; rewrite Hk in F, F1; cbn [app] in F.
  all: set (s1 := if bool_decide (key_name key = requested) then _ else _) in *.
  - destruct (bool_decide_reflect (outgoing g current = [])) as [He|He]; eexists; (split; [reflexivity|]); rewrite all_paths_leaf;
      unfold is_requested; rewrite Hk.
    + eapply found_weaken; [|exact F]. intros _ t Ht. inversion Ht as [|? ? e k rest Hin]; subst; [done|].
      rewrite He in Hin. by apply not_elem_of_nil in Hin.
    + destruct F as [_ [k E] Hp Hv]. split; cbn; [done|by exists k|done..].
  - cbn [all_paths]. unfold is_requested at 1. rewrite Hk. destruct (truncated s1) eqn:Ht1.
    + exists s1. split; [by destruct (outgoing g current); cbn; rewrite ?Ht1|]. by eapply found_cut.
    + destruct (search_edges_found budget _ (outgoing g current) visited path s1 IH) as (s2&E2&F2);
        [by eapply found_within|].
      exists s2. split; [done|]. eapply found_app; [done..|].
      intros _ C t Ht. inversion Ht as [|? ? e k rest Hin Hv Hn Hrest]; subst; cbn; [lia|].
      apply le_n_S, (C e Hin Hv); [by rewrite Hn|done].
Qed.

(** ** The roots *)
Definition root_step (r : Root) (key : LockfilePackageKey) : WhyStep :=
  mk_step (root_key r) (Some (root_name r)) (Some (root_kind r)) (source_kind key).
Definition root_paths (r : Root) : list WhyPath :=
  match graph_nodes g !! root_key r with
  | None => []
  | Some key => all_paths MAX_DEPTH {[root_key r]} (root_key r) [root_step r key]
  end.
Lemma search_roots_found roots s :
  within s →
  found s (search_roots requested g roots s) (concat (root_paths <$> roots))
    (∀ r, r ∈ roots → is_Some (graph_nodes g !! root_key r) →
       explored MAX_DEPTH {[root_key r]} (root_key r)).
Proof.
  revert s. induction roots as [|r roots IH]; intros s W; cbn [search_roots].
  { apply found_nil; [done|]. by intros ? ?%not_elem_of_nil. }
  cbn [fmap list_fmap concat]. unfold root_paths at 1. destruct (graph_nodes g !! root_key r) as [key|] eqn:Hk.
  2: { cbn [app]. eapply found_weaken; [|apply (IH s W)].
       intros C r' [-> | Hr]%elem_of_cons; [rewrite Hk; by intros []|by apply C]. }
  destruct (search_paths_found MAX_DEPTH (root_key r) {[root_key r]} [root_step r key] s) as (s1&E1&F1);
    [done|done|].
  unfold root_step in E1. rewrite E1. cbn [search_state snd]. destruct (truncated s1) eqn:Ht1.
  - by eapply found_cut.
  - eapply found_app; [done|done|apply IH; by eapply found_within|].
    intros P1 P2 r' [-> | Hr]%elem_of_cons; [done|by apply P2].
Qed.
Lemma elem_of_root_paths r p :
  p ∈ root_paths r ↔
  ∃ key t, graph_nodes g !! root_key r = Some key ∧ p = root_step r key :: t ∧
    trail {[root_key r]} (root_key r) t ∧ (length t ≤ MAX_DEPTH)%nat ∧
    is_requested (end_of (root_key r) t) = true.
Proof.
  unfold root_paths. destruct (graph_nodes g !! root_key r) as [key|]; [|rewrite elem_of_nil; naive_solver].
  rewrite elem_of_all_paths. split.
  - intros (t&->&Ht). by exists key, t.
  - intros (key'&t&[= <-]&->&Ht). by exists t.
Qed.
End paths.

Section explanations.
Context `{SV : Semver} `{SL : !SemverLaws} `{UC : UrlCrate} `{UL : !UrlLaws} `{B64 : Base64}
  `{JC : JsonCodec}.
Implicit Types (l : Lockfile) (g : WhyGraph) (text : string) (key : LockfilePackageKey).

(** ** The graph of a lockfile *)
Definition locked_dependencies l text : gmap string string :=
  match workspace_packages l !! text, packages l !! text with
  | Some w, _ => wp_dependencies w
  | None, Some p => lp_dependencies p
  | None, None => ∅
  end.
Lemma typed_entries {A} (m : gmap string A) ps :
  try_map typed_entry (btree_iter m) = Ok ps →
  ∀ key a, (key, a) ∈ ps ↔ m !! key_display key = Some a ∧ key_ok key.
Proof.
  intros Hps%try_map_Ok key a. split.
  - intros Hin. destruct (proj1 (list_elem_of_lookup _ _) Hin) as [i Hi].
    destruct (Forall2_lookup_r _ _ _ _ _ Hps Hi) as ([text a']&Ht&Hparse).
    apply bind_Ok in Hparse as (k&Hk&[= <- <-]). cbn in Hk. apply key_from_str_ok in Hk as [Hk ->].
    split; [|done]. apply elem_of_btree_iter, list_elem_of_lookup. by exists i.
  - intros [Hin Hk]. apply elem_of_btree_iter, list_elem_of_lookup in Hin as [i Hi].
    destruct (Forall2_lookup_l _ _ _ _ _ Hps Hi) as ([k a']&Ht&Hparse).
    apply bind_Ok in Hparse as (k'&Hk'&[= <- <-]). cbn in Hk'. rewrite key_parse_display in Hk' by done.
    apply list_elem_of_lookup. exists i. congruence.
Qed.
Lemma typed_entries_total {A} (m : gmap string A) :
  (∀ text a, m !! text = Some a → ∃ key, LockfilePackageKey_from_str text = Ok key) →
  ∃ ps, try_map typed_entry (btree_iter m) = Ok ps.
Proof.
  intros Hm. destruct (try_map typed_entry (btree_iter m)) as [ps|e] eqn:E; [by exists ps|].
  apply try_map_Err in E as ([text a]&Hin%elem_of_btree_iter&E).
  destruct (Hm text a Hin) as [key Hk]. unfold typed_entry in E. cbn in E. by rewrite Hk in E.
Qed.
Lemma typed_nodes {A} (F : A → gmap string string) (m : gmap string A) ps g :
  try_map typed_entry (btree_iter m) = Ok ps →
  let g' := foldl (λ g entry, add_node g entry.1 (dependency_edges (F entry.2))) g ps in
  ∀ text, match m !! text with
          | Some a => ∃ key, key_ok key ∧ key_display key = text ∧ graph_nodes g' !! text = Some key ∧
                      graph_edges g' !! text = Some (dependency_edges (F a))
          | None => graph_nodes g' !! text = graph_nodes g !! text ∧
                    graph_edges g' !! text = graph_edges g !! text
          end.
Proof.
  intros Hps. cbn zeta. pose proof (typed_entries m ps Hps) as Hm.
  assert (∀ pre post, ps = pre ++ post → ∀ g text,
    let g' := foldl (λ g entry, add_node g entry.1 (dependency_edges (F entry.2))) g post in
    (graph_nodes g' !! text = graph_nodes g !! text ∧ graph_edges g' !! text = graph_edges g !! text ∧
     (∀ entry, entry ∈ post → key_display entry.1 ≠ text)) ∨
    (∃ key a, m !! text = Some a ∧ key_ok key ∧ key_display key = text ∧
       graph_nodes g' !! text = Some key ∧ graph_edges g' !! text = Some (dependency_edges (F a))))
    as Hfold.
  { intros pre post. revert pre. induction post as [|[k a] post IH]; intros pre Heq h text; cbn zeta.
    - left. split_and!; [done..|]. by intros ? ?%not_elem_of_nil.
    - cbn [foldl]. destruct (IH (pre ++ [(k, a)]) ltac:(by rewrite <-app_assoc)
        (add_node h k (dependency_edges (F a))) text) as [(En&Ee&Hno)|?]; [|by right].
      cbn [add_node graph_nodes graph_edges] in En, Ee.
      destruct (decide (key_display k = text)) as [Ht|Ht].
      + right. exists k, a. destruct (proj1 (Hm k a)) as [Ha Hk].
        { rewrite Heq. apply elem_of_app. right. by left. }
        cbn. rewrite En, Ee, Ht, !lookup_insert_eq in *. done.
      + left. cbn. rewrite En, Ee, !lookup_insert_ne by done. split_and!; [done..|].
        intros e [-> | He]%elem_of_cons; [done|by apply Hno]. }
  intros text. destruct (Hfold [] ps eq_refl g text) as [(En&Ee&Hno)|(key&a&->&?)]; [|by exists key].
  destruct (m !! text) as [a|] eqn:Ha; [|done]. exfalso.
  apply elem_of_btree_iter, list_elem_of_lookup in Ha as [i Hi].
  destruct (Forall2_lookup_l _ _ _ _ _ (proj1 (try_map_Ok _ _ _) Hps) Hi) as ([k a']&Ht&Hparse).
  apply bind_Ok in Hparse as (k'&Hk'&[= <- <-]). cbn in Hk'. apply key_from_str_ok in Hk' as [_ Hk'].
  apply (Hno (k', a)); [apply list_elem_of_lookup; by exists i|done].
Qed.

Lemma elem_of_peer_edges nodes key context e :
  e ∈ peer_edges nodes key context ↔
  ∃ provider name version text, nodes !! text = Some provider ∧ context !! name = Some version ∧
    key_source provider = key_source key ∧ key_name provider = name ∧ key_version provider = version ∧
    e = mk_edge (PackageName_display name) (key_display provider) "peer".
Proof.
  unfold peer_edges. rewrite elem_of_concat_fmap. unfold providers_of.
  setoid_rewrite list_elem_of_fmap. setoid_rewrite list_elem_of_filter.
  setoid_rewrite elem_of_btree_values. split.
  - intros ([n v]&Hc%elem_of_btree_iter&provider&->&(?&?&?)&text&?). by exists provider, n, v, text.
  - intros (provider&n&v&text&?&?&?&?&?&->). exists (n, v). rewrite elem_of_btree_iter. naive_solver.
Qed.
Lemma add_peers_all nodes (entries : list (string * LockfilePackageKey)) edges edges' :
  NoDup entries.*1 → try_fold (add_peers nodes) edges entries = Ok edges' →
  (∀ text key, (text, key) ∈ entries → ∃ context, key_peer_context key = Ok context ∧
     edges' !! text = Some (default [] (edges !! text) ++ peer_edges nodes key context)) ∧
  (∀ text, text ∉ entries.*1 → edges' !! text = edges !! text).
Proof.
  revert edges. induction entries as [|[t k] entries IH]; intros edges Hnd; cbn [try_fold].
  { intros [= <-]. split; [by intros ? ? ?%not_elem_of_nil|done]. }
  apply NoDup_cons in Hnd as [Ht Hnd]. cbn [fst fmap list_fmap] in Ht.
  intros (edges1&H1&H2)%bind_Ok. apply bind_Ok in H1 as (context&Hc&[= <-]).
  destruct (IH _ Hnd H2) as [Hin Hout]. split.
  - intros text key [[= -> ->] | Hmem]%elem_of_cons.
    + exists context. by rewrite Hout, lookup_insert_eq.
    + assert (text ≠ t) as Hne.
      { intros ->. apply Ht, list_elem_of_fmap. by exists (t, key). }
      destruct (Hin text key Hmem) as (c&?&He). rewrite lookup_insert_ne in He by done. by exists c.
  - intros text [Hne Hmem]%not_elem_of_cons. by rewrite Hout, lookup_insert_ne by done.
Qed.
Lemma peers_total nodes edges :
  (∀ text key, nodes !! text = Some key → key_ok key) →
  ∃ edges', try_fold (add_peers nodes) edges (btree_iter nodes) = Ok edges'.
Proof.
  intros Hok. apply try_fold_total. intros es [text key] Hin%elem_of_btree_iter%Hok.
  destruct (key_ok_contexts key (key_display key) Hin) as ((c&Hc)&_). unfold add_peers, key_peer_context.
  rewrite Hc. by eexists.
Qed.
Lemma locked_target l text e :
  lock_inv l → e ∈ dependency_edges (locked_dependencies l text) →
  contains_package_key l (edge_target e) = true.
Proof.
  intros Hl ([name target]&->&Hin%elem_of_btree_iter)%list_elem_of_fmap. cbn in *.
  unfold locked_dependencies in Hin. destruct (workspace_packages l !! text) as [w|] eqn:Hw;
    [by eapply workspace_target|].
  destruct (packages l !! text) as [p|] eqn:Hp; [by eapply package_target|by rewrite lookup_empty in Hin].
Qed.

(** The graph before the peer edges. *)
Lemma locked_nodes l :
  lock_inv l →
  ∃ ps ws, packages_typed l = Ok ps ∧ workspace_packages_typed l = Ok ws ∧
    let g1 := foldl (λ g entry, add_node g entry.1 (dependency_edges (lp_dependencies entry.2)))
                (mk_why_graph ∅ ∅) ps in
    let g := foldl (λ g entry, add_node g entry.1 (dependency_edges (wp_dependencies entry.2))) g1 ws in
    ∀ text, if contains_package_key l text
            then ∃ key, key_ok key ∧ key_display key = text ∧ graph_nodes g !! text = Some key ∧
                 graph_edges g !! text = Some (dependency_edges (locked_dependencies l text))
            else graph_nodes g !! text = None ∧ graph_edges g !! text = None.
Proof.
  intros Hl. destruct (typed_entries_total (packages l)) as [ps Hps].
  { intros text p (k&Hk&_)%li_packages%package_ok_key; [by exists k|done]. }
  destruct (typed_entries_total (workspace_packages l)) as [ws Hws].
  { intros text w (k&Hk&_)%li_workspaces%workspace_package_ok_key; [by exists k|done]. }
  exists ps, ws. split; [done|]. split; [done|]. cbn zeta. intros text.
  pose proof (typed_nodes lp_dependencies (packages l) ps (mk_why_graph ∅ ∅) Hps text) as H1.
  cbn zeta in H1. set (g1 := foldl _ _ ps) in *.
  pose proof (typed_nodes wp_dependencies (workspace_packages l) ws g1 Hws text) as H2.
  cbn zeta in H2. set (g := foldl _ g1 ws) in *. unfold locked_dependencies.
  destruct (contains_package_key l text) eqn:Hc.
  - destruct (workspace_packages l !! text) as [w|] eqn:Hw; [exact H2|].
    apply contains_package_key_true in Hc as [[p Hp]|[w ?]]; [|congruence]. rewrite Hp in *.
    destruct H1 as (key&?&?&?&?), H2 as [-> ->]. by exists key.
  - apply not_true_iff_false in Hc. rewrite contains_package_key_true in Hc.
    destruct (packages l !! text) as [p|] eqn:Hp; [exfalso; naive_solver|].
    destruct (workspace_packages l !! text) as [w|] eqn:Hw; [exfalso; naive_solver|].
    destruct H2 as [-> ->], H1 as [-> ->]. by cbn; rewrite !lookup_empty.
Qed.
Lemma locked_graph l :
  lock_inv l →
  ∃ g, graph l = Ok g ∧
    ∀ text, if contains_package_key l text
            then ∃ key context, graph_nodes g !! text = Some key ∧ key_ok key ∧ key_display key = text ∧
                 key_peer_context key = Ok context ∧
                 graph_edges g !! text =
                   Some (dependency_edges (locked_dependencies l text) ++ peer_edges (graph_nodes g) key context)
            else graph_nodes g !! text = None ∧ graph_edges g !! text = None.
Proof.
  intros Hl. destruct (locked_nodes l Hl) as (ps&ws&Hps&Hws&Hg). cbn zeta in Hg. unfold graph.
  rewrite Hps, Hws. cbn [mbind result_bind]. set (g := foldl _ _ ws) in *.
  destruct (peers_total (graph_nodes g) (graph_edges g)) as [edges He].
  { intros text key Hn. specialize (Hg text). destruct (contains_package_key l text); [|destruct Hg; congruence].
    destruct Hg as (k&?&?&?&?). congruence. }
  rewrite He. exists (mk_why_graph edges (graph_nodes g)). split; [done|]. intros text.
  destruct (add_peers_all (graph_nodes g) (btree_iter (graph_nodes g)) (graph_edges g) edges) as [Hin Hout].
  { apply sorted_lt_NoDup, btree_keys_ascending. }
  { done. }
  cbn. specialize (Hg text). destruct (contains_package_key l text).
  - destruct Hg as (key&Hk&Ht&Hn&Hge).
    destruct (Hin text key) as (context&Hc&Hedges); [by apply elem_of_btree_iter|].
    exists key, context. rewrite Hge in Hedges. done.
  - destruct Hg as [Hn Hge]. split; [done|]. rewrite Hout; [done|].
    intros ([t k]&->&Hin2%elem_of_btree_iter)%list_elem_of_fmap. cbn in *. congruence.
Qed.

(** ** Explanations *)
Lemma trail_simple g visited current t :
  trail g visited current t → Forall (λ step, step_key step ∉ visited) t ∧ NoDup (step_key <$> t).
Proof.
  induction 1 as [|visited current e key rest Hin Hv Hn _ [IHv IHd]]; [by split; constructor|].
  rewrite Forall_forall in IHv. cbn. split.
  - constructor; [done|]. apply Forall_forall. intros step Hs%IHv. set_solver.
  - constructor; [|done]. intros (step&Heq&Hs%IHv)%list_elem_of_fmap. rewrite <-Heq in Hs. set_solver.
Qed.
(** [p] leads from one of the roots to the requested package: it starts with the step of a
    root, follows edges of the graph and passes no node twice. *)
Definition explains g (requested : PackageName) (roots : list Root) (p : WhyPath) : Prop :=
  ∃ r key t, r ∈ roots ∧ graph_nodes g !! root_key r = Some key ∧ p = root_step r key :: t ∧
    trail g {[root_key r]} (root_key r) t ∧ is_requested requested g (end_of (root_key r) t) = true.
Lemma elem_of_roots_paths g requested roots p :
  p ∈ concat (root_paths requested g <$> roots) → explains g requested roots p.
Proof.
  intros (r&Hr&(key&t&Hn&->&Ht&_&Hreq)%elem_of_root_paths)%elem_of_concat_fmap. by exists r, key, t.
Qed.
Lemma explains_simple g requested roots p : explains g requested roots p → NoDup (step_key <$> p).
Proof.
  intros (r&key&t&_&_&->&[Hv Hd]%trail_simple&_). cbn. constructor; [|done].
  intros (step&Heq&Hs)%list_elem_of_fmap. rewrite Forall_forall in Hv. apply Hv in Hs. set_solver.
Qed.
(** The result of the search over all roots, from the fresh state. *)
Lemma search_roots_explains g requested roots :
  let s := search_roots requested g roots fresh_search in
  (∀ p, p ∈ paths s → explains g requested roots p) ∧ (length (paths s) ≤ MAX_PATHS)%nat ∧
  (visits s ≤ MAX_VISITS)%nat ∧
  (truncated s = false → ∀ p, explains g requested roots p → p ∈ paths s).
Proof.
  cbn zeta. destruct (search_roots_found requested g roots fresh_search) as [Hall [k Hk] Hp Hv].
  { split_and!; cbn; [done|lia|lia]. }
  split_and!; [|done|lia|].
  - intros p Hin. apply elem_of_roots_paths. rewrite Hk in Hin. cbn [paths fresh_search app] in Hin.
    rewrite <-(take_drop k (concat _)). apply elem_of_app. by left.
  - intros [-> Hexp]%Hall p (r&key&t&Hr&Hn&->&Ht&Hreq). cbn [paths fresh_search app].
    apply elem_of_concat_fmap. exists r. split; [done|]. apply elem_of_root_paths.
    exists key, t. split_and!; try done. apply (Hexp r Hr); [by eexists|done].
Qed.

(** The graph of every lockfile that the public operations can build is defined, and
    its nodes are exactly the locked packages and workspace members; the edges of a node
    are its locked dependencies followed by one peer edge to every locked package with the
    source, name and version of an entry of its peer context, and every edge leads to a
    node - so the lookup that the code [expect]s never fails. *)
Theorem why_graph_spec l :
  reachable l →
  ∃ g, graph l = Ok g ∧ dom (graph_edges g) = dom (graph_nodes g) ∧
    (∀ text, is_Some (graph_nodes g !! text) ↔ contains_package_key l text = true) ∧
    (∀ text key, graph_nodes g !! text = Some key →
       key_display key = text ∧
       ∃ context, key_peer_context key = Ok context ∧
         ∀ e, e ∈ outgoing g text ↔
           (edge_kind e = "dependency" ∧ locked_dependencies l text !! edge_name e = Some (edge_target e)) ∨
           (∃ provider version, graph_nodes g !! edge_target e = Some provider ∧
              key_source provider = key_source key ∧ key_version provider = version ∧
              context !! key_name provider = Some version ∧
              e = mk_edge (PackageName_display (key_name provider)) (edge_target e) "peer")) ∧
    (∀ text e, e ∈ outgoing g text → is_Some (graph_nodes g !! edge_target e)).
Proof.
  intros Hl%reachable_lock_inv. destruct (locked_graph l Hl) as (g&Hg&Hnodes). exists g.
  assert (∀ text key, graph_nodes g !! text = Some key → key_display key = text) as Htext.
  { intros text key Hn. specialize (Hnodes text). destruct (contains_package_key l text).
    - destruct Hnodes as (k&c&?&?&?&_). congruence.
    - destruct Hnodes. congruence. }
  assert (∀ text, is_Some (graph_nodes g !! text) ↔ contains_package_key l text = true) as Hdom.
  { intros text. specialize (Hnodes text). destruct (contains_package_key l text).
    - destruct Hnodes as (k&c&->&_). split; [done|by eexists].
    - destruct Hnodes as [-> _]. split; [by intros []|done]. }
  split_and!; [done| |done| |].
  - apply set_eq. intros text. rewrite !elem_of_dom. specialize (Hnodes text).
    destruct (contains_package_key l text); [|by destruct Hnodes as [-> ->]].
    destruct Hnodes as (k&c&->&_&_&_&->). split; by eexists.
  - intros text key Hn. split; [by apply Htext|]. specialize (Hnodes text).
    destruct (contains_package_key l text); [|destruct Hnodes; congruence].
    destruct Hnodes as (k&c&Hk&_&_&Hc&He). assert (k = key) as -> by congruence. exists c.
    split; [done|]. intros e. unfold outgoing. rewrite He. cbn [from_option]. unfold id. rewrite elem_of_app, elem_of_peer_edges.
    unfold dependency_edges. rewrite list_elem_of_fmap. destruct e as [name target kind]. cbn. split.
    + intros [([n t]&[= -> -> ->]&Hin%elem_of_btree_iter)|(provider&n&v&t&Hp&?&?&?&?&[= -> -> ->])]; [by left|].
      right. exists provider, v. rewrite (Htext _ _ Hp). naive_solver.
    + intros [[-> Hin]|(provider&v&Hp&?&?&?&[= -> ->])].
      * left. exists (name, target). by rewrite elem_of_btree_iter.
      * right. exists provider, (key_name provider), v, target. rewrite (Htext _ _ Hp). naive_solver.
  - intros text e Hin. unfold outgoing in Hin. pose proof (Hnodes text) as Ht.
    destruct (contains_package_key l text); [|destruct Ht as [_ E]; rewrite E in Hin; by apply not_elem_of_nil in Hin].
    destruct Ht as (k&c&_&_&_&_&E). rewrite E in Hin. apply elem_of_app in Hin as [Hin|Hin].
    + by apply Hdom, (locked_target l text).
    + apply elem_of_peer_edges in Hin as (provider&n&v&t&Hp&_&_&_&_&->). cbn. exists provider.
      by rewrite (Htext _ _ Hp).
Qed.

(** C38: [tapid why] answers for every lockfile that the public operations can build.  Each
    path that it reports leads from one of the roots to the requested package along edges
    of the graph and passes no package twice; there are at most fifty.  Unless the outcome
    is partial, the report holds all such paths however long they are, and says not_found
    exactly when there are none. *)
Theorem explain_roots_spec l root_dir requested roots :
  reachable l →
  ∃ g report, graph l = Ok g ∧ explain_roots root_dir requested l roots = Ok report ∧
    (∀ p, p ∈ report_paths report → explains g requested roots p ∧ NoDup (step_key <$> p)) ∧
    (length (report_paths report) ≤ MAX_PATHS)%nat ∧
    (report_outcome report ≠ "partial" →
       (∀ p, explains g requested roots p → p ∈ report_paths report) ∧
       (report_outcome report = "not_found" ↔ ∀ p, ¬ explains g requested roots p)) ∧
    (report_outcome report = "partial" ↔ report_truncated report = true).
Proof.
  intros Hl%reachable_lock_inv. destruct (locked_graph l Hl) as (g&Hg&_).
  unfold explain_roots. rewrite Hg. cbn [mbind result_bind]. eexists g, _. split; [done|]. split; [done|].
  pose proof (search_roots_explains g requested roots) as Hs. cbn zeta in Hs.
  set (s := search_roots _ _ _ _) in *. destruct Hs as (Hsound&Hlen&_&Hall). cbn.
  split_and!; [|done| |].
  - intros p Hp%Hsound. split; [done|by eapply explains_simple].
  - destruct (truncated s) eqn:Ht; [done|]. intros _. split; [by apply Hall|].
    destruct (bool_decide_reflect (paths s = [])) as [He|He]; (split; [|]); try done.
    + intros _ p Hp%Hall; [|done]. rewrite He in Hp. by apply not_elem_of_nil in Hp.
    + intros Hno. destruct (paths s) as [|p ps] eqn:E; [done|]. destruct (Hno p). apply Hsound. by left.
  - destruct (truncated s); [done|]. by case_bool_decide.
Qed.
End explanations.

(** *** Samples *)
Definition sample_roots : list Root :=
  [mk_root (sample_key "acme" "2.0.0") "acme" "dependencies";
   mk_root (sample_key "left-pad" "1.3.0") "left-pad" "devDependencies"].
Lemma why_graph_spec_witness :
  ∃ g, graph rooted_lockfile = Ok g ∧
    is_Some (graph_nodes g !! sample_key "acme" "2.0.0") ∧
    ∀ text e, e ∈ outgoing g text → is_Some (graph_nodes g !! edge_target e).
Proof.
  destruct (why_graph_spec rooted_lockfile rooted_reachable) as (g&Hg&_&Hdom&_&Hedges).
  exists g. split; [exact Hg|]. split; [|exact Hedges]. apply Hdom. vm_compute. reflexivity.
Defined.
Lemma explain_roots_spec_witness :
  ∃ report, explain_roots "/project" (mk_name "left-pad") rooted_lockfile sample_roots = Ok report ∧
    ∀ p, p ∈ report_paths report → NoDup (step_key <$> p).
Proof.
  destruct (explain_roots_spec rooted_lockfile "/project" (mk_name "left-pad") sample_roots
    rooted_reachable) as (g&report&_&Hr&Hpaths&_).
  exists report. split; [exact Hr|]. intros p Hp. by apply Hpaths.
Defined.
(** A direct and an indirect path. *)
Example left_pad_explained :
  (λ report, (report_outcome report, map (map step_via) (report_paths report), length (report_warnings report)))
    <$> to_ok (explain_roots "/project" (mk_name "left-pad") rooted_lockfile sample_roots) =
  Some ("success", [[Some "acme"; Some "left-pad"]; [Some "left-pad"]], 1%nat).
Proof. vm_compute. reflexivity. Qed.
