(* ===== verification/Snapshot.v ===== *)
(** * tapid-lockfile: graph snapshots

    The observation of a persisted native lockfile: opening its bytes within limits, the
    inventory of its instances and relationships, the selection of a scope and the
    comparison of two snapshots (crates/tapid-lockfile/src/inspection.rs,
    inspection/preflight.rs, inspection/comparison.rs).  Schema 8, an imported npm
    lockfile, is recognised and left to its own adapter.  [None] is a panic: a failed
    [expect] or an index by a missing key. *)
From S2P Require Import Prelude Order RustStr Crates Samples Core LockKey Json Lockfile LockfileJson.

Definition MAX_INPUT_BYTES : Z := 32 * 1024 * 1024.
Definition MAX_INSTANCES : Z := 100000.
Definition MAX_RELATIONSHIPS : Z := 500000.

Inductive SnapshotError :=
| InputLimit | AnalysisLimit | InvalidSnapshot | UnsupportedFormat | InvalidScope.
Definition SnapshotError_display (e : SnapshotError) : string :=
  match e with
  | InputLimit => "snapshot exceeds the input byte limit"
  | AnalysisLimit => "snapshot exceeds the graph analysis limit"
  | InvalidSnapshot => "snapshot failed lockfile validation"
  | UnsupportedFormat => "snapshot format is unsupported"
  | InvalidScope => "snapshot scope exceeds the filter limits"
  end.
Record GraphSnapshot := mk_snapshot {
  snapshot_lock : Lockfile;
  snapshot_schema : Z;
  snapshot_named_root_bindings : bool;
  snapshot_digest : string;
}.
Record GraphInstance := mk_instance {
  instance_reference : string;
  instance_identity : string;
  instance_name : string;
  instance_version : string;
  instance_placement : option string;
}.
#[export] Instance GraphInstance_eq_dec : EqDecision GraphInstance.
Proof. solve_decision. Defined.
Record GraphRelationship := mk_relationship {
  relationship_kind : string;
  relationship_parent : option string;
  relationship_local_name : option string;
  relationship_target : string;
}.
#[export] Instance GraphRelationship_eq_dec : EqDecision GraphRelationship.
Proof. solve_decision. Defined.
Record GraphAvailability := mk_availability {
  explicit_roots : bool;
  named_root_bindings : bool;
  exact_scripts : bool;
  host_toolchain : bool;
  derived_outputs : bool;
  verification_receipts : bool;
  declaration_requirements : bool;
  peer_provider_targets : bool;
}.
Record GraphCoverage := mk_coverage {
  analysis_complete : bool;
  total_instances : nat;
  total_relationships : nat;
  excluded_instances : nat;
  excluded_relationships : nat;
}.
Inductive GraphScope := All | Packages (values : list string) | Instances (values : list string).
Record GraphInspection := mk_inspection {
  inspection_schema : Z;
  inspection_digest : string;
  inspection_scope : GraphScope;
  inspection_availability : GraphAvailability;
  inspection_coverage : GraphCoverage;
  inspection_instances : list GraphInstance;
  inspection_relationships : list GraphRelationship;
}.

(** [unavailable_reasons] *)
Definition unavailable_reasons (a : GraphAvailability) : gmap string string :=
  btree_collect ((λ entry, (entry.1.2, entry.2)) <$> base.filter (λ entry, entry.1.1 = false)
    [(explicit_roots a, "explicit_roots", "not_recorded");
     (named_root_bindings a, "named_root_bindings", "not_recorded");
     (exact_scripts a, "exact_scripts", "not_recorded");
     (host_toolchain a, "host_toolchain", "not_recorded");
     (derived_outputs a, "derived_outputs", "format_does_not_record");
     (verification_receipts a, "verification_receipts", "format_does_not_record");
     (declaration_requirements a, "declaration_requirements", "digest_evidence_only");
     (peer_provider_targets a, "peer_provider_targets",
      "context_does_not_identify_provider_placement")]).

(** ** Scopes *)
Definition scope_values (scope : GraphScope) : list string :=
  match scope with All => [] | Packages values | Instances values => values end.
Definition oversized_scope (values : list string) : bool :=
  (64 <? length values)%nat || existsb (λ v, (4096 <? Z.of_nat (String.length v))%Z) values.
Definition normalized (scope : GraphScope) : result SnapshotError GraphScope :=
  match scope with
  | All => Ok All
  | _ =>
      if oversized_scope (scope_values scope) then Err InvalidScope else
      let values := dedup (sort (scope_values scope)) in
      Ok match scope with Packages _ => Packages values | _ => Instances values end
  end.
(** [values.binary_search(v).is_ok()] on a sorted vector. *)
Definition binary_search (values : list string) (v : string) : bool := bool_decide (v ∈ values).
Definition includes (scope : GraphScope) (i : GraphInstance) : bool :=
  match scope with
  | All => true
  | Packages values => binary_search values (instance_name i)
  | Instances values => binary_search values (instance_reference i)
  end.

(** ** Structural accounting (preflight.rs) *)
Inductive Role := RoleRoot | RoleInstances | RoleInstance | RoleRelationships | RoleOther.
Record Counts := mk_counts { count_instances : Z; count_relationships : Z }.
(** The error that stops the visit: the flag [exceeded] is set, or the nesting limit. *)
Inductive visit_error := Exceeded | Nested.
Definition bump (role : Role) (c : Counts) : Counts :=
  match role with
  | RoleInstances => mk_counts (count_instances c + 1) (count_relationships c)
  | RoleRelationships => mk_counts (count_instances c) (count_relationships c + 1)
  | _ => c
  end.
Definition exceeded (c : Counts) : bool :=
  (MAX_INSTANCES <? count_instances c)%Z || (MAX_RELATIONSHIPS <? count_relationships c)%Z.
Definition count (role : Role) (c : Counts) : result visit_error Counts :=
  if exceeded (bump role c) then Err Exceeded else Ok (bump role c).
Definition is_relationships (key : string) : bool :=
  existsb (str_eqb key) ["dependencies"; "optionalDependencies"; "peerDependencies"].
Definition child_role (role : Role) (key : string) : Role :=
  match role with
  | RoleRoot =>
      if str_eqb key "npmLock" then RoleRoot
      else if str_eqb key "packages" || str_eqb key "workspacePackages" then RoleInstances
      else if str_eqb key "roots" || str_eqb key "rootBindings" then RoleRelationships
      else RoleOther
  | RoleInstances => RoleInstance
  | RoleInstance => if is_relationships key then RoleRelationships else RoleOther
  | _ => RoleOther
  end.
Fixpoint node (v : json) (role : Role) (depth : Z) (c : Counts) : result visit_error Counts :=
  if (128 <=? depth)%Z then Err Nested else
  match v with
  | JObject fields =>
      try_fold (λ c field, c ← count role c; node field.2 (child_role role field.1) (depth + 1) c)
        c fields
  | JArray l =>
      try_fold (λ c value, c ← node value RoleOther (depth + 1) c; count role c) c l
  | _ => Ok c
  end.
Definition preflight_check (document : json) : result SnapshotError () :=
  match node document RoleRoot 0 (mk_counts 0 0) with
  | Ok _ => Ok ()
  | Err Exceeded => Err AnalysisLimit
  | Err Nested => Err InvalidSnapshot
  end.

Section snapshots.
Context `{SV : Semver} `{UC : UrlCrate} `{B64 : Base64} `{SH : Sha256} `{JC : JsonCodec}.

(** ** Opening *)
Definition format_specs : list (string * presence) :=
  [("lockfileVersion", Optional); ("rootBindings", Optional)].
(** The version, and whether [rootBindings] is present and not null. *)
Definition read_format (document : json) : option (option Z * bool) :=
  fields ← struct_fields false format_specs document;
  match fields with
  | [version; bindings] =>
      version ← read_field (read_option read_u32) (Some None) version;
      Some (version, match bindings with Some JNull | None => false | Some _ => true end)
  | _ => None
  end.
Inductive Opened := NativeSnapshot (s : GraphSnapshot) | ImportedSnapshot.
Definition sizes {A} (dependencies : A → gmap string string) (m : gmap string A) : Z :=
  foldl (λ n p, n + Z.of_nat (size (dependencies p)))%Z 0%Z (btree_values m).
Definition lock_instances (l : Lockfile) : Z :=
  Z.of_nat (size (packages l)) + Z.of_nat (size (workspace_packages l)).
Definition lock_relationships (l : Lockfile) : Z :=
  Z.of_nat (length (roots l)) + Z.of_nat (size (lf_root_bindings l)) +
  sizes lp_dependencies (packages l) + sizes wp_dependencies (workspace_packages l).
(** A text that does not parse is refused at once; the code may find another reason for
    one whose only fault is the nesting or the encoding of values it does not need. *)
Definition from_bytes (bytes : string) : result SnapshotError Opened :=
  if (MAX_INPUT_BYTES <? Z.of_nat (String.length bytes))%Z then Err InputLimit else
  document ← ok_or InvalidSnapshot (json_parse bytes);
  '(version, bindings) ← ok_or InvalidSnapshot (read_format document);
  schema ← ok_or UnsupportedFormat version;
  if negb ((4 <=? schema) && (schema <=? 10))%Z then Err UnsupportedFormat else
  _ ← preflight_check document;
  if negb (utf8_valid bytes) then Err InvalidSnapshot else
  if (schema =? 8)%Z then Ok ImportedSnapshot else
  l ← map_err (λ _, InvalidSnapshot) (from_json bytes);
  if (MAX_INSTANCES <? lock_instances l)%Z || (MAX_RELATIONSHIPS <? lock_relationships l)%Z
  then Err AnalysisLimit
  else Ok (NativeSnapshot (mk_snapshot l schema bindings ("sha256-" +:+ sha256_hex bytes))).

(** ** Inventory *)
Definition nul : string := String (ascii_of_N 0) "".
Definition reference_for (format identity : string) : string :=
  "instance-v1-" +:+ sha256_hex ("tapid-lock-graph-instance-v1" +:+ nul +:+ format +:+ nul +:+ identity).
Definition reference (identity : string) : string := reference_for "native" identity.
(** Entries with their dependencies, in the order of the code's chain. *)
Definition entries (l : Lockfile) : list (string * gmap string string) :=
  ((λ entry, (entry.1, lp_dependencies entry.2)) <$> btree_iter (packages l)) ++
  ((λ entry, (entry.1, wp_dependencies entry.2)) <$> btree_iter (workspace_packages l)).
Definition instance_of (identity : string) : option GraphInstance :=
  key ← to_ok (LockfilePackageKey_from_str identity);
  Some (mk_instance (reference identity) identity (PackageName_display (key_name key))
          (PackageVersion_display (key_version key)) None).
Definition dependency_relationships (entry : string * gmap string string) : list GraphRelationship :=
  (λ dependency, mk_relationship "dependency" (Some (reference entry.1)) (Some dependency.1)
                   (reference dependency.2)) <$> btree_iter entry.2.
Definition root_relationships (l : Lockfile) : list GraphRelationship :=
  (λ target, mk_relationship "root" None None (reference target)) <$> roots l.
Definition binding_relationships (l : Lockfile) : list GraphRelationship :=
  (λ binding, mk_relationship "root_binding" None (Some binding.1) (reference binding.2)) <$>
    btree_iter (lf_root_bindings l).

(** The sort key of a relationship; [None] is an index by a missing reference. *)
Definition relationship_category (kind : string) : Z :=
  if str_eqb kind "root" then 0 else if str_eqb kind "root_binding" then 1 else 2.
Definition identities_of (instances : list GraphInstance) : gmap string string :=
  btree_collect ((λ i, (instance_reference i, instance_identity i)) <$> instances).
Definition relationship_order (identities : gmap string string) (edge : GraphRelationship) :
    option (Z * option string * option string * string) :=
  parent ← match relationship_parent edge with
           | Some p => Some <$> identities !! p
           | None => Some None
           end;
  target ← identities !! relationship_target edge;
  Some (relationship_category (relationship_kind edge), parent, relationship_local_name edge, target).
(** [v.sort_by] with a partial key, which a vector of one element does not compute. *)
Definition sort_by_partial {A K} `{Ord K} (key : A → option K) (l : list A) : option (list A) :=
  match l with
  | [] | [_] => Some l
  | _ => keyed ← mapM (λ x, k ← key x; Some (k, x)) l; Some (sort_by fst keyed).*2
  end.
Definition sort_relationships (instances : list GraphInstance) (relationships : list GraphRelationship) :
    option (list GraphRelationship) :=
  sort_by_partial (relationship_order (identities_of instances)) relationships.
Definition native_availability (s : GraphSnapshot) : GraphAvailability :=
  mk_availability
    ((5 <=? snapshot_schema s)%Z || negb (bool_decide (roots (snapshot_lock s) = [])))
    (snapshot_named_root_bindings s) false false (9 <=? snapshot_schema s)%Z false false false.
Definition inspect (s : GraphSnapshot) : option GraphInspection :=
  let l := snapshot_lock s in
  instances ← mapM (λ entry, instance_of entry.1) (entries l);
  let instances := sort_by instance_identity instances in
  relationships ← sort_relationships instances
    (concat (dependency_relationships <$> entries l) ++ root_relationships l ++ binding_relationships l);
  Some (mk_inspection (snapshot_schema s) (snapshot_digest s) All (native_availability s)
          (mk_coverage true (length instances) (length relationships) 0 0) instances relationships).

(** ** Scoped inventory *)
Definition references_of (instances : list GraphInstance) : gset string :=
  list_to_set (instance_reference <$> instances).
Definition touches (selected : gset string) (edge : GraphRelationship) : bool :=
  bool_decide (relationship_target edge ∈ selected) ||
  match relationship_parent edge with Some p => bool_decide (p ∈ selected) | None => false end.
Definition restrict (scope : GraphScope) (r : GraphInspection) : GraphInspection :=
  let instances := base.filter (λ i, includes scope i = true) (inspection_instances r) in
  let relationships := base.filter (λ edge, touches (references_of instances) edge = true)
                         (inspection_relationships r) in
  let c := inspection_coverage r in
  mk_inspection (inspection_schema r) (inspection_digest r) scope (inspection_availability r)
    (mk_coverage (analysis_complete c) (total_instances c) (total_relationships c)
       (total_instances c - length instances) (total_relationships c - length relationships))
    instances relationships.
(** A panic of [inspect] is [Ok None]. *)
Definition inspect_scope (s : GraphSnapshot) (scope : GraphScope) :
    result SnapshotError (option GraphInspection) :=
  scope ← normalized scope;
  Ok (restrict scope <$> inspect s).
End snapshots.
