(* ===== verification/Comparison.v ===== *)
(** * tapid-lockfile: comparison of snapshots

    The differences between two native snapshots: instances, recorded selections and
    evidence, over everything or within a scope
    (crates/tapid-lockfile/src/inspection/comparison.rs). *)
From S2P Require Import Prelude Order RustStr Crates Samples Core LockKey Json Lockfile LockfileJson Snapshot.

Record GraphRelationshipChange := mk_change {
  change_before : option GraphRelationship;
  change_after : option GraphRelationship;
}.
Record GraphEvidenceChange := mk_evidence {
  evidence_dimension : string;
  evidence_subject : option string;
  evidence_before : gmap string string;
  evidence_after : gmap string string;
  attestation_changed : bool;
}.
Record GraphComparison := mk_comparison {
  selected_graph_supported : bool;
  unsupported_reason : option string;
  comparison_scope : GraphScope;
  before_digest : string;
  after_digest : string;
  before_availability : GraphAvailability;
  after_availability : GraphAvailability;
  before_coverage : GraphCoverage;
  after_coverage : GraphCoverage;
  added_instances : list GraphInstance;
  removed_instances : list GraphInstance;
  changed_selections : nat;
  relationship_changes : list GraphRelationshipChange;
  comparison_evidence : list GraphEvidenceChange;
}.

(** ** Evidence *)
(** The closure [record]. *)
Definition record (dimension : string) (subject : option string) (before after : gmap string string)
    (attestation : bool) : list GraphEvidenceChange :=
  if negb (bool_decide (before = after)) || attestation
  then [mk_evidence dimension subject before after attestation] else [].
Definition bool_text (b : bool) : string := if b then "true" else "false".
Definition artifact (p : LockedPackage) : gmap string string :=
  let evidence := btree_collect [("integrity", artifact_integrity p); ("tree_digest", tree_digest p);
                                 ("unpacked_digest", unpacked_digest p)] in
  let evidence := match artifact_url p with Some value => <["url" := value]> evidence | None => evidence end in
  match registry_integrity_declared p with
  | Some value => <["registry_integrity_declared" := bool_text value]> evidence
  | None => evidence
  end.
Fixpoint derived_from (index : nat) (hooks : list DerivedHookOutput) (evidence : gmap string string) :
    gmap string string :=
  match hooks with
  | [] => evidence
  | h :: hooks =>
      let prefix := pretty (N.of_nat index) in
      derived_from (S index) hooks
        (<[prefix +:+ ".tree_digest" := hook_tree_digest h]>
          (<[prefix +:+ ".recipe_key" := hook_key h]>
            (<[prefix +:+ ".hook" := hook h]> evidence)))
  end.
Definition derived (p : LockedPackage) : gmap string string := derived_from 0 (derived_hooks p) ∅.
Definition attestations (p : LockedPackage) : list (string * string) :=
  (λ h, (hook h, attestation h)) <$> derived_hooks p.
Definition manifest_evidence (digest : string) : gmap string string :=
  {["manifest_digest" := digest]}.

Section comparison.
Context `{SV : Semver} `{UC : UrlCrate} `{B64 : Base64} `{SH : Sha256} `{JC : JsonCodec}.

(** The changes of the entries that both maps hold. *)
Definition common_evidence {A} (change : string → A → A → list GraphEvidenceChange)
    (before after : gmap string A) : list GraphEvidenceChange :=
  concat ((λ entry, match after !! entry.1 with
                    | Some new => change entry.1 entry.2 new
                    | None => []
                    end) <$> btree_iter before).
Definition workspace_evidence (key : string) (old new : LockedWorkspacePackage) : list GraphEvidenceChange :=
  record "declarations" (Some (reference key)) (manifest_evidence (manifest_digest old))
    (manifest_evidence (manifest_digest new)) false.
Definition artifact_evidence (key : string) (old new : LockedPackage) : list GraphEvidenceChange :=
  record "source_artifact" (Some (reference key)) (artifact old) (artifact new) false.
Definition derived_evidence (key : string) (old new : LockedPackage) : list GraphEvidenceChange :=
  record "derived_outputs" (Some (reference key)) (derived old) (derived new)
    (negb (bool_decide (attestations old = attestations new))).
Definition supported (before after : GraphSnapshot) : bool :=
  eqb (snapshot_schema before =? 8)%Z (snapshot_schema after =? 8)%Z.
Definition evidence_changes (before after : GraphSnapshot) : list GraphEvidenceChange :=
  let old := snapshot_lock before in
  let new := snapshot_lock after in
  let root := record "declarations" None (manifest_evidence (root_manifest_digest old))
                (manifest_evidence (root_manifest_digest new)) false in
  if negb (supported before after) then root else
  root ++ common_evidence workspace_evidence (workspace_packages old) (workspace_packages new)
       ++ common_evidence artifact_evidence (packages old) (packages new)
       ++ common_evidence derived_evidence (packages old) (packages new).
Definition dimension_rank (dimension : string) : Z :=
  if str_eqb dimension "declarations" then 0
  else if str_eqb dimension "source_artifact" then 1
  else if str_eqb dimension "verification_receipts" then 2 else 3.
Definition evidence_key (identities : gmap string string) (change : GraphEvidenceChange) : Z * string :=
  (dimension_rank (evidence_dimension change),
   default "" (p ← evidence_subject change; identities !! p)).

(** ** Selections *)
Definition Site : Type := string * option string * option string * option string.
Definition by_identity (instances : list GraphInstance) : gmap string GraphInstance :=
  btree_collect ((λ i, (instance_identity i, i)) <$> instances).
(** The instances of [l] whose identity [l'] does not hold. *)
Definition only_in (l l' : list GraphInstance) : list GraphInstance :=
  snd <$> base.filter (λ entry, by_identity l' !! entry.1 = None) (btree_iter (by_identity l)).
Definition placements (instances : list GraphInstance) : gmap string string :=
  btree_collect (omap (λ i, path ← instance_placement i; Some (instance_reference i, path)) instances).
Definition site (placed : gmap string string) (edge : GraphRelationship) : Site :=
  (relationship_kind edge, (λ p, default p (placed !! p)) <$> relationship_parent edge,
   relationship_local_name edge,
   match relationship_local_name edge with None => Some (relationship_target edge) | Some _ => None end).
Definition comparable (before after : GraphAvailability) (edge : GraphRelationship) : bool :=
  if str_eqb (relationship_kind edge) "root_binding"
  then named_root_bindings before && named_root_bindings after
  else if str_eqb (relationship_kind edge) "root" then explicit_roots before && explicit_roots after
  else true.
Definition edges_by_site (placed : gmap string string) (keep : GraphRelationship → bool)
    (edges : list GraphRelationship) : gmap Site GraphRelationship :=
  btree_collect ((λ e, (site placed e, e)) <$> base.filter (λ e, keep e = true) edges).
Definition change_at (old new : gmap Site GraphRelationship) (s : Site) : list GraphRelationshipChange :=
  if bool_decide (old !! s = new !! s) then [] else [mk_change (old !! s) (new !! s)].
Definition changed_at (old new : gmap Site GraphRelationship) (s : Site) : nat :=
  if bool_decide (old !! s = new !! s) then 0
  else match s.1.2 with Some _ => 1 | None => 0 end.
Definition change_edge (change : GraphRelationshipChange) : option GraphRelationship :=
  match change_before change with Some e => Some e | None => change_after change end.
Definition change_order (identities : gmap string string) (change : GraphRelationshipChange) :
    option (Z * option string * option string * string) :=
  edge ← change_edge change; relationship_order identities edge.
(** The comparison of formats whose selections do not correspond. *)
Definition unsupported_comparison (before after : GraphInspection)
    (evidence : list GraphEvidenceChange) : GraphComparison :=
  mk_comparison false (Some "cross_format_selection_equivalence") All
    (inspection_digest before) (inspection_digest after)
    (inspection_availability before) (inspection_availability after)
    (inspection_coverage before) (inspection_coverage after) [] [] 0 [] evidence.
Definition compare_inspections (before after : GraphInspection)
    (evidence : list GraphEvidenceChange) : option GraphComparison :=
  let both := inspection_instances before ++ inspection_instances after in
  let placed := placements both in
  let keep := comparable (inspection_availability before) (inspection_availability after) in
  let old := edges_by_site placed keep (inspection_relationships before) in
  let new := edges_by_site placed keep (inspection_relationships after) in
  let sites := dedup (sort (btree_keys old ++ btree_keys new)) in
  let identities := identities_of both in
  changes ← sort_by_partial (change_order identities) (concat (change_at old new <$> sites));
  Some (mk_comparison true None All
          (inspection_digest before) (inspection_digest after)
          (inspection_availability before) (inspection_availability after)
          (inspection_coverage before) (inspection_coverage after)
          (only_in (inspection_instances after) (inspection_instances before))
          (only_in (inspection_instances before) (inspection_instances after))
          (foldr plus 0 (changed_at old new <$> sites))%nat changes
          (sort_by (evidence_key identities) evidence)).
Definition compare (self after : GraphSnapshot) : option GraphComparison :=
  let evidence := evidence_changes self after in
  before ← inspect self;
  next ← inspect after;
  if negb (supported self after) then Some (unsupported_comparison before next evidence)
  else compare_inspections before next evidence.

(** ** Comparison within a scope *)
Definition change_touches (selected : gset string) (change : GraphRelationshipChange) : bool :=
  match change_before change with Some e => touches selected e | None => false end ||
  match change_after change with Some e => touches selected e | None => false end.
Definition change_named (change : GraphRelationshipChange) : bool :=
  match change_edge change with
  | Some e => match relationship_local_name e with Some _ => true | None => false end
  | None => false
  end.
Definition evidence_selected (selected : gset string) (change : GraphEvidenceChange) : bool :=
  match evidence_subject change with Some p => bool_decide (p ∈ selected) | None => true end.
Definition select_comparison (before after : GraphInspection) (c : GraphComparison) : GraphComparison :=
  let selected := references_of (inspection_instances before ++ inspection_instances after) in
  let keep := λ i, instance_reference i ∈ selected in
  let changes := base.filter (λ change, change_touches selected change = true) (relationship_changes c) in
  mk_comparison (selected_graph_supported c) (unsupported_reason c) (inspection_scope before)
    (before_digest c) (after_digest c) (before_availability c) (after_availability c)
    (inspection_coverage before) (inspection_coverage after)
    (base.filter keep (added_instances c)) (base.filter keep (removed_instances c))
    (length (base.filter (λ change, change_named change = true) changes)) changes
    (base.filter (λ change, evidence_selected selected change = true) (comparison_evidence c)).
Definition compare_scope (self after : GraphSnapshot) (scope : GraphScope) :
    result SnapshotError (option GraphComparison) :=
  before ← inspect_scope self scope;
  next ← inspect_scope after scope;
  Ok (b ← before; n ← next; c ← compare self after; Some (select_comparison b n c)).
End comparison.
