(* ===== verification/SnapshotInv.v ===== *)
(** * Theorems of graph snapshots

    What opening a snapshot establishes, the exactness of the structural accounting, and
    what the inventory of a snapshot and its restriction to a scope contain
    (crates/tapid-lockfile/src/inspection.rs, inspection/preflight.rs). *)
From S2P Require Import Prelude Order RustStr Crates Samples Core LockKey Json Lockfile LockfileJson LockfileInv Snapshot.

(** ** Structural accounting *)
Definition add_counts (c d : Counts) : Counts :=
  mk_counts (count_instances c + count_instances d) (count_relationships c + count_relationships d).
Definition sum_counts (l : list Counts) : Counts := foldr add_counts (mk_counts 0 0) l.
Definition unit_of (role : Role) : Counts := bump role (mk_counts 0 0).
(** The recorded instances and relationships of a document: the entries of the objects and
    arrays in those roles. *)
Fixpoint weight (role : Role) (v : json) : Counts :=
  match v with
  | JObject fields =>
      sum_counts ((λ field, add_counts (unit_of role) (weight (child_role role field.1) field.2)) <$> fields)
  | JArray l => sum_counts ((λ value, add_counts (unit_of role) (weight RoleOther value)) <$> l)
  | _ => mk_counts 0 0
  end.
(** The levels of nesting. *)
Fixpoint levels (v : json) : Z :=
  match v with
  | JObject fields => 1 + foldr Z.max 0 ((λ field, levels field.2) <$> fields)
  | JArray l => 1 + foldr Z.max 0 (levels <$> l)
  | _ => 1
  end%Z.
Definition grows (c d : Counts) : Prop :=
  (count_instances c ≤ count_instances d ∧ count_relationships c ≤ count_relationships d)%Z.

#[export] Instance grows_preorder : PreOrder grows.
Proof. split; [by intros []|]. intros c d e [] []. split; lia. Qed.
Lemma counts_eq c d :
  count_instances c = count_instances d → count_relationships c = count_relationships d → c = d.
Proof. destruct c, d. cbn. by intros -> ->. Qed.
Ltac counts := unfold unit_of in *; cbn [add_counts bump count_instances count_relationships] in *; lia.
Lemma add_counts_assoc c d e : add_counts c (add_counts d e) = add_counts (add_counts c d) e.
Proof. apply counts_eq; counts. Qed.
Lemma add_counts_0 c : add_counts c (mk_counts 0 0) = c.
Proof. apply counts_eq; counts. Qed.
Lemma bump_add role c : bump role c = add_counts c (unit_of role).
Proof. destruct role; apply counts_eq; counts. Qed.
Lemma unit_grows role : grows (mk_counts 0 0) (unit_of role).
Proof. destruct role; split; counts. Qed.
Lemma grows_add c d e : grows (mk_counts 0 0) e → grows c d → grows c (add_counts d e).
Proof. intros [] []. split; counts. Qed.
Lemma sum_grows l : Forall (grows (mk_counts 0 0)) l → grows (mk_counts 0 0) (sum_counts l).
Proof.
  induction 1 as [|c l [] _ []]; [done|].
  change (sum_counts (c :: l)) with (add_counts c (sum_counts l)). split; counts.
Qed.
Lemma weight_grows role v : grows (mk_counts 0 0) (weight role v).
Proof.
  revert role. induction v as [| | | | |l IH|fields IH] using json_induction; intros role; try done.
  - cbn [weight]. apply sum_grows, Forall_fmap. eapply Forall_impl; [exact IH|]. intros v Hv.
    apply grows_add; [apply Hv|apply unit_grows].
  - cbn [weight]. apply sum_grows, Forall_fmap. eapply Forall_impl; [exact IH|]. intros [k v] Hv.
    apply grows_add; [apply Hv|apply unit_grows].
Qed.
Lemma exceeded_grows c d : grows c d → exceeded c = true → exceeded d = true.
Proof. intros []. unfold exceeded. rewrite !orb_true_iff, !Z.ltb_lt. lia. Qed.
Lemma levels_pos v : (1 ≤ levels v)%Z.
Proof.
  assert (∀ l, 0 ≤ foldr Z.max 0 l)%Z as Hmax by (induction l; cbn [foldr]; lia).
  destruct v; cbn [levels]; try lia.
  - pose proof (Hmax (levels <$> l)). lia.
  - pose proof (Hmax ((λ field : string * json, levels field.2) <$> fields)). lia.
Qed.

(** The visit of [v] from [c] against its reference. *)
Definition visited (r : result visit_error Counts) (deepest : Z) (c : Counts) : Prop :=
  match r with
  | Ok c' => c' = c ∧ (deepest ≤ 128)%Z ∧ exceeded c = false
  | Err Exceeded => exceeded c = true
  | Err Nested => (128 < deepest)%Z
  end.

Lemma visited_fold {A} (f : Counts → A → result visit_error Counts) (w : A → Counts) (h : A → Z)
    (d : Z) (l : list A) :
  Forall (λ x, ∀ c, exceeded c = false → visited (f c x) (d + h x) (add_counts c (w x))) l →
  Forall (λ x, grows (mk_counts 0 0) (w x)) l → (d ≤ 128)%Z →
  ∀ c, exceeded c = false →
    visited (try_fold f c l) (d + foldr Z.max 0 (h <$> l))%Z (add_counts c (sum_counts (w <$> l))).
Proof.
  intros Hf Hw Hd. induction Hf as [|x l Hx Hl IH]; intros c Hc; cbn [try_fold fmap list_fmap foldr].
  { unfold sum_counts. cbn [foldr]. rewrite add_counts_0. cbn. split_and!; [done|lia|done]. }
  inversion_clear Hw as [|? ? Gx Gl].
  change (sum_counts (w x :: (w <$> l))) with (add_counts (w x) (sum_counts (w <$> l))).
  rewrite add_counts_assoc. specialize (Hx c Hc). destruct (f c x) as [c'|[]]; cbn [mbind result_bind].
  - destruct Hx as (->&Hdx&Hex). specialize (IH Gl _ Hex).
    destruct (try_fold f _ l) as [c'|[]]; cbn [visited] in *; [|done|lia].
    destruct IH as (->&?&?). split_and!; [done|lia|done].
  - cbn [visited] in *. eapply exceeded_grows; [|exact Hx].
    assert (grows (mk_counts 0 0) (sum_counts (w <$> l))) as [] by (apply sum_grows; by apply Forall_fmap).
    split; counts.
  - cbn [visited] in *. lia.
Qed.
Lemma count_visited role c :
  exceeded c = false →
  match count role c with
  | Ok c' => c' = add_counts c (unit_of role) ∧ exceeded c' = false
  | Err Exceeded => exceeded (add_counts c (unit_of role)) = true
  | Err Nested => False
  end.
Proof.
  intros Hc. unfold count. rewrite bump_add. destruct (exceeded (add_counts c _)) eqn:E; [done|].
  split; [done|]. by rewrite E.
Qed.
Lemma node_visited v role depth c :
  exceeded c = false → visited (node v role depth c) (depth + levels v) (add_counts c (weight role v)).
Proof.
  revert role depth c. induction v as [| | | | |l IH|fields IH] using json_induction;
    intros role depth c Hc; cbn [node levels weight]; destruct (Z.leb_spec 128 depth) as [Hd|Hd];
    try (cbn [visited]; rewrite ?add_counts_0; split_and!; [done|lia|done]).
  1-5: cbn [visited]; lia.
  - cbn [visited]. pose proof (levels_pos (JArray l)) as H. cbn [levels] in H. lia.
  - rewrite Z.add_assoc. apply (visited_fold _ _ levels); [|apply Forall_true|lia|done].
    + eapply Forall_impl; [exact IH|]. clear c Hc. intros v Hv c Hc. specialize (Hv RoleOther (depth + 1)%Z c Hc).
      destruct (node v RoleOther (depth + 1) c) as [c'|[]]; cbn [mbind result_bind visited] in *.
      * destruct Hv as (->&Hl&He). pose proof (count_visited role _ He) as Hcount.
        assert (∀ a b, add_counts (add_counts c a) b = add_counts c (add_counts b a)) as Hcomm
          by (intros; apply counts_eq; counts).
        rewrite Hcomm in Hcount. destruct (count role _) as [c'|[]]; cbn [visited]; naive_solver.
      * eapply exceeded_grows; [|exact Hv]. pose proof (unit_grows role) as []. split; counts.
      * done.
    + intros v. apply grows_add; [apply weight_grows|apply unit_grows].
  - cbn [visited]. pose proof (levels_pos (JObject fields)) as H. cbn [levels] in H. lia.
  - rewrite Z.add_assoc. apply (visited_fold _ _ (λ field, levels field.2)); [|apply Forall_true|lia|done].
    + eapply Forall_impl; [exact IH|]. clear c Hc. intros [k v] Hv c Hc. cbn [fst snd] in *.
      pose proof (count_visited role c Hc) as Hcount.
      destruct (count role c) as [c'|[]]; cbn [mbind result_bind visited].
      * destruct Hcount as [-> He]. specialize (Hv (child_role role k) (depth + 1)%Z _ He).
        rewrite <-add_counts_assoc in Hv. done.
      * eapply exceeded_grows; [|exact Hcount]. pose proof (weight_grows (child_role role k) v) as []. split; counts.
      * done.
    + intros [k v]. apply grows_add; [apply weight_grows|apply unit_grows].
Qed.

(** The preflight of a document is exact although it stops at the first excess: it
    accepts precisely the documents with at most 100000 recorded instances, 500000
    recorded relationships and 128 levels of nesting; a document within the counts is
    never refused as too large, nor one within the levels as invalid. *)
Theorem preflight_check_spec (document : json) :
  let total := weight RoleRoot document in
  (preflight_check document = Ok () ↔
     (count_instances total ≤ MAX_INSTANCES)%Z ∧ (count_relationships total ≤ MAX_RELATIONSHIPS)%Z ∧
     (levels document ≤ 128)%Z) ∧
  (preflight_check document = Err AnalysisLimit →
     (MAX_INSTANCES < count_instances total)%Z ∨ (MAX_RELATIONSHIPS < count_relationships total)%Z) ∧
  (preflight_check document = Err InvalidSnapshot → (128 < levels document)%Z).
Proof.
  cbn zeta. pose proof (node_visited document RoleRoot 0 (mk_counts 0 0) eq_refl) as H.
  assert (add_counts (mk_counts 0 0) (weight RoleRoot document) = weight RoleRoot document) as E
    by (apply counts_eq; counts).
  rewrite E, Z.add_0_l in H. set (total := weight RoleRoot document) in *.
  assert (exceeded total = true ↔
    (MAX_INSTANCES < count_instances total)%Z ∨ (MAX_RELATIONSHIPS < count_relationships total)%Z) as Hex.
  { unfold exceeded. by rewrite orb_true_iff, !Z.ltb_lt. }
  unfold preflight_check. destruct (node _ _ _ _) as [c|[]]; cbn [visited] in H.
  - destruct H as (_&?&Hno). rewrite <-not_true_iff_false, Hex in Hno.
    split; [split; [lia|done]|]. split; discriminate.
  - apply Hex in H. split; [split; [discriminate|lia]|]. split; [done|discriminate].
  - split; [split; [discriminate|lia]|]. split; [discriminate|done].
Qed.

(** ** Sorting with a partial key *)
Definition key_below {A K} `{Ord K} (key : A → option K) (x y : A) : Prop :=
  ∃ k k', key x = Some k ∧ key y = Some k' ∧ le_of k k'.
Lemma sort_by_partial_spec {A K} `{OrdLaws K} (key : A → option K) (l : list A) :
  (∀ x, x ∈ l → is_Some (key x)) →
  ∃ l', sort_by_partial key l = Some l' ∧ l' ≡ₚ l ∧ StronglySorted (key_below key) l'.
Proof.
  intros Hkey. unfold sort_by_partial.
  assert (∃ keyed, mapM (λ x, k ← key x; Some (k, x)) l = Some keyed ∧ keyed.*2 = l ∧
            Forall (λ kx, key kx.2 = Some kx.1) keyed) as (keyed&E&El&Hk).
  { clear - Hkey. induction l as [|x l IH]; [by exists []|].
    destruct IH as (keyed&E&El&Hk); [intros; apply Hkey; by right|].
    destruct (Hkey x) as [k Hx]; [by left|]. exists ((k, x) :: keyed). cbn. rewrite Hx. cbn.
    rewrite E. cbn. split_and!; [done|by f_equal|by constructor]. }
  assert ((sort_by fst keyed).*2 ≡ₚ l ∧ StronglySorted (key_below key) (sort_by fst keyed).*2) as [Hp Hs].
  { split; [rewrite sort_by_perm; by rewrite El|].
    pose proof (sort_by_sorted fst keyed) as Hs.
    assert (Forall (λ kx, key kx.2 = Some kx.1) (sort_by fst keyed)) as Hks
      by (eapply Permutation_Forall; [symmetry; apply sort_by_perm|done]).
    induction Hs as [|[k x] rest Hs IH Hx]; [constructor|]. inversion_clear Hks as [|? ? Hkx Hrest].
    cbn. constructor; [by apply IH|]. apply Forall_fmap. rewrite Forall_forall in Hx, Hrest |- *.
    intros [k' y] Hy. exists k, k'. split_and!; [done|exact (Hrest (k', y) Hy)|exact (Hx (k', y) Hy)]. }
  destruct l as [|x [|y l]].
  - exists []. split_and!; [done..|constructor].
  - exists [x]. split_and!; [done..|by repeat constructor].
  - rewrite E. by eexists.
Qed.

Section snapshot_inv.
Context `{SV : Semver} `{SL : !SemverLaws} `{UC : UrlCrate} `{UL : !UrlLaws} `{B64 : Base64}
  `{SH : Sha256} `{JC : JsonCodec}.
Implicit Types (l : Lockfile) (s : GraphSnapshot).

(** ** Opening *)
Record snapshot_ok s : Prop := {
  so_lock : lock_inv (snapshot_lock s);
  so_schema : snapshot_schema s = lockfile_version (snapshot_lock s);
  so_named : snapshot_named_root_bindings s = false → lf_root_bindings (snapshot_lock s) = ∅;
  so_instances : (lock_instances (snapshot_lock s) ≤ MAX_INSTANCES)%Z;
  so_relationships : (lock_relationships (snapshot_lock s) ≤ MAX_RELATIONSHIPS)%Z;
}.
Lemma from_json_read input l :
  from_json input = Ok l →
  ∃ v l0, json_parse input = Some v ∧ read_lockfile v = Some l0 ∧
    lockfile_version l = lockfile_version l0 ∧ lf_root_bindings l = lf_root_bindings l0.
Proof.
  unfold from_json. intros (l0&Hread&H)%bind_Ok. apply lifted_Ok, ok_or_Ok, bind_Some in Hread as (v&Hv&Hl0).
  apply guard_Ok in H as [_ H]. apply bind_Ok in H as (d&_&H).
  apply bind_Ok in H as ([]&_&H). apply bind_Ok in H as (l1&[-> _]%rebind_Ok&H).
  apply bind_Ok in H as ([]&_&[= <-]). by exists v, l0.
Qed.
Lemma object_fields_lookup fields specs values i name p :
  struct_fields false specs (JObject fields) = Some values → specs !! i = Some (name, p) →
  ∃ value, values !! i = Some value ∧ object_field fields (name, p) = Some value.
Proof. cbn. intros Hall%mapM_Some Hi. destruct (Forall2_lookup_l _ _ _ _ _ Hall Hi) as (value&?&?). by exists value. Qed.
Lemma object_field_presence fields name p p' value :
  object_field fields (name, p) = Some (Some value) → object_field fields (name, p') = Some (Some value).
Proof. unfold object_field. cbn. destruct (base.filter _ fields) as [|[] [|]]; by destruct p. Qed.
Lemma read_format_lockfile v version bindings l :
  read_format v = Some (version, bindings) → read_lockfile v = Some l →
  version = Some (lockfile_version l) ∧ (bindings = false → lf_root_bindings l = ∅).
Proof.
  unfold read_format, read_lockfile. intros (fs&Hfs&H)%bind_Some (ls&Hls&Hl)%bind_Some.
  destruct v as [| | | | |values|fields]; try done.
  { cbn in Hfs, Hls. destruct values as [|? [|? [|]]]; discriminate. }
  destruct (object_fields_lookup _ _ _ 0 "lockfileVersion" Optional Hfs eq_refl) as (f0&F0&O0).
  destruct (object_fields_lookup _ _ _ 1 "rootBindings" Optional Hfs eq_refl) as (f1&F1&O1).
  destruct (object_fields_lookup _ _ _ 0 "lockfileVersion" Required Hls eq_refl) as (l0&L0&P0).
  destruct (object_fields_lookup _ _ _ 5 "rootBindings" Defaulted Hls eq_refl) as (l5&L5&P5).
  clear Hfs Hls.
  destruct fs as [|f0' [|f1' [|]]]; try discriminate. injection F0 as ->. injection F1 as ->.
  destruct ls as [|l0' [|? [|? [|? [|? [|l5' [|? [|? [|]]]]]]]]]; try discriminate.
  injection L0 as ->. injection L5 as ->.
  apply bind_Some in H as (ver&Hver&[= <- <-]).
  apply bind_Some in Hl as (n&Hn&Hl). do 4 (apply bind_Some in Hl as (?&_&Hl)).
  apply bind_Some in Hl as (b&Hb&Hl). do 2 (apply bind_Some in Hl as (?&_&Hl)). injection Hl as <-. cbn.
  destruct l0 as [v0|]; [|done]. apply (object_field_presence _ _ _ Optional) in P0.
  rewrite P0 in O0. injection O0 as <-. cbn in Hver, Hn. split.
  - destruct v0; try discriminate; cbn in Hver, Hn; rewrite Hn in Hver; by injection Hver as <-.
  - intros Hnone. destruct l5 as [v5|].
    + apply (object_field_presence _ _ _ Optional) in P5. rewrite P5 in O1. injection O1 as <-.
      by destruct v5.
    + by injection Hb as <-.
Qed.
Lemma from_bytes_ok bytes s : from_bytes bytes = Ok (NativeSnapshot s) → snapshot_ok s.
Proof.
  unfold from_bytes. destruct (_ <? _)%Z; [done|]. intros (v&Hv&H)%bind_Ok.
  apply ok_or_Ok in Hv. apply bind_Ok in H as ([version bindings]&Hf%ok_or_Ok&H).
  apply bind_Ok in H as (schema&Hschema%ok_or_Ok&H). destruct (negb _); [done|].
  apply bind_Ok in H as (_&_&H). destruct (negb _); [done|]. destruct (schema =? 8)%Z; [done|].
  apply bind_Ok in H as (l&Hl%map_err_Ok&H).
  destruct (_ || _) eqn:Hlimit; [done|]. injection H as <-.
  destruct (from_json_read _ _ Hl) as (v'&l0&Hv'&Hread&Hver&Hbind).
  assert (v' = v) as -> by congruence.
  destruct (read_format_lockfile _ _ _ _ Hf Hread) as [Hn Hb].
  apply orb_false_iff in Hlimit as [Hi%Z.ltb_ge Hr%Z.ltb_ge]. split; cbn.
  - by eapply parsed_inv.
  - congruence.
  - intros ?%Hb. congruence.
  - done.
  - done.
Qed.

(** ** Inventory *)
Lemma elem_of_entries l key dependencies :
  (key, dependencies) ∈ entries l ↔
  (∃ p, packages l !! key = Some p ∧ dependencies = lp_dependencies p) ∨
  (∃ w, workspace_packages l !! key = Some w ∧ dependencies = wp_dependencies w).
Proof.
  unfold entries. rewrite elem_of_app, !list_elem_of_fmap. split.
  - intros [([k p]&[= -> ->]&Hin%elem_of_btree_iter)|([k w]&[= -> ->]&Hin%elem_of_btree_iter)]; naive_solver.
  - intros [(p&Hp&->)|(w&Hw&->)]; [left; exists (key, p)|right; exists (key, w)]; by rewrite elem_of_btree_iter.
Qed.
Lemma entries_keys l key : key ∈ (entries l).*1 ↔ contains_package_key l key = true.
Proof.
  rewrite contains_package_key_true, list_elem_of_fmap. split.
  - intros ([k ds]&->&[(p&?&_)|(w&?&_)]%elem_of_entries); [left|right]; by eexists.
  - intros [[p Hp]|[w Hw]].
    + exists (key, lp_dependencies p). rewrite elem_of_entries. naive_solver.
    + exists (key, wp_dependencies w). rewrite elem_of_entries. naive_solver.
Qed.
Lemma package_not_workspace l key p w :
  lock_inv l → packages l !! key = Some p → workspace_packages l !! key ≠ Some w.
Proof.
  intros Hl Hp%li_packages Hw%li_workspaces; [|done..].
  apply package_ok_key in Hp as (k&Hk&_&_&Hs). apply workspace_package_ok_key in Hw as (k'&Hk'&_&Hs').
  congruence.
Qed.
Lemma package_entries_NoDup l : lock_inv l → NoDup (entries l).*1.
Proof.
  intros Hl. unfold entries. rewrite fmap_app, <-!list_fmap_compose. apply NoDup_app. split_and!.
  - apply sorted_lt_NoDup, (btree_keys_ascending (packages l)).
  - intros key ([k p]&->&Hp%elem_of_btree_iter)%list_elem_of_fmap ([k' w]&E&Hw%elem_of_btree_iter)%list_elem_of_fmap.
    cbn in E, Hp, Hw. subst k'. by eapply package_not_workspace.
  - apply sorted_lt_NoDup, (btree_keys_ascending (workspace_packages l)).
Qed.
Lemma contained_instance l key :
  lock_inv l → contains_package_key l key = true →
  ∃ i, instance_of key = Some i ∧ instance_identity i = key ∧ instance_reference i = reference key.
Proof.
  intros Hl Hc. destruct (contained_key_parses l key Hl Hc) as (k&Hk&_). unfold instance_of.
  rewrite Hk. by eexists.
Qed.
(** The target or parent of an edge is an instance of [l]. *)
Definition edge_within l (e : GraphRelationship) : Prop :=
  (∃ key, contains_package_key l key = true ∧ relationship_target e = reference key) ∧
  (∀ p, relationship_parent e = Some p → ∃ key, contains_package_key l key = true ∧ p = reference key).
Definition all_relationships l : list GraphRelationship :=
  concat (dependency_relationships <$> entries l) ++ root_relationships l ++ binding_relationships l.
Lemma entry_target l key dependencies name target :
  lock_inv l → (key, dependencies) ∈ entries l → dependencies !! name = Some target →
  contains_package_key l target = true.
Proof.
  intros Hl [(p&Hp&->)|(w&Hw&->)]%elem_of_entries; [by eapply package_target|by eapply workspace_target].
Qed.
Lemma relationships_within l e : lock_inv l → e ∈ all_relationships l → edge_within l e.
Proof.
  intros Hl. unfold all_relationships. rewrite !elem_of_app. intros [He|[He|He]].
  - apply elem_of_concat_fmap in He as ([key ds]&Hin&He).
    apply list_elem_of_fmap in He as ([name target]&->&Hd%elem_of_btree_iter). split; cbn.
    + exists target. split; [by eapply entry_target|done].
    + intros p [= <-]. exists key. split; [|done]. apply entries_keys, list_elem_of_fmap. by exists (key, ds).
  - apply list_elem_of_fmap in He as (target&->&Ht). split; [|done]. exists target.
    split; [by apply li_root|done].
  - apply list_elem_of_fmap in He as ([name target]&->&Hb%elem_of_btree_iter). split; [|done]. exists target.
    split; [|done]. apply li_root; [done|]. by eapply li_binding.
Qed.
Lemma identities_of_present instances e :
  relationship_target e ∈ references_of instances →
  (∀ p, relationship_parent e = Some p → p ∈ references_of instances) →
  is_Some (relationship_order (identities_of instances) e).
Proof.
  assert (∀ r, r ∈ references_of instances → is_Some (identities_of instances !! r)) as Hids.
  { unfold references_of. intros r (i&->&Hi)%elem_of_list_to_set%list_elem_of_fmap.
    eapply btree_collect_is_Some, list_elem_of_fmap. by exists i. }
  intros Ht Hp. unfold relationship_order. destruct (Hids _ Ht) as [t ->].
  destruct (relationship_parent e) as [p|]; cbn; [|by eexists].
  destruct (Hids p (Hp p eq_refl)) as [x ->]. cbn. by eexists.
Qed.
Lemma edge_within_present l instances e :
  (∀ key, contains_package_key l key = true → reference key ∈ references_of instances) →
  edge_within l e →
  relationship_target e ∈ references_of instances ∧
  ∀ p, relationship_parent e = Some p → p ∈ references_of instances.
Proof.
  intros Hall [(key&Hkey&->) Hp]. split; [by apply Hall|]. intros p (k&Hk&->)%Hp. by apply Hall.
Qed.

(** The whole inventory of a snapshot of a valid lockfile. *)
Record inventory s (r : GraphInspection) : Prop := {
  inv_header : inspection_schema r = snapshot_schema s ∧ inspection_digest r = snapshot_digest s ∧
    inspection_scope r = All ∧ inspection_availability r = native_availability s;
  inv_sorted : StronglySorted (λ i j, lt_of (instance_identity i) (instance_identity j)) (inspection_instances r);
  inv_instances i : i ∈ inspection_instances r ↔
    contains_package_key (snapshot_lock s) (instance_identity i) = true ∧
    instance_of (instance_identity i) = Some i;
  inv_relationships : inspection_relationships r ≡ₚ all_relationships (snapshot_lock s);
  inv_ordered : StronglySorted (key_below (relationship_order (identities_of (inspection_instances r))))
    (inspection_relationships r);
  inv_coverage : inspection_coverage r =
    mk_coverage true (length (inspection_instances r)) (length (inspection_relationships r)) 0 0;
}.
Lemma instance_of_identity key i : instance_of key = Some i → instance_identity i = key.
Proof. by intros (k&_&[= <-])%bind_Some. Qed.
Lemma mapM_instances l :
  lock_inv l →
  ∃ found, mapM (λ entry, instance_of entry.1) (entries l) = Some found ∧
    instance_identity <$> found = (entries l).*1 ∧
    ∀ i, i ∈ found ↔ contains_package_key l (instance_identity i) = true ∧ instance_of (instance_identity i) = Some i.
Proof.
  intros Hl.
  assert (∀ es : list (string * gmap string string), (∀ e, e ∈ es → contains_package_key l e.1 = true) →
    ∃ found, mapM (λ entry, instance_of entry.1) es = Some found ∧ instance_identity <$> found = es.*1 ∧
      ∀ i, i ∈ found ↔ instance_identity i ∈ es.*1 ∧ instance_of (instance_identity i) = Some i) as Hes.
  { induction es as [|[k ds] es IH]; intros Hes.
    - exists []. split_and!; [done..|]. intros i. cbn. rewrite !elem_of_nil. naive_solver.
    - destruct IH as (found&E&Eids&His); [intros; apply Hes; by right|].
      destruct (contained_instance l k) as (i&Hi&Hid&_); [done|by apply (Hes (k, ds)); left|].
      exists (i :: found). cbn. rewrite Hi. cbn. rewrite E. cbn. split_and!; [done|by f_equal|].
      intros j. rewrite !elem_of_cons, His. split; [|].
      + intros [-> | [? ?]]; [|naive_solver]. rewrite Hid. naive_solver.
      + intros [[Hj|?] Hof]; [|naive_solver]. left. rewrite Hj in Hof. congruence. }
  destruct (Hes (entries l)) as (found&E&Eids&His).
  { intros e He. apply entries_keys, list_elem_of_fmap. by exists e. }
  exists found. split_and!; [done..|]. intros i. by rewrite His, entries_keys.
Qed.
Lemma inspect_inventory s : lock_inv (snapshot_lock s) → ∃ r, inspect s = Some r ∧ inventory s r.
Proof.
  intros Hl. destruct (mapM_instances _ Hl) as (found&E&Eids&His). unfold inspect. rewrite E. cbn [mbind option_bind].
  set (sorted := sort_by instance_identity found).
  assert (∀ i, i ∈ sorted ↔ i ∈ found) as Hsorted by (intros; apply elem_of_sort_by).
  destruct (sort_by_partial_spec (relationship_order (identities_of sorted)) (all_relationships (snapshot_lock s)))
    as (rs&Er&Hperm&Hrs).
  { intros e He. destruct (edge_within_present (snapshot_lock s) sorted e) as [Ht Hp].
    - intros key Hkey. destruct (contained_instance _ _ Hl Hkey) as (i&Hi&Hid&<-).
      unfold references_of. apply elem_of_list_to_set, list_elem_of_fmap_2, Hsorted, His. by rewrite Hid.
    - by apply relationships_within.
    - by apply identities_of_present. }
  unfold sort_relationships. unfold all_relationships in Er. rewrite Er. eexists. split; [reflexivity|].
  split; cbn; try done.
  - apply sorted_by_strict; [apply sort_by_sorted|]. unfold sorted. rewrite sort_by_perm, Eids. by apply package_entries_NoDup.
  - intros i. by rewrite Hsorted, His.
Qed.
Lemma inventory_reference s r key :
  lock_inv (snapshot_lock s) → inventory s r → contains_package_key (snapshot_lock s) key = true →
  reference key ∈ references_of (inspection_instances r).
Proof.
  intros Hl Hinv Hkey. destruct (contained_instance _ _ Hl Hkey) as (i&Hi&Hid&<-).
  unfold references_of. apply elem_of_list_to_set, list_elem_of_fmap_2, (inv_instances _ _ Hinv). by rewrite Hid.
Qed.
Lemma inventory_complete s r e :
  lock_inv (snapshot_lock s) → inventory s r → e ∈ inspection_relationships r →
  relationship_target e ∈ references_of (inspection_instances r) ∧
  ∀ p, relationship_parent e = Some p → p ∈ references_of (inspection_instances r).
Proof.
  intros Hl Hinv He. rewrite (inv_relationships _ _ Hinv) in He.
  apply (edge_within_present (snapshot_lock s)); [intros; by eapply inventory_reference|by apply relationships_within].
Qed.

(** Every native snapshot that opens holds a lockfile that satisfies the lockfile
    invariant, of the announced schema and within the limits of instances and
    relationships, and its inventory never fails: it lists each locked package and
    workspace member exactly once, in the order of the identities, and precisely the
    recorded relationships - dependencies, roots and bindings - sorted; both ends of a
    relationship are listed instances, and the coverage totals are the lengths. *)
Theorem snapshot_inventory bytes s :
  from_bytes bytes = Ok (NativeSnapshot s) →
  snapshot_ok s ∧ ∃ r, inspect s = Some r ∧ inventory s r ∧
    NoDup (inspection_instances r) ∧
    (Z.of_nat (length (inspection_instances r)) ≤ MAX_INSTANCES)%Z ∧
    ∀ e, e ∈ inspection_relationships r →
      relationship_target e ∈ references_of (inspection_instances r) ∧
      ∀ p, relationship_parent e = Some p → p ∈ references_of (inspection_instances r).
Proof.
  intros Hs%from_bytes_ok. split; [done|]. pose proof (so_lock _ Hs) as Hl.
  destruct (inspect_inventory s Hl) as (r&Hr&Hinv). exists r. split; [done|]. split; [done|].
  assert (NoDup (instance_identity <$> inspection_instances r)) as Hnd.
  { apply sorted_lt_NoDup. pose proof (inv_sorted _ _ Hinv) as Hsort. clear - Hsort.
    induction Hsort as [|i found _ IH Hi]; cbn; constructor; [done|]. by apply Forall_fmap. }
  split; [by eapply NoDup_fmap_1|]. split; [|intros e He; by eapply inventory_complete].
  etrans; [|apply (so_instances _ Hs)]. unfold lock_instances.
  rewrite <-(length_fmap instance_identity), <-!length_btree_iter, <-Nat2Z.inj_add.
  apply Nat2Z.inj_le. erewrite <-(length_fmap fst (btree_iter (packages _))), <-(length_fmap fst (btree_iter (workspace_packages _))).
  rewrite <-length_app. apply submseteq_length, NoDup_submseteq; [done|].
  intros key (i&->&[Hc _]%(inv_instances _ _ Hinv))%list_elem_of_fmap.
  apply entries_keys in Hc. unfold entries in Hc. by rewrite fmap_app, <-!list_fmap_compose in Hc.
Qed.

(** ** Scopes *)
(** What a scope selects, before it is normalised. *)
Definition selects (scope : GraphScope) (i : GraphInstance) : Prop :=
  match scope with
  | All => True
  | Packages values => instance_name i ∈ values
  | Instances values => instance_reference i ∈ values
  end.
Lemma elem_of_sorted_values (values : list string) v : v ∈ dedup (sort values) ↔ v ∈ values.
Proof. by rewrite elem_of_dedup, sort_perm. Qed.
Lemma normalized_Ok scope scope' :
  normalized scope = Ok scope' → (∀ i, includes scope' i = true ↔ selects scope i) ∧ (scope = All ↔ scope' = All).
Proof.
  unfold normalized. destruct scope as [|values|values]; cbn [scope_values].
  - by intros [= <-].
  - destruct (oversized_scope values); [done|]. intros [= <-]. split; [|done]. intros i. cbn [includes selects].
    unfold binary_search. rewrite bool_decide_eq_true. apply elem_of_sorted_values.
  - destruct (oversized_scope values); [done|]. intros [= <-]. split; [|done]. intros i. cbn [includes selects].
    unfold binary_search. rewrite bool_decide_eq_true. apply elem_of_sorted_values.
Qed.
Lemma normalized_Err scope e :
  normalized scope = Err e ↔ e = InvalidScope ∧ scope ≠ All ∧ oversized_scope (scope_values scope) = true.
Proof.
  unfold normalized. destruct scope; [naive_solver|..]; destruct (oversized_scope _); naive_solver.
Qed.
Lemma touches_true selected e :
  touches selected e = true ↔
  relationship_target e ∈ selected ∨ ∃ p, relationship_parent e = Some p ∧ p ∈ selected.
Proof.
  unfold touches. rewrite orb_true_iff, bool_decide_eq_true.
  destruct (relationship_parent e); rewrite ?bool_decide_eq_true; naive_solver.
Qed.
Lemma restrict_all s r :
  lock_inv (snapshot_lock s) → inventory s r → restrict All r = r.
Proof.
  intros Hl Hinv. unfold restrict. 
  assert (base.filter (λ i, includes All i = true) (inspection_instances r) = inspection_instances r) as ->
    by (by apply filter_all).
  rewrite filter_all.
  2: { intros e He. apply touches_true. left. exact (proj1 (inventory_complete s r e Hl Hinv He)). }
  pose proof (inv_coverage _ _ Hinv) as Hc. pose proof (inv_header _ _ Hinv) as (_&_&Hs&_).
  destruct r as [sc di scp av cov its rs]. cbn in *. subst. cbn. by rewrite !Nat.sub_diag.
Qed.

(** Restricting the inventory to a scope fails only for a scope with more than 64
    values or a value of more than 4096 bytes.  Otherwise it lists, in their order,
    exactly the instances whose package name or reference the scope gives, and exactly
    the relationships with an end among them; included and excluded records add up to
    the unchanged totals, and the scope of everything gives the whole inventory. *)
Theorem inspect_scope_spec s scope :
  lock_inv (snapshot_lock s) →
  ∃ whole, inspect s = Some whole ∧
  match inspect_scope s scope with
  | Err e => e = InvalidScope ∧ scope ≠ All ∧ oversized_scope (scope_values scope) = true
  | Ok None => False
  | Ok (Some r) =>
      inspection_instances r `sublist_of` inspection_instances whole ∧
      inspection_relationships r `sublist_of` inspection_relationships whole ∧
      (∀ i, i ∈ inspection_instances r ↔ i ∈ inspection_instances whole ∧ selects scope i) ∧
      (∀ e, e ∈ inspection_relationships r ↔ e ∈ inspection_relationships whole ∧
         ∃ i, i ∈ inspection_instances r ∧
           (relationship_target e = instance_reference i ∨ relationship_parent e = Some (instance_reference i))) ∧
      let c := inspection_coverage r in
      total_instances c = length (inspection_instances whole) ∧
      total_relationships c = length (inspection_relationships whole) ∧
      (excluded_instances c + length (inspection_instances r) = total_instances c)%nat ∧
      (excluded_relationships c + length (inspection_relationships r) = total_relationships c)%nat ∧
      (scope = All → r = whole)
  end.
Proof.
  intros Hl. destruct (inspect_inventory s Hl) as (whole&Hr&Hinv). exists whole. split; [done|].
  unfold inspect_scope. destruct (normalized scope) as [scope'|e] eqn:Hn; [|by apply normalized_Err].
  cbn [mbind result_bind]. rewrite Hr. cbn [fmap option_fmap option_map].
  pose proof (inv_coverage _ _ Hinv) as Hc. apply normalized_Ok in Hn as [Hinc Hall].
  set (r := restrict scope' whole).
  assert (inspection_instances r `sublist_of` inspection_instances whole) as Hsi by apply filter_sublist.
  assert (inspection_relationships r `sublist_of` inspection_relationships whole) as Hsr by apply filter_sublist.
  split; [done|]. split; [done|]. split; [|split].
  - intros i. cbn. rewrite list_elem_of_filter, Hinc. naive_solver.
  - intros e. cbn. rewrite list_elem_of_filter, touches_true. unfold references_of.
    rewrite elem_of_list_to_set. setoid_rewrite elem_of_list_to_set. setoid_rewrite list_elem_of_fmap. naive_solver.
  - apply sublist_length in Hsi, Hsr. cbn zeta. subst r. cbn in *. rewrite Hc in *. cbn in *.
    split_and!; [done|done|lia|lia|]. intros ->%Hall. by eapply restrict_all.
Qed.
End snapshot_inv.

(** *** Samples *)
Definition rooted_snapshot : GraphSnapshot :=
  mk_snapshot rooted_lockfile LOCKFILE_VERSION false ("sha256-" +:+ sha256_hex rooted_text).
Lemma rooted_from_bytes : from_bytes rooted_text = Ok (NativeSnapshot rooted_snapshot).
Proof.
  assert (json_parse rooted_text = Some (write_lockfile rooted_lockfile)) as Hparse.
  { apply json_parse_pretty. vm_compute. reflexivity. }
  assert ((MAX_INPUT_BYTES <? Z.of_nat (String.length rooted_text))%Z = false) as Hlen by (vm_compute; reflexivity).
  assert (read_format (write_lockfile rooted_lockfile) = Some (Some LOCKFILE_VERSION, false)) as Hformat
    by (vm_compute; reflexivity).
  assert (preflight_check (write_lockfile rooted_lockfile) = Ok ()) as Hpre by (vm_compute; reflexivity).
  assert (utf8_valid rooted_text = true) as Hutf by (vm_compute; reflexivity).
  assert ((MAX_INSTANCES <? lock_instances rooted_lockfile)%Z
          || (MAX_RELATIONSHIPS <? lock_relationships rooted_lockfile)%Z = false) as Hlimit
    by (vm_compute; reflexivity).
  unfold from_bytes. rewrite Hlen, Hparse. cbn [ok_or mbind result_bind]. rewrite Hformat.
  cbn [ok_or mbind result_bind]. rewrite Hpre. cbn [mbind result_bind]. rewrite Hutf.
  rewrite rooted_from_json. cbn [map_err mbind result_bind]. rewrite Hlimit. reflexivity.
Qed.
Lemma snapshot_inventory_witness :
  ∃ r, inspect rooted_snapshot = Some r ∧ NoDup (inspection_instances r).
Proof.
  destruct (snapshot_inventory rooted_text rooted_snapshot rooted_from_bytes) as (_&r&Hr&_&Hnd&_).
  exists r. split; [exact Hr|exact Hnd].
Defined.
Lemma rooted_snapshot_ok : snapshot_ok rooted_snapshot.
Proof. exact (from_bytes_ok rooted_text rooted_snapshot rooted_from_bytes). Qed.
Lemma inspect_scope_spec_witness :
  ∃ whole, inspect rooted_snapshot = Some whole ∧
    match inspect_scope rooted_snapshot (Packages ["left-pad"]) with
    | Ok (Some r) => ∀ i, i ∈ inspection_instances r ↔
        i ∈ inspection_instances whole ∧ selects (Packages ["left-pad"]) i
    | _ => False
    end.
Proof.
  pose proof (inspect_scope_spec rooted_snapshot (Packages ["left-pad"]) (so_lock _ rooted_snapshot_ok))
    as (whole&Hwhole&H).
  exists whole. split; [exact Hwhole|].
  destruct (inspect_scope rooted_snapshot (Packages ["left-pad"])) as [[r|]|e].
  - exact (proj1 (proj2 (proj2 H))).
  - exact H.
  - destruct H as (_&_&H). vm_compute in H. discriminate H.
Defined.
(** What the inventory and a scope of it look like; the digest does not matter. *)
Definition undigested_snapshot : GraphSnapshot := mk_snapshot rooted_lockfile LOCKFILE_VERSION false "".
Example rooted_inventory :
  (λ r, (instance_name <$> inspection_instances r, relationship_kind <$> inspection_relationships r))
    <$> inspect undigested_snapshot =
  Some (["acme"; "left-pad"; "@acme/app"], ["root"; "root"; "dependency"; "dependency"]).
Proof. vm_compute. reflexivity. Qed.
Example scoped_inventory :
  match inspect_scope undigested_snapshot (Packages ["acme"]) with
  | Ok (Some r) => Some (instance_name <$> inspection_instances r, inspection_coverage r)
  | _ => None
  end = Some (["acme"], mk_coverage true 3 4 2 2).
Proof. vm_compute. reflexivity. Qed.
