(* ===== verification/ComparisonInv.v ===== *)
(** * Theorems of the comparison of snapshots

    Totality, the meaning of the reported differences, the comparison of a snapshot with
    itself and the comparison within a scope
    (crates/tapid-lockfile/src/inspection/comparison.rs). *)
From S2P Require Import Prelude Order RustStr Crates Samples Core LockKey Json Lockfile LockfileJson LockfileInv.
From S2P Require Import Snapshot SnapshotInv Comparison.

Definition named_count (changes : list GraphRelationshipChange) : nat :=
  length (base.filter (λ change, change_named change = true) changes).

(** ** Changes by site *)
Section sites.
Context (placed : gmap string string) (keep : GraphRelationship → bool).
Context (before after : list GraphRelationship).
Notation old := (edges_by_site placed keep before).
Notation new := (edges_by_site placed keep after).
Definition site_list : list Site := dedup (sort (btree_keys old ++ btree_keys new)).
Definition site_changes : list GraphRelationshipChange := concat (change_at old new <$> site_list).

Lemma edges_by_site_Some edges s e :
  edges_by_site placed keep edges !! s = Some e → e ∈ edges ∧ keep e = true ∧ site placed e = s.
Proof.
  intros (e'&[= -> ->]&[Hk He]%list_elem_of_filter)%btree_collect_elem%list_elem_of_fmap. done.
Qed.
Lemma edges_by_site_is_Some edges e :
  e ∈ edges → keep e = true → is_Some (edges_by_site placed keep edges !! site placed e).
Proof.
  intros He Hk. eapply btree_collect_is_Some, list_elem_of_fmap. exists e. split; [done|].
  by apply list_elem_of_filter.
Qed.
Lemma elem_of_site_list s : s ∈ site_list ↔ is_Some (old !! s) ∨ is_Some (new !! s).
Proof. unfold site_list. by rewrite elem_of_dedup, sort_perm, elem_of_app, !elem_of_btree_keys. Qed.
Lemma elem_of_site_changes change :
  change ∈ site_changes ↔
  ∃ s, change = mk_change (old !! s) (new !! s) ∧ old !! s ≠ new !! s.
Proof.
  unfold site_changes. rewrite elem_of_concat_fmap. unfold change_at. split.
  - intros (s&Hs&Hc). case_bool_decide; [by apply not_elem_of_nil in Hc|].
    apply list_elem_of_singleton in Hc as ->. by exists s.
  - intros (s&->&Hne). exists s. rewrite elem_of_site_list, bool_decide_eq_false_2 by done.
    split; [|by left]. destruct (old !! s), (new !! s); naive_solver.
Qed.
Lemma change_edge_site s e :
  change_edge (mk_change (old !! s) (new !! s)) = Some e → (e ∈ before ∨ e ∈ after) ∧ site placed e = s.
Proof.
  unfold change_edge. cbn. destruct (old !! s) as [e'|] eqn:Ho.
  - intros [= ->]. apply edges_by_site_Some in Ho as (?&_&?). naive_solver.
  - intros (?&_&?)%edges_by_site_Some. naive_solver.
Qed.
Lemma site_changes_count : foldr plus 0 (changed_at old new <$> site_list) = named_count site_changes.
Proof.
  unfold site_changes, named_count. assert (∀ s, s ∈ site_list → is_Some (old !! s) ∨ is_Some (new !! s)) as Hs
    by (intros s; apply elem_of_site_list). revert Hs.
  induction site_list as [|s l IH]; intros Hs; [done|]. cbn [fmap list_fmap foldr concat].
  rewrite filter_app, length_app, IH by (intros; apply Hs; by right). f_equal.
  unfold changed_at, change_at. case_bool_decide as Hne; [done|].
  assert (∃ e, change_edge (mk_change (old !! s) (new !! s)) = Some e) as [e He].
  { unfold change_edge. cbn. destruct (Hs s) as [[e ->]|[e He]]; [by left|by exists e|].
    rewrite He. destruct (old !! s); by eexists. }
  pose proof (change_edge_site s e He) as [_ Hsite].
  rewrite filter_cons. unfold change_named. rewrite He. rewrite <-Hsite. cbn.
  destruct (relationship_local_name e); by case_decide.
Qed.
End sites.

Section comparison_inv.
Context `{SV : Semver} `{SL : !SemverLaws} `{UC : UrlCrate} `{UL : !UrlLaws} `{B64 : Base64}
  `{SH : Sha256} `{JC : JsonCodec}.
Implicit Types (a b s : GraphSnapshot) (r : GraphInspection).

(** Opened native snapshots are comparable. *)
Lemma snapshot_schema_native s : snapshot_ok s → (snapshot_schema s =? 8)%Z = false.
Proof.
  intros [Hl -> _ _ _]. pose proof (li_version _ Hl) as Hv.
  apply Z.eqb_neq. intros E. by rewrite E in Hv.
Qed.
Lemma supported_native a b : snapshot_ok a → snapshot_ok b → supported a b = true.
Proof. intros Ha Hb. unfold supported. by rewrite !snapshot_schema_native. Qed.

(** ** Instances *)
Lemma elem_of_only_in (its jts : list GraphInstance) i :
  NoDup (instance_identity <$> its) →
  i ∈ only_in its jts ↔ i ∈ its ∧ instance_identity i ∉ instance_identity <$> jts.
Proof.
  intros Hnd. unfold only_in, by_identity. rewrite list_elem_of_fmap.
  assert (∀ k l, btree_collect ((λ i, (instance_identity i, i)) <$> l) !! k = None ↔
            k ∉ instance_identity <$> l) as Hnone.
  { intros k l. split.
    - intros Hn (j&->&Hj)%list_elem_of_fmap.
      destruct (btree_collect_is_Some ((λ i, (instance_identity i, i)) <$> l) (instance_identity j) j) as [x Hx].
      { apply list_elem_of_fmap. by exists j. }
      congruence.
    - intros Hk. apply btree_collect_None. by rewrite <-list_fmap_compose. }
  setoid_rewrite list_elem_of_filter. setoid_rewrite Hnone. split.
  - intros ([k j]&->&Hk&Hin%elem_of_btree_iter). cbn in *.
    apply btree_collect_elem, list_elem_of_fmap in Hin as (j'&[= -> ->]&Hj). done.
  - intros [Hi Hk]. exists (instance_identity i, i). split; [done|]. split; [done|].
    apply elem_of_btree_iter, btree_collect_lookup.
    + by rewrite <-list_fmap_compose.
    + apply list_elem_of_fmap. by exists i.
Qed.
Lemma inventory_NoDup s r : inventory s r → NoDup (instance_identity <$> inspection_instances r).
Proof.
  intros Hinv. apply sorted_lt_NoDup. pose proof (inv_sorted _ _ Hinv) as Hsort. clear - Hsort.
  induction Hsort as [|i its _ IH Hi]; cbn; constructor; [done|]. by apply Forall_fmap.
Qed.

(** ** The comparison *)
(** The two ends of the comparison [c] of [a] and [b]. *)
Record compared a b (ra rb : GraphInspection) (c : GraphComparison) : Prop := {
  cp_supported : selected_graph_supported c = true ∧ unsupported_reason c = None ∧ comparison_scope c = All;
  cp_coverage : before_coverage c = inspection_coverage ra ∧ after_coverage c = inspection_coverage rb;
  cp_added : added_instances c = only_in (inspection_instances rb) (inspection_instances ra);
  cp_removed : removed_instances c = only_in (inspection_instances ra) (inspection_instances rb);
  cp_changes : relationship_changes c ≡ₚ
    site_changes (placements (inspection_instances ra ++ inspection_instances rb))
      (comparable (inspection_availability ra) (inspection_availability rb))
      (inspection_relationships ra) (inspection_relationships rb);
  cp_selections : changed_selections c = named_count (relationship_changes c);
  cp_evidence : comparison_evidence c ≡ₚ evidence_changes a b;
}.
Lemma references_of_app its jts : references_of (its ++ jts) = references_of its ∪ references_of jts.
Proof. unfold references_of. by rewrite fmap_app, list_to_set_app_L. Qed.
Lemma change_edge_present a b ra rb placed keep change :
  lock_inv (snapshot_lock a) → lock_inv (snapshot_lock b) → inventory a ra → inventory b rb →
  change ∈ site_changes placed keep (inspection_relationships ra) (inspection_relationships rb) →
  ∃ e, change_edge change = Some e ∧
    relationship_target e ∈ references_of (inspection_instances ra ++ inspection_instances rb) ∧
    ∀ p, relationship_parent e = Some p →
      p ∈ references_of (inspection_instances ra ++ inspection_instances rb).
Proof.
  intros Ha Hb Ia Ib (s&->&Hne)%elem_of_site_changes.
  destruct (change_edge _) as [e|] eqn:He.
  - exists e. split; [done|]. rewrite references_of_app.
    apply change_edge_site in He as [[He|He] _];
      [pose proof (inventory_complete _ _ _ Ha Ia He)|pose proof (inventory_complete _ _ _ Hb Ib He)]; set_solver.
  - exfalso. unfold change_edge in He. cbn in He. destruct (edges_by_site _ _ _ !! s); [done|]. congruence.
Qed.
Lemma compare_total a b :
  snapshot_ok a → snapshot_ok b →
  ∃ ra rb c, inspect a = Some ra ∧ inspect b = Some rb ∧ inventory a ra ∧ inventory b rb ∧
    compare a b = Some c ∧ compared a b ra rb c.
Proof.
  intros Ha Hb. pose proof (so_lock _ Ha) as La. pose proof (so_lock _ Hb) as Lb.
  destruct (inspect_inventory a La) as (ra&Ra&Ia), (inspect_inventory b Lb) as (rb&Rb&Ib).
  exists ra, rb. unfold compare. rewrite Ra, Rb. cbn [mbind option_bind].
  rewrite supported_native by done. cbn [negb]. unfold compare_inspections.
  set (placed := placements _). set (keep := comparable _ _). set (ids := identities_of _).
  destruct (sort_by_partial_spec (change_order ids)
    (site_changes placed keep (inspection_relationships ra) (inspection_relationships rb))) as (changes&Ec&Hperm&_).
  { intros change Hin. destruct (change_edge_present _ _ _ _ _ _ _ La Lb Ia Ib Hin) as (e&He&Ht&Hp).
    unfold change_order. rewrite He. by apply identities_of_present. }
  unfold site_changes in Ec. cbn zeta. unfold site_list in Ec. rewrite Ec. eexists.
  split_and!; [done..|]. split; cbn; try done.
  - rewrite site_changes_count. unfold named_count. by rewrite Hperm.
  - apply sort_by_perm.
Qed.

Lemma record_different dimension subject before after attestation change :
  change ∈ record dimension subject before after attestation →
  evidence_subject change = subject ∧
  (evidence_before change ≠ evidence_after change ∨ attestation_changed change = true).
Proof.
  unfold record. destruct (negb _ || _) eqn:E; [|by intros ?%not_elem_of_nil].
  intros ->%list_elem_of_singleton. cbn. split; [done|].
  apply orb_true_iff in E as [E|E]; [left|by right]. apply negb_true_iff in E. by apply bool_decide_eq_false in E.
Qed.
Lemma record_same dimension subject evidence : record dimension subject evidence evidence false = [].
Proof. unfold record. by rewrite bool_decide_eq_true_2. Qed.
Lemma elem_of_common_evidence {A} (f : string → A → A → list GraphEvidenceChange) before after change :
  change ∈ common_evidence f before after ↔
  ∃ key old new, before !! key = Some old ∧ after !! key = Some new ∧ change ∈ f key old new.
Proof.
  unfold common_evidence. rewrite elem_of_concat_fmap. split.
  - intros ([key old]&Hin%elem_of_btree_iter&Hc). cbn in Hc.
    destruct (after !! key) as [new|] eqn:Hn; [by exists key, old, new|by apply not_elem_of_nil in Hc].
  - intros (key&old&new&Hold&Hnew&Hc). exists (key, old). rewrite elem_of_btree_iter. cbn. by rewrite Hnew.
Qed.
(** Every reported change of evidence is one, about the project or an instance of both
    snapshots. *)
Lemma evidence_changes_sound a b change :
  change ∈ evidence_changes a b →
  (evidence_before change ≠ evidence_after change ∨ attestation_changed change = true) ∧
  ∀ p, evidence_subject change = Some p → ∃ key,
    contains_package_key (snapshot_lock a) key = true ∧ contains_package_key (snapshot_lock b) key = true ∧
    p = reference key.
Proof.
  unfold evidence_changes. set (root := record _ _ _ _ _).
  assert (change ∈ root → (evidence_before change ≠ evidence_after change ∨ attestation_changed change = true) ∧
    ∀ p, evidence_subject change = Some p → ∃ key,
      contains_package_key (snapshot_lock a) key = true ∧ contains_package_key (snapshot_lock b) key = true ∧
      p = reference key) as Hroot.
  { intros [Hs Hd]%record_different. split; [done|]. rewrite Hs. discriminate. }
  destruct (negb _); [done|]. rewrite !elem_of_app, !elem_of_common_evidence.
  intros [Hin|[(key&old&new&Ho&Hn&Hc)|[(key&old&new&Ho&Hn&Hc)|(key&old&new&Ho&Hn&Hc)]]]; [by apply Hroot|..];
    apply record_different in Hc as [Hs Hd]; (split; [done|]); rewrite Hs; intros p [= <-]; exists key;
    rewrite !contains_package_key_true; naive_solver.
Qed.

(** Native instances have no placement: parents correspond by their reference. *)
Lemma placements_native s r : inventory s r → ∀ i, i ∈ inspection_instances r → instance_placement i = None.
Proof. intros Hinv i [_ (k&_&[= <-])%bind_Some]%(inv_instances _ _ Hinv). done. Qed.
Lemma placements_none (its : list GraphInstance) :
  (∀ i, i ∈ its → instance_placement i = None) → placements its = ∅.
Proof.
  intros Hnone. unfold placements. assert (omap (λ i, path ← instance_placement i; Some (instance_reference i, path)) its = []) as ->; [|done].
  induction its as [|i its IH]; [done|]. cbn. rewrite Hnone by by left. cbn.
  apply IH. intros; apply Hnone. by right.
Qed.


(** A snapshot does not differ from itself. *)
Theorem compare_self s :
  snapshot_ok s →
  ∃ c, compare s s = Some c ∧ selected_graph_supported c = true ∧ added_instances c = [] ∧
    removed_instances c = [] ∧ relationship_changes c = [] ∧ changed_selections c = 0%nat ∧
    comparison_evidence c = [].
Proof.
  intros Hs. destruct (compare_total s s Hs Hs) as (r&r'&c&Hr&Hr'&Hi&_&Hc&Hcmp).
  assert (r' = r) as -> by congruence. exists c. split; [done|]. split; [apply Hcmp|].
  assert (only_in (inspection_instances r) (inspection_instances r) = []) as Honly.
  { apply elem_of_nil_inv. intros i Hin%elem_of_only_in; [|by eapply inventory_NoDup].
    destruct Hin as [Hin Hno]. apply Hno. by apply list_elem_of_fmap_2. }
  assert (relationship_changes c = []) as Hchanges.
  { apply elem_of_nil_inv. intros change. rewrite (cp_changes _ _ _ _ _ Hcmp).
    by intros (x&->&Hne)%elem_of_site_changes. }
  split_and!.
  - by rewrite (cp_added _ _ _ _ _ Hcmp).
  - by rewrite (cp_removed _ _ _ _ _ Hcmp).
  - done.
  - by rewrite (cp_selections _ _ _ _ _ Hcmp), Hchanges.
  - apply elem_of_nil_inv. intros change. rewrite (cp_evidence _ _ _ _ _ Hcmp).
    unfold evidence_changes. rewrite supported_native by done. cbn [negb].
    rewrite !elem_of_app, !elem_of_common_evidence. unfold workspace_evidence, artifact_evidence, derived_evidence.
    intros [Hin|[(k&x&y&Hx&Hy&Hin)|[(k&x&y&Hx&Hy&Hin)|(k&x&y&Hx&Hy&Hin)]]];
      try (assert (y = x) as -> by congruence);
      rewrite ?(bool_decide_eq_true_2 (attestations _ = _)) in Hin by done; cbn [negb] in Hin;
      rewrite record_same in Hin; by apply not_elem_of_nil in Hin.
Qed.

(** ** Completeness *)
(** The references of the instances of [l] are distinct: SHA-256 does not collide on them. *)
Definition distinct_references (l : Lockfile) : Prop :=
  ∀ k k', contains_package_key l k = true → contains_package_key l k' = true →
    reference k = reference k' → k = k'.
Lemma relationship_cases l e :
  e ∈ all_relationships l →
  (∃ key dependencies name target, (key, dependencies) ∈ entries l ∧ dependencies !! name = Some target ∧
     e = mk_relationship "dependency" (Some (reference key)) (Some name) (reference target)) ∨
  (∃ target, target ∈ roots l ∧ e = mk_relationship "root" None None (reference target)) ∨
  (∃ name target, lf_root_bindings l !! name = Some target ∧
     e = mk_relationship "root_binding" None (Some name) (reference target)).
Proof.
  unfold all_relationships. rewrite !elem_of_app. intros [He|[He|He]].
  - apply elem_of_concat_fmap in He as ([key ds]&Hin&([n t]&->&Ht%elem_of_btree_iter)%list_elem_of_fmap).
    left. by exists key, ds, n, t.
  - apply list_elem_of_fmap in He as (t&->&Ht). right. left. by exists t.
  - apply list_elem_of_fmap in He as ([n t]&->&Ht%elem_of_btree_iter). right. right. by exists n, t.
Qed.
(** A selection site determines its relationship. *)
Lemma site_unique l e e' :
  lock_inv l → distinct_references l → e ∈ all_relationships l → e' ∈ all_relationships l →
  site ∅ e = site ∅ e' → e = e'.
Proof.
  intros Hl Hd [(k&ds&n&t&Hin&Ht&->)|[(t&Hin&->)|(n&t&Hb&->)]]%relationship_cases
    [(k'&ds'&n'&t'&Hin'&Ht'&->)|[(t'&Hin'&->)|(n'&t'&Hb'&->)]]%relationship_cases;
    intros Hs; pose proof (f_equal (λ s : Site, s.1.1.1) Hs) as Hkind; try discriminate Hkind; clear Hkind.
  - assert (reference k = reference k') as Href.
    { pose proof (f_equal (λ s : Site, s.1.1.2) Hs) as E. cbn in E. rewrite !lookup_empty in E. by apply (inj Some). }
    assert (n = n') as -> by exact (inj Some _ _ (f_equal (λ s : Site, s.1.2) Hs)).
    assert (∀ key deps, (key, deps) ∈ entries l → contains_package_key l key = true) as Hkey.
    { intros key deps Hkd. apply entries_keys, list_elem_of_fmap. by exists (key, deps). }
    assert (k = k') as -> by (apply Hd; [by eapply Hkey|by eapply Hkey|exact Href]).
    assert (ds = ds') as -> by (eapply (fst_unique (entries l)); [by apply package_entries_NoDup|done..]).
    congruence.
  - assert (reference t = reference t') as -> by exact (inj Some _ _ (f_equal (λ s : Site, s.2) Hs)). done.
  - assert (n = n') as -> by exact (inj Some _ _ (f_equal (λ s : Site, s.1.2) Hs)). congruence.
Qed.
Lemma edges_by_site_complete s r keep e :
  lock_inv (snapshot_lock s) → inventory s r → distinct_references (snapshot_lock s) →
  e ∈ inspection_relationships r → keep e = true →
  edges_by_site ∅ keep (inspection_relationships r) !! site ∅ e = Some e.
Proof.
  intros Hl Hinv Hd He Hk. destruct (edges_by_site_is_Some ∅ keep (inspection_relationships r) e He Hk) as [e' He'].
  rewrite He'. f_equal. apply edges_by_site_Some in He' as (Hin&_&Hs).
  apply (site_unique (snapshot_lock s)); [done..| | |done]; by rewrite <-(inv_relationships _ _ Hinv).
Qed.

(** If the references of each lock are distinct, the comparison misses no recorded
    relationship: one that can be compared and that the other lock does not record is a
    side of a reported change, the old one as its before and the new one as its after. *)
Theorem compare_complete a b :
  snapshot_ok a → snapshot_ok b →
  distinct_references (snapshot_lock a) → distinct_references (snapshot_lock b) →
  ∃ c, compare a b = Some c ∧
    ∀ e, comparable (native_availability a) (native_availability b) e = true →
      (e ∈ all_relationships (snapshot_lock a) → e ∉ all_relationships (snapshot_lock b) →
         ∃ change, change ∈ relationship_changes c ∧ change_before change = Some e) ∧
      (e ∈ all_relationships (snapshot_lock b) → e ∉ all_relationships (snapshot_lock a) →
         ∃ change, change ∈ relationship_changes c ∧ change_after change = Some e).
Proof.
  intros Ha Hb Da Db. destruct (compare_total a b Ha Hb) as (ra&rb&c&_&_&Ia&Ib&Hc&Hcmp). exists c.
  split; [done|]. pose proof (cp_changes _ _ _ _ _ Hcmp) as Hch.
  destruct (inv_header _ _ Ia) as (_&_&_&Ea), (inv_header _ _ Ib) as (_&_&_&Eb). rewrite Ea, Eb in Hch.
  rewrite placements_none in Hch.
  2: { intros i [Hi|Hi]%elem_of_app; [by eapply (placements_native a)|by eapply (placements_native b)]. }
  set (keep := comparable _ _) in *. intros e Hk. setoid_rewrite Hch. setoid_rewrite elem_of_site_changes.
  rewrite <-(inv_relationships _ _ Ia), <-(inv_relationships _ _ Ib). split; intros Hin Hno.
  - eexists. split; [exists (site ∅ e); split; [reflexivity|]|];
      cbn; rewrite (edges_by_site_complete a ra keep e) by (done || by apply so_lock); [|done].
    intros E. symmetry in E. apply edges_by_site_Some in E as [? _]. done.
  - eexists. split; [exists (site ∅ e); split; [reflexivity|]|];
      cbn; rewrite (edges_by_site_complete b rb keep e) by (done || by apply so_lock); [|done].
    intros E. apply edges_by_site_Some in E as [? _]. done.
Qed.

(** ** Comparison within a scope *)
Lemma inspect_scope_all s : lock_inv (snapshot_lock s) → inspect_scope s All = Ok (inspect s).
Proof.
  intros Hl. destruct (inspect_inventory s Hl) as (r&Hr&Hinv). unfold inspect_scope. cbn. rewrite Hr. cbn.
  by rewrite (restrict_all s).
Qed.

(** Comparing within the scope of everything is comparing: no instance, change or piece
    of evidence is dropped, and counting the changed selections again gives their number. *)
Theorem compare_scope_all a b :
  snapshot_ok a → snapshot_ok b → compare_scope a b All = Ok (compare a b).
Proof.
  intros Ha Hb. pose proof (so_lock _ Ha) as La. pose proof (so_lock _ Hb) as Lb.
  destruct (compare_total a b Ha Hb) as (ra&rb&c&Ra&Rb&Ia&Ib&Hc&Hcmp).
  unfold compare_scope. rewrite !inspect_scope_all, Ra, Rb, Hc by done. cbn. do 2 f_equal.
  assert (∀ i, i ∈ inspection_instances ra ∨ i ∈ inspection_instances rb →
    instance_reference i ∈ references_of (inspection_instances ra ++ inspection_instances rb)) as Href.
  { intros i Hi. unfold references_of. apply elem_of_list_to_set, list_elem_of_fmap_2, elem_of_app, Hi. }
  unfold select_comparison. set (all := references_of _) in *.
  assert (base.filter (λ i, instance_reference i ∈ all) (added_instances c) = added_instances c) as ->.
  { apply filter_all. intros i. rewrite (cp_added _ _ _ _ _ Hcmp).
    rewrite elem_of_only_in by by eapply inventory_NoDup. intros [? _]. apply Href. by right. }
  assert (base.filter (λ i, instance_reference i ∈ all) (removed_instances c) = removed_instances c) as ->.
  { apply filter_all. intros i. rewrite (cp_removed _ _ _ _ _ Hcmp).
    rewrite elem_of_only_in by by eapply inventory_NoDup. intros [? _]. apply Href. by left. }
  assert (base.filter (λ change, change_touches all change = true) (relationship_changes c) = relationship_changes c) as ->.
  { apply filter_all. intros change. rewrite (cp_changes _ _ _ _ _ Hcmp). intros Hin.
    destruct (change_edge_present _ _ _ _ _ _ _ La Lb Ia Ib Hin) as (e&He&Ht&_). unfold change_touches.
    apply orb_true_iff. unfold change_edge in He. destruct (change_before change) as [e'|].
    - left. injection He as ->. apply touches_true. by left.
    - right. rewrite He. apply touches_true. by left. }
  assert (base.filter (λ change, evidence_selected all change = true) (comparison_evidence c) = comparison_evidence c) as ->.
  { apply filter_all. intros change. rewrite (cp_evidence _ _ _ _ _ Hcmp). intros [_ Hs]%evidence_changes_sound.
    unfold evidence_selected. destruct (evidence_subject change) as [p|]; [|done].
    destruct (Hs p eq_refl) as (key&Hkey&_&->). apply bool_decide_eq_true. unfold all.
    rewrite references_of_app. apply elem_of_union. left. by apply (inventory_reference a). }
  destruct (inv_header _ _ Ia) as (_&_&Es&_). rewrite Es.
  destruct (cp_supported _ _ _ _ _ Hcmp) as (E1&E2&E3). destruct (cp_coverage _ _ _ _ _ Hcmp) as [E4 E5].
  pose proof (cp_selections _ _ _ _ _ Hcmp) as E6. unfold named_count in E6.
  destruct c. cbn in *. by subst.
Qed.
End comparison_inv.

(** *** Samples *)
(** The sample lockfile with one of its two roots. *)
Definition pruned_lockfile : Lockfile := (set_roots [sample_key "acme" "2.0.0"] inserted_lockfile).1.
Definition pruned_snapshot : GraphSnapshot := mk_snapshot pruned_lockfile LOCKFILE_VERSION false "".
Definition lost_root : GraphRelationship :=
  mk_relationship "root" None None (reference (sample_key "left-pad" "1.3.0")).
Lemma pruned_snapshot_ok : snapshot_ok pruned_snapshot.
Proof.
  split.
  - apply reachable_lock_inv. change (snapshot_lock pruned_snapshot) with
      (run_op (SetRoots [sample_key "acme" "2.0.0"]) (run_op (InsertGraph sample_batch [sample_locked_workspace]) empty_lockfile).1).1.
    apply (reach_op (SetRoots [sample_key "acme" "2.0.0"])).
    apply (reach_op (InsertGraph sample_batch [sample_locked_workspace])).
    apply (reach_new sample_digest). vm_compute. reflexivity.
  - vm_compute. reflexivity.
  - intros _. apply map_empty. intros k. vm_compute. reflexivity.
  - vm_compute. discriminate.
  - vm_compute. discriminate.
Qed.
(** Distinctness of the references, decided over the keys of a lockfile. *)
Lemma distinct_references_decided (l : Lockfile) :
  bool_decide (NoDup (reference <$> (entries l).*1)) = true → distinct_references l.
Proof.
  intros Hnd%bool_decide_eq_true k k' Hk%entries_keys Hk'%entries_keys Heq.
  apply list_elem_of_lookup in Hk as [i Hi], Hk' as [j Hj].
  assert (i = j) as ->; [|congruence].
  eapply NoDup_lookup; [exact Hnd|rewrite list_lookup_fmap, Hi; reflexivity|].
  rewrite list_lookup_fmap, Hj. cbn. by rewrite Heq.
Qed.
Lemma compare_self_witness :
  ∃ c, compare rooted_snapshot rooted_snapshot = Some c ∧ relationship_changes c = [].
Proof.
  destruct (compare_self rooted_snapshot rooted_snapshot_ok) as (c&Hc&_&_&_&Hch&_).
  exists c. split; [exact Hc|exact Hch].
Defined.
Lemma compare_complete_witness :
  ∃ c, compare rooted_snapshot pruned_snapshot = Some c ∧
    ∃ change, change ∈ relationship_changes c ∧ change_before change = Some lost_root.
Proof.
  assert (bool_decide (lost_root ∈ all_relationships rooted_lockfile) = true) as Hin by (vm_compute; reflexivity).
  assert (bool_decide (lost_root ∈ all_relationships pruned_lockfile) = false) as Hno by (vm_compute; reflexivity).
  apply bool_decide_eq_true in Hin. apply bool_decide_eq_false in Hno.
  destruct (compare_complete rooted_snapshot pruned_snapshot rooted_snapshot_ok pruned_snapshot_ok) as (c&Hc&Hall).
  - apply (distinct_references_decided rooted_lockfile). vm_compute. reflexivity.
  - apply (distinct_references_decided pruned_lockfile). vm_compute. reflexivity.
  - exists c. split; [exact Hc|]. exact (proj1 (Hall lost_root eq_refl) Hin Hno).
Defined.
Lemma compare_scope_all_witness :
  compare_scope rooted_snapshot pruned_snapshot All = Ok (compare rooted_snapshot pruned_snapshot).
Proof. exact (compare_scope_all rooted_snapshot pruned_snapshot rooted_snapshot_ok pruned_snapshot_ok). Defined.
Example pruned_comparison :
  (λ c, (length (added_instances c), length (removed_instances c), changed_selections c,
         (λ change, option_map relationship_kind (change_before change)) <$> relationship_changes c))
    <$> compare undigested_snapshot pruned_snapshot =
  Some (0%nat, 0%nat, 0%nat, [Some "root"]).
Proof. vm_compute. reflexivity. Qed.
