(* ===== verification/Search.v ===== *)
(** * Exhaustive search with a stack

    The loop [while let Some(x) = pending.pop()] over a set of visited elements, which the
    sources write several times: what it visits and the fuel that is enough. *)
From S2P Require Import Prelude.

(** [expand] gives the elements pushed after an element; the stack has its top first. *)
Fixpoint dfs {K E} `{Countable K} (fuel : nat) (expand : K → result E (list K)) (visited : gset K)
    (pending : list K) : option (result E (gset K)) :=
  match pending with
  | [] => Some (Ok visited)
  | k :: pending =>
      match fuel with
      | O => None
      | S fuel =>
          if bool_decide (k ∈ visited) then dfs fuel expand visited pending
          else match expand k with
               | Err e => Some (Err e)
               | Ok next => dfs fuel expand ({[k]} ∪ visited) (rev next ++ pending)
               end
      end
  end.

Section dfs.
Context {K E : Type} `{Countable K} (expand : K → result E (list K)).

(** ** What is visited *)
Inductive reached (start : list K) : K → Prop :=
| reached_start k : k ∈ start → reached start k
| reached_next k next k' : reached start k → expand k = Ok next → k' ∈ next → reached start k'.

Lemma reached_mono start start' k :
  (∀ x, x ∈ start → reached start' x) → reached start k → reached start' k.
Proof. induction 2 as [k Hk|k next k' _ IH Hn Hk]; [auto|by eapply reached_next]. Qed.
Definition dfs_closed (visited : gset K) (pending : list K) : Prop :=
  ∀ k next k', k ∈ visited → expand k = Ok next → k' ∈ next → k' ∈ visited ∨ k' ∈ pending.
(** From a set whose successors are visited or pending, the search visits what is
    reachable, or fails at a reachable element. *)
Lemma dfs_spec fuel visited pending start :
  (∀ k, k ∈ visited → reached start k ∧ is_ok (expand k) = true) → (∀ k, k ∈ pending → reached start k) →
  (∀ k, k ∈ start → k ∈ visited ∨ k ∈ pending) → dfs_closed visited pending →
  match dfs fuel expand visited pending with
  | Some (Ok found) => ∀ k, (k ∈ found ↔ reached start k) ∧ (k ∈ found → is_ok (expand k) = true)
  | Some (Err e) => ∃ k, reached start k ∧ expand k = Err e
  | None => True
  end.
Proof.
  revert visited pending. induction fuel as [|fuel IH]; intros visited [|k pending] Hv Hp Hs Hc; cbn [dfs]; [| done | |].
  1,2: intros k; split; [split; [by apply Hv|]|by apply Hv];
    induction 1 as [k Hk|k next k' _ IHk Hn Hk];
      [by destruct (Hs k Hk) as [|?%not_elem_of_nil]|by destruct (Hc k next k' IHk Hn Hk) as [|?%not_elem_of_nil]].
  case_bool_decide as Hk.
  - apply IH; [done|intros; apply Hp; by right| |].
    + intros x [|[-> | ]%elem_of_cons]%Hs; auto.
    + intros x next x' Hx Hn [|[-> | ]%elem_of_cons]%(Hc x next x' Hx Hn); auto.
  - destruct (expand k) as [next|e] eqn:He; [|exists k; split; [apply Hp; by left|done]].
    apply IH.
    + intros x [->%elem_of_singleton|Hx]%elem_of_union; [|by apply Hv].
      split; [apply Hp; by left|by rewrite He].
    + intros x [Hx|Hx]%elem_of_app; [|apply Hp; by right].
      apply list_elem_of_In, in_rev, list_elem_of_In in Hx. eapply reached_next; [apply Hp; by left|done..].
    + intros x [Hx|[-> | Hx]%elem_of_cons]%Hs; [left; set_solver..|right; apply elem_of_app; by right].
    + intros x next' x' [->%elem_of_singleton|Hx]%elem_of_union Hn Hx'.
      * right. apply elem_of_app. left. apply list_elem_of_In. rewrite <-in_rev. apply list_elem_of_In. congruence.
      * destruct (Hc x next' x' Hx Hn Hx') as [|[-> | ]%elem_of_cons]; [left; set_solver..|].
        right. apply elem_of_app. by right.
Qed.
Lemma dfs_from_start fuel start :
  match dfs fuel expand ∅ start with
  | Some (Ok found) => ∀ k, (k ∈ found ↔ reached start k) ∧ (k ∈ found → is_ok (expand k) = true)
  | Some (Err e) => ∃ k, reached start k ∧ expand k = Err e
  | None => True
  end.
Proof.
  apply dfs_spec; [set_solver|by constructor|by right|]. intros k next k'. set_solver.
Qed.
Lemma reached_reverse start k : reached (rev start) k ↔ reached start k.
Proof.
  split; apply reached_mono; intros x Hx; constructor;
    rewrite list_elem_of_In in *; [by rewrite in_rev|by rewrite <-in_rev].
Qed.

(** ** Fuel *)
Definition cost (k : K) : nat := match expand k with Ok next => length next | Err _ => 0 end.
(** What the elements of [universe] that are not visited may still push. *)
Definition todo (universe : list K) (visited : gset K) : nat :=
  foldr plus 0%nat (cost <$> base.filter (λ k, k ∉ visited) universe).
Lemma todo_cons x universe visited :
  todo (x :: universe) visited = ((if bool_decide (x ∈ visited) then 0 else cost x) + todo universe visited)%nat.
Proof.
  unfold todo. rewrite filter_cons. case_bool_decide; case_decide; done.
Qed.
Lemma todo_other universe visited k : k ∉ universe → todo universe ({[k]} ∪ visited) = todo universe visited.
Proof.
  induction universe as [|x universe IH]; intros Hk; [done|]. apply not_elem_of_cons in Hk as [Hne Hk].
  rewrite !todo_cons, IH by done. f_equal. by rewrite (bool_decide_ext (x ∈ {[k]} ∪ visited) (x ∈ visited)) by set_solver.
Qed.
Lemma todo_visit universe visited k :
  NoDup universe → k ∈ universe → k ∉ visited →
  (cost k + todo universe ({[k]} ∪ visited) = todo universe visited)%nat.
Proof.
  induction 1 as [|x universe Hx Hnd IH]; intros Hk Hv; [by apply not_elem_of_nil in Hk|].
  rewrite !todo_cons. apply elem_of_cons in Hk as [-> | Hk].
  - rewrite todo_other by done. rewrite bool_decide_eq_true_2, bool_decide_eq_false_2 by set_solver. done.
  - rewrite <-(IH Hk Hv). assert (x ≠ k) by congruence.
    rewrite (bool_decide_ext (x ∈ {[k]} ∪ visited) (x ∈ visited)) by set_solver. lia.
Qed.
(** The search ends if only elements of [universe] push others. *)
Lemma dfs_total universe fuel visited pending :
  NoDup universe → (∀ k, cost k ≠ 0%nat → k ∈ universe) →
  (length pending + todo universe visited ≤ fuel)%nat → dfs fuel expand visited pending ≠ None.
Proof.
  intros Hnd Hu. revert visited pending. induction fuel as [|fuel IH]; intros visited [|k pending] Hf; cbn [dfs length] in *;
    [done|lia|done|].
  case_bool_decide as Hk; [apply IH; lia|]. destruct (expand k) as [next|e] eqn:He; [|done].
  apply IH. rewrite length_app, length_rev.
  assert (cost k = length next) as Hcost by (unfold cost; by rewrite He).
  destruct (decide (k ∈ universe)) as [Hin|Hout].
  - pose proof (todo_visit universe visited k Hnd Hin Hk). lia.
  - rewrite todo_other by done. destruct (decide (cost k = 0%nat)) as [H0|H0]; [lia|by apply Hu in H0].
Qed.
End dfs.
