(* ===== verification/NpmImport.v ===== *)
(** * tapid-lockfile: the graph of an npm lock

    Reading [package-lock.json] version 3: strict JSON, the checked access to fields, npm
    placements and the lookup of a dependency along them, local workspace members, and
    the validated placement graph with its selection for a platform
    (crates/tapid-lockfile/src/npm_import.rs, npm_import/parse.rs, npm_import/json.rs,
    npm_import/workspace.rs).  The document is a [Value]; a failed [expect] and an index
    by a missing key are panics, which are failures of their own. *)
From S2P Require Import Prelude Order RustStr Crates Samples Core Requirement LockKey Json Manifest.

(** ** Errors *)
Section errors.
Context `{SV : Semver}.
(** A reason is a text; that of an unparsed requirement, or of a value that serde does not
    take, is the text of its error. *)
Inductive Reason :=
| Because (text : string) | BecauseRequirement (e : ResolveError) | BecauseUnreadable (value : json).
Record NpmImportError := mk_npm_error {
  error_pointer : string;
  error_package : string;
  error_field : string;
  error_reason : Reason;
}.
Inductive npm_failure := Import (e : NpmImportError) | NpmPanics.
Definition npm : Type → Type := result npm_failure.
Definition npm_expect {A} (o : option A) : npm A := ok_or NpmPanics o.
Definition npm_error (at_ package field : string) (reason : Reason) : npm_failure :=
  Import (mk_npm_error at_ package field reason).
Definition refuse {A} (at_ package field reason : string) : npm A :=
  Err (npm_error at_ package field (Because reason)).
Definition lift_domain {A} (at_ package field : string) (r : result DomainError A) : npm A :=
  map_err (λ e, npm_error at_ package field (Because (DomainError_display e))) r.

End errors.

(** ** Strict JSON (json.rs) *)
Fixpoint no_duplicates (v : json) : bool :=
  match v with
  | JArray l => forallb no_duplicates l
  | JObject fields => bool_decide (NoDup fields.*1) && forallb (λ field, no_duplicates field.2) fields
  | _ => true
  end.
(** [parse]: the value of a text without duplicate fields. *)
Definition strict_parse `{JsonCodec} (input : string) : option json :=
  v ← json_parse input; if no_duplicates v then Some (to_value v) else None.
Definition parse_json `{Semver} `{JsonCodec} (input : string) : npm json :=
  ok_or (npm_error "/" "root" "JSON" (Because (json_message input))) (strict_parse input).

(** ** Checked access to fields (parse.rs) *)
Notation Object := (gmap string json).
Definition pointer (base field : string) : string :=
  base +:+ "/" +:+ replace_with "/" "~1" (replace_with "~" "~0" field).
Section fields.
Context `{SV : Semver}.
Definition object (value : json) (at_ identity : string) : npm Object :=
  ok_or (npm_error at_ identity "object" (Because "expected an object")) (as_object value).
Definition text (entry : Object) (field at_ identity : string) : npm string :=
  ok_or (npm_error (pointer at_ field) identity field (Because "expected a string"))
    (entry !! field ≫= as_str).
Definition flag (entry : Object) (field at_ identity : string) : npm bool :=
  match entry !! field with
  | None => Ok false
  | Some (JBool value) => Ok value
  | Some _ => refuse (pointer at_ field) identity field "expected a boolean"
  end.
Definition platform_name (v : json) : option string :=
  s ← as_str v;
  if negb (is_empty s) && negb (chars_any char_is_whitespace s) then Some s else None.
Definition strings (entry : Object) (field at_ identity : string) : npm (list string) :=
  match entry !! field with
  | None => Ok []
  | Some (JArray values) =>
      try_map (λ v, ok_or (npm_error (pointer at_ field) identity field
                             (Because "expected nonempty platform name")) (platform_name v)) values
  | Some _ => refuse (pointer at_ field) identity field "expected string array"
  end.
Definition check_fields (entry : Object) (allowed : list string) (at_ identity : string) : npm () :=
  for_each (λ field, ensure (existsb (str_eqb field) allowed)
      (npm_error (pointer at_ field) identity field (Because "unsupported npm lock field")))
    (btree_keys entry).

End fields.

Section npm.
Context `{SV : Semver} `{UC : UrlCrate} `{B64 : Base64}.

Definition requirement_entry (field at_ identity : string) (entry : string * json) :
    npm (string * Requirement) :=
  let '(name, value) := entry in
  let location := pointer (pointer at_ field) name in
  _ ← lift_domain location identity field (PackageName_from_str name);
  raw ← ok_or (npm_error location identity field (Because "expected a version requirement")) (as_str value);
  requirement ← map_err (λ e, npm_error location identity field (BecauseRequirement e))
                  (Requirement_from_str raw);
  Ok (name, requirement).
Definition requirements (entry : Object) (field at_ identity : string) : npm (gmap string Requirement) :=
  match entry !! field with
  | None => Ok ∅
  | Some value =>
      o ← object value (pointer at_ field) identity;
      btree_collect <$> try_map (requirement_entry field at_ identity) (btree_iter o)
  end.
Definition peer_meta (at_ identity : string) (peers : gmap string Requirement)
    (optional : gset string) (entry : string * json) : npm (gset string) :=
  let '(name, value) := entry in
  let location := pointer (pointer at_ "peerDependenciesMeta") name in
  if negb (contains_key name peers)
  then refuse location identity "peerDependenciesMeta" "metadata has no corresponding peer dependency" else
  meta ← object value location identity;
  _ ← check_fields meta ["optional"] location identity;
  is_optional ← flag meta "optional" location identity;
  Ok (if is_optional : bool then {[name]} ∪ optional else optional).
Definition optional_peers (entry : Object) (at_ identity : string) (peers : gmap string Requirement) :
    npm (gset string) :=
  match entry !! "peerDependenciesMeta" with
  | None => Ok ∅
  | Some value =>
      o ← object value (pointer at_ "peerDependenciesMeta") identity;
      try_fold (peer_meta at_ identity peers) ∅ (btree_iter o)
  end.

(** ** Placements *)
(** The name at the start of [rest], and what follows it. *)
Definition first_name (rest : string) : option (string * string) :=
  if starts_with_char "@" rest then
    match break_at "/" rest with
    | (_, "") => None
    | (scope, String _ after) =>
        let '(name, remaining) := break_at "/" after in Some (scope +:+ "/" +:+ name, remaining)
    end
  else Some (break_at "/" rest).
(** The loop; each turn consumes a prefix, so the length of [rest] is enough fuel. *)
Fixpoint placement_loop (fuel : nat) (rest : string) : option string :=
  match fuel with
  | O => None
  | S fuel =>
      '(name, remaining) ← first_name rest;
      _ ← to_ok (PackageName_from_str name);
      if is_empty remaining then Some name
      else rest ← strip_prefix "/node_modules/" remaining; placement_loop fuel rest
  end.
Definition placement_name (path : string) : option string :=
  rest ← strip_prefix "node_modules/" path; placement_loop (S (String.length rest)) rest.
Definition candidate (base name : string) : string :=
  if is_empty base then "node_modules/" +:+ name else base +:+ "/node_modules/" +:+ name.
(** Where the lookup goes on when [base] has no such package; [None] after the root. *)
Definition parent_base (base : string) : option string :=
  if is_empty base then None else
  match rsplit_once_str "/node_modules/" base with
  | Some (ancestor, _) => Some ancestor
  | None =>
      if starts_with "node_modules/" base then Some ""
      else match rsplit_once "/" base with Some (ancestor, _) => Some ancestor | None => Some "" end
  end.
(** The loop; each turn shortens [base], so its length is enough fuel. *)
Fixpoint lookup_loop {A} (fuel : nat) (packages : gmap string A) (base name : string) : option string :=
  if contains_key (candidate base name) packages then Some (candidate base name) else
  match fuel with
  | O => None
  | S fuel => base ← parent_base base; lookup_loop fuel packages base name
  end.
Definition start_base (parent : string) (peer : bool) : string :=
  if peer then
    match rsplit_once_str "node_modules/" parent with
    | Some (base, _) => trim_end_char "/" base
    | None => parent
    end
  else parent.
Definition lookup {A} (packages : gmap string A) (parent name : string) (peer : bool) : option string :=
  let base := start_base parent peer in lookup_loop (S (String.length base)) packages base name.

(** ** The graph *)
Record ImportedNpmPackage := mk_npm_package {
  np_path : string;
  np_name : PackageName;
  np_version : PackageVersion;
  np_registry : RegistryOrigin;
  np_resolved : string;
  np_integrity : PackageIntegrity;
  np_dependencies : gmap string string;
  np_optional_dependencies : gset string;
  np_peers : gmap string string;
  np_optional_peers : gset string;
  np_optional : bool;
  np_os : list string;
  np_cpu : list string;
  np_libc : list string;
}.
Record ImportedNpmEntryPoints := mk_entry_points {
  ep_dependencies : gmap string string;
  ep_optional_dependencies : gset string;
}.
Record ImportedNpmGraph := mk_npm_graph {
  ng_workspaces : gmap string json;
  ng_workspace_links : gmap string string;
  ng_packages : gmap string ImportedNpmPackage;
  ng_roots : gmap string string;
  ng_optional_roots : gset string;
  ng_member_roots : gmap string ImportedNpmEntryPoints;
}.
Notation Placed := (gmap string ImportedNpmPackage).
(** [&packages[path]] *)
Definition placed (packages : Placed) (path : string) : npm ImportedNpmPackage :=
  npm_expect (packages !! path).
Definition edge (packages : Placed) (parent name : string) (requirement : Requirement)
    (peer optional : bool) (at_ : string) : npm (option string) :=
  match lookup packages parent name peer with
  | None =>
      if optional then Ok None
      else refuse at_ parent name "selected dependency is missing from npm placements"
  | Some target =>
      selected ← placed packages target;
      if negb (matches requirement (np_version selected))
      then refuse at_ parent name "selected package identity/version does not satisfy its declared requirement"
      else
        declared ← npm_expect (to_ok (PackageName_from_str name));
        if bool_decide (package_name requirement declared = np_name selected) then Ok (Some target)
        else refuse at_ parent name "selected package identity/version does not satisfy its declared requirement"
  end.

(** ** Local workspace members (workspace.rs) *)
Definition link_entry (value : json) : option Object :=
  o ← as_object value; if contains_key "link" o then Some o else None.
(** The [node_modules/...] form of the last component of a link's path. *)
Definition link_placement (path : string) : string :=
  let placement := match rsplit_once_str "/node_modules/" path with
                   | Some (_, suffix) => suffix
                   | None => path
                   end in
  if starts_with "node_modules/" placement then placement else "node_modules/" +:+ placement.
Definition member_fields : list string :=
  ["name"; "version"; "license"; "funding"; "deprecated"; "engines"; "bin"; "hasInstallScript";
   "dependencies"; "devDependencies"; "optionalDependencies"; "peerDependencies";
   "peerDependenciesMeta"].
Definition member_name (member : Object) (member_at target at_ path : string) : npm string :=
  if contains_key "name" member then text member "name" member_at target
  else ok_or (npm_error at_ path "path" (Because "invalid local package placement"))
         (placement_name (link_placement path)).
Definition check_member_source (target name version at_ path : string) : npm () :=
  source ← map_err (λ e, npm_error at_ path "resolved" (Because (LockfileError_display e)))
             (LocalWorkspaceSource_new target name version);
  if negb (str_eqb (ws_path source) target) || existsb (str_eqb "node_modules") (split "/" target)
  then refuse at_ path "link" "local targets must be named contained workspace members"
  else Ok ().
(** One link: the workspaces and the targets of the names so far. *)
Definition member_step (entries : Object) (s : gmap string json * gmap string string)
    (entry : string * json) : npm (gmap string json * gmap string string) :=
  let '(workspaces, names) := s in
  let '(path, value) := entry in
  match link_entry value with
  | None => Ok s
  | Some link =>
      let at_ := pointer "/packages" path in
      if contains_key "version" link || contains_key "integrity" link
      then refuse (pointer at_ "link") path "link" "local links cannot carry registry artifact fields" else
      _ ← check_fields link ["resolved"; "link"] at_ path;
      is_link ← flag link "link" at_ path;
      if negb is_link then refuse (pointer at_ "link") path "link" "expected true" else
      target ← text link "resolved" at_ path;
      let member_at := pointer "/packages" target in
      value ← ok_or (npm_error at_ path "resolved" (Because "missing local target")) (entries !! target);
      member ← object value member_at target;
      name ← member_name member member_at target at_ path;
      version ← text member "version" member_at target;
      _ ← check_member_source target name version at_ path;
      _ ← check_fields member member_fields member_at name;
      _ ← flag member "hasInstallScript" member_at name;
      if match names !! name with Some previous => negb (str_eqb previous target) | None => false end
      then refuse at_ path "link" "duplicate local package name"
      else Ok (<[target := of_object (<["name" := JString name]> member)]> workspaces,
               <[name := target]> names)
  end.
Definition members (input : json) : npm (gmap string json) :=
  match value_get "packages" input ≫= as_object with
  | None => Ok ∅
  | Some entries =>
      if negb (existsb (λ entry, bool_decide (is_Some (value_get "link" entry))) (btree_values entries))
      then Ok ∅
      else fst <$> try_fold (member_step entries) (∅, ∅) (btree_iter entries)
  end.

(** ** Entries of the lock (parse.rs, [graph]) *)
(** [value[field].as_str().expect(..)] *)
Definition field_str (value : json) (field : string) : npm string :=
  npm_expect (value_get field value ≫= as_str).
(** The directory whose [node_modules] holds [path], for a package [name]. *)
Definition link_parent (path name : string) : option string :=
  prefix ← strip_suffix ("node_modules/" +:+ name) path;
  if is_empty prefix then Some "" else strip_suffix "/" prefix.
Definition link_step (workspaces : gmap string json) (links : gmap string string)
    (entry : string * json) : npm (gmap string string) :=
  let '(path, value) := entry in
  target ← field_str value "resolved";
  workspace ← npm_expect (workspaces !! target);
  name ← field_str workspace "name";
  match link_parent path name with
  | Some parent =>
      if is_empty parent || contains_key parent workspaces then Ok (<[path := target]> links)
      else refuse (pointer "/packages" path) path "link"
             "links must be placed at a root or declared member node_modules"
  | None => refuse (pointer "/packages" path) path "link"
              "links must be placed at a root or declared member node_modules"
  end.
Definition read_links (entries : Object) (workspaces : gmap string json) : npm (gmap string string) :=
  try_fold (link_step workspaces) ∅
    (base.filter (λ entry, is_Some (value_get "link" entry.2)) (btree_iter entries)).
Definition package_fields : list string :=
  ["name"; "version"; "resolved"; "integrity"; "dev"; "optional"; "devOptional"; "peer"; "license";
   "engines"; "funding"; "deprecated"; "hasInstallScript"; "bin"; "dependencies";
   "optionalDependencies"; "peerDependencies"; "peerDependenciesMeta"; "os"; "cpu"; "libc"].
(** The placement below the first member whose [node_modules] holds it. *)
Definition member_placement (workspaces : gmap string json) (path : string) : option string :=
  head (omap (λ member, suffix ← strip_prefix (member +:+ "/node_modules/") path;
                        Some ("node_modules/" +:+ suffix)) (btree_keys workspaces)).
Definition read_registry (resolved at_ identity : string) (name : PackageName)
    (version : PackageVersion) : npm RegistryOrigin :=
  let here {A} (reason : string) : npm A := refuse (pointer at_ "resolved") identity "resolved" reason in
  _ ← map_err (λ _, npm_error (pointer at_ "resolved") identity "resolved"
          (Because "expected a safe HTTPS registry tarball URL without credentials, query or fragment"))
        (validate_artifact_url resolved);
  url ← ok_or (npm_error (pointer at_ "resolved") identity "resolved" (Because "invalid URL"))
          (url_parse resolved);
  registry ← lift_domain (pointer at_ "resolved") identity "resolved"
               (RegistryOrigin_from_str (url_origin url));
  let basename := match rsplit_once "/" (name_str name) with Some (_, base) => base | None => name_str name end in
  let expected := "/" +:+ name_str name +:+ "/-/" +:+ basename +:+ "-" +:+
                  PackageVersion_display version +:+ ".tgz" in
  if negb (ends_with expected (url_path url))
  then here "tarball path does not match selected name/version; nonstandard artifact paths are unsupported"
  else Ok registry.
Definition read_integrity (raw at_ identity : string) : npm PackageIntegrity :=
  integrity ← map_err (λ _, npm_error (pointer at_ "integrity") identity "integrity"
                  (Because "requires one canonical padded SHA-512 SRI value"))
                (PackageIntegrity_from_str raw);
  if negb (str_eqb raw (integrity_str integrity))
  then refuse (pointer at_ "integrity") identity "integrity" "requires canonical padded SHA-512 SRI"
  else Ok integrity.
Definition read_package (entry : Object) (local_name at_ path : string) : npm ImportedNpmPackage :=
  raw_name ← (if contains_key "name" entry then text entry "name" at_ path else Ok local_name);
  raw_version ← text entry "version" at_ path;
  let identity := raw_name +:+ "@" +:+ raw_version in
  _ ← check_fields entry package_fields at_ identity;
  name ← lift_domain (pointer at_ "name") identity "name" (PackageName_from_str raw_name);
  version ← lift_domain (pointer at_ "version") identity "version" (PackageVersion_from_str raw_version);
  resolved ← text entry "resolved" at_ identity;
  registry ← read_registry resolved at_ identity name version;
  raw_integrity ← text entry "integrity" at_ identity;
  integrity ← read_integrity raw_integrity at_ identity;
  _ ← for_each (λ field, _ ← flag entry field at_ identity; Ok ())
        ["dev"; "devOptional"; "peer"; "hasInstallScript"];
  optional ← flag entry "optional" at_ identity;
  os ← strings entry "os" at_ identity;
  cpu ← strings entry "cpu" at_ identity;
  libc ← strings entry "libc" at_ identity;
  Ok (mk_npm_package path name version registry resolved integrity ∅ ∅ ∅ ∅ optional os cpu libc).
Definition package_step (workspaces : gmap string json) (packages : Placed) (entry : string * json) :
    npm Placed :=
  let '(path, value) := entry in
  let at_ := pointer "/packages" path in
  o ← object value at_ path;
  if contains_key path workspaces || contains_key "link" o then Ok packages else
  local_name ← ok_or (npm_error at_ path "path" (Because "unsupported registry placement or unsafe path"))
                 (placement_name (default path (member_placement workspaces path)));
  package ← read_package o local_name at_ path;
  Ok (<[path := package]> packages).
Definition read_packages (entries : Object) (workspaces : gmap string json) : npm Placed :=
  try_fold (package_step workspaces) ∅
    (base.filter (λ entry, is_empty entry.1 = false) (btree_iter entries)).

(** ** Edges *)
(** The paths of the placed packages and the links. *)
Definition placements (packages : Placed) (links : gmap string string) : gmap string () :=
  ((λ _, ()) <$> packages) ∪ ((λ _, ()) <$> links).
(** The error of the first requirement in [field] that resolves to a local member. *)
Definition no_local_edges (packages : Placed) (links : gmap string string) (entry : Object)
    (at_ path field : string) : npm () :=
  required ← requirements entry field at_ path;
  for_each (λ name,
      match lookup (placements packages links) path name (str_eqb field "peerDependencies") with
      | Some target =>
          ensure (negb (contains_key target links))
            (npm_error (pointer (pointer at_ field) name) path field
               (Because "registry edges to local workspace members cannot be represented"))
      | None => Ok ()
      end) (btree_keys required).
(** [dependencies.extend(optional)] *)
Definition extend {A} (m m' : gmap string A) : gmap string A := m' ∪ m.
Definition regular_edge (packages : Placed) (at_ path : string) (optional : gmap string Requirement)
    (edges : gmap string string) (entry : string * Requirement) : npm (gmap string string) :=
  let '(name, requirement) := entry in
  let is_optional := contains_key name optional in
  let field := if is_optional then "optionalDependencies" else "dependencies" in
  target ← edge packages path name requirement false is_optional (pointer (pointer at_ field) name);
  Ok match target with Some target => <[name := target]> edges | None => edges end.
Definition peer_edge (packages : Placed) (at_ path : string) (meta : gset string)
    (edges : gmap string string) (peers : gmap string string) (entry : string * Requirement) :
    npm (gmap string string) :=
  let '(name, requirement) := entry in
  target ← edge packages path name requirement true (bool_decide (name ∈ meta))
             (pointer (pointer at_ "peerDependencies") name);
  match target with
  | None => Ok peers
  | Some target =>
      if match edges !! name with Some existing => negb (str_eqb existing target) | None => false end
      then refuse at_ path "peerDependencies" "regular and peer placements conflict"
      else Ok (<[name := target]> peers)
  end.
Definition with_edges (p : ImportedNpmPackage) (dependencies : gmap string string)
    (optional_dependencies : gset string) (peers : gmap string string)
    (optional_peers : gset string) : ImportedNpmPackage :=
  mk_npm_package (np_path p) (np_name p) (np_version p) (np_registry p) (np_resolved p)
    (np_integrity p) dependencies optional_dependencies peers optional_peers (np_optional p)
    (np_os p) (np_cpu p) (np_libc p).
Definition connect (entries : Object) (links : gmap string string) (packages : Placed) (path : string) :
    npm Placed :=
  let at_ := pointer "/packages" path in
  entry ← npm_expect (entries !! path ≫= as_object);
  _ ← for_each (no_local_edges packages links entry at_ path)
        ["dependencies"; "optionalDependencies"; "peerDependencies"];
  dependencies ← requirements entry "dependencies" at_ path;
  optional ← requirements entry "optionalDependencies" at_ path;
  edges ← try_fold (regular_edge packages at_ path optional) ∅
            (btree_iter (extend dependencies optional));
  peers ← requirements entry "peerDependencies" at_ path;
  meta ← optional_peers entry at_ path peers;
  peer_edges ← try_fold (peer_edge packages at_ path meta edges) ∅ (btree_iter peers);
  package ← placed packages path;
  Ok (<[path := with_edges package edges (dom optional) peer_edges meta]> packages).

(** ** Entry points of a manifest (parse.rs, [entry_roots]) *)
(** [root.get_mut(field).and_then(Value::as_object_mut)], then [remove(name)]. *)
Definition remove_from (root : Object) (field name : string) : option Object :=
  section ← root !! field ≫= as_object; Some (<[field := of_object (delete name section)]> root).
Definition remove_if_present (root : Object) (field name : string) : Object :=
  default root (remove_from root field name).
Definition overridden (entry : Object) (field name : string) : bool :=
  str_eqb field "dependencies" &&
  match entry !! "optionalDependencies" ≫= as_object with
  | Some optional => contains_key name optional
  | None => false
  end.
(** The member that a requirement resolves to, if any. *)
Definition local_target (packages : Placed) (links : gmap string string) (parent name field : string) :
    option string :=
  selected ← lookup (placements packages links) parent name (str_eqb field "peerDependencies");
  links !! selected.
Definition drop_local (packages : Placed) (workspaces : gmap string json) (links : gmap string string)
    (entry : Object) (at_ parent field : string) (root : Object) (required : string * Requirement) :
    npm Object :=
  let '(name, requirement) := required in
  if overridden entry field name then Ok root else
  match local_target packages links parent name field with
  | None => Ok root
  | Some path =>
      local ← npm_expect (workspaces !! path);
      raw ← field_str local "version";
      version ← npm_expect (to_ok (PackageVersion_from_str raw));
      local_name ← npm_expect (to_ok (PackageName_from_str name));
      if negb (bool_decide (package_name requirement local_name = local_name))
         || negb (matches requirement version)
      then refuse (pointer (pointer at_ field) name) parent field
             "local workspace identity/version does not satisfy requirement"
      else
        root ← npm_expect (remove_from root field name);
        let root := if str_eqb field "optionalDependencies"
                    then remove_if_present root "dependencies" name else root in
        Ok (if str_eqb field "peerDependencies"
            then remove_if_present root "peerDependenciesMeta" name else root)
  end.
Definition drop_locals (packages : Placed) (workspaces : gmap string json) (links : gmap string string)
    (entry : Object) (at_ parent : string) (root : Object) (field : string) : npm Object :=
  required ← requirements entry field at_ parent;
  try_fold (drop_local packages workspaces links entry at_ parent field) root (btree_iter required).
Definition agrees_with (requirement : Requirement) (local_name : PackageName)
    (selected : ImportedNpmPackage) : bool :=
  bool_decide (package_name requirement local_name = np_name selected)
  && matches requirement (np_version selected).
Definition add_dev (packages : Placed) (at_ parent : string) (required : gmap string Requirement)
    (entry : string * Requirement) : npm (gmap string Requirement) :=
  let '(name, requirement) := entry in
  match required !! name with
  | None => Ok (<[name := requirement]> required)
  | Some previous =>
      target ← ok_or (npm_error at_ parent name (Because "missing direct package"))
                 (lookup packages parent name false);
      selected ← placed packages target;
      local_name ← npm_expect (to_ok (PackageName_from_str name));
      if agrees_with previous local_name selected && agrees_with requirement local_name selected
      then Ok (<[name := requirement]> required)
      else refuse at_ parent name "overlapping root requirements disagree with selection"
  end.
Definition root_edge (packages : Placed) (at_ parent : string) (optional : gmap string Requirement)
    (roots : gmap string string) (entry : string * Requirement) : npm (gmap string string) :=
  let '(name, requirement) := entry in
  target ← edge packages parent name requirement false (contains_key name optional) at_;
  Ok match target with Some target => <[name := target]> roots | None => roots end.
Definition peer_root (packages : Placed) (at_ parent : string) (meta : gset string)
    (points : gmap string string * gset string) (entry : string * Requirement) :
    npm (gmap string string * gset string) :=
  let '(roots, optional_roots) := points in
  let '(name, requirement) := entry in
  target ← edge packages parent name requirement true (bool_decide (name ∈ meta))
             (pointer at_ "peerDependencies");
  Ok match target with
     | None => points
     | Some target =>
         if contains_key name roots then points
         else (<[name := target]> roots,
               if bool_decide (name ∈ meta) then {[name]} ∪ optional_roots else optional_roots)
     end.
Definition entry_roots (entry : Object) (parent : string) (packages : Placed)
    (workspaces : gmap string json) (links : gmap string string) : npm ImportedNpmEntryPoints :=
  let at_ := pointer "/packages" parent in
  original_peers ← requirements entry "peerDependencies" at_ parent;
  _ ← optional_peers entry at_ parent original_peers;
  root ← try_fold (drop_locals packages workspaces links entry at_ parent) entry
           ["dependencies"; "devDependencies"; "optionalDependencies"; "peerDependencies"];
  required ← requirements root "dependencies" at_ parent;
  dev ← requirements root "devDependencies" at_ parent;
  required ← try_fold (add_dev packages at_ parent) required (btree_iter dev);
  optional ← requirements root "optionalDependencies" at_ parent;
  roots ← try_fold (root_edge packages at_ parent optional) ∅ (btree_iter (extend required optional));
  peers ← requirements root "peerDependencies" at_ parent;
  meta ← optional_peers root at_ parent peers;
  '(roots, optional_roots) ← try_fold (peer_root packages at_ parent meta) (roots, dom optional)
                               (btree_iter peers);
  Ok (mk_entry_points roots optional_roots).

(** ** Representable graphs (parse.rs, [validate_representable]) *)
(** [peer_context]; the fold of [context.with]. *)
Definition peer_context (packages : Placed) (path : string) : npm PeerContext :=
  package ← placed packages path;
  try_fold (λ context entry,
      name ← npm_expect (to_ok (PackageName_from_str entry.1));
      target ← placed packages entry.2;
      Ok (PeerContext_with context name (np_version target)))
    ∅ (btree_iter (np_peers package)).
Definition instance_key (packages : Placed) (entry : string * ImportedNpmPackage) : npm (string * string) :=
  let '(path, package) := entry in
  context ← peer_context packages path;
  Ok (path, key_display (key_new (np_registry package) (np_name package) (np_version package) context
                           PlatformContext_none)).
Definition instance_keys (packages : Placed) : npm (gmap string string) :=
  btree_collect <$> try_map (instance_key packages) (btree_iter packages).
Definition package_targets (p : ImportedNpmPackage) : list string :=
  btree_values (np_dependencies p) ++ btree_values (np_peers p).
(** The stack of the traversal, its top first; [fuel] bounds the pops. *)
Fixpoint reach (fuel : nat) (packages : Placed) (reachable : gset string) (pending : list string) :
    option (npm (gset string)) :=
  match pending with
  | [] => Some (Ok reachable)
  | path :: pending =>
      match fuel with
      | O => None
      | S fuel =>
          if bool_decide (path ∈ reachable) then reach fuel packages reachable pending
          else match packages !! path with
               | None => Some (Err NpmPanics)
               | Some package =>
                   reach fuel packages ({[path]} ∪ reachable) (rev (package_targets package) ++ pending)
               end
      end
  end.
Definition total_targets (packages : Placed) : nat :=
  foldr plus 0%nat (length ∘ package_targets <$> btree_values packages).
(** Every package is expanded once, so that the pushes are bounded. *)
Definition reach_fuel (packages : Placed) (pending : list string) : nat :=
  (length pending + total_targets packages)%nat.
Definition start_paths (g : ImportedNpmGraph) : list string :=
  btree_values (ng_roots g) ++
  concat ((λ member, btree_values (ep_dependencies member)) <$> btree_values (ng_member_roots g)).
Definition reachable_paths (g : ImportedNpmGraph) : option (npm (gset string)) :=
  let pending := rev (start_paths g) in
  reach (reach_fuel (ng_packages g) pending) (ng_packages g) ∅ pending.
#[global] Instance PackageIntegrity_eq_dec : EqDecision PackageIntegrity.
Proof. solve_decision. Defined.
Notation Artifact := (string * PackageIntegrity)%type.
Notation Signature :=
  (Artifact * gmap string string * (list string * list string * list string) * (gset string * gset string))%type.
Notation ArtifactIdentity := (RegistryOrigin * PackageName * PackageVersion)%type.
Record Seen := mk_seen {
  seen_identities : gmap string Signature;
  seen_artifacts : gmap ArtifactIdentity Artifact;
}.
Definition artifact_of (p : ImportedNpmPackage) : Artifact := (np_resolved p, np_integrity p).
Definition artifact_identity (p : ImportedNpmPackage) : ArtifactIdentity :=
  (np_registry p, np_name p, np_version p).
Definition same_registry (packages : Placed) (package : ImportedNpmPackage) (at_ path target : string) :
    npm () :=
  provider ← placed packages target;
  ensure (bool_decide (np_registry package = np_registry provider))
    (npm_error at_ path "peerDependencies" (Because "cross-registry peer context cannot be represented")).
Definition instance_edge (keys : gmap string string) (at_ path : string)
    (edges : gmap string string) (entry : string * string) : npm (gmap string string) :=
  let '(name, target) := entry in
  own ← npm_expect (keys !! path);
  key ← npm_expect (keys !! target);
  if str_eqb own key
  then refuse at_ path "dependencies" "self-instance edge cannot be represented"
  else Ok (<[name := key]> edges).
Definition signature_of (p : ImportedNpmPackage) (edges : gmap string string) : Signature :=
  (artifact_of p, edges, (np_os p, np_cpu p, np_libc p), (np_optional_dependencies p, np_optional_peers p)).
Definition package_label (p : ImportedNpmPackage) : string :=
  PackageName_display (np_name p) +:+ "@" +:+ PackageVersion_display (np_version p).
Definition check_instance (packages : Placed) (keys : gmap string string) (seen : Seen)
    (entry : string * ImportedNpmPackage) : npm Seen :=
  let '(path, package) := entry in
  let at_ := pointer "/packages" path in
  let identity := artifact_identity package in
  let artifact := artifact_of package in
  if match seen_artifacts seen !! identity with Some previous => negb (bool_decide (previous = artifact)) | None => false end
  then refuse (pointer at_ "integrity") (package_label package) "resolved/integrity"
         "same registry package/version has conflicting artifact source or integrity" else
  _ ← for_each (same_registry packages package at_ path) (btree_values (np_peers package));
  edges ← try_fold (instance_edge keys at_ path) ∅
            (btree_iter (np_dependencies package) ++ btree_iter (np_peers package));
  key ← npm_expect (keys !! path);
  let signature := signature_of package edges in
  if match seen_identities seen !! key with Some previous => negb (bool_decide (previous = signature)) | None => false end
  then refuse at_ (package_label package) "placement"
         "same Tapid instance has conflicting sources, constraints or dependency placements"
  else Ok (mk_seen (<[key := signature]> (seen_identities seen)) (<[identity := artifact]> (seen_artifacts seen))).
Definition validate_representable (g : ImportedNpmGraph) : option (npm ()) :=
  match instance_keys (ng_packages g) with
  | Err e => Some (Err e)
  | Ok keys =>
      reachable ← reachable_paths g;
      Some (reachable ← reachable;
            _ ← for_each (λ path, ensure (bool_decide (path ∈ reachable))
                    (npm_error (pointer "/packages" path) path "placement"
                       (Because "unreachable selected entry cannot be represented; refresh the npm lock before importing")))
                  (btree_keys (ng_packages g));
            _ ← try_fold (check_instance (ng_packages g) keys) (mk_seen ∅ ∅) (btree_iter (ng_packages g));
            Ok ())
  end.

(** ** The graph (parse.rs, [graph]) *)
Definition as_u64 (v : json) : option Z :=
  match v with
  | JNumber n => if (0 <=? n)%Z && (n <=? u64_max)%Z then Some n else None
  | _ => None
  end.
Definition root_fields : list string :=
  ["name"; "version"; "license"; "engines"; "workspaces"; "dependencies"; "devDependencies";
   "optionalDependencies"; "peerDependencies"; "peerDependenciesMeta"].
(** The entries of the document and its root entry. *)
Definition read_top (input : json) : npm (Object * Object) :=
  top ← object input "/" "root";
  if negb (bool_decide (top !! "lockfileVersion" ≫= as_u64 = Some 3%Z))
  then refuse "/lockfileVersion" "root" "lockfileVersion"
         "only npm lockfileVersion 3 is supported; regenerate with npm install --package-lock-only --lockfile-version=3, review version changes, then retry" else
  _ ← check_fields top ["name"; "version"; "lockfileVersion"; "requires"; "packages"] "" "root";
  packages ← ok_or (npm_error "/packages" "root" "packages" (Because "missing package placements"))
               (top !! "packages");
  entries ← object packages "/packages" "root";
  root ← ok_or (npm_error "/packages/" "root" "root" (Because "missing root entry")) (entries !! "");
  root ← object root "/packages/" "root";
  _ ← check_fields root root_fields "/packages/" "root";
  Ok (entries, root).
(** A registry entry point of a member that is placed at the root is one of the root. *)
Definition hoist (selected : ImportedNpmEntryPoints) (points : gmap string string * gset string)
    (entry : string * string) : gmap string string * gset string :=
  let '(roots, optional_roots) := points in
  let '(name, target) := entry in
  if str_eqb target ("node_modules/" +:+ name) then
    let is_optional := bool_decide (name ∈ ep_optional_dependencies selected) in
    (if contains_key name roots then roots else <[name := target]> roots,
     if is_optional then (if contains_key name roots then optional_roots else {[name]} ∪ optional_roots)
     else optional_roots ∖ {[name]})
  else points.
Notation Points := (gmap string string * gset string * gmap string ImportedNpmEntryPoints)%type.
Definition member_points (packages : Placed) (workspaces : gmap string json) (links : gmap string string)
    (points : Points) (entry : string * json) : npm Points :=
  let '(hoisted, member_roots) := points in
  let '(path, member) := entry in
  o ← npm_expect (as_object member);
  selected ← entry_roots o path packages workspaces links;
  Ok (foldl (hoist selected) hoisted (btree_iter (ep_dependencies selected)),
      <[path := selected]> member_roots).
(** Everything before the last validation. *)
Definition placement_graph (input : json) : npm ImportedNpmGraph :=
  '(entries, root) ← read_top input;
  workspaces ← members input;
  links ← read_links entries workspaces;
  packages ← read_packages entries workspaces;
  packages ← try_fold (connect entries links) packages (btree_keys packages);
  points ← entry_roots root "" packages workspaces links;
  '(roots, optional_roots, member_roots) ←
    try_fold (member_points packages workspaces links)
      (ep_dependencies points, ep_optional_dependencies points, ∅) (btree_iter workspaces);
  Ok (mk_npm_graph workspaces links packages roots optional_roots member_roots).
(** [None] would be an exhausted fuel. *)
Definition graph (input : json) : option (npm ImportedNpmGraph) :=
  match placement_graph input with
  | Err e => Some (Err e)
  | Ok g => checked ← validate_representable g; Some (_ ← checked; Ok g)
  end.

(** ** Selection for a platform (npm_import.rs, [selected_paths]) *)
Definition constraints (p : ImportedNpmPackage) : PackagePlatform :=
  mk_pkg_platform (np_os p) (np_cpu p) (np_libc p).
Definition supports (os cpu : string) (libc : option string) (p : ImportedNpmPackage) : bool :=
  platform_matches (constraints p) os cpu libc.
(** What [selected_paths] pushes for a package, in order. *)
Definition package_edges (p : ImportedNpmPackage) : list (string * bool) :=
  ((λ entry, (entry.2, bool_decide (entry.1 ∈ np_optional_dependencies p))) <$> btree_iter (np_dependencies p)) ++
  ((λ entry, (entry.2, bool_decide (entry.1 ∈ np_optional_peers p))) <$> btree_iter (np_peers p)).
Definition entry_edges (dependencies : gmap string string) (optional : gset string) : list (string * bool) :=
  (λ entry, (entry.2, bool_decide (entry.1 ∈ optional))) <$> btree_iter dependencies.
Definition start_edges (g : ImportedNpmGraph) : list (string * bool) :=
  entry_edges (ng_roots g) (ng_optional_roots g) ++
  concat ((λ member, entry_edges (ep_dependencies member) (ep_optional_dependencies member)) <$>
          btree_values (ng_member_roots g)).
Definition incompatible (path : string) (p : ImportedNpmPackage) : npm_failure :=
  npm_error ("/packages/" +:+ replace_with "/" "~1" path) (package_label p) "os/cpu/libc"
    (Because "required selected package is incompatible with this platform").
(** The stack with its top first; [visited] holds the paths with their optionality. *)
Fixpoint select_loop (fuel : nat) (packages : Placed) (supported : ImportedNpmPackage → bool)
    (selected : gset string) (visited : gset (string * bool)) (pending : list (string * bool)) :
    option (npm (gset string)) :=
  match pending with
  | [] => Some (Ok selected)
  | (path, optional) :: pending =>
      match fuel with
      | O => None
      | S fuel =>
          if bool_decide ((path, optional) ∈ visited)
          then select_loop fuel packages supported selected visited pending else
          let visited := {[(path, optional)]} ∪ visited in
          match packages !! path with
          | None => Some (Err NpmPanics)
          | Some package =>
              if supported package
              then select_loop fuel packages supported ({[path]} ∪ selected) visited
                     (rev (package_edges package) ++ pending)
              else if optional : bool then select_loop fuel packages supported selected visited pending
              else Some (Err (incompatible path package))
          end
      end
  end.
(** A package is expanded at most once as required and once as optional. *)
Definition select_fuel (packages : Placed) (pending : list (string * bool)) : nat :=
  (length pending + 2 * total_targets packages)%nat.
Definition selected_paths (g : ImportedNpmGraph) (os cpu : string) (libc : option string) :
    option (npm (gset string)) :=
  let pending := rev (start_edges g) in
  select_loop (select_fuel (ng_packages g) pending) (ng_packages g)
    (supports os cpu libc) ∅ ∅ pending.
End npm.
