(* ===== verification/NpmLock.v ===== *)
(** * tapid-lockfile: the imported npm lock

    [ImportedNpmLockfile]: the retained npm document with its cached graph and the receipts
    that later commands record; import, replay validation, the binding of member
    manifests, and the schema 8 JSON form
    (crates/tapid-lockfile/src/npm_import.rs, npm_import/workspace.rs).  Methods that may
    fill the graph's [OnceLock] are in the [mutating] monad like those on [&mut self]. *)
From S2P Require Import Prelude Order RustStr Crates Samples Core Requirement LockKey Json Manifest NpmImport.

(** Equality of [serde_json::Value]s. *)
#[global] Instance json_eq_dec : EqDecision json.
Proof.
  refine (λ v w, cast_if (decide (json_tree v = json_tree w))); [|congruence].
  rewrite <-(tree_json_tree v), <-(tree_json_tree w). by f_equal.
Defined.
#[global] Instance BinTarget_eq_dec : EqDecision BinTarget.
Proof. solve_decision. Defined.
#[global] Instance PackageBin_eq_dec : EqDecision PackageBin.
Proof. solve_decision. Defined.
(** [value[key]]: null where there is no such field. *)
Definition value_index (key : string) (v : json) : json := default JNull (value_get key v).

(** ** The record *)
Record ImportedNpmArtifactReceipt := mk_receipt {
  receipt_tree_digest : string;
  receipt_resolved : string;
  receipt_integrity : string;
}.
Section npm_lock.
Context `{SV : Semver} `{UC : UrlCrate} `{B64 : Base64} `{JC : JsonCodec} `{JP : JsonCompact}.

Record ImportedNpmLockfile := mk_imported {
  il_version : Z;
  il_root_manifest_digest : string;
  il_npm_lock : json;
  il_graph : option ImportedNpmGraph;
  il_workspace_manifest_digests : gmap string string;
  il_verified_trees : gmap string string;
  il_verified_artifacts : gmap string ImportedNpmArtifactReceipt;
}.
Definition with_graph (l : ImportedNpmLockfile) (g : ImportedNpmGraph) : ImportedNpmLockfile :=
  mk_imported (il_version l) (il_root_manifest_digest l) (il_npm_lock l) (Some g)
    (il_workspace_manifest_digests l) (il_verified_trees l) (il_verified_artifacts l).
Definition with_workspace_digests (l : ImportedNpmLockfile) (digests : gmap string string) : ImportedNpmLockfile :=
  mk_imported (il_version l) (il_root_manifest_digest l) (il_npm_lock l) (il_graph l)
    digests (il_verified_trees l) (il_verified_artifacts l).
Definition with_trees (l : ImportedNpmLockfile) (trees : gmap string string) : ImportedNpmLockfile :=
  mk_imported (il_version l) (il_root_manifest_digest l) (il_npm_lock l) (il_graph l)
    (il_workspace_manifest_digests l) trees (il_verified_artifacts l).
Definition with_artifacts (l : ImportedNpmLockfile) (artifacts : gmap string ImportedNpmArtifactReceipt) :
    ImportedNpmLockfile :=
  mk_imported (il_version l) (il_root_manifest_digest l) (il_npm_lock l) (il_graph l)
    (il_workspace_manifest_digests l) (il_verified_trees l) artifacts.

(** ** The graph *)
(** [parse::graph]; an exhausted fuel counts as a panic. *)
Definition parse_graph (npm_lock : json) : npm ImportedNpmGraph :=
  match graph npm_lock with Some r => r | None => Err NpmPanics end.
Notation imported := (mutating ImportedNpmLockfile npm_failure).
(** [ImportedNpmLockfile::graph], with the [OnceLock]. *)
Definition lock_graph : imported ImportedNpmGraph := λ l,
  match il_graph l with
  | Some g => (l, Ok g)
  | None =>
      match parse_graph (il_npm_lock l) with
      | Ok g => (with_graph l g, Ok g)
      | Err e => (l, Err e)
      end
  end.

(** ** Manifests *)
(** [entry.get(field)] unless it is an empty object. *)
Definition declared (entry : Object) (field : string) : option json :=
  v ← entry !! field;
  if bool_decide (as_object v = Some ∅) then None else Some v.
Definition validate_manifest_entry (selected manifest : Object) (fields : list string)
    (at_ identity : string) : npm () :=
  for_each (λ field, ensure (bool_decide (declared selected field = declared manifest field))
      (npm_error at_ identity field
         (Because "does not match package.json; regenerate package-lock.json with npm before importing")))
    fields.
Definition manifest_fields : list string :=
  ["dependencies"; "devDependencies"; "optionalDependencies"; "peerDependencies";
   "peerDependenciesMeta"; "workspaces"].
Definition validate_manifest_fields (npm_lock : json) (manifest : string) : npm () :=
  manifest ← parse_json manifest;
  root ← npm_expect (as_object (value_index "" (value_index "packages" npm_lock)));
  manifest ← object manifest "/package.json" "root";
  validate_manifest_entry root manifest manifest_fields "/packages/" "root".
Definition normalized_bin (entry : Object) (path : string) : npm (option PackageBin) :=
  match declared entry "bin" with
  | None => Ok None
  | Some bin =>
      name ← npm_expect (entry !! "name");
      version ← npm_expect (entry !! "version");
      let manifest := of_object (btree_collect [("name", name); ("version", version); ("bin", bin)]) in
      map_err (λ e, npm_error (pointer "/packages" path) path "bin" (Because (ManifestError_display e)))
        (pm_bin <$> manifest_parse (json_compact manifest))
  end.
Definition member_manifest_fields : list string :=
  ["name"; "version"; "dependencies"; "devDependencies"; "optionalDependencies";
   "peerDependencies"; "peerDependenciesMeta"].
(** One member: its manifest against the selected entry; [digests.insert(path, digest)]. *)
Definition validate_member (g : ImportedNpmGraph) (digests : gmap string string)
    (entry : string * (string * string)) : npm (gmap string string) :=
  let '(path, (text, digest)) := entry in
  let at_ := pointer "/packages" path in
  current ← parse_json text;
  current ← object current at_ path;
  selected ← npm_expect (ng_workspaces g !! path ≫= as_object);
  _ ← validate_manifest_entry selected current member_manifest_fields at_ path;
  selected_bin ← normalized_bin selected path;
  current_bin ← normalized_bin current path;
  if negb (bool_decide (selected_bin = current_bin))
  then refuse at_ path "bin" "does not match package.json; regenerate package-lock.json with npm before importing" else
  _ ← lift_domain "/workspaceManifestDigests" path "digest" (ArtifactDigest_from_str digest);
  Ok (<[path := digest]> digests).
Definition validate_manifests (g : ImportedNpmGraph) (manifests : gmap string (string * string)) :
    npm (gmap string string) :=
  if negb (bool_decide (btree_keys (ng_workspaces g) = btree_keys manifests))
  then refuse "/packages" "root" "workspaces" "local targets do not match discovered workspace membership"
  else try_fold (validate_member g) ∅ (btree_iter manifests).

(** ** Import and replay *)
Definition import (input manifest digest : string) : npm ImportedNpmLockfile :=
  npm_lock ← parse_json input;
  g ← parse_graph npm_lock;
  _ ← validate_manifest_fields npm_lock manifest;
  digest ← lift_domain "/rootManifestDigest" "root" "digest" (ArtifactDigest_from_str digest);
  Ok (mk_imported 8 (ArtifactDigest_display digest) npm_lock (Some g) ∅ ∅ ∅).
Definition import_validate_replay (l : ImportedNpmLockfile) (manifest digest : string) : npm () :=
  if negb (str_eqb (il_root_manifest_digest l) digest)
  then refuse "/rootManifestDigest" "root" "digest"
         "imported lock does not match package.json; import its matching npm lock again"
  else validate_manifest_fields (il_npm_lock l) manifest.
Definition bind_workspace_manifests (manifests : gmap string (string * string)) : imported () :=
  g ← lock_graph;
  digests ← mut_lift (validate_manifests g manifests);
  l ← mut_get; mut_put (with_workspace_digests l digests).
Definition validate_workspace_manifests (manifests : gmap string (string * string)) : imported () :=
  g ← lock_graph;
  current ← mut_lift (validate_manifests g manifests);
  l ← mut_get;
  mut_lift (ensure (bool_decide (current = il_workspace_manifest_digests l))
    (npm_error "/workspaceManifestDigests" "root" "workspaces"
       (Because "member manifest changed or has no import receipt; import the matching npm lock again"))).

(** ** Receipts *)
Definition tree_step (g : ImportedNpmGraph) (validated : gmap string string) (entry : string * string) :
    npm (gmap string string) :=
  let '(path, digest) := entry in
  if negb (contains_key path (ng_packages g))
  then refuse "/verifiedTrees" path "path" "unknown package placement" else
  digest ← lift_domain "/verifiedTrees" path "digest" (ArtifactDigest_from_str digest);
  Ok (<[path := ArtifactDigest_display digest]> validated).
Definition record_verified_trees (trees : gmap string string) : imported () :=
  g ← lock_graph;
  validated ← mut_lift (try_fold (tree_step g) ∅ (btree_iter trees));
  l ← mut_get; mut_put (with_trees l (extend (il_verified_trees l) validated)).
(** The checks of a receipt, against the trees recorded in the lock. *)
Definition check_receipt (g : ImportedNpmGraph) (trees : gmap string string) (path : string)
    (receipt : ImportedNpmArtifactReceipt) : npm () :=
  package ← ok_or (npm_error "/verifiedArtifacts" path "path" (Because "unknown package placement"))
              (ng_packages g !! path);
  _ ← lift_domain "/verifiedArtifacts" path "treeDigest" (ArtifactDigest_from_str (receipt_tree_digest receipt));
  _ ← lift_domain "/verifiedArtifacts" path "integrity" (PackageIntegrity_from_str (receipt_integrity receipt));
  if negb (bool_decide (trees !! path = Some (receipt_tree_digest receipt)))
     || negb (str_eqb (receipt_resolved receipt) (np_resolved package))
     || negb (str_eqb (receipt_integrity receipt) (integrity_str (np_integrity package)))
  then refuse "/verifiedArtifacts" path "receipt" "does not match the imported artifact selection"
  else Ok ().
Definition receipt_step (g : ImportedNpmGraph) (trees : gmap string string)
    (validated : gmap string ImportedNpmArtifactReceipt) (entry : string * ImportedNpmArtifactReceipt) :
    npm (gmap string ImportedNpmArtifactReceipt) :=
  _ ← check_receipt g trees entry.1 entry.2;
  Ok (<[entry.1 := entry.2]> validated).
Definition record_verified_artifacts (receipts : gmap string ImportedNpmArtifactReceipt) : imported () :=
  g ← lock_graph;
  l ← mut_get;
  validated ← mut_lift (try_fold (receipt_step g (il_verified_trees l)) ∅ (btree_iter receipts));
  mut_put (with_artifacts l (extend (il_verified_artifacts l) validated)).
Definition verified_tree (l : ImportedNpmLockfile) (path : string) : option string := il_verified_trees l !! path.
Definition verified_artifact (l : ImportedNpmLockfile) (path : string) : option ImportedNpmArtifactReceipt :=
  il_verified_artifacts l !! path.
(** [declaration_fields]; the text of each declared section. *)
Definition declaration_sections : list string :=
  ["dependencies"; "devDependencies"; "optionalDependencies"; "peerDependencies"; "peerDependenciesMeta"].
Definition declaration_fields (l : ImportedNpmLockfile) (path : string) : gmap string string :=
  btree_collect (omap (λ field,
      value ← value_get field (value_index path (value_index "packages" (il_npm_lock l)));
      Some (field, json_compact value)) declaration_sections).

(** ** The JSON form (schema 8) *)
Definition write_receipt (r : ImportedNpmArtifactReceipt) : json :=
  write_struct [field "treeDigest" (JString (receipt_tree_digest r));
           field "resolved" (JString (receipt_resolved r));
           field "integrity" (JString (receipt_integrity r))].
Definition write_imported (l : ImportedNpmLockfile) : json :=
  write_struct [
    field "lockfileVersion" (JNumber (il_version l));
    field "rootManifestDigest" (JString (il_root_manifest_digest l));
    field "npmLock" (il_npm_lock l);
    field_unless (bool_decide (il_workspace_manifest_digests l = ∅)) "workspaceManifestDigests"
      (write_map JString (il_workspace_manifest_digests l));
    field_unless (bool_decide (il_verified_trees l = ∅)) "verifiedTrees"
      (write_map JString (il_verified_trees l));
    field_unless (bool_decide (il_verified_artifacts l = ∅)) "verifiedArtifacts"
      (write_map write_receipt (il_verified_artifacts l))].
Definition receipt_specs : list (string * presence) :=
  [("treeDigest", Required); ("resolved", Required); ("integrity", Required)].
Definition read_receipt (v : json) : option ImportedNpmArtifactReceipt :=
  fields ← struct_fields true receipt_specs v;
  match fields with
  | [Some t; Some r; Some i] =>
      t ← read_string t; r ← read_string r; i ← read_string i; Some (mk_receipt t r i)
  | _ => None
  end.
Definition imported_specs : list (string * presence) :=
  [("lockfileVersion", Required); ("rootManifestDigest", Required); ("npmLock", Required);
   ("workspaceManifestDigests", Defaulted); ("verifiedTrees", Defaulted);
   ("verifiedArtifacts", Defaulted)].
Definition read_imported (v : json) : option ImportedNpmLockfile :=
  fields ← struct_fields true imported_specs v;
  match fields with
  | [v; d; n; ws; ts; rs] =>
      v ← read_field read_u32 None v;
      d ← read_field read_string None d;
      n ← read_field Some None n;
      ws ← read_field (read_map read_string) (Some ∅) ws;
      ts ← read_field (read_map read_string) (Some ∅) ts;
      rs ← read_field (read_map read_receipt) (Some ∅) rs;
      Some (mk_imported v d n None ws ts rs)
  | _ => None
  end.
Definition imported_to_json (l : ImportedNpmLockfile) : string := json_pretty (write_imported l) +:+ newline.
Definition check_workspace_digest (g : ImportedNpmGraph) (entry : string * string) : npm () :=
  if negb (contains_key entry.1 (ng_workspaces g))
  then refuse "/workspaceManifestDigests" entry.1 "path" "unknown workspace source" else
  _ ← lift_domain "/workspaceManifestDigests" entry.1 "digest" (ArtifactDigest_from_str entry.2);
  Ok ().
Definition check_tree (g : ImportedNpmGraph) (entry : string * string) : npm () :=
  if negb (contains_key entry.1 (ng_packages g))
  then refuse "/verifiedTrees" entry.1 "path" "unknown package placement" else
  _ ← lift_domain "/verifiedTrees" entry.1 "digest" (ArtifactDigest_from_str entry.2);
  Ok ().
(** The checks of [from_json] after the graph. *)
Definition check_receipts (l : ImportedNpmLockfile) (g : ImportedNpmGraph) : npm () :=
  _ ← for_each (check_workspace_digest g) (btree_iter (il_workspace_manifest_digests l));
  _ ← for_each (check_tree g) (btree_iter (il_verified_trees l));
  for_each (λ entry, check_receipt g (il_verified_trees l) entry.1 entry.2)
    (btree_iter (il_verified_artifacts l)).
Definition imported_from_json (input : string) : npm ImportedNpmLockfile :=
  value ← parse_json input;
  l ← ok_or (npm_error "/" "root" "JSON" (BecauseUnreadable value)) (read_imported value);
  if negb (il_version l =? 8)%Z
  then refuse "/lockfileVersion" "root" "lockfileVersion" "expected imported Tapid schema 8" else
  _ ← lift_domain "/rootManifestDigest" "root" "digest" (ArtifactDigest_from_str (il_root_manifest_digest l));
  match lock_graph l with
  | (l, Ok g) => _ ← check_receipts l g; Ok l
  | (_, Err e) => Err e
  end.
End npm_lock.
