(* ===== verification/NpmRun.v ===== *)
(** * Running the npm import without panics

    A program logic for the fallible code of [NpmImport]: [runs r P] says that [r] does not
    panic and that its value, if it has one, satisfies [P]; with the specifications of the
    checked field access, the lookup along placements and the local members
    (crates/tapid-lockfile/src/npm_import/parse.rs, npm_import/workspace.rs). *)
From S2P Require Import Prelude Order RustStr Crates Samples Core Requirement LockKey Json Manifest Search NpmImport.

Section runs.
Context `{SV : Semver}.

Definition runs {A} (r : npm A) (P : A → Prop) : Prop :=
  match r with Ok a => P a | Err (Import _) => True | Err NpmPanics => False end.
Lemma runs_bind {A B} (r : npm A) (f : A → npm B) (P : A → Prop) (Q : B → Prop) :
  runs r P → (∀ a, P a → runs (f a) Q) → runs (r ≫= f) Q.
Proof. destruct r as [a|[]]; cbn; auto. Qed.
Lemma runs_weaken {A} (r : npm A) (P Q : A → Prop) : runs r P → (∀ a, P a → Q a) → runs r Q.
Proof. destruct r as [a|[]]; cbn; auto. Qed.
Lemma runs_refuse {A} at_ package field reason (P : A → Prop) : runs (refuse at_ package field reason) P.
Proof. done. Qed.
Lemma runs_ok_or {A} at_ package field reason (o : option A) (P : A → Prop) :
  (∀ a, o = Some a → P a) → runs (ok_or (npm_error at_ package field reason) o) P.
Proof. destruct o; cbn; auto. Qed.
Lemma runs_expect {A} (o : option A) a (P : A → Prop) : o = Some a → P a → runs (npm_expect o) P.
Proof. by intros ->. Qed.
Lemma runs_map_err {A E} (f : E → npm_failure) (r : result E A) (P : A → Prop) :
  (∀ e, f e ≠ NpmPanics) → (∀ a, r = Ok a → P a) → runs (map_err f r) P.
Proof. intros Hf HP. destruct r as [a|e]; cbn; [auto|]. specialize (Hf e). by destruct (f e). Qed.
Lemma runs_domain {A} at_ package field (r : result DomainError A) (P : A → Prop) :
  (∀ a, r = Ok a → P a) → runs (lift_domain at_ package field r) P.
Proof. intros HP. by apply runs_map_err. Qed.
Lemma runs_ensure at_ package field reason (b : bool) (P : () → Prop) :
  (b = true → P ()) → runs (ensure b (npm_error at_ package field reason)) P.
Proof. destruct b; cbn; auto. Qed.
Lemma runs_fmap {A B} (f : A → B) (r : npm A) (P : B → Prop) : runs r (λ a, P (f a)) → runs (f <$> r) P.
Proof. by destruct r as [a|[]]. Qed.
Lemma runs_fold {A S} (I : S → Prop) (f : S → A → npm S) l s :
  I s → (∀ s x, x ∈ l → I s → runs (f s x) I) → runs (try_fold f s l) I.
Proof.
  revert s. induction l as [|x l IH]; cbn; intros s Hs Hf; [done|].
  eapply runs_bind; [apply Hf; [by left|done]|]. intros s' Hs'. apply IH; [done|].
  intros; apply Hf; [by right|done].
Qed.
(** The elements already handled are part of the invariant. *)
Lemma runs_fold_prefix {A S} (I : list A → S → Prop) (f : S → A → npm S) l s :
  I [] s → (∀ pre x s, x ∈ l → I pre s → runs (f s x) (I (pre ++ [x]))) → runs (try_fold f s l) (I l).
Proof.
  intros Hs Hf. assert (∀ rest pre s, l = pre ++ rest → I pre s → runs (try_fold f s rest) (I l)) as Hgen.
  { induction rest as [|x rest IH]; cbn; intros pre s' -> Hpre; [by rewrite app_nil_r|].
    eapply runs_bind; [apply Hf; [apply elem_of_app; right; by left|exact Hpre]|].
    intros s'' Hs''. apply (IH (pre ++ [x])); [by rewrite <-app_assoc|done]. }
  by apply (Hgen l []).
Qed.
(** The entries of a map already handled are part of the invariant. *)
Lemma runs_fold_map {V S} (I : gmap string V → S → Prop) (f : S → string * V → npm S) m s :
  I ∅ s →
  (∀ handled k v s, m !! k = Some v → handled !! k = None → I handled s →
     runs (f s (k, v)) (I (<[k := v]> handled))) →
  runs (try_fold f s (btree_iter m)) (I m).
Proof.
  intros Hs Hf.
  assert (∀ rest handled s, NoDup rest.*1 → (∀ k v, (k, v) ∈ rest → handled !! k = None) →
    (∀ k v, m !! k = Some v ↔ handled !! k = Some v ∨ (k, v) ∈ rest) → I handled s →
    runs (try_fold f s rest) (I m)) as Hgen.
  { induction rest as [|[k v] rest IH]; intros handled s' Hnd Hnew Hm HI.
    - cbn. replace m with handled; [done|]. apply map_eq. intros k. apply option_eq. intros v.
      rewrite Hm. split; [by left|by intros [|?%not_elem_of_nil]].
    - apply NoDup_cons in Hnd as [Hk Hnd]. cbn [try_fold].
      eapply runs_bind; [apply (Hf handled); [apply Hm; right; by left|by eapply Hnew; left|done]|].
      intros s'' HI'. apply (IH (<[k := v]> handled)); [done| | |done].
      + intros k' v' Hin. assert (k ≠ k') by (intros ->; apply Hk, list_elem_of_fmap; by exists (k', v')).
        rewrite lookup_insert_ne by done. eapply Hnew. by right.
      + intros k' v'. rewrite Hm, lookup_insert_Some, elem_of_cons. split.
        * intros [Hh|[[= -> ->]|Hin]]; [|by left; left|by right]. left. right. split; [|done].
          intros ->. specialize (Hnew k' v ltac:(by left)). congruence.
        * intros [[[<- <-]|[_ Hh]]|Hin]; [by right; left|by left|by right; right]. }
  apply (Hgen _ ∅); [apply sorted_lt_NoDup, btree_keys_ascending|by intros; apply lookup_empty| |done].
  intros k v. rewrite elem_of_btree_iter, lookup_empty. naive_solver.
Qed.
Lemma runs_for_each {A} (Q : A → Prop) (f : A → npm ()) l :
  (∀ x, x ∈ l → runs (f x) (λ _, Q x)) → runs (for_each f l) (λ _, ∀ x, x ∈ l → Q x).
Proof.
  induction l as [|x l IH]; cbn; intros Hf; [by intros ? ?%not_elem_of_nil|].
  eapply runs_bind; [apply Hf; by left|]. intros [] Hx.
  eapply runs_weaken; [apply IH; intros; apply Hf; by right|]. intros [] Hl y [-> | Hy]%elem_of_cons; auto.
Qed.
Lemma runs_map {A B} (Q : A → B → Prop) (f : A → npm B) l :
  (∀ x, x ∈ l → runs (f x) (Q x)) → runs (try_map f l) (Forall2 Q l).
Proof.
  induction l as [|x l IH]; cbn; intros Hf; [constructor|].
  eapply runs_bind; [apply Hf; by left|]. intros y Hy.
  eapply runs_bind; [apply IH; intros; apply Hf; by right|]. intros ys Hys. by constructor.
Qed.
Lemma runs_total {A} (r : npm A) (P : A → Prop) : (∀ a, r = Ok a → P a) → r ≠ Err NpmPanics → runs r P.
Proof. destruct r as [a|[]]; cbn; naive_solver. Qed.
Lemma runs_Ok {A} (r : npm A) (P : A → Prop) a : runs r P → r = Ok a → P a.
Proof. by intros H ->. Qed.
Lemma runs_eq {A} (r : npm A) (P : A → Prop) : runs r P → runs r (λ a, r = Ok a ∧ P a).
Proof. by destruct r as [a|[]]. Qed.
End runs.
(** One step of a run: a bind whose first computation the given lemma specifies. *)
Ltac run_step lem := eapply runs_bind; [first [apply lem | eapply lem]|].

Section fields.
Context `{SV : Semver}.
Implicit Types (entry : gmap string json) (identity field : string).

Lemma runs_object value at_ identity (P : gmap string json → Prop) :
  (∀ o, as_object value = Some o → P o) → runs (object value at_ identity) P.
Proof. apply runs_ok_or. Qed.
Lemma runs_text entry field at_ identity (P : string → Prop) :
  (∀ s, entry !! field = Some (JString s) → P s) → runs (text entry field at_ identity) P.
Proof.
  intros HP. apply runs_ok_or. intros s (v&Hv&Hs)%bind_Some. apply HP.
  destruct v; try discriminate. by injection Hs as ->.
Qed.
Lemma runs_flag entry field at_ identity : runs (flag entry field at_ identity) (λ _, True).
Proof. unfold flag. by destruct (entry !! field) as [[]|]. Qed.
Lemma runs_strings entry field at_ identity : runs (strings entry field at_ identity) (λ _, True).
Proof.
  unfold strings. destruct (entry !! field) as [[]|]; try done.
  eapply runs_weaken; [apply (runs_map (λ _ _, True)); intros; by apply runs_ok_or|done].
Qed.
Lemma runs_check_fields entry allowed at_ identity : runs (check_fields entry allowed at_ identity) (λ _, True).
Proof.
  eapply runs_weaken; [apply (runs_for_each (λ _, True)); intros; by apply runs_ensure|done].
Qed.
(** Requirements come from an object, under valid package names. *)
Definition valid_names {A} (m : gmap string A) : Prop :=
  ∀ name, is_Some (m !! name) → is_Some (to_ok (PackageName_from_str name)).
(** The value of [name] in the section [field]. *)
Definition section_get (o : gmap string json) (field name : string) : option json :=
  section ← o !! field ≫= as_object; section !! name.
Lemma runs_requirements entry field at_ identity :
  runs (requirements entry field at_ identity) (λ m, valid_names m ∧
    ∀ name, is_Some (m !! name) ↔ is_Some (section_get entry field name)).
Proof.
  unfold requirements, section_get. destruct (entry !! field) as [value|] eqn:Hvalue.
  2: { split; [by intros ? [? ?%lookup_empty_Some]|]. intros name. rewrite lookup_empty. cbn. split; by intros [? [=]]. }
  eapply runs_bind; [apply runs_object; intros o Ho; exact Ho|]. intros o Ho. apply runs_fmap.
  eapply runs_weaken; [apply (runs_map (λ given named, named.1 = given.1 ∧
    is_Some (to_ok (PackageName_from_str given.1))))|].
  - intros [name v] _. cbn. eapply runs_bind; [apply runs_domain; intros n Hn; exact Hn|].
    intros n Hn. eapply (runs_bind _ _ (λ _, True)); [by apply runs_ok_or|]. intros raw _.
    eapply (runs_bind _ _ (λ _, True)); [by apply runs_map_err|]. intros r _. cbn. split; [done|]. rewrite Hn. by eexists.
  - intros named Hall. cbn [mbind option_bind]. rewrite Ho. cbn [mbind option_bind].
    assert (∀ name, is_Some (btree_collect named !! name) → is_Some (to_ok (PackageName_from_str name)) ∧ is_Some (o !! name)) as Hnamed.
    { intros name [r Hin%btree_collect_elem]. apply list_elem_of_lookup in Hin as [i Hi].
      destruct (Forall2_lookup_r _ _ _ _ _ Hall Hi) as ([k v]&Hk&[Heq Hn]). cbn in *. subst k.
      split; [done|]. apply list_elem_of_lookup_2, elem_of_btree_iter in Hk. by eexists. }
    split; [by intros name [? _]%Hnamed|]. intros name. split; [by intros [_ ?]%Hnamed|].
    intros [v Hv%elem_of_btree_iter]. apply list_elem_of_lookup in Hv as [i Hi].
    destruct (Forall2_lookup_l _ _ _ _ _ Hall Hi) as ([k r]&Hk&[Heq _]). cbn in Heq. subst k.
    by eapply btree_collect_is_Some, list_elem_of_lookup_2.
Qed.
Lemma runs_optional_peers entry at_ identity peers :
  runs (optional_peers entry at_ identity peers) (λ meta, meta ⊆ dom peers).
Proof.
  unfold optional_peers. destruct (entry !! "peerDependenciesMeta"); [|cbn; set_solver].
  eapply (runs_bind _ _ (λ _, True)); [by apply runs_object|]. intros o _. apply runs_fold; [set_solver|].
  intros optional [name value] _ Hsub. cbn. unfold contains_key.
  destruct (peers !! name) eqn:Hp; cbn; [|done].
  eapply runs_bind; [by apply (runs_object _ _ _ (λ _, True))|]. intros meta _.
  eapply runs_bind; [apply runs_check_fields|]. intros _ _.
  eapply runs_bind; [apply runs_flag|]. intros [] _; cbn; [|done].
  assert (name ∈ dom peers) by (apply elem_of_dom; by eexists). set_solver.
Qed.
End fields.

(** ** The lookup along placements *)
Lemma rsplit_once_str_Some pat s x y : rsplit_once_str pat s = Some (x, y) → s = x +:+ pat +:+ y.
Proof.
  revert x. induction s as [|a s IH]; intros x; cbn.
  - intros (z&Hz&[= -> ->])%fmap_Some. by apply strip_prefix_Some in Hz.
  - destruct (rsplit_once_str pat s) as [[x' y']|]; cbn [fmap option_fmap option_map].
    + intros [= <- <-]. by rewrite (IH x' eq_refl) at 1.
    + intros (z&Hz&[= -> ->])%fmap_Some. by apply strip_prefix_Some in Hz.
Qed.
Lemma parent_base_shorter base up : parent_base base = Some up → (String.length up < String.length base)%nat.
Proof.
  unfold parent_base. destruct (is_empty base) eqn:He; [done|].
  destruct (rsplit_once_str "/node_modules/" base) as [[x y]|] eqn:Hr.
  { intros [= <-]. apply rsplit_once_str_Some in Hr as ->. rewrite !length_app'. cbn. lia. }
  destruct base as [|a base]; [done|]. destruct (starts_with _ _); [intros [= <-]; cbn; lia|].
  destruct (rsplit_once "/" (String a base)) as [[x y]|] eqn:Hs; intros [= <-]; [|cbn; lia].
  apply rsplit_once_Some in Hs as [-> _]. rewrite length_app'. cbn. lia.
Qed.
(** [b] is reached from [base] by going up past the directories in [passed]. *)
Inductive climb (base : string) : string → list string → Prop :=
| climb_here : climb base base []
| climb_up up b passed : parent_base base = Some up → climb up b passed → climb base b (base :: passed).
Lemma lookup_loop_spec {A} fuel (packages : gmap string A) base name :
  (String.length base < fuel)%nat →
  match lookup_loop fuel packages base name with
  | Some target => ∃ b passed, climb base b passed ∧ target = candidate b name ∧
      is_Some (packages !! target) ∧ ∀ x, x ∈ passed → packages !! candidate x name = None
  | None => ∀ b passed, climb base b passed → packages !! candidate b name = None
  end.
Proof.
  revert base. induction fuel as [|fuel IH]; intros base Hf; [lia|]. cbn [lookup_loop]. unfold contains_key.
  destruct (packages !! candidate base name) as [p|] eqn:Hp.
  { exists base, []. split_and!; [constructor|done|rewrite Hp; by eexists|]. by intros x ?%not_elem_of_nil. }
  destruct (parent_base base) as [up|] eqn:Hup; cbn [mbind option_bind].
  - pose proof (parent_base_shorter _ _ Hup). specialize (IH up ltac:(lia)).
    destruct (lookup_loop fuel packages up name) as [target|].
    + destruct IH as (b&passed&Hc&->&Hin&Hno). exists b, (base :: passed).
      split_and!; [by econstructor|done|done|]. intros x [-> | Hx]%elem_of_cons; auto.
    + intros b passed Hc. inversion Hc as [|up' b' passed' Hup' Hc']; subst; [done|].
      eapply IH. by replace up with up' by congruence.
  - intros b passed Hc. inversion Hc; subst; [done|congruence].
Qed.
Lemma lookup_found {A} (packages : gmap string A) parent name peer target :
  NpmImport.lookup packages parent name peer = Some target → is_Some (packages !! target).
Proof.
  unfold NpmImport.lookup. intros H.
  pose proof (lookup_loop_spec (S (String.length (start_base parent peer))) packages (start_base parent peer) name ltac:(lia)) as Hs.
  rewrite H in Hs. by destruct Hs as (b&passed&_&->&?&_).
Qed.
(** The lookup of a dependency ends and finds the nearest placement: going up from the
    requiring package (for a peer, from the directory that holds it), past member
    directories too, it returns the first directory whose [node_modules] has the name,
    and finds nothing only if no directory up to the root does. *)
Theorem lookup_nearest {A} (packages : gmap string A) parent name peer :
  match NpmImport.lookup packages parent name peer with
  | Some target => ∃ b passed, climb (start_base parent peer) b passed ∧ target = candidate b name ∧
      is_Some (packages !! target) ∧ ∀ x, x ∈ passed → packages !! candidate x name = None
  | None => ∀ b passed, climb (start_base parent peer) b passed → packages !! candidate b name = None
  end.
Proof. apply lookup_loop_spec. lia. Qed.
Example hoisted_lookup :
  NpmImport.lookup {["node_modules/b" := (); "node_modules/a/node_modules/c" := ()]}
    "node_modules/a/node_modules/c" "b" false = Some "node_modules/b".
Proof. reflexivity. Qed.

Section edges.
Context `{SV : Semver} `{UC : UrlCrate} `{B64 : Base64}.

(** The selected package satisfies the requirement under the name it is declared with. *)
Definition edge_accepted (name : string) (requirement : Requirement) (selected : ImportedNpmPackage) : Prop :=
  matches requirement (np_version selected) = true ∧
  ∃ declared, PackageName_from_str name = Ok declared ∧ package_name requirement declared = np_name selected.
Definition edge_found (packages : gmap string ImportedNpmPackage) (name : string)
    (requirement : Requirement) (optional : bool) (found : option string) : Prop :=
  match found with
  | Some target => ∃ selected, packages !! target = Some selected ∧ edge_accepted name requirement selected
  | None => optional = true
  end.
Lemma runs_edge (packages : gmap string ImportedNpmPackage) parent name requirement peer optional at_ :
  is_Some (to_ok (PackageName_from_str name)) →
  runs (edge packages parent name requirement peer optional at_)
    (λ found, found = NpmImport.lookup packages parent name peer ∧ edge_found packages name requirement optional found).
Proof.
  intros [n Hn]. unfold edge. destruct (NpmImport.lookup packages parent name peer) as [target|] eqn:Hl;
    [|by destruct optional].
  destruct (lookup_found _ _ _ _ _ Hl) as [selected Hs].
  eapply runs_bind; [by eapply (runs_expect _ _ (λ a, a = selected))|]. intros ? ->.
  destruct (matches requirement (np_version selected)) eqn:Hm; cbn [negb]; [|done].
  eapply runs_bind; [by eapply (runs_expect _ _ (λ a, a = n))|]. intros ? ->.
  case_bool_decide as Hp; [|done]. split; [done|]. exists selected. split; [done|].
  split; [done|]. exists n. split; [|done]. by destruct (PackageName_from_str name); [injection Hn as ->|].
Qed.

(** ** Local members *)
Record member_ok (w : json) : Prop := {
  mk_fields : ∃ o, w = of_object o ∧ (∃ name, o !! "name" = Some (JString name)) ∧
    ∃ version v, o !! "version" = Some (JString version) ∧ PackageVersion_from_str version = Ok v;
}.
Definition link_resolved (workspaces : gmap string json) (value : json) : Prop :=
  ∀ link, link_entry value = Some link →
    ∃ target, link !! "resolved" = Some (JString target) ∧ is_Some (workspaces !! target).
Definition members_ok (workspaces : gmap string json) : Prop :=
  ∀ target w, workspaces !! target = Some w → member_ok w.
Lemma runs_check_member_source target name version at_ path :
  runs (check_member_source target name version at_ path) (λ _, ∃ v, PackageVersion_from_str version = Ok v).
Proof.
  unfold check_member_source. eapply (runs_bind _ _ (λ _, ∃ v, PackageVersion_from_str version = Ok v)).
  - apply runs_map_err; [done|]. unfold LocalWorkspaceSource_new.
    intros w (p&_&H)%bind_Ok. apply bind_Ok in H as (n&_&H). apply bind_Ok in H as (v&Hv%map_err_Ok&_). by exists v.
  - intros w Hv. by destruct (_ || _).
Qed.
Lemma runs_member_name member member_at target at_ path :
  runs (member_name member member_at target at_ path) (λ _, True).
Proof. unfold member_name. destruct (contains_key _ _); [by apply runs_text|by apply runs_ok_or]. Qed.
Lemma link_resolved_mono workspaces target w value :
  link_resolved workspaces value → link_resolved (<[target := w]> workspaces) value.
Proof.
  intros Hr link (t&Ht&Hin)%Hr. exists t. split; [done|].
  destruct (decide (target = t)) as [-> |]; [rewrite lookup_insert_eq; by eexists|by rewrite lookup_insert_ne].
Qed.
Lemma runs_member_step (entries : gmap string json) pre s entry :
  members_ok s.1 ∧ (∀ e, e ∈ pre → link_resolved s.1 e.2) →
  runs (member_step entries s entry) (λ s', members_ok s'.1 ∧ ∀ e, e ∈ pre ++ [entry] → link_resolved s'.1 e.2).
Proof.
  intros [Hok Hres]. destruct s as [workspaces names], entry as [path value]. cbn [fst snd] in *.
  unfold member_step. destruct (link_entry value) as [link|] eqn:Hlink.
  2: { split; [done|]. intros e [He|He%list_elem_of_singleton]%elem_of_app; [by apply Hres|subst].
       intros link. cbn. congruence. }
  destruct (_ || _); [done|].
  eapply runs_bind; [apply runs_check_fields|]. intros _ _.
  eapply runs_bind; [apply runs_flag|]. intros [] _; cbn [negb]; [|done].
  eapply runs_bind; [apply (runs_text _ _ _ _ (λ t, link !! "resolved" = Some (JString t))); auto|].
  intros target Htarget. eapply (runs_bind _ _ (λ _, True)); [by apply runs_ok_or|]. intros member_value _.
  eapply (runs_bind _ _ (λ _, True)); [by apply runs_object|]. intros member _.
  eapply runs_bind; [apply runs_member_name|]. intros name _.
  eapply runs_bind; [apply (runs_text _ _ _ _ (λ v, member !! "version" = Some (JString v))); auto|].
  intros version Hversion. eapply runs_bind; [apply runs_check_member_source|]. intros _ [v Hv].
  eapply runs_bind; [apply runs_check_fields|]. intros _ _.
  eapply runs_bind; [apply runs_flag|]. intros _ _.
  destruct (match names !! name with Some _ => _ | None => _ end); [done|]. cbn. split.
  - intros t w [[<- <-]|[_ Hw]]%lookup_insert_Some; [|by eapply Hok].
    split. exists (<["name" := JString name]> member). split; [done|]. split.
    + exists name. apply lookup_insert_eq.
    + exists version, v. by rewrite lookup_insert_ne.
  - intros e [He|He%list_elem_of_singleton]%elem_of_app; [by apply link_resolved_mono, Hres|subst].
    intros l Hl. cbn in Hl. assert (l = link) as -> by congruence. exists target. split; [done|].
    rewrite lookup_insert_eq. by eexists.
Qed.
Lemma link_entry_value value : is_Some (link_entry value) ↔ is_Some (value_get "link" value).
Proof.
  unfold link_entry, value_get. destruct (as_object value) as [o|]; cbn; [|split; intros [? [=]]].
  unfold contains_key. destruct (o !! "link"); split; intros [? H]; try discriminate H; by eexists.
Qed.
Lemma members_ok_empty : members_ok ∅.
Proof. by intros target w ?%lookup_empty_Some. Qed.
Lemma runs_members input :
  runs (members input) (λ workspaces, members_ok workspaces ∧
    ∀ entries path value, value_get "packages" input ≫= as_object = Some entries →
      entries !! path = Some value → link_resolved workspaces value).
Proof.
  unfold members. destruct (value_get "packages" input ≫= as_object) as [entries|] eqn:He.
  2: { split; [apply members_ok_empty|congruence]. }
  destruct (existsb _ _) eqn:Hex; cbn [negb].
  - apply runs_fmap. eapply runs_weaken.
    { apply (runs_fold_prefix (λ pre s, members_ok s.1 ∧ ∀ e, e ∈ pre → link_resolved s.1 e.2)).
      - split; [apply members_ok_empty|by intros ? ?%not_elem_of_nil].
      - intros pre entry s _. apply runs_member_step. }
    intros s [Hok Hall]. split; [done|]. intros es path value [= <-] Hv.
    apply (Hall (path, value)). by apply elem_of_btree_iter.
  - split; [apply members_ok_empty|]. intros es path value [= <-] Hv link Hlink.
    exfalso. apply not_true_iff_false in Hex. apply Hex, existsb_exists. exists value.
    rewrite <-list_elem_of_In, elem_of_btree_values. split; [by exists path|].
    apply bool_decide_eq_true, link_entry_value. by eexists.
Qed.
End edges.
