(* ===== verification/NpmInv.v ===== *)
(** * The placement graph of an npm lock

    What the reading of [package-lock.json] establishes: packages under their paths with
    checked artifact sources, dependency edges that are the nearest placements and satisfy
    their requirements, links that lead to members, and entry points that are placed
    (crates/tapid-lockfile/src/npm_import/parse.rs). *)
From S2P Require Import Prelude Order RustStr Crates Samples Core Requirement LockKey Json Manifest Search NpmImport NpmRun.

(** ** The lookup depends on the keys *)
Lemma contains_key_same {A B} (m : gmap string A) (m' : gmap string B) k :
  (is_Some (m !! k) ↔ is_Some (m' !! k)) → contains_key k m = contains_key k m'.
Proof. unfold contains_key. intros H. apply eq_bool_prop_intro. destruct (m !! k), (m' !! k); naive_solver. Qed.
Lemma contains_key_dom {A} (m : gmap string A) k : contains_key k m = bool_decide (k ∈ dom m).
Proof.
  apply eq_bool_prop_intro. rewrite bool_decide_spec, elem_of_dom. unfold contains_key.
  destruct (m !! k); cbn; split; [by eexists|done|done|by intros [? [=]]].
Qed.
Lemma lookup_same {A B} (m : gmap string A) (m' : gmap string B) parent name peer :
  (∀ k, is_Some (m !! k) ↔ is_Some (m' !! k)) →
  NpmImport.lookup m parent name peer = NpmImport.lookup m' parent name peer.
Proof.
  intros H. unfold NpmImport.lookup. generalize (start_base parent peer) as base. intros base.
  generalize (S (String.length base)) as fuel. intros fuel. revert base.
  induction fuel as [|fuel IH]; intros base; cbn [lookup_loop];
    rewrite (contains_key_same _ _ _ (H (candidate base name))); [done|].
  destruct (contains_key _ _); [done|]. destruct (parent_base base); [apply IH|done].
Qed.

Section npm_inv.
Context `{SV : Semver} `{UC : UrlCrate} `{B64 : Base64}.
Implicit Types (packages : gmap string ImportedNpmPackage) (path name : string) (p : ImportedNpmPackage)
  (entries : gmap string json).

(** ** Edges *)
(** The placement without its edges. *)
Definition bare p : ImportedNpmPackage := with_edges p ∅ ∅ ∅ ∅.
Definition same_placements packages packages' : Prop := bare <$> packages = bare <$> packages'.
Lemma same_placements_at packages packages' path p :
  same_placements packages packages' → packages !! path = Some p →
  ∃ p', packages' !! path = Some p' ∧ bare p = bare p'.
Proof.
  intros H Hp. apply (f_equal (.!! path)) in H. rewrite !lookup_fmap, Hp in H. cbn in H.
  symmetry in H. apply fmap_Some in H as (p'&Hp'&Hb). by exists p'.
Qed.
Lemma same_placements_keys packages packages' path :
  same_placements packages packages' → is_Some (packages !! path) ↔ is_Some (packages' !! path).
Proof.
  intros H. split; intros [p Hp].
  - destruct (same_placements_at _ _ _ _ H Hp) as (p'&?&_). by eexists.
  - symmetry in H. destruct (same_placements_at _ _ _ _ H Hp) as (p'&?&_). by eexists.
Qed.
Lemma same_placements_update packages packages' path p p' :
  same_placements packages packages' → packages' !! path = Some p → bare p' = bare p →
  same_placements packages (<[path := p']> packages').
Proof.
  unfold same_placements. intros -> Hp Hb. rewrite fmap_insert, Hb, insert_id; [done|].
  by rewrite lookup_fmap, Hp.
Qed.
(** [edges] takes every declared name to its nearest placement, which satisfies the
    requirement; only an optional name may have none. *)
Definition edges_of packages path (peer : bool) (declared : gmap string Requirement)
    (optional : gset string) (edges : gmap string string) : Prop :=
  ∀ name, match declared !! name with
  | None => edges !! name = None
  | Some requirement =>
      edges !! name = NpmImport.lookup packages path name peer ∧
      edge_found packages name requirement (bool_decide (name ∈ optional)) (edges !! name)
  end.
Lemma edge_found_same packages packages' name requirement optional found :
  same_placements packages packages' →
  edge_found packages name requirement optional found → edge_found packages' name requirement optional found.
Proof.
  intros Hsame. destruct found as [target|]; [|done]. intros (p&Hp&Hm&Hn).
  destruct (same_placements_at _ _ _ _ Hsame Hp) as (p'&Hp'&Hb). exists p'. split; [done|].
  pose proof (f_equal np_version Hb) as Hv. pose proof (f_equal np_name Hb) as Hname.
  cbn in Hv, Hname. unfold edge_accepted. by rewrite <-Hv, <-Hname.
Qed.
Lemma edges_of_same packages packages' path peer declared optional edges :
  same_placements packages packages' →
  edges_of packages path peer declared optional edges → edges_of packages' path peer declared optional edges.
Proof.
  intros Hsame H name. specialize (H name). destruct (declared !! name) as [requirement|]; [|done].
  destruct H as [Heq Hf]. split; [|by eapply edge_found_same].
  rewrite Heq. apply lookup_same. intros k. by apply same_placements_keys.
Qed.
Lemma edges_of_empty packages path peer optional : edges_of packages path peer ∅ optional ∅.
Proof. intros name. by rewrite lookup_empty. Qed.
Lemma edges_of_insert packages path peer declared optional edges name requirement found :
  declared !! name = None → found = NpmImport.lookup packages path name peer →
  edge_found packages name requirement (bool_decide (name ∈ optional)) found →
  edges_of packages path peer declared optional edges →
  edges_of packages path peer (<[name := requirement]> declared) optional
    (match found with Some target => <[name := target]> edges | None => edges end).
Proof.
  intros Hnew Hl Hf H other. pose proof (H name) as Hname. rewrite Hnew in Hname.
  destruct (decide (name = other)) as [<- |Hne].
  - rewrite lookup_insert_eq. replace (match found with Some t => <[name:=t]> edges | None => edges end !! name) with found; [done|].
    destruct found; by rewrite ?lookup_insert_eq, ?Hname.
  - rewrite lookup_insert_ne by done. specialize (H other).
    replace (match found with Some t => <[name:=t]> edges | None => edges end !! other) with (edges !! other); [done|].
    destruct found; by rewrite ?lookup_insert_ne.
Qed.
Lemma edges_of_placed packages path peer declared optional edges name target :
  edges_of packages path peer declared optional edges → edges !! name = Some target →
  is_Some (packages !! target) ∧ NpmImport.lookup packages path name peer = Some target ∧
  ∃ requirement, declared !! name = Some requirement ∧ ∃ n, PackageName_from_str name = Ok n.
Proof.
  intros H Ht. specialize (H name). destruct (declared !! name) as [requirement|]; [|congruence].
  destruct H as [Heq Hf]. rewrite Ht in Heq, Hf. destruct Hf as (selected&Hs&_&n&Hn&_).
  split_and!; [by eexists|done|]. exists requirement. split; [done|]. by exists n.
Qed.
Lemma valid_names_extend {A} (m m' : gmap string A) :
  valid_names m → valid_names m' → valid_names (extend m m').
Proof.
  intros H H' name [a Ha]. unfold extend in Ha. apply lookup_union_Some_raw in Ha as [Ha|[_ Ha]]; [apply H'|apply H]; by eexists.
Qed.

(** ** Connecting a package *)
(** The edges of [p] are those its entry in the document declares. *)
Definition connected entries packages path p : Prop :=
  ∃ o dependencies optional peers meta, let at_ := pointer "/packages" path in
    entries !! path ≫= as_object = Some o ∧
    requirements o "dependencies" at_ path = Ok dependencies ∧
    requirements o "optionalDependencies" at_ path = Ok optional ∧
    requirements o "peerDependencies" at_ path = Ok peers ∧
    optional_peers o at_ path peers = Ok meta ∧
    edges_of packages path false (extend dependencies optional) (dom optional) (np_dependencies p) ∧
    np_optional_dependencies p = dom optional ∧
    edges_of packages path true peers meta (np_peers p) ∧ np_optional_peers p = meta ∧
    ∀ name a b, np_dependencies p !! name = Some a → np_peers p !! name = Some b → a = b.
Lemma runs_no_local_edges packages links o at_ path field :
  runs (no_local_edges packages links o at_ path field) (λ _, True).
Proof.
  unfold no_local_edges. eapply runs_bind; [apply runs_requirements|]. intros required _.
  eapply runs_weaken; [apply (runs_for_each (λ _, True))|done]. intros name _.
  destruct (NpmImport.lookup _ _ _ _); [by apply runs_ensure|done].
Qed.
Lemma runs_regular_edges packages at_ path optional declared :
  valid_names declared →
  runs (try_fold (regular_edge packages at_ path optional) ∅ (btree_iter declared))
    (edges_of packages path false declared (dom optional)).
Proof.
  intros Hvalid. apply (runs_fold_map (λ handled edges, edges_of packages path false handled (dom optional) edges));
    [apply edges_of_empty|].
  intros handled name requirement edges Hd Hnew Hedges. unfold regular_edge.
  eapply runs_bind; [apply runs_edge, Hvalid; by eexists|]. intros found [Hl Hf]. cbn.
  apply edges_of_insert; [done..| |done].
  by rewrite <-contains_key_dom.
Qed.
Lemma runs_peer_edges packages at_ path meta edges peers :
  valid_names peers →
  runs (try_fold (peer_edge packages at_ path meta edges) ∅ (btree_iter peers)) (λ peer_edges,
    edges_of packages path true peers meta peer_edges ∧
    ∀ name a b, edges !! name = Some a → peer_edges !! name = Some b → a = b).
Proof.
  intros Hvalid. apply (runs_fold_map (λ handled peer_edges, edges_of packages path true handled meta peer_edges ∧
    ∀ name a b, edges !! name = Some a → peer_edges !! name = Some b → a = b));
    [split; [apply edges_of_empty|by intros ? ? ? ? ?%lookup_empty_Some]|].
  intros handled name requirement peer_edges Hd Hnew [Hedges Hagree]. unfold peer_edge.
  eapply runs_bind; [apply runs_edge, Hvalid; by eexists|]. intros found [Hl Hf].
  pose proof (edges_of_insert _ _ _ _ _ _ _ _ _ Hnew Hl Hf Hedges) as Hnext.
  destruct found as [target|]; [|done].
  destruct (match edges !! name with Some _ => _ | None => _ end) eqn:Hconflict; [done|]. split; [exact Hnext|].
  intros name' a b Ha [[<- <-]|[_ Hb]]%lookup_insert_Some; [|by eapply Hagree].
  rewrite Ha in Hconflict. apply negb_false_iff in Hconflict. by apply str_eqb_true in Hconflict.
Qed.
Lemma runs_connect entries links packages start path :
  same_placements start packages → is_Some (packages !! path) → is_Some (entries !! path ≫= as_object) →
  runs (connect entries links packages path) (λ packages', ∃ p,
    packages' = <[path := p]> packages ∧ same_placements start packages' ∧ connected entries start path p).
Proof.
  intros Hsame [p Hp] [o Ho]. unfold connect.
  eapply runs_bind; [by eapply (runs_expect _ _ (λ a, a = o))|]. intros ? ->.
  eapply runs_bind; [apply (runs_for_each (λ _, True)); intros field _; apply runs_no_local_edges|]. intros _ _.
  eapply runs_bind; [apply runs_eq, runs_requirements|]. intros dependencies [Hdeps [Hv1 _]].
  eapply runs_bind; [apply runs_eq, runs_requirements|]. intros optional [Hopt [Hv2 _]].
  eapply runs_bind; [apply runs_regular_edges; by apply valid_names_extend|]. intros edges Hedges.
  eapply runs_bind; [apply runs_eq, runs_requirements|]. intros peers [Hpeers [Hv3 _]].
  eapply runs_bind; [apply runs_eq, runs_optional_peers|]. intros meta [Hmeta _].
  eapply runs_bind; [by apply runs_peer_edges|]. intros peer_edges [Hpe Hagree].
  eapply runs_bind; [by eapply (runs_expect _ _ (λ a, a = p))|]. intros ? ->. cbn.
  eexists. split; [done|]. split; [by eapply same_placements_update|].
  symmetry in Hsame. exists o, dependencies, optional, peers, meta. cbn zeta.
  split_and!; try done; by eapply edges_of_same.
Qed.
Definition readable entries packages : Prop :=
  ∀ path, is_Some (packages !! path) → is_Some (entries !! path ≫= as_object).
Lemma runs_connect_all entries links packages :
  readable entries packages →
  runs (try_fold (connect entries links) packages (btree_keys packages)) (λ packages',
    same_placements packages packages' ∧
    ∀ path p, packages' !! path = Some p → connected entries packages' path p).
Proof.
  intros Hread. eapply runs_weaken.
  { apply (runs_fold_prefix (λ pre packages', same_placements packages packages' ∧
      ∀ path p, path ∈ pre → packages' !! path = Some p → connected entries packages path p)).
    - split; [done|]. by intros ? ? ?%not_elem_of_nil.
    - intros pre path packages' Hin%elem_of_btree_keys [Hsame Hall].
      eapply runs_weaken; [apply runs_connect; [done|by eapply same_placements_keys|by apply Hread]|].
      intros packages'' (p&->&Hsame'&Hp). split; [done|].
      intros x q Hx [[<- <-]|[Hne Hq]]%lookup_insert_Some; [done|].
      apply elem_of_app in Hx as [Hx|Hx%list_elem_of_singleton]; [by eapply Hall|done]. }
  intros packages' [Hsame Hall]. split; [done|]. intros path p Hp.
  destruct (Hall path p) as (o&d&opt&pe&meta&H); [|done|].
  { apply elem_of_btree_keys. eapply same_placements_keys; [done|]. by eexists. }
  exists o, d, opt, pe, meta. cbn zeta in *. destruct_and! H.
  split_and!; try done; by eapply edges_of_same.
Qed.

(** ** Links *)
(** A link to a member lies in the [node_modules] of the root or of a member. *)
Definition link_placed (workspaces : gmap string json) path target : Prop :=
  ∃ w name, workspaces !! target = Some w ∧ field_str w "name" = Ok name ∧
    (path = "node_modules/" +:+ name ∨
     ∃ parent, path = parent +:+ "/node_modules/" +:+ name ∧ (parent = "" ∨ is_Some (workspaces !! parent))).
Definition links_ok (workspaces : gmap string json) (links : gmap string string) : Prop :=
  ∀ path target, links !! path = Some target → link_placed workspaces path target.
Lemma link_parent_Some path name parent :
  link_parent path name = Some parent →
  path = "node_modules/" +:+ name ∨ path = parent +:+ "/node_modules/" +:+ name.
Proof.
  unfold link_parent. intros (prefix&Hs%strip_suffix_Some&Hp)%bind_Some. subst path.
  destruct prefix as [|a prefix]; cbn [is_empty] in Hp; [by left|right].
  apply strip_suffix_Some in Hp. by rewrite Hp, app_assoc'.
Qed.
Lemma runs_read_links entries workspaces :
  members_ok workspaces → (∀ path value, entries !! path = Some value → link_resolved workspaces value) →
  runs (read_links entries workspaces) (links_ok workspaces).
Proof.
  intros Hm Hr. unfold read_links. apply runs_fold; [by intros path target ?%lookup_empty_Some|].
  intros links [path value] [Hlink Hin%elem_of_btree_iter]%list_elem_of_filter Hok. cbn [snd] in Hlink. unfold link_step.
  apply link_entry_value in Hlink as [link Hlink]. destruct (Hr _ _ Hin link Hlink) as (target&Ht&w&Hw).
  eapply runs_bind; [eapply (runs_expect _ target (λ a, a = target)); [|done]|].
  { unfold link_entry in Hlink. unfold value_get. destruct (as_object value) as [o|]; [|done]. cbn in Hlink |- *.
    destruct (contains_key "link" o); [injection Hlink as ->|done]. by rewrite Ht. }
  intros ? ->. eapply runs_bind; [by eapply (runs_expect _ w (λ a, a = w))|]. intros ? ->.
  destruct (Hm _ _ Hw) as [(o&->&(name&Hname)&_)].
  assert (field_str (of_object o) "name" = Ok name) as Hfield.
  { unfold field_str, value_get. rewrite as_object_of_object. cbn. by rewrite Hname. }
  rewrite Hfield. cbn [mbind result_bind].
  destruct (link_parent path name) as [parent|] eqn:Hparent; [|done].
  destruct (is_empty parent || contains_key parent workspaces) eqn:Hp; [|done].
  intros path' target' [[<- <-]|[_ Hl]]%lookup_insert_Some; [|by apply Hok].
  exists (of_object o), name. split_and!; [done..|].
  destruct (link_parent_Some _ _ _ Hparent) as [? | ?]; [by left|right; exists parent; split; [done|]].
  apply orb_true_iff in Hp as [Hp|Hp]; [left; by apply is_empty_true|right].
  unfold contains_key in Hp. destruct (workspaces !! parent); [by eexists|done].
Qed.

(** ** Registry packages *)
(** The artifact lies where the registry of its origin serves this name and version. *)
Definition artifact_placed p : Prop :=
  validate_artifact_url (np_resolved p) = Ok () ∧
  ∃ url base, url_parse (np_resolved p) = Some url ∧
    RegistryOrigin_from_str (url_origin url) = Ok (np_registry p) ∧
    ends_with ("/" +:+ name_str (np_name p) +:+ "/-/" +:+ base +:+ "-" +:+
               PackageVersion_display (np_version p) +:+ ".tgz") (url_path url) = true.
Lemma runs_read_registry resolved at_ identity n v :
  runs (read_registry resolved at_ identity n v) (λ registry,
    validate_artifact_url resolved = Ok () ∧ ∃ url base, url_parse resolved = Some url ∧
      RegistryOrigin_from_str (url_origin url) = Ok registry ∧
      ends_with ("/" +:+ name_str n +:+ "/-/" +:+ base +:+ "-" +:+ PackageVersion_display v +:+ ".tgz")
        (url_path url) = true).
Proof.
  unfold read_registry. eapply (runs_bind _ _ (λ _, validate_artifact_url resolved = Ok ()));
    [apply runs_map_err; [done|]; by intros []|]. intros _ Hvalid.
  eapply runs_bind; [apply runs_ok_or; intros url H; exact H|]. intros url Hurl.
  eapply runs_bind; [apply runs_domain; intros r H; exact H|]. intros registry Hregistry.
  destruct (ends_with _ _) eqn:Hends; [|done]. cbn. split; [done|]. by eexists url, _.
Qed.
Lemma runs_read_integrity raw at_ identity :
  runs (read_integrity raw at_ identity) (λ integrity, raw = integrity_str integrity).
Proof.
  unfold read_integrity. eapply (runs_bind _ _ (λ _, True)); [by apply runs_map_err|]. intros integrity _.
  destruct (str_eqb raw (integrity_str integrity)) eqn:He; [|done]. by apply str_eqb_true in He.
Qed.
Lemma runs_read_package o local_name at_ path :
  runs (read_package o local_name at_ path) (λ p, np_path p = path ∧ artifact_placed p ∧
    (∃ raw, o !! "version" = Some (JString raw) ∧ PackageVersion_from_str raw = Ok (np_version p)) ∧
    o !! "resolved" = Some (JString (np_resolved p)) ∧
    o !! "integrity" = Some (JString (integrity_str (np_integrity p)))).
Proof.
  unfold read_package. eapply (runs_bind _ _ (λ _, True)); [destruct (contains_key _ _); [by apply runs_text|done]|].
  intros raw_name _. eapply runs_bind; [apply runs_text; intros s H; exact H|]. intros raw_version Hversion.
  eapply runs_bind; [apply runs_check_fields|]. intros _ _.
  eapply (runs_bind _ _ (λ _, True)); [by apply runs_domain|]. intros n _.
  eapply runs_bind; [apply runs_domain; intros v H; exact H|]. intros v Hv.
  eapply runs_bind; [apply runs_text; intros s H; exact H|]. intros resolved Hresolved.
  eapply runs_bind; [apply runs_read_registry|]. intros registry Hregistry.
  eapply runs_bind; [apply runs_text; intros s H; exact H|]. intros raw Hraw.
  eapply runs_bind; [apply runs_read_integrity|]. intros integrity ->.
  eapply runs_bind; [apply (runs_for_each (λ _, True)); intros; eapply runs_bind; [apply runs_flag|done]|]. intros _ _.
  eapply runs_bind; [apply runs_flag|]. intros optional _.
  do 3 (eapply runs_bind; [apply runs_strings|]; intros ? _).
  cbn. split_and!; try done. by exists raw_version.
Qed.
(** The packages are the entries that are neither the root, nor members, nor links. *)
Definition package_read entries (workspaces : gmap string json) path p : Prop :=
  path ≠ "" ∧ workspaces !! path = None ∧ np_path p = path ∧ artifact_placed p ∧
  ∃ o, entries !! path ≫= as_object = Some o ∧ o !! "link" = None ∧
    (∃ raw, o !! "version" = Some (JString raw) ∧ PackageVersion_from_str raw = Ok (np_version p)) ∧
    o !! "resolved" = Some (JString (np_resolved p)) ∧
    o !! "integrity" = Some (JString (integrity_str (np_integrity p))).
Definition packages_read entries (workspaces : gmap string json) packages : Prop :=
  (∀ path p, packages !! path = Some p → package_read entries workspaces path p) ∧
  ∀ path o, path ≠ "" → entries !! path ≫= as_object = Some o → o !! "link" = None →
    workspaces !! path = None → is_Some (packages !! path).
Lemma runs_read_packages entries workspaces :
  runs (read_packages entries workspaces) (packages_read entries workspaces).
Proof.
  unfold read_packages. eapply runs_weaken.
  { apply (runs_fold_prefix (λ pre packages,
      (∀ path p, packages !! path = Some p → package_read entries workspaces path p) ∧
      ∀ path value o, (path, value) ∈ pre → as_object value = Some o → o !! "link" = None →
        workspaces !! path = None → is_Some (packages !! path))).
    - split; [by intros ? ? ?%lookup_empty_Some|by intros ? ? ? ?%not_elem_of_nil].
    - intros pre [path value] packages [Hne Hin%elem_of_btree_iter]%list_elem_of_filter [Hread Hall].
      cbn [fst] in Hne. unfold package_step.
      eapply runs_bind; [apply runs_object; intros o H; exact H|]. intros o Ho.
      destruct (contains_key path workspaces || contains_key "link" o) eqn:Hskip.
      + split; [done|]. intros path' value' o' [Hx|[= -> ->]%list_elem_of_singleton]%elem_of_app Ho' Hl Hw; [by eapply Hall|].
        exfalso. replace o' with o in * by congruence. unfold contains_key in Hskip. by rewrite Hw, Hl in Hskip.
      + apply orb_false_iff in Hskip as [Hw Hl]. unfold contains_key in Hw, Hl.
        destruct (workspaces !! path) eqn:Hw'; [done|]. destruct (o !! "link") eqn:Hl'; [done|].
        eapply (runs_bind _ _ (λ _, True)); [by apply runs_ok_or|]. intros local_name _.
        eapply runs_bind; [apply runs_read_package|]. intros p (Hp&Ha&Hv&Hr&Hi). split.
        * intros path' p' [[<- <-]|[_ Hp']]%lookup_insert_Some; [|by apply Hread].
          split_and!; [by intros ->|done..|]. exists o. rewrite Hin. by split_and!.
        * intros path' value' o' [Hx|[= -> ->]%list_elem_of_singleton]%elem_of_app Ho' Hl'' Hw''.
          -- apply lookup_insert_is_Some'. right. by eapply Hall.
          -- rewrite lookup_insert_eq. by eexists. }
  intros packages [Hread Hall]. split; [done|]. intros path o Hne (value&Hv&Ho)%bind_Some Hl Hw.
  eapply Hall; [|done..]. apply list_elem_of_filter. split; [|by apply elem_of_btree_iter].
  cbn. destruct path; done.
Qed.
End npm_inv.
