(* ===== verification/NpmEntry.v ===== *)
(** * Entry points of the npm import

    The entry points of the root and of the members: the requirements that local members
    satisfy are taken out of the manifest sections, the others become edges to the nearest
    placements; and the whole placement graph before its last validation
    (crates/tapid-lockfile/src/npm_import/parse.rs, [entry_roots] and [graph]). *)
From S2P Require Import Prelude Order RustStr Crates Samples Core Requirement LockKey Json Manifest Search NpmImport NpmRun NpmInv.

(** ** Removing a name from a section *)
Lemma section_get_remove root root' field name f n :
  remove_from root field name = Some root' →
  section_get root' f n = if decide (f = field ∧ n = name) then None else section_get root f n.
Proof.
  unfold remove_from, section_get. intros (s&Hs&[= <-])%bind_Some.
  destruct (decide (f = field)) as [-> |Hf].
  - rewrite lookup_insert_eq, Hs. cbn [mbind option_bind]. rewrite as_object_of_object. cbn [mbind option_bind].
    destruct (decide _) as [[_ ->]|Hn]; [by rewrite lookup_delete_eq|]. rewrite lookup_delete_ne; naive_solver.
  - rewrite lookup_insert_ne by done. destruct (decide _) as [[]|]; [done|done].
Qed.
Lemma section_get_remove_if root field name f n :
  section_get (remove_if_present root field name) f n =
  if decide (f = field ∧ n = name) then None else section_get root f n.
Proof.
  unfold remove_if_present. destruct (remove_from root field name) as [root'|] eqn:Hr; cbn [default from_option].
  - by apply section_get_remove.
  - destruct (decide _) as [[-> ->]|]; [|done]. unfold section_get. apply bind_None in Hr as [-> |(s&Hs&[=])]. done.
Qed.
Definition has_section (root : gmap string json) (field : string) : Prop :=
  is_Some (root !! field ≫= as_object).
Lemma has_section_remove root root' field name f :
  remove_from root field name = Some root' → has_section root f → has_section root' f.
Proof.
  unfold remove_from, has_section. intros (s&Hs&[= <-])%bind_Some Hf.
  destruct (decide (f = field)) as [-> |Hne]; [|by rewrite lookup_insert_ne].
  rewrite lookup_insert_eq. cbn [mbind option_bind]. rewrite as_object_of_object. by eexists.
Qed.
Lemma has_section_remove_if root field name f :
  has_section root f → has_section (remove_if_present root field name) f.
Proof.
  unfold remove_if_present. destruct (remove_from root field name) eqn:Hr; [|done]. by eapply has_section_remove.
Qed.
Lemma section_get_has root field name : is_Some (section_get root field name) → has_section root field.
Proof. unfold section_get, has_section. intros [v (s&Hs&_)%bind_Some]. rewrite Hs. by eexists. Qed.

Section points.
Context `{SV : Semver} `{UC : UrlCrate} `{B64 : Base64}.
Context (packages : gmap string ImportedNpmPackage) (at_ parent : string).
(** ** Entry points *)
Definition dev_agrees (dependencies dev : gmap string Requirement) : Prop :=
  ∀ name requirement requirement', dependencies !! name = Some requirement → dev !! name = Some requirement' →
    ∃ target selected n, NpmImport.lookup packages parent name false = Some target ∧
      packages !! target = Some selected ∧ PackageName_from_str name = Ok n ∧
      agrees_with requirement n selected = true ∧ agrees_with requirement' n selected = true.
Lemma runs_add_devs dependencies dev :
  valid_names dev →
  runs (try_fold (add_dev packages at_ parent) dependencies (btree_iter dev)) (λ required,
    required = extend dependencies dev ∧ dev_agrees dependencies dev).
Proof.
  intros Hvalid.
  apply (runs_fold_map (λ handled required, required = extend dependencies handled ∧ dev_agrees dependencies handled)).
  - split; [by unfold extend; rewrite (left_id_L ∅ (∪))|by intros ? ? ? _ ?%lookup_empty_Some].
  - intros handled name requirement required Hin Hnew [-> Hagree]. unfold add_dev.
    destruct (extend dependencies handled !! name) as [previous|] eqn:Hprev; unfold extend in Hprev |- *.
    2: { cbn. split; [by rewrite insert_union_l|]. intros name' r r' Hr [[<- <-]|[_ Hr']]%lookup_insert_Some; [|by eapply Hagree].
         apply lookup_union_None in Hprev as [_ Hprev]. congruence. }
    eapply runs_bind; [apply runs_ok_or; intros t H; exact H|]. intros target Hl.
    destruct (lookup_found _ _ _ _ _ Hl) as [selected Hs].
    eapply runs_bind; [by eapply (runs_expect _ selected (λ a, a = selected))|]. intros ? ->.
    destruct (Hvalid name) as [n Hn]; [by eexists|].
    eapply runs_bind; [by eapply (runs_expect _ n (λ a, a = n))|]. intros ? ->.
    destruct (_ && _) eqn:Hboth; [|done]. apply andb_true_iff in Hboth as [H1 H2]. cbn.
    split; [by rewrite insert_union_l|]. intros name' r r' Hr [[<- <-]|[_ Hr']]%lookup_insert_Some; [|by eapply Hagree].
    exists target, selected, n. split_and!; [done..|by apply to_ok_Some| |done].
    apply lookup_union_Some_raw in Hprev as [Hprev|[_ Hprev]]; congruence.
Qed.
Lemma runs_root_edges optional declared :
  valid_names declared →
  runs (try_fold (root_edge packages at_ parent optional) ∅ (btree_iter declared))
    (edges_of packages parent false declared (dom optional)).
Proof.
  intros Hvalid. apply (runs_fold_map (λ handled edges, edges_of packages parent false handled (dom optional) edges));
    [apply edges_of_empty|].
  intros handled name requirement edges Hd Hnew Hedges. unfold root_edge.
  eapply runs_bind; [apply runs_edge, Hvalid; by eexists|]. intros found [Hl Hf]. cbn.
  apply edges_of_insert; [done..| |done]. by rewrite <-contains_key_dom.
Qed.
(** The entry points of the regular edges with those of the peers that add a name. *)
Definition joined (regular : gmap string string) (optional meta : gset string)
    (peer : gmap string string) (points : gmap string string * gset string) : Prop :=
  points.1 = regular ∪ peer ∧
  ∀ name, name ∈ points.2 ↔ name ∈ optional ∨ (name ∈ meta ∧ regular !! name = None ∧ is_Some (peer !! name)).
Lemma joined_insert regular optional meta peer points name target :
  peer !! name = None → joined regular optional meta peer points →
  joined regular optional meta (<[name := target]> peer)
    (if contains_key name points.1 then points
     else (<[name := target]> points.1,
           if bool_decide (name ∈ meta) then {[name]} ∪ points.2 else points.2)).
Proof.
  intros Hnew [Hroots Hopt]. destruct points as [roots optional_roots]. cbn [fst snd] in *. subst roots.
  unfold contains_key. rewrite lookup_union, Hnew.
  destruct (regular !! name) as [t|] eqn:Hr; cbn.
  - split; cbn [fst snd].
    + apply map_eq. intros x. rewrite !lookup_union. destruct (decide (name = x)) as [<- |]; [by rewrite Hr, Hnew, lookup_insert_eq|by rewrite lookup_insert_ne].
    + intros x. rewrite Hopt. destruct (decide (name = x)) as [<- |]; [naive_solver|by rewrite lookup_insert_ne].
  - split; cbn [fst snd].
    + by rewrite insert_union_r.
    + intros x. destruct (decide (name = x)) as [<- |].
      * rewrite lookup_insert_eq. specialize (Hopt name). rewrite Hnew in Hopt.
        case_bool_decide; [|rewrite Hopt]; [|split; [intros [? |(_&_&[? [=]])]; by left|intros [? |(?&_)]; [by left|done]]].
        split; [intros _; right; split_and!; [done..|by eexists]|set_solver].
      * rewrite lookup_insert_ne, <-Hopt by done. case_bool_decide; [set_solver|done].
Qed.
Lemma runs_peer_roots regular optional meta peers :
  valid_names peers →
  runs (try_fold (peer_root packages at_ parent meta) (regular, optional) (btree_iter peers)) (λ points,
    ∃ peer, edges_of packages parent true peers meta peer ∧ joined regular optional meta peer points).
Proof.
  intros Hvalid. apply (runs_fold_map (λ handled points,
    ∃ peer, edges_of packages parent true handled meta peer ∧ joined regular optional meta peer points)).
  - exists ∅. split; [apply edges_of_empty|]. split; cbn; [by rewrite (right_id_L ∅ (∪))|].
    intros name. rewrite lookup_empty. split; [by left|]. by intros [? |(_&_&[? [=]])].
  - intros handled name requirement [roots optional_roots] Hd Hnew (peer&Hedges&Hj). unfold peer_root.
    eapply runs_bind; [apply runs_edge, Hvalid; by eexists|]. intros found [Hl Hf].
    pose proof (edges_of_insert _ _ _ _ _ _ _ _ _ Hnew Hl Hf Hedges) as Hnext.
    destruct found as [target|]; eexists; (split; [exact Hnext|]); [|done].
    assert (peer !! name = None) as Hno by (pose proof (Hedges name) as H; by rewrite Hnew in H).
    exact (joined_insert _ _ _ _ _ name target Hno Hj).
Qed.
End points.

Section entry.
Context `{SV : Semver} `{UC : UrlCrate} `{B64 : Base64}.
Context (packages : gmap string ImportedNpmPackage) (workspaces : gmap string json)
  (links : gmap string string) (entry : gmap string json) (at_ parent : string).

(** ** Local members among the requirements *)
(** The manifest section whose lookup decides for [field]. *)
Definition deciding (field : string) : string :=
  if str_eqb field "peerDependenciesMeta" then "peerDependencies" else field.
Definition resolves_locally (field name : string) : Prop :=
  is_Some (local_target packages links parent name (deciding field)).
(** The requirement is satisfied by the member at [target] under its own name. *)
Definition local_accepted (target name : string) (requirement : Requirement) : Prop :=
  ∃ w raw version declared, workspaces !! target = Some w ∧ field_str w "version" = Ok raw ∧
    PackageVersion_from_str raw = Ok version ∧ matches requirement version = true ∧
    PackageName_from_str name = Ok declared ∧ package_name requirement declared = declared.
(** [root] is the manifest without some names that resolve to members. *)
Definition kept (root : gmap string json) : Prop :=
  (∀ field, has_section entry field → has_section root field) ∧
  ∀ field name, section_get root field name = section_get entry field name ∨
    (section_get root field name = None ∧ resolves_locally field name).
Definition shrinks (root root' : gmap string json) : Prop :=
  ∀ field name, section_get root' field name = section_get root field name ∨ section_get root' field name = None.
Definition dropped (field name : string) (requirement : Requirement) (root : gmap string json) : Prop :=
  overridden entry field name = false → ∀ target, local_target packages links parent name field = Some target →
    local_accepted target name requirement ∧ section_get root field name = None ∧
    (field = "optionalDependencies" → section_get root "dependencies" name = None) ∧
    (field = "peerDependencies" → section_get root "peerDependenciesMeta" name = None).
Lemma shrinks_None root root' field name :
  shrinks root root' → section_get root field name = None → section_get root' field name = None.
Proof. intros H Hn. destruct (H field name); congruence. Qed.
Lemma dropped_shrinks field name requirement root root' :
  shrinks root root' → dropped field name requirement root → dropped field name requirement root'.
Proof.
  intros Hs Hd Ho target Ht. destruct (Hd Ho target Ht) as (Ha&H1&H2&H3).
  split_and!; [done|..]; [|intros ?..]; by eapply shrinks_None; auto.
Qed.
Lemma kept_remove root field name :
  kept root → resolves_locally field name → kept (remove_if_present root field name).
Proof.
  intros [Hs Hk] Hl. split; [intros f Hf; by apply has_section_remove_if, Hs|].
  intros f n. rewrite section_get_remove_if. destruct (decide _) as [[-> ->]|]; [by right|apply Hk].
Qed.
Lemma shrinks_remove root field name : shrinks root (remove_if_present root field name).
Proof. intros f n. rewrite section_get_remove_if. destruct (decide _); auto. Qed.
Lemma shrinks_trans root root' root'' : shrinks root root' → shrinks root' root'' → shrinks root root''.
Proof. intros H H' f n. destruct (H' f n) as [-> | ->]; auto. Qed.
Lemma local_target_peer name field field' :
  str_eqb field "peerDependencies" = str_eqb field' "peerDependencies" →
  local_target packages links parent name field = local_target packages links parent name field'.
Proof. unfold local_target. by intros ->. Qed.

Context (Hlinks : links_ok workspaces links) (Hmembers : members_ok workspaces).
Lemma member_version w target :
  workspaces !! target = Some w →
  ∃ raw version, field_str w "version" = Ok raw ∧ PackageVersion_from_str raw = Ok version.
Proof.
  intros Hw. destruct (Hmembers _ _ Hw) as [(o&->&_&version&v&Hv&Hp)]. exists version, v.
  split; [|done]. unfold field_str, value_get. rewrite as_object_of_object. cbn. by rewrite Hv.
Qed.
Lemma runs_drop_local field name requirement root :
  field ≠ "peerDependenciesMeta" → kept root → is_Some (section_get entry field name) →
  is_Some (to_ok (PackageName_from_str name)) →
  runs (drop_local packages workspaces links entry at_ parent field root (name, requirement))
    (λ root', kept root' ∧ shrinks root root' ∧ dropped field name requirement root').
Proof.
  intros Hmeta Hkept Hin [n Hn]. unfold drop_local.
  assert (shrinks root root) as Hrefl by (intros ? ?; by left).
  destruct (overridden entry field name) eqn:Ho; [split_and!; [done..|congruence]|].
  destruct (local_target packages links parent name field) as [target|] eqn:Ht; [|split_and!; [done..|congruence]].
  assert (∃ w, workspaces !! target = Some w) as [w Hw].
  { unfold local_target in Ht. apply bind_Some in Ht as (s&_&Hs). by destruct (Hlinks _ _ Hs) as (w&_&Hw&_); exists w. }
  eapply runs_bind; [by eapply (runs_expect _ w (λ a, a = w))|]. intros ? ->.
  destruct (member_version _ _ Hw) as (raw&version&Hraw&Hversion). rewrite Hraw. cbn [mbind result_bind].
  eapply runs_bind; [eapply (runs_expect _ version (λ a, a = version)); [by rewrite Hversion|done]|]. intros ? ->.
  eapply runs_bind; [by eapply (runs_expect _ n (λ a, a = n))|]. intros ? ->.
  case_bool_decide as Hname; cbn [negb orb]; [|done].
  destruct (matches requirement version) eqn:Hmatch; cbn [negb]; [|done].
  assert (∃ s, root !! field ≫= as_object = Some s) as [s Hs] by (eapply (proj1 Hkept), section_get_has, Hin).
  set (removed := remove_from root field name).
  assert (∃ root', removed = Some root' ∧ root' = remove_if_present root field name) as (root'&Hremoved&Hroot').
  { unfold removed, remove_if_present, remove_from. rewrite Hs. cbn. by eexists. }
  eapply runs_bind; [by eapply (runs_expect _ root' (λ a, a = root'))|]. intros ? ->.
  assert (resolves_locally field name) as Hlocal.
  { unfold resolves_locally, deciding. destruct (str_eqb field "peerDependenciesMeta") eqn:Hf.
    - by apply str_eqb_true in Hf.
    - rewrite Ht. by eexists. }
  assert (kept root') as Hkept' by (subst; by apply kept_remove).
  assert (shrinks root root') as Hsh by (subst; apply shrinks_remove).
  assert (section_get root' field name = None) as Hnone.
  { subst root'. rewrite section_get_remove_if. by rewrite decide_True. }
  assert (local_accepted target name requirement) as Hacc.
  { exists w, raw, version, n. split_and!; try done. by apply to_ok_Some. }
  cbn [mbind result_bind]. destruct (str_eqb field "optionalDependencies") eqn:Hopt.
  - apply str_eqb_true in Hopt as Hfield. subst field. 
    replace (str_eqb "optionalDependencies" "peerDependencies") with false by done. cbn [runs].
    pose proof (shrinks_remove root' "dependencies" name) as Hsh'. split_and!.
    + apply kept_remove; [done|]. unfold resolves_locally. change (deciding "dependencies") with "dependencies".
      rewrite (local_target_peer name "dependencies" "optionalDependencies") by done. rewrite Ht. by eexists.
    + by eapply shrinks_trans.
    + intros _ t Ht'. replace t with target by congruence. split_and!; [done|by eapply shrinks_None| |done].
      intros _. rewrite section_get_remove_if. by rewrite decide_True.
  - destruct (str_eqb field "peerDependencies") eqn:Hpeer; cbn [runs].
    + apply str_eqb_true in Hpeer as Hfield. subst field.
      pose proof (shrinks_remove root' "peerDependenciesMeta" name) as Hsh'. split_and!.
      * apply kept_remove; [done|]. unfold resolves_locally.
        change (deciding "peerDependenciesMeta") with "peerDependencies". rewrite Ht. by eexists.
      * by eapply shrinks_trans.
      * intros _ t Ht'. replace t with target by congruence. split_and!; [done|by eapply shrinks_None|done|].
        intros _. rewrite section_get_remove_if. by rewrite decide_True.
    + split_and!; [done..|]. intros _ t Ht'. replace t with target by congruence.
      split_and!; [done..| |]; intros ->; [by rewrite str_eqb_refl in Hopt|by rewrite str_eqb_refl in Hpeer].
Qed.
Lemma runs_drop_locals field root :
  field ≠ "peerDependenciesMeta" → kept root →
  runs (drop_locals packages workspaces links entry at_ parent root field) (λ root',
    kept root' ∧ shrinks root root' ∧ ∃ required, requirements entry field at_ parent = Ok required ∧
    (∀ name, is_Some (required !! name) ↔ is_Some (section_get entry field name)) ∧
    ∀ name requirement, required !! name = Some requirement → dropped field name requirement root').
Proof.
  intros Hmeta Hkept. unfold drop_locals.
  eapply runs_bind; [apply runs_eq, runs_requirements|]. intros required (Hreq&Hvalid&Hdom).
  eapply runs_weaken.
  { apply (runs_fold_map (λ handled root', kept root' ∧ shrinks root root' ∧
      ∀ name requirement, handled !! name = Some requirement → dropped field name requirement root')).
    - split_and!; [done|by intros ? ?; left|by intros ? ? ?%lookup_empty_Some].
    - intros handled name requirement root' Hin Hnew (Hk&Hs&Hd).
      eapply runs_weaken; [apply runs_drop_local; [done|done|apply Hdom; by eexists|apply Hvalid; by eexists]|].
      intros root'' (Hk'&Hs'&Hd'). split_and!; [done|by eapply shrinks_trans|].
      intros name' r [[<- <-]|[_ Hr]]%lookup_insert_Some; [done|by eapply dropped_shrinks, Hd]. }
  intros root' (Hk&Hs&Hd). split_and!; [done..|]. by exists required.
Qed.
Definition manifest_sections : list string :=
  ["dependencies"; "devDependencies"; "optionalDependencies"; "peerDependencies"].
Lemma not_metadata : "peerDependenciesMeta" ∉ manifest_sections.
Proof. apply (bool_decide_unpack _). by vm_compute. Qed.
(** [root] is the manifest without exactly the names that resolve to members, each of
    which satisfies its requirement (an optional section overrides a required one). *)
Definition without_locals (root : gmap string json) : Prop :=
  ∀ field, field ∈ manifest_sections → ∃ required, requirements entry field at_ parent = Ok required ∧
    (∀ name requirement target, required !! name = Some requirement → overridden entry field name = false →
       local_target packages links parent name field = Some target → local_accepted target name requirement) ∧
    ∀ name, section_get root field name =
      match local_target packages links parent name field with
      | Some _ => None
      | None => section_get entry field name
      end.
Lemma overridden_optional field name :
  overridden entry field name = true →
  field = "dependencies" ∧ is_Some (section_get entry "optionalDependencies" name).
Proof.
  unfold overridden, section_get. intros [Hf%str_eqb_true H]%andb_true_iff. split; [done|].
  destruct (entry !! "optionalDependencies" ≫= as_object) as [o|]; [|done]. cbn.
  unfold contains_key in H. destruct (o !! name); [by eexists|done].
Qed.
Lemma without_locals_all root :
  kept root →
  (∀ field, field ∈ manifest_sections → ∃ required, requirements entry field at_ parent = Ok required ∧
    (∀ name, is_Some (required !! name) ↔ is_Some (section_get entry field name)) ∧
    ∀ name requirement, required !! name = Some requirement → dropped field name requirement root) →
  without_locals root.
Proof.
  intros [_ Hkept] Hall field Hfield. destruct (Hall field Hfield) as (required&Hreq&Hdom&Hd).
  exists required. split_and!; [done|intros name requirement target Hr Ho Ht; by destruct (Hd _ _ Hr Ho _ Ht)|].
  assert (deciding field = field) as Hdeciding.
  { unfold deciding. destruct (str_eqb field "peerDependenciesMeta") eqn:E; [|done].
    apply str_eqb_true in E as ->. by apply not_metadata in Hfield. }
  intros name. destruct (Hkept field name) as [Heq|[Hn Hl]].
  2: { unfold resolves_locally in Hl. rewrite Hdeciding in Hl. destruct Hl as [t Ht]. by rewrite Ht. }
  destruct (local_target packages links parent name field) as [target|] eqn:Ht; [|done].
  destruct (section_get entry field name) as [v|] eqn:Hv; [|done].
  destruct (required !! name) as [requirement|] eqn:Hr.
  2: { exfalso. assert (is_Some (required !! name)) as [r Hr'] by (apply Hdom; by eexists). congruence. }
  destruct (overridden entry field name) eqn:Ho; [|by eapply Hd].
  apply overridden_optional in Ho as [-> Hopt].
  destruct (Hall "optionalDependencies") as (required'&_&Hdom'&Hd'); [by do 2 right; left|].
  destruct (proj2 (Hdom' name) Hopt) as [requirement' Hr'].
  assert (local_target packages links parent name "optionalDependencies" = Some target) as Ht' by done.
  by destruct (Hd' _ _ Hr' eq_refl target Ht') as (_&_&Hnone&_); apply Hnone.
Qed.
Lemma runs_drop_all :
  runs (try_fold (drop_locals packages workspaces links entry at_ parent) entry manifest_sections) without_locals.
Proof.
  eapply runs_weaken.
  { apply (runs_fold_prefix (λ pre root, kept root ∧ ∀ field, field ∈ pre →
      ∃ required, requirements entry field at_ parent = Ok required ∧
      (∀ name, is_Some (required !! name) ↔ is_Some (section_get entry field name)) ∧
      ∀ name requirement, required !! name = Some requirement → dropped field name requirement root)).
    - split; [|by intros ? ?%not_elem_of_nil]. split; [done|by left].
    - intros pre field root Hin [Hk Hall].
      eapply runs_weaken; [apply runs_drop_locals; [|done]|].
      { intros ->. by apply not_metadata in Hin. }
      intros root' (Hk'&Hs&required&Hnew). split; [done|].
      intros f [Hf|Hf%list_elem_of_singleton]%elem_of_app; [|subst; by exists required].
      destruct (Hall f Hf) as (r&Hr&Hdom&Hd). exists r. split_and!; [done..|].
      intros; by eapply dropped_shrinks, Hd. }
  intros root [Hk Hall]. by apply without_locals_all.
Qed.

(** The entry points of the manifest without its local requirements. *)
Definition entry_points (points : ImportedNpmEntryPoints) : Prop :=
  ∃ root dependencies dev optional peers meta regular peer,
    without_locals root ∧
    requirements root "dependencies" at_ parent = Ok dependencies ∧
    requirements root "devDependencies" at_ parent = Ok dev ∧
    requirements root "optionalDependencies" at_ parent = Ok optional ∧
    requirements root "peerDependencies" at_ parent = Ok peers ∧
    optional_peers root at_ parent peers = Ok meta ∧ dev_agrees packages parent dependencies dev ∧
    edges_of packages parent false (extend (extend dependencies dev) optional) (dom optional) regular ∧
    edges_of packages parent true peers meta peer ∧
    joined regular (dom optional) meta peer (ep_dependencies points, ep_optional_dependencies points).
End entry.

Section entry_roots.
Context `{SV : Semver} `{UC : UrlCrate} `{B64 : Base64}.
Implicit Types (packages : gmap string ImportedNpmPackage) (workspaces : gmap string json).

Lemma runs_entry_roots entry parent packages workspaces links :
  links_ok workspaces links → members_ok workspaces →
  runs (entry_roots entry parent packages workspaces links)
    (entry_points packages workspaces links entry (pointer "/packages" parent) parent).
Proof.
  intros Hlinks Hmembers. unfold entry_roots.
  eapply runs_bind; [apply runs_requirements|]. intros original _.
  eapply runs_bind; [apply runs_optional_peers|]. intros _ _.
  eapply runs_bind; [by apply runs_drop_all|]. intros root Hroot.
  eapply runs_bind; [apply runs_eq, runs_requirements|]. intros dependencies (Hdeps&Hv1&_).
  eapply runs_bind; [apply runs_eq, runs_requirements|]. intros dev (Hdev&Hv2&_).
  eapply runs_bind; [by apply runs_add_devs|]. intros ? [-> Hagree].
  eapply runs_bind; [apply runs_eq, runs_requirements|]. intros optional (Hopt&Hv3&_).
  eapply runs_bind; [apply runs_root_edges; by repeat apply valid_names_extend|]. intros regular Hregular.
  eapply runs_bind; [apply runs_eq, runs_requirements|]. intros peers (Hpeers&Hv4&_).
  eapply runs_bind; [apply runs_eq, runs_optional_peers|]. intros meta [Hmeta _].
  eapply runs_bind; [by apply runs_peer_roots|]. intros [roots optional_roots] (peer&Hpeer&Hj). cbn.
  by exists root, dependencies, dev, optional, peers, meta, regular, peer.
Qed.
Lemma entry_points_placed entry at_ parent packages workspaces links points name target :
  entry_points packages workspaces links entry at_ parent points →
  ep_dependencies points !! name = Some target → is_Some (packages !! target).
Proof.
  intros (root&deps&dev&opt&peers&meta&regular&peer&_&_&_&_&_&_&_&Hr&Hp&[Hj _]). cbn in Hj. rewrite Hj.
  intros [Ht|[_ Ht]]%lookup_union_Some_raw; [by eapply edges_of_placed in Ht as [? _]|by eapply edges_of_placed in Ht as [? _]].
Qed.
End entry_roots.
