(* ===== verification/NpmPlaced.v ===== *)
(** * The placement graph before its last validation

    How the entry points of members join those of the root, and what [placement_graph]
    establishes of the document it reads
    (crates/tapid-lockfile/src/npm_import/parse.rs, [graph]). *)
From S2P Require Import Prelude Order RustStr Crates Samples Core Requirement LockKey Json Manifest Search NpmImport NpmRun NpmInv NpmEntry.

(** ** Hoisting the entry points of members *)
Section hoisting.
Context `{SV : Semver} `{UC : UrlCrate} `{B64 : Base64}.
Implicit Types (start points : gmap string string * gset string) (ep : ImportedNpmEntryPoints).

(** The names (with their optionality) that are entry points of the root after [handled]. *)
Definition hoisted start (handled : list (string * bool)) points : Prop :=
  (∀ name, points.1 !! name =
     match start.1 !! name with
     | Some target => Some target
     | None => if bool_decide (name ∈ handled.*1) then Some ("node_modules/" +:+ name) else None
     end) ∧
  ∀ name, name ∈ points.2 ↔
    (name, false) ∉ handled ∧ (name ∈ start.2 ∨ (start.1 !! name = None ∧ name ∈ handled.*1)).
Lemma hoisted_nil start : hoisted start [] start.
Proof.
  split; intros name.
  - rewrite bool_decide_eq_false_2 by (by intros ?%not_elem_of_nil). by destruct (start.1 !! name).
  - split; [intros H; split; [by apply not_elem_of_nil|by left]|].
    by intros [_ [? |[_ ?%not_elem_of_nil]]].
Qed.
Definition use_of ep (name : string) : string * bool := (name, bool_decide (name ∈ ep_optional_dependencies ep)).
Lemma hoist_other ep points name target :
  target ≠ "node_modules/" +:+ name → hoist ep points (name, target) = points.
Proof.
  intros Hne. unfold hoist. destruct points as [roots optional]. destruct (str_eqb _ _) eqn:E; [|done].
  by apply str_eqb_true in E.
Qed.
Lemma hoisted_other (name x : string) (o : bool) handled :
  x ≠ name → (x ∈ (handled ++ [(name, o)]).*1 ↔ x ∈ handled.*1) ∧ ((x, false) ∉ handled ++ [(name, o)] ↔ (x, false) ∉ handled).
Proof.
  intros Hne. rewrite fmap_app. cbn. split; [|f_equiv]; rewrite elem_of_app, list_elem_of_singleton; naive_solver.
Qed.
Lemma hoist_step ep start handled points name :
  hoisted start handled points →
  hoisted start (handled ++ [use_of ep name]) (hoist ep points (name, "node_modules/" +:+ name)).
Proof.
  intros [Hroots Hopt]. destruct points as [roots optional]. cbn [fst snd] in *.
  unfold hoist. rewrite str_eqb_refl. unfold use_of. set (o := bool_decide (name ∈ _)).
  assert (name ∈ (handled ++ [(name, o)]).*1) as Hin.
  { rewrite fmap_app. apply elem_of_app. right. by left. }
  assert (contains_key name roots = true ↔ is_Some (start.1 !! name) ∨ name ∈ handled.*1) as Hcontains.
  { unfold contains_key. rewrite Hroots. destruct (start.1 !! name); [naive_solver|]. case_bool_decide; [naive_solver|].
    split; [done|]. by intros [[? [=]]|?]. }
  split; intros x; cbn [fst snd].
  - destruct (decide (x = name)) as [-> |Hne].
    + rewrite (bool_decide_eq_true_2 _ Hin). destruct (contains_key name roots) eqn:Hc.
      * rewrite Hroots. destruct (start.1 !! name) eqn:E; [done|]. rewrite bool_decide_eq_true_2; [done|].
        destruct (proj1 Hcontains eq_refl) as [[t Ht]|]; [congruence|done].
      * rewrite lookup_insert_eq. destruct (start.1 !! name) eqn:E; [|done].
        assert (false = true); [|done]. apply Hcontains. left. by eexists.
    + rewrite (bool_decide_ext _ _ (proj1 (hoisted_other name x o handled Hne))), <-Hroots.
      by destruct (contains_key name roots); rewrite ?lookup_insert_ne.
  - destruct (decide (x = name)) as [-> |Hne].
    2: { destruct (hoisted_other name x o handled Hne) as [-> ->]. rewrite <-Hopt.
         destruct o, (contains_key name roots); set_solver. }
    specialize (Hopt name). destruct o.
    + assert ((name, false) ∉ handled ++ [(name, true)] ↔ (name, false) ∉ handled) as ->.
      { f_equiv. rewrite elem_of_app, list_elem_of_singleton. naive_solver. }
      destruct (contains_key name roots) eqn:Hc.
      * rewrite Hopt. destruct (proj1 Hcontains eq_refl) as [[t Ht]|Hh]; [rewrite Ht|]; naive_solver.
      * assert (name ∉ handled.*1 ∧ start.1 !! name = None) as [Hh Hs].
        { split; [intros H|apply eq_None_not_Some; intros H]; (assert (false = true); [|done]); apply Hcontains; auto. }
        split; [|set_solver]. intros _. split; [|by right]. intros Hf. apply Hh, list_elem_of_fmap. by exists (name, false).
    + split; [set_solver|]. intros [[] _]. apply elem_of_app. right. by left.
Qed.
Lemma hoist_all ep start handled points :
  hoisted start handled points →
  ∃ handled', hoisted start handled' (foldl (hoist ep) points (btree_iter (ep_dependencies ep))) ∧
    ∀ use, use ∈ handled' ↔ use ∈ handled ∨
      ∃ name, ep_dependencies ep !! name = Some ("node_modules/" +:+ name) ∧ use = use_of ep name.
Proof.
  assert (∀ l points handled, hoisted start handled points → ∃ handled', hoisted start handled' (foldl (hoist ep) points l) ∧
    ∀ use, use ∈ handled' ↔ use ∈ handled ∨ ∃ name, (name, "node_modules/" +:+ name) ∈ l ∧ use = use_of ep name) as Hl.
  { induction l as [|[name target] l IH]; intros points' handled' Hh; cbn [foldl].
    - exists handled'. split; [done|]. intros use. split; [by left|by intros [? |(?&?%not_elem_of_nil&_)]].
    - destruct (decide (target = "node_modules/" +:+ name)) as [-> |Hne].
      + destruct (IH _ _ (hoist_step ep _ _ _ name Hh)) as (handled''&Hh'&Huse). exists handled''. split; [done|].
        intros use. rewrite Huse, elem_of_app, list_elem_of_singleton. setoid_rewrite elem_of_cons. naive_solver.
      + rewrite hoist_other by done. destruct (IH _ _ Hh) as (handled''&Hh'&Huse). exists handled''. split; [done|].
        intros use. rewrite Huse. setoid_rewrite elem_of_cons. naive_solver. }
  intros Hh. destruct (Hl (btree_iter (ep_dependencies ep)) _ _ Hh) as (handled'&Hh'&Huse).
  exists handled'. split; [done|]. intros use. rewrite Huse. by setoid_rewrite elem_of_btree_iter.
Qed.
End hoisting.

(** ** The placement graph *)
Section placed_graph.
Context `{SV : Semver} `{UC : UrlCrate} `{B64 : Base64}.
Implicit Types (g : ImportedNpmGraph).

(** A member asks for the package that is placed at the root under [name]. *)
Definition member_use (member_roots : gmap string ImportedNpmEntryPoints) (use : string * bool) : Prop :=
  ∃ path ep, member_roots !! path = Some ep ∧
    ep_dependencies ep !! use.1 = Some ("node_modules/" +:+ use.1) ∧ use = use_of ep use.1.
Record members_joined packages workspaces links (start : gmap string string * gset string)
    (roots : gmap string string * gset string) (member_roots : gmap string ImportedNpmEntryPoints) : Prop := {
  mj_members path ep : member_roots !! path = Some ep → ∃ w o, workspaces !! path = Some w ∧
    as_object w = Some o ∧ entry_points packages workspaces links o (pointer "/packages" path) path ep;
  mj_hoisted : ∃ handled, hoisted start handled roots ∧ ∀ use, use ∈ handled ↔ member_use member_roots use;
}.
Lemma runs_member_points packages workspaces links start :
  links_ok workspaces links → members_ok workspaces →
  runs (try_fold (member_points packages workspaces links) (start.1, start.2, ∅) (btree_iter workspaces))
    (λ points, members_joined packages workspaces links start points.1 points.2 ∧ dom points.2 = dom workspaces).
Proof.
  intros Hlinks Hmembers.
  apply (runs_fold_map (λ handled points, members_joined packages workspaces links start points.1 points.2 ∧
    dom points.2 = dom handled)).
  - split; [|by rewrite !dom_empty_L]. split; cbn; [by intros ? ? ?%lookup_empty_Some|].
    exists []. destruct start. split; [apply hoisted_nil|]. intros use.
    split; [by intros ?%not_elem_of_nil|by intros (?&?&?%lookup_empty_Some&_)].
  - intros handled path member [roots member_roots] Hm Hnew [Hj Hdom]. cbn [fst snd] in *. unfold member_points.
    destruct (Hmembers _ _ Hm) as [(o&->&_)].
    eapply runs_bind; [eapply (runs_expect _ o (λ a, a = o)); [apply as_object_of_object|done]|]. intros ? ->.
    eapply runs_bind; [by apply runs_entry_roots|]. intros ep Hep. cbn [runs fst snd].
    destruct Hj as [Hms (uses&Hh&Huses)]. split; [|by rewrite !dom_insert_L, Hdom]. split.
    + intros path' ep' [[<- <-]|[_ He]]%lookup_insert_Some; [|by apply Hms].
      exists (of_object o), o. split_and!; [done|apply as_object_of_object|done].
    + destruct (hoist_all ep _ _ _ Hh) as (uses'&Hh'&Huses'). exists uses'. split; [done|].
      intros use. rewrite Huses', Huses. unfold member_use. split.
      * intros [(p&e&He&Hd&Hu)|(name&Hd&->)]; [|by exists path, ep; rewrite lookup_insert_eq].
        exists p, e. rewrite lookup_insert_ne; [done|]. intros <-. apply not_elem_of_dom in Hnew.
        rewrite <-Hdom in Hnew. apply Hnew, elem_of_dom. by eexists.
      * intros (p&e&[[<- <-]|[_ He]]%lookup_insert_Some&Hd&Hu); [right; by exists use.1|left; by exists p, e].
Qed.
Lemma package_read_bare entries workspaces path p p' :
  bare p = bare p' → package_read entries workspaces path p → package_read entries workspaces path p'.
Proof.
  destruct p, p'. unfold bare, with_edges. cbn. intros [= -> -> -> -> -> -> -> -> -> ->]. done.
Qed.
Lemma packages_read_same entries workspaces packages packages' :
  same_placements packages packages' →
  packages_read entries workspaces packages → packages_read entries workspaces packages'.
Proof.
  intros Hsame [Hread Hall]. split.
  - intros path p Hp. symmetry in Hsame. destruct (same_placements_at _ _ _ _ Hsame Hp) as (p'&Hp'&Hb).
    eapply package_read_bare; [symmetry; exact Hb|by apply Hread].
  - intros path o Hne Ho Hl Hw. eapply same_placements_keys; [symmetry; exact Hsame|by eapply Hall].
Qed.
(** What the graph takes from the document. *)
Record graph_read (input : json) g : Prop := {
  gr_document : ∃ entries root points, read_top input = Ok (entries, root) ∧
    packages_read entries (ng_workspaces g) (ng_packages g) ∧
    (∀ path p, ng_packages g !! path = Some p → connected entries (ng_packages g) path p) ∧
    entry_points (ng_packages g) (ng_workspaces g) (ng_workspace_links g) root (pointer "/packages" "") "" points ∧
    members_joined (ng_packages g) (ng_workspaces g) (ng_workspace_links g)
      (ep_dependencies points, ep_optional_dependencies points) (ng_roots g, ng_optional_roots g) (ng_member_roots g);
  gr_members : members_ok (ng_workspaces g) ∧ dom (ng_member_roots g) = dom (ng_workspaces g);
  gr_links : links_ok (ng_workspaces g) (ng_workspace_links g);
}.
Lemma runs_read_top input :
  runs (read_top input) (λ read, value_get "packages" input ≫= as_object = Some read.1).
Proof.
  unfold read_top. eapply runs_bind; [apply runs_object; intros o H; exact H|]. intros top Htop.
  destruct (negb _); [done|]. eapply runs_bind; [apply runs_check_fields|]. intros _ _.
  eapply runs_bind; [apply runs_ok_or; intros v H; exact H|]. intros value Hvalue.
  eapply runs_bind; [apply runs_object; intros o H; exact H|]. intros entries Hentries.
  eapply (runs_bind _ _ (λ _, True)); [by apply runs_ok_or|]. intros root _.
  eapply (runs_bind _ _ (λ _, True)); [by apply runs_object|]. intros root' _.
  eapply runs_bind; [apply runs_check_fields|]. intros _ _. cbn.
  unfold value_get. rewrite Htop. cbn. by rewrite Hvalue.
Qed.
Lemma runs_placement_graph input : runs (placement_graph input) (graph_read input).
Proof.
  unfold placement_graph.
  eapply runs_bind; [apply runs_eq, runs_read_top|]. intros [entries root] [Htop Hentries].
  eapply runs_bind; [apply runs_members|]. intros workspaces [Hm Hr].
  eapply runs_bind; [apply runs_read_links; [done|intros; by eapply Hr]|]. intros links Hlinks.
  eapply runs_bind; [apply runs_read_packages|]. intros packages0 Hread.
  eapply runs_bind; [apply runs_connect_all|].
  { intros path [p Hp]. destruct (proj1 Hread path p Hp) as (_&_&_&_&o&Ho&_). rewrite Ho. by eexists. }
  intros packages [Hsame Hconnected].
  eapply runs_bind; [by apply runs_entry_roots|]. intros points Hpoints.
  eapply runs_bind;
    [by apply (runs_member_points packages workspaces links (ep_dependencies points, ep_optional_dependencies points))|].
  intros [[roots optional_roots] member_roots] [Hj Hdom]. cbn [runs]. split; cbn; [|done|done].
  exists entries, root, points. split_and!; [done|by eapply packages_read_same|done..].
Qed.
End placed_graph.
