(* ===== verification/NpmGraph.v ===== *)
(** * Theorems of the npm graph

    The lookup along npm placements, the selection for a platform and what a validated
    placement graph promises (crates/tapid-lockfile/src/npm_import.rs,
    npm_import/parse.rs). *)
From S2P Require Import Prelude Order RustStr Crates Samples Core Requirement LockKey Json Manifest Search NpmImport NpmRun NpmInv NpmEntry NpmPlaced.

Section npm_graph.
Context `{SV : Semver} `{UC : UrlCrate} `{B64 : Base64}.
Implicit Types (g : ImportedNpmGraph) (packages : gmap string ImportedNpmPackage) (path : string) (p : ImportedNpmPackage).

(** ** Selection *)
(** Every entry point and every edge leads to a placed package. *)
Record graph_closed g : Prop := {
  gc_start path o : (path, o) ∈ start_edges g → is_Some (ng_packages g !! path);
  gc_edge path p path' o : ng_packages g !! path = Some p → (path', o) ∈ package_edges p →
    is_Some (ng_packages g !! path');
}.
Section selection.
Context (packages : gmap string ImportedNpmPackage) (supported : ImportedNpmPackage → bool).
(** A placement that is asked for, as required or as optional. *)
Inductive pulled (start : list (string * bool)) : string * bool → Prop :=
| pulled_start k : k ∈ start → pulled start k
| pulled_next path o p k :
    pulled start (path, o) → packages !! path = Some p → supported p = true → k ∈ package_edges p →
    pulled start k.
Definition expand_selected (k : string * bool) : result npm_failure (list (string * bool)) :=
  match packages !! k.1 with
  | None => Err NpmPanics
  | Some p =>
      if supported p then Ok (package_edges p)
      else if k.2 then Ok [] else Err (incompatible k.1 p)
  end.
Definition supported_at (k : string * bool) : bool :=
  match packages !! k.1 with Some p => supported p | None => false end.
Definition selection (visited : gset (string * bool)) : gset string :=
  set_map fst (filter (λ k, supported_at k = true) visited).
Lemma elem_of_selection visited path :
  path ∈ selection visited ↔ ∃ o, (path, o) ∈ visited ∧ supported_at (path, o) = true.
Proof.
  unfold selection. rewrite elem_of_map. setoid_rewrite elem_of_filter. split.
  - intros ([x o]&->&?&?). by exists o.
  - intros (o&?&?). by exists (path, o).
Qed.
Lemma selection_empty : selection ∅ = ∅.
Proof. apply set_eq. intros path. rewrite elem_of_selection. set_solver. Qed.
Lemma selection_visit visited k :
  selection ({[k]} ∪ visited) = if supported_at k then {[k.1]} ∪ selection visited else selection visited.
Proof.
  apply set_eq. intros path. destruct k as [x o]. rewrite elem_of_selection.
  setoid_rewrite elem_of_union. setoid_rewrite elem_of_singleton. destruct (supported_at (x, o)) eqn:E.
  - rewrite elem_of_union, elem_of_singleton, elem_of_selection. cbn [fst]. split.
    + intros (o'&[[= -> ->]|Hin]&Hs); [by left|right; by exists o'].
    + intros [-> |(o'&Hin&Hs)]; [exists o; by split; [left|]|exists o'; by split; [right|]].
  - rewrite elem_of_selection. split.
    + intros (o'&[[= -> ->]|Hin]&Hs); [congruence|by exists o'].
    + intros (o'&Hin&Hs). exists o'. by split; [right|].
Qed.
(** The loop is the search that remembers what it has visited. *)
Lemma select_loop_dfs fuel visited pending :
  select_loop fuel packages supported (selection visited) visited pending =
  (λ r, match r with Ok found => Ok (selection found) | Err e => Err e end)
    <$> dfs fuel expand_selected visited pending.
Proof.
  revert visited pending. induction fuel as [|fuel IH]; intros visited [|[path o] pending]; try done.
  cbn [select_loop dfs]. case_bool_decide; [apply IH|].
  pose proof (selection_visit visited (path, o)) as Hsel. unfold supported_at in Hsel. cbn [fst] in Hsel.
  unfold expand_selected. cbn [fst snd]. destruct (packages !! path) as [p|]; [|done].
  destruct (supported p); [by rewrite <-IH, Hsel|].
  destruct o; [|done]. cbn [rev app]. by rewrite <-IH, Hsel.
Qed.
Lemma reached_pulled start k : reached expand_selected start k ↔ pulled start k.
Proof.
  split.
  - induction 1 as [k Hk|[path o] next k' _ IH Hn Hk]; [by constructor|].
    unfold expand_selected in Hn. cbn [fst snd] in Hn. destruct (packages !! path) as [p|] eqn:Hp; [|done].
    destruct (supported p) eqn:Hs; [|destruct o; [|done]].
    + injection Hn as <-. by eapply pulled_next.
    + injection Hn as <-. by apply not_elem_of_nil in Hk.
  - induction 1 as [k Hk|path o p k _ IH Hp Hs Hk]; [by constructor|].
    eapply reached_next; [exact IH| |exact Hk]. unfold expand_selected. cbn [fst]. by rewrite Hp, Hs.
Qed.
End selection.

Lemma length_package_edges p : length (package_edges p) = length (package_targets p).
Proof.
  unfold package_edges, package_targets, btree_values. by rewrite !length_app, !length_fmap.
Qed.
(** Both flavours of every placement. *)
Definition flavours packages : list (string * bool) :=
  concat ((λ path, [(path, true); (path, false)]) <$> btree_keys packages).
Lemma elem_of_flavours packages path o : (path, o) ∈ flavours packages ↔ is_Some (packages !! path).
Proof.
  unfold flavours. rewrite elem_of_concat_fmap. setoid_rewrite elem_of_btree_keys. split.
  - intros (x&Hx&[[= -> ->]|[[= -> ->]|?%not_elem_of_nil]%elem_of_cons]%elem_of_cons); done.
  - intros Hp. exists path. split; [done|]. destruct o; [by left|right; by left].
Qed.
Lemma flavours_NoDup packages : NoDup (flavours packages).
Proof.
  unfold flavours. pose proof (sorted_lt_NoDup _ (btree_keys_ascending packages)) as Hnd.
  induction Hnd as [|path l Hl Hnd IH]; [constructor|]. cbn [fmap list_fmap concat app].
  assert (∀ o, (path, o) ∉ concat ((λ path, [(path, true); (path, false)]) <$> l)) as Hno.
  { intros o Hin. apply elem_of_concat_fmap in Hin as (x&Hx&Hin).
    assert (x = path) as -> by set_solver. done. }
  constructor; [|constructor; [apply Hno|done]]. intros [[=]|Hin]%elem_of_cons. by eapply Hno.
Qed.
Lemma todo_flavours packages supported :
  (todo (expand_selected packages supported) (flavours packages) ∅ ≤ 2 * total_targets packages)%nat.
Proof.
  unfold flavours, total_targets, btree_values, btree_keys.
  assert (∀ l : list (string * ImportedNpmPackage), (∀ k p, (k, p) ∈ l → packages !! k = Some p) →
    (todo (expand_selected packages supported) (concat ((λ path, [(path, true); (path, false)]) <$> l.*1)) ∅
     ≤ 2 * foldr plus 0 (length ∘ package_targets <$> l.*2))%nat) as Hl.
  { induction l as [|[k p] l IH]; intros Hin; [cbn; lia|]. cbn [fmap list_fmap concat app foldr fst snd].
    rewrite !todo_cons. cbn [compose].
    assert (∀ o, (cost (expand_selected packages supported) (k, o) ≤ length (package_targets p))%nat) as Hcost.
    { intros o. unfold cost, expand_selected. cbn [fst snd]. rewrite (Hin k p) by by left.
      destruct (supported p); [by rewrite length_package_edges|destruct o; cbn; lia]. }
    pose proof (Hcost true). pose proof (Hcost false).
    assert ((todo (expand_selected packages supported) (concat ((λ path, [(path, true); (path, false)]) <$> l.*1)) ∅
     ≤ 2 * foldr plus 0 (length ∘ package_targets <$> l.*2))%nat) by (apply IH; intros; apply Hin; by right).
    cbn [bool_decide]. do 2 case_bool_decide; lia. }
  apply Hl. intros k p. by rewrite elem_of_btree_iter.
Qed.

(** C8: the selection for a platform always ends, and on a graph without dangling edges it
    never panics.  It selects exactly the supported placements that the entry points pull
    in through supported ones, tolerating an unsupported placement where it is optional;
    it fails precisely if some placement that is required is unsupported, and then names
    such a placement. *)
Theorem selected_paths_spec g os cpu libc :
  graph_closed g →
  let supported := supports os cpu libc in
  let asked := pulled (ng_packages g) supported (start_edges g) in
  match selected_paths g os cpu libc with
  | Some (Ok selected) =>
      (∀ path, path ∈ selected ↔
         ∃ o p, asked (path, o) ∧ ng_packages g !! path = Some p ∧ supported p = true) ∧
      (∀ path p, asked (path, false) → ng_packages g !! path = Some p → supported p = true)
  | Some (Err e) =>
      ∃ path p, asked (path, false) ∧ ng_packages g !! path = Some p ∧ supported p = false ∧
        e = incompatible path p
  | None => False
  end.
Proof.
  intros [Hstart Hedge]. cbn zeta. unfold selected_paths.
  generalize (supports os cpu libc) as supported. intros supported.
  set (start := start_edges g) in *. set (fuel := select_fuel _ _).
  pose proof (select_loop_dfs (ng_packages g) supported fuel ∅ (rev start)) as Hloop.
  rewrite selection_empty in Hloop. rewrite Hloop. clear Hloop.
  pose proof (dfs_from_start (expand_selected (ng_packages g) supported) fuel (rev start)) as Hdfs.
  assert (dfs fuel (expand_selected (ng_packages g) supported) ∅ (rev start) ≠ None) as Htotal.
  { apply (dfs_total _ (flavours (ng_packages g))); [apply flavours_NoDup| |].
    - intros [path o] Hc. apply elem_of_flavours, not_eq_None_Some. intros Hp. apply Hc.
      unfold cost, expand_selected. cbn [fst]. by rewrite Hp.
    - pose proof (todo_flavours (ng_packages g) supported). unfold fuel, select_fuel. lia. }
  assert (∀ k, pulled (ng_packages g) supported start k → is_Some (ng_packages g !! k.1)) as Hplaced.
  { induction 1 as [[path o] Hk|path o p [path' o'] _ _ Hp Hs Hk]; [by eapply Hstart|by eapply Hedge]. }
  assert (∀ k, reached (expand_selected (ng_packages g) supported) (rev start) k ↔
            pulled (ng_packages g) supported start k) as Hreach.
  { intros k. by rewrite reached_reverse, reached_pulled. }
  destruct (dfs fuel _ ∅ _) as [[found|e]|]; [| |done]; cbn.
  - split.
    + intros path. rewrite elem_of_selection. unfold supported_at. cbn [fst]. split.
      * intros (o&Hf&Hs). apply (proj1 (proj1 (Hdfs _))), Hreach in Hf. revert Hs.
        destruct (ng_packages g !! path) as [p|]; [intros Hs; by exists o, p|done].
      * intros (o&p&Hf&Hp&Hs). exists o. rewrite Hp. split; [|done]. by apply Hdfs, Hreach.
    + intros path p Hf Hp. apply Hreach, (proj1 (Hdfs _)), Hdfs in Hf. unfold expand_selected in Hf.
      cbn [fst snd] in Hf. rewrite Hp in Hf. by destruct (supported p).
  - destruct Hdfs as ([path o]&Hf%Hreach&He). destruct (Hplaced _ Hf) as [p Hp]. cbn [fst] in Hp.
    unfold expand_selected in He. cbn [fst snd] in He. rewrite Hp in He.
    destruct (supported p) eqn:Hs; [done|]. destruct o; [done|]. injection He as <-. by exists path, p.
Qed.

(** ** Instances *)
Lemma elem_of_package_targets p target :
  target ∈ package_targets p ↔ (∃ name, np_dependencies p !! name = Some target) ∨ ∃ name, np_peers p !! name = Some target.
Proof. unfold package_targets. by rewrite elem_of_app, !elem_of_btree_values. Qed.
Lemma elem_of_start_paths g target :
  target ∈ start_paths g ↔ (∃ name, ng_roots g !! name = Some target) ∨
    ∃ member ep name, ng_member_roots g !! member = Some ep ∧ ep_dependencies ep !! name = Some target.
Proof.
  unfold start_paths. rewrite elem_of_app, elem_of_concat_fmap, elem_of_btree_values. f_equiv.
  setoid_rewrite elem_of_btree_values. naive_solver.
Qed.
(** No dangling edges, and peers with valid names. *)
Record resolved_edges g : Prop := {
  re_start target : target ∈ start_paths g → is_Some (ng_packages g !! target);
  re_edge path p target : ng_packages g !! path = Some p → target ∈ package_targets p →
    is_Some (ng_packages g !! target);
  re_peer path p name target : ng_packages g !! path = Some p → np_peers p !! name = Some target →
    is_Some (to_ok (PackageName_from_str name));
}.
Lemma elem_of_entry_edges (dependencies : gmap string string) optional target o :
  (target, o) ∈ entry_edges dependencies optional → ∃ name, dependencies !! name = Some target.
Proof.
  unfold entry_edges. intros ([name t]&[= -> ->]&Hin%elem_of_btree_iter)%list_elem_of_fmap. by exists name.
Qed.
Lemma resolved_closed g : resolved_edges g → graph_closed g.
Proof.
  intros [Hstart Hedge _]. split.
  - intros path o Hin. apply Hstart, elem_of_start_paths. unfold start_edges in Hin.
    apply elem_of_app in Hin as [Hin%elem_of_entry_edges|Hin]; [by left|right].
    apply elem_of_concat_fmap in Hin as (ep&[member Hep]%elem_of_btree_values&[name Hn]%elem_of_entry_edges).
    by exists member, ep, name.
  - intros path p path' o Hp Hin. eapply Hedge; [done|]. apply elem_of_package_targets. unfold package_edges in Hin.
    apply elem_of_app in Hin as [Hin|Hin]; [left|right]; apply (elem_of_entry_edges _ _ _ _ Hin).
Qed.
(** The instance of a placement: its package with the versions of its peers. *)
Definition instance packages path : option string :=
  p ← packages !! path; to_ok (snd <$> instance_key packages (path, p)).
Definition instance_edges packages p : gmap string string :=
  omap (instance packages) (extend (np_dependencies p) (np_peers p)).
Lemma runs_peer_context packages path p :
  packages !! path = Some p →
  (∀ name target, np_peers p !! name = Some target →
     is_Some (to_ok (PackageName_from_str name)) ∧ is_Some (packages !! target)) →
  runs (peer_context packages path) (λ _, True).
Proof.
  intros Hp Hpeers. unfold peer_context. eapply runs_bind; [by eapply (runs_expect _ p (λ a, a = p))|]. intros ? ->.
  apply runs_fold; [done|]. intros context [name target] Hin%elem_of_btree_iter _. cbn [fst snd].
  destruct (Hpeers _ _ Hin) as [[n Hn] [q Hq]].
  eapply runs_bind; [by eapply (runs_expect _ n (λ _, True))|]. intros ? _.
  eapply runs_bind; [by eapply (runs_expect _ q (λ _, True))|]. by intros.
Qed.
Lemma runs_instance_keys g :
  resolved_edges g →
  runs (instance_keys (ng_packages g)) (λ keys, ∀ path,
    keys !! path = instance (ng_packages g) path ∧ (is_Some (ng_packages g !! path) → is_Some (keys !! path))).
Proof.
  intros [_ Hedge Hpeer]. unfold instance_keys. apply runs_fmap. eapply runs_weaken.
  { apply (runs_map (λ entry found, found.1 = entry.1 ∧ instance_key (ng_packages g) entry = Ok found)).
    intros [path p] Hin%elem_of_btree_iter. cbn [fst]. unfold instance_key.
    eapply runs_bind; [apply runs_eq; eapply runs_peer_context; [done|]|].
    { intros name target Ht. split; [by eapply Hpeer|]. eapply Hedge; [done|]. apply elem_of_package_targets. right. by exists name. }
    intros context [Hcontext _]. cbn. rewrite Hcontext. done. }
  intros found Hall. set (l := btree_iter (ng_packages g)) in *.
  assert (found.*1 = l.*1) as Hfst.
  { clear -Hall. induction Hall as [|entry fnd l' l'' [H _] _ IH]; cbn; [done|by rewrite H, IH]. }
  assert (NoDup found.*1) as Hnd by (rewrite Hfst; apply sorted_lt_NoDup, btree_keys_ascending).
  assert (∀ path p, ng_packages g !! path = Some p → ∃ key, (path, key) ∈ found ∧ instance_key (ng_packages g) (path, p) = Ok (path, key)) as Hin.
  { intros path p Hp%elem_of_btree_iter. apply list_elem_of_lookup in Hp as [i Hi].
    destruct (Forall2_lookup_l _ _ _ _ _ Hall Hi) as ([k key]&Hk&[Heq He]). cbn in Heq. subst k.
    exists key. split; [by eapply list_elem_of_lookup_2|done]. }
  intros path. unfold instance. destruct (ng_packages g !! path) as [p|] eqn:Hp; cbn [mbind option_bind].
  - destruct (Hin _ _ Hp) as (key&Hkey&He). rewrite He. cbn.
    rewrite (btree_collect_lookup _ _ _ Hnd Hkey). split; [done|]. by eexists.
  - rewrite btree_collect_None; [split; [done|by intros [? [=]]]|]. rewrite Hfst.
    intros H. change (path ∈ btree_keys (ng_packages g)) in H. apply elem_of_btree_keys in H as [q Hq]. congruence.
Qed.

(** ** Reachability *)
(** What the entry points need, directly or through the placements they need. *)
Inductive needed g : string → Prop :=
| needed_start path : path ∈ start_paths g → needed g path
| needed_next path p target : needed g path → ng_packages g !! path = Some p → target ∈ package_targets p → needed g target.
Definition expand_all packages path : result npm_failure (list string) :=
  match packages !! path with Some p => Ok (package_targets p) | None => Err NpmPanics end.
Lemma reach_dfs fuel packages reachable pending :
  reach fuel packages reachable pending = dfs fuel (expand_all packages) reachable pending.
Proof.
  revert reachable pending. induction fuel as [|fuel IH]; intros reachable [|path pending]; try done.
  cbn [reach dfs]. case_bool_decide; [apply IH|]. unfold expand_all. destruct (packages !! path); [apply IH|done].
Qed.
Lemma reached_needed g path : reached (expand_all (ng_packages g)) (start_paths g) path ↔ needed g path.
Proof.
  unfold expand_all. split.
  - induction 1 as [path Hp|path next target _ IH Hn Ht]; [by constructor|].
    destruct (ng_packages g !! path) as [p|] eqn:Hp; [|done]. injection Hn as <-. by eapply needed_next.
  - induction 1 as [path Hp|path p target _ IH Hp Ht]; [by constructor|].
    eapply reached_next; [exact IH| |exact Ht]. by rewrite Hp.
Qed.
Lemma todo_paths packages :
  (todo (expand_all packages) (btree_keys packages) ∅ ≤ total_targets packages)%nat.
Proof.
  unfold total_targets, btree_values, btree_keys.
  assert (∀ l : list (string * ImportedNpmPackage), (∀ k p, (k, p) ∈ l → packages !! k = Some p) →
    (todo (expand_all packages) l.*1 ∅ ≤ foldr plus 0 (length ∘ package_targets <$> l.*2))%nat) as Hl.
  { induction l as [|[k p] l IH]; intros Hin; [cbn; lia|]. cbn [fmap list_fmap foldr fst snd]. rewrite todo_cons.
    assert (cost (expand_all packages) k = length (package_targets p)) as ->
      by (unfold cost, expand_all; by rewrite (Hin k p) by by left).
    assert ((todo (expand_all packages) l.*1 ∅ ≤ foldr plus 0 (length ∘ package_targets <$> l.*2))%nat)
      by (apply IH; intros; apply Hin; by right).
    cbn [compose]. case_bool_decide; lia. }
  apply Hl. intros k p. by rewrite elem_of_btree_iter.
Qed.
Lemma reachable_paths_needed g :
  resolved_edges g → ∃ reachable, reachable_paths g = Some (Ok reachable) ∧ ∀ path, path ∈ reachable ↔ needed g path.
Proof.
  intros [Hstart Hedge _]. unfold reachable_paths. rewrite reach_dfs. set (fuel := reach_fuel _ _).
  pose proof (dfs_from_start (expand_all (ng_packages g)) fuel (rev (start_paths g))) as Hdfs.
  assert (dfs fuel (expand_all (ng_packages g)) ∅ (rev (start_paths g)) ≠ None) as Htotal.
  { apply (dfs_total _ (btree_keys (ng_packages g))); [apply sorted_lt_NoDup, btree_keys_ascending| |].
    - intros path Hc. apply elem_of_btree_keys, not_eq_None_Some. intros Hp. apply Hc.
      unfold cost, expand_all. by rewrite Hp.
    - pose proof (todo_paths (ng_packages g)). unfold fuel, reach_fuel. lia. }
  assert (∀ path, needed g path → is_Some (ng_packages g !! path)) as Hplaced.
  { induction 1 as [path Hp|path p target _ _ Hp Ht]; [by apply Hstart|by eapply Hedge]. }
  destruct (dfs fuel _ ∅ _) as [[found|e]|]; [| |done].
  - exists found. split; [done|]. intros path. destruct (Hdfs path) as [-> _].
    by rewrite reached_reverse, reached_needed.
  - exfalso. destruct Hdfs as (path&Hr&He). rewrite reached_reverse, reached_needed in Hr.
    destruct (Hplaced _ Hr) as [p Hp]. unfold expand_all in He. by rewrite Hp in He.
Qed.
End npm_graph.
