(* ===== verification/NpmValid.v ===== *)
(** * Valid placement graphs

    The last validation of an npm lock (one artifact per registry package, one signature
    per instance, no edge from an instance to itself, peers of one registry, every placement
    needed) and the theorem of the import: it ends, never panics, and what it accepts
    is valid (crates/tapid-lockfile/src/npm_import/parse.rs, [validate_representable] and
    [graph]). *)
From S2P Require Import Prelude Order RustStr Crates Samples Core Requirement LockKey Json Manifest Lockfile Search NpmImport NpmRun NpmInv NpmEntry NpmPlaced NpmGraph.

Section npm_valid.
Context `{SV : Semver} `{UC : UrlCrate} `{B64 : Base64}.
Implicit Types (g : ImportedNpmGraph) (packages : gmap string ImportedNpmPackage) (path : string) (p : ImportedNpmPackage).

(** ** Instances and their signatures *)
Lemma try_fold_app {E A S} (f : S → A → result E S) s l l' :
  try_fold f s (l ++ l') = try_fold f s l ≫= λ s', try_fold f s' l'.
Proof. revert s. induction l as [|x l IH]; intros s; cbn; [done|]. destruct (f s x); cbn; auto. Qed.
(** No edge of [edges] leads to the instance of [path] itself. *)
Definition no_self packages path (edges : gmap string string) : Prop :=
  ∀ name target, edges !! name = Some target → instance packages target ≠ instance packages path.
Section keys.
Context (g : ImportedNpmGraph) (keys : gmap string string).
Notation packages := (ng_packages g).
Context (Hedges : resolved_edges g)
  (Hkeys : ∀ path, keys !! path = instance packages path ∧ (is_Some (packages !! path) → is_Some (keys !! path))).
Lemma runs_section_edges at_ path p start (section : gmap string string) :
  packages !! path = Some p → (∀ name target, section !! name = Some target → target ∈ package_targets p) →
  runs (try_fold (instance_edge keys at_ path) start (btree_iter section)) (λ edges,
    edges = omap (instance packages) section ∪ start ∧ no_self packages path section).
Proof.
  intros Hp Hsection. apply (runs_fold_map (λ handled edges,
    edges = omap (instance packages) handled ∪ start ∧ no_self packages path handled)).
  - split; [by rewrite omap_empty, (left_id_L ∅ (∪))|by intros ? ? ?%lookup_empty_Some].
  - intros handled name target edges Hin Hnew [-> Hself]. unfold instance_edge.
    destruct (Hkeys path) as [Hown Hsome]. destruct (Hsome ltac:(by eexists)) as [own Ho].
    destruct (Hkeys target) as [Htarget Hsome'].
    destruct Hsome' as [key Hk]; [eapply (re_edge g Hedges); [exact Hp|by eapply Hsection]|].
    rewrite Ho, Hk. cbn [npm_expect ok_or mbind result_bind].
    destruct (str_eqb own key) eqn:E; [done|]. cbn [runs].
    rewrite Hk in Htarget. rewrite Ho in Hown. split.
    + rewrite insert_union_l. f_equal. symmetry. by rewrite (omap_insert_Some _ _ _ _ key).
    + intros name' t [[<- <-]|[_ Ht]]%lookup_insert_Some; [|by eapply Hself].
      rewrite <-Htarget, <-Hown. intros [= ->]. by rewrite str_eqb_refl in E.
Qed.
Lemma runs_instance_edges at_ path p :
  packages !! path = Some p →
  runs (try_fold (instance_edge keys at_ path) ∅ (btree_iter (np_dependencies p) ++ btree_iter (np_peers p)))
    (λ edges, edges = instance_edges packages p ∧ no_self packages path (extend (np_dependencies p) (np_peers p))).
Proof.
  intros Hp. rewrite try_fold_app.
  eapply runs_bind; [apply (runs_section_edges _ _ _ _ _ Hp)|].
  { intros name target Ht. apply elem_of_package_targets. left. by exists name. }
  intros edges [-> Hdeps]. eapply runs_weaken; [apply (runs_section_edges _ _ _ _ _ Hp)|].
  { intros name target Ht. apply elem_of_package_targets. right. by exists name. }
  intros edges [-> Hpeers]. unfold instance_edges, extend. split.
  - rewrite (right_id_L ∅ (∪)). apply map_eq. intros name. rewrite lookup_union, !lookup_omap, lookup_union.
    destruct (np_peers p !! name) as [t|] eqn:Ht; cbn [mbind option_bind].
    + destruct (Hkeys t) as [Heq Hsome]. destruct Hsome as [key Hk].
      { eapply (re_edge g Hedges); [exact Hp|]. apply elem_of_package_targets. right. by exists name. }
      rewrite Hk in Heq. rewrite <-Heq. destruct (np_dependencies p !! name) as [t'|]; cbn; rewrite <-?Heq; [by destruct (instance _ t')|done].
    + by rewrite !(left_id_L None (∪)).
  - intros name target [Ht|[_ Ht]]%lookup_union_Some_raw; [by eapply Hpeers|by eapply Hdeps].
Qed.

(** ** The checks of one instance after another *)
Definition instance_ok path p : Prop :=
  (∀ name target, np_peers p !! name = Some target →
     ∃ provider, packages !! target = Some provider ∧ np_registry p = np_registry provider) ∧
  no_self packages path (extend (np_dependencies p) (np_peers p)).
Definition recorded (seen : Seen) path p : Prop :=
  seen_artifacts seen !! artifact_identity p = Some (artifact_of p) ∧
  ∃ key, instance packages path = Some key ∧
    seen_identities seen !! key = Some (signature_of p (instance_edges packages p)).
Lemma unchanged {K V} `{Countable K} `{EqDecision V} (m : gmap K V) k v :
  match m !! k with Some previous => negb (bool_decide (previous = v)) | None => false end = false →
  ∀ k' v', m !! k' = Some v' → <[k := v]> m !! k' = Some v'.
Proof.
  intros Hsame k' v' Hv. destruct (decide (k = k')) as [<- |]; [|by rewrite lookup_insert_ne].
  rewrite Hv in Hsame. apply negb_false_iff, bool_decide_eq_true in Hsame as ->. by rewrite lookup_insert_eq.
Qed.
Lemma runs_check_instance seen path p :
  packages !! path = Some p →
  runs (check_instance packages keys seen (path, p)) (λ seen', instance_ok path p ∧ recorded seen' path p ∧
    ∀ path' p', recorded seen path' p' → recorded seen' path' p').
Proof.
  intros Hp. unfold check_instance.
  destruct (match seen_artifacts seen !! artifact_identity p with Some _ => _ | None => _ end) eqn:Hartifact; [done|].
  eapply runs_bind.
  { apply (runs_for_each (λ target, ∃ provider, packages !! target = Some provider ∧ np_registry p = np_registry provider)).
    intros target [name Ht]%elem_of_btree_values. unfold same_registry.
    destruct (re_edge g Hedges path p target Hp) as [q Hq]; [apply elem_of_package_targets; right; by exists name|].
    eapply runs_bind; [by eapply (runs_expect _ q (λ a, a = q))|]. intros ? ->.
    apply runs_ensure. intros Hr%bool_decide_eq_true. by exists q. }
  intros [] Hregistry. eapply runs_bind; [by apply (runs_instance_edges _ _ _ Hp)|]. intros edges [-> Hself].
  destruct (Hkeys path) as [Hkey Hsome]. destruct (Hsome ltac:(by eexists)) as [key Hk].
  eapply runs_bind; [by eapply (runs_expect _ key (λ a, a = key))|]. intros ? ->. rewrite Hk in Hkey.
  destruct (match seen_identities seen !! key with Some _ => _ | None => _ end) eqn:Hidentity; [done|].
  cbn [runs]. split_and!.
  - split; [|done]. intros name target Ht. apply Hregistry, elem_of_btree_values. by exists name.
  - split; cbn; [apply lookup_insert_eq|]. exists key. split; [done|apply lookup_insert_eq].
  - intros path' p' [Ha (key'&Hkey'&Hs)]. split; cbn; [by apply unchanged|]. exists key'. split; [done|by apply unchanged].
Qed.
Lemma runs_check_instances :
  runs (try_fold (check_instance packages keys) (mk_seen ∅ ∅) (btree_iter packages)) (λ seen,
    ∀ path p, packages !! path = Some p → instance_ok path p ∧ recorded seen path p).
Proof.
  apply (runs_fold_map (λ handled seen, ∀ path p, handled !! path = Some p → instance_ok path p ∧ recorded seen path p)).
  - by intros ? ? ?%lookup_empty_Some.
  - intros handled path p seen Hp Hnew Hall. eapply runs_weaken; [by apply runs_check_instance|].
    intros seen' (Hok&Hrec&Hmono) path' p' [[<- <-]|[_ Hp']]%lookup_insert_Some; [done|].
    destruct (Hall _ _ Hp'). by split; [|apply Hmono].
Qed.
End keys.

(** ** What is accepted *)
Record representable g : Prop := {
  rp_needed path : is_Some (ng_packages g !! path) → needed g path;
  rp_artifact path path' p p' : ng_packages g !! path = Some p → ng_packages g !! path' = Some p' →
    artifact_identity p = artifact_identity p' → artifact_of p = artifact_of p';
  rp_instance path path' p p' : ng_packages g !! path = Some p → ng_packages g !! path' = Some p' →
    instance (ng_packages g) path = instance (ng_packages g) path' →
    signature_of p (instance_edges (ng_packages g) p) = signature_of p' (instance_edges (ng_packages g) p');
  rp_ok path p : ng_packages g !! path = Some p → instance_ok g path p;
}.
Lemma validate_representable_runs g :
  resolved_edges g → ∃ checked, validate_representable g = Some checked ∧ runs checked (λ _, representable g).
Proof.
  intros Hedges. unfold validate_representable. pose proof (runs_instance_keys g Hedges) as Hkeys.
  destruct (instance_keys (ng_packages g)) as [keys|e]; cbn in Hkeys; [|by eexists].
  destruct (reachable_paths_needed g Hedges) as (reachable&Hreach&Hneeded). rewrite Hreach.
  cbn [mbind option_bind result_bind]. eexists. split; [done|].
  eapply runs_bind.
  { apply (runs_for_each (λ path, needed g path)). intros path _. apply runs_ensure.
    intros Hin%bool_decide_eq_true. by apply Hneeded. }
  intros [] Hall. eapply runs_bind; [by apply runs_check_instances|]. intros seen Hseen. cbn [runs].
  split.
  - intros path Hp. by apply Hall, elem_of_btree_keys.
  - intros path path' p p' Hp Hp' Hid. destruct (Hseen _ _ Hp) as [_ [Ha _]], (Hseen _ _ Hp') as [_ [Ha' _]].
    rewrite Hid in Ha. congruence.
  - intros path path' p p' Hp Hp' Hi.
    destruct (Hseen _ _ Hp) as [_ [_ (key&Hk&Hs)]], (Hseen _ _ Hp') as [_ [_ (key'&Hk'&Hs')]].
    rewrite Hi, Hk' in Hk. injection Hk as ->. congruence.
  - intros path p Hp. by destruct (Hseen _ _ Hp).
Qed.

(** ** The import *)
Lemma graph_read_resolved input g : graph_read input g → resolved_edges g.
Proof.
  intros [(entries&root&points&_&_&Hconnected&Hpoints&[Hms (handled&[Hroots _]&Huses)]) _ _].
  assert (∀ path p target, ng_packages g !! path = Some p → target ∈ package_targets p → is_Some (ng_packages g !! target)) as Hedge.
  { intros path p target Hp Hin.
    destruct (Hconnected _ _ Hp) as (o&deps&opt&peers&meta&_&_&_&_&_&Hd&_&Hpe&_).
    apply elem_of_package_targets in Hin as [[name Ht]|[name Ht]];
      [by destruct (edges_of_placed _ _ _ _ _ _ _ _ Hd Ht)|by destruct (edges_of_placed _ _ _ _ _ _ _ _ Hpe Ht)]. }
  split; [|exact Hedge|].
  - intros target [(name&Ht)|(member&ep&name&Hep&Ht)]%elem_of_start_paths.
    + specialize (Hroots name). cbn [fst snd] in Hroots. rewrite Ht in Hroots.
      destruct (ep_dependencies points !! name) as [t|] eqn:Hdep.
      * injection Hroots as ->. by eapply entry_points_placed.
      * case_bool_decide as Hin; [|done]. injection Hroots as ->.
        apply list_elem_of_fmap in Hin as (use&->&(path&ep&Hep&Hd&_)%Huses).
        destruct (Hms _ _ Hep) as (w&o&_&_&He). by eapply entry_points_placed.
    + destruct (Hms _ _ Hep) as (w&o&_&_&He). by eapply entry_points_placed.
  - intros path p name target Hp Ht. destruct (Hconnected _ _ Hp) as (o&deps&opt&peers&meta&_&_&_&_&_&_&_&Hpe&_).
    destruct (edges_of_placed _ _ _ _ _ _ _ _ Hpe Ht) as (_&_&r&_&n&Hn). rewrite Hn. by eexists.
Qed.
(** C5: reading an npm lock always ends and never panics: its traversal has enough fuel and
    every index and [expect] of the code is safe.  An accepted graph has been read from
    the document as [graph_read] says (packages with checked artifact URLs, edges to the
    nearest satisfying placements, members and links that resolve), and it is
    [representable]: every placement is needed, a registry package has one artifact, an
    instance has one signature and no edge to itself, and peers share the registry. *)
Theorem graph_spec input :
  match graph input with
  | Some (Ok g) => graph_read input g ∧ graph_closed g ∧ representable g
  | Some (Err e) => e ≠ NpmPanics
  | None => False
  end.
Proof.
  unfold graph. pose proof (runs_placement_graph input) as Hread.
  destruct (placement_graph input) as [g|e]; cbn in Hread; [|by destruct e].
  pose proof (graph_read_resolved _ _ Hread) as Hedges.
  destruct (validate_representable_runs g Hedges) as (checked&->&Hchecked).
  destruct checked as [[]|e]; cbn; [|by destruct e].
  split_and!; [done|by apply resolved_closed|done].
Qed.
End npm_valid.

(** ** A lock with a linked member *)
Definition sample_object (l : list (string * json)) : json := of_object (btree_collect l).
Definition sample_entry (name version : string) (more : list (string * json)) : json :=
  sample_object ([("version", JString version);
       ("resolved", JString ("https://registry.npmjs.org/" +:+ name +:+ "/-/" +:+ name +:+ "-" +:+ version +:+ ".tgz"));
       ("integrity", JString sample_integrity)] ++ more).
Definition sample_lock : json :=
  sample_object [("lockfileVersion", JNumber 3);
      ("packages", sample_object [
        ("", sample_object [("dependencies", sample_object [("acme", JString "^1.0.0"); ("lib", JString "^0.1.0")]);
                 ("workspaces", JArray [JString "packages/lib"])]);
        ("packages/lib", sample_object [("version", JString "0.1.0");
           ("dependencies", sample_object [("left-pad", JString "^1.3.0")])]);
        ("node_modules/lib", sample_object [("resolved", JString "packages/lib"); ("link", JBool true)]);
        ("node_modules/acme", sample_entry "acme" "1.0.2" [("dependencies", sample_object [("left-pad", JString "^1.3.0")])]);
        ("node_modules/left-pad", sample_entry "left-pad" "1.3.0" [("os", JArray [JString "linux"])])])].
Definition sample_graph : ImportedNpmGraph :=
  match placement_graph sample_lock with Ok g => g | Err _ => mk_npm_graph ∅ ∅ ∅ ∅ ∅ ∅ end.
(** The entry point of the member that is placed at the root becomes one of the root; the
    requirement on the member itself is taken out. *)
Example sample_import :
  match graph sample_lock with
  | Some (Ok g) => (btree_iter (ng_roots g), btree_keys (ng_packages g), btree_iter (ng_workspace_links g))
  | _ => ([], [], [])
  end =
  ([("acme", "node_modules/acme"); ("left-pad", "node_modules/left-pad")],
   ["node_modules/acme"; "node_modules/left-pad"], [("node_modules/lib", "packages/lib")]).
Proof. vm_compute. reflexivity. Qed.
Lemma sample_graph_closed : graph_closed sample_graph.
Proof.
  apply resolved_closed, (graph_read_resolved sample_lock).
  pose proof (runs_placement_graph sample_lock) as H. unfold sample_graph.
  assert (is_ok (placement_graph sample_lock) = true) as Hok by (vm_compute; reflexivity).
  destruct (placement_graph sample_lock); [exact H|discriminate Hok].
Qed.
(** The package for linux is required, so that the selection for win32 fails at it. *)
Lemma selected_paths_spec_witness :
  graph_closed sample_graph ∧
  ∃ path p, pulled (ng_packages sample_graph) (supports "win32" "x64" None) (start_edges sample_graph) (path, false) ∧
    ng_packages sample_graph !! path = Some p ∧ supports "win32" "x64" None p = false.
Proof.
  split; [exact sample_graph_closed|].
  assert (match selected_paths sample_graph "win32" "x64" None with Some (Err _) => true | _ => false end = true) as Herr
    by (vm_compute; reflexivity).
  pose proof (selected_paths_spec sample_graph "win32" "x64" None sample_graph_closed) as H. cbn zeta in H.
  destruct (selected_paths sample_graph "win32" "x64" None) as [[selected|e]|]; [discriminate Herr| |discriminate Herr].
  destruct H as (path&p&Ha&Hp&Hs&_). exists path, p. split_and!; assumption.
Defined.
