(* ===== verification/NpmLockInv.v ===== *)
(** * Theorems of the imported npm lock

    The invariant of [ImportedNpmLockfile] under import, reading and every recording
    operation, none of which panics; the replay check; and the round trip of the schema 8
    JSON form, which holds exactly while the artifact receipts agree with the recorded
    trees (crates/tapid-lockfile/src/npm_import.rs, npm_import/workspace.rs). *)
From S2P Require Import Prelude Order RustStr Crates Samples Core Requirement LockKey Json Manifest Lockfile Search NpmImport NpmLock NpmRun NpmInv NpmEntry NpmPlaced NpmGraph NpmValid.

(** ** Canonical values *)
Definition canonical (v : json) : Prop := to_value v = v ∧ no_duplicates v = true.
Lemma no_duplicates_object (m : gmap string json) :
  (∀ k v, m !! k = Some v → no_duplicates v = true) → no_duplicates (of_object m) = true.
Proof.
  intros Hm. cbn. apply andb_true_iff. split.
  - apply bool_decide_eq_true, sorted_lt_NoDup, btree_keys_ascending.
  - apply forallb_forall. intros [k v] Hin%list_elem_of_In%elem_of_btree_iter. by eapply Hm.
Qed.
Lemma no_duplicates_to_value v : no_duplicates (to_value v) = true.
Proof.
  induction v as [| | | | |l Hl|fields Hf] using json_induction; try done.
  - cbn. apply forallb_forall. intros w (v&->&Hv)%list_elem_of_In%list_elem_of_fmap.
    rewrite Forall_forall in Hl. by apply Hl.
  - rewrite to_value_object. apply no_duplicates_object. intros k w. rewrite lookup_fmap.
    intros (v&Hv&->)%fmap_Some. apply btree_collect_elem in Hv. rewrite Forall_forall in Hf. exact (Hf _ Hv).
Qed.
Lemma canonical_to_value v : canonical (to_value v).
Proof. split; [apply to_value_idem|apply no_duplicates_to_value]. Qed.
Lemma canonical_child fields k v : canonical (JObject fields) → (k, v) ∈ fields → canonical v.
Proof.
  intros [Hc _] Hin. rewrite to_value_object in Hc. injection Hc as Hc. rewrite <-Hc in Hin.
  apply elem_of_btree_iter in Hin. rewrite lookup_fmap in Hin. apply fmap_Some in Hin as (w&_&->).
  apply canonical_to_value.
Qed.
Lemma canonical_item l v : canonical (JArray l) → v ∈ l → canonical v.
Proof.
  intros [Hc _] Hin. cbn in Hc. injection Hc as Hc. rewrite <-Hc in Hin.
  apply list_elem_of_fmap in Hin as (w&->&_). apply canonical_to_value.
Qed.
(** Every field of a struct is a child of the value it is read from. *)
Lemma struct_fields_canonical deny specs v fields w :
  canonical v → struct_fields deny specs v = Some fields → Some w ∈ fields → canonical w.
Proof.
  intros Hc. unfold struct_fields. destruct v as [| | | | |l|o]; try done.
  - intros Hf Hin. apply (canonical_item l); [done|]. clear Hc. revert l fields Hf Hin.
    induction specs as [|[n pres] specs IH]; intros [|v l] fields; cbn [array_fields].
    + by intros [= <-] ?%not_elem_of_nil.
    + done.
    + destruct pres; try done. intros (rest&Hr&[= <-])%bind_Some [[=]|Hin]%elem_of_cons. by eapply (IH []).
    + intros (rest&Hr&[= <-])%bind_Some [[= <-]|Hin]%elem_of_cons; [by left|right; by eapply IH].
  - destruct (_ && _); [done|]. intros Hf%mapM_Some Hin. apply list_elem_of_lookup in Hin as [i Hi].
    destruct (Forall2_lookup_r _ _ _ _ _ Hf Hi) as ([n pres]&_&Ho). unfold object_field in Ho. cbn [fst snd] in Ho.
    destruct (base.filter (λ kv, kv.1 = n) o) as [|[k u] [|? ?]] eqn:Hfilter; [by destruct pres| |done].
    injection Ho as ->. apply (canonical_child o k); [done|].
    assert ((k, w) ∈ base.filter (λ kv, kv.1 = n) o) as [_ ?]%list_elem_of_filter by (rewrite Hfilter; by left). done.
Qed.

(** ** Reading a struct from the value it was written to *)
Lemma filter_btree_iter (m : gmap string json) k :
  base.filter (λ kv : string * json, kv.1 = k) (btree_iter m) = match m !! k with Some v => [(k, v)] | None => [] end.
Proof.
  pose proof (sorted_lt_NoDup _ (btree_keys_ascending m)) as Hnd. unfold btree_keys in Hnd.
  assert (∀ v, (k, v) ∈ btree_iter m ↔ m !! k = Some v) as Hin by (intros; apply elem_of_btree_iter).
  revert Hnd Hin. generalize (btree_iter m) as l. intros l. generalize (m !! k) as o. intros o. revert o.
  induction l as [|[k' v] l IH]; intros o Hnd Hin.
  - destruct o as [v|]; [|done]. by pose proof (proj2 (Hin v) eq_refl) as ?%not_elem_of_nil.
  - apply NoDup_cons in Hnd as [Hk Hnd]. destruct (decide (k' = k)) as [-> |Hne].
    + rewrite filter_cons_True by done. assert (o = Some v) as -> by (apply Hin; by left).
      rewrite (IH None Hnd); [done|]. intros w. split; [|done]. intros Hw. exfalso.
      apply Hk, list_elem_of_fmap. by exists (k, w).
    + rewrite filter_cons_False by done. apply IH; [done|]. intros w. rewrite <-Hin, elem_of_cons. naive_solver.
Qed.
Lemma struct_fields_value deny specs (entries : list (string * option json)) :
  NoDup entries.*1 →
  Forall2 (λ spec e, spec.1 = e.1 ∧ (spec.2 = Required → is_Some e.2)) specs entries →
  struct_fields deny specs (to_value (write_struct entries)) = Some ((λ o : option json, to_value <$> o) <$> entries.*2).
Proof.
  intros Hnd Hspecs. unfold write_struct. rewrite to_value_object. fold (struct_object entries).
  unfold struct_fields, of_object.
  assert (forallb (λ kv, bool_decide (kv.1 ∈ specs.*1)) (btree_iter (struct_object entries)) = true) as ->.
  { apply forallb_forall. intros [k v] Hin%list_elem_of_In%elem_of_btree_iter. apply bool_decide_eq_true. cbn [fst].
    assert (specs.*1 = entries.*1) as ->.
    { clear -Hspecs. induction Hspecs as [|? ? ? ? [H _] _ IH]; cbn; [done|by rewrite H, IH]. }
    destruct (decide (k ∈ entries.*1)); [done|]. by rewrite struct_object_None in Hin. }
  rewrite andb_false_r.
  assert (∀ specs' post, (∀ e, e ∈ post → e ∈ entries) →
    Forall2 (λ spec e, spec.1 = e.1 ∧ (spec.2 = Required → is_Some e.2)) specs' post →
    mapM (object_field (btree_iter (struct_object entries))) specs' = Some ((λ o : option json, to_value <$> o) <$> post.*2)) as Hgen.
  { intros specs' post Hsub H2. induction H2 as [|[m pres] [n v] specs' post [Hm Hpres] H2 IH]; [done|].
    cbn [fst snd] in Hm, Hpres. subst m. cbn [mapM fmap list_fmap snd].
    assert (object_field (btree_iter (struct_object entries)) (n, pres) = Some (to_value <$> v)) as ->.
    { unfold object_field. cbn [fst snd]. rewrite filter_btree_iter, (struct_object_lookup entries n v) by (done || apply Hsub; by left).
      destruct v as [v|]; [done|]. cbn. destruct pres; [|done..]. by destruct Hpres as [? ?]. }
    cbn [mbind option_bind]. rewrite IH; [done|]. intros e He. apply Hsub. by right. }
  by apply Hgen.
Qed.
Ltac read_value :=
  rewrite struct_fields_value;
    [|simpl; repeat (constructor; [set_solver|]); constructor
     |repeat (constructor; [by repeat split; intros; try done; eexists|]); constructor].
Lemma read_map_value {A} (read : json → option A) (write : A → json) (m : gmap string A) :
  (∀ x, read (to_value (write x)) = Some x) → read_map read (to_value (write_map write m)) = Some m.
Proof.
  intros Hrw. rewrite write_map_of_object, to_value_of_object, <-map_fmap_compose, <-write_map_of_object.
  apply (read_write_map _ _ (λ _, True)); [intros x _; apply Hrw|done].
Qed.

Section npm_lock.
Context `{SV : Semver} `{UC : UrlCrate} `{B64 : Base64} `{JC : JsonCodec} `{JP : JsonCompact}.
Implicit Types (l : ImportedNpmLockfile) (g : ImportedNpmGraph) (path : string).

(** ** Reading back a written lock *)
Lemma read_receipt_value r : read_receipt (to_value (write_receipt r)) = Some r.
Proof. unfold read_receipt, write_receipt. by read_value; destruct r. Qed.
Lemma read_string_map_value (m : gmap string string) :
  read_map read_string (to_value (write_map JString m)) = Some m.
Proof. by apply read_map_value. Qed.
Lemma read_default_value {A} (read : json → option A) (d x : A) v `{!Decision (x = d)} :
  (x ≠ d → read (to_value v) = Some x) →
  read_field read (Some d) (to_value <$> (if bool_decide (x = d) then None else Some v)) = Some x.
Proof. intros Hx. case_bool_decide as Hd; cbn; [by rewrite Hd|by apply Hx]. Qed.
(** The lock without its cached graph. *)
Definition uncached l : ImportedNpmLockfile :=
  mk_imported (il_version l) (il_root_manifest_digest l) (il_npm_lock l) None
    (il_workspace_manifest_digests l) (il_verified_trees l) (il_verified_artifacts l).
Lemma read_imported_value l :
  (0 <= il_version l <= u32_max)%Z → canonical (il_npm_lock l) →
  read_imported (to_value (write_imported l)) = Some (uncached l).
Proof.
  intros Hv [Hc _]. unfold read_imported, write_imported. read_value.
  destruct l as [v d n g ws ts rs]. cbn [il_version il_npm_lock] in Hv, Hc.
  cbn [fmap list_fmap option_fmap option_map snd field field_unless il_version il_root_manifest_digest il_npm_lock
       il_workspace_manifest_digests il_verified_trees il_verified_artifacts mbind option_bind].
  assert (read_field read_u32 None (Some (to_value (JNumber v))) = Some v) as ->.
  { cbn. by rewrite (proj2 (Z.leb_le 0 v)), (proj2 (Z.leb_le v _)) by tauto. }
  cbn [mbind option_bind read_field read_string to_value]. rewrite Hc.
  rewrite (read_default_value (read_map read_string) ∅ ws) by (intros _; apply read_string_map_value).
  cbn [mbind option_bind].
  rewrite (read_default_value (read_map read_string) ∅ ts) by (intros _; apply read_string_map_value).
  cbn [mbind option_bind].
  by rewrite (read_default_value (read_map read_receipt) ∅ rs) by (intros _; apply read_map_value, read_receipt_value).
Qed.
Lemma no_duplicates_struct (entries : list (string * option json)) :
  NoDup entries.*1 → Forall (λ e, ∀ v, e.2 = Some v → no_duplicates v = true) entries →
  no_duplicates (write_struct entries) = true.
Proof.
  intros Hnd He. cbn. apply andb_true_iff. split; [by apply bool_decide_eq_true, present_keys|].
  apply forallb_forall. intros [k v] Hin%list_elem_of_In. apply list_elem_of_omap in Hin as ([m o]&Hin&Ho).
  rewrite Forall_forall in He. destruct o as [w|]; [|done]. injection Ho as -> ->. by apply (He _ Hin).
Qed.
Lemma no_duplicates_map {A} (write : A → json) (m : gmap string A) :
  (∀ x, no_duplicates (write x) = true) → no_duplicates (write_map write m) = true.
Proof.
  intros Hw. rewrite write_map_of_object. apply no_duplicates_object. intros k v.
  rewrite lookup_fmap. intros (x&_&->)%fmap_Some. apply Hw.
Qed.
Lemma no_duplicates_imported l : canonical (il_npm_lock l) → no_duplicates (write_imported l) = true.
Proof.
  intros [_ Hn]. apply no_duplicates_struct; [cbn; repeat (constructor; [set_solver|]); constructor|].
  unfold field, field_unless. forall_list; intros v; cbn [snd]; try (case_match; [done|]); intros [= <-]; try done;
    apply no_duplicates_map; [done..|]. intros r. apply no_duplicates_struct; [|by forall_list; intros v [= <-]].
  cbn; repeat (constructor; [set_solver|]); constructor.
Qed.
Lemma parse_json_Ok input v : parse_json input = Ok v ↔
  ∃ w, json_parse input = Some w ∧ no_duplicates w = true ∧ v = to_value w.
Proof.
  assert (parse_json input = Ok v ↔ strict_parse input = Some v) as -> by apply ok_or_Ok.
  unfold strict_parse. split.
  - intros (w&Hw&H)%bind_Some. destruct (no_duplicates w) eqn:Hn; [|done]. injection H as <-. by exists w.
  - intros (w&->&Hn&->). cbn. by rewrite Hn.
Qed.
Lemma parse_json_canonical input v : parse_json input = Ok v → canonical v.
Proof. intros (w&_&_&->)%parse_json_Ok. apply canonical_to_value. Qed.

(** ** The invariant *)
Record imported_ok l : Prop := {
  io_version : il_version l = 8%Z;
  io_digest : is_Some (to_ok (ArtifactDigest_from_str (il_root_manifest_digest l)));
  io_lock : canonical (il_npm_lock l);
  io_graph : ∃ g, il_graph l = Some g ∧ parse_graph (il_npm_lock l) = Ok g ∧
    (∀ path digest, il_workspace_manifest_digests l !! path = Some digest →
       is_Some (ng_workspaces g !! path) ∧ is_Some (to_ok (ArtifactDigest_from_str digest))) ∧
    (∀ path digest, il_verified_trees l !! path = Some digest →
       is_Some (ng_packages g !! path) ∧ is_Some (to_ok (ArtifactDigest_from_str digest))) ∧
    (∀ path r, il_verified_artifacts l !! path = Some r → ∃ p, ng_packages g !! path = Some p ∧
       receipt_resolved r = np_resolved p ∧ receipt_integrity r = integrity_str (np_integrity p) ∧
       is_Some (to_ok (ArtifactDigest_from_str (receipt_tree_digest r))) ∧
       is_Some (to_ok (PackageIntegrity_from_str (receipt_integrity r))));
}.
(** Every artifact receipt is for the tree that is recorded at its placement. *)
Definition receipts_agree l : Prop :=
  ∀ path r, il_verified_artifacts l !! path = Some r → il_verified_trees l !! path = Some (receipt_tree_digest r).

Lemma runs_parse_graph npm_lock : runs (parse_graph npm_lock) (λ g, graph_read npm_lock g).
Proof.
  unfold parse_graph, graph. pose proof (runs_placement_graph npm_lock) as Hread.
  destruct (placement_graph npm_lock) as [g|e]; cbn in Hread; [|by destruct e].
  destruct (validate_representable_runs g (graph_read_resolved _ _ Hread)) as (checked&->&Hchecked).
  by destruct checked as [[]|[]].
Qed.
Lemma runs_parse_json input : runs (parse_json input) canonical.
Proof. apply runs_total; [apply parse_json_canonical|]. unfold parse_json. by destruct (strict_parse input). Qed.
Lemma runs_manifest_entry selected manifest fields at_ identity :
  runs (validate_manifest_entry selected manifest fields at_ identity)
    (λ _, ∀ field, field ∈ fields → declared selected field = declared manifest field).
Proof.
  apply (runs_for_each (λ field, declared selected field = declared manifest field)).
  intros field _. apply runs_ensure. by intros ?%bool_decide_eq_true.
Qed.
(** A document with a graph has a root entry. *)
Lemma graph_root npm_lock g : graph_read npm_lock g →
  is_Some (as_object (value_index "" (value_index "packages" npm_lock))).
Proof.
  intros [(entries&root&points&Htop&_) _ _]. unfold read_top in Htop.
  apply bind_Ok in Htop as (top&Htop&H). destruct (negb _); [done|].
  apply bind_Ok in H as (_&_&H). apply bind_Ok in H as (packages&Hpackages%ok_or_Ok&H).
  apply bind_Ok in H as (es&Hes%ok_or_Ok&H). apply bind_Ok in H as (r&Hr%ok_or_Ok&H).
  apply bind_Ok in H as (ro&Hro%ok_or_Ok&_). apply ok_or_Ok in Htop.
  unfold value_index, value_get. rewrite Htop. cbn [mbind option_bind]. rewrite Hpackages. cbn [default from_option id].
  rewrite Hes. cbn [mbind option_bind]. rewrite Hr. cbn. rewrite Hro. by eexists.
Qed.
(** The declared fields of a manifest text are those of the root entry. *)
Definition manifest_matches (npm_lock : json) (manifest : string) : Prop :=
  ∃ root m, as_object (value_index "" (value_index "packages" npm_lock)) = Some root ∧
    (v ← strict_parse manifest; as_object v) = Some m ∧
    ∀ field, field ∈ manifest_fields → declared root field = declared m field.
Lemma runs_manifest_fields npm_lock manifest g :
  graph_read npm_lock g → runs (validate_manifest_fields npm_lock manifest) (λ _, manifest_matches npm_lock manifest).
Proof.
  intros Hread. unfold validate_manifest_fields. eapply runs_bind; [apply runs_eq, runs_parse_json|]. intros v [Hv _].
  destruct (graph_root _ _ Hread) as [root Hroot].
  eapply runs_bind; [by eapply (runs_expect _ root (λ a, a = root))|]. intros ? ->.
  eapply runs_bind; [apply runs_object; intros o H; exact H|]. intros m Hm.
  eapply runs_weaken; [apply runs_manifest_entry|]. intros [] Hall. exists root, m. split_and!; [done| |done].
  unfold parse_json in Hv. apply ok_or_Ok in Hv. by rewrite Hv.
Qed.
Lemma manifest_fields_Ok npm_lock manifest g :
  graph_read npm_lock g → validate_manifest_fields npm_lock manifest = Ok () ↔ manifest_matches npm_lock manifest.
Proof.
  intros Hread. pose proof (runs_manifest_fields npm_lock manifest g Hread) as Hruns. split.
  - intros H. by rewrite H in Hruns.
  - intros (root&m&Hroot&Hm&Hall). unfold validate_manifest_fields, parse_json.
    apply bind_Some in Hm as (v&Hv&Hm). rewrite Hv. cbn [ok_or mbind result_bind].
    rewrite Hroot. cbn [npm_expect ok_or mbind result_bind]. unfold object. rewrite Hm. cbn [ok_or mbind result_bind].
    apply for_each_Ok. intros field Hf. apply ensure_Ok, bool_decide_eq_true. by apply Hall.
Qed.

(** ** Member manifests *)
Lemma runs_normalized_bin entry path :
  is_Some (entry !! "name") → is_Some (entry !! "version") → runs (normalized_bin entry path) (λ _, True).
Proof.
  intros [n Hn] [v Hv]. unfold normalized_bin. destruct (declared entry "bin"); [|done].
  eapply runs_bind; [by eapply (runs_expect _ n (λ _, True))|]. intros ? _.
  eapply runs_bind; [by eapply (runs_expect _ v (λ _, True))|]. intros ? _. by apply runs_map_err.
Qed.
(** The manifest text declares what the lock has selected for the member. *)
Definition member_matches g path (text : string) : Prop :=
  ∃ selected current bin, ng_workspaces g !! path ≫= as_object = Some selected ∧
    (v ← strict_parse text; as_object v) = Some current ∧
    (∀ field, field ∈ member_manifest_fields → declared selected field = declared current field) ∧
    normalized_bin selected path = Ok bin ∧ normalized_bin current path = Ok bin.
Definition bound_to g (manifests : gmap string (string * string)) : Prop :=
  dom manifests = dom (ng_workspaces g) ∧
  ∀ path text digest, manifests !! path = Some (text, digest) →
    member_matches g path text ∧ is_Some (to_ok (ArtifactDigest_from_str digest)).
Lemma declared_string entry field s : entry !! field = Some (JString s) → declared entry field = Some (JString s).
Proof. intros H. unfold declared. by rewrite H. Qed.
Lemma declared_present entry field v : declared entry field = Some v → is_Some (entry !! field).
Proof. unfold declared. intros (w&Hw&_)%bind_Some. by exists w. Qed.
Lemma runs_validate_member g digests path text digest :
  members_ok (ng_workspaces g) → is_Some (ng_workspaces g !! path) →
  runs (validate_member g digests (path, (text, digest))) (λ digests', digests' = <[path := digest]> digests ∧
    member_matches g path text ∧ is_Some (to_ok (ArtifactDigest_from_str digest))).
Proof.
  intros Hmembers [w Hw]. unfold validate_member.
  eapply runs_bind; [apply runs_eq, runs_parse_json|]. intros v [Hv _].
  eapply runs_bind; [apply runs_object; intros o H; exact H|]. intros current Hcurrent.
  destruct (Hmembers _ _ Hw) as [(o&->&(name&Hname)&version&pv&Hversion&_)].
  assert (ng_workspaces g !! path ≫= as_object = Some o) as Ho.
  { rewrite Hw. cbn [mbind option_bind]. apply as_object_of_object. }
  eapply runs_bind; [by eapply (runs_expect _ o (λ a, a = o))|]. intros ? ->.
  eapply runs_bind; [apply runs_manifest_entry|]. intros [] Hall.
  assert (is_Some (current !! "name") ∧ is_Some (current !! "version")) as [Hn Hver].
  { split; eapply declared_present; rewrite <-Hall by (unfold member_manifest_fields; set_solver); by apply declared_string. }
  eapply runs_bind; [apply runs_eq, runs_normalized_bin; [by eexists|by eexists]|]. intros bin [Hbin _].
  eapply runs_bind; [apply runs_eq, runs_normalized_bin; [done..]|]. intros bin' [Hbin' _].
  case_bool_decide as Heq; cbn [negb]; [|done]. subst bin'.
  eapply runs_bind; [apply runs_domain; intros d H; exact H|]. intros d Hd. cbn [runs]. split; [done|].
  split; [|rewrite Hd; by eexists]. exists o, current, bin. split_and!; try done.
  unfold parse_json in Hv. apply ok_or_Ok in Hv. by rewrite Hv.
Qed.
Lemma runs_validate_manifests g manifests :
  members_ok (ng_workspaces g) →
  runs (validate_manifests g manifests) (λ digests, bound_to g manifests ∧ digests = snd <$> manifests).
Proof.
  intros Hmembers. unfold validate_manifests. case_bool_decide as Hkeys; cbn [negb]; [|done].
  assert (∀ path, is_Some (manifests !! path) ↔ is_Some (ng_workspaces g !! path)) as Hdom.
  { intros path. by rewrite <-!elem_of_btree_keys, Hkeys. }
  eapply runs_weaken.
  { apply (runs_fold_map (λ handled digests, digests = snd <$> handled ∧
      ∀ path text digest, handled !! path = Some (text, digest) →
        member_matches g path text ∧ is_Some (to_ok (ArtifactDigest_from_str digest)))).
    - split; [by rewrite fmap_empty|by intros ? ? ? ?%lookup_empty_Some].
    - intros handled path [text digest] digests Hp Hnew [-> Hall].
      eapply runs_weaken; [apply runs_validate_member; [done|apply Hdom; by eexists]|].
      intros digests' (->&Hm&Hd). split; [by rewrite fmap_insert|].
      intros path' text' digest' [[<- [= <- <-]]|[_ Hp']]%lookup_insert_Some; [done|by eapply Hall]. }
  intros digests [-> Hall]. split; [|done]. split; [|done]. apply set_eq. intros path. by rewrite !elem_of_dom.
Qed.

(** ** Receipts *)
Lemma digest_display_ok s d : ArtifactDigest_from_str s = Ok d → is_Some (to_ok (ArtifactDigest_from_str (ArtifactDigest_display d))).
Proof.
  intros H%ArtifactDigest_parse_canonical%canonical_digest_parse. unfold ArtifactDigest_display. rewrite H. by eexists.
Qed.
Lemma runs_trees g trees :
  runs (try_fold (tree_step g) ∅ (btree_iter trees)) (λ validated, dom validated = dom trees ∧
    ∀ path digest, validated !! path = Some digest →
      is_Some (ng_packages g !! path) ∧ is_Some (to_ok (ArtifactDigest_from_str digest)) ∧
      ∃ raw d, trees !! path = Some raw ∧ ArtifactDigest_from_str raw = Ok d ∧ digest = ArtifactDigest_display d).
Proof.
  apply (runs_fold_map (λ handled validated, dom validated = dom handled ∧
    ∀ path digest, validated !! path = Some digest →
      is_Some (ng_packages g !! path) ∧ is_Some (to_ok (ArtifactDigest_from_str digest)) ∧
      ∃ raw d, trees !! path = Some raw ∧ ArtifactDigest_from_str raw = Ok d ∧ digest = ArtifactDigest_display d)).
  - split; [done|by intros ? ? ?%lookup_empty_Some].
  - intros handled path raw validated Hraw Hnew [Hdom Hall]. unfold tree_step.
    unfold contains_key. destruct (ng_packages g !! path) as [p|] eqn:Hp; cbn [negb]; [|done].
    eapply runs_bind; [apply runs_domain; intros d H; exact H|]. intros d Hd. cbn [runs].
    split; [by rewrite !dom_insert_L, Hdom|].
    intros path' digest [[<- <-]|[_ Hdigest]]%lookup_insert_Some; [|by apply Hall].
    split_and!; [by eexists|eapply digest_display_ok, Hd|by exists raw, d].
Qed.
Definition receipt_ok g (trees : gmap string string) path (r : ImportedNpmArtifactReceipt) : Prop :=
  ∃ p, ng_packages g !! path = Some p ∧ receipt_resolved r = np_resolved p ∧
    receipt_integrity r = integrity_str (np_integrity p) ∧
    is_Some (to_ok (ArtifactDigest_from_str (receipt_tree_digest r))) ∧
    is_Some (to_ok (PackageIntegrity_from_str (receipt_integrity r))) ∧
    trees !! path = Some (receipt_tree_digest r).
Lemma check_receipt_runs g trees path r : runs (check_receipt g trees path r) (λ _, receipt_ok g trees path r).
Proof.
  unfold check_receipt. eapply runs_bind; [apply runs_ok_or; intros p H; exact H|]. intros p Hp.
  eapply runs_bind; [apply runs_domain; intros d H; exact H|]. intros d Hd.
  eapply runs_bind; [apply runs_domain; intros i H; exact H|]. intros i Hi.
  case_bool_decide as Ht; cbn [negb orb]; [|done].
  destruct (str_eqb (receipt_resolved r) _) eqn:Hr; cbn [negb orb]; [|done].
  destruct (str_eqb (receipt_integrity r) _) eqn:Hin; cbn [negb]; [|done].
  apply str_eqb_true in Hr, Hin. exists p. rewrite Hd, Hi. split_and!; [done..|by eexists|by eexists|done].
Qed.
Lemma check_receipt_Ok g trees path r : check_receipt g trees path r = Ok () ↔ receipt_ok g trees path r.
Proof.
  split; [intros H; exact (runs_Ok _ (λ _, receipt_ok g trees path r) () (check_receipt_runs g trees path r) H)|].
  intros (p&Hp&Hr&Hin&[d Hd]&[i Hi]&Ht). apply to_ok_Some in Hd, Hi. unfold check_receipt, lift_domain.
  rewrite Hp. cbn [ok_or mbind result_bind]. rewrite Hd, Hi. cbn [map_err mbind result_bind].
  rewrite bool_decide_eq_true_2 by done. by rewrite <-Hr, <-Hin, !str_eqb_refl.
Qed.
Lemma runs_receipts g trees receipts :
  runs (try_fold (receipt_step g trees) ∅ (btree_iter receipts)) (λ validated, validated = receipts ∧
    ∀ path r, receipts !! path = Some r → receipt_ok g trees path r).
Proof.
  apply (runs_fold_map (λ handled validated, validated = handled ∧
    ∀ path r, handled !! path = Some r → receipt_ok g trees path r)).
  - split; [done|by intros ? ? ?%lookup_empty_Some].
  - intros handled path r validated Hr Hnew [-> Hall]. unfold receipt_step. cbn [fst snd].
    eapply runs_bind; [apply check_receipt_runs|]. intros [] Hok. cbn [runs]. split; [done|].
    intros path' r' [[<- <-]|[_ Hr']]%lookup_insert_Some; [done|by apply Hall].
Qed.

(** ** The operations *)
Inductive imported_op :=
| BindWorkspaces (manifests : gmap string (string * string))
| CheckWorkspaces (manifests : gmap string (string * string))
| RecordTrees (trees : gmap string string)
| RecordArtifacts (receipts : gmap string ImportedNpmArtifactReceipt).
Definition run_imported (op : imported_op) : mutating ImportedNpmLockfile npm_failure () :=
  match op with
  | BindWorkspaces manifests => bind_workspace_manifests manifests
  | CheckWorkspaces manifests => validate_workspace_manifests manifests
  | RecordTrees trees => record_verified_trees trees
  | RecordArtifacts receipts => record_verified_artifacts receipts
  end.
(** The locks that importing, reading and the operations produce. *)
Inductive imported_reachable : ImportedNpmLockfile → Prop :=
| imported_new input manifest digest l : import input manifest digest = Ok l → imported_reachable l
| imported_parsed input l : imported_from_json input = Ok l → imported_reachable l
| imported_next op l : imported_reachable l → imported_reachable (run_imported op l).1.

Lemma imported_graph l : imported_ok l → ∃ g, il_graph l = Some g ∧ graph_read (il_npm_lock l) g ∧ lock_graph l = (l, Ok g).
Proof.
  intros [_ _ _ (g&Hg&Hparse&_)]. exists g. unfold lock_graph. rewrite Hg. split_and!; [done| |done].
  by eapply runs_Ok; [apply runs_parse_graph|].
Qed.
(** An operation does not panic and keeps the invariant; a failed one changes nothing. *)
Definition op_spec op l : Prop :=
  runs (run_imported op l).2 (λ _, True) ∧ imported_ok (run_imported op l).1 ∧
  (is_ok (run_imported op l).2 = false → (run_imported op l).1 = l).
Lemma bind_spec manifests l : imported_ok l → op_spec (BindWorkspaces manifests) l.
Proof.
  intros Hl. destruct (imported_graph l Hl) as (g&Hg&Hread&Hgraph). unfold op_spec. cbn [run_imported].
  assert (bind_workspace_manifests manifests l =
    match validate_manifests g manifests with
    | Ok digests => (with_workspace_digests l digests, Ok ())
    | Err e => (l, Err e)
    end) as ->.
  { unfold bind_workspace_manifests, mbind, mutating_bind, mut_lift. rewrite Hgraph. by destruct (validate_manifests g manifests). }
  pose proof (runs_validate_manifests g manifests (proj1 (gr_members _ _ Hread))) as Hruns.
  destruct (validate_manifests g manifests) as [digests|e]; cbn in Hruns |- *; [|by destruct e].
  split_and!; [done| |done]. destruct Hruns as [[Hdom Hall] ->], Hl as [Hv Hd Hc (g'&Hg'&Hparse&Hws&Hts&Has)].
  replace g' with g in * by congruence. split; cbn; [done..|]. exists g. split_and!; [done..| |done|done].
  intros path digest. rewrite lookup_fmap. intros ([text d]&Hp&->)%fmap_Some. cbn [snd]. split; [|by eapply Hall].
  apply elem_of_dom. rewrite <-Hdom. apply elem_of_dom. by eexists.
Qed.
Lemma check_workspaces_eq manifests l g :
  lock_graph l = (l, Ok g) →
  run_imported (CheckWorkspaces manifests) l = (l, current ← validate_manifests g manifests;
    ensure (bool_decide (current = il_workspace_manifest_digests l))
      (npm_error "/workspaceManifestDigests" "root" "workspaces"
         (Because "member manifest changed or has no import receipt; import the matching npm lock again"))).
Proof.
  intros Hgraph. cbn [run_imported]. unfold validate_workspace_manifests, mbind, mutating_bind, mut_lift, mut_get.
  rewrite Hgraph. by destruct (validate_manifests g manifests).
Qed.
Lemma check_workspaces_spec manifests l : imported_ok l → op_spec (CheckWorkspaces manifests) l.
Proof.
  intros Hl. destruct (imported_graph l Hl) as (g&Hg&Hread&Hgraph). unfold op_spec.
  rewrite (check_workspaces_eq _ _ _ Hgraph). cbn [fst snd]. split_and!; [|done|done].
  eapply runs_bind; [apply runs_validate_manifests, Hread|]. intros digests _. by apply runs_ensure.
Qed.
Lemma trees_spec trees l : imported_ok l → op_spec (RecordTrees trees) l.
Proof.
  intros Hl. destruct (imported_graph l Hl) as (g&Hg&Hread&Hgraph). unfold op_spec. cbn [run_imported].
  assert (record_verified_trees trees l =
    match try_fold (tree_step g) ∅ (btree_iter trees) with
    | Ok validated => (with_trees l (extend (il_verified_trees l) validated), Ok ())
    | Err e => (l, Err e)
    end) as ->.
  { unfold record_verified_trees, mbind, mutating_bind, mut_lift. rewrite Hgraph. by destruct (try_fold _ _ _). }
  pose proof (runs_trees g trees) as Hruns.
  destruct (try_fold _ _ _) as [validated|e]; cbn in Hruns |- *; [|by destruct e].
  split_and!; [done| |done]. destruct Hruns as [_ Hall], Hl as [Hv Hd Hc (g'&Hg'&Hparse&Hws&Hts&Has)].
  replace g' with g in * by congruence. split; cbn; [done..|]. exists g. split_and!; [done..| |done].
  intros path digest [Hp|[_ Hp]]%lookup_union_Some_raw; [|by apply Hts]. by destruct (Hall _ _ Hp) as (?&?&_).
Qed.
Lemma artifacts_spec receipts l : imported_ok l → op_spec (RecordArtifacts receipts) l.
Proof.
  intros Hl. destruct (imported_graph l Hl) as (g&Hg&Hread&Hgraph). unfold op_spec. cbn [run_imported].
  assert (record_verified_artifacts receipts l =
    match try_fold (receipt_step g (il_verified_trees l)) ∅ (btree_iter receipts) with
    | Ok validated => (with_artifacts l (extend (il_verified_artifacts l) validated), Ok ())
    | Err e => (l, Err e)
    end) as ->.
  { unfold record_verified_artifacts, mbind, mutating_bind, mut_lift, mut_get. rewrite Hgraph. by destruct (try_fold _ _ _). }
  pose proof (runs_receipts g (il_verified_trees l) receipts) as Hruns.
  destruct (try_fold _ _ _) as [validated|e]; cbn in Hruns |- *; [|by destruct e].
  split_and!; [done| |done]. destruct Hruns as [-> Hall], Hl as [Hv Hd Hc (g'&Hg'&Hparse&Hws&Hts&Has)].
  replace g' with g in * by congruence. split; cbn; [done..|]. exists g. split_and!; [done..|].
  intros path r [Hp|[_ Hp]]%lookup_union_Some_raw; [|by apply Has].
  destruct (Hall _ _ Hp) as (p&?&?&?&?&?&_). by exists p.
Qed.
Lemma run_imported_spec op l : imported_ok l → op_spec op l.
Proof. destruct op; [apply bind_spec|apply check_workspaces_spec|apply trees_spec|apply artifacts_spec]. Qed.

(** ** Import and reading *)
Lemma runs_import input manifest digest :
  runs (import input manifest digest) (λ l, imported_ok l ∧ receipts_agree l ∧
    manifest_matches (il_npm_lock l) manifest ∧
    ArtifactDigest_from_str digest = Ok (mk_digest (il_root_manifest_digest l))).
Proof.
  unfold import. eapply runs_bind; [apply runs_parse_json|]. intros npm_lock Hc.
  eapply runs_bind; [apply runs_eq, runs_parse_graph|]. intros g [Hg Hread].
  eapply runs_bind; [by eapply runs_manifest_fields|]. intros [] Hm.
  eapply runs_bind; [apply runs_domain; intros d H; exact H|]. intros d Hd. cbn [runs]. split_and!; [|done|done|].
  - split; cbn; [done|eapply digest_display_ok, Hd|done|]. exists g. by split_and!; [done..| | |]; intros ? ? ?%lookup_empty_Some.
  - cbn. rewrite Hd. by destruct d.
Qed.
Lemma check_receipts_Ok l g :
  check_receipts l g = Ok () ↔
  (∀ path digest, il_workspace_manifest_digests l !! path = Some digest →
     is_Some (ng_workspaces g !! path) ∧ is_Some (to_ok (ArtifactDigest_from_str digest))) ∧
  (∀ path digest, il_verified_trees l !! path = Some digest →
     is_Some (ng_packages g !! path) ∧ is_Some (to_ok (ArtifactDigest_from_str digest))) ∧
  (∀ path r, il_verified_artifacts l !! path = Some r → receipt_ok g (il_verified_trees l) path r).
Proof.
  assert (∀ {A} (m : gmap string A) path digest at_ package field reason,
    (if negb (contains_key path m) then refuse at_ package field reason
     else _ ← lift_domain at_ package "digest" (ArtifactDigest_from_str digest); Ok ()) = Ok () ↔
    is_Some (m !! path) ∧ is_Some (to_ok (ArtifactDigest_from_str digest))) as Hentry.
  { intros A m path digest at_ package f reason. unfold contains_key, lift_domain.
    destruct (m !! path), (ArtifactDigest_from_str digest); cbn; split; try done; try (by intros [[? [=]] ?]); try (by intros [? [? [=]]]).
  }
  unfold check_receipts. split.
  - intros ([]&Hws&([]&Hts&Has)%bind_Ok)%bind_Ok. rewrite for_each_Ok in Hws, Hts. pose proof (proj1 (for_each_Ok _ _ _) Has) as Hall. clear Has. rename Hall into Has. split_and!.
    + intros path digest Hp. eapply Hentry. apply (Hws (path, digest)). by apply elem_of_btree_iter.
    + intros path digest Hp. eapply Hentry. apply (Hts (path, digest)). by apply elem_of_btree_iter.
    + intros path r Hp. apply check_receipt_Ok. apply (Has (path, r)). by apply elem_of_btree_iter.
  - intros (Hws&Hts&Has). apply bind_Ok. exists (). split.
    { apply for_each_Ok. intros [path digest] Hp%elem_of_btree_iter. by apply Hentry, Hws. }
    apply bind_Ok. exists (). split.
    { apply for_each_Ok. intros [path digest] Hp%elem_of_btree_iter. by apply Hentry, Hts. }
    apply for_each_Ok. intros [path r] Hp%elem_of_btree_iter. by apply check_receipt_Ok, Has.
Qed.
Lemma runs_check_receipts l g : runs (check_receipts l g) (λ _, True).
Proof.
  unfold check_receipts. eapply runs_bind.
  { apply (runs_for_each (λ _, True)). intros [path d] _. unfold check_workspace_digest. cbn [fst snd].
    destruct (negb _); [done|]. eapply (runs_bind _ _ (λ _, True)); [by apply runs_domain|done]. }
  intros [] _. eapply runs_bind.
  { apply (runs_for_each (λ _, True)). intros [path d] _. unfold check_tree. cbn [fst snd].
    destruct (negb _); [done|]. eapply (runs_bind _ _ (λ _, True)); [by apply runs_domain|done]. }
  intros [] _. eapply runs_weaken; [apply (runs_for_each (λ _, True))|done].
  intros [path r] _. eapply runs_weaken; [apply check_receipt_runs|done].
Qed.
Lemma read_imported_canonical v l :
  canonical v → read_imported v = Some l → canonical (il_npm_lock l) ∧ il_graph l = None.
Proof.
  intros Hc. unfold read_imported. intros (fields&Hf&H)%bind_Some.
  destruct fields as [|fv [|fd [|fn [|fw [|ft [|fr [|? ?]]]]]]]; try done.
  apply bind_Some in H as (ver&_&H). apply bind_Some in H as (d&_&H). apply bind_Some in H as (n&Hn&H).
  apply bind_Some in H as (ws&_&H). apply bind_Some in H as (ts&_&H). apply bind_Some in H as (rs&_&H).
  injection H as <-. cbn. split; [|done]. destruct fn as [w|]; [|done]. injection Hn as ->.
  eapply struct_fields_canonical; [done|exact Hf|]. by do 2 right; left.
Qed.
Lemma runs_from_json input : runs (imported_from_json input) (λ l, imported_ok l ∧ receipts_agree l).
Proof.
  unfold imported_from_json. eapply runs_bind; [apply runs_parse_json|]. intros v Hv.
  eapply (runs_bind _ _ (λ l, read_imported v = Some l)).
  { destruct (read_imported v); done. }
  intros l Hread. destruct (read_imported_canonical v l Hv Hread) as [Hc Hgraph].
  destruct (il_version l =? 8)%Z eqn:Hversion; cbn [negb]; [|done]. apply Z.eqb_eq in Hversion.
  eapply runs_bind; [apply runs_domain; intros d H; exact H|]. intros d Hd.
  unfold lock_graph. rewrite Hgraph. pose proof (runs_parse_graph (il_npm_lock l)) as Hruns.
  destruct (parse_graph (il_npm_lock l)) as [g|e] eqn:Hparse; cbn in Hruns; [|by destruct e].
  eapply runs_bind; [apply runs_eq, runs_check_receipts|]. intros [] [Hok _]. cbn [runs].
  apply check_receipts_Ok in Hok as (Hws&Hts&Has). split.
  - split; cbn; [done|rewrite Hd; by eexists|done|]. exists g. split_and!; [done..|].
    intros path r Hr. destruct (Has path r Hr) as (p&?&?&?&?&?&_). by exists p.
  - intros path r Hr. by destruct (Has path r Hr) as (p&?&?&?&?&?&?).
Qed.
Lemma reachable_imported_ok l : imported_reachable l → imported_ok l.
Proof.
  induction 1 as [input manifest digest l H|input l H|op l _ IH].
  - by destruct (runs_Ok _ _ _ (runs_import input manifest digest) H).
  - by destruct (runs_Ok _ _ _ (runs_from_json input) H).
  - by apply run_imported_spec.
Qed.
(** C6: importing an npm lock, reading one and every later operation on one never panic;
    each operation that fails leaves the lock as it was; and every lock so obtained keeps
    its graph, its digests and its receipts consistent with the retained npm document. *)
Theorem imported_invariant :
  (∀ input manifest digest, import input manifest digest ≠ Err NpmPanics) ∧
  (∀ input, imported_from_json input ≠ Err NpmPanics) ∧
  ∀ l, imported_reachable l → imported_ok l ∧ ∀ op,
    (run_imported op l).2 ≠ Err NpmPanics ∧
    (is_ok (run_imported op l).2 = false → (run_imported op l).1 = l).
Proof.
  assert (∀ A (r : npm A) P, runs r P → r ≠ Err NpmPanics) as Hruns by (intros A r P; by destruct r as [|[]]).
  split_and!.
  - intros input manifest digest. eapply Hruns, runs_import.
  - intros input. eapply Hruns, runs_from_json.
  - intros l Hl%reachable_imported_ok. split; [done|]. intros op.
    destruct (run_imported_spec op l Hl) as (Hr&_&Hu). split; [by eapply Hruns|done].
Qed.

(** ** The round trip *)
Context `{JL : !JsonLaws}.
Lemma json_ok_imported l :
  il_version l = 8%Z → json_ok (pred json_depth) (il_npm_lock l) = true → json_ok json_depth (write_imported l) = true.
Proof.
  intros Hv Hn. unfold json_depth in *. cbn [pred] in Hn. apply json_ok_struct. unfold field, field_unless.
  forall_list; intros v; cbn [snd]; try (case_match; [done|]); intros [= <-]; try done.
  - by rewrite Hv.
  - by apply json_ok_map.
  - by apply json_ok_map.
  - apply json_ok_map. intros k r _. apply json_ok_struct. by forall_list; intros v [= <-].
Qed.
Lemma lock_graph_uncached l g :
  il_graph l = Some g → parse_graph (il_npm_lock l) = Ok g → lock_graph (uncached l) = (l, Ok g).
Proof. destruct l. unfold lock_graph, uncached, with_graph. cbn. intros -> ->. done. Qed.
(** C7: a lock that was imported, read or operated on is read back from its JSON form as it
    was - if and only if its artifact receipts agree with the recorded trees.  Its npm
    document must be one that serde_json itself reads back: integers of 64 bits, doubles
    whose text reads back as the same double (without the feature float_roundtrip not all
    do), and a nesting at least one level below the recursion limit. *)
Theorem imported_roundtrip l :
  imported_reachable l → json_ok (pred json_depth) (il_npm_lock l) = true →
  imported_from_json (imported_to_json l) = Ok l ↔ receipts_agree l.
Proof.
  intros Hl%reachable_imported_ok Hdepth. destruct Hl as [Hv [d Hd] Hc (g&Hg&Hparse&Hws&Hts&Has)].
  unfold imported_from_json, imported_to_json.
  assert (parse_json (json_pretty (write_imported l) +:+ newline) = Ok (to_value (write_imported l))) as ->.
  { apply parse_json_Ok. exists (write_imported l). split_and!; [|by apply no_duplicates_imported|done].
    by apply json_parse_pretty, json_ok_imported. }
  cbn [mbind result_bind]. rewrite read_imported_value by (done || rewrite Hv; unfold u32_max; lia).
  cbn [ok_or mbind result_bind].
  assert (il_version (uncached l) = 8%Z) as -> by exact Hv. cbn [Z.eqb Pos.eqb negb].
  assert (il_root_manifest_digest (uncached l) = il_root_manifest_digest l) as -> by reflexivity.
  apply to_ok_Some in Hd. unfold lift_domain. rewrite Hd. cbn [map_err mbind result_bind].
  rewrite (lock_graph_uncached l g Hg Hparse). split.
  - intros ([]&Hok&_)%bind_Ok. apply check_receipts_Ok in Hok as (_&_&Hr). intros path r Hp.
    by destruct (Hr path r Hp) as (p&?&?&?&?&?&?).
  - intros Hagree. apply bind_Ok. exists (). split; [|done]. apply check_receipts_Ok. split_and!; [done..|].
    intros path r Hp. destruct (Has path r Hp) as (p&?&?&?&?&?). exists p. split_and!; [done..|by apply Hagree].
Qed.

(** ** Replay *)
(** An imported lock replays with a manifest and a digest exactly if the digest is the
    one it was imported with and the manifest declares the same dependencies; the
    manifest and the canonical digest of the import always replay. *)
Theorem imported_replay input manifest digest l :
  import input manifest digest = Ok l →
  import_validate_replay l manifest (il_root_manifest_digest l) = Ok () ∧
  ∀ manifest' digest', import_validate_replay l manifest' digest' = Ok () ↔
    digest' = il_root_manifest_digest l ∧ manifest_matches (il_npm_lock l) manifest'.
Proof.
  intros H. destruct (runs_Ok _ _ _ (runs_import input manifest digest) H) as (Hl&_&Hm&_).
  destruct (imported_graph l Hl) as (g&_&Hread&_).
  assert (∀ manifest' digest', import_validate_replay l manifest' digest' = Ok () ↔
    digest' = il_root_manifest_digest l ∧ manifest_matches (il_npm_lock l) manifest') as Hiff.
  { intros manifest' digest'. unfold import_validate_replay. destruct (str_eqb _ _) eqn:E; cbn [negb].
    - apply str_eqb_true in E. rewrite (manifest_fields_Ok _ _ _ Hread). naive_solver.
    - split; [done|]. intros [-> _]. by rewrite str_eqb_refl in E. }
  split; [|done]. by apply Hiff.
Qed.
Lemma validate_member_Ok g digests path text digest :
  member_matches g path text → is_Some (to_ok (ArtifactDigest_from_str digest)) →
  validate_member g digests (path, (text, digest)) = Ok (<[path := digest]> digests).
Proof.
  intros (selected&current&bin&Hs&Hc&Hf&Hb&Hb') [d Hd]. unfold validate_member.
  apply bind_Some in Hc as (v&Hv&Hc). unfold parse_json. rewrite Hv. cbn [ok_or mbind result_bind].
  unfold object. rewrite Hc. cbn [ok_or mbind result_bind]. rewrite Hs. cbn [npm_expect ok_or mbind result_bind].
  assert (validate_manifest_entry selected current member_manifest_fields (pointer "/packages" path) path = Ok ()) as ->.
  { apply for_each_Ok. intros field Hin. apply ensure_Ok, bool_decide_eq_true. by apply Hf. }
  cbn [mbind result_bind]. rewrite Hb. cbn [mbind result_bind]. rewrite Hb'. cbn [mbind result_bind].
  rewrite bool_decide_eq_true_2 by done. cbn [negb].
  apply to_ok_Some in Hd. unfold lift_domain. by rewrite Hd.
Qed.
Lemma validate_manifests_Ok g manifests :
  members_ok (ng_workspaces g) → bound_to g manifests → validate_manifests g manifests = Ok (snd <$> manifests).
Proof.
  intros Hmembers [Hdom Hall].
  assert (∀ (l : list (string * (string * string))) digests, (∀ entry, entry ∈ l → manifests !! entry.1 = Some entry.2) →
    ∃ digests', try_fold (validate_member g) digests l = Ok digests') as Htotal.
  { induction l as [|[path [text digest]] l IH]; intros digests Hl; [by eexists|]. cbn [try_fold].
    pose proof (Hl (path, (text, digest)) ltac:(by left)) as Hp. cbn [fst snd] in Hp.
    destruct (Hall _ _ _ Hp) as [Hm Hd]. rewrite (validate_member_Ok _ _ _ _ _ Hm Hd). cbn [mbind result_bind].
    apply IH. intros entry He. apply Hl. by right. }
  pose proof (runs_validate_manifests g manifests Hmembers) as Hruns. unfold validate_manifests in *.
  assert (btree_keys (ng_workspaces g) = btree_keys manifests) as Hkeys.
  { apply (sorted_lt_unique _ _ (btree_keys_ascending _) (btree_keys_ascending _)). intros path.
    rewrite !elem_of_btree_keys, <-!elem_of_dom. by rewrite Hdom. }
  rewrite bool_decide_eq_true_2 in Hruns |- * by done. cbn [negb] in *.
  destruct (Htotal (btree_iter manifests) ∅) as [digests Hd].
  { intros [path entry] Hin. by apply elem_of_btree_iter. }
  rewrite Hd in Hruns |- *. by destruct Hruns as [_ ->].
Qed.
(** Member manifests bind to an imported lock exactly if they are those of its members
    and declare what the lock has selected (names, versions, dependencies and bins), with
    valid digests; a lock with bound manifests accepts exactly such manifests with the
    same digests. *)
Theorem workspace_binding l g manifests :
  imported_reachable l → il_graph l = Some g →
  ((run_imported (BindWorkspaces manifests) l).2 = Ok () ↔ bound_to g manifests) ∧
  (bound_to g manifests → ∀ manifests',
    (run_imported (CheckWorkspaces manifests') (run_imported (BindWorkspaces manifests) l).1).2 = Ok () ↔
      bound_to g manifests' ∧ snd <$> manifests' = snd <$> manifests).
Proof.
  intros Hl%reachable_imported_ok Hg. destruct (imported_graph l Hl) as (g'&Hg'&Hread&Hgraph).
  replace g' with g in * by congruence. pose proof (proj1 (gr_members _ _ Hread)) as Hmembers.
  assert (∀ m, validate_manifests g m = Ok (snd <$> m) ↔ bound_to g m) as Hiff.
  { intros m. split; [|by apply validate_manifests_Ok]. intros H.
    by destruct (runs_Ok _ _ _ (runs_validate_manifests g m Hmembers) H). }
  assert (run_imported (BindWorkspaces manifests) l =
    match validate_manifests g manifests with
    | Ok digests => (with_workspace_digests l digests, Ok ())
    | Err e => (l, Err e)
    end) as Hbind.
  { cbn [run_imported]. unfold bind_workspace_manifests, mbind, mutating_bind, mut_lift. rewrite Hgraph.
    by destruct (validate_manifests g manifests). }
  split.
  - rewrite Hbind, <-Hiff. pose proof (runs_validate_manifests g manifests Hmembers) as Hruns.
    destruct (validate_manifests g manifests) as [digests|e]; cbn in Hruns |- *; [|done]. by destruct Hruns as [_ ->].
  - intros Hbound manifests'. rewrite Hbind, (proj2 (Hiff manifests) Hbound). cbn [fst].
    rewrite (check_workspaces_eq _ _ g) by (unfold lock_graph; cbn [il_graph with_workspace_digests]; by rewrite Hg).
    cbn [snd il_workspace_manifest_digests with_workspace_digests]. split.
    + intros (digests&Hd&Heq%ensure_Ok%bool_decide_eq_true)%bind_Ok.
      destruct (runs_Ok _ _ _ (runs_validate_manifests g manifests' Hmembers) Hd) as [? ->]. by split.
    + intros [Hb Heq]. apply bind_Ok. exists (snd <$> manifests'). split; [by apply Hiff|].
      by apply ensure_Ok, bool_decide_eq_true.
Qed.
End npm_lock.

(** ** An imported lock *)
Definition sample_lock_text : string := json_pretty sample_lock +:+ newline.
Definition sample_root_manifest : string :=
  json_pretty (sample_object [("name", JString "app");
    ("dependencies", sample_object [("acme", JString "^1.0.0"); ("lib", JString "^0.1.0")]);
    ("workspaces", JArray [JString "packages/lib"])]) +:+ newline.
Definition sample_lock_digest (c : ascii) : string := "sha256-" +:+ str_repeat 64 c.
Definition sample_imported : npm ImportedNpmLockfile :=
  import sample_lock_text sample_root_manifest (sample_lock_digest "a").
Example sample_imports : is_ok sample_imported = true.
Proof. vm_compute. reflexivity. Qed.
Definition empty_imported : ImportedNpmLockfile := mk_imported 0 "" JNull None ∅ ∅ ∅.
Definition sample_imported_lock : ImportedNpmLockfile :=
  match sample_imported with Ok l => l | Err _ => empty_imported end.
Lemma sample_imported_Ok : sample_imported = Ok sample_imported_lock.
Proof.
  unfold sample_imported_lock. pose proof sample_imports as H. destruct sample_imported; [done|discriminate H].
Qed.
Lemma sample_imported_reachable : imported_reachable sample_imported_lock.
Proof. exact (imported_new _ _ _ _ sample_imported_Ok). Qed.
Lemma imported_replay_witness :
  import_validate_replay sample_imported_lock sample_root_manifest (il_root_manifest_digest sample_imported_lock) = Ok ().
Proof. exact (proj1 (imported_replay _ _ _ _ sample_imported_Ok)). Defined.
(** The trees and the artifact receipt of the sample, then another tree for the same
    placement. *)
Definition sample_receipt : ImportedNpmArtifactReceipt :=
  mk_receipt (sample_lock_digest "b") "https://registry.npmjs.org/acme/-/acme-1.0.2.tgz" sample_integrity.
Definition recorded_lock : ImportedNpmLockfile :=
  (run_imported (RecordArtifacts {["node_modules/acme" := sample_receipt]})
     (run_imported (RecordTrees {["node_modules/acme" := sample_lock_digest "b"]}) sample_imported_lock).1).1.
Definition rerecorded_lock : ImportedNpmLockfile :=
  (run_imported (RecordTrees {["node_modules/acme" := sample_lock_digest "c"]}) recorded_lock).1.
Lemma recorded_reachable : imported_reachable recorded_lock.
Proof. apply imported_next, imported_next, sample_imported_reachable. Qed.
Definition agreeb (l : ImportedNpmLockfile) : bool :=
  forallb (λ entry, bool_decide (il_verified_trees l !! entry.1 = Some (receipt_tree_digest entry.2)))
    (btree_iter (il_verified_artifacts l)).
Lemma agreeb_spec l : agreeb l = true ↔ receipts_agree l.
Proof.
  unfold agreeb, receipts_agree. rewrite forallb_forall. split.
  - intros H path r Hr. apply (bool_decide_eq_true_1 _ (H (path, r) (proj1 (list_elem_of_In _ _) (proj2 (elem_of_btree_iter _ _ _) Hr)))).
  - intros H [path r] Hin%list_elem_of_In%elem_of_btree_iter. apply bool_decide_eq_true. by apply H.
Qed.
Lemma imported_roundtrip_witness :
  imported_from_json (imported_to_json recorded_lock) = Ok recorded_lock ∧
  size (il_verified_artifacts recorded_lock) = 1%nat.
Proof.
  split; [|vm_compute; reflexivity].
  apply (imported_roundtrip recorded_lock recorded_reachable); [vm_compute; reflexivity|].
  apply agreeb_spec. vm_compute. reflexivity.
Defined.
(** Recording a tree does not touch the artifact receipt of the same placement: there
    is a lock, produced by successful operations only, whose own JSON form is refused. *)
Theorem rerecorded_tree_unreadable :
  ∃ l trees, imported_reachable l ∧
    is_ok (imported_from_json (imported_to_json l)) = true ∧
    is_ok (run_imported (RecordTrees trees) l).2 = true ∧
    is_ok (imported_from_json (imported_to_json (run_imported (RecordTrees trees) l).1)) = false.
Proof.
  exists recorded_lock, {["node_modules/acme" := sample_lock_digest "c"]}.
  split; [exact recorded_reachable|]. split; [vm_compute; reflexivity|]. split; vm_compute; reflexivity.
Qed.
Definition sample_members : gmap string (string * string) :=
  {["packages/lib" := (json_pretty (sample_object [("name", JString "lib"); ("version", JString "0.1.0");
      ("dependencies", sample_object [("left-pad", JString "^1.3.0")])]) +:+ newline, sample_lock_digest "d")]}.
Lemma workspace_binding_witness :
  ∃ g, il_graph sample_imported_lock = Some g ∧ bound_to g sample_members.
Proof.
  destruct (il_graph sample_imported_lock) as [g|] eqn:Hg; [exists g; split; [reflexivity|]|].
  - apply (proj1 (workspace_binding sample_imported_lock g sample_members sample_imported_reachable Hg)).
    assert (is_ok (run_imported (BindWorkspaces sample_members) sample_imported_lock).2 = true) as Hok
      by (vm_compute; reflexivity).
    destruct (run_imported (BindWorkspaces sample_members) sample_imported_lock).2 as [[]|e];
      [reflexivity|discriminate Hok].
  - assert (bool_decide (is_Some (il_graph sample_imported_lock)) = true) as Hsome by (vm_compute; reflexivity).
    rewrite Hg in Hsome. discriminate Hsome.
Defined.
