(* ===== verification/Archive.v ===== *)
(** * tapid-archive: archive entries

    The validation of archive entries without touching the filesystem
    (crates/tapid-archive/src/lib.rs): paths, link targets, and the bounded validator of
    a list of entries.  The depth of a link target is a [Z]; the code counts it in an
    [i32], which no target below 2^31 components exceeds. *)
From S2P Require Import Prelude Order RustStr Crates.

(** ** Entries *)
Inductive EntryKind := EntryFile | EntryDirectory | EntrySymlink | EntryHardlink | EntryOther.
Record ArchiveEntry := mk_entry {
  entry_path : string;
  entry_kind : EntryKind;
  entry_size : N;
  entry_link_target : option string;
}.
Definition ArchiveEntry_file (path : string) (size : N) : ArchiveEntry := mk_entry path EntryFile size None.
Definition ArchiveEntry_directory (path : string) : ArchiveEntry := mk_entry path EntryDirectory 0 None.
Definition ArchiveEntry_symlink (path target : string) : ArchiveEntry :=
  mk_entry path EntrySymlink 0 (Some target).
Record ValidationLimits := mk_limits {
  max_entries : N;
  max_entry_size : N;
  max_total_size : N;
  max_path_bytes : N;
}.
Definition ValidationLimits_default : ValidationLimits :=
  mk_limits 100000 (512 * 1024 * 1024) (2 * 1024 * 1024 * 1024) 4096.
Inductive ValidationError :=
| TooManyEntries
| EntryTooLarge (path : string) (size : N)
| TotalSizeExceeded
| PathTooLong
| AbsolutePath (path : string)
| Traversal (path : string)
| InvalidPath (path : string)
| DuplicatePath (path : string)
| CaseCollision (path : string)
| SpecialFile (path : string)
| SymlinkEscape (path : string).
Definition ValidationError_display (e : ValidationError) : string :=
  match e with
  | TooManyEntries => "archive has too many entries"
  | EntryTooLarge path size =>
      "archive entry " +:+ path +:+ " is too large (" +:+ show_u64 (Z.of_N size) +:+ " bytes)"
  | TotalSizeExceeded => "archive total size limit exceeded"
  | PathTooLong => "archive path is too long"
  | AbsolutePath path => "absolute archive path: " +:+ path
  | Traversal path => "archive path traversal: " +:+ path
  | InvalidPath path => "invalid archive path: " +:+ path
  | DuplicatePath path => "duplicate archive path: " +:+ path
  | CaseCollision path => "case-colliding archive path: " +:+ path
  | SpecialFile path => "special archive file: " +:+ path
  | SymlinkEscape path => "symlink escapes archive root: " +:+ path
  end.

(** ** Paths *)
Definition nul_char : ascii := ascii_of_N 0.
Definition slashes : string → string := replace_with "\" "/".
Definition has_drive_prefix (path : string) : bool :=
  match path with
  | String a (String b _) => ascii_eqb b ":" && byte_is_alphabetic a
  | _ => false
  end.
Definition path_step (value : string) (output : list string) (c : component) :
    result ValidationError (list string) :=
  match c with
  | Normal part => Ok (output ++ [part])
  | CurDir => Ok output
  | ParentDir => Err (Traversal value)
  | RootDir => Err (AbsolutePath value)
  end.
Definition normalized_path (value : string) : result ValidationError string :=
  if is_empty value || contains_char nul_char value then Err (InvalidPath value) else
  let value := slashes value in
  if path_is_absolute value || starts_with_char "/" value || has_drive_prefix value || starts_with "//" value
  then Err (AbsolutePath value) else
  output ← try_fold (path_step value) [] (path_components value);
  match output with
  | [] => Err (InvalidPath value)
  | _ => Ok (join "/" output)
  end.
(** The loop over the parts of a link target; [true] when it climbs above the root. *)
Fixpoint target_escapes (depth : Z) (parts : list string) : bool :=
  match parts with
  | [] => false
  | part :: parts =>
      if is_empty part || str_eqb part "." then target_escapes depth parts
      else if str_eqb part ".." then (depth - 1 <? 0)%Z || target_escapes (depth - 1) parts
      else target_escapes (depth + 1) parts
  end.
Definition link_depth (link : string) : Z :=
  Z.of_nat (length (base.filter (λ s, is_empty s = false) (split "/" link)) - 1).
Definition symlink_target_escapes (link target : string) : bool :=
  let link := slashes link in
  let target := slashes target in
  if is_empty target || contains_char nul_char target then true
  else if starts_with_char "/" target || starts_with "//" target || has_drive_prefix target then true
  else target_escapes (link_depth link) (split "/" target).

(** ** [EntryValidator] *)
Definition usize_max : N := 2 ^ 64 - 1.
Definition n_checked_add (a b : N) : option N := if (a + b <=? usize_max)%N then Some (a + b)%N else None.
Record EntryValidator := mk_validator {
  va_limits : ValidationLimits;
  va_count : N;
  va_total : N;
  va_exact : gset string;
  va_folded : gset string;
}.
Definition EntryValidator_new (limits : ValidationLimits) : EntryValidator := mk_validator limits 0 0 ∅ ∅.
(** The kind of an entry with its sizes; the new total. *)
Definition check_kind (limits : ValidationLimits) (total : N) (normalized : string) (entry : ArchiveEntry) :
    result ValidationError N :=
  match entry_kind entry with
  | EntryFile =>
      if (max_entry_size limits <? entry_size entry)%N
      then Err (EntryTooLarge (entry_path entry) (entry_size entry)) else
      total ← ok_or TotalSizeExceeded (n_checked_add total (entry_size entry));
      if (max_total_size limits <? total)%N then Err TotalSizeExceeded else Ok total
  | EntryDirectory =>
      if negb (entry_size entry =? 0)%N
      then Err (EntryTooLarge (entry_path entry) (entry_size entry)) else Ok total
  | EntrySymlink =>
      target ← ok_or (InvalidPath (entry_path entry)) (entry_link_target entry);
      if symlink_target_escapes normalized target then Err (SymlinkEscape (entry_path entry)) else Ok total
  | EntryHardlink | EntryOther => Err (SpecialFile (entry_path entry))
  end.
(** [push]; a validator is not used after an error. *)
Definition push (v : EntryValidator) (entry : ArchiveEntry) : result ValidationError EntryValidator :=
  count ← ok_or TooManyEntries (n_checked_add (va_count v) 1);
  if (max_entries (va_limits v) <? count)%N then Err TooManyEntries else
  if (max_path_bytes (va_limits v) <? N.of_nat (String.length (entry_path entry)))%N then Err PathTooLong else
  normalized ← normalized_path (entry_path entry);
  if bool_decide (normalized ∈ va_exact v) then Err (DuplicatePath (entry_path entry)) else
  let folded := to_ascii_lowercase normalized in
  if bool_decide (folded ∈ va_folded v) then Err (CaseCollision (entry_path entry)) else
  total ← check_kind (va_limits v) (va_total v) normalized entry;
  Ok (mk_validator (va_limits v) count total ({[normalized]} ∪ va_exact v) ({[folded]} ∪ va_folded v)).
Definition validate_entries (entries : list ArchiveEntry) (limits : ValidationLimits) :
    result ValidationError () :=
  _ ← try_fold push (EntryValidator_new limits) entries; Ok ().
