(* ===== verification/ArchiveTree.v ===== *)
(** * tapid-archive: extraction and tree digests

    The two passes over a tar archive, extraction into a fresh staging directory with the
    manifest of executable files, the validation of generated trees and the canonical
    digest of a tree (crates/tapid-archive/src/lib.rs, tree_validation.rs), on the Unix
    build.  The tar and flate2 crates are the class [TarCrate]: what iterating over the
    entries of the given bytes yields, with the number of bytes that each step reads.  A
    directory tree is a value ([node]); no other process changes it, the disk does not
    fail, and names have no length limit. *)
From S2P Require Import Prelude Order RustStr Crates Archive.

(** ** Errors *)
Inductive OsError := OsNotFound | OsAlreadyExists | OsNotADirectory | OsIsADirectory.
(** [io::Error]: made with [io::Error::new] (the kind and the text), or by the system. *)
Inductive io_error :=
| InvalidData (text : string)
| InvalidInput (text : string)
| UnexpectedEof (text : string)
| OtherIo (text : string)
| Os (error : OsError).
Definition io_display (e : io_error) : string :=
  match e with
  | InvalidData text | InvalidInput text | UnexpectedEof text | OtherIo text => text
  | Os OsNotFound => "No such file or directory (os error 2)"
  | Os OsAlreadyExists => "File exists (os error 17)"
  | Os OsNotADirectory => "Not a directory (os error 20)"
  | Os OsIsADirectory => "Is a directory (os error 21)"
  end.
Inductive ExtractError :=
| Io (e : io_error)
| Invalid (e : ValidationError)
| InvalidArchive (e : string)
| ArchiveTooLarge.
Definition ExtractError_display (e : ExtractError) : string :=
  match e with
  | Io e => "archive I/O error: " +:+ io_display e
  | Invalid e => ValidationError_display e
  | InvalidArchive e => "invalid archive: " +:+ e
  | ArchiveTooLarge => "archive compressed size limit exceeded"
  end.

(** ** Archives *)
Inductive ArchiveFormat := Tar | TarGz.
Record ArchiveLimits := mk_archive_limits {
  al_validation : ValidationLimits;
  al_max_archive_bytes : N;
}.
Definition ArchiveLimits_default : ArchiveLimits :=
  mk_archive_limits ValidationLimits_default (512 * 1024 * 1024).
Definition EXECUTABLE_MANIFEST : string := ".tapid-executable-modes".
Definition PARSER_METADATA_LIMIT : N := 64 * 1024.

(** What the sources ask an [tar::EntryType] and a [tar::Entry]. *)
Inductive TarKind :=
| TarFile | TarDirectory | TarSymlink | TarHardlink
| TarGnuLongname | TarGnuLonglink | TarPaxLocal | TarPaxGlobal | TarUnknown.
#[export] Instance TarKind_eq_dec : EqDecision TarKind.
Proof. solve_decision. Defined.
Record TarEntry := mk_tar_entry {
  te_kind : TarKind;
  te_path : result string string;                  (* [path()], as a string *)
  te_link_name : result string (option string);    (* [link_name()] *)
  te_size : N;                                     (* [size()]: the effective size *)
  te_header_size : result io_error N;              (* [header().size()] *)
  te_mode : result io_error N;                     (* [header().mode()] *)
  te_pax : result io_error (option (list (result io_error (string * string))));
  te_content : result io_error string;             (* what reading the entry yields *)
}.
(** One step of the iteration: the bytes that it reads, with those of the body of a global
    extension that the code reads in the same step, and the entry or the error. *)
Record tar_item := mk_item { item_cost : N; item_entry : result io_error TarEntry }.
Record tar_items := mk_items { listed : list tar_item; end_cost : N }.
Class TarCrate : Type := {
  (** [archive.entries()], iterated to its end without a limit on the bytes read *)
  tar_entries : ArchiveFormat → string → result io_error tar_items;
  (** [archive.entries()?.raw(true)] over the first bytes: kinds and sizes *)
  tar_raw_entries : ArchiveFormat → string → N → result io_error (list (result io_error (TarKind * N)));
}.

Definition metadata_maximum (limits : ValidationLimits) (kind : TarKind) : option N :=
  match kind with
  | TarGnuLongname | TarGnuLonglink => Some (N.min (max_path_bytes limits + 1) usize_max)
  | TarPaxGlobal => Some 1024%N
  | TarPaxLocal => Some (64 * 1024)%N
  | _ => None
  end.
Definition metadata_exceeded : string := "archive parser metadata limit exceeded".
Fixpoint check_leading (limits : ValidationLimits) (items : list (result io_error (TarKind * N))) :
    result ExtractError () :=
  match items with
  | Ok (kind, size) :: items =>
      match metadata_maximum limits kind with
      | Some maximum =>
          if (maximum <? size)%N then Err (InvalidArchive metadata_exceeded) else check_leading limits items
      | None => Ok ()
      end
  | Err _ :: _ | [] => Ok ()
  end.
Definition validate_initial_metadata `{TarCrate} (bytes : string) (format : ArchiveFormat)
    (limits : ValidationLimits) : result ExtractError () :=
  items ← map_err Io (tar_raw_entries format bytes PARSER_METADATA_LIMIT);
  check_leading limits items.

(** [ParserBudgetReader::read] with what remains of the budget: [inner n] is what the
    wrapped reader returns for a buffer of [n] bytes. *)
Definition budget_read (inner : N → result io_error string) (remaining buffer : N) : N * result io_error string :=
  if (buffer =? 0)%N then (remaining, Ok "") else
  if (remaining =? 0)%N then (remaining, Err (InvalidData metadata_exceeded)) else
  match inner (N.min buffer remaining) with
  | Ok read => ((remaining - N.of_nat (String.length read))%N, Ok read)
  | Err e => (remaining, Err e)
  end.
(** A step of the iteration through that reader: it fails when it needs more bytes. *)
Definition within {A} (budget cost : N) (r : result io_error A) : result io_error A :=
  if (budget <? cost)%N then Err (InvalidData metadata_exceeded) else r.

Definition comment_byte (a : ascii) : bool := byte_is_digit a || between 97 102 (code a).
Definition commit_comment (key value : string) : bool :=
  str_eqb key "comment"
  && (Nat.eqb (String.length value) 40 || Nat.eqb (String.length value) 64)
  && str_forallb comment_byte value.
Definition git_commit_comment (e : TarEntry) : result ExtractError bool :=
  if negb (bool_decide (te_kind e = TarPaxGlobal)) then Ok false else
  size ← map_err Io (te_header_size e);
  if (1024 <? size)%N then Err (InvalidArchive "global PAX metadata is too large") else
  extensions ← map_err Io (te_pax e);
  extensions ← ok_or (InvalidArchive "missing global PAX metadata") extensions;
  match extensions with
  | [] => Err (InvalidArchive "empty global PAX metadata")
  | first :: rest =>
      '(key, value) ← map_err Io first;
      if negb (commit_comment key value) || negb (bool_decide (rest = []))
      then Err (InvalidArchive "unsupported global PAX metadata") else Ok true
  end.

(** ** The validation pass *)
Definition kind_of (kind : TarKind) : EntryKind :=
  match kind with
  | TarDirectory => EntryDirectory
  | TarFile => EntryFile
  | TarSymlink => EntrySymlink
  | TarHardlink => EntryHardlink
  | _ => EntryOther
  end.
Record pass := mk_pass { pa_validator : EntryValidator; pa_comment_seen : bool; pa_previous : N }.
Definition validate_entry (p : pass) (e : TarEntry) : result ExtractError pass :=
  comment ← git_commit_comment e;
  if comment : bool then
    if pa_comment_seen p then Err (InvalidArchive "duplicate global commit comment")
    else Ok (mk_pass (pa_validator p) true 0)
  else
  path ← map_err InvalidArchive (te_path e);
  let kind := kind_of (te_kind e) in
  target ← match kind with
           | EntrySymlink => map_err InvalidArchive (te_link_name e)
           | _ => Ok None
           end;
  validator ← map_err Invalid (push (pa_validator p) (mk_entry path kind (te_size e) target));
  match kind with
  | EntrySymlink => Err (Invalid (SpecialFile path))
  | _ => Ok (mk_pass validator (pa_comment_seen p) (te_size e))
  end.
(** The budget of the next step: the payload just accepted and the framing. *)
Definition step_budget (p : pass) : N := N.min (pa_previous p + PARSER_METADATA_LIMIT) usize_max.
Definition validate_step (p : pass) (item : tar_item) : result ExtractError pass :=
  e ← map_err Io (within (step_budget p) (item_cost item) (item_entry item));
  validate_entry p e.
Definition validate_archive `{TarCrate} (bytes : string) (format : ArchiveFormat)
    (limits : ValidationLimits) : result ExtractError () :=
  items ← map_err Io (tar_entries format bytes);
  p ← try_fold validate_step (mk_pass (EntryValidator_new limits) false 0) (listed items);
  map_err Io (within (step_budget p) (end_cost items) (Ok ())).

(** ** Directory trees *)
(** A link carries what it resolves to, if anything. *)
#[warnings="-register-all"]
Inductive node :=
| FileNode (content : string) (mode : N)
| DirNode (children : list (string * node))
| LinkNode (target : option node)
| SpecialNode.
Fixpoint child (name : string) (children : list (string * node)) : option node :=
  match children with
  | [] => None
  | (n, c) :: children => if str_eqb n name then Some c else child name children
  end.
Fixpoint set_child (name : string) (c : node) (children : list (string * node)) : list (string * node) :=
  match children with
  | [] => [(name, c)]
  | (n, old) :: children => if str_eqb n name then (n, c) :: children else (n, old) :: set_child name c children
  end.
(** What a path component goes through: links are followed. *)
Fixpoint resolve_link (n : node) : option node :=
  match n with
  | LinkNode (Some target) => resolve_link target
  | LinkNode None => None
  | _ => Some n
  end.
(** [symlink_metadata(root.join(path))] *)
Fixpoint symlink_metadata (path : list string) (root : node) : result io_error node :=
  match path with
  | [] => Ok root
  | name :: path =>
      match resolve_link root with
      | Some (DirNode children) =>
          c ← ok_or (Os OsNotFound) (child name children);
          symlink_metadata path c
      | Some _ => Err (Os OsNotADirectory)
      | None => Err (Os OsNotFound)
      end
  end.
(** [fs::create_dir_all], in a tree without links *)
Fixpoint create_dir_all (path : list string) (root : node) : result io_error node :=
  match path with
  | [] => match root with DirNode _ => Ok root | _ => Err (Os OsAlreadyExists) end
  | name :: path =>
      match root with
      | DirNode children =>
          c ← create_dir_all path (default (DirNode []) (child name children));
          Ok (DirNode (set_child name c children))
      | _ => Err (Os OsNotADirectory)
      end
  end.
(** [OpenOptions::new().write(true).create_new(true)], in a tree without links *)
Fixpoint create_new (path : list string) (file : node) (root : node) : result io_error node :=
  match root with
  | DirNode children =>
      match path with
      | [] => Err (Os OsAlreadyExists)
      | [name] =>
          match child name children with
          | Some _ => Err (Os OsAlreadyExists)
          | None => Ok (DirNode (set_child name file children))
          end
      | name :: path =>
          c ← ok_or (Os OsNotFound) (child name children);
          c ← create_new path file c;
          Ok (DirNode (set_child name c children))
      end
  | _ => Err (Os OsNotADirectory)
  end.

(** ** The extraction pass *)
Definition executable (mode : N) : bool := negb (N.land mode 73 =? 0)%N.  (* 0o111 *)
Definition portable_mode (archive_mode : N) : N := if executable archive_mode then 493 else 420.  (* 0o755, 0o644 *)
Definition line_break (a : ascii) : bool := ascii_eqb a newline_char || ascii_eqb a (ascii_of_N 13).
Record unpacked := mk_unpacked { up_tree : node; up_executables : list string }.
(** The file is created empty; its bytes are copied once it exists, then its mode is set. *)
Definition extract_file (u : unpacked) (e : TarEntry) (normalized : string) (archive_mode : N) :
    result ExtractError unpacked :=
  let target := split "/" normalized in
  tree ← map_err Io (create_dir_all (removelast target) (up_tree u));
  _ ← map_err Io (create_new target (FileNode "" 420) tree);
  content ← map_err Io (te_content e);
  tree ← map_err Io (create_new target (FileNode content (portable_mode archive_mode)) tree);
  Ok (mk_unpacked tree (if executable archive_mode then up_executables u ++ [normalized] else up_executables u)).
Definition extract_entry (u : unpacked) (e : TarEntry) : result ExtractError unpacked :=
  comment ← git_commit_comment e;
  if comment : bool then Ok u else
  raw ← map_err InvalidArchive (te_path e);
  normalized ← map_err Invalid (normalized_path raw);
  if str_eqb normalized EXECUTABLE_MANIFEST
  then Err (InvalidArchive "archive uses a reserved Tapid metadata path") else
  archive_mode ← map_err Io (te_mode e);
  if executable archive_mode && str_existsb line_break normalized
  then Err (InvalidArchive "executable entry path contains a line break") else
  match te_kind e with
  | TarDirectory =>
      tree ← map_err Io (create_dir_all (split "/" normalized) (up_tree u));
      Ok (mk_unpacked tree (up_executables u))
  | TarFile => extract_file u e normalized archive_mode
  | _ => Err (InvalidArchive "non-regular entry after validation")
  end.
Definition extract_step (u : unpacked) (item : tar_item) : result ExtractError unpacked :=
  e ← map_err Io (item_entry item);
  extract_entry u e.
Definition extract_entries `{TarCrate} (bytes : string) (format : ArchiveFormat) (destination : node) :
    result ExtractError unpacked :=
  items ← map_err Io (tar_entries format bytes);
  u ← try_fold extract_step (mk_unpacked destination []) (listed items);
  Ok (mk_unpacked (up_tree u) (sort (up_executables u))).
Definition newline : string := String newline_char "".
Definition manifest_text (paths : list string) : string :=
  let contents := join newline paths in
  if is_empty contents then contents else contents +:+ newline.
Definition write_executable_manifest (destination : node) (executable_paths : list string) :
    result io_error node :=
  create_new [EXECUTABLE_MANIFEST] (FileNode (manifest_text executable_paths) 420) destination.
Definition extract_inner `{TarCrate} (bytes : string) (format : ArchiveFormat) (destination : node)
    (limits : ValidationLimits) : result ExtractError node :=
  _ ← validate_initial_metadata bytes format limits;
  _ ← validate_archive bytes format limits;
  u ← extract_entries bytes format destination;
  map_err Io (write_executable_manifest (up_tree u) (up_executables u)).
Definition exists_at (place : option node) : bool :=
  match place with Some n => bool_decide (is_Some (resolve_link n)) | None => false end.
(** [extract_to]: what is at the destination afterwards, and the result.  When the processing
    fails, [remains] is what [fs::remove_dir_all] leaves of the staging directory: nothing if
    it succeeds, and its own error is dropped. *)
Definition extract_to `{TarCrate} (bytes : string) (format : ArchiveFormat) (destination : option node)
    (limits : ArchiveLimits) (remains : option node) : option node * result ExtractError () :=
  if (al_max_archive_bytes limits <? N.of_nat (String.length bytes))%N then (destination, Err ArchiveTooLarge) else
  if exists_at destination then (destination, Err (InvalidArchive "destination already exists")) else
  match destination with
  | Some _ => (destination, Err (Io (Os OsAlreadyExists)))
  | None =>
      match extract_inner bytes format (DirNode []) (al_validation limits) with
      | Ok tree => (Some tree, Ok ())
      | Err e => (remains, Err e)
      end
  end.

(** ** Reading a tree back *)
Definition portable_file_kind (mode : N) : N := if executable mode then 2 else 0.
Definition manifest_step (root : node) (s : gset string * option string) (value : string) :
    result io_error (gset string * option string) :=
  let '(paths, previous) := s in
  normalized ← map_err (λ _, InvalidData "invalid executable path") (normalized_path value);
  if negb (str_eqb normalized value) || match previous with Some p => leb value p | None => false end
  then Err (InvalidData "executable mode manifest is not canonical") else
  target ← symlink_metadata (split "/" value) root;
  match target with
  | FileNode _ _ => Ok ({[value]} ∪ paths, Some value)
  | _ => Err (InvalidData "executable mode manifest references a non-regular file")
  end.
Definition parse_executable_manifest (root : node) (contents : string) : result io_error (gset string) :=
  if (4 * 1024 * 1024 <? N.of_nat (String.length contents))%N
  then Err (InvalidData "executable mode manifest is oversized") else
  if negb (utf8_valid contents) then Err (InvalidData "stream did not contain valid UTF-8") else
  if negb (is_empty contents) && negb (ends_with_char newline_char contents)
  then Err (InvalidData "executable mode manifest is not newline terminated") else
  fst <$> try_fold (manifest_step root) (∅, None) (lines contents).
Definition read_executable_manifest (root : node) : result io_error (option (gset string)) :=
  match symlink_metadata [EXECUTABLE_MANIFEST] root with
  | Ok (FileNode contents _) => Some <$> parse_executable_manifest root contents
  | Ok _ => Err (InvalidData "executable mode manifest is not a regular file")
  | Err (Os OsNotFound) => Ok None
  | Err e => Err e
  end.

(** A path with its kind and its bytes; a file is read when it is hashed. *)
Inductive TreePayload := Bytes (bytes : string) | File (content : string).
Definition tree_file : Type := string * N * TreePayload.
Definition relative (path : list string) : string := slashes (to_string_lossy (join "/" path)).
Definition skipped (excluded : option string) (rel : string) : bool :=
  str_eqb rel ".tapid-tree" || str_eqb rel EXECUTABLE_MANIFEST || bool_decide (excluded = Some rel).
Definition file_kind (executable_paths : option (gset string)) (rel : string) (mode : N) : result io_error N :=
  match executable_paths with
  | None => Ok (portable_file_kind mode)
  | Some paths =>
      let kind := if bool_decide (rel ∈ paths) then 2%N else 0%N in
      if negb (kind =? portable_file_kind mode)%N
      then Err (InvalidData "file executable mode differs from the canonical manifest") else Ok kind
  end.
Section collect.
Context (executable_paths : option (gset string)) (excluded : option string).
(** One directory; [recur] is the visit of a subdirectory. *)
Definition collect_entry (recur : list string → node → result io_error (list tree_file))
    (path : list string) (item : string * node) : result io_error (list tree_file) :=
  let path := path ++ [item.1] in
  let rel := relative path in
  if skipped excluded rel then Ok [] else
  match item.2 with
  | LinkNode _ => Err (InvalidData "symlink in extracted tree")
  | DirNode _ => below ← recur path item.2; Ok ((rel, 1%N, Bytes "") :: below)
  | FileNode content mode => kind ← file_kind executable_paths rel mode; Ok [(rel, kind, File content)]
  | SpecialNode => Err (InvalidData "special file in extracted tree")
  end.
Fixpoint collect_tree (path : list string) (current : node) : result io_error (list tree_file) :=
  match current with
  | DirNode children =>
      let fix visit (children : list (string * node)) : result io_error (list tree_file) :=
        match children with
        | [] => Ok []
        | (name, c) :: children =>
            found ← collect_entry collect_tree path (name, c);
            more ← visit children;
            Ok (found ++ more)
        end in
      visit children
  | _ => Err (Os OsNotADirectory)
  end.
End collect.

(** ** Digests *)
(** The file that is hashed, as the successive reads of it deliver it: chunks of bytes and
    errors, and then the end of the file. *)
Definition reader : Type := list (result io_error string).
Definition read_chunk (limit : nat) (r : reader) : result io_error (string * reader) :=
  match r with
  | [] => Ok ("", [])
  | Err e :: _ => Err e
  | Ok chunk :: r =>
      if Nat.leb (String.length chunk) limit then Ok (chunk, r)
      else Ok (String.substring 0 limit chunk, Ok (str_drop limit chunk) :: r)
  end.
(** The loop of [hash_file_contents]; the bytes given to the hasher, and what is left.
    Every pass reads a byte, so that as many passes as there are bytes are enough. *)
Fixpoint hash_loop (fuel : nat) (remaining : N) (r : reader) : result io_error (string * reader) :=
  if (remaining =? 0)%N then Ok ("", r) else
  '(chunk, r) ← read_chunk (N.to_nat (N.min remaining 65536)) r;
  if is_empty chunk then Err (UnexpectedEof "tree file changed during hashing") else
  match fuel with
  | O => Err (OtherIo "out of fuel")
  | S fuel =>
      '(more, r) ← hash_loop fuel (remaining - N.of_nat (String.length chunk)) r;
      Ok (chunk +:+ more, r)
  end.
Definition hash_file_contents (r : reader) (length : N) : result io_error string :=
  '(hashed, r) ← hash_loop (N.to_nat length) length r;
  '(extra, _) ← read_chunk 1 r;
  if is_empty extra then Ok hashed else Err (InvalidData "tree file grew during hashing").

(** [to_be_bytes] of a [u64] *)
Definition byte_of (n : N) (shift : N) : ascii := ascii_of_N (N.land (N.shiftr n shift) 255).
Definition to_be_bytes (n : N) : string :=
  String.string_of_list_ascii (byte_of n <$> [56; 48; 40; 32; 24; 16; 8; 0]%N).
Definition be_length (s : string) : string := to_be_bytes (N.of_nat (String.length s)).
(** What the hasher is fed for one item. *)
Definition frame (f : tree_file) : result io_error string :=
  let '(path, kind, data) := f in
  let header := be_length path +:+ path +:+ String (ascii_of_N kind) "" in
  match data with
  | Bytes bytes => Ok (header +:+ be_length bytes +:+ bytes)
  | File content =>
      hashed ← hash_file_contents [Ok content] (N.of_nat (String.length content));
      Ok (header +:+ be_length content +:+ hashed)
  end.
Definition drop_excluded (excluded : option string) (paths : gset string) : gset string :=
  match excluded with
  | Some entry => base.filter (λ path, path ≠ entry ∧ starts_with (entry +:+ "/") path = false) paths
  | None => paths
  end.
(** The sorted items of a tree, with its executable manifest. *)
Definition tree_files (root : node) (excluded : option string) : result io_error (list tree_file) :=
  manifest ← read_executable_manifest root;
  let executable_paths := drop_excluded excluded <$> manifest in
  top ← ok_or (Os OsNotFound) (resolve_link root);
  files ← collect_tree executable_paths excluded [] top;
  let manifest := match executable_paths with
                  | Some paths => [(EXECUTABLE_MANIFEST, 3%N, Bytes (manifest_text (bset_iter paths)))]
                  | None => []
                  end in
  Ok (sort_by fst (files ++ manifest)).
Definition tree_digest `{Sha256} (root : node) (excluded : option string) : result io_error string :=
  files ← tree_files root excluded;
  frames ← try_map frame files;
  Ok ("sha256-" +:+ sha256_hex (String.concat "" frames)).
Definition canonical_tree_digest `{Sha256} (root : node) : result io_error string := tree_digest root None.
Definition excluded_byte (a : ascii) : bool :=
  ascii_eqb a nul_char || ascii_eqb a "/" || ascii_eqb a "\" || ascii_eqb a ":".
Definition canonical_tree_digest_without_root_entry `{Sha256} (root : node) (entry : string) :
    result io_error string :=
  if is_empty entry || str_eqb entry "." || str_eqb entry ".." || str_existsb excluded_byte entry
  then Err (InvalidInput "excluded tree entry must be one filename") else
  tree_digest root (Some entry).

(** ** [validate_tree] *)
Section generated.
Context (limits : ValidationLimits).
Definition generated_kind (name : string) (n : node) : result ExtractError (EntryKind * N) :=
  match n with
  | FileNode content _ => Ok (EntryFile, N.of_nat (String.length content))
  | DirNode _ => Ok (EntryDirectory, 0%N)
  | _ => Err (Invalid (SpecialFile name))
  end.
Definition generated_entry (entries : list ArchiveEntry) (path : list string) (c : node) :
    result ExtractError (list ArchiveEntry) :=
  if (max_entries limits <=? N.of_nat (length entries))%N then Err (Invalid TooManyEntries) else
  let name := join "/" path in
  if negb (utf8_valid name) then Err (InvalidArchive "generated path is not UTF-8") else
  if (max_path_bytes limits <? N.of_nat (String.length name))%N then Err (Invalid PathTooLong) else
  normalized ← map_err Invalid (normalized_path name);
  if negb (str_eqb normalized name) then Err (Invalid (InvalidPath name)) else
  if str_eqb name ".tapid-tree" || str_eqb name EXECUTABLE_MANIFEST
  then Err (InvalidArchive "generated tree contains reserved store metadata") else
  '(kind, size) ← generated_kind name c;
  Ok (entries ++ [mk_entry name kind size None]).
Fixpoint collect (entries : list ArchiveEntry) (path : list string) (current : node) {struct current} :
    result ExtractError (list ArchiveEntry) :=
  match current with
  | DirNode children =>
      let fix visit (entries : list ArchiveEntry) (children : list (string * node))
          {struct children} : result ExtractError (list ArchiveEntry) :=
        match children with
        | [] => Ok entries
        | (name, c) :: children =>
            entries ← generated_entry entries (path ++ [name]) c;
            entries ← match c with DirNode _ => collect entries (path ++ [name]) c | _ => Ok entries end;
            visit entries children
        end in
      visit entries children
  | _ => Err (Io (Os OsNotADirectory))
  end.
End generated.
Definition validate_tree (root : node) (limits : ValidationLimits) : result ExtractError () :=
  match root with
  | DirNode _ =>
      entries ← collect limits [] [] root;
      map_err Invalid (validate_entries entries limits)
  | _ => Err (InvalidArchive "generated tree root must be a directory")
  end.
