(* ===== verification/ArchiveInv.v ===== *)
(** * What archive validation accepts

    The paths that [Archive.normalized_path] accepts and what it makes of them, the links
    that stay below the root, and the exact condition under which a list of archive entries
    is valid. *)
From S2P Require Import Prelude Order RustStr Archive.

(** ** Paths *)
Definition kept (part : string) : Prop := part ≠ "" ∧ part ≠ ".".
#[export] Instance kept_dec part : Decision (kept part).
Proof. unfold kept. apply _. Defined.
Definition kept_parts (value : string) : list string := base.filter kept (split "/" value).
Definition plain_part (part : string) : Prop :=
  kept part ∧ part ≠ ".." ∧ contains_char "/" part = false ∧ contains_char "\" part = false ∧
  contains_char nul_char part = false.
(** The parts of a path that a validated archive can create. *)
Definition plain_parts (parts : list string) : Prop := parts ≠ [] ∧ Forall plain_part parts.

Lemma later_component_spec part :
  later_component part = if decide (kept part) then Some (if str_eqb part ".." then ParentDir else Normal part) else None.
Proof.
  unfold later_component, kept. destruct (str_eqb part "") eqn:E1; [apply str_eqb_true in E1; case_decide; naive_solver|].
  destruct (str_eqb part ".") eqn:E2; [apply str_eqb_true in E2; case_decide; naive_solver|].
  cbn [orb]. rewrite decide_True; [by destruct (str_eqb part "..")|].
  split; intros ->; discriminate.
Qed.
Lemma omap_later (parts : list string) :
  omap later_component parts = (λ part, if str_eqb part ".." then ParentDir else Normal part) <$> base.filter kept parts.
Proof.
  induction parts as [|part parts IH]; [done|]. cbn [omap list_omap]. rewrite later_component_spec, filter_cons.
  case_decide; [|done]. cbn. by rewrite IH.
Qed.
Lemma path_steps value output (parts : list string) :
  try_fold (path_step value) output ((λ part, if str_eqb part ".." then ParentDir else Normal part) <$> parts) =
  if decide (".." ∈ parts) then Err (Traversal value) else Ok (output ++ parts).
Proof.
  revert output. induction parts as [|part parts IH]; intros output.
  { cbn. rewrite app_nil_r. by case_decide as H; [apply not_elem_of_nil in H|]. }
  cbn [fmap list_fmap try_fold]. destruct (str_eqb part "..") eqn:E.
  - apply str_eqb_true in E as ->. cbn. case_decide as H; [done|]. set_solver.
  - cbn [path_step mbind result_bind]. rewrite IH. assert (part ≠ "..") by (intros ->; by rewrite str_eqb_refl in E).
    do 2 case_decide; [done|set_solver..|]. by rewrite <-app_assoc.
Qed.
Lemma normal_components value :
  starts_with_char "/" value = false →
  ∃ current, path_components value =
    current ++ ((λ part, if str_eqb part ".." then ParentDir else Normal part) <$> kept_parts value) ∧
    (current = [] ∨ current = [CurDir]).
Proof.
  intros H. unfold path_components, path_is_absolute, kept_parts. rewrite H.
  destruct (split "/" value) as [|first rest]; [by exists []; auto|].
  destruct (str_eqb first ".") eqn:E.
  - apply str_eqb_true in E as ->. exists [CurDir]. rewrite omap_later, filter_cons. split; [|by right].
    rewrite decide_False; [done|]. by intros [].
  - exists []. rewrite omap_later. split; [done|by left].
Qed.
(** [normalized_path] in one step: when it accepts a path, and what it makes of it. *)
Lemma normalized_path_Ok value p :
  normalized_path value = Ok p ↔
  contains_char nul_char value = false ∧ starts_with_char "/" (slashes value) = false ∧
  has_drive_prefix (slashes value) = false ∧ ".." ∉ kept_parts (slashes value) ∧
  kept_parts (slashes value) ≠ [] ∧ p = join "/" (kept_parts (slashes value)).
Proof.
  unfold normalized_path. destruct (is_empty value) eqn:Ee.
  { apply is_empty_true in Ee as ->. cbn. naive_solver. }
  cbn [orb]. destruct (contains_char nul_char value); [naive_solver|]. cbv zeta.
  set (v := slashes value). unfold path_is_absolute. destruct (starts_with_char "/" v) eqn:Es; [naive_solver|].
  assert (starts_with "//" v = false) as ->.
  { apply not_true_iff_false. intros [r Hr]%starts_with_true. rewrite Hr in Es. by cbn in Es. }
  cbn [orb]. destruct (has_drive_prefix v); [naive_solver|]. cbn [orb].
  destruct (normal_components v Es) as (current&->&Hcurrent).
  assert (try_fold (path_step v) [] (current ++ ((λ part, if str_eqb part ".." then ParentDir else Normal part) <$> kept_parts v))
    = if decide (".." ∈ kept_parts v) then Err (Traversal v) else Ok (kept_parts v)) as ->.
  { destruct Hcurrent as [-> | ->]; cbn [app try_fold path_step mbind result_bind]; by rewrite path_steps. }
  case_decide as Hd; [naive_solver|]. cbn [mbind result_bind]. destruct (kept_parts v) eqn:Ek; naive_solver.
Qed.

Lemma contains_char_true c s : contains_char c s = true ↔ ∃ x y, s = x +:+ String c y.
Proof.
  induction s as [|a s IH].
  - split; [done|]. by intros ([]&?&?).
  - rewrite contains_char_cons, orb_true_iff, ascii_eqb_true, IH. split.
    + intros [<-|(x&y&->)]; [by exists "", s|by exists (String a x), y].
    + intros ([|b x]&y&[= -> ->]); [by left|right; eauto].
Qed.
Lemma split_infix c s part : part ∈ split c s → ∃ x y, s = x +:+ part +:+ y.
Proof.
  revert part. induction s as [|a s IH]; intros part; cbn [split].
  - intros ->%list_elem_of_singleton. by exists "", "".
  - destruct (ascii_eqb a c).
    + intros [->|(x&y&->)%IH]%elem_of_cons; [by exists "", (String a s)|by exists (String a x), y].
    + destruct (split c s) as [|p l] eqn:E; [by apply split_not_nil in E|].
      intros [->|H]%elem_of_cons.
      * pose proof (join_split c s) as Hj. rewrite E in Hj. exists "".
        destruct l as [|q l]; cbn [join] in Hj; [exists ""; by rewrite app_nil_r', <-Hj|].
        eexists. by rewrite <-Hj.
      * destruct (IH part) as (x&y&->); [by right|]. by exists (String a x), y.
Qed.
Lemma split_avoids c d s part : contains_char d s = false → part ∈ split c s → contains_char d part = false.
Proof.
  intros Hs (x&y&->)%split_infix. rewrite !contains_char_app in Hs.
  apply orb_false_iff in Hs as [_ Hs]. by apply orb_false_iff in Hs as [? _].
Qed.
Lemma ascii_eqb_sym a b : ascii_eqb a b = ascii_eqb b a.
Proof. unfold ascii_eqb. by apply bool_decide_ext. Qed.
Lemma slashes_cons a s : slashes (String a s) = String (if ascii_eqb a "\" then "/"%char else a) (slashes s).
Proof. unfold slashes, replace_with. cbn [str_flat_map]. by destruct (ascii_eqb a "\"). Qed.
Lemma slashes_free s : contains_char "\" (slashes s) = false.
Proof.
  induction s as [|a s IH]; [done|]. rewrite slashes_cons, contains_char_cons, IH, orb_false_r.
  destruct (ascii_eqb a "\") eqn:E; [done|]. by rewrite ascii_eqb_sym.
Qed.
Lemma slashes_avoids c s : c ≠ "/"%char → contains_char c s = false → contains_char c (slashes s) = false.
Proof.
  intros Hc. induction s as [|a s IH]; [done|]. rewrite slashes_cons, !contains_char_cons.
  intros [Ha Hs]%orb_false_iff. rewrite IH, orb_false_r by done. destruct (ascii_eqb a "\"); [|done].
  by apply not_true_iff_false; intros ->%ascii_eqb_true.
Qed.
Lemma slashes_id s : contains_char "\" s = false → slashes s = s.
Proof.
  induction s as [|a s IH]; [done|]. rewrite contains_char_cons. intros [Ha Hs]%orb_false_iff.
  rewrite slashes_cons, IH, ascii_eqb_sym, Ha by done. done.
Qed.
Lemma kept_parts_plain value :
  contains_char nul_char value = false → ".." ∉ kept_parts (slashes value) →
  Forall plain_part (kept_parts (slashes value)).
Proof.
  intros Hn Hd. apply Forall_forall. intros part Hp. pose proof Hp as [Hk Hin]%list_elem_of_filter.
  split_and!; [done|by intros ->|by eapply split_pieces_free|..].
  - eapply split_avoids; [apply slashes_free|done].
  - eapply split_avoids; [apply slashes_avoids; [done|exact Hn]|done].
Qed.
Lemma plain_split (parts : list string) : parts ≠ [] → Forall plain_part parts → split "/" (join "/" parts) = parts.
Proof. intros Hne Hp. apply (split_join "/"); [done|]. eapply Forall_impl; [exact Hp|by intros ? (_&_&?&_)]. Qed.
Lemma kept_parts_join parts : plain_parts parts → kept_parts (join "/" parts) = parts.
Proof.
  intros [Hne Hparts]. unfold kept_parts. rewrite plain_split by done.
  apply filter_all. intros part Hp. by apply (proj1 (Forall_forall _ _) Hparts).
Qed.
Lemma join_avoids c sep (parts : list string) :
  contains_char c sep = false → Forall (λ part, contains_char c part = false) parts →
  contains_char c (join sep parts) = false.
Proof.
  intros Hs. induction 1 as [|part parts Hp Hparts IH]; [done|]. cbn [join]. destruct parts as [|q parts]; [done|].
  by rewrite !contains_char_app, Hp, Hs, IH.
Qed.
Lemma normalized_parts value p : normalized_path value = Ok p → plain_parts (split "/" p) ∧ p = join "/" (split "/" p).
Proof.
  intros (Hn&_&_&Hd&Hk&->)%normalized_path_Ok. pose proof (kept_parts_plain _ Hn Hd) as Hplain.
  by rewrite plain_split.
Qed.
Lemma plain_join_facts parts : plain_parts parts →
  contains_char nul_char (join "/" parts) = false ∧ contains_char "\" (join "/" parts) = false ∧
  starts_with_char "/" (join "/" parts) = false.
Proof.
  intros [Hne Hparts]. split_and!.
  - apply join_avoids; [done|]. eapply Forall_impl; [exact Hparts|by intros ? (_&_&_&_&?)].
  - apply join_avoids; [done|]. eapply Forall_impl; [exact Hparts|by intros ? (_&_&_&?&_)].
  - destruct parts as [|part parts]; [done|]. apply Forall_cons in Hparts as [([He _]&_&Hs&_) _].
    destruct part as [|a part]; [done|]. rewrite contains_char_cons in Hs. apply orb_false_iff in Hs as [Hs _].
    destruct parts; by cbn.
Qed.
Lemma normalized_plain parts : plain_parts parts → has_drive_prefix (join "/" parts) = false →
  normalized_path (join "/" parts) = Ok (join "/" parts).
Proof.
  intros Hp Hd. destruct (plain_join_facts _ Hp) as (Hn&Hb&Hs). apply normalized_path_Ok.
  rewrite slashes_id by done. rewrite kept_parts_join by done. destruct Hp as [Hne Hp].
  split_and!; [done..| |done|done]. intros H. by destruct (proj1 (Forall_forall _ _) Hp _ H) as (_&?&_).
Qed.
(** The result of a normalisation, as a Unix path. *)
Lemma plain_components parts : plain_parts parts → omap later_component parts = Normal <$> parts.
Proof.
  intros [_ Hp]. rewrite omap_later. rewrite filter_all by (intros part Hin; by apply (proj1 (Forall_forall _ _) Hp)).
  apply list_fmap_ext. intros i part Hi%list_elem_of_lookup_2. destruct (proj1 (Forall_forall _ _) Hp _ Hi) as (_&Hd&_).
  destruct (str_eqb part "..") eqn:E; [|done]. by apply str_eqb_true in E.
Qed.
Lemma joined_below base parts :
  path_is_absolute base = true → plain_parts parts →
  path_components (base +:+ "/" +:+ join "/" parts) = path_components base ++ (Normal <$> parts).
Proof.
  intros Hb Hp. assert (path_is_absolute (base +:+ "/" +:+ join "/" parts) = true) as Ha by (destruct base; [done|by rewrite app_cons]).
  unfold path_components. rewrite Hb, Ha, app_cons, app_nil_l', split_separator, omap_app.
  rewrite plain_split by apply Hp. by rewrite (plain_components parts).
Qed.
(** C36: normalising a path accepts exactly the relative paths, without NUL or a drive
    prefix, that consist of plain components: backslashes count as separators, empty
    components and [.] are dropped, and what remains must be nonempty and free of [..]; the
    result joins those components, so that as a Unix path it stays below any absolute
    directory it is joined to (on Windows it may not: dropping leading components can
    uncover a drive prefix).  Normalising again changes nothing, unless a drive prefix has
    been uncovered. *)
Theorem normalized_path_spec value p :
  (normalized_path value = Ok p ↔
    contains_char nul_char value = false ∧ starts_with_char "/" (slashes value) = false ∧
    has_drive_prefix (slashes value) = false ∧
    ∃ parts, parts = base.filter kept (split "/" (slashes value)) ∧ plain_parts parts ∧
      p = join "/" parts ∧ split "/" p = parts) ∧
  (normalized_path value = Ok p → ∀ base, path_is_absolute base = true →
    path_components (base +:+ "/" +:+ p) = path_components base ++ (Normal <$> split "/" p)) ∧
  (normalized_path value = Ok p → has_drive_prefix p = false → normalized_path p = Ok p).
Proof.
  split_and!.
  - rewrite normalized_path_Ok. split.
    + intros (Hn&Hs&Hd&Hup&Hk&->). pose proof (kept_parts_plain _ Hn Hup) as Hf.
      split_and!; [done..|]. eexists. split; [done|]. split; [by split|]. split; [done|]. by apply plain_split.
    + intros (Hn&Hs&Hd&parts&->&[Hk Hf]&->&_). split_and!; [done..| |done|done].
      intros Hin. by destruct (proj1 (Forall_forall _ _) Hf _ Hin) as (_&?&_).
  - intros H base Hb. destruct (normalized_parts _ _ H) as [Hplain Hj]. rewrite Hj at 1. by apply joined_below.
  - intros H. destruct (normalized_parts _ _ H) as [Hplain Hj]. rewrite Hj. by apply normalized_plain.
Qed.
(** The check of the drive prefix looks at the path before its leading components are
    dropped: the result of an accepted path may itself be refused. *)
Example uncovered_drive_prefix :
  normalized_path "./C:/evil" = Ok "C:/evil" ∧ normalized_path "C:/evil" = Err (AbsolutePath "C:/evil").
Proof. split; vm_compute; reflexivity. Qed.

(** ** Links *)
(** Following a relative target from a directory (innermost first), by name only; [None]
    when it leaves the root. *)
Fixpoint follow (directory parts : list string) : option (list string) :=
  match parts with
  | [] => Some directory
  | part :: parts =>
      if decide (part = ".." ) then match directory with [] => None | _ :: directory => follow directory parts end
      else if decide (kept part) then follow (part :: directory) parts else follow directory parts
  end.
Lemma target_escapes_spec directory parts :
  target_escapes (Z.of_nat (length directory)) parts = false ↔ is_Some (follow directory parts).
Proof.
  revert directory. induction parts as [|part parts IH]; intros directory; [done|].
  cbn [target_escapes follow]. unfold kept. destruct part as [|a part].
  { cbn. rewrite IH. by rewrite decide_False by naive_solver. }
  cbn [is_empty orb]. destruct (str_eqb (String a part) ".") eqn:Ed.
  { apply str_eqb_true in Ed as [= -> ->]. rewrite IH, decide_False by done. by rewrite decide_False by naive_solver. }
  destruct (str_eqb (String a part) "..") eqn:Ep.
  - apply str_eqb_true in Ep as [= -> ->]. rewrite decide_True by done. destruct directory as [|d directory].
    { cbn. split; [done|]. by intros [? [=]]. }
    rewrite <-IH. cbn [length]. replace (Z.of_nat (S (length directory)) - 1)%Z with (Z.of_nat (length directory)) by lia.
    rewrite (proj2 (Z.ltb_ge _ _)) by lia. done.
  - rewrite decide_False by (intros E; by rewrite E, str_eqb_refl in Ep).
    rewrite decide_True by (split; [done|]; intros E; by rewrite E, str_eqb_refl in Ed).
    rewrite <-IH. cbn [length]. by replace (Z.of_nat (length directory) + 1)%Z with (Z.of_nat (S (length directory))) by lia.
Qed.
(** For a link at a validated path, the check accepts exactly the relative targets
    (neither empty nor with NUL or a drive prefix) that never leave the archive's root
    when followed, name by name, from the directory of the link. *)
Theorem symlink_target_escapes_spec parts target :
  plain_parts parts →
  symlink_target_escapes (join "/" parts) target = false ↔
    target ≠ "" ∧ contains_char nul_char target = false ∧ starts_with_char "/" (slashes target) = false ∧
    has_drive_prefix (slashes target) = false ∧
    is_Some (follow (rev (removelast parts)) (split "/" (slashes target))).
Proof.
  intros Hp. pose proof Hp as [Hne Hparts]. unfold symlink_target_escapes. destruct (plain_join_facts _ Hp) as (_&Hb&_).
  rewrite (slashes_id _ Hb). cbv zeta.
  assert (link_depth (join "/" parts) = Z.of_nat (length (rev (removelast parts)))) as ->.
  { unfold link_depth. rewrite plain_split by done.
    rewrite filter_all.
    - rewrite length_rev. destruct parts as [|q parts] using rev_ind; [done|]. rewrite removelast_last, length_app. cbn. lia.
    - intros part Hin. apply (proj1 (Forall_forall _ _) Hparts) in Hin as ([He _]&_). by destruct part. }
  assert (is_empty (slashes target) = is_empty target) as -> by (by destruct target as [|a t]; [|rewrite slashes_cons]).
  assert (contains_char nul_char (slashes target) = contains_char nul_char target) as ->.
  { induction target as [|a t IH]; [done|]. rewrite slashes_cons, !contains_char_cons, IH. f_equal.
    destruct (ascii_eqb a "\") eqn:E; [|done]. apply ascii_eqb_true in E as ->. done. }
  destruct (is_empty target) eqn:Ee; [apply is_empty_true in Ee as ->; naive_solver|].
  assert (target ≠ "") by by intros ->. cbn [orb]. destruct (contains_char nul_char target); [naive_solver|].
  destruct (starts_with_char "/" (slashes target)) eqn:Es; [cbn [orb]; naive_solver|].
  assert (starts_with "//" (slashes target) = false) as ->.
  { apply not_true_iff_false. intros [r Hr]%starts_with_true. rewrite Hr in Es. by cbn in Es. }
  cbn [orb]. destruct (has_drive_prefix (slashes target)); [naive_solver|]. rewrite target_escapes_spec. naive_solver.
Qed.
Lemma symlink_target_escapes_spec_witness :
  symlink_target_escapes "a/b/link" "../x/../y" = false ∧ plain_parts ["a"; "b"; "link"].
Proof.
  assert (plain_parts ["a"; "b"; "link"]) as Hp.
  { split; [discriminate|]. forall_list; (split_and!; [split; discriminate|discriminate|reflexivity..]). }
  split; [|exact Hp]. apply (symlink_target_escapes_spec ["a"; "b"; "link"] "../x/../y" Hp).
  split_and!; [discriminate|reflexivity..|]. vm_compute. eexists. reflexivity.
Defined.

(** ** Entries *)
(** The limits and the kind of one entry, stored at [name]. *)
Definition kind_ok (limits : ValidationLimits) (entry : ArchiveEntry) (name : string) : Prop :=
  match entry_kind entry with
  | EntryFile => (entry_size entry <= max_entry_size limits)%N
  | EntryDirectory => entry_size entry = 0%N
  | EntrySymlink => ∃ target, entry_link_target entry = Some target ∧ symlink_target_escapes name target = false
  | EntryHardlink | EntryOther => False
  end.
Definition entry_ok (limits : ValidationLimits) (entry : ArchiveEntry) (name : string) : Prop :=
  (N.of_nat (String.length (entry_path entry)) <= max_path_bytes limits)%N ∧
  normalized_path (entry_path entry) = Ok name ∧ kind_ok limits entry name.
Definition payload (entry : ArchiveEntry) : N :=
  match entry_kind entry with EntryFile => entry_size entry | _ => 0 end.
Definition payloads (entries : list ArchiveEntry) : N := foldr N.add 0%N (payload <$> entries).
Lemma n_checked_add_Some a b c : n_checked_add a b = Some c ↔ (a + b <= usize_max)%N ∧ c = (a + b)%N.
Proof. unfold n_checked_add. destruct (N.leb_spec (a + b) usize_max); naive_solver lia. Qed.

Lemma check_kind_Ok limits total name entry total' :
  check_kind limits total name entry = Ok total' ↔
    kind_ok limits entry name ∧ total' = (total + payload entry)%N ∧
    (entry_kind entry = EntryFile → total' <= N.min usize_max (max_total_size limits))%N.
Proof.
  unfold check_kind, kind_ok, payload. destruct (entry_kind entry).
  - destruct (N.ltb_spec (max_entry_size limits) (entry_size entry)); [split; [done|lia]|]. rewrite bind_Ok. split.
    + intros (t&Ht%ok_or_Ok%n_checked_add_Some&Hm). destruct (N.ltb_spec (max_total_size limits) t); [done|].
      injection Hm as <-. destruct Ht. split_and!; [done..|lia].
    + intros (_&->&Hm). specialize (Hm eq_refl). eexists. split; [apply ok_or_Ok, n_checked_add_Some; split; [lia|done]|].
      by rewrite (proj2 (N.ltb_ge _ _)) by lia.
  - rewrite N.add_0_r. destruct (N.eqb_spec (entry_size entry) 0); cbn [negb]; naive_solver.
  - rewrite N.add_0_r, bind_Ok. setoid_rewrite ok_or_Ok. split.
    + intros (t&Ht&H). destruct (symlink_target_escapes name t) eqn:E; [done|]. naive_solver.
    + intros ((t&Ht&E)&->&_). exists t. by rewrite E.
  - naive_solver.
  - naive_solver.
Qed.
Lemma push_Ok v entry v' :
  push v entry = Ok v' ↔ ∃ name total,
    (va_count v + 1 <= N.min usize_max (max_entries (va_limits v)))%N ∧ entry_ok (va_limits v) entry name ∧
    name ∉ va_exact v ∧ to_ascii_lowercase name ∉ va_folded v ∧
    total = (va_total v + payload entry)%N ∧
    (entry_kind entry = EntryFile → total <= N.min usize_max (max_total_size (va_limits v)))%N ∧
    v' = mk_validator (va_limits v) (va_count v + 1) total ({[name]} ∪ va_exact v)
           ({[to_ascii_lowercase name]} ∪ va_folded v).
Proof.
  unfold push, entry_ok. rewrite bind_Ok. setoid_rewrite ok_or_Ok. setoid_rewrite n_checked_add_Some. split.
  - intros (count&[Hc ->]&H). destruct (N.ltb_spec (max_entries (va_limits v)) (va_count v + 1)); [done|].
    destruct (N.ltb_spec (max_path_bytes (va_limits v)) (N.of_nat (String.length (entry_path entry)))); [done|].
    apply bind_Ok in H as (name&Hn&H). repeat case_bool_decide; [done..|].
    apply bind_Ok in H as (total&(Hk&->&Ht)%check_kind_Ok&[= <-]).
    exists name, (va_total v + payload entry)%N. split_and!; [lia|done..].
  - intros (name&total&Hc&(Hl&Hn&Hk)&He&Hf&->&Ht&->). eexists. split; [split; [lia|done]|].
    rewrite (proj2 (N.ltb_ge _ _)) by lia. rewrite (proj2 (N.ltb_ge _ _)) by done. rewrite Hn. cbn [mbind result_bind].
    rewrite bool_decide_eq_false_2 by done. rewrite bool_decide_eq_false_2 by done.
    apply bind_Ok. eexists. split; [by apply check_kind_Ok|done].
Qed.
Lemma pushes_Ok entries v :
  (va_count v <= usize_max)%N → (va_total v <= N.min usize_max (max_total_size (va_limits v)))%N →
  (∀ name, name ∈ va_exact v → to_ascii_lowercase name ∈ va_folded v) →
  is_ok (try_fold push v entries) = true ↔ ∃ names,
    Forall2 (entry_ok (va_limits v)) entries names ∧ NoDup (to_ascii_lowercase <$> names) ∧
    (∀ name, name ∈ names → to_ascii_lowercase name ∉ va_folded v) ∧
    (entries = [] ∨ va_count v + N.of_nat (length entries) <= N.min usize_max (max_entries (va_limits v)))%N ∧
    (va_total v + payloads entries <= N.min usize_max (max_total_size (va_limits v)))%N.
Proof.
  revert v. induction entries as [|entry entries IH]; intros v Hc Ht Hfold.
  { cbn. split; [|done]. intros _. exists []. split_and!; [constructor..| |by left|lia]. by intros ? ?%not_elem_of_nil. }
  cbn [try_fold]. rewrite is_ok_true. setoid_rewrite bind_Ok.
  assert (payloads (entry :: entries) = (payload entry + payloads entries)%N) as -> by done. split.
  - intros (v2&v1&(name&total&Hn&Hok&He&Hf&->&Htotal&->)%push_Ok&H).
    assert (is_ok (Ok v2 : result ValidationError _) = true) as Hok2 by done. rewrite <-H in Hok2.
    apply IH in Hok2 as (names&Hall&Hnd&Hnew&Hlen&Hsum); cbn in *; [|lia| |set_solver].
    2: { unfold payload in *. destruct (entry_kind entry); [specialize (Htotal eq_refl)|clear Htotal..]; lia. }
    exists (name :: names). split_and!.
    + by constructor.
    + cbn. constructor; [|done]. intros (x&Hx&Hin)%list_elem_of_fmap. apply (Hnew x Hin). set_solver.
    + intros x [->|Hx]%elem_of_cons; [done|]. specialize (Hnew x Hx). set_solver.
    + right. cbn [length]. destruct Hlen as [-> | ?]; cbn [length]; lia.
    + lia.
  - intros (names&Hall&Hnd&Hnew&Hlen&Hsum). apply Forall2_cons_inv_l in Hall as (name&names'&Hok&Hall&->).
    cbn in Hnd. apply NoDup_cons in Hnd as [Hnin Hnd].
    destruct Hlen as [|Hlen]; [done|]. cbn [length] in Hlen.
    set (v1 := mk_validator (va_limits v) (va_count v + 1) (va_total v + payload entry)
      ({[name]} ∪ va_exact v) ({[to_ascii_lowercase name]} ∪ va_folded v)).
    assert (push v entry = Ok v1) as Hpush.
    { apply push_Ok. exists name, (va_total v + payload entry)%N. split_and!; try done; [lia| |set_solver|intros; lia].
      intros Hin%Hfold. by apply (Hnew name); [left|]. }
    rewrite Hpush. assert (is_ok (try_fold push v1 entries) = true) as (v2&H2)%is_ok_true.
    { apply IH; [cbn; lia..|cbn; set_solver|]. exists names'. cbn. split_and!; [done..| |right; lia|lia].
      intros x Hx [Heq%elem_of_singleton|Hin]%elem_of_union; [|by apply (Hnew x); [right|]].
      apply Hnin. rewrite <-Heq. by apply list_elem_of_fmap_2. }
    by exists v2, v1.
Qed.
(** A list of archive entries is valid exactly if it and its regular files' total size
    are within the limits (and 64 bits), every path is short enough and normalises to a
    name, no two names are equal up to ASCII case, every file is within the limit,
    directories are empty, links stay below the root, and there is nothing else. *)
Theorem validate_entries_spec entries limits :
  validate_entries entries limits = Ok () ↔ ∃ names,
    Forall2 (entry_ok limits) entries names ∧ NoDup (to_ascii_lowercase <$> names) ∧
    (entries = [] ∨ N.of_nat (length entries) <= N.min usize_max (max_entries limits))%N ∧
    (payloads entries <= N.min usize_max (max_total_size limits))%N.
Proof.
  assert (validate_entries entries limits = Ok () ↔ is_ok (try_fold push (EntryValidator_new limits) entries) = true) as ->.
  { unfold validate_entries. by destruct (try_fold _ _ _). }
  rewrite pushes_Ok by (cbn; unfold usize_max; (lia || set_solver)). cbn.
  setoid_rewrite N.add_0_l. split; intros (names&?&?&?); exists names; naive_solver set_solver.
Qed.
