(* ===== verification/ArchiveTreeInv.v ===== *)
(** * Extraction creates exactly the entries of an archive

    What is at a path of a tree ([entry_at]), the effect of creating directories and files
    on it, and from these the tree that extraction leaves: the archive's files with their
    portable modes, the directories they need, the executable manifest, and nothing else;
    or nothing at all. *)
From S2P Require Import Prelude Order RustStr Crates Archive ArchiveTree ArchiveInv.

(** ** What is at a path *)
Inductive object := IsFile (content : string) (mode : N) | IsDir | IsLink | IsSpecial.
Definition object_of (n : node) : object :=
  match n with
  | FileNode content mode => IsFile content mode
  | DirNode _ => IsDir
  | LinkNode _ => IsLink
  | SpecialNode => IsSpecial
  end.
(** Without following links. *)
Fixpoint node_at (path : list string) (n : node) : option node :=
  match path with
  | [] => Some n
  | name :: path =>
      match n with
      | DirNode children => c ← child name children; node_at path c
      | _ => None
      end
  end.
Definition entry_at (n : node) (path : list string) : option object := object_of <$> node_at path n.

(** A directory tree whose names are distinct in each directory and satisfy [P]. *)
Inductive tree_of (P : string → Prop) : node → Prop :=
| of_file content mode : tree_of P (FileNode content mode)
| of_link target : tree_of P (LinkNode target)
| of_special : tree_of P SpecialNode
| of_dir children :
    NoDup children.*1 → Forall P children.*1 →
    (∀ name c, (name, c) ∈ children → tree_of P c) → tree_of P (DirNode children).
(** The same without links and special files. *)
Definition linkless (n : node) : Prop := ∀ path o, entry_at n path = Some o → o ≠ IsLink ∧ o ≠ IsSpecial.

Implicit Types children : list (string * node).
Lemma child_Some name children c : child name children = Some c → (name, c) ∈ children.
Proof.
  induction children as [|[n x] children IH]; [done|]. cbn [child]. destruct (str_eqb n name) eqn:E.
  - apply str_eqb_true in E as ->. intros [= ->]. by left.
  - intros H. right. by apply IH.
Qed.
Lemma child_elem name children c : NoDup children.*1 → (name, c) ∈ children → child name children = Some c.
Proof.
  induction children as [|[n x] children IH]; [by intros _ ?%not_elem_of_nil|].
  cbn. intros [Hn Hnd]%NoDup_cons [[= <- <-]|Hin]%elem_of_cons; [by rewrite str_eqb_refl|].
  destruct (str_eqb n name) eqn:E; [|by apply IH]. apply str_eqb_true in E as ->.
  destruct Hn. by apply (list_elem_of_fmap_2 fst) in Hin.
Qed.
Lemma child_None name children : child name children = None ↔ name ∉ children.*1.
Proof.
  induction children as [|[n x] children IH]; [cbn; set_solver|]. cbn [child fmap list_fmap fst].
  destruct (str_eqb n name) eqn:E.
  - apply str_eqb_true in E as ->. split; [done|]. intros H. destruct H. by left.
  - rewrite IH, not_elem_of_cons. split; [|naive_solver]. intros H. split; [|done]. intros ->.
    by rewrite str_eqb_refl in E.
Qed.
Lemma child_set name c children n : child n (set_child name c children) = if decide (n = name) then Some c else child n children.
Proof.
  induction children as [|[m x] children IH]; cbn [set_child child].
  - case_decide as E; [subst; by rewrite str_eqb_refl|]. by destruct (str_eqb name n) eqn:E'; [apply str_eqb_true in E'|].
  - destruct (str_eqb m name) eqn:E; cbn [child].
    + apply str_eqb_true in E as ->. case_decide as E; [subst; by rewrite str_eqb_refl|].
      destruct (str_eqb name n) eqn:E'; [by apply str_eqb_true in E'|done].
    + rewrite IH. case_decide as E'; [|done]. subst. by rewrite E.
Qed.
Lemma set_child_names name c children :
  (set_child name c children).*1 = if decide (name ∈ children.*1) then children.*1 else children.*1 ++ [name].
Proof.
  induction children as [|[m x] children IH]; [done|]. cbn [set_child]. destruct (str_eqb m name) eqn:E.
  - apply str_eqb_true in E as ->. cbn. by rewrite decide_True by by left.
  - cbn [fmap list_fmap fst] in *. rewrite IH. assert (m ≠ name) by (intros ->; by rewrite str_eqb_refl in E).
    do 2 case_decide; set_solver.
Qed.
Lemma set_child_elem name c children n x : NoDup children.*1 →
  (n, x) ∈ set_child name c children → (n = name ∧ x = c) ∨ (n, x) ∈ children.
Proof.
  intros Hnd. induction children as [|[m y] children IH]; cbn [set_child].
  - intros [= -> ->]%list_elem_of_singleton. by left.
  - cbn in Hnd. apply NoDup_cons in Hnd as [_ Hnd]. destruct (str_eqb m name) eqn:E.
    + apply str_eqb_true in E as ->. intros [[= -> ->]|H]%elem_of_cons; [by left|right; by right].
    + intros [[= -> ->]|H]%elem_of_cons; [right; by left|]. destruct (IH Hnd H) as [?|?]; [by left|right; by right].
Qed.
Lemma tree_of_set P name c children :
  P name → tree_of P c → tree_of P (DirNode children) → tree_of P (DirNode (set_child name c children)).
Proof.
  intros Hname Hc H. inversion H as [| | |? Hnd HP Hch]; subst. constructor.
  - rewrite set_child_names. case_decide as Hin; [done|]. apply NoDup_app. split_and!; [done| |apply NoDup_singleton].
    intros x Hx ->%list_elem_of_singleton. done.
  - rewrite set_child_names. case_decide; [done|]. apply Forall_app. split; [done|by constructor].
  - intros n x [[-> ->]|Hin]%set_child_elem; [done|by eapply Hch|done].
Qed.

(** ** Creating directories and files *)
Lemma entry_at_nil n : entry_at n [] = Some (object_of n).
Proof. done. Qed.
Lemma entry_at_cons n name path :
  entry_at n (name :: path) =
    match n with DirNode children => c ← child name children; entry_at c path | _ => None end.
Proof. unfold entry_at. destruct n; cbn; try done. by destruct (child name children). Qed.
Lemma entry_at_empty path : entry_at (DirNode []) path = if decide (path = []) then Some IsDir else None.
Proof. by destruct path. Qed.

Lemma create_dir_all_Ok path n n' :
  create_dir_all path n = Ok n' →
  (∀ q, q `prefix_of` path → entry_at n q = None ∨ entry_at n q = Some IsDir) ∧
  ∀ q, entry_at n' q = if decide (q `prefix_of` path) then Some IsDir else entry_at n q.
Proof.
  revert n n'. induction path as [|name path IH]; intros n n' H; cbn in H.
  - destruct n; try done. injection H as <-. split.
    + intros q ->%prefix_nil_inv. by right.
    + intros q. case_decide as Hq; [|done]. by apply prefix_nil_inv in Hq as ->.
  - destruct n as [|children| |]; try done. apply bind_Ok in H as (c&Hc&[= <-]).
    apply IH in Hc as [Hbefore Hafter]. split.
    + intros [|m q] Hq; [by right|]. apply prefix_cons_inv_1 in Hq as Hm. apply prefix_cons_inv_2 in Hq. subst m.
      rewrite entry_at_cons. specialize (Hbefore q Hq). destruct (child name children); [done|by left].
    + intros [|m q].
      { by rewrite decide_True by apply prefix_nil. }
      rewrite !entry_at_cons, child_set. destruct (decide (m = name)) as [->|Hm].
      * cbn [mbind option_bind]. rewrite Hafter.
        destruct (decide (q `prefix_of` path)) as [Hq|Hq].
        { by rewrite decide_True by by apply prefix_cons. }
        rewrite decide_False by (intros ?%prefix_cons_inv_2; done).
        destruct (child name children); [done|]. rewrite entry_at_empty. cbn [default]. case_decide as E; [|done].
        subst. destruct Hq. apply prefix_nil.
      * rewrite decide_False; [done|]. intros ?%prefix_cons_inv_1. done.
Qed.
Lemma create_dir_all_tree P path n n' :
  Forall P path → tree_of P n → create_dir_all path n = Ok n' → tree_of P n'.
Proof.
  revert n n'. induction path as [|name path IH]; intros n n' HP Hn H; cbn in H.
  - destruct n; by simplify_eq.
  - destruct n as [|children| |]; try done. apply bind_Ok in H as (c&Hc&[= <-]). apply Forall_cons in HP as [? HP].
    apply tree_of_set; [done| |done]. eapply IH; [done| |done].
    destruct (child name children) as [x|] eqn:E; cbn.
    + apply child_Some in E. inversion Hn as [| | |? _ _ Hch]; subst. by eapply Hch.
    + constructor; [constructor..|]. by intros ? ? ?%not_elem_of_nil.
Qed.
Lemma create_new_Ok path content mode n n' :
  create_new path (FileNode content mode) n = Ok n' →
  path ≠ [] ∧ entry_at n path = None ∧
  ∀ q, entry_at n' q = if decide (q = path) then Some (IsFile content mode) else entry_at n q.
Proof.
  revert n n'. induction path as [|name path IH]; intros n n' H.
  { by destruct n. }
  assert (∃ children c, n = DirNode children ∧ n' = DirNode (set_child name c children) ∧
    (path = [] ∧ child name children = None ∧ c = FileNode content mode ∨
     ∃ c0, child name children = Some c0 ∧ create_new path (FileNode content mode) c0 = Ok c)) as (children&c&->&->&Hc).
  { destruct n as [|children| |]; try done. cbn in H. destruct path as [|next path].
    - destruct (child name children) eqn:E; [done|]. injection H as <-. exists children, (FileNode content mode). eauto 6.
    - apply bind_Ok in H as (c0&Hc0%ok_or_Ok&H). apply bind_Ok in H as (c&Hc&[= <-]). exists children, c. eauto 7. }
  split; [done|]. destruct Hc as [(->&Hnone&->)|(c0&Hc0&(Hne&Hnone&Hafter)%IH)].
  - rewrite entry_at_cons, Hnone. split; [done|]. intros [|m q]; [by rewrite decide_False by done|].
    rewrite !entry_at_cons, child_set. destruct (decide (m = name)) as [->|Hm].
    + rewrite Hnone. cbn [mbind option_bind]. destruct q; [by rewrite decide_True by done|by rewrite decide_False by congruence].
    + rewrite decide_False by congruence. done.
  - rewrite entry_at_cons, Hc0. split; [done|]. intros [|m q]; [by rewrite decide_False by done|].
    rewrite !entry_at_cons, child_set. destruct (decide (m = name)) as [->|Hm].
    + rewrite Hc0. cbn [mbind option_bind]. rewrite Hafter. do 2 case_decide; congruence.
    + rewrite decide_False by congruence. done.
Qed.
Lemma create_new_tree P path content mode n n' :
  Forall P path → tree_of P n → create_new path (FileNode content mode) n = Ok n' → tree_of P n'.
Proof.
  revert n n'. induction path as [|name path IH]; intros n n' HP Hn H; [by destruct n|].
  destruct n as [|children| |]; try done. apply Forall_cons in HP as [? HP]. cbn in H. destruct path as [|next path].
  - destruct (child name children); [done|]. injection H as <-. apply tree_of_set; [done|constructor|done].
  - apply bind_Ok in H as (c0&Hc0%ok_or_Ok&H). apply bind_Ok in H as (c&Hc&[= <-]).
    apply tree_of_set; [done| |done]. eapply IH; [done| |done].
    apply child_Some in Hc0. inversion Hn as [| | |? _ _ Hch]; subst. by eapply Hch.
Qed.

(** ** The members of an archive *)
(** The path and the object that an entry stands for, a file with its mode in the archive;
    nothing for the comment of a commit. *)
Definition member_of (e : TarEntry) : option (list string * object) :=
  match git_commit_comment e with
  | Ok false =>
      raw ← to_ok (te_path e);
      normalized ← to_ok (normalized_path raw);
      mode ← to_ok (te_mode e);
      match te_kind e with
      | TarDirectory => Some (split "/" normalized, IsDir)
      | TarFile => content ← to_ok (te_content e); Some (split "/" normalized, IsFile content mode)
      | _ => None
      end
  | _ => None
  end.
Definition members (items : list tar_item) : list (list string * object) :=
  omap (λ item, e ← to_ok (item_entry item); member_of e) items.
Definition executable_member (m : list string * object) : option string :=
  match m.2 with
  | IsFile _ mode => if executable mode then Some (join "/" m.1) else None
  | _ => None
  end.
(** A directory that the members need: one of them, or above one of them. *)
Definition needed_dir (ms : list (list string * object)) (q : list string) : Prop :=
  q = [] ∨ ∃ p o, (p, o) ∈ ms ∧ q `prefix_of` p ∧ (q = p → o = IsDir).
(** The tree holds the files of the members, the directories they need and nothing else. *)
Definition holds (ms : list (list string * object)) (n : node) : Prop :=
  ∀ q,
    (∀ content mode, entry_at n q = Some (IsFile content mode) ↔
       ∃ archived, (q, IsFile content archived) ∈ ms ∧ mode = portable_mode archived) ∧
    (entry_at n q = Some IsDir ↔ needed_dir ms q) ∧
    entry_at n q ≠ Some IsLink ∧ entry_at n q ≠ Some IsSpecial.

Lemma holds_none ms n q : holds ms n → entry_at n q = None →
  ¬ needed_dir ms q ∧ ∀ content archived, (q, IsFile content archived) ∉ ms.
Proof.
  intros Hh Hn. destruct (Hh q) as (Hf&Hd&_). split.
  - intros H%Hd. congruence.
  - intros content archived Hin. assert (entry_at n q = Some (IsFile content (portable_mode archived))) by
      (apply Hf; eauto). congruence.
Qed.
Lemma needed_dir_snoc ms p o q :
  needed_dir (ms ++ [(p, o)]) q ↔ needed_dir ms q ∨ (q `prefix_of` p ∧ (q = p → o = IsDir)).
Proof.
  unfold needed_dir. setoid_rewrite elem_of_app. setoid_rewrite list_elem_of_singleton. naive_solver.
Qed.
Lemma holds_dir ms path n n' :
  holds ms n → create_dir_all path n = Ok n' → holds (ms ++ [(path, IsDir)]) n'.
Proof.
  intros Hh [Hbefore Hafter]%create_dir_all_Ok q. rewrite needed_dir_snoc, Hafter.
  destruct (Hh q) as (Hf&Hd&Hl&Hs). setoid_rewrite elem_of_app. setoid_rewrite list_elem_of_singleton.
  case_decide as Hq.
  - split_and!; [|naive_solver|done..]. intros content mode. split; [done|].
    intros (archived&[Hin|?]&->); [|done]. exfalso.
    assert (entry_at n q = Some (IsFile content (portable_mode archived))) by (apply Hf; eauto). destruct (Hbefore q Hq); congruence.
  - split_and!; [|naive_solver|done..]. intros content mode. rewrite Hf. naive_solver.
Qed.
Lemma removelast_prefix {A} (q p : list A) : p ≠ [] → q `prefix_of` removelast p ↔ q `prefix_of` p ∧ q ≠ p.
Proof.
  destruct p as [|x p _] using rev_ind; [done|]. intros _. rewrite removelast_last. split.
  - intros H. split; [by apply prefix_app_r|]. intros ->. apply prefix_length in H. rewrite length_app in H. cbn in H. lia.
  - intros [H Hne]. destruct H as [k Hk]. destruct k as [|y k _] using rev_ind.
    + rewrite app_nil_r in Hk. congruence.
    + rewrite app_assoc in Hk. apply app_inj_tail in Hk as [-> _]. by exists k.
Qed.
Lemma holds_file ms path content archived n n1 n2 :
  holds ms n → create_dir_all (removelast path) n = Ok n1 →
  create_new path (FileNode content (portable_mode archived)) n1 = Ok n2 →
  holds (ms ++ [(path, IsFile content archived)]) n2 ∧ ¬ needed_dir ms path ∧ ∀ c m, (path, IsFile c m) ∉ ms.
Proof.
  intros Hh [Hbefore Hdirs]%create_dir_all_Ok (Hne&Hnone&Hafter)%create_new_Ok.
  rewrite Hdirs in Hnone. case_decide as Hpath; [done|].
  destruct (holds_none _ _ _ Hh Hnone) as [Hnd Hnf]. split; [|done].
  intros q. rewrite needed_dir_snoc, Hafter. setoid_rewrite elem_of_app. setoid_rewrite list_elem_of_singleton.
  destruct (Hh q) as (Hf&Hd&Hl&Hs). destruct (decide (q = path)) as [->|Hq].
  - split_and!; [|split; [done|]; naive_solver|done..]. intros c m. split.
    + intros [= <- <-]. exists archived. split; [by right|done].
    + intros (a&[Hin|[= -> ->]]&->); [by apply Hnf in Hin|done].
  - rewrite Hdirs. case_decide as Hp.
    + apply removelast_prefix in Hp as Hp'; [|done]. split_and!; [|naive_solver|done..]. intros c m. split; [done|].
      intros (a&[Hin|?]&->); [|naive_solver]. assert (entry_at n q = Some (IsFile c (portable_mode a))) by (apply Hf; eauto).
      destruct (Hbefore q Hp); congruence.
    + rewrite removelast_prefix in Hp by done. split_and!; [|naive_solver|done..]. intros c m. rewrite Hf. naive_solver.
Qed.

(** ** The extraction pass *)
Lemma split_normalized raw p : normalized_path raw = Ok p → plain_parts (split "/" p) ∧ join "/" (split "/" p) = p.
Proof. intros H. destruct (normalized_parts _ _ H). by split. Qed.
(** The executable members: their paths have no line break. *)
Definition listed_paths (ms : list (list string * object)) : list string := omap executable_member ms.
Definition breakless (paths : list string) : Prop := Forall (λ p, str_existsb line_break p = false) paths.

(** What one extracted entry does to the tree and the list of executables. *)
Definition extracts (m : list string * object) (u u' : unpacked) : Prop :=
  plain_parts m.1 ∧ m.1 ≠ [EXECUTABLE_MANIFEST] ∧
  breakless (listed_paths [m]) ∧ up_executables u' = up_executables u ++ listed_paths [m] ∧
  match m.2 with
  | IsDir => create_dir_all m.1 (up_tree u) = Ok (up_tree u')
  | IsFile content mode => ∃ tree, create_dir_all (removelast m.1) (up_tree u) = Ok tree ∧
      create_new m.1 (FileNode content (portable_mode mode)) tree = Ok (up_tree u')
  | _ => False
  end.
Lemma extract_entry_Ok u e u' :
  extract_entry u e = Ok u' →
  match member_of e with Some m => extracts m u u' | None => git_commit_comment e = Ok true ∧ u' = u end.
Proof.
  unfold extract_entry, member_of. intros (comment&Hc&H)%bind_Ok. rewrite Hc. destruct comment; [by simplify_eq|].
  apply bind_Ok in H as (raw&Hraw%map_err_Ok&H). apply bind_Ok in H as (p&Hp%map_err_Ok&H).
  destruct (str_eqb p EXECUTABLE_MANIFEST) eqn:Er; [done|]. apply bind_Ok in H as (mode&Hm%map_err_Ok&H).
  rewrite Hraw. cbn [to_ok mbind option_bind]. rewrite Hp, Hm. cbn [to_ok mbind option_bind].
  destruct (split_normalized _ _ Hp) as [Hplain Hj].
  assert (split "/" p ≠ [EXECUTABLE_MANIFEST]) as Hreserved.
  { intros E. rewrite E in Hj. cbn [join] in Hj. by rewrite <-Hj, str_eqb_refl in Er. }
  destruct (executable mode && str_existsb line_break p) eqn:Eb; [done|].
  destruct (te_kind e); try done.
  - unfold extract_file in H. apply bind_Ok in H as (t&Ht%map_err_Ok&H). apply bind_Ok in H as (t0&_&H).
    apply bind_Ok in H as (content&Hcontent%map_err_Ok&H). apply bind_Ok in H as (t1&Ht1%map_err_Ok&[= <-]).
    rewrite Hcontent. cbn [to_ok mbind option_bind]. unfold extracts, breakless, listed_paths. cbn. rewrite Hj.
    split_and!; [apply Hplain..|done| | |by exists t].
    + destruct (executable mode); cbn; repeat constructor. by cbn in Eb.
    + destruct (executable mode); [done|by rewrite app_nil_r].
  - apply bind_Ok in H as (t&Ht%map_err_Ok&[= <-]). unfold extracts, breakless, listed_paths. cbn. rewrite app_nil_r.
    split_and!; [apply Hplain..|done|constructor|done|done].
Qed.

Record extracted (items : list tar_item) (u : unpacked) : Prop := {
  ex_tree : tree_of plain_part (up_tree u);
  ex_holds : holds (members items) (up_tree u);
  ex_plain : Forall (λ m, plain_parts m.1 ∧ m.1 ≠ [EXECUTABLE_MANIFEST]) (members items);
  ex_executables : up_executables u = listed_paths (members items);
  ex_breakless : breakless (listed_paths (members items));
  ex_distinct : NoDup (listed_paths (members items));
}.
Lemma extracted_nil : extracted [] (mk_unpacked (DirNode []) []).
Proof.
  split; try (by constructor); cbn.
  - constructor; [constructor..|]. by intros ? ? ?%not_elem_of_nil.
  - intros q. rewrite entry_at_empty. unfold needed_dir. split_and!; [| |by case_decide..].
    + intros c m. case_decide; (split; [done|]); by intros (?&?%not_elem_of_nil&_).
    + case_decide; (split; [naive_solver|]); [done|]. intros [|(?&?&?%not_elem_of_nil&_)]; done.
Qed.
Lemma extracted_snoc items item e u u' :
  extracted items u → item_entry item = Ok e → extract_entry u e = Ok u' → extracted (items ++ [item]) u'.
Proof.
  intros [Ht Hh Hp Hx Hb Hf] He H%extract_entry_Ok.
  assert (members (items ++ [item]) = members items ++ option_list (member_of e)) as Hms.
  { unfold members. rewrite omap_app. cbn. rewrite He. cbn. by destruct (member_of e). }
  destruct (member_of e) as [[path o]|]; cbn in Hms.
  2: { rewrite app_nil_r in Hms. destruct H as [_ ->]. split; by rewrite ?Hms. }
  destruct H as (Hplain&Hres&Hbreak&Hexec&Heffect). cbn [fst snd] in *.
  split; rewrite ?Hms; unfold listed_paths in *; rewrite ?omap_app.
  - destruct o as [content mode| | |]; [|by eapply create_dir_all_tree; [apply Hplain| |]|done..].
    destruct Heffect as (t&Ht1&Ht2). eapply create_new_tree; [apply Hplain| |done].
    eapply create_dir_all_tree; [|exact Ht|done]. destruct path as [|x path _] using rev_ind; [by destruct Hplain|].
    rewrite removelast_last. by destruct Hplain as [_ [? _]%Forall_app].
  - destruct o as [content mode| | |]; [|by eapply holds_dir|done..].
    destruct Heffect as (t&Ht1&Ht2). by eapply holds_file.
  - apply Forall_app. split; [done|]. apply Forall_singleton. by split.
  - rewrite Hexec, Hx. done.
  - apply Forall_app. by split.
  - apply NoDup_app. split_and!; [done| |].
    2: { cbn. unfold executable_member. destruct o; cbn; repeat case_match; (apply NoDup_nil || apply NoDup_singleton); done. }
    destruct o as [content mode| | |]; [| |done..]; cbn; [|by intros ? _ ?%not_elem_of_nil].
    destruct Heffect as (t&Ht1&Ht2). destruct (holds_file _ _ _ _ _ _ _ Hh Ht1 Ht2) as (_&_&Hnf).
    unfold executable_member. cbn [fst snd]. intros p ((q&o)&Hin&Hq)%list_elem_of_omap. unfold executable_member in Hq. cbn in Hq.
    destruct o as [c m| | |]; try done. destruct (executable m); [|done]. injection Hq as <-.
    destruct (executable mode); cbn; [|by intros ?%not_elem_of_nil]. intros Heq%list_elem_of_singleton.
    destruct (proj1 (Forall_forall _ _) Hp _ Hin) as [[Hne Hall] _]. destruct Hplain as [Hne' Hall'].
    apply (Hnf c m). rewrite <-(plain_split path Hne' Hall'), <-Heq. by rewrite plain_split.
Qed.

(** ** The validation pass *)
(** The entry that is checked for a tar entry; the comment of a commit is not an entry. *)
Definition checked_entry (item : tar_item) : option ArchiveEntry :=
  e ← to_ok (item_entry item);
  match git_commit_comment e with
  | Ok false => path ← to_ok (te_path e); Some (mk_entry path (kind_of (te_kind e)) (te_size e) None)
  | _ => None
  end.
Lemma validate_step_Ok p item p' :
  validate_step p item = Ok p' →
  match checked_entry item with
  | Some entry => push (pa_validator p) entry = Ok (pa_validator p')
  | None => pa_validator p' = pa_validator p
  end.
Proof.
  unfold validate_step, checked_entry, within. intros (e&He%map_err_Ok&H)%bind_Ok.
  destruct (_ <? _)%N; [done|]. rewrite He. cbn [to_ok mbind option_bind]. unfold validate_entry in H.
  apply bind_Ok in H as (comment&Hc&H). rewrite Hc. destruct comment.
  { destruct (pa_comment_seen p); [done|]. by injection H as <-. }
  apply bind_Ok in H as (path&Hpath%map_err_Ok&H). rewrite Hpath. cbn [to_ok mbind option_bind].
  apply bind_Ok in H as (target&Ht&H). apply bind_Ok in H as (v&Hv%map_err_Ok&H).
  destruct (kind_of (te_kind e)); simplify_eq/=; done.
Qed.
Lemma validate_steps_Ok items p p' :
  try_fold validate_step p items = Ok p' → try_fold push (pa_validator p) (omap checked_entry items) = Ok (pa_validator p').
Proof.
  revert p. induction items as [|item items IH]; intros p; cbn; [by intros [= <-]|].
  intros (p1&H1%validate_step_Ok&H)%bind_Ok. destruct (checked_entry item); cbn.
  - rewrite H1. by apply IH.
  - rewrite <-H1. by apply IH.
Qed.

(** ** [extract_to] *)
(** The tree of an extracted archive: its members and the manifest of its executables. *)
Definition unpacked_to (ms : list (list string * object)) (tree : node) : Prop :=
  ∀ q,
    (∀ content mode, entry_at tree q = Some (IsFile content mode) ↔
       (q = [EXECUTABLE_MANIFEST] ∧ content = manifest_text (sort (listed_paths ms)) ∧ mode = 420%N) ∨
       ∃ archived, (q, IsFile content archived) ∈ ms ∧ mode = portable_mode archived) ∧
    (entry_at tree q = Some IsDir ↔ needed_dir ms q) ∧
    entry_at tree q ≠ Some IsLink ∧ entry_at tree q ≠ Some IsSpecial.
Lemma plain_manifest : plain_part EXECUTABLE_MANIFEST.
Proof. by split_and!. Qed.
Section with_tar.
Context `{TarCrate}.
Lemma extract_entries_Ok bytes format u :
  extract_entries bytes format (DirNode []) = Ok u →
  ∃ items u0, tar_entries format bytes = Ok items ∧ extracted (listed items) u0 ∧
    u = mk_unpacked (up_tree u0) (sort (listed_paths (members (listed items)))).
Proof.
  intros (items&Hitems%map_err_Ok&(u0&Hu&[= <-])%bind_Ok)%bind_Ok. exists items, u0.
  assert (extracted (listed items) u0) as Hex.
  { revert Hu. apply (try_fold_prefix extracted); [|apply extracted_nil].
    intros pre item post u1 u2 _ H1 (e&He%map_err_Ok&H2)%bind_Ok. by eapply extracted_snoc. }
  split_and!; [done..|]. by rewrite (ex_executables _ _ Hex).
Qed.
Lemma extract_inner_Ok bytes format limits tree :
  extract_inner bytes format (DirNode []) limits = Ok tree →
  ∃ items u, tar_entries format bytes = Ok items ∧ extracted (listed items) u ∧
    validate_entries (omap checked_entry (listed items)) limits = Ok () ∧
    create_new [EXECUTABLE_MANIFEST]
      (FileNode (manifest_text (sort (listed_paths (members (listed items))))) 420) (up_tree u) = Ok tree.
Proof.
  intros ([]&_&([]&Hv&(u'&Hu&Hm%map_err_Ok)%bind_Ok)%bind_Ok)%bind_Ok.
  apply extract_entries_Ok in Hu as (items&u&Hitems&Hex&->). exists items, u. split_and!; [done..| |done].
  apply bind_Ok in Hv as (items'&Hitems'%map_err_Ok&Hv). replace items' with items in * by congruence.
  apply bind_Ok in Hv as (p&Hp&_). apply validate_steps_Ok in Hp. unfold validate_entries. cbn in Hp. by rewrite Hp.
Qed.
Lemma unpacked_manifest items u tree :
  extracted items u →
  create_new [EXECUTABLE_MANIFEST] (FileNode (manifest_text (sort (listed_paths (members items)))) 420) (up_tree u) = Ok tree →
  tree_of plain_part tree ∧ unpacked_to (members items) tree.
Proof.
  intros [Ht Hh _ _ _ _] Hm. split.
  - eapply create_new_tree; [|done..]. apply Forall_singleton, plain_manifest.
  - apply create_new_Ok in Hm as (_&Hnone&Hafter). intros q. rewrite Hafter. destruct (Hh q) as (Hf&Hd&Hl&Hs).
    case_decide as Hq; [|split_and!; [|done..]].
    + subst. apply (holds_none _ _ _ Hh) in Hnone as [Hnd Hnf]. split_and!; [|split; [done|naive_solver]|done..].
      intros c m. naive_solver.
    + intros c m. rewrite Hf. naive_solver.
Qed.
(** C18: extraction is all or nothing, as far as the staging directory can be removed again.
    When it fails, what was at the destination is there unchanged, and if nothing was there,
    nothing is, or what a removal that failed has left of the staging directory; the error is
    that of the processing either way.  When it succeeds, nothing was there, the logical
    entries of the archive are valid within the limits, and there is a tree of plain names
    that holds exactly: the files of the archive with their contents, each with mode 755 or
    644 by its executable bits; the directories of the archive and those above its members;
    and the sorted manifest of the executables. *)
Theorem extract_to_spec bytes format destination limits remains :
  match extract_to bytes format destination limits remains with
  | (after, Err e) =>
      (after = destination ∨ destination = None ∧ after = remains) ∧
      ∀ remains', (extract_to bytes format destination limits remains').2 = Err e
  | (after, Ok ()) =>
      destination = None ∧ ∃ items tree, tar_entries format bytes = Ok items ∧ after = Some tree ∧
        validate_entries (omap checked_entry (listed items)) (al_validation limits) = Ok () ∧
        tree_of plain_part tree ∧ unpacked_to (members (listed items)) tree
  end.
Proof.
  unfold extract_to. destruct (_ <? _)%N; [split; [by left|done]|].
  destruct (exists_at destination); [split; [by left|done]|]. destruct destination as [n|]; [split; [by left|done]|].
  destruct (extract_inner bytes format (DirNode []) (al_validation limits)) as [tree|e] eqn:E; [|split; [by right|done]].
  split; [done|]. apply extract_inner_Ok in E as (items&u&Hitems&Hex&Hv&Hm).
  exists items, tree. split_and!; [done..| |]; by eapply unpacked_manifest.
Qed.
End with_tar.

(** ** Archives that extract *)
(** An entry that the extraction pass handles. *)
Definition extractable (item : tar_item) : Prop :=
  ∃ e, item_entry item = Ok e ∧
    (git_commit_comment e = Ok true ∨
     ∃ m mode, member_of e = Some m ∧ m.1 ≠ [EXECUTABLE_MANIFEST] ∧ te_mode e = Ok mode ∧
       (executable mode = true → str_existsb line_break (join "/" m.1) = false)).
(** No member lies at or below a file, nor at or below the reserved name. *)
Definition compatible (ms : list (list string * object)) : Prop :=
  (∀ i j p content mode m, ms !! i = Some (p, IsFile content mode) → ms !! j = Some m → i ≠ j → ¬ p `prefix_of` m.1) ∧
  ∀ m, m ∈ ms → ¬ [EXECUTABLE_MANIFEST] `prefix_of` m.1.
Lemma create_dir_all_total path n :
  (∀ q, q `prefix_of` path → entry_at n q = None ∨ entry_at n q = Some IsDir) → ∃ n', create_dir_all path n = Ok n'.
Proof.
  revert n. induction path as [|name path IH]; intros n Hq.
  - destruct (Hq []) as [|H]; [done|done|]. rewrite entry_at_nil in H. destruct n; try done. by eexists.
  - destruct (Hq [] (prefix_nil _)) as [|H]; [done|]. rewrite entry_at_nil in H. destruct n as [|children| |]; try done.
    cbn. destruct (IH (default (DirNode []) (child name children))) as [c Hc]; [|rewrite Hc; by eexists].
    intros q Hp. specialize (Hq (name :: q) (prefix_cons _ _ _ Hp)). rewrite entry_at_cons in Hq.
    destruct (child name children); [done|]. cbn [default]. rewrite entry_at_empty. case_decide; auto.
Qed.
Lemma create_new_total path file n :
  path ≠ [] → entry_at n (removelast path) = Some IsDir → entry_at n path = None → ∃ n', create_new path file n = Ok n'.
Proof.
  revert n. induction path as [|name path IH]; intros n Hne Hparent Hnone; [done|].
  assert (∃ children, n = DirNode children) as [children ->].
  { destruct path as [|next path]; [destruct n; try done; by eexists|]. change (removelast (name :: next :: path)) with
      (name :: removelast (next :: path)) in Hparent. rewrite entry_at_cons in Hparent. destruct n; try done. by eexists. }
  rewrite entry_at_cons in Hnone. destruct path as [|next path].
  - cbn. destruct (child name children); [done|by eexists].
  - change (removelast (name :: next :: path)) with (name :: removelast (next :: path)) in Hparent.
    rewrite entry_at_cons in Hparent. cbn [create_new].
    destruct (child name children) as [c|]; [|done]. destruct (IH c) as [c' Hc]; [done..|].
    exists (DirNode (set_child name c' children)). change (create_new (next :: path) file c ≫= (λ c, Ok (DirNode (set_child name c children)))
      = Ok (DirNode (set_child name c' children))). by rewrite Hc.
Qed.
Lemma holds_path_free ms path o n q :
  holds ms n → compatible (ms ++ [(path, o)]) → q `prefix_of` path → entry_at n q = None ∨ entry_at n q = Some IsDir.
Proof.
  intros Hh [Hc _] Hq. destruct (Hh q) as (Hf&_&Hl&Hs). destruct (entry_at n q) as [[content mode| | |]|] eqn:E; try done; auto.
  destruct (proj1 (Hf content mode) eq_refl) as (a&[i Hi]%list_elem_of_lookup&_). exfalso.
  apply (Hc i (length ms) q content a (path, o)); [by apply lookup_app_l_Some| |apply lookup_lt_Some in Hi; lia|done].
  by rewrite lookup_app_r, Nat.sub_diag by done.
Qed.
Lemma holds_file_free ms path content mode n :
  path ≠ [] → holds ms n → compatible (ms ++ [(path, IsFile content mode)]) → entry_at n path = None.
Proof.
  intros Hne Hh Hc. destruct (holds_path_free _ _ _ _ path Hh Hc) as [|Hd]; [done|done|]. exfalso.
  apply (Hh path) in Hd as [?|(p&o&[i Hi]%list_elem_of_lookup&Hp&_)]; [done|].
  apply (proj1 Hc (length ms) i path content mode (p, o)); [by rewrite lookup_app_r, Nat.sub_diag by done| |apply lookup_lt_Some in Hi; lia|done].
  by apply lookup_app_l_Some.
Qed.
Lemma extract_step_total items item u :
  extracted items u → extractable item → compatible (members (items ++ [item])) → ∃ u', extract_step u item = Ok u'.
Proof.
  intros [Ht Hh Hp _ _ _] (e&He&Hm) Hcompat. unfold extract_step. rewrite He. cbn [map_err mbind result_bind].
  unfold extract_entry. destruct Hm as [Hc|(m&mode&Hm&Hr&Hmode&Hb)]; [rewrite Hc; by eexists|].
  assert (members (items ++ [item]) = members items ++ [m]) as Hms.
  { unfold members. rewrite omap_app. cbn. rewrite He. cbn. by rewrite Hm. }
  rewrite Hms in Hcompat. unfold member_of in Hm. destruct (git_commit_comment e) as [[]|]; try done. cbn [mbind result_bind].
  destruct (te_path e) as [raw|]; [|done]. cbn [to_ok map_err mbind option_bind result_bind] in *.
  destruct (normalized_path raw) as [p|] eqn:Hraw; [|done]. cbn [to_ok map_err mbind option_bind result_bind] in *.
  destruct (split_normalized _ _ Hraw) as [[Hne Hplain] Hj].
  rewrite Hmode in *. cbn [to_ok map_err mbind option_bind result_bind] in *.
  assert (m.1 = split "/" p) as Hm1 by (repeat case_match; simplify_eq/=; try done; destruct (te_content e); by simplify_eq/=).
  destruct (str_eqb p EXECUTABLE_MANIFEST) eqn:E; [apply str_eqb_true in E as ->; by rewrite Hm1 in Hr|].
  assert (executable mode && str_existsb line_break p = false) as ->.
  { rewrite Hm1, Hj in Hb. destruct (executable mode); [by apply Hb|done]. }
  destruct (te_kind e); try done.
  - destruct (te_content e) as [content|] eqn:Hcontent; [|done]. injection Hm as <-.
    unfold extract_file. destruct (create_dir_all_total (removelast (split "/" p)) (up_tree u)) as [t Ht1].
    { intros q [Hq _]%removelast_prefix; [|done]. by eapply holds_path_free. }
    rewrite Ht1. cbn [map_err mbind result_bind]. apply create_dir_all_Ok in Ht1 as [_ Hdirs].
    assert (∀ file, ∃ t', create_new (split "/" p) file t = Ok t') as Hnew.
    { intros file. apply create_new_total; [done| |].
      - by rewrite Hdirs, decide_True by done.
      - rewrite Hdirs, decide_False by (rewrite removelast_prefix by done; naive_solver). by eapply holds_file_free. }
    destruct (Hnew (FileNode "" 420)) as [t1 ->]. rewrite Hcontent. cbn [map_err mbind result_bind].
    destruct (Hnew (FileNode content (portable_mode mode))) as [t2 ->]. by eexists.
  - injection Hm as <-.
    destruct (create_dir_all_total (split "/" p) (up_tree u)) as [t ->]; [|by eexists].
    intros q Hq. by eapply holds_path_free.
Qed.
Lemma compatible_prefix ms ms' : compatible (ms ++ ms') → compatible ms.
Proof.
  intros [Hc Hr]. split.
  - intros i j p content mode m Hi Hj. apply (Hc i j p content mode m); by apply lookup_app_l_Some.
  - intros m Hm. apply Hr. apply elem_of_app. by left.
Qed.
Lemma extract_steps_total post pre u :
  extracted pre u → Forall extractable post → compatible (members (pre ++ post)) →
  ∃ u', try_fold extract_step u post = Ok u' ∧ extracted (pre ++ post) u'.
Proof.
  revert pre u. induction post as [|item post IH]; intros pre u Hu Hpost Hc.
  { exists u. by rewrite app_nil_r. }
  apply Forall_cons in Hpost as [Hitem Hpost]. rewrite cons_middle, app_assoc in Hc.
  assert (compatible (members (pre ++ [item]))) as Hc1 by (unfold members in *; rewrite omap_app in Hc; by eapply compatible_prefix).
  destruct (extract_step_total pre item u Hu Hitem Hc1) as [u1 Hu1].
  destruct (IH (pre ++ [item]) u1) as (u'&Hu'&Hex); [|done|done|].
  { pose proof Hu1 as (e&He%map_err_Ok&H)%bind_Ok. by eapply extracted_snoc. }
  exists u'. cbn [try_fold]. rewrite Hu1. cbn [mbind result_bind]. rewrite Hu'. by rewrite cons_middle, app_assoc.
Qed.
Section progress.
Context `{TarCrate}.
(** An archive within the size limit that passes the metadata and the validation
    passes is extracted, provided that its entries can be read, that no member lies at or
    below a file of the archive or the reserved manifest name, and that no path of an
    entry with executable bits has a line break. *)
Theorem extract_to_succeeds bytes format limits items :
  (N.of_nat (String.length bytes) <= al_max_archive_bytes limits)%N →
  validate_initial_metadata bytes format (al_validation limits) = Ok () →
  validate_archive bytes format (al_validation limits) = Ok () →
  tar_entries format bytes = Ok items → Forall extractable (listed items) → compatible (members (listed items)) →
  ∃ tree, extract_to bytes format None limits None = (Some tree, Ok ()).
Proof.
  intros Hsize Hmeta Hvalid Hitems Hall Hc. unfold extract_to. rewrite (proj2 (N.ltb_ge _ _)) by done. cbn [exists_at].
  destruct (extract_steps_total (listed items) [] (mk_unpacked (DirNode []) []) extracted_nil Hall Hc) as (u&Hu&Hex).
  cbn [app] in Hex. assert (∃ tree, extract_inner bytes format (DirNode []) (al_validation limits) = Ok tree) as [tree ->];
    [|by exists tree].
  unfold extract_inner. rewrite Hmeta, Hvalid. cbn [mbind result_bind]. unfold extract_entries. rewrite Hitems.
  cbn [map_err mbind result_bind]. rewrite Hu. cbn [mbind result_bind]. unfold write_executable_manifest.
  destruct Hex as [Ht Hh Hp _ _ _]. cbn [up_tree].
  destruct (create_new_total [EXECUTABLE_MANIFEST] (FileNode (manifest_text (up_executables
    (mk_unpacked (up_tree u) (sort (up_executables u))))) 420) (up_tree u)) as [tree ->]; [done| | |by eexists].
  - apply (Hh []). by left.
  - destruct (Hh [EXECUTABLE_MANIFEST]) as (Hf&Hd&Hl&Hs). destruct Hc as [_ Hc].
    destruct (entry_at (up_tree u) [EXECUTABLE_MANIFEST]) as [[content mode| | |]|] eqn:E; try done; exfalso.
    + destruct (proj1 (Hf content mode) eq_refl) as (a&Hin&_). by apply (Hc _ Hin).
    + destruct (proj1 Hd eq_refl) as [|(p&o&Hin&Hpre&_)]; [done|]. by apply (Hc _ Hin).
Qed.

(** ** The bytes that the validation pass reads *)
(** A step that fails has read no more than its budget. *)
Fixpoint bytes_read (p : pass) (items : list tar_item) (last : N) : N :=
  match items with
  | [] => N.min last (step_budget p)
  | item :: items =>
      N.min (item_cost item) (step_budget p) +
      match validate_step p item with Ok p => bytes_read p items last | Err _ => 0 end
  end.
Definition steps_left (p : pass) (limits : ValidationLimits) : N :=
  max_entries limits - va_count (pa_validator p) + (if pa_comment_seen p then 0 else 1) + 1.
Lemma validate_step_budget p item p' limits :
  validate_step p item = Ok p' → va_limits (pa_validator p) = limits →
  va_limits (pa_validator p') = limits ∧ (steps_left p' limits + 1 <= steps_left p limits)%N ∧
  ∃ added, (va_total (pa_validator p') = va_total (pa_validator p) + added ∧
    pa_previous p' = added ∧ (0 < added → va_total (pa_validator p') <= max_total_size limits))%N.
Proof.
  unfold validate_step, within, steps_left. intros (e&He&Hstep)%bind_Ok <-. unfold validate_entry in Hstep.
  apply bind_Ok in Hstep as (comment&Hc&Hstep). destruct comment.
  { destruct (pa_comment_seen p); [done|]. injection Hstep as <-. cbn. split_and!; [done|lia|]. exists 0%N. lia. }
  apply bind_Ok in Hstep as (path&Hpath&Hstep). apply bind_Ok in Hstep as (target&Ht&Hstep). apply bind_Ok in Hstep as (v&Hv%map_err_Ok&Hstep).
  apply push_Ok in Hv as (name&total&Hcount&(_&_&Hkind)&_&_&->&Htotal&->). unfold kind_ok, payload in *. cbn in *.
  destruct (kind_of (te_kind e)); try done; injection Hstep as <-; cbn; (split_and!; [done|lia|]).
  - exists (te_size e). split_and!; [done..|]. specialize (Htotal eq_refl). lia.
  - exists 0%N. rewrite Hkind. lia.
Qed.
Lemma bytes_read_bound items p last limits :
  va_limits (pa_validator p) = limits → (va_total (pa_validator p) <= max_total_size limits)%N →
  (bytes_read p items last <=
    pa_previous p + (max_total_size limits - va_total (pa_validator p)) + steps_left p limits * PARSER_METADATA_LIMIT)%N.
Proof.
  assert (∀ p, PARSER_METADATA_LIMIT <= steps_left p limits * PARSER_METADATA_LIMIT)%N as Hone.
  { intros q. rewrite <-(N.mul_1_l PARSER_METADATA_LIMIT) at 1. apply N.mul_le_mono_r. unfold steps_left. lia. }
  revert p. induction items as [|item items IH]; intros p Hl Ht; cbn [bytes_read]; specialize (Hone p).
  { unfold step_budget. lia. }
  destruct (validate_step p item) as [p'|e] eqn:E; [|unfold step_budget; lia].
  destruct (validate_step_budget _ _ _ _ E Hl) as (Hl'&Hsteps&added&Htotal&Hprev&Hmax).
  assert (va_total (pa_validator p') <= max_total_size limits)%N as Ht'.
  { destruct (N.eq_dec added 0%N) as [->|]; [|apply Hmax; lia]. lia. }
  specialize (IH p' Hl' Ht'). unfold step_budget.
  pose proof (N.mul_le_mono_r _ _ PARSER_METADATA_LIMIT Hsteps) as Hk. rewrite N.mul_add_distr_r, N.mul_1_l in Hk. lia.
Qed.
(** C25: whatever the archive, and whether or not it is accepted, the validation pass reads at
    most the limit of the total size and 64 KiB for each admissible entry and two more
    steps (the comment of a commit and the end of the archive) from the decompressed
    archive. *)
Theorem validation_reads_bounded bytes format limits items :
  tar_entries format bytes = Ok items →
  (bytes_read (mk_pass (EntryValidator_new limits) false 0) (listed items) (end_cost items) <=
    max_total_size limits + (max_entries limits + 2) * PARSER_METADATA_LIMIT)%N ∧
  (validate_archive bytes format limits = Ok () →
   bytes_read (mk_pass (EntryValidator_new limits) false 0) (listed items) (end_cost items) =
     foldr N.add (end_cost items) (item_cost <$> listed items))%N.
Proof.
  intros Hitems. split.
  - pose proof (bytes_read_bound (listed items) (mk_pass (EntryValidator_new limits) false 0) (end_cost items) limits) as Hb.
    cbn in Hb. unfold steps_left in Hb. cbn in Hb. specialize (Hb eq_refl ltac:(lia)). lia.
  - unfold validate_archive. rewrite Hitems. cbn [map_err mbind result_bind]. intros (p&Hp&Hend%map_err_Ok)%bind_Ok. revert Hp.
    generalize (mk_pass (EntryValidator_new limits) false 0). induction (listed items) as [|item l IH]; intros p0; cbn [try_fold bytes_read].
    + intros [= ->]. cbn. unfold within in Hend. destruct (N.ltb_spec (step_budget p) (end_cost items)); [done|lia].
    + intros (p1&Hp1&Hp)%bind_Ok. rewrite Hp1. rewrite IH by done. cbn.
      apply bind_Ok in Hp1 as (e&He%map_err_Ok&_). unfold within in He.
      destruct (N.ltb_spec (step_budget p0) (item_cost item)); [done|]. lia.
Qed.
End progress.

(** ** A sample archive *)
Definition sample_entry (kind : TarKind) (path : string) (mode : N) (content : string) : TarEntry :=
  mk_tar_entry kind (Ok path) (Ok None) (N.of_nat (String.length content)) (Ok (N.of_nat (String.length content)))
    (Ok mode) (Ok None) (Ok content).
Definition sample_commit : TarEntry :=
  mk_tar_entry TarPaxGlobal (Ok "pax_global_header") (Ok None) 52 (Ok 52%N) (Ok 420%N)
    (Ok (Some [Ok ("comment", "0123456789abcdef0123456789abcdef01234567")])) (Ok "").
Definition sample_items : tar_items :=
  mk_items
    [mk_item 1024 (Ok sample_commit); mk_item 512 (Ok (sample_entry TarDirectory "package/" 493 ""));
     mk_item 512 (Ok (sample_entry TarFile "package/bin/cli.js" 493 "run"));
     mk_item 1024 (Ok (sample_entry TarFile "./package\readme" 420 "text"))] 1536.
#[export] Instance sample_tar : TarCrate := {|
  tar_entries _ _ := Ok sample_items;
  tar_raw_entries _ _ _ := Ok [Ok (TarPaxGlobal, 52%N); Ok (TarDirectory, 0%N)];
|}.
Definition sample_tree : node :=
  match (extract_to "archive" TarGz None ArchiveLimits_default None).1 with Some tree => tree | None => SpecialNode end.
Lemma sample_validated : validate_archive "archive" TarGz ValidationLimits_default = Ok ().
Proof. vm_compute. reflexivity. Qed.
Lemma extract_to_succeeds_witness :
  ∃ tree, extract_to "archive" TarGz None ArchiveLimits_default None = (Some tree, Ok ()).
Proof.
  apply (extract_to_succeeds "archive" TarGz ArchiveLimits_default sample_items).
  - vm_compute. discriminate.
  - vm_compute. reflexivity.
  - exact sample_validated.
  - reflexivity.
  - unfold sample_items. cbn [listed]. forall_list; eexists; (split; [reflexivity|]).
    + left. vm_compute. reflexivity.
    + right. eexists _, _. split; [vm_compute; reflexivity|]. split; [discriminate|]. split; [reflexivity|reflexivity].
    + right. eexists _, _. split; [vm_compute; reflexivity|]. split; [discriminate|]. split; [reflexivity|reflexivity].
    + right. eexists _, _. split; [vm_compute; reflexivity|]. split; [discriminate|]. split; [reflexivity|discriminate].
  - assert (members (listed sample_items) = [(["package"], IsDir); (["package"; "bin"; "cli.js"], IsFile "run" 493);
      (["package"; "readme"], IsFile "text" 420)]) as -> by (vm_compute; reflexivity). split.
    + intros i j p content mode m Hi Hj Hij [k Hk].
      do 3 (destruct i as [|i]; [do 3 (destruct j as [|j]; [cbn in Hi, Hj; simplify_eq/=|]); cbn in Hj; discriminate|]).
      cbn in Hi. discriminate.
    + intros m Hm [k Hk]. repeat (apply elem_of_cons in Hm as [->|Hm]; [cbn in Hk; discriminate|]). by apply not_elem_of_nil in Hm.
Defined.
Lemma validation_reads_bounded_witness :
  (bytes_read (mk_pass (EntryValidator_new ValidationLimits_default) false 0) (listed sample_items) 1536 <=
    max_total_size ValidationLimits_default + (max_entries ValidationLimits_default + 2) * PARSER_METADATA_LIMIT)%N.
Proof.
  exact (proj1 (validation_reads_bounded "archive" TarGz ValidationLimits_default sample_items eq_refl)).
Defined.
(** An archive whose executable has a drive prefix once normalised is extracted, but its
    manifest cannot be read back, so that its tree has no digest. *)
Example drive_prefix_unreadable :
  let tree := DirNode [("C:", DirNode [("x", FileNode "run" 493)]); (EXECUTABLE_MANIFEST, FileNode (manifest_text ["C:/x"]) 420)] in
  extract_entry (mk_unpacked (DirNode []) []) (sample_entry TarFile "./C:/x" 493 "run") =
    Ok (mk_unpacked (DirNode [("C:", DirNode [("x", FileNode "run" 493)])]) ["C:/x"]) ∧
  read_executable_manifest tree = Err (InvalidData "invalid executable path").
Proof. split; vm_compute; reflexivity. Qed.
(** What an archive puts at the reserved name of the store is not hashed. *)
Example marker_not_hashed content :
  let tree content := DirNode [(".tapid-tree", FileNode content 420); (EXECUTABLE_MANIFEST, FileNode "" 420)] in
  extract_entry (mk_unpacked (DirNode []) []) (sample_entry TarFile ".tapid-tree" 420 content) =
    Ok (mk_unpacked (DirNode [(".tapid-tree", FileNode content 420)]) []) ∧
  tree_files (tree content) None = Ok [(EXECUTABLE_MANIFEST, 3%N, Bytes "")].
Proof. split; vm_compute; reflexivity. Qed.
