(* ===== verification/ArchiveDigest.v ===== *)
(** * What the digest of a tree covers

    A file is hashed whole or not at all; the framing of the hashed items is injective;
    the items are exactly the entries of the tree outside the reserved names, in an order
    of their own, so that the digest does not depend on the order of directories or
    archives; and the trees that extraction leaves and [validate_tree] accepts have one. *)
From S2P Require Import Prelude Order RustStr Crates Archive ArchiveTree ArchiveInv ArchiveTreeInv.

(** ** Reading a file *)
Lemma take_drop_string n s :
  (n <= String.length s)%nat →
  String.substring 0 n s +:+ str_drop n s = s ∧ String.length (String.substring 0 n s) = n ∧
  String.length (str_drop n s) = (String.length s - n)%nat.
Proof.
  revert s. induction n as [|n IH]; intros s Hn.
  { destruct s; cbn; split_and!; [done..|lia| | |]; done. }
  destruct s as [|a s]; cbn in Hn; [lia|]. destruct (IH s) as (H1&H2&H3); [lia|].
  cbn [String.substring str_drop String.length]. rewrite app_cons, H1, H2, H3. split_and!; [done|lia..].
Qed.
Definition chunks_text (chunks : list string) : string := String.concat "" chunks.
Lemma concat_cons x l : String.concat "" (x :: l) = x +:+ String.concat "" l.
Proof. destruct l; cbn; [by rewrite app_nil_r'|done]. Qed.
Lemma concat_nonempty_nil chunks : Forall (λ c, c ≠ "") chunks → chunks_text chunks = "" → chunks = [].
Proof.
  destruct 1 as [|c chunks Hc _]; [done|]. unfold chunks_text. rewrite concat_cons. by destruct c.
Qed.
Lemma read_chunk_spec limit chunks :
  (1 <= limit)%nat → Forall (λ c, c ≠ "") chunks →
  ∃ chunk rest, read_chunk limit (Ok <$> chunks) = Ok (chunk, Ok <$> rest) ∧
    chunks_text chunks = chunk +:+ chunks_text rest ∧ Forall (λ c, c ≠ "") rest ∧
    (String.length chunk <= limit)%nat ∧ (chunk = "" → chunks = []).
Proof.
  intros Hl Hc. destruct Hc as [|c chunks Hc Hchunks].
  { exists "", []. split_and!; try done. cbn. lia. }
  cbn [fmap list_fmap read_chunk]. unfold chunks_text. rewrite concat_cons.
  destruct (Nat.leb_spec (String.length c) limit) as [Hle|Hgt].
  - exists c, chunks. by split_and!.
  - destruct (take_drop_string limit c) as (H1&H2&H3); [lia|].
    exists (String.substring 0 limit c), (str_drop limit c :: chunks). rewrite concat_cons, <-app_assoc', H1.
    split_and!; [done..| |lia|].
    + constructor; [|done]. intros E. rewrite E in H3. cbn in H3. lia.
    + intros E. rewrite E in H2. cbn in H2. lia.
Qed.
Lemma hash_loop_spec fuel remaining chunks :
  (N.to_nat remaining <= fuel)%nat → Forall (λ c, c ≠ "") chunks →
  if (remaining <=? N.of_nat (String.length (chunks_text chunks)))%N
  then ∃ hashed rest, hash_loop fuel remaining (Ok <$> chunks) = Ok (hashed, Ok <$> rest) ∧
    chunks_text chunks = hashed +:+ chunks_text rest ∧ N.of_nat (String.length hashed) = remaining ∧
    Forall (λ c, c ≠ "") rest
  else hash_loop fuel remaining (Ok <$> chunks) = Err (UnexpectedEof "tree file changed during hashing").
Proof.
  revert remaining chunks. induction fuel as [|fuel IH]; intros remaining chunks Hf Hc.
  { assert (remaining = 0%N) as -> by lia. cbn [N.leb hash_loop]. destruct (N.leb_spec 0 (N.of_nat (String.length (chunks_text chunks)))); [|lia].
    exists "", chunks. by split_and!. }
  cbn [hash_loop]. destruct (N.eqb_spec remaining 0) as [->|Hne].
  { destruct (N.leb_spec 0 (N.of_nat (String.length (chunks_text chunks)))); [|lia]. exists "", chunks. by split_and!. }
  destruct (read_chunk_spec (N.to_nat (N.min remaining 65536)) chunks) as (chunk&rest&Hr&Ht&Hrest&Hlen&Hempty); [lia|done|].
  rewrite Hr. cbn [mbind result_bind]. destruct (is_empty chunk) eqn:He.
  { apply is_empty_true in He as ->. rewrite (Hempty eq_refl). rewrite (proj2 (N.leb_gt _ _)); [done|]. cbn. lia. }
  assert (1 <= String.length chunk)%nat by (destruct chunk; [done|cbn; lia]).
  rewrite Ht, length_app'. specialize (IH (remaining - N.of_nat (String.length chunk))%N rest ltac:(lia) Hrest).
  destruct (N.leb_spec remaining (N.of_nat (String.length chunk + String.length (chunks_text rest)))) as [Hle|Hgt].
  - rewrite (proj2 (N.leb_le _ _)) in IH by lia. destruct IH as (hashed&rest'&->&Ht'&Hh&Hrest'). cbn [mbind result_bind].
    exists (chunk +:+ hashed), rest'. rewrite Ht', app_assoc', length_app'. split_and!; [done..|lia|done].
  - rewrite (proj2 (N.leb_gt _ _)) in IH by lia. by rewrite IH.
Qed.
(** A file is hashed whole or refused, however its reads are split: if the reads deliver
    exactly the recorded length, the hasher is fed all their bytes in order; a file that
    has become shorter or longer is an error. *)
Theorem hash_file_contents_spec chunks length :
  Forall (λ c, c ≠ "") chunks →
  hash_file_contents (Ok <$> chunks) length =
    match (N.of_nat (String.length (chunks_text chunks)) ?= length)%N with
    | Eq => Ok (chunks_text chunks)
    | Lt => Err (UnexpectedEof "tree file changed during hashing")
    | Gt => Err (InvalidData "tree file grew during hashing")
    end.
Proof.
  intros Hc. unfold hash_file_contents. pose proof (hash_loop_spec (N.to_nat length) length chunks ltac:(lia) Hc) as Hl.
  destruct (N.leb_spec length (N.of_nat (String.length (chunks_text chunks)))) as [Hle|Hgt].
  - destruct Hl as (hashed&rest&->&Ht&Hlen&Hrest). cbn [mbind result_bind].
    destruct (read_chunk_spec 1 rest) as (extra&rest'&->&Ht'&_&_&Hextra); [lia|done|]. cbn [mbind result_bind].
    rewrite Ht, length_app'. destruct (is_empty extra) eqn:He.
    + apply is_empty_true in He as ->. rewrite (Hextra eq_refl). cbn [chunks_text String.concat String.length].
      rewrite Nat.add_0_r, Hlen, N.compare_refl. by rewrite app_nil_r'.
    + assert (1 <= String.length extra)%nat by (destruct extra; [done|cbn; lia]).
      rewrite Ht', length_app'. by rewrite (proj2 (N.compare_gt_iff _ _)) by lia.
  - rewrite Hl. cbn [mbind result_bind]. by rewrite (proj2 (N.compare_lt_iff _ _)) by lia.
Qed.
Lemma hash_file_contents_spec_witness :
  hash_file_contents (Ok <$> ["ab"; "c"]) 3 = Ok "abc".
Proof. apply (hash_file_contents_spec ["ab"; "c"] 3). forall_list; discriminate. Defined.

(** ** Framing *)
Definition payload_text (p : TreePayload) : string := match p with Bytes s | File s => s end.
Definition frame_text (f : tree_file) : string :=
  be_length f.1.1 +:+ f.1.1 +:+ String (ascii_of_N f.1.2) "" +:+ be_length (payload_text f.2) +:+ payload_text f.2.
Lemma hash_whole content : hash_file_contents [Ok content] (N.of_nat (String.length content)) = Ok content.
Proof.
  destruct content as [|a s] eqn:E; [done|]. rewrite <-E.
  assert (Forall (λ c, c ≠ "") [content]) as Hc by (repeat constructor; by subst).
  unfold hash_file_contents. pose proof (hash_loop_spec (N.to_nat (N.of_nat (String.length content))) (N.of_nat (String.length content))
    [content] ltac:(lia) Hc) as Hl.
  cbn [chunks_text String.concat fmap list_fmap] in Hl. rewrite N.leb_refl in Hl. destruct Hl as (hashed&rest&->&Ht&Hlen&Hrest).
  cbn [mbind result_bind].
  assert (rest = []) as ->.
  { apply concat_nonempty_nil; [done|]. apply (f_equal String.length) in Ht. rewrite length_app' in Ht.
    unfold chunks_text in *. destruct (String.concat "" rest); [done|]. cbn [String.length] in Ht. lia. }
  cbn. unfold chunks_text in Ht. cbn in Ht. by rewrite app_nil_r' in Ht; subst.
Qed.
Lemma frame_Ok f : frame f = Ok (frame_text f).
Proof.
  destruct f as [[path kind] [s|s]]; unfold frame, frame_text; cbn [fst snd payload_text].
  - by rewrite !app_assoc'.
  - rewrite hash_whole. cbn [mbind result_bind]. by rewrite !app_assoc'.
Qed.
Lemma frames_Ok files : try_map frame files = Ok (frame_text <$> files).
Proof. induction files as [|f files IH]; [done|]. cbn [try_map]. rewrite frame_Ok. cbn [mbind result_bind]. by rewrite IH. Qed.

Lemma length_to_be_bytes n : String.length (to_be_bytes n) = 8%nat.
Proof. done. Qed.
Lemma byte_of_mod n shift m : byte_of n shift = byte_of m shift → ((n / 2 ^ shift) mod 256 = (m / 2 ^ shift) mod 256)%N.
Proof.
  unfold byte_of. intros H%(f_equal N_of_ascii). change 255%N with (N.ones 8) in H. rewrite !N.land_ones in H.
  rewrite !N.shiftr_div_pow2 in H. change (2 ^ 8)%N with 256%N in H.
  by rewrite !Ascii.N_ascii_embedding in H by (apply N.mod_lt; lia).
Qed.
Lemma to_be_bytes_inj n m : (n < 2 ^ 64)%N → (m < 2 ^ 64)%N → to_be_bytes n = to_be_bytes m → n = m.
Proof.
  intros Hn Hm H. unfold to_be_bytes in H. cbn [fmap list_fmap String.string_of_list_ascii] in H.
  injection H as H7 H6 H5 H4 H3 H2 H1 H0. apply byte_of_mod in H0, H1, H2, H3, H4, H5, H6, H7.
  assert (∀ a k, a / 2 ^ (k + 8) = a / 2 ^ k / 256)%N as Hdiv.
  { intros a k. rewrite N.Div0.div_div, N.pow_add_r. done. }
  change 56%N with (48 + 8)%N in H7. change 48%N with (40 + 8)%N in H6, H7. change 40%N with (32 + 8)%N in H5, H6, H7.
  change 32%N with (24 + 8)%N in H4, H5, H6, H7. change 24%N with (16 + 8)%N in H3, H4, H5, H6, H7.
  change 16%N with (8 + 8)%N in H2, H3, H4, H5, H6, H7. change 8%N with (0 + 8)%N in H1, H2, H3, H4, H5, H6, H7.
  rewrite !Hdiv in *. change (2 ^ 0)%N with 1%N in *. rewrite !N.div_1_r in *.
  assert (∀ a b, a mod 256 = b mod 256 → a / 256 = b / 256 → a = b)%N as Hstep.
  { intros a b E1 E2. rewrite (N.div_mod a 256), (N.div_mod b 256) by lia. by rewrite E1, E2. }
  repeat (apply Hstep; [assumption|]).
  assert (∀ a, a < 2 ^ 64 → a / 256 / 256 / 256 / 256 / 256 / 256 / 256 / 256 = 0)%N as Hzero.
  { intros a Ha. rewrite !N.Div0.div_div. by apply N.div_small. }
  by rewrite !Hzero.
Qed.
Lemma String_inj a b x y : String a x = String b y → a = b ∧ x = y.
Proof. by intros [= -> ->]. Qed.
Definition framable (f : tree_file) : Prop :=
  (N.of_nat (String.length f.1.1) < 2 ^ 64)%N ∧ (f.1.2 < 256)%N ∧ (N.of_nat (String.length (payload_text f.2)) < 2 ^ 64)%N.
Lemma be_length_inj s t x y :
  (N.of_nat (String.length s) < 2 ^ 64)%N → (N.of_nat (String.length t) < 2 ^ 64)%N →
  be_length s +:+ s +:+ x = be_length t +:+ t +:+ y → s = t ∧ x = y.
Proof.
  intros Hs Ht [H1 H2]%app_inj_length; [|reflexivity]. apply app_inj_length; [|exact H2].
  apply Nat2N.inj. exact (to_be_bytes_inj _ _ Hs Ht H1).
Qed.
Lemma frame_text_inj f g x y :
  framable f → framable g → frame_text f +:+ x = frame_text g +:+ y →
  f.1 = g.1 ∧ payload_text f.2 = payload_text g.2 ∧ x = y.
Proof.
  intros (Hf1&Hf2&Hf3) (Hg1&Hg2&Hg3). unfold frame_text. rewrite !app_assoc'. intros [H1 H]%be_length_inj; [|assumption..].
  rewrite !app_cons, !app_nil_l' in H. apply String_inj in H as [H2 H]. apply be_length_inj in H as [H3 H4]; [|assumption..].
  split; [|split; assumption]. destruct f as [[p k] ?], g as [[q l] ?]. cbn in *. subst. f_equal.
  rewrite <-(Ascii.N_ascii_embedding k), <-(Ascii.N_ascii_embedding l) by assumption. by rewrite H2.
Qed.
Lemma frames_inj l k :
  Forall framable l → Forall framable k → String.concat "" (frame_text <$> l) = String.concat "" (frame_text <$> k) →
  (λ f, (f.1, payload_text f.2)) <$> l = (λ f, (f.1, payload_text f.2)) <$> k.
Proof.
  intros Hl. revert k. induction Hl as [|f l Hf Hl IH]; intros k Hk H.
  - destruct Hk as [|g k Hg Hk]; [done|]. exfalso. cbn [fmap list_fmap] in H. rewrite concat_cons in H.
    unfold frame_text in H. by rewrite !app_assoc' in H.
  - destruct Hk as [|g k Hg Hk].
    { exfalso. cbn [fmap list_fmap] in H. rewrite concat_cons in H. unfold frame_text in H. by rewrite !app_assoc' in H. }
    cbn [fmap list_fmap] in *. rewrite !concat_cons in H. apply frame_text_inj in H as (Hf1&Hf2&H); [|assumption..]. rewrite Hf1, Hf2.
    f_equal. by apply IH.
Qed.

(** What is hashed for a list of items. *)
Definition hashed_text (files : list tree_file) : string := String.concat "" (frame_text <$> files).

(** ** What is collected *)
Section collecting.
Context (eps : option (gset string)) (excluded : option string).
(** The item for what is at a path. *)
Definition item_of (rel : string) (o : object) : result io_error tree_file :=
  match o with
  | IsDir => Ok (rel, 1%N, Bytes "")
  | IsFile content mode => kind ← file_kind eps rel mode; Ok (rel, kind, File content)
  | IsLink => Err (InvalidData "symlink in extracted tree")
  | IsSpecial => Err (InvalidData "special file in extracted tree")
  end.
(** Neither the path, below [base], nor a directory above it is skipped. *)
Definition visible (base q : list string) : Prop :=
  ∀ q', q' ≠ [] → q' `prefix_of` q → skipped excluded (relative (base ++ q')) = false.
Definition collects (base : list string) (n : node) (f : tree_file) : Prop :=
  ∃ q o, q ≠ [] ∧ entry_at n q = Some o ∧ visible base q ∧ item_of (relative (base ++ q)) o = Ok f.
Lemma collect_tree_dir base children :
  collect_tree eps excluded base (DirNode children) =
    @concat _ <$> try_map (collect_entry eps excluded (collect_tree eps excluded) base) children.
Proof.
  cbn [collect_tree]. induction children as [|[name c] children IH]; [done|].
  cbn [try_map]. rewrite IH. destruct (collect_entry _ _ _ _ _) as [found|e]; [|done]. cbn [mbind result_bind].
  by destruct (try_map _ children).
Qed.
Lemma visible_cons base name q :
  visible base (name :: q) ↔ skipped excluded (relative (base ++ [name])) = false ∧ visible (base ++ [name]) q.
Proof.
  unfold visible. split.
  - intros H. split; [apply (H [name]); [done|by exists q]|]. intros q' Hne Hp. rewrite <-app_assoc.
    apply (H (name :: q')); [done|by apply prefix_cons].
  - intros [H1 H2] [|m q'] Hne Hp; [done|]. apply prefix_cons_inv_1 in Hp as Hm. apply prefix_cons_inv_2 in Hp. subst m.
    destruct q' as [|x q']; [done|]. specialize (H2 (x :: q') ltac:(done) Hp). by rewrite <-app_assoc in H2.
Qed.
Lemma collects_dir P base children f :
  tree_of P (DirNode children) →
  collects base (DirNode children) f ↔ ∃ name c, (name, c) ∈ children ∧
    skipped excluded (relative (base ++ [name])) = false ∧
    (item_of (relative (base ++ [name])) (object_of c) = Ok f ∨ collects (base ++ [name]) c f).
Proof.
  intros Ht. inversion Ht as [| | |? Hnd _ _]; subst. unfold collects. split.
  - intros ([|name q]&o&Hne&He&Hv&Hf); [done|]. rewrite entry_at_cons in He. apply visible_cons in Hv as [Hs Hv].
    destruct (child name children) as [c|] eqn:Hc; [|done]. cbn in He. apply child_Some in Hc.
    exists name, c. split_and!; [done..|]. destruct q as [|x q]; [left; rewrite entry_at_nil in He; by injection He as ->|].
    right. exists (x :: q), o. rewrite <-app_assoc. by split_and!.
  - intros (name&c&Hin&Hs&[Hf|(q&o&Hne&He&Hv&Hf)]).
    + exists [name], (object_of c). rewrite entry_at_cons, (child_elem _ _ _ Hnd Hin). split_and!; [done..| |done].
      apply visible_cons. split; [done|]. intros q' Hq' ?%prefix_nil_inv. done.
    + exists (name :: q), o. rewrite entry_at_cons, (child_elem _ _ _ Hnd Hin). rewrite <-app_assoc in Hf.
      split_and!; [done..| |done]. by apply visible_cons.
Qed.
Lemma collect_entry_Ok recur base name c found :
  collect_entry eps excluded recur base (name, c) = Ok found →
  if skipped excluded (relative (base ++ [name])) then found = []
  else ∃ f, item_of (relative (base ++ [name])) (object_of c) = Ok f ∧
    match c with
    | DirNode _ => ∃ below, recur (base ++ [name]) c = Ok below ∧ found = f :: below
    | _ => found = [f]
    end.
Proof.
  unfold collect_entry. cbn [fst snd]. destruct (skipped _ _); [by intros [= <-]|].
  destruct c as [content mode|children| |]; try done.
  - intros (kind&Hk&[= <-])%bind_Ok. eexists. split; [|done]. cbn. by rewrite Hk.
  - intros (below&Hb&[= <-])%bind_Ok. eexists. split; [done|]. by exists below.
Qed.
Lemma collects_leaf base c f : (∀ children, c ≠ DirNode children) → ¬ collects base c f.
Proof. intros Hc ([|name q]&o&Hne&He&_); [done|]. rewrite entry_at_cons in He. destruct c; try done. by eapply Hc. Qed.
(** The collected items are those of the visible entries. *)
Lemma collect_tree_elem P n : tree_of P n → ∀ base files,
  collect_tree eps excluded base n = Ok files → ∀ f, f ∈ files ↔ collects base n f.
Proof.
  intros Hn. pose proof Hn as Hwf. induction Hn as [| | |children Hnd HP Hch IH]; try done. intros base files H f.
  rewrite collect_tree_dir in H. apply fmap_Ok in H as (founds&Hfounds%try_map_Ok&->).
  rewrite (collects_dir _ _ _ _ Hwf), list_elem_of_In, in_concat. setoid_rewrite <-list_elem_of_In.
  assert (∀ name c found, (name, c) ∈ children → collect_entry eps excluded (collect_tree eps excluded) base (name, c) = Ok found →
    (f ∈ found ↔ skipped excluded (relative (base ++ [name])) = false ∧
      (item_of (relative (base ++ [name])) (object_of c) = Ok f ∨ collects (base ++ [name]) c f))) as Hone.
  { intros name c found Hin Hc%collect_entry_Ok. destruct (skipped _ _).
    { subst. split; [by intros ?%not_elem_of_nil|by intros []]. }
    destruct Hc as (g&Hg&Hc). rewrite Hg. destruct c as [content mode|grand| |].
    2: { destruct Hc as (below&Hb&->). rewrite elem_of_cons, (IH _ _ Hin (Hch _ _ Hin) _ _ Hb f). naive_solver. }
    all: subst; rewrite list_elem_of_singleton; split; [naive_solver|].
    all: intros [_ [[= ->]|Hbad]]; [done|]; by apply collects_leaf in Hbad. }
  split.
  - intros (found&Hfound&Hf). apply list_elem_of_lookup in Hfound as [i Hi].
    destruct (Forall2_lookup_r _ _ _ _ _ Hfounds Hi) as ([name c]&Hc&Hce). apply list_elem_of_lookup_2 in Hc.
    exists name, c. split; [done|]. by apply (Hone _ _ found).
  - intros (name&c&Hin&Hf). apply list_elem_of_lookup in Hin as [i Hi].
    destruct (Forall2_lookup_l _ _ _ _ _ Hfounds Hi) as (found&Hc&Hce).
    exists found. split; [by eapply list_elem_of_lookup_2|]. apply (Hone name c found); [by eapply list_elem_of_lookup_2|done|done].
Qed.
(** Collecting succeeds if every visible entry has an item. *)
Lemma collect_tree_total P n : tree_of P n → ∀ base,
  object_of n = IsDir →
  (∀ q o, q ≠ [] → entry_at n q = Some o → visible base q → is_ok (item_of (relative (base ++ q)) o) = true) →
  ∃ files, collect_tree eps excluded base n = Ok files.
Proof.
  intros Hn. pose proof Hn as Hwf. induction Hn as [| | |children Hnd HP Hch IH]; try done. intros base _ Hall.
  rewrite collect_tree_dir.
  assert (∀ l, (∀ name c, (name, c) ∈ l → (name, c) ∈ children) →
    ∃ founds, try_map (collect_entry eps excluded (collect_tree eps excluded) base) l = Ok founds) as Hmap.
  2: { destruct (Hmap children) as [founds ->]; [done|]. by eexists. }
  intros l. induction l as [|[name c] l IHl]; intros Hl; [by eexists|]. cbn [try_map].
  destruct IHl as [founds Hfounds]; [intros; apply Hl; by right|].
  assert ((name, c) ∈ children) as Hin by (apply Hl; by left).
  assert (∃ found, collect_entry eps excluded (collect_tree eps excluded) base (name, c) = Ok found) as [found ->].
  2: { rewrite Hfounds. by eexists. }
  unfold collect_entry. cbn [fst snd]. destruct (skipped _ _) eqn:Hs; [by eexists|].
  assert (∀ q, entry_at (DirNode children) (name :: q) = entry_at c q) as Hat.
  { intros q. by rewrite entry_at_cons, (child_elem _ _ _ Hnd Hin). }
  assert (is_ok (item_of (relative (base ++ [name])) (object_of c)) = true) as Hitem.
  { apply (Hall [name]); [done|by rewrite Hat|]. apply visible_cons. split; [done|]. by intros q' ? ?%prefix_nil_inv. }
  destruct c as [content mode|grand| |]; try done.
  - cbn in Hitem. destruct (file_kind _ _ _); [by eexists|done].
  - destruct (IH _ _ Hin (Hch _ _ Hin) (base ++ [name]) eq_refl) as [below ->]; [|by eexists].
    intros q o Hne He Hv. rewrite <-app_assoc. apply (Hall (name :: q)); [done|by rewrite Hat|]. by apply visible_cons.
Qed.
End collecting.
Lemma collect_tree_items P eps excluded n : tree_of P n → ∀ base files,
  collect_tree eps excluded base n = Ok files →
  ∀ q o, q ≠ [] → entry_at n q = Some o → visible excluded base q →
    is_ok (item_of eps (relative (base ++ q)) o) = true.
Proof.
  intros Hn. induction Hn as [| | |children Hnd HP Hch IH]; try done. intros base files H [|name q] o Hne He Hv; [done|].
  rewrite collect_tree_dir in H. apply fmap_Ok in H as (founds&Hfounds%try_map_Ok&->).
  rewrite entry_at_cons in He. destruct (child name children) as [c|] eqn:Hc; [|done]. cbn in He. apply child_Some in Hc.
  apply visible_cons in Hv as [Hs Hv]. pose proof Hc as [i Hi]%list_elem_of_lookup.
  destruct (Forall2_lookup_l _ _ _ _ _ Hfounds Hi) as (found&_&Hce%collect_entry_Ok). rewrite Hs in Hce.
  destruct Hce as (f&Hf&Hbelow). destruct q as [|x q].
  - rewrite entry_at_nil in He. injection He as <-. by rewrite Hf.
  - rewrite entry_at_cons in He. destruct c as [|grand| |]; try done. destruct Hbelow as (below&Hb&_).
    pose proof (IH _ _ Hc _ _ Hb (x :: q) o) as Hi'. rewrite <-app_assoc in Hi'. apply Hi'; [done| |done].
    by rewrite entry_at_cons.
Qed.

(** ** UTF-8 *)
Lemma utf8_chars_any s : utf8_valid s = negb (chars_any (λ c, negb (0 <=? c)%Z) s).
Proof.
  rewrite chars_any_forallb, negb_involutive. unfold utf8_valid.
  induction (chars s) as [|c l IH]; [done|]. cbn [forallb]. by rewrite negb_involutive, IH.
Qed.
Lemma utf8_join c (l : list string) :
  byte_is_ascii c = true → utf8_valid (join (String c "") l) = true ↔ Forall (λ s, utf8_valid s = true) l.
Proof.
  intros Hc. rewrite utf8_chars_any, negb_true_iff, chars_any_join; [|done|].
  2: { destruct (code_range c). apply negb_false_iff. by apply Z.leb_le. }
  rewrite Forall_forall. setoid_rewrite utf8_chars_any. setoid_rewrite negb_true_iff. rewrite <-not_true_iff_false, existsb_exists. split.
  - intros H s Hs. apply not_true_iff_false. intros Ht. apply H. exists s. by rewrite <-list_elem_of_In.
  - intros H (s&Hs%list_elem_of_In&Ht). by rewrite (H s Hs) in Ht.
Qed.
(** The names that a digest tells apart: plain and well-formed UTF-8. *)
Definition plain_name (name : string) : Prop := plain_part name ∧ utf8_valid name = true.
Lemma plain_names_parts q : Forall plain_name q → Forall plain_part q.
Proof. intros Hq. eapply Forall_impl; [exact Hq|by intros ? []]. Qed.
Lemma tree_of_impl (P Q : string → Prop) n : (∀ name, P name → Q name) → tree_of P n → tree_of Q n.
Proof.
  intros HPQ Hn. induction Hn as [| | |children Hnd HP Hch IH]; constructor; [done| |done].
  eapply Forall_impl; [exact HP|done].
Qed.

(** ** Paths *)
Lemma node_at_plain P n q m : tree_of P n → node_at q n = Some m → Forall P q ∧ tree_of P m.
Proof.
  revert n. induction q as [|name q IH]; intros n Hn; cbn; [intros [= <-]; by split|].
  destruct n as [|children| |]; try done. destruct (child name children) as [c|] eqn:Hc; [|done]. cbn.
  inversion Hn as [| | |? Hnd HP Hch]; subst. apply child_Some in Hc. intros Hm.
  destruct (IH c) as [Hq Hm']; [by eapply Hch|done|]. split; [|done]. constructor; [|done].
  apply (proj1 (Forall_forall _ _) HP). by apply (list_elem_of_fmap_2 fst) in Hc.
Qed.
Lemma entry_at_plain P n q o : tree_of P n → entry_at n q = Some o → Forall P q.
Proof. unfold entry_at. intros Hn (m&Hm&_)%fmap_Some. by destruct (node_at_plain _ _ _ _ Hn Hm). Qed.
Lemma relative_plain q : Forall plain_name q → q ≠ [] → relative q = join "/" q.
Proof.
  intros Hq Hne. unfold relative. rewrite to_string_lossy_valid.
  - apply slashes_id. apply plain_join_facts. split; [done|by apply plain_names_parts].
  - apply (utf8_join "/"); [done|]. eapply Forall_impl; [exact Hq|by intros ? []].
Qed.
Lemma relative_inj q q' : Forall plain_name q → Forall plain_name q' → q ≠ [] → q' ≠ [] → relative q = relative q' → q = q'.
Proof.
  intros Hq Hq' Hne Hne'. rewrite !relative_plain by done. apply plain_names_parts in Hq, Hq'.
  intros H. rewrite <-(plain_split q) by done. by rewrite H, plain_split.
Qed.
Lemma item_of_path eps rel o f : item_of eps rel o = Ok f → f.1.1 = rel.
Proof.
  destruct o as [content mode| | |]; cbn; [|by intros [= <-]|done..]. by intros (kind&_&[= <-])%bind_Ok.
Qed.
Lemma collects_path eps excluded base n f :
  tree_of plain_name n → collects eps excluded base n f →
  ∃ q, q ≠ [] ∧ Forall plain_name q ∧ f.1.1 = relative (base ++ q).
Proof.
  intros Hn (q&o&Hne&He&_&Hf). exists q. split_and!; [done|by eapply entry_at_plain|by eapply item_of_path].
Qed.
Lemma collect_tree_distinct eps excluded n : tree_of plain_name n → ∀ base files,
  Forall plain_name base → collect_tree eps excluded base n = Ok files → NoDup files.*1.*1.
Proof.
  intros Hn. induction Hn as [| | |children Hnd HP Hch IH]; try done. intros base files Hbase H.
  rewrite collect_tree_dir in H. apply fmap_Ok in H as (founds&Hfounds%try_map_Ok&->).
  assert (∀ name c found f, (name, c) ∈ children → collect_entry eps excluded (collect_tree eps excluded) base (name, c) = Ok found →
    f ∈ found → ∃ q, Forall plain_name q ∧ f.1.1 = relative (base ++ name :: q)) as Hpath.
  { intros name c found f Hin Hc%collect_entry_Ok Hf. destruct (skipped _ _); [subst; by apply not_elem_of_nil in Hf|].
    destruct Hc as (g&Hg%item_of_path&Hc). assert (f = g ∨ ∃ below, collect_tree eps excluded (base ++ [name]) c = Ok below ∧ f ∈ below) as
      [->|(below&Hb&Hin')].
    { destruct c as [? ?|grand|?|]; [|destruct Hc as (below&?&->); apply elem_of_cons in Hf as [->|?]; [by left|right; eauto]|..].
      all: subst found; left; by apply list_elem_of_singleton in Hf. }
    - by exists [].
    - apply (collect_tree_elem _ _ _ _ (Hch _ _ Hin) _ _ Hb), collects_path in Hin' as (q&_&Hq&->); [|by eapply Hch].
      exists q. by rewrite <-app_assoc. }
  assert (∀ name c found, (name, c) ∈ children → collect_entry eps excluded (collect_tree eps excluded) base (name, c) = Ok found →
    NoDup found.*1.*1) as Hone.
  { intros name c found Hin Hc%collect_entry_Ok. destruct (skipped _ _); [subst; constructor|].
    assert (plain_name name) as Hname.
    { apply (proj1 (Forall_forall _ _) HP). by apply (list_elem_of_fmap_2 fst) in Hin. }
    destruct Hc as (g&Hg%item_of_path&Hc). destruct c as [? ?|grand|?|]; [subst; apply NoDup_singleton| |subst; apply NoDup_singleton..].
    destruct Hc as (below&Hb&->). cbn [fmap list_fmap]. constructor.
    - intros (k&Hk&(f&->&Hf)%list_elem_of_fmap)%list_elem_of_fmap.
      apply (collect_tree_elem _ _ _ _ (Hch _ _ Hin) _ _ Hb), collects_path in Hf as (q&Hne&Hq&Hf); [|by eapply Hch].
      rewrite Hg, Hf in Hk. apply relative_inj in Hk; [|repeat (apply Forall_app; split); by (done || apply Forall_singleton)..|by destruct base|by destruct base].
      apply (f_equal length) in Hk. rewrite !length_app in Hk. destruct q; [done|]. cbn in Hk. lia.
    - eapply (IH _ _ Hin (base ++ [name])); [|done]. apply Forall_app. split; [done|by apply Forall_singleton]. }
  assert (∀ l, NoDup l.*1 → (∀ x, x ∈ l → x ∈ children) → ∀ founds,
    Forall2 (λ x y, collect_entry eps excluded (collect_tree eps excluded) base x = Ok y) l founds → NoDup (concat founds).*1.*1) as Hall.
  2: { by apply (Hall children). }
  intros l Hl Hin founds' Hf. induction Hf as [|[name c] found l founds' Hce Hf IHl]; [constructor|].
  cbn [concat]. rewrite !fmap_app. cbn in Hl. apply NoDup_cons in Hl as [Hnin Hl].
  apply NoDup_app. split_and!; [eapply Hone; [apply Hin; by left|done]| |apply IHl; [done|]; intros x Hx; apply Hin; by right].
  intros rel (k&->&(f&->&Hff)%list_elem_of_fmap)%list_elem_of_fmap (k'&Hk&(f'&->&Hff')%list_elem_of_fmap)%list_elem_of_fmap.
  apply list_elem_of_In, in_concat in Hff' as (found'&[j Hj]%list_elem_of_In%list_elem_of_lookup&Hff'%list_elem_of_In).
  destruct (Forall2_lookup_r _ _ _ _ _ Hf Hj) as ([name' c']&Hc'&Hce'). apply list_elem_of_lookup_2 in Hc'.
  assert ((name, c) ∈ children) as Hin1 by (apply Hin; by left). assert ((name', c') ∈ children) as Hin2 by (apply Hin; by right).
  destruct (Hpath _ _ _ _ Hin1 Hce Hff) as (q&Hq&Hr). destruct (Hpath _ _ _ _ Hin2 Hce' Hff') as (q'&Hq'&Hr').
  assert (∀ n x, (n, x) ∈ children → plain_name n) as Hname.
  { intros n x Hx. apply (proj1 (Forall_forall _ _) HP). by apply (list_elem_of_fmap_2 fst) in Hx. }
  rewrite Hr, Hr' in Hk. apply relative_inj in Hk; [|(apply Forall_app; split; [done|]; constructor; [by eapply Hname|done])..|by destruct base|by destruct base].
  apply app_inv_head in Hk. injection Hk as -> ->. destruct Hnin. by apply (list_elem_of_fmap_2 fst) in Hc'.
Qed.

(** ** The hashed items *)
Definition manifest_items (eps : option (gset string)) : list tree_file :=
  match eps with
  | Some paths => [(EXECUTABLE_MANIFEST, 3%N, Bytes (manifest_text (bset_iter paths)))]
  | None => []
  end.
Lemma collects_not_manifest eps excluded n f : collects eps excluded [] n f → f.1.1 ≠ EXECUTABLE_MANIFEST.
Proof.
  intros (q&o&Hne&He&Hv&Hf%item_of_path). specialize (Hv q Hne (reflexivity _)). rewrite Hf. intros E.
  cbn [app] in *. rewrite E in Hv. unfold skipped in Hv. by rewrite orb_true_r in Hv.
Qed.
Lemma sort_files_unique (l k : list tree_file) :
  NoDup l.*1 → NoDup k.*1 → (∀ f, f ∈ l ↔ f ∈ k) → sort_by fst l = sort_by fst k.
Proof.
  intros Hl Hk Heq.
  assert (∀ m : list tree_file, NoDup m.*1 → StronglySorted lt_of (sort_by fst m).*1) as Hs.
  { intros m Hm. apply keys_sorted, sorted_by_strict; [apply sort_by_sorted|].
    by rewrite (fmap_Permutation fst (sort_by fst m) m (sort_by_perm _ _)). }
  apply sorted_keys_unique; [by apply Hs..|]. rewrite !sort_by_perm.
  apply NoDup_Permutation; [by eapply NoDup_fmap_1..|done].
Qed.
(** A directory all of whose names are plain and UTF-8. *)
Definition plain_tree (root : node) : Prop := tree_of plain_name root ∧ object_of root = IsDir.
(** The items of a tree: those of its visible entries and the manifest, in the order of
    their paths. *)
Lemma tree_files_Ok root excluded l :
  plain_tree root → tree_files root excluded = Ok l →
  ∃ manifest files, read_executable_manifest root = Ok manifest ∧
    let eps := drop_excluded excluded <$> manifest in
    collect_tree eps excluded [] root = Ok files ∧ l = sort_by fst (files ++ manifest_items eps) ∧
    NoDup (files ++ manifest_items eps).*1 ∧
    ∀ f, f ∈ l ↔ collects eps excluded [] root f ∨ f ∈ manifest_items eps.
Proof.
  intros [Hn Hdir]. unfold tree_files. intros (manifest&Hm&H)%bind_Ok. apply bind_Ok in H as (top&Htop%ok_or_Ok&H).
  apply bind_Ok in H as (files&Hfiles&[= <-]). exists manifest, files. split; [done|]. cbn zeta.
  assert (top = root) as ->.
  { destruct root; try done. by injection Htop as <-. }
  split_and!; [done..| |].
  - rewrite fmap_app. apply NoDup_app. split_and!.
    + eapply (NoDup_fmap_1 fst). by eapply collect_tree_distinct.
    + intros k (f&->&Hf)%list_elem_of_fmap (g&Hk&Hg)%list_elem_of_fmap.
      apply (collect_tree_elem _ _ _ _ Hn _ _ Hfiles), collects_not_manifest in Hf. rewrite Hk in Hf.
      destruct (drop_excluded excluded <$> manifest); [|by apply not_elem_of_nil in Hg].
      by apply list_elem_of_singleton in Hg as ->.
    + destruct (drop_excluded excluded <$> manifest); [apply NoDup_singleton|constructor].
  - intros f. rewrite elem_of_sort_by, elem_of_app. by rewrite (collect_tree_elem _ _ _ _ Hn _ _ Hfiles f).
Qed.
Lemma tree_digest_Ok `{Sha256} root excluded digest :
  tree_digest root excluded = Ok digest ↔ ∃ l, tree_files root excluded = Ok l ∧
    digest = "sha256-" +:+ sha256_hex (String.concat "" (frame_text <$> l)).
Proof.
  unfold tree_digest. rewrite bind_Ok. split.
  - intros (l&Hl&(frames&Hf&[= <-])%bind_Ok). exists l. split; [done|]. rewrite frames_Ok in Hf. by injection Hf as <-.
  - intros (l&Hl&->). exists l. split; [done|]. by rewrite frames_Ok.
Qed.

(** What the digest tells apart: of a file, its bytes and whether it is executable. *)
Definition portable (o : object) : object :=
  match o with IsFile content mode => IsFile content (portable_mode mode) | _ => o end.
Lemma file_kind_Ok eps rel mode kind : file_kind eps rel mode = Ok kind → kind = portable_file_kind mode.
Proof.
  unfold file_kind. destruct eps as [paths|]; [|congruence].
  destruct (N.eqb_spec (if bool_decide (rel ∈ paths) then 2%N else 0%N) (portable_file_kind mode)) as [E|]; cbn [negb]; [|done].
  intros [= <-]. done.
Qed.
Lemma item_determines eps eps' rel o o' f g :
  item_of eps rel o = Ok f → item_of eps' rel o' = Ok g → f.1 = g.1 → payload_text f.2 = payload_text g.2 →
  portable o = portable o'.
Proof.
  destruct o as [c m| | |], o' as [c' m'| | |]; cbn; try done.
  - intros (k&Hk%file_kind_Ok&[= <-])%bind_Ok (k'&Hk'%file_kind_Ok&[= <-])%bind_Ok. cbn. intros [= E] ->. f_equal.
    subst. unfold portable_file_kind, portable_mode in *. by destruct (executable m), (executable m').
  - intros (k&Hk%file_kind_Ok&[= <-])%bind_Ok [= <-]. cbn. intros [= ->]. unfold portable_file_kind in Hk. by destruct (executable m).
  - intros [= <-] (k&Hk%file_kind_Ok&[= <-])%bind_Ok. cbn. intros [= <-]. unfold portable_file_kind in Hk. by destruct (executable m').
Qed.
Lemma covered_entry root root' excluded l l' q o :
  plain_tree root → plain_tree root' →
  tree_files root excluded = Ok l → tree_files root' excluded = Ok l' →
  (λ f, (f.1, payload_text f.2)) <$> l = (λ f, (f.1, payload_text f.2)) <$> l' →
  q ≠ [] → visible excluded [] q → entry_at root q = Some o →
  ∃ o', entry_at root' q = Some o' ∧ portable o = portable o'.
Proof.
  intros Hn Hn' Hl Hl' Heq Hne Hv He.
  destruct (tree_files_Ok _ _ _ Hn Hl) as (m&files&_&Hfiles&_&_&Hin). cbn zeta in *.
  destruct (tree_files_Ok _ _ _ Hn' Hl') as (m'&files'&_&_&_&_&Hin'). cbn zeta in *.
  pose proof (collect_tree_items _ _ _ _ (proj1 Hn) _ _ Hfiles q o Hne He Hv) as (f&Hf)%is_ok_true.
  assert (f ∈ l) as Hfl by (apply Hin; left; by exists q, o).
  apply (list_elem_of_fmap_2 (λ f, (f.1, payload_text f.2))) in Hfl. rewrite Heq in Hfl.
  apply list_elem_of_fmap in Hfl as (g&[= Hk Hp]&[Hg|Hg]%Hin').
  - pose proof Hg as (q'&o'&Hne'&He'&_&Hg'). cbn [app] in *.
    assert (q = q') as <-.
    { apply relative_inj; [by eapply entry_at_plain, He; apply Hn|by eapply entry_at_plain, He'; apply Hn'|done..|].
      rewrite <-(item_of_path _ _ _ _ Hf), <-(item_of_path _ _ _ _ Hg'). by rewrite Hk. }
    exists o'. split; [done|]. by eapply item_determines.
  - exfalso. assert (collects (drop_excluded excluded <$> m) excluded [] root f) as Hc by by exists q, o.
    apply collects_not_manifest in Hc. rewrite Hk in Hc. destruct (drop_excluded excluded <$> m'); [|by apply not_elem_of_nil in Hg].
    by apply list_elem_of_singleton in Hg as ->.
Qed.
(** C20: the digest of a tree identifies it: two trees of plain UTF-8 names, with lengths that
    fit 64 bits, that have the same digest have the same entries at every path outside the
    reserved names - directories, and files with the same bytes and executability - or the
    texts that were hashed for them are a collision of SHA-256. *)
Theorem canonical_digest_faithful `{Sha256} root root' l l' :
  plain_tree root → plain_tree root' →
  tree_files root None = Ok l → tree_files root' None = Ok l' → Forall framable l → Forall framable l' →
  canonical_tree_digest root = canonical_tree_digest root' →
  (∀ q, q ≠ [] → visible None [] q → portable <$> entry_at root q = portable <$> entry_at root' q) ∨
  (hashed_text l ≠ hashed_text l' ∧ sha256_hex (hashed_text l) = sha256_hex (hashed_text l')).
Proof.
  intros Hn Hn' Hl Hl' Hf Hf' Hd. unfold canonical_tree_digest, tree_digest in Hd. rewrite Hl, Hl' in Hd.
  cbn [mbind result_bind] in Hd. rewrite !frames_Ok in Hd. cbn [mbind result_bind] in Hd.
  injection Hd as Hd. destruct (decide (hashed_text l = hashed_text l')) as [E|E]; [left|by right].
  apply frames_inj in E; [|done..]. intros q Hne Hv.
  destruct (entry_at root q) as [o|] eqn:Ho.
  - destruct (covered_entry root root' None l l' q o) as (o'&->&Hp); [done..|]. cbn. by rewrite Hp.
  - destruct (entry_at root' q) as [o'|] eqn:Ho'; [|done].
    destruct (covered_entry root' root None l' l q o') as (o&Hbad&_); [done..|]. by rewrite Ho in Hbad.
Qed.
(** Of names that are not UTF-8 only the replacement characters are hashed: different trees
    have the same digest. *)
Definition byte_named (byte : N) : node := DirNode [(String (ascii_of_N byte) "", FileNode "1" 420)].
Example lossy_names_collide `{Sha256} :
  canonical_tree_digest (byte_named 254) = canonical_tree_digest (byte_named 255) ∧
  is_ok (canonical_tree_digest (byte_named 254)) = true ∧ byte_named 254 ≠ byte_named 255.
Proof. split; [vm_compute; reflexivity|]. split; [vm_compute; reflexivity|discriminate]. Qed.
