(* ===== verification/ArchiveExtracted.v ===== *)
(** * The digest of an extracted archive

    The executable manifest that extraction writes is read back as the set of executables;
    the digest of the tree exists and is a function of the archive's members alone.  And a
    generated tree that [validate_tree] accepts has a digest that covers all of it. *)
From S2P Require Import Prelude Order RustStr Crates Samples Archive ArchiveTree ArchiveInv ArchiveTreeInv ArchiveDigest.

(** ** UTF-8 *)
Lemma slashes_join s : slashes s = join "/" (split "\" s).
Proof.
  induction s as [|a s IH]; [done|]. rewrite slashes_cons, IH. cbn [split].
  pose proof (split_not_nil "\" s). destruct (ascii_eqb a "\"); destruct (split "\" s) as [|x l]; try done.
  cbn. by destruct l.
Qed.
Lemma utf8_normalized raw p : normalized_path raw = Ok p → utf8_valid raw = true → utf8_valid p = true.
Proof.
  intros (_&_&_&_&_&->)%normalized_path_Ok H. apply (utf8_join "/"); [done|].
  assert (Forall (λ s, utf8_valid s = true) (split "/" (slashes raw))) as Hs.
  { apply (utf8_join "/"); [done|]. rewrite join_split, slashes_join. apply (utf8_join "/"); [done|].
    apply (utf8_join "\"); [done|]. by rewrite join_split. }
  apply Forall_forall. intros s [_ Hin]%list_elem_of_filter. by apply (proj1 (Forall_forall _ _) Hs).
Qed.

(** ** The manifest *)
Lemma break_free s : str_existsb line_break s = false →
  contains_char newline_char s = false ∧ contains_char (ascii_of_N 13) s = false.
Proof.
  induction s as [|a s IH]; [done|]. rewrite str_existsb_cons, !contains_char_cons. unfold line_break.
  intros [[H1 H2]%orb_false_iff H]%orb_false_iff. destruct (IH H) as [-> ->]. rewrite !orb_false_r.
  by rewrite (ascii_eqb_sym newline_char), (ascii_eqb_sym (ascii_of_N 13)).
Qed.
Lemma line_end_free s : str_existsb line_break s = false → line_end s = s.
Proof.
  intros [_ H]%break_free. unfold line_end. destruct (strip_suffix _ s) as [r|] eqn:E; [|done].
  apply strip_suffix_Some in E. subst. rewrite contains_char_app in H. cbn in H. by rewrite orb_true_r in H.
Qed.
Lemma manifest_text_join paths : paths ≠ [] → Forall (λ p, p ≠ "") paths →
  manifest_text paths = join newline (paths ++ [""]) ∧ is_empty (join newline paths) = false.
Proof.
  intros Hne Hp. assert (∀ l, l ≠ [] → join newline (l ++ [""]) = join newline l +:+ newline) as Hj.
  { intros l. induction l as [|x l IH]; [done|]. intros _. destruct l as [|y l]; [done|].
    change (join newline ((x :: y :: l) ++ [""])) with (x +:+ newline +:+ join newline ((y :: l) ++ [""])).
    rewrite IH by done. cbn [join]. by rewrite !app_assoc'. }
  assert (is_empty (join newline paths) = false) as He.
  { destruct Hp as [|p paths Hp _]; [done|]. cbn [join]. destruct p; [done|]. by destruct paths. }
  split; [|done]. unfold manifest_text. rewrite He. by rewrite Hj.
Qed.
Lemma lines_manifest paths : Forall (λ p, p ≠ "" ∧ str_existsb line_break p = false) paths →
  lines (manifest_text paths) = paths ∧
  (negb (is_empty (manifest_text paths)) && negb (ends_with_char newline_char (manifest_text paths)) = false).
Proof.
  intros Hp. destruct (decide (paths = [])) as [->|Hne]; [done|].
  destruct (manifest_text_join paths Hne) as [-> He]; [eapply Forall_impl; [exact Hp|by intros ? []]|]. split.
  - unfold lines. rewrite (split_join newline_char).
    + rewrite last_snoc, removelast_last. rewrite <-(list_fmap_id paths) at 2. apply list_fmap_ext.
      intros i p Hi%list_elem_of_lookup_2. apply line_end_free. by apply (proj1 (Forall_forall _ _) Hp).
    + by destruct paths.
    + apply Forall_app. split; [|by repeat constructor]. eapply Forall_impl; [exact Hp|]. by intros p [_ []%break_free].
  - apply andb_false_iff. right. apply negb_false_iff.
    destruct (manifest_text_join paths Hne) as [<- _]; [eapply Forall_impl; [exact Hp|by intros ? []]|].
    unfold manifest_text. rewrite He. unfold newline. rewrite ends_with_char_app. done.
Qed.
Lemma symlink_metadata_node path n m : node_at path n = Some m → symlink_metadata path n = Ok m.
Proof.
  revert n. induction path as [|name path IH]; intros n; cbn; [by intros [= ->]|].
  destruct n as [|children| |]; try done. cbn. destruct (child name children); [|done]. cbn. apply IH.
Qed.
Lemma manifest_steps root paths (s : gset string) previous :
  StronglySorted lt_of paths → (∀ p, previous = Some p → Forall (lt_of p) paths) →
  Forall (λ p, normalized_path p = Ok p ∧ ∃ c m, node_at (split "/" p) root = Some (FileNode c m)) paths →
  ∃ last, try_fold (manifest_step root) (s, previous) paths = Ok (list_to_set paths ∪ s, last).
Proof.
  intros Hs. revert s previous. induction Hs as [|p paths Hs IH Hp]; intros s previous Hprev Hall.
  { exists previous. cbn. f_equal. f_equal. set_solver. }
  apply Forall_cons in Hall as [(Hn&c&m&Hat) Hall]. cbn [try_fold].
  assert (manifest_step root (s, previous) p = Ok ({[p]} ∪ s, Some p)) as ->.
  { unfold manifest_step. rewrite Hn. cbn [map_err mbind result_bind]. rewrite str_eqb_refl. cbn [negb orb].
    assert (match previous with Some q => leb p q | None => false end = false) as ->.
    { destruct previous as [q|]; [|done]. specialize (Hprev q eq_refl). apply Forall_cons in Hprev as [Hq _].
      apply not_true_iff_false. intros H%leb_le. apply not_le_of in Hq. done. }
    by rewrite (symlink_metadata_node _ _ _ Hat). }
  cbn [mbind result_bind].
  destruct (IH ({[p]} ∪ s) (Some p)) as [last ->]; [by intros q [= <-]|done|]. exists last. f_equal. f_equal. set_solver.
Qed.

(** ** The digest of an extracted archive *)
(** The paths of the tar crate are made strings by [to_string_lossy]. *)
Class TarLaws `{TarCrate} : Prop := {
  tar_path_utf8 format bytes items item e p :
    tar_entries format bytes = Ok items → item ∈ listed items → item_entry item = Ok e → te_path e = Ok p →
    utf8_valid p = true;
}.
(** The executables can be listed: no drive prefix, and at most 4 MiB of paths. *)
Definition listable (ms : list (list string * object)) : Prop :=
  Forall (λ p, has_drive_prefix p = false) (listed_paths ms) ∧
  (N.of_nat (String.length (manifest_text (sort (listed_paths ms)))) <= 4 * 1024 * 1024)%N.
(** What is hashed for the members of an archive. *)
Definition digest_item (ms : list (list string * object)) (f : tree_file) : Prop :=
  (∃ q content archived, (q, IsFile content archived) ∈ ms ∧ visible None [] q ∧
     f = (join "/" q, portable_file_kind archived, File content)) ∨
  (∃ q, q ≠ [] ∧ needed_dir ms q ∧ visible None [] q ∧ f = (join "/" q, 1%N, Bytes "")) ∨
  f = (EXECUTABLE_MANIFEST, 3%N, Bytes (manifest_text (sort (listed_paths ms)))).

Lemma member_of_utf8 e m p : member_of e = Some m → te_path e = Ok p → utf8_valid p = true → utf8_valid (join "/" m.1) = true.
Proof.
  unfold member_of. destruct (git_commit_comment e) as [[]|]; try done. intros H Hraw Hp.
  rewrite Hraw in H. cbn [to_ok mbind option_bind] in H. destruct (normalized_path p) as [q|] eqn:Hq; [|done]. cbn [to_ok mbind option_bind] in H.
  destruct (to_ok (te_mode e)) as [mode|]; [|done]. cbn [mbind option_bind] in H.
  assert (m.1 = split "/" q) as ->.
  { destruct (te_kind e); try done; [|by injection H as <-]. by destruct (te_content e); [injection H as <-|]. }
  destruct (split_normalized _ _ Hq) as [_ ->]. by eapply utf8_normalized.
Qed.
Lemma members_utf8 `{TarLaws} format bytes items m :
  tar_entries format bytes = Ok items → m ∈ members (listed items) → utf8_valid (join "/" m.1) = true.
Proof.
  intros Hitems (item&Hin&Hm)%list_elem_of_omap. destruct (item_entry item) as [e|] eqn:He; [|done]. cbn in Hm.
  destruct (te_path e) as [p|] eqn:Hp.
  - eapply member_of_utf8; [done..|]. by eapply tar_path_utf8.
  - unfold member_of in Hm. rewrite Hp in Hm. by destruct (git_commit_comment e) as [[]|].
Qed.
Lemma elem_of_listed_paths ms p : p ∈ listed_paths ms ↔
  ∃ q content archived, (q, IsFile content archived) ∈ ms ∧ executable archived = true ∧ p = join "/" q.
Proof.
  unfold listed_paths. rewrite list_elem_of_omap. unfold executable_member. split.
  - intros ([q o]&Hin&Hp). cbn in Hp. destruct o as [c a| | |]; try done. destruct (executable a) eqn:E; [|done].
    injection Hp as <-. by exists q, c, a.
  - intros (q&c&a&Hin&Hx&->). exists (q, IsFile c a). cbn. by rewrite Hx.
Qed.
Lemma elem_of_sort (l : list string) p : p ∈ sort l ↔ p ∈ l.
Proof. by rewrite sort_perm. Qed.
Lemma sort_listed_strict (l : list string) : NoDup l → StronglySorted lt_of (sort l).
Proof. intros Hl. apply sorted_le_lt; [apply sort_sorted|]. by rewrite sort_perm. Qed.
Lemma bset_iter_list (l : list string) : NoDup l → bset_iter (list_to_set l : gset string) = sort l.
Proof.
  intros Hl. apply sorted_lt_unique; [apply bset_iter_ascending|by apply sort_listed_strict|].
  intros x. rewrite elem_of_bset_iter, sort_perm. by rewrite elem_of_list_to_set.
Qed.

Lemma tree_of_entries (P Q : string → Prop) n :
  tree_of P n → (∀ q o, q ≠ [] → entry_at n q = Some o → Forall Q q) → tree_of Q n.
Proof.
  intros Hn. induction Hn as [| | |children Hnd HP Hch IH]; intros HQ; [by constructor..|]. constructor; [done| |].
  - apply Forall_forall. intros name ([n c]&->&Hin)%list_elem_of_fmap.
    assert (Forall Q [n]) as [? _]%Forall_cons; [|done]. apply (HQ [n] (object_of c)); [done|].
    by rewrite entry_at_cons, (child_elem _ _ _ Hnd Hin).
  - intros name c Hin. apply (IH _ _ Hin). intros q o Hne He.
    assert (Forall Q (name :: q)) as [_ ?]%Forall_cons; [|done]. apply (HQ (name :: q) o); [done|].
    by rewrite entry_at_cons, (child_elem _ _ _ Hnd Hin).
Qed.
(** The tree of an extracted archive, with what is known about its members. *)
Record archive_tree (ms : list (list string * object)) (tree : node) : Prop := {
  at_plain : plain_tree tree;
  at_unpacked : unpacked_to ms tree;
  at_members : Forall (λ m, plain_parts m.1 ∧ m.1 ≠ [EXECUTABLE_MANIFEST]) ms;
  at_breakless : breakless (listed_paths ms);
  at_distinct : NoDup (listed_paths ms);
}.
Lemma member_names_utf8 ms q : (∀ m, m ∈ ms → utf8_valid (join "/" m.1) = true) →
  needed_dir ms q ∨ (∃ content archived, (q, IsFile content archived) ∈ ms) → Forall (λ part, utf8_valid part = true) q.
Proof.
  intros Hutf [[->|(p&o&Hin&[k ->]&_)]|(c&a&Hin)]; [constructor| |].
  - specialize (Hutf _ Hin). apply (utf8_join "/") in Hutf; [|done]. by apply Forall_app in Hutf as [? _].
  - specialize (Hutf _ Hin). by apply (utf8_join "/") in Hutf.
Qed.
Lemma extracted_names ms tree :
  (∀ m, m ∈ ms → utf8_valid (join "/" m.1) = true) → tree_of plain_part tree → unpacked_to ms tree → tree_of plain_name tree.
Proof.
  intros Hutf Ht Hu. eapply tree_of_entries; [exact Ht|]. intros q o Hne He.
  pose proof (entry_at_plain _ _ _ _ Ht He) as Hq. destruct (Hu q) as (Hf&Hd&Hl&Hs).
  assert (Forall (λ part, utf8_valid part = true) q) as Hq'.
  { destruct o as [c m| | |]; [|apply (member_names_utf8 ms); [done|left; by apply Hd]|done..].
    destruct (proj1 (Hf c m) He) as [(->&_)|(a&Hin&_)]; [by repeat constructor|].
    apply (member_names_utf8 ms); [done|right; by eexists _, _]. }
  apply Forall_forall. intros part Hin. split; [by apply (proj1 (Forall_forall _ _) Hq)|by apply (proj1 (Forall_forall _ _) Hq')].
Qed.
Lemma extract_to_tree `{TarLaws} bytes format limits remains tree items :
  extract_to bytes format None limits remains = (Some tree, Ok ()) → tar_entries format bytes = Ok items →
  archive_tree (members (listed items)) tree.
Proof.
  unfold extract_to. destruct (_ <? _)%N; [done|]. cbn [exists_at].
  destruct (extract_inner bytes format (DirNode []) (al_validation limits)) as [t|e] eqn:E; [|done].
  intros [= <-] Hitems. apply extract_inner_Ok in E as (items'&u&Hitems'&Hex&_&Hm).
  replace items' with items in * by congruence. destruct (unpacked_manifest _ _ _ Hex Hm) as [Ht Hu].
  destruct Hex as [_ _ Hp _ Hb Hd]. split; [split|done..].
  - eapply extracted_names; [|done..]. intros m. by eapply members_utf8.
  - destruct (Hu []) as (_&Hdir&_). assert (entry_at t [] = Some IsDir) as Ha by (apply Hdir; by left).
    rewrite entry_at_nil in Ha. by injection Ha.
Qed.
Section extracted_tree.
Context (ms : list (list string * object)) (tree : node) (Htree : archive_tree ms tree).
Lemma member_plain q o : (q, o) ∈ ms → plain_parts q ∧ q ≠ [EXECUTABLE_MANIFEST].
Proof. intros H. exact (proj1 (Forall_forall _ _) (at_members _ _ Htree) _ H). Qed.
Lemma member_file q content archived : (q, IsFile content archived) ∈ ms →
  entry_at tree q = Some (IsFile content (portable_mode archived)).
Proof. intros H. apply (at_unpacked _ _ Htree q). right. eauto. Qed.
Lemma entry_node q content mode : entry_at tree q = Some (IsFile content mode) → node_at q tree = Some (FileNode content mode).
Proof. unfold entry_at. intros (n&->&Hn)%fmap_Some. destruct n; simplify_eq/=. done. Qed.
Lemma read_manifest_extracted :
  listable ms → (∀ m, m ∈ ms → utf8_valid (join "/" m.1) = true) →
  read_executable_manifest tree = Ok (Some (list_to_set (listed_paths ms))).
Proof.
  intros [Hdrive Hsize] Hutf. set (text := manifest_text (sort (listed_paths ms))).
  assert (node_at [EXECUTABLE_MANIFEST] tree = Some (FileNode text 420)) as Hnode.
  { apply entry_node, (at_unpacked _ _ Htree [EXECUTABLE_MANIFEST]). by left. }
  assert (∀ p, p ∈ sort (listed_paths ms) → ∃ q content archived, (q, IsFile content archived) ∈ ms ∧ p = join "/" q) as Hpaths.
  { intros p (q&c&a&Hin&_&->)%elem_of_sort%elem_of_listed_paths. eauto. }
  assert (Forall (λ p, p ≠ "" ∧ str_existsb line_break p = false) (sort (listed_paths ms))) as Hlines.
  { apply Forall_forall. intros p Hp. split; [|by apply (proj1 (Forall_forall _ _) (at_breakless _ _ Htree)), elem_of_sort].
    destruct (Hpaths p Hp) as (q&c&a&[[Hne Hq] _]%member_plain&->). intros E. destruct q as [|x q]; [done|].
    apply Forall_cons in Hq as [[[Hx _] _] _]. destruct x; [done|]. by destruct q. }
  unfold read_executable_manifest. rewrite (symlink_metadata_node _ _ _ Hnode). cbn [fmap result_fmap].
  unfold parse_executable_manifest. rewrite (proj2 (N.ltb_ge _ _)) by exact Hsize.
  assert (utf8_valid text = true) as ->.
  { destruct (decide (sort (listed_paths ms) = [])) as [E|Hne]; [unfold text; by rewrite E|].
    unfold text. destruct (manifest_text_join _ Hne) as [-> _]; [eapply Forall_impl; [exact Hlines|by intros ? []]|].
    apply (utf8_join newline_char); [done|]. apply Forall_app. split; [|by repeat constructor].
    apply Forall_forall. intros p (q&c&a&Hin&->)%Hpaths. by apply (Hutf _ Hin). }
  cbn [negb]. destruct (lines_manifest _ Hlines) as [Hl Hend]. fold text in Hl, Hend. rewrite Hend, Hl.
  destruct (manifest_steps tree (sort (listed_paths ms)) ∅ None) as [last ->].
  - apply sort_listed_strict, (at_distinct _ _ Htree).
  - done.
  - apply Forall_forall. intros p Hp. destruct (Hpaths p Hp) as (q&c&a&Hin&->). destruct (member_plain _ _ Hin) as [Hq _]. split.
    + apply normalized_plain; [done|]. apply (proj1 (Forall_forall _ _) Hdrive). by apply elem_of_sort.
    + rewrite plain_split by apply Hq. eexists _, _. by apply entry_node, member_file.
  - cbn. f_equal. f_equal. apply set_eq. intros x. rewrite elem_of_union, !elem_of_list_to_set, sort_perm. set_solver.
Qed.
Lemma listed_executable q content mode : (q, IsFile content mode) ∈ ms →
  join "/" q ∈ listed_paths ms ↔ executable mode = true.
Proof.
  intros Hin. rewrite elem_of_listed_paths. split; [|intros; by exists q, content, mode].
  intros (q'&c&a&Hin'&Hx&Hj). destruct (member_plain _ _ Hin) as [[Hne Hq] _], (member_plain _ _ Hin') as [[Hne' Hq'] _].
  assert (q = q') as <- by (rewrite <-(plain_split q), Hj by done; by apply plain_split).
  apply member_file in Hin, Hin'. rewrite Hin in Hin'. injection Hin' as _ Hm. unfold portable_mode in Hm.
  rewrite Hx in Hm. by destruct (executable mode).
Qed.
Lemma portable_kind mode : portable_file_kind (portable_mode mode) = portable_file_kind mode.
Proof. unfold portable_file_kind, portable_mode. by destruct (executable mode). Qed.
Lemma item_of_file q content mode : (q, IsFile content mode) ∈ ms →
  item_of (Some (list_to_set (listed_paths ms))) (join "/" q) (IsFile content (portable_mode mode)) =
    Ok (join "/" q, portable_file_kind mode, File content).
Proof.
  intros Hin. cbn. rewrite portable_kind. pose proof (listed_executable _ _ _ Hin) as Hx.
  unfold portable_file_kind. destruct (executable mode).
  - rewrite bool_decide_eq_true_2 by (apply elem_of_list_to_set; by apply Hx). done.
  - rewrite bool_decide_eq_false_2; [done|]. rewrite elem_of_list_to_set, Hx. done.
Qed.
(** What the visible entries of the tree contribute. *)
Lemma visible_not_manifest q : q ≠ [] → visible None [] q → q ≠ [EXECUTABLE_MANIFEST].
Proof. intros Hne Hv ->. specialize (Hv _ Hne (reflexivity _)). by vm_compute in Hv. Qed.
Lemma visible_item q o : q ≠ [] → entry_at tree q = Some o → visible None [] q →
  ∃ f, item_of (Some (list_to_set (listed_paths ms))) (relative q) o = Ok f ∧ digest_item ms f.
Proof.
  intros Hne He Hv. destruct (at_unpacked _ _ Htree q) as (Hf&Hd&Hl&Hs).
  assert (Forall plain_name q) as Hq by (eapply entry_at_plain, He; apply (at_plain _ _ Htree)).
  rewrite relative_plain by done. destruct o as [content mode| | |]; [| |done..].
  - destruct (proj1 (Hf _ _) He) as [(->&_)|(a&Hin&->)]; [by apply visible_not_manifest in Hv|].
    rewrite (item_of_file _ _ _ Hin). eexists. split; [done|]. left. by exists q, content, a.
  - eexists. split; [done|]. right. left. exists q. split_and!; [done|by apply Hd|done..].
Qed.
Lemma extracted_files :
  listable ms → (∀ m, m ∈ ms → utf8_valid (join "/" m.1) = true) →
  ∃ l, tree_files tree None = Ok l ∧ StronglySorted lt_of l.*1 ∧ ∀ f, f ∈ l ↔ digest_item ms f.
Proof.
  intros Hlist Hutf. set (eps := Some (list_to_set (listed_paths ms)) : option (gset string)).
  pose proof (at_plain _ _ Htree) as [Hn Hdir].
  destruct (collect_tree_total eps None _ _ Hn [] Hdir) as [files Hfiles].
  { intros q o Hne He Hv. cbn [app]. destruct (visible_item q o Hne He Hv) as (f&Hf&_). unfold eps. by rewrite Hf. }
  assert (∃ l, tree_files tree None = Ok l) as [l Hl].
  { unfold tree_files. rewrite read_manifest_extracted by done. cbn [mbind result_bind]. destruct tree; try done.
    cbn [resolve_link ok_or mbind result_bind fmap option_fmap option_map drop_excluded]. fold eps. rewrite Hfiles. by eexists. }
  exists l. split; [done|]. destruct (tree_files_Ok _ _ _ (conj Hn Hdir) Hl) as (manifest&files'&Hm&_&->&Hnd&Hin).
  rewrite read_manifest_extracted in Hm by done. injection Hm as <-. cbn [fmap option_fmap option_map drop_excluded] in *. fold eps in Hin, Hnd |- *. split.
  - apply keys_sorted, sorted_by_strict; [apply sort_by_sorted|].
    by rewrite (fmap_Permutation fst _ _ (sort_by_perm _ _)).
  - intros f. rewrite Hin. unfold eps, manifest_items. rewrite list_elem_of_singleton, bset_iter_list by apply (at_distinct _ _ Htree). split.
    + intros [(q&o&Hne&He&Hv&Hf)| ->]; [|by right; right]. cbn [app] in *.
      destruct (visible_item q o Hne He Hv) as (g&Hg&Hd). rewrite Hg in Hf. by injection Hf as <-.
    + intros [(q&c&a&Hq&Hv&->)|[(q&Hne&Hd&Hv&->)| ->]]; [left..|by right].
      * destruct (member_plain _ _ Hq) as [[Hne Hplain] _]. exists q, (IsFile c (portable_mode a)).
        assert (entry_at tree q = Some (IsFile c (portable_mode a))) as He by by apply member_file.
        split_and!; [done..|]. cbn [app]. rewrite relative_plain; [by apply item_of_file|by eapply entry_at_plain|done].
      * exists q, IsDir. assert (entry_at tree q = Some IsDir) as He by by apply (at_unpacked _ _ Htree q).
        split_and!; [done..|]. cbn [app]. rewrite relative_plain; [done|by eapply entry_at_plain|done].
Qed.
End extracted_tree.
(** C19: the digest of an extracted archive exists, if its executables can be listed, and is
    that of its members: the strictly sorted items are exactly the archive's files, with
    their bytes and executability, and directories outside the reserved names, and the
    sorted manifest of executables - whatever the order of the archive. *)
Theorem extracted_digest `{TarLaws, Sha256} bytes format limits remains tree items :
  extract_to bytes format None limits remains = (Some tree, Ok ()) → tar_entries format bytes = Ok items →
  listable (members (listed items)) →
  ∃ l, canonical_tree_digest tree = Ok ("sha256-" +:+ sha256_hex (String.concat "" (frame_text <$> l))) ∧
    StronglySorted lt_of l.*1 ∧ ∀ f, f ∈ l ↔ digest_item (members (listed items)) f.
Proof.
  intros Hex Hitems Hlist. pose proof (extract_to_tree _ _ _ _ _ _ Hex Hitems) as Htree.
  destruct (extracted_files _ _ Htree Hlist) as (l&Hl&Hsorted&Hin); [intros m; by eapply members_utf8|].
  exists l. split_and!; [|done..]. apply tree_digest_Ok. by exists l.
Qed.

(** ** Generated trees *)
(** File names of the system hold no separator. *)
Definition file_name (name : string) : Prop := contains_char "/" name = false.
Section generated_tree.
Context (limits : ValidationLimits).
Definition generated_step (path : list string) (entries : list ArchiveEntry) (item : string * node) :
    result ExtractError (list ArchiveEntry) :=
  entries ← generated_entry limits entries (path ++ [item.1]) item.2;
  match item.2 with DirNode _ => collect limits entries (path ++ [item.1]) item.2 | _ => Ok entries end.
Lemma collect_dir entries path children :
  collect limits entries path (DirNode children) = try_fold (generated_step path) entries children.
Proof.
  cbn [collect]. revert entries. induction children as [|[name c] children IH]; intros entries; [done|].
  cbn [try_fold]. change (generated_step path entries (name, c)) with
    (generated_entry limits entries (path ++ [name]) c ≫= (λ entries,
      match c with DirNode _ => collect limits entries (path ++ [name]) c | _ => Ok entries end)).
  destruct (generated_entry limits entries (path ++ [name]) c) as [e1|]; [|done]. cbn [mbind result_bind].
  destruct c as [|grand| |]; [apply IH| |apply IH..].
  destruct (collect limits e1 (path ++ [name]) (DirNode grand)) as [e2|]; [|done]. cbn [mbind result_bind]. apply IH.
Qed.
(** What the check of one entry establishes. *)
Definition generated_ok (path : list string) (o : object) : Prop :=
  normalized_path (join "/" path) = Ok (join "/" path) ∧ join "/" path ≠ ".tapid-tree" ∧
  join "/" path ≠ EXECUTABLE_MANIFEST ∧ o ≠ IsLink ∧ o ≠ IsSpecial ∧ utf8_valid (join "/" path) = true.
Lemma generated_entry_Ok entries path c entries' :
  generated_entry limits entries path c = Ok entries' → generated_ok path (object_of c).
Proof.
  unfold generated_entry. destruct (_ <=? _)%N; [done|]. destruct (utf8_valid _) eqn:Hutf; cbn [negb]; [|done].
  destruct (_ <? _)%N; [done|]. intros (p&Hp%map_err_Ok&H)%bind_Ok.
  destruct (str_eqb p (join "/" path)) eqn:E; [|done]. apply str_eqb_true in E as ->. cbn [negb] in H.
  destruct (str_eqb (join "/" path) ".tapid-tree") eqn:E1; [done|].
  destruct (str_eqb (join "/" path) EXECUTABLE_MANIFEST) eqn:E2; [done|]. cbn [orb] in H.
  apply bind_Ok in H as ([kind size]&Hk&_). split_and!; [done|..].
  - intros E. by rewrite E, str_eqb_refl in E1.
  - intros E. by rewrite E, str_eqb_refl in E2.
  - by destruct c.
  - by destruct c.
  - exact Hutf.
Qed.
Lemma collect_generated P n : tree_of P n → ∀ entries path entries',
  collect limits entries path n = Ok entries' →
  ∀ q o, q ≠ [] → entry_at n q = Some o → generated_ok (path ++ q) o.
Proof.
  intros Hn. induction Hn as [| | |children Hnd HP Hch IH]; try done. intros entries path entries' H [|name q] o Hne He; [done|].
  rewrite collect_dir in H. rewrite entry_at_cons in He. destruct (child name children) as [c|] eqn:Hc; [|done]. cbn in He.
  apply child_Some in Hc.
  assert (∀ l entries entries', try_fold (generated_step path) entries l = Ok entries' → (name, c) ∈ l →
    ∃ e1 e2, generated_step path e1 (name, c) = Ok e2) as Hstep.
  { clear. intros l. induction l as [|x l IH]; intros e e' H Hin; [by apply not_elem_of_nil in Hin|].
    apply bind_Ok in H as (e1&He1&H). apply elem_of_cons in Hin as [<-|Hin]; [by exists e, e1|by eapply IH]. }
  destruct (Hstep _ _ _ H Hc) as (e1&e2&(e3&Hg%generated_entry_Ok&Hbelow)%bind_Ok). cbn [fst snd] in *.
  destruct q as [|x q]; [rewrite entry_at_nil in He; by injection He as <-|].
  rewrite cons_middle, app_assoc. rewrite entry_at_cons in He. destruct c as [|grand| |]; try done.
  eapply (IH _ _ Hc); [exact Hbelow|done|]. by rewrite entry_at_cons.
Qed.
Lemma entry_at_prefix n q' q o : q' `prefix_of` q → entry_at n q = Some o → ∃ o', entry_at n q' = Some o'.
Proof.
  intros [k ->]. revert n. induction q' as [|name q' IH]; intros n; [by eexists|].
  cbn [app]. rewrite !entry_at_cons. destruct n as [|children| |]; try done. destruct (child name children); [|done]. apply IH.
Qed.
Lemma plain_parts_names q : q ≠ [] → Forall file_name q → plain_parts (split "/" (join "/" q)) → Forall plain_part q.
Proof. intros Hne Hq [_ Hp]. by rewrite (split_join "/") in Hp. Qed.
End generated_tree.
(** A generated tree that the validation accepts has plain names, neither links nor
    special files, and nothing at the reserved names: its canonical digest exists and
    covers every entry. *)
Theorem validate_tree_digest `{Sha256} root limits :
  tree_of file_name root → validate_tree root limits = Ok () →
  plain_tree root ∧ linkless root ∧ (∀ q, q ≠ [] → is_Some (entry_at root q) → visible None [] q) ∧
  ∃ digest, canonical_tree_digest root = Ok digest.
Proof.
  intros Hn Hv. unfold validate_tree in Hv. destruct root as [|children| |] eqn:Hroot; try done. rewrite <-Hroot in *.
  apply bind_Ok in Hv as (entries&Hc&_). pose proof (collect_generated limits _ _ Hn _ _ _ Hc) as Hok. cbn [app] in Hok.
  assert (∀ q o, q ≠ [] → entry_at root q = Some o → Forall plain_name q) as Hplain.
  { intros q o Hne He. destruct (Hok q o Hne He) as ([Hp _]%normalized_parts&_&_&_&_&Hutf).
    apply (utf8_join "/") in Hutf; [|done]. apply plain_parts_names in Hp; [|done|by eapply entry_at_plain].
    apply Forall_forall. intros part Hin. split; [by apply (proj1 (Forall_forall _ _) Hp)|by apply (proj1 (Forall_forall _ _) Hutf)]. }
  assert (∀ q, q ≠ [] → is_Some (entry_at root q) → visible None [] q) as Hvisible.
  { intros q Hne [o Ho] q' Hne' Hpre. cbn [app]. destruct (entry_at_prefix _ _ _ _ Hpre Ho) as [o' Ho'].
    rewrite relative_plain by (done || by eapply Hplain). destruct (Hok q' o' Hne' Ho') as (_&H1&H2&_).
    unfold skipped. rewrite bool_decide_eq_false_2, orb_false_r by done.
    apply orb_false_iff. split; apply not_true_iff_false; by intros E%str_eqb_true. }
  assert (plain_tree root) as Hpt by (split; [by eapply tree_of_entries|by subst]).
  split_and!; [done| |done|].
  - intros [|x q] o He; [rewrite entry_at_nil in He; injection He as <-; by subst|]. by destruct (Hok (x :: q) o ltac:(done) He) as (_&_&_&?&?&_).
  - assert (read_executable_manifest root = Ok None) as Hm.
    { unfold read_executable_manifest. subst root. cbn [symlink_metadata resolve_link].
      destruct (child EXECUTABLE_MANIFEST children) as [c|] eqn:E; [|done]. exfalso.
      destruct (Hok [EXECUTABLE_MANIFEST] (object_of c)) as (_&_&Hbad&_); [done| |done]. by rewrite entry_at_cons, E. }
    destruct (collect_tree_total None None _ _ Hn []) as [files Hfiles]; [by subst| |].
    { intros q o Hne He _. destruct (Hok q o Hne He) as (_&_&_&?&?&_). by destruct o. }
    eexists. apply tree_digest_Ok. eexists. split; [|done]. unfold tree_files. rewrite Hm. subst root.
    cbn [mbind result_bind resolve_link ok_or fmap option_fmap option_map]. rewrite Hfiles. done.
Qed.

(** ** Witnesses *)
#[export] Instance sample_tar_laws : @TarLaws sample_tar.
Proof.
  constructor. intros format bytes items item e p [= <-] Hin He Hp.
  assert (forallb (λ item, match item_entry item with
    | Ok e => match te_path e with Ok p => utf8_valid p | Err _ => true end | Err _ => true end) (listed sample_items) = true) as Hall
    by (vm_compute; reflexivity).
  rewrite forallb_forall in Hall. specialize (Hall item (proj1 (list_elem_of_In _ _) Hin)). by rewrite He, Hp in Hall.
Qed.
Lemma extracted_digest_witness :
  ∃ l, canonical_tree_digest sample_tree = Ok ("sha256-" +:+ sha256_hex (String.concat "" (frame_text <$> l))) ∧
    StronglySorted lt_of l.*1 ∧ ∀ f, f ∈ l ↔ digest_item (members (listed sample_items)) f.
Proof.
  apply (extracted_digest "archive" TarGz ArchiveLimits_default None sample_tree sample_items).
  - vm_compute. reflexivity.
  - reflexivity.
  - split; [|vm_compute; discriminate].
    assert (listed_paths (members (listed sample_items)) = ["package/bin/cli.js"]) as -> by (vm_compute; reflexivity).
    by forall_list.
Defined.
(** Two directories with their entries in different orders. *)
Definition sample_dir (a b : string * node) : node := DirNode [("lib", DirNode [a; b])].
Definition sample_files : list tree_file :=
  [("lib", 1%N, Bytes ""); ("lib/a", 0%N, File "1"); ("lib/b", 2%N, File "2")].
Lemma sample_dir_plain a b m c n d :
  plain_name a → plain_name b → a ≠ b → plain_tree (sample_dir (a, FileNode m c) (b, FileNode n d)).
Proof.
  intros Ha Hb Hab. split; [|done]. constructor; cbn.
  - apply NoDup_singleton.
  - forall_list. by split_and!.
  - intros name x [= -> ->]%list_elem_of_singleton. constructor; cbn.
    + apply NoDup_cons. split; [by intros ->%list_elem_of_singleton|apply NoDup_singleton].
    + by forall_list.
    + intros name x [[= -> ->]|[= -> ->]%list_elem_of_singleton]%elem_of_cons; constructor.
Qed.
Lemma canonical_digest_faithful_witness :
  (∀ q, q ≠ [] → visible None [] q →
    portable <$> entry_at (sample_dir ("a", FileNode "1" 420) ("b", FileNode "2" 493)) q =
    portable <$> entry_at (sample_dir ("b", FileNode "2" 457) ("a", FileNode "1" 384)) q) ∨
  (hashed_text sample_files ≠ hashed_text sample_files ∧
   sha256_hex (hashed_text sample_files) = sha256_hex (hashed_text sample_files)).
Proof.
  assert (plain_name "a") as Ha by (by split_and!). assert (plain_name "b") as Hb by (by split_and!).
  assert (Forall framable sample_files) as Hf by (unfold sample_files; forall_list; by vm_compute).
  apply (canonical_digest_faithful _ _ sample_files sample_files); [by apply sample_dir_plain..| | |exact Hf|exact Hf|].
  - vm_compute. reflexivity.
  - vm_compute. reflexivity.
  - vm_compute. reflexivity.
Defined.
Lemma validate_tree_digest_witness :
  ∃ digest, canonical_tree_digest (sample_dir ("a", FileNode "1" 420) ("b", FileNode "2" 493)) = Ok digest.
Proof.
  assert (plain_name "a") as Ha by (by split_and!). assert (plain_name "b") as Hb by (by split_and!).
  apply (validate_tree_digest (sample_dir ("a", FileNode "1" 420) ("b", FileNode "2" 493)) ValidationLimits_default); [|vm_compute; reflexivity].
  assert (plain_tree (sample_dir ("a", FileNode "1" 420) ("b", FileNode "2" 493))) as Hp by by apply sample_dir_plain.
  eapply tree_of_entries; [exact (proj1 Hp)|]. intros q o Hne He%(entry_at_plain plain_name); [|exact (proj1 Hp)].
  eapply Forall_impl; [exact He|]. by intros ? [(_&_&?&_) _].
Defined.
