(* ===== verification/Layout.v ===== *)
(** * tapid-linker: the layout of node_modules

    Planning where package instances are stored and linked (crates/tapid-linker/src
    layout.rs, workspace.rs, platform.rs).  A [PathBuf] is its list of components, which is
    what its equality, its order and [strip_prefix] compare; [storage] and the other maps
    keep their order by key.  The loop over the pending dependencies has fuel: [None] when
    it runs out, which [LayoutInv] shows not to happen with enough of it.  The texts of
    [PlanError] are not modelled. *)
From S2P Require Import Prelude Order RustStr Crates Core.

(** ** Paths *)
Definition component_key (c : component) : Z * string :=
  match c with
  | RootDir => (0%Z, "")
  | CurDir => (1%Z, "")
  | ParentDir => (2%Z, "")
  | Normal part => (3%Z, part)
  end.
#[export] Instance component_key_inj : Inj (=) (=) component_key.
Proof. intros [] []; cbn; congruence. Qed.
#[export] Instance component_ord : Ord component := cmp_on component_key.
#[export] Instance component_ord_laws : OrdLaws component.
Proof. apply cmp_on_laws. apply _. Qed.
#[export] Program Instance component_countable : Countable component :=
  inj_countable' component_key (λ '(tag, part),
    if decide (tag = 0%Z) then RootDir else if decide (tag = 1%Z) then CurDir
    else if decide (tag = 2%Z) then ParentDir else Normal part) _.
Next Obligation. by intros []. Qed.
Definition path : Type := list component.
Definition is_absolute (p : path) : bool := match p with RootDir :: _ => true | _ => false end.
Definition has_parent_dir (p : path) : bool := existsb (λ c, bool_decide (c = ParentDir)) p.
(** [p.join(q)]: an absolute [q] replaces [p]; a [.] is kept only at the start of a path. *)
Definition join_path (p q : path) : path :=
  if is_absolute q then q else
  match p with [] => q | _ => p ++ base.filter (λ c, c ≠ CurDir) q end.
Definition join_name (p : path) (name : string) : path := join_path p [Normal name].
Fixpoint strip_path (base candidate : path) : option path :=
  match base, candidate with
  | [], _ => Some candidate
  | b :: base, c :: candidate => if decide (b = c) then strip_path base candidate else None
  | _ :: _, [] => None
  end.
Definition starts_with_path (candidate base : path) : bool :=
  match strip_path base candidate with Some _ => true | None => false end.

(** ** Identities of instances *)
Section layout.
Context `{SV : Semver} `{SH : Sha256}.
#[export] Instance PeerContext_ord : Ord PeerContext := cmp_on btree_iter.
#[export] Instance PlatformContext_ord : Ord PlatformContext :=
  cmp_on (λ p, (pc_os p, (pc_cpu p, pc_libc p))).
Inductive Platform := Unix | Windows | OtherPlatform.
Inductive PlanError :=
| InvalidTreeDigest (digest : string)
| TreeRootMustBeAbsolute (p : path)
| InvalidManagedRoot (p : path)
| PathOutsideManagedRoot (p : path)
| DuplicateInstance (id : PackageInstanceId)
| UnknownInstance (id : PackageInstanceId)
| UnknownParent (id : PackageInstanceId)
| ConflictingTarget (p : path)
| UnsupportedPlatform (platform : Platform)
| InvalidPackageMetadata (text : string)
| BinTargetMissing (p : path)
| BinTargetNotRegular (p : path)
| ShimCollision (p : path)
| PlanPanics.  (* an index or [expect] of the code that fails *)
Record VerifiedTreeReference := mk_tree_ref { tr_digest : string; tr_root : path }.
Definition VerifiedTreeReference_new (digest : string) (root : path) : result PlanError VerifiedTreeReference :=
  if negb (starts_with "sha256-" digest) || negb (str_len digest =? 71)%Z
     || negb (forallb is_ascii_hexdigit (chars (str_drop 7 digest)))
  then Err (InvalidTreeDigest digest) else
  if bool_decide (root = []) || negb (is_absolute root) then Err (TreeRootMustBeAbsolute root) else
  Ok (mk_tree_ref (to_ascii_lowercase digest) root).
Record ManagedRoot := mk_root { mr_path : path; mr_marker : path }.
Definition ManagedRoot_new (p : path) : result PlanError ManagedRoot :=
  if negb (is_absolute p) || has_parent_dir p then Err (InvalidManagedRoot p)
  else Ok (mk_root p (join_name p ".tapid-managed")).
Definition root_contains (root : ManagedRoot) (candidate : path) : bool :=
  is_absolute candidate && negb (has_parent_dir candidate) && starts_with_path candidate (mr_path root).

Record InstanceKey := mk_key { ik_id : PackageInstanceId; ik_peer : PeerContext; ik_platform : PlatformContext }.
#[export] Instance InstanceKey_eq_dec : EqDecision InstanceKey.
Proof. solve_decision. Defined.
Definition context_fields (p : PlatformContext) : option string * (option string * option string) :=
  (pc_os p, (pc_cpu p, pc_libc p)).
Definition key_fields (k : InstanceKey) :
    PackageInstanceId * (PeerContext * (option string * (option string * option string))) :=
  (ik_id k, (ik_peer k, context_fields (ik_platform k))).
#[export] Program Instance InstanceKey_countable : Countable InstanceKey :=
  inj_countable' key_fields (λ '(id, (peer, (os, (cpu, libc)))), mk_key id peer (mk_platform os cpu libc)) _.
Next Obligation. by intros [? ? []]. Qed.
#[export] Instance InstanceKey_ord : Ord InstanceKey := λ a b,
  cmp_then (cmp (ik_id a) (ik_id b)) (cmp_then (cmp (ik_peer a) (ik_peer b)) (cmp (ik_platform a) (ik_platform b))).
Record PackageInstance := mk_package_instance {
  pi_id : PackageInstanceId;
  pi_peer : PeerContext;
  pi_platform : PlatformContext;
  pi_tree : VerifiedTreeReference;
}.
Definition key_of (i : PackageInstance) : InstanceKey := mk_key (pi_id i) (pi_peer i) (pi_platform i).
Record NamedDependency := mk_named { nd_name : PackageName; nd_child : InstanceKey }.
#[export] Instance NamedDependency_eq_dec : EqDecision NamedDependency.
Proof. solve_decision. Defined.
#[export] Instance NamedDependency_ord : Ord NamedDependency := λ a b,
  cmp_then (cmp (nd_name a) (nd_name b)) (cmp (nd_child a) (nd_child b)).
Record DependencyEdge := mk_dependency_edge { de_parent : InstanceKey; de_child : InstanceKey }.
Record LayoutInput := mk_layout {
  li_instances : list PackageInstance;
  li_roots : list InstanceKey;
  li_edges : list DependencyEdge;
}.
Record NamedDependencyEdge := mk_named_edge { ne_parent : InstanceKey; ne_dependency : NamedDependency }.
#[export] Instance NamedDependencyEdge_ord : Ord NamedDependencyEdge := λ a b,
  cmp_then (cmp (ne_parent a) (ne_parent b)) (cmp (ne_dependency a) (ne_dependency b)).
Record NamedLayoutInput := mk_named_layout {
  nl_instances : list PackageInstance;
  nl_roots : list NamedDependency;
  nl_edges : list NamedDependencyEdge;
}.
Definition by_own_name (child : InstanceKey) : NamedDependency := mk_named (id_name (ik_id child)) child.
Definition NamedLayoutInput_from (input : LayoutInput) : NamedLayoutInput :=
  mk_named_layout (li_instances input) (by_own_name <$> li_roots input)
    ((λ e, mk_named_edge (de_parent e) (by_own_name (de_child e))) <$> li_edges input).

(** ** Plans *)
Record MaterializationEntry := mk_materialization {
  me_instance : PackageInstanceId;
  me_peer : string;
  me_platform : string;
  me_source : path;
  me_target : path;
}.
Inductive LinkKind := Symlink | Junction.
Record ActivationStep := mk_step { as_kind : LinkKind; as_source : path; as_target : path }.
Record MaterializationPlan := mk_plan {
  mp_root : ManagedRoot;
  mp_marker : path;
  mp_entries : list MaterializationEntry;
  mp_activation : list ActivationStep;
}.

(** ** Directory names *)
(** Names of packages hold neither [.] nor empty parts. *)
Definition package_name_path (value : string) : path := omap later_component (split "/" value).
Definition safe_component_char (c : Z) (bytes : string) : string :=
  if between 0 127 c &&
     (byte_is_alphanumeric (ascii_of_N (Z.to_N c)) || existsb (Z.eqb c) [45; 95; 46; 64]%Z)  (* - _ . @ *)
  then bytes else "_".
Definition safe_component (value : string) : string :=
  foldr (λ u s, safe_component_char u.1 u.2 +:+ s) "" (uchars value).
Definition component_byte (a : ascii) : bool :=
  byte_is_alphanumeric a || ascii_eqb a "_" || ascii_eqb a "." || ascii_eqb a "@".
Definition encode_path_component : string → string :=
  str_flat_map (λ a, if component_byte a then String a "" else "%" +:+ format_02X a).
Definition platform_component_key (p : PlatformContext) : string :=
  "os-" +:+ encode_path_component (default "" (pc_os p)) +:+
  "--cpu-" +:+ encode_path_component (default "" (pc_cpu p)) +:+
  "--libc-" +:+ encode_path_component (default "" (pc_libc p)).
Definition context_suffix (peer : PeerContext) (platform : PlatformContext) : string :=
  let peer := if is_empty (PeerContext_display peer) then "no-peer" else safe_component (PeerContext_display peer) in
  let platform := if is_empty (PlatformContext_display platform) then "no-platform"
                  else platform_component_key platform in
  "peer=" +:+ peer +:+ "__platform=" +:+ platform.
Definition registry_component (registry : PackageSource) : string :=
  "registry-" +:+ sha256_hex (source_as_str registry).
Definition storage_path (root : ManagedRoot) (id : PackageInstanceId) (peer : PeerContext)
    (platform : PlatformContext) : path :=
  join_name (join_name (join_name (join_path (join_name (join_name (mr_path root) ".tapid") "instances")
    (package_name_path (name_str (id_name id)))) (PackageVersion_display (id_version id)))
    (registry_component (id_registry id))) (context_suffix peer platform).
Definition name_in (base : path) (name : PackageName) : path := join_path base (package_name_path (name_str name)).
Definition node_modules (base : path) : path := join_name base "node_modules".
Definition entry_for (root : ManagedRoot) (i : PackageInstance) : result PlanError MaterializationEntry :=
  let target := storage_path root (pi_id i) (pi_peer i) (pi_platform i) in
  if negb (root_contains root target) then Err (PathOutsideManagedRoot target) else
  Ok (mk_materialization (pi_id i) (PeerContext_display (pi_peer i)) (PlatformContext_display (pi_platform i))
        (tr_root (pi_tree i)) target).

(** ** [plan_materialization] *)
Definition materialization_key (i : PackageInstance) : PackageInstanceId * (string * string) :=
  (pi_id i, (PeerContext_display (pi_peer i), platform_component_key (pi_platform i))).
Fixpoint check_windows (instances : list PackageInstance) : result PlanError () :=
  match instances with
  | a :: ((b :: _) as rest) =>
      if bool_decide (key_of a = key_of b) then Err (DuplicateInstance (pi_id a)) else check_windows rest
  | _ => Ok ()
  end.
Definition activate_instance (root : ManagedRoot) (s : list MaterializationEntry * list ActivationStep)
    (i : PackageInstance) : result PlanError (list MaterializationEntry * list ActivationStep) :=
  let '(entries, activation) := s in
  entry ← entry_for root i;
  let target := name_in (node_modules (mr_path root)) (id_name (pi_id i)) in
  if negb (root_contains root target) then Err (PathOutsideManagedRoot target) else
  if existsb (λ step, bool_decide (as_target step = target)) activation then Err (ConflictingTarget target) else
  Ok (entries ++ [entry], activation ++ [mk_step Symlink (me_target entry) target]).
Definition plan_materialization (root : ManagedRoot) (instances : list PackageInstance) :
    result PlanError MaterializationPlan :=
  let instances := sort_by materialization_key instances in
  _ ← check_windows instances;
  '(entries, activation) ← try_fold (activate_instance root) ([], []) instances;
  Ok (mk_plan root (mr_marker root) entries activation).

(** ** [plan_named_layout] *)
Definition link_kind (platform : Platform) : result PlanError LinkKind :=
  match platform with
  | Unix => Ok Symlink
  | Windows => Ok Junction
  | OtherPlatform => Err (UnsupportedPlatform platform)
  end.
Definition index_instance (by_key : gmap InstanceKey PackageInstance) (i : PackageInstance) :
    result PlanError (gmap InstanceKey PackageInstance) :=
  if contains_key (key_of i) by_key then Err (DuplicateInstance (pi_id i)) else Ok (<[key_of i := i]> by_key).
Definition store_instance (root : ManagedRoot) (s : list MaterializationEntry * gmap InstanceKey path)
    (i : PackageInstance) : result PlanError (list MaterializationEntry * gmap InstanceKey path) :=
  let '(entries, storage) := s in
  entry ← entry_for root i;
  Ok (entries ++ [entry], <[key_of i := me_target entry]> storage).
Notation Children := (gmap InstanceKey (list NamedDependency)).
Definition add_edge (by_key : gmap InstanceKey PackageInstance) (children : Children) (e : NamedDependencyEdge) :
    result PlanError Children :=
  if negb (contains_key (ne_parent e) by_key) then Err (UnknownInstance (ik_id (ne_parent e))) else
  if negb (contains_key (nd_child (ne_dependency e)) by_key)
  then Err (UnknownInstance (ik_id (nd_child (ne_dependency e)))) else
  Ok (<[ne_parent e := default [] (children !! ne_parent e) ++ [ne_dependency e]]> children).
Definition children_of (children : Children) (k : InstanceKey) : list NamedDependency := default [] (children !! k).
Definition lookup_names (children : Children) : list PackageName :=
  bset_iter (list_to_set (nd_name <$> concat (btree_values children))).
(** The instance that each name resolves to from a placement, with the instance placed. *)
Definition lookup_state : Type := InstanceKey * list (option InstanceKey).
Record pending_dependency := mk_pending {
  pd_dependency : NamedDependency;
  pd_bases : list path;
  pd_lineage : gset lookup_state;
}.
Record layout_state := mk_layout_state {
  placements : gmap path InstanceKey;
  activation : list ActivationStep;
  reachable : gset InstanceKey;
  pending : list pending_dependency;
}.
Section planner.
Context (root : ManagedRoot) (kind : LinkKind) (reserved : gset path).
Context (by_key : gmap InstanceKey PackageInstance) (storage : gmap InstanceKey path) (children : Children).
Definition root_base : path := node_modules (mr_path root).
Definition place (child : InstanceKey) (target : path) (s : layout_state) : result PlanError layout_state :=
  source ← ok_or PlanPanics (storage !! child);
  Ok (mk_layout_state (<[target := child]> (placements s)) (activation s ++ [mk_step kind source target])
        ({[child]} ∪ reachable s) (pending s)).
Definition enqueue (child : InstanceKey) (bases : list path) (lineage : gset lookup_state) (s : layout_state) :
    layout_state :=
  mk_layout_state (placements s) (activation s) (reachable s)
    (pending s ++ ((λ d, mk_pending d bases lineage) <$> children_of children child)).
Definition place_root (s : layout_state) (d : NamedDependency) : result PlanError layout_state :=
  let child := nd_child d in
  if negb (contains_key child by_key) then Err (UnknownInstance (ik_id child)) else
  let target := name_in root_base (nd_name d) in
  if bool_decide (target ∈ reserved) then Err (ConflictingTarget target) else
  match placements s !! target with
  | Some existing => if bool_decide (existing = child) then Ok s else Err (ConflictingTarget target)
  | None =>
      s ← place child target s;
      Ok (enqueue child [root_base; node_modules target] ∅ s)
  end.
(** From the innermost base outwards: whether the name resolves to the child already, or
    at which base something else holds it. *)
Fixpoint search_bases (placed : gmap path InstanceKey) (d : NamedDependency) (bases : list (nat * path)) :
    result PlanError (bool * option nat) :=
  match bases with
  | [] => Ok (false, None)
  | (index, base) :: bases =>
      let target := name_in base (nd_name d) in
      if negb (root_contains root target) then Err (PathOutsideManagedRoot target) else
      if bool_decide (target ∈ reserved) then Ok (false, Some index) else
      match placed !! target with
      | Some existing => if bool_decide (existing = nd_child d) then Ok (true, None) else Ok (false, Some index)
      | None => search_bases placed d bases
      end
  end.
(** The outermost free base from [bases] on. *)
Fixpoint free_base (placed : gmap path InstanceKey) (name : PackageName) (bases : list (nat * path)) :
    option (nat * path) :=
  match bases with
  | [] => None
  | (index, base) :: bases =>
      let target := name_in base name in
      if negb (contains_key target placed) && negb (bool_decide (target ∈ reserved)) then Some (index, target)
      else free_base placed name bases
  end.
Definition indexed (bases : list path) : list (nat * path) := imap pair bases.
Definition lookup_from (placed : gmap path InstanceKey) (bases : list path) (name : PackageName) : option InstanceKey :=
  head (omap (λ base, placed !! name_in base name) (rev bases)).
Definition process (s : layout_state) (item : pending_dependency) : result PlanError layout_state :=
  let d := pd_dependency item in
  let bases := pd_bases item in
  let child := nd_child d in
  '(resolves, shadowed) ← search_bases (placements s) d (rev (indexed bases));
  if resolves : bool
  then Ok (mk_layout_state (placements s) (activation s) ({[child]} ∪ reachable s) (pending s)) else
  let first := match shadowed with Some index => S index | None => O end in
  match free_base (placements s) (nd_name d) (drop first (indexed bases)) with
  | None =>
      base ← ok_or PlanPanics (last bases);
      Err (ConflictingTarget (name_in base (nd_name d)))
  | Some (index, target) =>
      s ← place child target s;
      let bases := take (S index) bases ++ [node_modules target] in
      let state := (child, lookup_from (placements s) bases <$> lookup_names children) in
      if bool_decide (state ∈ pd_lineage item) then
        if existsb (λ d, negb (bool_decide (lookup_from (placements s) bases (nd_name d) = Some (nd_child d))))
             (children_of children child)
        then Err (ConflictingTarget target) else Ok s
      else Ok (enqueue child bases ({[state]} ∪ pd_lineage item) s)
  end.
Fixpoint layout_loop (fuel : nat) (s : layout_state) : option (result PlanError layout_state) :=
  match pending s with
  | [] => Some (Ok s)
  | item :: rest =>
      match fuel with
      | O => None
      | S fuel =>
          match process (mk_layout_state (placements s) (activation s) (reachable s) rest) item with
          | Ok s => layout_loop fuel s
          | Err e => Some (Err e)
          end
      end
  end.
Definition finish (entries : list MaterializationEntry) (s : layout_state) : result PlanError MaterializationPlan :=
  match base.filter (λ parent, parent ∉ reachable s) (btree_keys children) with
  | parent :: _ => Err (UnknownParent (ik_id parent))
  | [] => Ok (mk_plan root (mr_marker root) entries (sort_by as_target (activation s)))
  end.
End planner.
Definition run_layout {A} (r : result PlanError A) (f : A → option (result PlanError MaterializationPlan)) :
    option (result PlanError MaterializationPlan) :=
  match r with Ok a => f a | Err e => Some (Err e) end.
Definition sorted_children (children : Children) : Children := (λ selected, dedup (sort selected)) <$> children.
Definition empty_layout : layout_state := mk_layout_state ∅ [] ∅ [].
Definition plan_named_layout_inner (fuel : nat) (root : ManagedRoot) (input : NamedLayoutInput) (platform : Platform)
    (reserved : gset path) : option (result PlanError MaterializationPlan) :=
  run_layout (link_kind platform) (λ kind,
  let instances := sort_by key_of (nl_instances input) in
  run_layout (try_fold index_instance ∅ instances) (λ by_key,
  run_layout (try_fold (store_instance root) ([], ∅) instances) (λ '(entries, storage),
  run_layout (try_fold (add_edge by_key) ∅ (sort (nl_edges input))) (λ children,
  let children := sorted_children children in
  run_layout (try_fold (place_root root kind reserved by_key storage children) empty_layout
                (dedup (sort (nl_roots input)))) (λ s,
  s ← layout_loop root kind reserved storage children fuel s;
  Some (s ← s; finish root children entries s)))))).
Definition plan_named_layout (fuel : nat) (root : ManagedRoot) (input : NamedLayoutInput) (platform : Platform) :
    option (result PlanError MaterializationPlan) :=
  plan_named_layout_inner fuel root input platform ∅.
Definition plan_layout (fuel : nat) (root : ManagedRoot) (input : LayoutInput) (platform : Platform) :
    option (result PlanError MaterializationPlan) :=
  plan_named_layout fuel root (NamedLayoutInput_from input) platform.

(** ** Workspace links (workspace.rs) *)
Record WorkspacePackage := mk_workspace_package { wk_root : path; wk_name : PackageName; wk_version : PackageVersion }.
Record WorkspaceLink := mk_link {
  wl_name : PackageName;
  wl_version : PackageVersion;
  wl_source : path;
  wl_target : path;
}.
Definition valid_relative_root (p : path) : bool :=
  negb (bool_decide (p = [])) && negb (is_absolute p)
  && forallb (λ c, match c with Normal _ => true | _ => false end) p.
(** [p.strip_prefix(base).is_ok_and(|p| !p.as_os_str().is_empty())] *)
Definition strictly_below (base p : path) : bool :=
  match strip_path base p with Some (_ :: _) => true | _ => false end.
Definition workspace_link (project : path) (s : list WorkspaceLink * gset path) (package : WorkspacePackage) :
    result PlanError (list WorkspaceLink * gset path) :=
  let '(links, targets) := s in
  if negb (valid_relative_root (wk_root package)) then Err (PathOutsideManagedRoot (wk_root package)) else
  let source := join_path project (wk_root package) in
  if negb (strictly_below project source) then Err (PathOutsideManagedRoot source) else
  let target := name_in (node_modules project) (wk_name package) in
  if negb (strictly_below project target) then Err (PathOutsideManagedRoot target) else
  if bool_decide (target ∈ targets) then Err (ConflictingTarget target) else
  Ok (links ++ [mk_link (wk_name package) (wk_version package) source target], {[target]} ∪ targets).
Definition plan_workspace_links (project : path) (packages : list WorkspacePackage) :
    result PlanError (list WorkspaceLink) :=
  if negb (is_absolute project) || has_parent_dir project then Err (InvalidManagedRoot project) else
  fst <$> try_fold (workspace_link project) ([], ∅)
    (sort_by (λ p, (wk_name p, (wk_version p, wk_root p))) packages).
(** The names that workspace links take in the root's [node_modules]. *)
Definition reserve_link (root : ManagedRoot) (reserved : gset path) (link : WorkspaceLink) :
    result PlanError (gset path) :=
  let expected := name_in (root_base root) (wl_name link) in
  if negb (bool_decide (wl_target link = expected)) || negb (root_contains root (wl_target link))
  then Err (PathOutsideManagedRoot (wl_target link)) else
  if bool_decide (expected ∈ reserved) then Err (ConflictingTarget expected) else Ok ({[expected]} ∪ reserved).
Definition plan_workspace_layout (fuel : nat) (root : ManagedRoot) (input : NamedLayoutInput)
    (links : list WorkspaceLink) (platform : Platform) : option (result PlanError MaterializationPlan) :=
  run_layout (try_fold (reserve_link root) ∅ links) (λ reserved,
  plan_named_layout_inner fuel root input platform reserved).

(** ** Capabilities (platform.rs) *)
Inductive Capability := Supported | Unsupported.
Record PlatformCapabilities := mk_capabilities {
  cap_platform : Platform;
  cap_symlink : Capability;
  cap_junction : Capability;
  cap_process_sandbox : Capability;
  cap_limitations : list string;
}.
Definition for_platform (platform : Platform) : PlatformCapabilities :=
  match platform with
  | Unix => mk_capabilities platform Supported Unsupported Unsupported
      ["This crate plans links only; it does not enforce process sandboxing."]
  | Windows => mk_capabilities platform Supported Supported Unsupported
      ["Link mutation and process sandboxing are outside this planning crate."]
  | OtherPlatform => mk_capabilities platform Unsupported Unsupported Unsupported
      ["This platform has no supported link strategy in this release."; "Process sandboxing is not provided."]
  end.
End layout.
(** The dependencies of each instance. *)
Notation Children := (gmap InstanceKey (list NamedDependency)).
