(* ===== verification/LayoutInv.v ===== *)
(** * Planned layouts resolve their dependencies

    The paths of a layout, the invariant of the planner's loop, its termination, and what a
    finished plan links: each placement once, below the root's [node_modules], from the
    storage of its instance, with every dependency of a placed instance placed in one of
    the directories that its resolution visits. *)
From S2P Require Import Prelude Order RustStr Crates Core Layout.

(** ** Paths *)
Definition normal (c : component) : Prop := match c with Normal _ => True | _ => False end.
Lemma strip_path_app base rest : strip_path base (base ++ rest) = Some rest.
Proof. induction base as [|c base IH]; [done|]. cbn. by rewrite decide_True. Qed.
Lemma strip_path_Some base p rest : strip_path base p = Some rest → p = base ++ rest.
Proof.
  revert p. induction base as [|b base IH]; intros p; cbn; [by intros [= ->]|].
  destruct p as [|c p]; [done|]. case_decide as E; [|done]. subst. intros H. by rewrite (IH _ H).
Qed.
Lemma filter_normal (q : path) : Forall normal q → base.filter (λ c, c ≠ CurDir) q = q.
Proof. intros Hq. apply filter_all. intros c Hc ->. by apply (proj1 (Forall_forall _ _) Hq) in Hc. Qed.
Lemma join_normal (p q : path) : p ≠ [] → Forall normal q → join_path p q = p ++ q.
Proof.
  intros Hp Hq. unfold join_path. assert (is_absolute q = false) as ->.
  { destruct Hq as [|c q Hc _]; [done|]. by destruct c. }
  rewrite filter_normal by done. by destruct p.
Qed.
Lemma join_name_app p name : p ≠ [] → join_name p name = p ++ [Normal name].
Proof. intros Hp. apply join_normal; [done|]. by constructor. Qed.
Lemma has_parent_dir_app p q : has_parent_dir (p ++ q) = has_parent_dir p || has_parent_dir q.
Proof. apply existsb_app. Qed.
Lemma normal_no_parent (q : path) : Forall normal q → has_parent_dir q = false.
Proof.
  induction 1 as [|c q Hc _ IH]; [done|]. change (has_parent_dir (c :: q)) with (bool_decide (c = ParentDir) || has_parent_dir q).
  rewrite IH. by destruct c.
Qed.

(** ** Names *)
Lemma safe_parts s : valid_name s → Forall Core.safe_component (split "/" s).
Proof.
  intros Hv. apply (PackageName_path_safe s (mk_name s)). by apply PackageName_from_str_Ok.
Qed.
Lemma later_safe part : Core.safe_component part → later_component part = Some (Normal part).
Proof.
  intros (H1&H2&H3). unfold later_component. destruct (str_eqb part "") eqn:E1; [by apply str_eqb_true in E1|].
  destruct (str_eqb part ".") eqn:E2; [by apply str_eqb_true in E2|].
  by destruct (str_eqb part "..") eqn:E3; [apply str_eqb_true in E3|].
Qed.
Lemma package_name_path_parts s : valid_name s → package_name_path s = Normal <$> split "/" s.
Proof.
  intros Hv. unfold package_name_path. induction (safe_parts s Hv) as [|part l Hpart _ IH]; [done|].
  cbn [omap list_omap fmap list_fmap]. by rewrite later_safe, IH.
Qed.
Lemma name_path_shape s : valid_name s →
  (∃ p, package_name_path s = [Normal p]) ∨
  (∃ scope p, package_name_path s = [Normal (String "@" scope); Normal p]).
Proof.
  intros Hv. rewrite package_name_path_parts by done. destruct Hv as (Hs&_). destruct Hs as [s Hne Hb|scope name Hs1 Hn1 Hs2 Hn2].
  - left. rewrite split_free by (by apply name_free). by eexists.
  - right. rewrite scoped_split by done. by eexists _, _.
Qed.
Lemma name_path_normal s : valid_name s → Forall normal (package_name_path s) ∧ package_name_path s ≠ [].
Proof. intros [(p&->)|(scope&p&->)]%name_path_shape; by repeat constructor. Qed.
Lemma name_path_inj s t : valid_name s → valid_name t → package_name_path s = package_name_path t → s = t.
Proof.
  intros Hs Ht. rewrite !package_name_path_parts by done.
  intros H. rewrite <-(join_split "/" s), <-(join_split "/" t). f_equal.
  assert (Inj (=) (=) Normal) as Hinj by (intros ?? [=]; done). by apply (list_fmap_eq_inj Normal) in H.
Qed.

(** ** Directories of packages *)
Definition ends_node_modules (base : path) : Prop := ∃ b, b ≠ [] ∧ base = b ++ [Normal "node_modules"].
Lemma name_in_app base n : base ≠ [] → valid_name (name_str n) → name_in base n = base ++ package_name_path (name_str n).
Proof. intros Hb Hn. apply join_normal; [done|]. by apply name_path_normal. Qed.
Lemma name_in_nonempty base n : base ≠ [] → valid_name (name_str n) → name_in base n ≠ [].
Proof. intros Hb Hn. rewrite name_in_app by done. by destruct base. Qed.
Lemma ends_nonempty base : ends_node_modules base → base ≠ [].
Proof. intros (b&_&->). by destruct b. Qed.
Lemma ends_node_modules_of base : base ≠ [] → ends_node_modules (node_modules base).
Proof. intros Hb. exists base. split; [done|]. by apply join_name_app. Qed.
Lemma name_in_inj base base' n n' :
  ends_node_modules base → ends_node_modules base' → valid_name (name_str n) → valid_name (name_str n') →
  name_in base n = name_in base' n' → base = base' ∧ n = n'.
Proof.
  intros Hb Hb' Hn Hn'. pose proof (ends_nonempty _ Hb). pose proof (ends_nonempty _ Hb').
  rewrite !name_in_app by done. intros H1.
  assert (base = base' ∧ package_name_path (name_str n) = package_name_path (name_str n')) as [-> Hp].
  { destruct Hb as (b&_&->), Hb' as (b'&_&->).
    destruct (name_path_shape _ Hn) as [(p&Ep)|(scope&p&Ep)], (name_path_shape _ Hn') as [(q&Eq)|(scope'&q&Eq)];
      rewrite Ep, Eq in *.
    - apply app_inj_tail in H1 as [E [= ->]]. by rewrite E.
    - change [Normal (String "@" scope'); Normal q] with ([Normal (String "@" scope')] ++ [Normal q]) in H1.
      rewrite app_assoc in H1. apply app_inj_tail in H1 as [E _]. by apply app_inj_tail in E as [_ [=]].
    - change [Normal (String "@" scope); Normal p] with ([Normal (String "@" scope)] ++ [Normal p]) in H1.
      rewrite app_assoc in H1. apply app_inj_tail in H1 as [E _]. by apply app_inj_tail in E as [_ [=]].
    - change [Normal (String "@" scope'); Normal q] with ([Normal (String "@" scope')] ++ [Normal q]) in *.
      change [Normal (String "@" scope); Normal p] with ([Normal (String "@" scope)] ++ [Normal p]) in *.
      rewrite !app_assoc in H1. apply app_inj_tail in H1 as [E [= ->]]. apply app_inj_tail in E as [E [= ->]]. by rewrite E. }
  split; [done|]. destruct n, n'. f_equal. by apply name_path_inj.
Qed.
Lemma node_modules_inj p q : p ≠ [] → q ≠ [] → node_modules p = node_modules q → p = q.
Proof. intros Hp Hq. unfold node_modules. rewrite !join_name_app by done. by intros [? _]%app_inj_tail. Qed.
Lemma root_contains_app root q :
  is_absolute (mr_path root) = true → has_parent_dir (mr_path root) = false → Forall normal q →
  root_contains root (mr_path root ++ q) = true.
Proof.
  intros Ha Hp Hq. unfold root_contains, starts_with_path. rewrite strip_path_app, has_parent_dir_app, Hp.
  rewrite (normal_no_parent _ Hq). by destruct (mr_path root) as [|[] p].
Qed.
Lemma root_contains_Some root p : root_contains root p = true → ∃ q, p = mr_path root ++ q.
Proof.
  unfold root_contains, starts_with_path. intros [_ H]%andb_true_iff.
  destruct (strip_path (mr_path root) p) eqn:E; [|done]. apply strip_path_Some in E. by eexists.
Qed.
