(* ===== verification/LayoutPlan.v ===== *)
(** * The loop of the layout planner

    What one step of the loop does ([processed]), the invariant of its state ([sound]), and
    the measure by which it terminates: a nested copy repeats no state of its lineage. *)
From S2P Require Import Prelude Order RustStr Crates Core Layout LayoutInv.

(** All lists of length [n] over [l]. *)
Fixpoint all_lists {A} (n : nat) (l : list A) : list (list A) :=
  match n with
  | O => [[]]
  | S n => concat ((λ x, cons x <$> all_lists n l) <$> l)
  end.
Lemma elem_of_all_lists {A} (l k : list A) : (∀ x, x ∈ k → x ∈ l) → k ∈ all_lists (length k) l.
Proof.
  induction k as [|x k IH]; intros Hk; cbn; [by left|]. apply elem_of_concat_fmap. exists x.
  split; [apply Hk; by left|]. apply list_elem_of_fmap_2, IH. intros y Hy. apply Hk. by right.
Qed.
Lemma elem_of_indexed (bases : list path) i base : (i, base) ∈ indexed bases ↔ bases !! i = Some base.
Proof. unfold indexed. rewrite elem_of_lookup_imap. naive_solver. Qed.

Section planner.
Context `{SV : Semver} `{SH : Sha256}.
Context (root : ManagedRoot) (kind : LinkKind) (reserved : gset path).
Context (by_key : gmap InstanceKey PackageInstance) (storage : gmap InstanceKey path) (children : Children).
Definition instance_path (k : InstanceKey) : path := storage_path root (ik_id k) (ik_peer k) (ik_platform k).
Hypothesis Hchildren : ∀ k d, d ∈ children_of children k → is_Some (by_key !! nd_child d).
Hypothesis Hstorage : ∀ k, is_Some (by_key !! k) → storage !! k = Some (instance_path k).
Implicit Types (s : layout_state) (item : pending_dependency) (placed : gmap path InstanceKey).

(** ** One step *)
Definition provided placed (bases : list path) (d : NamedDependency) : Prop :=
  ∃ base, base ∈ bases ∧ placed !! name_in base (nd_name d) = Some (nd_child d).
Definition state_of placed (child : InstanceKey) (bases : list path) : lookup_state :=
  (child, lookup_from placed bases <$> lookup_names children).
Definition placed_state (child : InstanceKey) (target : path) s : layout_state :=
  mk_layout_state (<[target := child]> (placements s)) (activation s ++ [mk_step kind (instance_path child) target])
    ({[child]} ∪ reachable s) (pending s).
(** The dependencies of a new placement become pending, or are found already. *)
Inductive descends (child : InstanceKey) (bases : list path) (lineage : gset lookup_state) s : layout_state → Prop :=
| descends_new :
    state_of (placements s) child bases ∉ lineage →
    descends child bases lineage s
      (enqueue children child bases ({[state_of (placements s) child bases]} ∪ lineage) s)
| descends_known :
    (∀ d, d ∈ children_of children child → lookup_from (placements s) bases (nd_name d) = Some (nd_child d)) →
    descends child bases lineage s s.
Inductive processed s item : layout_state → Prop :=
| processed_found :
    provided (placements s) (pd_bases item) (pd_dependency item) →
    processed s item (mk_layout_state (placements s) (activation s)
                        ({[nd_child (pd_dependency item)]} ∪ reachable s) (pending s))
| processed_placed i base s' :
    pd_bases item !! i = Some base →
    placements s !! name_in base (nd_name (pd_dependency item)) = None →
    name_in base (nd_name (pd_dependency item)) ∉ reserved →
    descends (nd_child (pd_dependency item))
      (take (S i) (pd_bases item) ++ [node_modules (name_in base (nd_name (pd_dependency item)))]) (pd_lineage item)
      (placed_state (nd_child (pd_dependency item)) (name_in base (nd_name (pd_dependency item))) s) s' →
    processed s item s'.

Lemma search_bases_Ok placed d bases found shadowed :
  search_bases root reserved placed d bases = Ok (found, shadowed) → found = true →
  ∃ i base, (i, base) ∈ bases ∧ placed !! name_in base (nd_name d) = Some (nd_child d).
Proof.
  induction bases as [|[i base] bases IH]; cbn; [by intros [= <- _]|].
  destruct (negb _); [done|]. case_bool_decide; [by intros [= <- _]|].
  destruct (placed !! _) as [existing|] eqn:E.
  - case_bool_decide as Hc; [|by intros [= <- _]]. intros _ _. subst. exists i, base. split; [by left|done].
  - intros Hs Hf. destruct (IH Hs Hf) as (j&b&?&?). exists j, b. split; [by right|done].
Qed.
Lemma search_bases_Err placed d bases e : search_bases root reserved placed d bases = Err e → e ≠ PlanPanics.
Proof.
  induction bases as [|[i base] bases IH]; cbn; [done|]. destruct (negb _); [by intros [= <-]|].
  case_bool_decide; [done|]. destruct (placed !! _); [by case_bool_decide|done].
Qed.
Lemma free_base_Some placed n bases i target :
  free_base reserved placed n bases = Some (i, target) →
  ∃ base, (i, base) ∈ bases ∧ target = name_in base n ∧ placed !! target = None ∧ target ∉ reserved.
Proof.
  induction bases as [|[j base] bases IH]; cbn; [done|].
  destruct (negb _ && negb _) eqn:E.
  - intros [= <- <-]. bool_prop. exists base. split_and!; [by left|done| |by eapply bool_decide_eq_false_1].
    unfold contains_key in *. by destruct (placed !! _).
  - intros (b&?&?)%IH. exists b. split; [by right|done].
Qed.
Lemma place_Ok child target s : is_Some (by_key !! child) →
  place kind storage child target s = Ok (placed_state child target s).
Proof. intros H. unfold place. by rewrite Hstorage. Qed.
Lemma process_spec s item :
  pd_bases item ≠ [] → is_Some (by_key !! nd_child (pd_dependency item)) →
  (∃ s', process root kind reserved storage children s item = Ok s' ∧ processed s item s') ∨
  (∃ e, process root kind reserved storage children s item = Err e ∧ e ≠ PlanPanics).
Proof.
  intros Hb Hc. unfold process.
  destruct (search_bases _ _ _ _ _) as [[found shadowed]|e] eqn:Es; [|right; exists e; split; [done|by eapply search_bases_Err]].
  cbn [mbind result_bind]. destruct found.
  { left. eexists. split; [done|]. destruct (search_bases_Ok _ _ _ _ _ Es eq_refl) as (i&base&Hi&Hp).
    constructor. exists base. split; [|done].
    apply list_elem_of_In, in_rev, list_elem_of_In, elem_of_indexed in Hi. by eapply list_elem_of_lookup_2. }
  destruct (free_base _ _ _ _) as [[i target]|] eqn:Ef; cbn [mbind result_bind].
  2: { right. destruct (last (pd_bases item)) eqn:El; [|by apply last_None in El]. cbn. eexists. by split. }
  apply free_base_Some in Ef as (base&Hi&->&Hfree&Hres). rewrite place_Ok by done. cbn [mbind result_bind].
  apply (sublist_subseteq _ _ (sublist_drop _ _)), elem_of_indexed in Hi.
  case_bool_decide as Hst.
  - destruct (existsb _ _) eqn:Ee; [right; eexists; by split|].
    left. eexists. split; [done|]. eapply processed_placed; [done..|]. apply descends_known.
    intros d Hd. destruct (decide (lookup_from (placements (placed_state (nd_child (pd_dependency item)) (name_in base (nd_name (pd_dependency item))) s))
      (take (S i) (pd_bases item) ++ [node_modules (name_in base (nd_name (pd_dependency item)))]) (nd_name d) = Some (nd_child d))) as [|Hn]; [done|].
    exfalso. apply not_true_iff_false in Ee. apply Ee. apply existsb_exists. exists d. split; [by apply list_elem_of_In|].
    by rewrite bool_decide_eq_false_2.
  - left. eexists. split; [done|]. eapply processed_placed; [done..|]. by apply descends_new.
Qed.

(** ** Termination: a lineage holds only states of the finitely many instances *)
Definition known_keys : list InstanceKey := elements (dom by_key).
Definition all_states : gset lookup_state := list_to_set
  (concat ((λ k, pair k <$> all_lists (length (lookup_names children)) (None :: (Some <$> known_keys))) <$> known_keys)).
Definition width : nat := S (max_list (length <$> (map_to_list children).*2)).
Definition item_weight item : nat := width ^ (S (size all_states) - size (pd_lineage item)).
Definition weight (items : list pending_dependency) : nat := sum_list (item_weight <$> items).
Definition bounded_item item : Prop :=
  pd_bases item ≠ [] ∧ is_Some (by_key !! nd_child (pd_dependency item)) ∧ pd_lineage item ⊆ all_states.
Record bounded s : Prop := {
  bounded_placed target child : placements s !! target = Some child → is_Some (by_key !! child);
  bounded_pending item : item ∈ pending s → bounded_item item;
}.
Definition only_known placed : Prop := ∀ target child, placed !! target = Some child → is_Some (by_key !! child).

Lemma children_width k : (length (children_of children k) < width)%nat.
Proof.
  unfold children_of. destruct (children !! k) as [l|] eqn:E; [|apply Nat.lt_0_succ].
  apply Nat.lt_succ_r. change (length l ≤ max_list (length <$> (map_to_list children).*2))%nat.
  apply max_list_elem_of_le, list_elem_of_fmap_2, list_elem_of_fmap. exists (k, l). split; [done|]. by apply (elem_of_map_to_list (M:=gmap InstanceKey) children).
Qed.
Lemma elem_of_known_keys k : k ∈ known_keys ↔ is_Some (by_key !! k).
Proof. unfold known_keys. rewrite elem_of_elements, elem_of_dom. done. Qed.
Lemma lookup_from_known placed bases n child :
  only_known placed → lookup_from placed bases n = Some child → is_Some (by_key !! child).
Proof.
  intros Hp H. unfold lookup_from in H. apply head_Some_elem_of, list_elem_of_omap in H as (base&_&H). by eapply Hp.
Qed.
Lemma state_of_bounded placed child bases :
  is_Some (by_key !! child) → only_known placed → state_of placed child bases ∈ all_states.
Proof.
  intros Hc Hp. unfold all_states. rewrite elem_of_list_to_set, elem_of_concat_fmap. exists child.
  split; [by apply elem_of_known_keys|]. apply (list_elem_of_fmap_2 (pair child)).
  rewrite <-(length_fmap (lookup_from placed bases) (lookup_names children)). apply elem_of_all_lists.
  intros o Ho. apply list_elem_of_fmap in Ho as (n&->&_).
  destruct (lookup_from placed bases n) as [c|] eqn:E; [|by left]. right. apply list_elem_of_fmap_2, elem_of_known_keys.
  by eapply lookup_from_known.
Qed.
Lemma item_weight_positive item : (0 < item_weight item)%nat.
Proof. unfold item_weight. assert (width ≠ 0)%nat by (unfold width; lia). pose proof (Nat.pow_nonzero width (S (size all_states) - size (pd_lineage item))). lia. Qed.
Lemma weight_app l k : weight (l ++ k) = (weight l + weight k)%nat.
Proof. unfold weight. rewrite fmap_app. by induction (item_weight <$> l) as [|w ws IH]; cbn; [|rewrite IH; lia]. Qed.
Lemma weight_const (l : list pending_dependency) w : (∀ item, item ∈ l → item_weight item = w) → weight l = (length l * w)%nat.
Proof.
  induction l as [|i l IH]; intros H; [done|]. unfold weight in *. cbn. rewrite IH, H; [lia|by left|].
  intros; apply H. by right.
Qed.
(** The dependencies of a new state weigh less than the one that placed it. *)
Lemma descends_weight child bases item state (lineage := {[state]} ∪ pd_lineage item) :
  state ∈ all_states → state ∉ pd_lineage item → pd_lineage item ⊆ all_states →
  (weight ((λ d, mk_pending d bases lineage) <$> children_of children child) < item_weight item)%nat.
Proof.
  intros Hs Hn Hl. assert (size lineage = S (size (pd_lineage item))) as Hsize.
  { unfold lineage. rewrite size_union, size_singleton by set_solver. lia. }
  assert (size lineage ≤ size all_states)%nat as Hle by (apply subseteq_size; set_solver).
  rewrite (weight_const _ (width ^ (S (size all_states) - size lineage))).
  2: { by intros i (d&->&_)%list_elem_of_fmap. }
  rewrite length_fmap. unfold item_weight. pose proof (children_width child).
  replace (S (size all_states) - size (pd_lineage item))%nat with (S (S (size all_states) - size lineage)) by lia.
  rewrite Nat.pow_succ_r'. apply Nat.mul_lt_mono_pos_r; [|done].
  assert (width ^ (S (size all_states) - size lineage) ≠ 0)%nat; [apply Nat.pow_nonzero; unfold width|]; lia.
Qed.
Lemma bounded_enqueue child bases lineage s :
  bounded s → bases ≠ [] → lineage ⊆ all_states → bounded (enqueue children child bases lineage s).
Proof.
  intros [Hp Hi] Hb Hl. split; [done|]. cbn. intros item [Hit|Hit]%elem_of_app; [by apply Hi|].
  apply list_elem_of_fmap in Hit as (d&->&Hd). split_and!; [done| |done]. by eapply Hchildren.
Qed.
Lemma bounded_placed_state child target s :
  bounded s → is_Some (by_key !! child) → bounded (placed_state child target s).
Proof. intros [Hp Hi] Hc. split; [|done]. cbn. intros t c [[_ <-] | [_ H]]%lookup_insert_Some; [done|by eapply Hp]. Qed.
Lemma processed_bounded s item s' :
  bounded s → bounded_item item → processed s item s' →
  bounded s' ∧ (weight (pending s') < weight (pending s) + item_weight item)%nat.
Proof.
  intros Hs (Hb&Hc&Hl) [Hp|i base s1 Hi Hfree Hres Hd].
  { pose proof (item_weight_positive item). split; [destruct Hs as [H1 H2]; by split|]. cbn [pending]. lia. }
  set (target := name_in base (nd_name (pd_dependency item))) in *.
  pose proof (bounded_placed_state _ target _ Hs Hc) as Hs1.
  destruct Hd as [Hnew|_].
  - pose proof (state_of_bounded _ _ (take (S i) (pd_bases item) ++ [node_modules target]) Hc (bounded_placed _ Hs1)) as Hst.
    split; [apply bounded_enqueue; [done|by destruct (take _ _)|set_solver]|].
    cbn [pending enqueue placed_state]. rewrite weight_app. apply Nat.add_lt_mono_l. by apply descends_weight.
  - split; [done|]. pose proof (item_weight_positive item). cbn [pending placed_state]. lia.
Qed.
Lemma layout_loop_terminates fuel s :
  bounded s → (weight (pending s) ≤ fuel)%nat →
  ∃ r, layout_loop root kind reserved storage children fuel s = Some r ∧ r ≠ Err PlanPanics.
Proof.
  revert s. induction fuel as [|fuel IH]; intros [p a re pe] Hs Hw; destruct pe as [|item rest]; cbn [layout_loop pending];
    [by eexists| |by eexists|].
  { cbn in Hw. pose proof (item_weight_positive item). unfold weight in Hw. cbn in Hw. lia. }
  destruct (bounded_pending _ Hs item) as (Hb&Hc&Hl); [by left|].
  destruct (process_spec (mk_layout_state p a re rest) item Hb Hc) as [(s'&E&Hproc)|(e&E&He)]; cbn [placements activation reachable]; rewrite E.
  - assert (bounded (mk_layout_state p a re rest)) as Hrest.
    { destruct Hs as [H1 H2]. split; [done|]. intros; apply H2. by right. }
    destruct (processed_bounded _ _ _ Hrest (conj Hb (conj Hc Hl)) Hproc) as [Hs' Hlt]. apply IH; [done|].
    unfold weight in Hw, Hlt. cbn in Hw, Hlt. unfold weight. lia.
  - eexists. split; [done|]. by intros [= ->].
Qed.
Lemma layout_loop_more fuel fuel' s r :
  layout_loop root kind reserved storage children fuel s = Some r → (fuel ≤ fuel')%nat →
  layout_loop root kind reserved storage children fuel' s = Some r.
Proof.
  revert fuel' s. induction fuel as [|fuel IH]; intros fuel' s; destruct fuel' as [|fuel']; cbn [layout_loop];
    (destruct (pending s) as [|item rest]; [done|]); [done..|lia|].
  destruct (process _ _ _ _ _ _ _) as [s'|e]; [|done]. intros H Hle. apply IH; [done|lia].
Qed.
End planner.
