(* ===== verification/LayoutSound.v ===== *)
(** * Planned layouts are complete, contained and free of conflicts

    The invariant of the planner's loop and the theorems about finished plans. *)
From S2P Require Import Prelude Order RustStr Crates Samples Core Layout LayoutInv LayoutPlan.

(** The [node_modules] directories that a package's resolution visits, outermost first. *)
Inductive directories (root : ManagedRoot) : list path → Prop :=
| directories_root : directories root [root_base root]
| directories_in bases base n :
    directories root (bases ++ [base]) → valid_name (name_str n) →
    directories root (bases ++ [base; node_modules (name_in base n)]).
Definition below (root : ManagedRoot) (p : path) : Prop := ∃ q, Forall normal q ∧ p = root_base root ++ q.

Lemma cons_snoc_app {A} (l : list A) x y : l ++ [x; y] = (l ++ [x]) ++ [y].
Proof. by rewrite <-app_assoc. Qed.
Lemma directories_take root bases i base :
  directories root bases → bases !! i = Some base → directories root (take i bases ++ [base]).
Proof.
  intros Hd Hi. revert i base Hi. induction Hd as [|bases b n Hd IH Hn]; intros i base Hi.
  - destruct i; [|done]. injection Hi as <-. constructor.
  - rewrite cons_snoc_app in *. apply lookup_app_Some in Hi as [Hi|[Hle Hi]].
    + rewrite take_app_le; [by apply IH|]. apply lookup_lt_Some in Hi. lia.
    + destruct (i - length (bases ++ [b]))%nat eqn:E; [|done]. injection Hi as <-.
      rewrite take_app_le by lia. rewrite take_ge by lia. rewrite <-cons_snoc_app. by constructor.
Qed.

Section paths.
Context (root : ManagedRoot) (Habs : is_absolute (mr_path root) = true).
Context (Hnodot : has_parent_dir (mr_path root) = false).
Lemma mr_path_nonempty : mr_path root ≠ [].
Proof. by destruct (mr_path root). Qed.
Lemma root_base_app : root_base root = mr_path root ++ [Normal "node_modules"].
Proof. apply join_name_app, mr_path_nonempty. Qed.
Lemma below_ends p : below root p → p ≠ [].
Proof. intros (q&_&->). rewrite root_base_app. by destruct (mr_path root). Qed.
Lemma below_name base n : below root base → valid_name (name_str n) → below root (name_in base n).
Proof.
  intros Hb Hn. rewrite name_in_app by (done || by apply below_ends). destruct Hb as (q&Hq&->).
  exists (q ++ package_name_path (name_str n)). rewrite app_assoc. split; [|done].
  apply Forall_app. split; [done|]. by apply name_path_normal.
Qed.
Lemma below_node_modules p : below root p → below root (node_modules p).
Proof.
  intros Hb. unfold node_modules. rewrite join_name_app by (by apply below_ends). destruct Hb as (q&Hq&->).
  exists (q ++ [Normal "node_modules"]). rewrite app_assoc. split; [|done]. apply Forall_app. split; [done|by constructor].
Qed.
Lemma directories_spec bases base : directories root bases → base ∈ bases → below root base ∧ ends_node_modules base.
Proof.
  intros Hd. revert base. induction Hd as [|bases b n Hd IH Hn]; intros base Hb.
  - apply list_elem_of_singleton in Hb as ->. split; [by exists []; rewrite app_nil_r|].
    apply ends_node_modules_of, mr_path_nonempty.
  - rewrite cons_snoc_app in Hb. apply elem_of_app in Hb as [Hb|Hb]; [by apply IH|].
    apply list_elem_of_singleton in Hb as ->.
    destruct (IH b) as [Hbelow _]; [set_solver|]. pose proof (below_name _ _ Hbelow Hn) as Ht.
    split; [by apply below_node_modules|]. apply ends_node_modules_of. by apply below_ends.
Qed.
Lemma below_contained p : below root p → root_contains root p = true.
Proof.
  intros (q&Hq&->). rewrite root_base_app, <-app_assoc. apply root_contains_app; [done..|]. by constructor.
Qed.
End paths.

Section sound.
Context `{SV : Semver} `{SH : Sha256}.
Context (root : ManagedRoot) (kind : LinkKind) (reserved : gset path) (roots : list NamedDependency).
Context (by_key : gmap InstanceKey PackageInstance) (storage : gmap InstanceKey path) (children : Children).
Implicit Types (s : layout_state) (item : pending_dependency) (placed : gmap path InstanceKey).
Definition wanted (d : NamedDependency) : Prop := d ∈ roots ∨ ∃ k, d ∈ children_of children k.
Context (Hchildren : ∀ k d, d ∈ children_of children k → is_Some (by_key !! nd_child d)).
Context (Hstorage : ∀ k, is_Some (by_key !! k) → storage !! k = Some (instance_path root k)).
Context (Hnames : ∀ d, wanted d → valid_name (name_str (nd_name d))).

Definition step_of (tc : path * InstanceKey) : ActivationStep := mk_step kind (instance_path root tc.2) tc.1.
Definition awaited (items : list pending_dependency) (bases : list path) (d : NamedDependency) : Prop :=
  ∃ item, item ∈ items ∧ pd_dependency item = d ∧ pd_bases item = bases.
Definition placed_well s (target : path) (child : InstanceKey) : Prop := ∃ bases base n,
  directories root (bases ++ [base]) ∧ target = name_in base n ∧ wanted (mk_named n child) ∧
  target ∉ reserved ∧ is_Some (by_key !! child) ∧
  ∀ d, d ∈ children_of children child →
    provided (placements s) (bases ++ [base; node_modules target]) d ∨
    awaited (pending s) (bases ++ [base; node_modules target]) d.
Record sound s : Prop := {
  sound_placed target child : placements s !! target = Some child → placed_well s target child;
  sound_steps : activation s ≡ₚ step_of <$> map_to_list (placements s);
  sound_reachable child : child ∈ reachable s → ∃ target, placements s !! target = Some child;
  sound_pending item : item ∈ pending s → directories root (pd_bases item) ∧ ∃ k, pd_dependency item ∈ children_of children k;
}.
Lemma provided_mono placed placed' bases d : placed ⊆ placed' → provided placed bases d → provided placed' bases d.
Proof. intros Hsub (b&Hb&Hp). exists b. split; [done|]. by eapply lookup_weaken. Qed.
Lemma placed_well_mono s s' target child :
  placements s ⊆ placements s' →
  (∀ bases d, awaited (pending s) bases d → awaited (pending s') bases d ∨ provided (placements s') bases d) →
  placed_well s target child → placed_well s' target child.
Proof.
  intros Hsub Haw (bases&base&n&Hd&Ht&Hw&Hr&Hk&Hc). exists bases, base, n. split_and!; [done..|].
  intros d Hdc. destruct (Hc d Hdc) as [Hp|[?|?]%Haw]; [left; by eapply provided_mono|by right|by left].
Qed.
(** A pending dependency that is provided may be dropped. *)
Lemma sound_drop p a re item rest :
  sound (mk_layout_state p a re (item :: rest)) → provided p (pd_bases item) (pd_dependency item) →
  sound (mk_layout_state p a re rest).
Proof.
  intros [H1 H2 H3 H4] Hp. split; cbn in *; [|done..|].
  - intros target child Ht. eapply placed_well_mono; [| |by apply H1]; [done|]. cbn.
    intros bases d (i&[->|Hi]%elem_of_cons&<-&<-); [by right|left; by exists i].
  - intros i Hi. apply H4. by right.
Qed.
Lemma lookup_from_provided placed bases d :
  lookup_from placed bases (nd_name d) = Some (nd_child d) → provided placed bases d.
Proof.
  unfold lookup_from. intros H. apply head_Some_elem_of, list_elem_of_omap in H as (base&Hb&Hp).
  exists base. split; [|done]. apply list_elem_of_In, in_rev. by apply list_elem_of_In.
Qed.
(** [s'] places [child] at [target]; its dependencies are found from [bases] or pending. *)
Definition extends s (child : InstanceKey) (target : path) (bases : list path) s' : Prop :=
  placements s' = <[target := child]> (placements s) ∧ activation s' = activation s ++ [step_of (target, child)] ∧
  reachable s' = {[child]} ∪ reachable s ∧ ∃ new, pending s' = pending s ++ new ∧
  (∀ item, item ∈ new → pd_bases item = bases ∧ pd_dependency item ∈ children_of children child) ∧
  ∀ d, d ∈ children_of children child → provided (<[target := child]> (placements s)) bases d ∨ awaited new bases d.
Lemma enqueue_extends s child target bases lineage :
  extends s child target bases (enqueue children child bases lineage (placed_state root kind child target s)).
Proof.
  split_and!; [done..|]. eexists. split; [done|]. split; [by intros item (d&->&Hdc)%list_elem_of_fmap|].
  intros d Hdc. right. eexists. split; [by apply list_elem_of_fmap_2|done].
Qed.
Lemma descends_extends s s' child target bases lineage :
  descends children child bases lineage (placed_state root kind child target s) s' → extends s child target bases s'.
Proof.
  intros [_|Hknown]; [apply enqueue_extends|]. split_and!; [done..|].
  exists []. split; [by rewrite app_nil_r|]. split; [by intros ? ?%not_elem_of_nil|].
  intros d Hdc. left. by apply lookup_from_provided, Hknown.
Qed.
Lemma sound_place s s' child n base bases (target := name_in base n) :
  sound s → directories root (bases ++ [base]) → wanted (mk_named n child) → is_Some (by_key !! child) →
  placements s !! target = None → target ∉ reserved →
  extends s child target (bases ++ [base; node_modules target]) s' → sound s'.
Proof.
  intros [H1 H2 H3 H4] Hd Hw Hk Hfree Hres (Ep&Ea&Er&new&En&Hitems&Hnew).
  assert (placements s ⊆ <[target := child]> (placements s)) as Hsub by (by apply insert_subseteq).
  split; rewrite ?Ep, ?Ea, ?Er, ?En.
  - intros t c [[<- <-] | [_ Ht]]%lookup_insert_Some.
    + exists bases, base, n. split_and!; [done..|]. intros d Hdc. rewrite Ep, En.
      destruct (Hnew d Hdc) as [Hp|(i&Hi&?)]; [by left|right]. exists i. split; [|done]. apply elem_of_app. by right.
    + apply (placed_well_mono s); [by rewrite Ep| |by apply H1]. intros bs d (i&Hi&?). left. exists i. rewrite En.
      split; [|done]. apply elem_of_app. by left.
  - rewrite map_to_list_insert by done. rewrite fmap_cons, H2. by rewrite Permutation_app_comm.
  - intros c [->%elem_of_singleton|Hc]%elem_of_union; [exists target; by apply lookup_insert_eq|].
    destruct (H3 c Hc) as [t Ht]. exists t. by eapply lookup_weaken.
  - intros i [Hi|Hi]%elem_of_app; [by apply H4|]. destruct (Hitems i Hi) as [-> Hdc]. split; [|by exists child].
    apply (directories_in root); [done|]. exact (Hnames _ Hw).
Qed.
Lemma descends_later child bases lineage target p a re rest s' :
  descends children child bases lineage (placed_state root kind child target (mk_layout_state p a re rest)) s' → ∀ item,
  descends children child bases lineage (placed_state root kind child target (mk_layout_state p a re (item :: rest)))
    (mk_layout_state (placements s') (activation s') (reachable s') (item :: pending s')).
Proof. intros [H|H] item; [by constructor|by apply descends_known]. Qed.
Lemma processed_sound p a re item rest s' :
  sound (mk_layout_state p a re (item :: rest)) →
  processed root kind reserved children (mk_layout_state p a re rest) item s' →
  sound s' ∧ p ⊆ placements s'.
Proof.
  intros Hs Hp. destruct (sound_pending _ Hs item) as [Hd [k Hk]]; [by left|].
  destruct Hp as [Hp|i base s2 Hi Hfree Hres Hdesc].
  - split; [|done]. pose proof (sound_drop _ _ _ _ _ Hs Hp) as [H1 H2 H3 H4]. cbn in *. split; [done|done| |done].
    cbn. intros c [->%elem_of_singleton|Hc]%elem_of_union; [|by apply H3]. destruct Hp as (b&_&Hb). by eexists.
  - set (s0 := mk_layout_state p a re (item :: rest)) in *. set (target := name_in base (nd_name (pd_dependency item))) in *.
    assert (directories root (take i (pd_bases item) ++ [base])) as Hdir by (by apply directories_take).
    assert (wanted (mk_named (nd_name (pd_dependency item)) (nd_child (pd_dependency item)))) as Hw.
    { right. exists k. by destruct (pd_dependency item). }
    erewrite take_S_r in Hdesc by done. rewrite <-cons_snoc_app in Hdesc.
    pose proof (descends_later _ _ _ _ _ _ _ _ _ Hdesc item) as Hdesc'.
    pose proof (sound_place s0 _ _ _ base (take i (pd_bases item)) Hs Hdir Hw (Hchildren _ _ Hk) Hfree Hres (descends_extends _ _ _ _ _ _ Hdesc')) as Hs'.
    assert (placements s2 = <[target := nd_child (pd_dependency item)]> p) as Ep by (by destruct Hdesc).
    split; [|rewrite Ep; by apply insert_subseteq]. destruct s2 as [p' a' re' pe']. cbn in Ep. subst p'.
    eapply sound_drop; [exact Hs'|]. exists base. split; [by eapply list_elem_of_lookup_2|]. apply lookup_insert_eq.
Qed.
Lemma layout_loop_sound fuel s s' :
  bounded by_key children s → sound s →
  layout_loop root kind reserved storage children fuel s = Some (Ok s') →
  sound s' ∧ placements s ⊆ placements s' ∧ pending s' = [].
Proof.
  revert s. induction fuel as [|fuel IH]; intros [p a re pe] Hb Hs; destruct pe as [|item rest]; cbn [layout_loop pending];
    [by intros [= <-]|done|by intros [= <-]|].
  destruct (bounded_pending _ _ _ Hb item) as (Hbs&Hc&Hl); [by left|]. cbn [placements activation reachable].
  destruct (process_spec root kind reserved by_key storage children Hstorage (mk_layout_state p a re rest) item Hbs Hc)
    as [(s1&E&Hproc)|(e&E&_)]; rewrite E; [|done]. intros Hloop.
  assert (bounded by_key children (mk_layout_state p a re rest)) as Hrest.
  { destruct Hb as [H1 H2]. split; [done|]. intros; apply H2. by right. }
  destruct (processed_bounded root kind reserved by_key storage children Hchildren Hstorage _ _ _ Hrest (conj Hbs (conj Hc Hl)) Hproc) as [Hb1 _].
  destruct (processed_sound _ _ _ _ _ _ Hs Hproc) as [Hs1 Hsub].
  destruct (IH s1 Hb1 Hs1 Hloop) as (?&?&?). split_and!; [done| |done]. by etrans.
Qed.
Lemma place_root_cases s d s' (target := name_in (root_base root) (nd_name d)) (child := nd_child d) :
  place_root root kind reserved by_key storage children s d = Ok s' →
  (s' = s ∧ placements s !! target = Some child) ∨
  (is_Some (by_key !! child) ∧ target ∉ reserved ∧ placements s !! target = None ∧
   s' = enqueue children child [root_base root; node_modules target] ∅ (placed_state root kind child target s)).
Proof.
  unfold place_root, contains_key. destruct (by_key !! nd_child d) as [i|] eqn:Ek; [|done].
  cbn [negb]. case_bool_decide as Hres; [done|]. destruct (placements s !! _) as [existing|] eqn:Et.
  { case_bool_decide as He; [|done]. intros [= <-]. subst. by left. }
  rewrite (place_Ok root kind by_key storage Hstorage) by (by eexists). cbn [mbind result_bind]. intros [= <-].
  right. split_and!; [by eexists|done..].
Qed.
Lemma place_root_bounded s d s' :
  bounded by_key children s → place_root root kind reserved by_key storage children s d = Ok s' →
  bounded by_key children s' ∧ placements s ⊆ placements s' ∧
  placements s' !! name_in (root_base root) (nd_name d) = Some (nd_child d).
Proof.
  intros Hb [[-> Hp]|(Hk&Hres&Hfree&->)]%place_root_cases; [by split_and!|]. split_and!.
  - apply (bounded_enqueue by_key children Hchildren); [|done|apply empty_subseteq]. by apply bounded_placed_state.
  - by apply insert_subseteq.
  - apply lookup_insert_eq.
Qed.
Lemma place_root_sound s d s' :
  d ∈ roots → sound s → place_root root kind reserved by_key storage children s d = Ok s' → sound s'.
Proof.
  intros Hd Hs [[-> Hp]|(Hk&Hres&Hfree&->)]%place_root_cases; [done|].
  apply (sound_place s _ (nd_child d) (nd_name d) (root_base root) []); [done|constructor|left; by destruct d|done..|].
  apply enqueue_extends.
Qed.
Lemma empty_layout_sound : bounded by_key children empty_layout ∧ sound empty_layout.
Proof. clear Hchildren Hstorage Hnames storage. split; split; cbn; try done; set_solver. Qed.
End sound.

(** ** What the planner prepares *)
Section prepared.
Context `{SV : Semver} `{SH : Sha256}.
Context (root : ManagedRoot).
Definition entry_of (i : PackageInstance) : MaterializationEntry :=
  mk_materialization (pi_id i) (PeerContext_display (pi_peer i)) (PlatformContext_display (pi_platform i))
    (tr_root (pi_tree i)) (instance_path root (key_of i)).
Definition wanted_in (input : NamedLayoutInput) (d : NamedDependency) : Prop :=
  d ∈ nl_roots input ∨ ∃ k, mk_named_edge k d ∈ nl_edges input.
Definition valid_names (input : NamedLayoutInput) : Prop := ∀ d, wanted_in input d → valid_name (name_str (nd_name d)).
Definition child_of_edges (edges : list NamedDependencyEdge) (children : Children) : Prop :=
  ∀ k d, d ∈ children_of children k ↔ mk_named_edge k d ∈ edges.
Lemma index_instances_Ok l by_key :
  try_fold index_instance ∅ l = Ok by_key →
  NoDup (key_of <$> l) ∧ ∀ k, is_Some (by_key !! k) ↔ k ∈ key_of <$> l.
Proof.
  apply (try_fold_prefix (λ pre by_key, NoDup (key_of <$> pre) ∧ ∀ k, is_Some (by_key !! k) ↔ k ∈ key_of <$> pre)).
  - intros pre i post s s' _ [Hnd Hs] Hi. unfold index_instance, contains_key in Hi.
    destruct (s !! key_of i) eqn:E; [done|]. injection Hi as <-. rewrite fmap_app. split.
    + apply NoDup_app. split_and!; [done| |apply NoDup_singleton]. intros k Hk Hk'%list_elem_of_singleton. subst.
      apply Hs in Hk as [? ?]. by rewrite E in H.
    + intros k. rewrite elem_of_app, <-Hs. cbn. rewrite list_elem_of_singleton. destruct (decide (key_of i = k)) as [<-|Hk].
      * rewrite lookup_insert_eq. naive_solver.
      * rewrite lookup_insert_ne by done. naive_solver.
  - split; [constructor|]. intros k. rewrite lookup_empty. split; [by intros []|by intros ?%not_elem_of_nil].
Qed.
Lemma store_instances_Ok l entries storage :
  try_fold (store_instance root) ([], ∅) l = Ok (entries, storage) →
  entries = entry_of <$> l ∧ ∀ k, k ∈ key_of <$> l → storage !! k = Some (instance_path root k).
Proof.
  intros H. apply (try_fold_prefix (λ pre es, es.1 = entry_of <$> pre ∧ ∀ k, k ∈ key_of <$> pre → es.2 !! k = Some (instance_path root k))
    _ _ _ _) in H; [done| |split; [done|by intros k ?%not_elem_of_nil]].
  intros pre i post [es st] s' _ [He Hst] Hi. cbn in *. unfold store_instance, entry_for in Hi.
  destruct (negb _); [done|]. injection Hi as <-. cbn. rewrite !fmap_app, He. split; [done|].
  intros k [Hk|Hk%list_elem_of_singleton]%elem_of_app; [|subst; apply lookup_insert_eq].
  destruct (decide (key_of i = k)) as [<-|Hne]; [apply lookup_insert_eq|]. rewrite lookup_insert_ne by done. by apply Hst.
Qed.
Lemma add_edges_Ok by_key edges children :
  try_fold (add_edge by_key) ∅ edges = Ok children →
  child_of_edges edges children ∧ (∀ k, is_Some (children !! k) ↔ ∃ d, mk_named_edge k d ∈ edges) ∧
  ∀ e, e ∈ edges → is_Some (by_key !! ne_parent e) ∧ is_Some (by_key !! nd_child (ne_dependency e)).
Proof.
  apply (try_fold_prefix (λ edges children, child_of_edges edges children ∧
    (∀ k, is_Some (children !! k) ↔ ∃ d, mk_named_edge k d ∈ edges) ∧
    ∀ e, e ∈ edges → is_Some (by_key !! ne_parent e) ∧ is_Some (by_key !! nd_child (ne_dependency e)))).
  - intros pre e post s s' _ (H1&H2&H3) He. unfold add_edge, contains_key in He.
    destruct (by_key !! ne_parent e) eqn:Ep; [|done]. destruct (by_key !! nd_child (ne_dependency e)) eqn:Ec; [|done].
    injection He as <-. destruct e as [parent d]. cbn [ne_parent ne_dependency] in *. split_and!.
    + intros k d'. rewrite elem_of_app, list_elem_of_singleton, <-(H1 k d' : _ ↔ _). unfold children_of.
      destruct (decide (parent = k)) as [<-|Hk].
      * rewrite lookup_insert_eq. cbn. rewrite elem_of_app, list_elem_of_singleton. naive_solver.
      * rewrite lookup_insert_ne by done. naive_solver.
    + intros k. setoid_rewrite elem_of_app. setoid_rewrite list_elem_of_singleton.
      destruct (decide (parent = k)) as [<-|Hk].
      * rewrite lookup_insert_eq. naive_solver.
      * rewrite lookup_insert_ne by done. rewrite H2. naive_solver.
    + intros e [He | ->%list_elem_of_singleton]%elem_of_app; [by apply H3|]. cbn. by rewrite Ep, Ec.
  - split_and!; [|intros k; rewrite lookup_empty|by intros ? ?%not_elem_of_nil].
    + intros k d. unfold children_of. rewrite lookup_empty. cbn. by rewrite !elem_of_nil.
    + split; [by intros []|by intros [? ?%not_elem_of_nil]].
Qed.
Lemma children_of_sorted children k d : d ∈ children_of (sorted_children children) k ↔ d ∈ children_of children k.
Proof.
  unfold children_of, sorted_children. rewrite lookup_fmap. destruct (children !! k) as [l|]; cbn; [|done].
  apply elem_of_sort_dedup.
Qed.
End prepared.

(** ** The whole plan *)
Section plans.
Context `{SV : Semver} `{SH : Sha256}.
Context (root : ManagedRoot) (input : NamedLayoutInput) (platform : Platform) (reserved : gset path).
Definition keys : list InstanceKey := key_of <$> nl_instances input.
Definition planned_entries : list MaterializationEntry := entry_of root <$> sort_by key_of (nl_instances input).
(** What holds when the loop starts. *)
Record ready (kind : LinkKind) (by_key : gmap InstanceKey PackageInstance) (storage : gmap InstanceKey path)
    (children : Children) (s : layout_state) : Prop := {
  ready_kind : link_kind platform = Ok kind;
  ready_keys : NoDup keys;
  ready_by_key k : is_Some (by_key !! k) ↔ k ∈ keys;
  ready_storage k : is_Some (by_key !! k) → storage !! k = Some (instance_path root k);
  ready_children : child_of_edges (nl_edges input) children;
  ready_parents k : is_Some (children !! k) ↔ ∃ d, mk_named_edge k d ∈ nl_edges input;
  ready_known k d : d ∈ children_of children k → is_Some (by_key !! nd_child d);
  ready_bounded : bounded by_key children s;
  ready_sound : valid_names input → sound root kind reserved (nl_roots input) by_key children s;
  ready_roots d : d ∈ nl_roots input → placements s !! name_in (root_base root) (nd_name d) = Some (nd_child d);
}.
Lemma link_kind_no_panic e : link_kind platform = Err e → e ≠ PlanPanics.
Proof. by destruct platform; intros [= <-]. Qed.
Lemma index_instance_no_panic s i e : index_instance s i = Err e → e ≠ PlanPanics.
Proof. unfold index_instance. destruct (contains_key _ _); by intros [= <-]. Qed.
Lemma store_instance_no_panic s i e : store_instance root s i = Err e → e ≠ PlanPanics.
Proof. destruct s. unfold store_instance, entry_for. destruct (negb _); by intros [= <-]. Qed.
Lemma add_edge_no_panic by_key s x e : add_edge by_key s x = Err e → e ≠ PlanPanics.
Proof. unfold add_edge. destruct (negb _); [by intros [= <-]|]. destruct (negb _); by intros [= <-]. Qed.
Lemma place_root_no_panic kind by_key storage children s d e :
  (∀ k, is_Some (by_key !! k) → storage !! k = Some (instance_path root k)) →
  place_root root kind reserved by_key storage children s d = Err e → e ≠ PlanPanics.
Proof.
  intros Hst. unfold place_root, contains_key. destruct (by_key !! nd_child d) eqn:E; cbn [negb]; [|by intros [= <-]].
  case_bool_decide; [by intros [= <-]|]. destruct (placements s !! _).
  - case_bool_decide; by intros [= <-].
  - rewrite (place_Ok root kind by_key storage Hst) by (by rewrite E). done.
Qed.
Lemma wanted_edges children d :
  child_of_edges (nl_edges input) children → wanted (nl_roots input) children d ↔ wanted_in input d.
Proof. intros Hc. unfold wanted, wanted_in. by setoid_rewrite (Hc _ d : _ ↔ _). Qed.
Lemma ready_after_roots kind by_key storage children s :
  link_kind platform = Ok kind → NoDup keys → (∀ k, is_Some (by_key !! k) ↔ k ∈ keys) →
  (∀ k, is_Some (by_key !! k) → storage !! k = Some (instance_path root k)) →
  child_of_edges (nl_edges input) children →
  (∀ k, is_Some (children !! k) ↔ ∃ d, mk_named_edge k d ∈ nl_edges input) →
  (∀ k d, d ∈ children_of children k → is_Some (by_key !! nd_child d)) →
  try_fold (place_root root kind reserved by_key storage children) empty_layout (dedup (sort (nl_roots input))) = Ok s →
  ready kind by_key storage children s.
Proof.
  intros Hk Hnd Hkeys Hst Hc Hp Hch Hfold.
  assert ((bounded by_key children s ∧ (valid_names input → sound root kind reserved (nl_roots input) by_key children s)) ∧
    placements empty_layout ⊆ placements s ∧
    ∀ d, d ∈ dedup (sort (nl_roots input)) → placements s !! name_in (root_base root) (nd_name d) = Some (nd_child d))
    as ((Hb&Hs)&_&Hr).
  { refine (try_fold_handled (λ s, bounded by_key children s ∧ (valid_names input → sound root kind reserved (nl_roots input) by_key children s))
      (λ s s', placements s ⊆ placements s')
      (λ d s, placements s !! name_in (root_base root) (nd_name d) = Some (nd_child d)) _ _ _ _ _ _ _ Hfold).
    - split; [by intros ?|intros x y z; apply transitivity].
    - intros s1 d s2 Hd [Hb Hs] H. rewrite elem_of_sort_dedup in Hd.
      destruct (place_root_bounded root kind reserved by_key storage children Hch Hst _ _ _ Hb H) as (?&?&?).
      split_and!; [done| |done..]. intros Hn.
      assert (∀ d, wanted (nl_roots input) children d → valid_name (name_str (nd_name d))) as Hnames.
      { intros d' Hw. by apply Hn, (wanted_edges children). }
      by apply (place_root_sound root kind reserved (nl_roots input) by_key storage children Hst Hnames s1 d s2 Hd (Hs Hn)).
    - intros s1 s2 d Hsub Hd. by eapply lookup_weaken.
    - destruct (empty_layout_sound root kind reserved (nl_roots input) by_key children). done. }
  split; try done. intros d Hd. by apply Hr, elem_of_sort_dedup.
Qed.
Lemma plan_inner_cases :
  (∃ e, e ≠ PlanPanics ∧ ∀ fuel, plan_named_layout_inner fuel root input platform reserved = Some (Err e)) ∨
  ∃ kind by_key storage children s, ready kind by_key storage children s ∧
    ∀ fuel, plan_named_layout_inner fuel root input platform reserved =
      s ← layout_loop root kind reserved storage children fuel s;
      Some (s ← s; finish root children planned_entries s).
Proof.
  unfold plan_named_layout_inner. set (instances := sort_by key_of (nl_instances input)).
  assert (∀ k, k ∈ key_of <$> instances ↔ k ∈ keys) as Hperm by (intros k; unfold instances, keys; by rewrite sort_by_perm).
  destruct (link_kind platform) as [kind|e] eqn:Ek; [|left; exists e; split; [by apply link_kind_no_panic|done]]. cbn [run_layout].
  destruct (try_fold index_instance ∅ instances) as [by_key|e] eqn:Ei; cbn [run_layout].
  2: { left. exists e. split; [|done]. apply try_fold_Err in Ei as (?&?&_&Ei). by eapply index_instance_no_panic. }
  destruct (try_fold (store_instance root) ([], ∅) instances) as [[entries storage]|e] eqn:Es; cbn [run_layout].
  2: { left. exists e. split; [|done]. apply try_fold_Err in Es as (?&?&_&Es). by eapply store_instance_no_panic. }
  destruct (try_fold (add_edge by_key) ∅ (sort (nl_edges input))) as [children|e] eqn:Ec; cbn [run_layout].
  2: { left. exists e. split; [|done]. apply try_fold_Err in Ec as (?&?&_&Ec). by eapply add_edge_no_panic. }
  apply index_instances_Ok in Ei as [Hnd Hkeys]. apply store_instances_Ok in Es as [-> Hst].
  apply add_edges_Ok in Ec as (Hc&Hp&Hk). set (sorted := sorted_children children) in *.
  assert (∀ k, is_Some (by_key !! k) → storage !! k = Some (instance_path root k)) as Hstorage by (intros k Hsk; by apply Hst, Hkeys).
  assert (child_of_edges (nl_edges input) sorted) as Hsorted.
  { intros k d. unfold sorted. rewrite children_of_sorted, (Hc k d : _ ↔ _). by rewrite sort_perm. }
  assert (∀ k d, d ∈ children_of sorted k → is_Some (by_key !! nd_child d)) as Hchildren.
  { intros k d Hd. apply Hsorted in Hd. rewrite <-(sort_perm (nl_edges input)) in Hd. by apply Hk in Hd as [_ ?]. }
  destruct (try_fold (place_root root kind reserved by_key storage sorted) empty_layout (dedup (sort (nl_roots input))))
    as [s|e] eqn:Er; cbn [run_layout].
  2: { left. exists e. split; [|done]. apply try_fold_Err in Er as (?&?&_&Er). by eapply place_root_no_panic. }
  right. exists kind, by_key, storage, sorted, s. split; [|done].
  apply ready_after_roots; [done|unfold keys; by rewrite <-(sort_by_perm key_of (nl_instances input))|by intros k; rewrite Hkeys|done..| |done|done].
  intros k. unfold sorted, sorted_children. rewrite lookup_fmap, fmap_is_Some, Hp. by setoid_rewrite (sort_perm (nl_edges input)).
Qed.
End plans.
