(* ===== verification/LayoutThm.v ===== *)
(** * Theorems about planned layouts

    Planning ends, a finished plan is complete, contained and free of conflicts, and the
    links of a workspace keep their places.  The examples at the end are layouts in which
    a dependency resolves to another version, or two instances share a directory. *)
From S2P Require Import Prelude Order RustStr Crates Samples Core Layout LayoutInv LayoutPlan LayoutSound.

Section theorems.
Context `{SV : Semver} `{SH : Sha256}.
Lemma ManagedRoot_new_Ok p root : ManagedRoot_new p = Ok root →
  mr_path root = p ∧ is_absolute (mr_path root) = true ∧ has_parent_dir (mr_path root) = false.
Proof.
  unfold ManagedRoot_new. destruct (negb _ || _) eqn:E; [done|]. intros [= <-]. cbn.
  apply orb_false_iff in E as [?%negb_false_iff ?]. done.
Qed.
Lemma finish_Ok root children entries s plan :
  finish root children entries s = Ok plan →
  (∀ k, is_Some (children !! k) → k ∈ reachable s) ∧
  plan = mk_plan root (mr_marker root) entries (sort_by as_target (activation s)).
Proof.
  unfold finish. destruct (base.filter _ _) as [|k l] eqn:E; [|done]. intros [= <-]. split; [|done].
  intros k Hk. destruct (decide (k ∈ reachable s)) as [|Hn]; [done|]. exfalso.
  assert (k ∈ base.filter (λ parent, parent ∉ reachable s) (btree_keys children)) as H; [|by rewrite E in H; apply not_elem_of_nil in H].
  apply list_elem_of_filter. split; [done|]. by apply elem_of_btree_keys.
Qed.

(** Planning a layout ends, whatever the input: from some fuel on the planner returns the
    same plan or error, and none of its index operations panics. *)
Theorem plan_layout_terminates root input platform reserved : ∃ n r,
  r ≠ Err PlanPanics ∧ ∀ fuel, (n ≤ fuel)%nat → plan_named_layout_inner fuel root input platform reserved = Some r.
Proof.
  destruct (plan_inner_cases root input platform reserved) as [(e&He&Hrun)|(kind&by_key&storage&children&s&Hr&Hrun)].
  { exists O, (Err e). split; [by intros [= ->]|]. intros fuel _. apply Hrun. }
  destruct (layout_loop_terminates root kind reserved by_key storage children (ready_known _ _ _ _ _ _ _ _ _ Hr)
    (ready_storage _ _ _ _ _ _ _ _ _ Hr) (weight by_key children (pending s)) s (ready_bounded _ _ _ _ _ _ _ _ _ Hr) (le_n _))
    as (r&Hloop&Hnp).
  exists (weight by_key children (pending s)), (s ← r; finish root children (planned_entries root input) s). split.
  - destruct r as [s'|e]; cbn [mbind result_bind]; [|by intros [= ->]]. unfold finish. by destruct (base.filter _ _).
  - intros fuel Hle. rewrite Hrun. by rewrite (layout_loop_more _ _ _ _ _ _ _ _ _ Hloop Hle).
Qed.

(** No two wanted instances have this name. *)
Definition uncontested (input : NamedLayoutInput) (n : PackageName) : Prop :=
  ∀ d d', wanted_in input d → wanted_in input d' → nd_name d = n → nd_name d' = n → nd_child d = nd_child d'.
Lemma lookup_from_unique (placed : gmap path InstanceKey) bases d :
  provided placed bases d →
  (∀ base child, base ∈ bases → placed !! name_in base (nd_name d) = Some child → child = nd_child d) →
  lookup_from placed bases (nd_name d) = Some (nd_child d).
Proof.
  intros (base&Hb&Hp) Hall. unfold lookup_from.
  assert (nd_child d ∈ omap (λ base, placed !! name_in base (nd_name d)) (rev bases)) as Hin.
  { apply list_elem_of_omap. exists base. split; [|done]. apply list_elem_of_In, in_rev. rewrite rev_involutive. by apply list_elem_of_In. }
  destruct (omap _ _) as [|c l] eqn:E; [by apply not_elem_of_nil in Hin|]. cbn. f_equal.
  assert (c ∈ omap (λ base, placed !! name_in base (nd_name d)) (rev bases)) as Hc by (rewrite E; by left).
  apply list_elem_of_omap in Hc as (b&Hb'&Hc). apply (Hall b); [|done]. apply list_elem_of_In, in_rev. by apply list_elem_of_In.
Qed.

Section finished.
Context (p : path) (root : ManagedRoot) (fuel : nat) (input : NamedLayoutInput) (platform : Platform) (reserved : gset path).
Context (plan : MaterializationPlan).
Context (Hroot : ManagedRoot_new p = Ok root) (Hnames : valid_names input).
Context (Hplan : plan_named_layout_inner fuel root input platform reserved = Some (Ok plan)).
Lemma finished_plan : ∃ kind by_key storage children s0 s, ready root input platform reserved kind by_key storage children s0 ∧
  sound root kind reserved (nl_roots input) by_key children s ∧ pending s = [] ∧ placements s0 ⊆ placements s ∧
  (∀ k, is_Some (children !! k) → k ∈ reachable s) ∧
  plan = mk_plan root (mr_marker root) (planned_entries root input) (sort_by as_target (activation s)).
Proof.
  destruct (plan_inner_cases root input platform reserved) as [(e&He&Hrun)|(kind&by_key&storage&children&s0&Hr&Hrun)].
  { by rewrite Hrun in Hplan. }
  rewrite Hrun in Hplan. destruct (layout_loop _ _ _ _ _ _ _) as [[s|e]|] eqn:Hloop; [|done..]. cbn in Hplan.
  injection Hplan as Hf. apply finish_Ok in Hf as [Hreach Hp].
  exists kind, by_key, storage, children, s0, s. pose proof Hr as [H1 H2 H3 H4 H5 H6 H7 H8 H9 H10].
  assert (∀ d, wanted (nl_roots input) children d → valid_name (name_str (nd_name d))) as Hn.
  { intros d Hw. by apply Hnames, (wanted_edges input children). }
  destruct (layout_loop_sound root kind reserved (nl_roots input) by_key storage children H7 H4 Hn _ _ _ H8 (H9 Hnames) Hloop)
    as (?&?&?). split_and!; done.
Qed.
End finished.

(** C23: a finished plan is complete.  Its links are placements of instances: the direct
    dependencies sit in the root's node_modules under their names, every instance that has
    dependencies is placed, and each placement, in whichever directory, is a wanted one; all
    the dependencies of the instance placed there are found in the node_modules directories
    that its resolution visits, and a name wanted for one instance only resolves to it. *)
Theorem planned_layout_complete p root fuel input platform reserved plan :
  ManagedRoot_new p = Ok root → valid_names input →
  plan_named_layout_inner fuel root input platform reserved = Some (Ok plan) →
  ∃ kind placed, link_kind platform = Ok kind ∧
    mp_activation plan ≡ₚ step_of root kind <$> map_to_list placed ∧
    (∀ d, d ∈ nl_roots input → placed !! name_in (root_base root) (nd_name d) = Some (nd_child d)) ∧
    (∀ e, e ∈ nl_edges input → ∃ target, placed !! target = Some (ne_parent e)) ∧
    ∀ target child, placed !! target = Some child → ∃ bases base n,
      directories root (bases ++ [base]) ∧ target = name_in base n ∧ wanted_in input (mk_named n child) ∧
      ∀ d, mk_named_edge child d ∈ nl_edges input →
        provided placed (bases ++ [base; node_modules target]) d ∧
        (uncontested input (nd_name d) → lookup_from placed (bases ++ [base; node_modules target]) (nd_name d) = Some (nd_child d)).
Proof.
  intros Hroot Hnames Hplan. destruct (ManagedRoot_new_Ok _ _ Hroot) as (_&Habs&Hdot).
  destruct (finished_plan _ _ _ _ _ _ Hnames Hplan) as (kind&by_key&storage&children&s0&s&Hr&Hs&Hpend&Hsub&Hreach&->).
  pose proof (ready_children _ _ _ _ _ _ _ _ _ Hr) as Hc. exists kind, (placements s). split_and!.
  - by eapply ready_kind.
  - cbn [mp_activation]. rewrite sort_by_perm. by eapply sound_steps.
  - intros d Hd. eapply lookup_weaken; [|done]. by eapply ready_roots.
  - intros [k d] He. eapply sound_reachable; [done|]. apply Hreach, (ready_parents _ _ _ _ _ _ _ _ _ Hr). by exists d.
  - intros target child Ht. destruct (sound_placed _ _ _ _ _ _ _ Hs _ _ Ht) as (bases&base&n&Hd&Et&Hw&_&_&Hdeps).
    exists bases, base, n. split_and!; [done..|by apply (wanted_edges input children)|]. intros d He.
    destruct (Hdeps d) as [Hp|(i&Hi&_)]; [by apply Hc| |by rewrite Hpend in Hi; apply not_elem_of_nil in Hi].
    split; [done|]. intros Hu. apply lookup_from_unique; [done|]. intros b c Hb Hbc.
    destruct (sound_placed _ _ _ _ _ _ _ Hs _ _ Hbc) as (bs'&b'&n'&Hd'&En&Hw'&_). apply (wanted_edges input children _ Hc) in Hw, Hw'.
    assert (wanted_in input d) as Hwd by (right; by exists child).
    assert (directories root (bases ++ [base; node_modules target])) as Hdirs.
    { rewrite Et. apply directories_in; [done|]. by apply (Hnames _ Hw). }
    destruct (directories_spec root Habs Hdot _ _ Hdirs Hb) as [_ Hends].
    destruct (directories_spec root Habs Hdot _ b' Hd') as [_ Hends']; [apply elem_of_app; right; by left|].
    destruct (name_in_inj _ _ _ _ Hends Hends' (Hnames _ Hwd) (Hnames _ Hw') En) as [_ Hn].
    by apply (Hu (mk_named n' c) d).
Qed.
(** C24: a finished plan is safe.  Its entries store each instance of the input once, in the
    order of their keys; its links are of the platform's kind, have strictly ascending
    targets, each within the managed root and at no reserved path, and each is a link to the
    storage of an instance of the input. *)
Theorem planned_layout_safe p root fuel input platform reserved plan :
  ManagedRoot_new p = Ok root → valid_names input →
  plan_named_layout_inner fuel root input platform reserved = Some (Ok plan) →
  mp_root plan = root ∧ mp_entries plan = planned_entries root input ∧ NoDup (key_of <$> nl_instances input) ∧
  StronglySorted lt_of (as_target <$> mp_activation plan) ∧
  ∀ step, step ∈ mp_activation plan →
    link_kind platform = Ok (as_kind step) ∧ root_contains root (as_target step) = true ∧ as_target step ∉ reserved ∧
    ∃ i, i ∈ nl_instances input ∧ as_source step = me_target (entry_of root i).
Proof.
  intros Hroot Hnames Hplan. destruct (ManagedRoot_new_Ok _ _ Hroot) as (_&Habs&Hdot).
  destruct (finished_plan _ _ _ _ _ _ Hnames Hplan) as (kind&by_key&storage&children&s0&s&Hr&Hs&Hpend&Hsub&Hreach&->).
  cbn [mp_root mp_entries mp_activation]. split_and!; [done|done|by eapply ready_keys| |].
  - assert (NoDup (as_target <$> sort_by as_target (activation s))) as Hnd.
    { rewrite sort_by_perm, (sound_steps _ _ _ _ _ _ _ Hs), <-list_fmap_compose. apply NoDup_fst_map_to_list. }
    pose proof (sorted_by_strict as_target _ (sort_by_sorted as_target (activation s)) Hnd) as Hss. revert Hss. clear.
    generalize (sort_by as_target (activation s)). induction 1 as [|x l _ IH Hx]; cbn; constructor; [done|].
    by apply Forall_fmap.
  - intros step Hstep. rewrite sort_by_perm, (sound_steps _ _ _ _ _ _ _ Hs) in Hstep.
    apply list_elem_of_fmap in Hstep as ([target child]&->&Ht%elem_of_map_to_list). cbn.
    destruct (sound_placed _ _ _ _ _ _ _ Hs _ _ Ht) as (bases&base&n&Hd&->&Hw&Hres&Hk&_).
    split_and!; [by eapply ready_kind| |done|].
    + apply below_contained; [done..|]. apply below_name; [done|done| |].
      * apply (directories_spec root Habs Hdot _ _ Hd). apply elem_of_app. right. by left.
      * apply (Hnames (mk_named n child)). apply (wanted_edges input children); [by eapply ready_children|done].
    + apply (ready_by_key _ _ _ _ _ _ _ _ _ Hr) in Hk. apply list_elem_of_fmap in Hk as (i&->&Hi). by exists i.
Qed.

(** ** Workspace links *)
Lemma workspace_link_Ok project links targets package s' :
  is_absolute project = true →
  workspace_link project (links, targets) package = Ok s' →
  Forall normal (wk_root package) ∧ wk_root package ≠ [] ∧ name_in (node_modules project) (wk_name package) ∉ targets ∧
  s' = (links ++ [mk_link (wk_name package) (wk_version package) (project ++ wk_root package)
                    (name_in (node_modules project) (wk_name package))],
        {[name_in (node_modules project) (wk_name package)]} ∪ targets).
Proof.
  intros Habs H. unfold workspace_link in H. destruct (valid_relative_root (wk_root package)) eqn:Er; [|done]. cbn [negb] in H.
  assert (Forall normal (wk_root package)) as Hnorm.
  { unfold valid_relative_root in Er. bool_prop. apply Forall_forall. intros c Hc.
    match goal with H : forallb _ _ = true |- _ => rewrite forallb_forall in H; apply list_elem_of_In, H in Hc end. by destruct c. }
  assert (wk_root package ≠ []) as Hne by (intros E; by rewrite E in Er).
  destruct (negb (strictly_below project (join_path project (wk_root package)))); [done|].
  destruct (negb (strictly_below project (name_in _ _))); [done|]. case_bool_decide as Ht; [done|].
  injection H as <-. split_and!; try done. by rewrite join_normal by (done || by destruct project).
Qed.
Definition link_of (project : path) (package : WorkspacePackage) : WorkspaceLink :=
  mk_link (wk_name package) (wk_version package) (project ++ wk_root package) (name_in (node_modules project) (wk_name package)).
Definition by_name_version_root (p : WorkspacePackage) : PackageName * (PackageVersion * path) :=
  (wk_name p, (wk_version p, wk_root p)).
Lemma workspace_links_Ok project packages links :
  plan_workspace_links project packages = Ok links →
  is_absolute project = true ∧ has_parent_dir project = false ∧ links = link_of project <$> sort_by by_name_version_root packages ∧
  NoDup (wl_target <$> links) ∧ ∀ package, package ∈ packages → Forall normal (wk_root package) ∧ wk_root package ≠ [].
Proof.
  intros H. unfold plan_workspace_links in H. destruct (negb _ || _) eqn:E; [done|].
  apply orb_false_iff in E as [Habs%negb_false_iff Hdot]. apply fmap_Ok in H as ([links' targets]&H&->). cbn [fst].
  fold by_name_version_root in H. setoid_rewrite <-(elem_of_sort_by by_name_version_root).
  apply (try_fold_prefix (λ pre st, (st.1 = link_of project <$> pre ∧ NoDup (wl_target <$> st.1) ∧
    ∀ package, package ∈ pre → Forall normal (wk_root package) ∧ wk_root package ≠ []) ∧ ∀ t, t ∈ st.2 ↔ t ∈ wl_target <$> st.1)) in H.
  - cbn [fst snd] in H. destruct H as [(?&?&?) _]. split_and!; done.
  - clear - Habs. intros pre package post [links targets] s' _ [(Hl&Hnd&Hn) Ht] Hstep. cbn [fst snd] in *. subst links.
    apply workspace_link_Ok in Hstep as (?&?&Hnew&->); [|done]. cbn [fst snd]. rewrite !fmap_app. split_and!; [done| | |].
    + apply NoDup_app. split_and!; [done| |apply NoDup_singleton]. intros t Hin ->%list_elem_of_singleton. by apply Hnew, Ht.
    + intros q [Hq | ->%list_elem_of_singleton]%elem_of_app; [by apply Hn|done].
    + intros t. rewrite elem_of_union, elem_of_app, elem_of_singleton, Ht. cbn [wl_target fmap list_fmap]. rewrite list_elem_of_singleton. naive_solver.
  - cbn. split_and!; [done|constructor|by intros ? ?%not_elem_of_nil|]. intros t. by rewrite elem_of_nil, elem_of_empty.
Qed.
Lemma reserve_links root links acc :
  (∀ link, link ∈ links → wl_target link = name_in (root_base root) (wl_name link) ∧ root_contains root (wl_target link) = true) →
  NoDup (wl_target <$> links) → (∀ link, link ∈ links → wl_target link ∉ acc) →
  try_fold (reserve_link root) acc links = Ok (list_to_set (wl_target <$> links) ∪ acc).
Proof.
  revert acc. induction links as [|link links IH]; intros acc Hl Hnd Hacc; cbn [try_fold].
  { f_equal. cbn. by rewrite (left_id_L ∅ union). }
  destruct (Hl link) as [Et Hin]; [by left|]. rewrite fmap_cons in Hnd. apply NoDup_cons in Hnd as [Hnew Hnd].
  unfold reserve_link at 2. rewrite <-Et, Hin, bool_decide_eq_true_2 by done. cbn [negb orb].
  rewrite bool_decide_eq_false_2 by (apply Hacc; by left). cbn [mbind result_bind]. rewrite IH; [|by set_solver|done|].
  - f_equal. rewrite fmap_cons, list_to_set_cons. set_solver.
  - intros link' Hlink' [E%elem_of_singleton|Hacc']%elem_of_union; [|by apply (Hacc link'); [by right|]].
    apply Hnew. rewrite <-E. by apply list_elem_of_fmap_2.
Qed.
(** The links of a workspace and the layout of its registry packages fit together.  Links
    planned for the packages of a project are one per package, sorted, from the package's
    directory below the project to its name in node_modules, each at its own target; the
    layout accepts every such plan, and then is the layout with exactly the links' targets
    reserved, so that (by the safety of plans) it places nothing there. *)
Theorem workspace_layout_respects_links project packages links root :
  plan_workspace_links project packages = Ok links → ManagedRoot_new project = Ok root →
  (∀ package, package ∈ packages → valid_name (name_str (wk_name package))) →
  links = link_of project <$> sort_by by_name_version_root packages ∧ NoDup (wl_target <$> links) ∧
  (∀ link, link ∈ links → root_contains root (wl_source link) = true ∧ root_contains root (wl_target link) = true) ∧
  ∀ fuel input platform, plan_workspace_layout fuel root input links platform =
    plan_named_layout_inner fuel root input platform (list_to_set (wl_target <$> links)).
Proof.
  intros H Hroot Hn. apply workspace_links_Ok in H as (Habs&Hdot&->&Hnd&Hroots).
  destruct (ManagedRoot_new_Ok _ _ Hroot) as (Ep&_&_). rewrite <-Ep in *.
  set (packages' := sort_by by_name_version_root packages) in *.
  assert (∀ q, q ∈ packages' → root_contains root (wl_target (link_of (mr_path root) q)) = true) as Htarget.
  { intros q Hq%elem_of_sort_by. apply below_contained; [done..|]. apply below_name; [done|done| |by apply Hn].
    exists []. by rewrite app_nil_r. }
  split_and!; [done|done| |].
  - intros link (q&->&Hq)%list_elem_of_fmap. split; [|by apply Htarget]. apply root_contains_app; [done|done|].
    apply elem_of_sort_by in Hq. by apply Hroots.
  - intros fuel input platform. unfold plan_workspace_layout.
    assert (try_fold (reserve_link root) ∅ (link_of (mr_path root) <$> packages') =
      Ok (list_to_set (wl_target <$> (link_of (mr_path root) <$> packages')))) as ->; [|done].
    rewrite reserve_links; [by rewrite (right_id_L ∅ union)| |done|by intros ? _ ?%not_elem_of_empty].
    intros link (q&->&Hq)%list_elem_of_fmap. split; [done|]. by apply Htarget.
Qed.
End theorems.

(** ** Concrete layouts *)
Definition names_ok (input : NamedLayoutInput) : bool :=
  forallb (λ n, is_ok (PackageName_from_str (name_str n)))
    ((nd_name <$> nl_roots input) ++ ((λ e, nd_name (ne_dependency e)) <$> nl_edges input)).
Lemma names_ok_valid input : names_ok input = true → valid_names input.
Proof.
  unfold names_ok. rewrite forallb_forall. intros H d Hd.
  assert (is_ok (PackageName_from_str (name_str (nd_name d))) = true) as [n Hn]%is_ok_true;
    [apply H|by apply PackageName_from_str_Ok in Hn as [? _]].
  apply list_elem_of_In, elem_of_app. destruct Hd as [Hd|[k Hd]]; [left; by apply list_elem_of_fmap_2|right].
  by apply (list_elem_of_fmap_2 (λ e, nd_name (ne_dependency e)) _ _ Hd).
Qed.
Definition sample_source : PackageSource := mk_source "https://r.example" None.
Definition sample_key (name : string) (major : Z) (peer : PeerContext) : InstanceKey :=
  mk_key (mk_instance sample_source (mk_name name) (stable major 0 0)) peer PlatformContext_none.
Definition sample_instance (k : InstanceKey) : PackageInstance :=
  mk_package_instance (ik_id k) (ik_peer k) (ik_platform k) (mk_tree_ref "d" [RootDir; Normal "s"]).
Definition sample_root : ManagedRoot := mk_root [RootDir; Normal "p"] [RootDir; Normal "p"; Normal ".tapid-managed"].
Definition empty_plan : MaterializationPlan := mk_plan sample_root [] [] [].
Definition finished (r : option (result PlanError MaterializationPlan)) : MaterializationPlan :=
  match r with Some (Ok plan) => plan | _ => empty_plan end.
Definition is_finished (r : option (result PlanError MaterializationPlan)) : bool :=
  match r with Some (Ok _) => true | _ => false end.
Lemma is_finished_spec r : is_finished r = true → r = Some (Ok (finished r)).
Proof. by destruct r as [[]|]. Qed.
(** The plan as names: the link and the instance it resolves to. *)
Definition key_a := sample_key "a" 1 ∅.
Definition key_b := sample_key "b" 1 ∅.
Definition key_b2 := sample_key "b" 2 ∅.
Definition sample_input : NamedLayoutInput :=
  NamedLayoutInput_from (mk_layout (sample_instance <$> [key_a; key_b; key_b2]) [key_a; key_b]
    [mk_dependency_edge key_a key_b2; mk_dependency_edge key_b2 key_a]).
Definition sample_layout : option (result PlanError MaterializationPlan) :=
  plan_named_layout_inner 20 sample_root sample_input Unix ∅.
Lemma sample_layout_finished : sample_layout = Some (Ok (finished sample_layout)).
Proof. apply is_finished_spec. vm_compute. reflexivity. Qed.
Lemma sample_names : valid_names sample_input.
Proof. apply names_ok_valid. vm_compute. reflexivity. Qed.
Lemma planned_layout_complete_witness : ∃ placed,
  mp_activation (finished sample_layout) ≡ₚ step_of sample_root Symlink <$> map_to_list placed ∧
  placed !! name_in (root_base sample_root) (mk_name "b") = Some key_b.
Proof.
  destruct (planned_layout_complete [RootDir; Normal "p"] sample_root 20 sample_input Unix ∅ (finished sample_layout)
    eq_refl sample_names sample_layout_finished) as (kind&placed&Hk&Ha&Hr&_).
  injection Hk as <-. exists placed. split; [exact Ha|]. apply (Hr (by_own_name key_b)). right. left.
Defined.
Lemma planned_layout_safe_witness : mp_root (finished sample_layout) = sample_root.
Proof.
  exact (proj1 (planned_layout_safe [RootDir; Normal "p"] sample_root 20 sample_input Unix ∅ (finished sample_layout)
    eq_refl sample_names sample_layout_finished)).
Defined.
Definition sample_packages : list WorkspacePackage :=
  [mk_workspace_package [Normal "packages"; Normal "b"] (mk_name "b") (stable 1 0 0);
   mk_workspace_package [Normal "packages"; Normal "a"] (mk_name "@s/a") (stable 1 0 0)].
Definition sample_links : list WorkspaceLink := default [] (to_ok (plan_workspace_links [RootDir; Normal "p"] sample_packages)).
Lemma sample_links_planned : plan_workspace_links [RootDir; Normal "p"] sample_packages = Ok sample_links.
Proof.
  unfold sample_links. destruct (plan_workspace_links _ _) as [links|e] eqn:E; [done|]. exfalso.
  assert (is_ok (plan_workspace_links [RootDir; Normal "p"] sample_packages) = true) as H by (vm_compute; reflexivity).
  by rewrite E in H.
Qed.
Lemma workspace_layout_respects_links_witness : NoDup (wl_target <$> sample_links).
Proof.
  refine (proj1 (proj2 (workspace_layout_respects_links [RootDir; Normal "p"] sample_packages sample_links sample_root
    sample_links_planned eq_refl _))).
  intros package Hp. apply (PackageName_from_str_Ok _ (wk_name package)).
  apply elem_of_cons in Hp as [-> | ->%list_elem_of_singleton]; reflexivity.
Defined.

(** ** Divergences *)
(** The link that a name resolves to from these directories. *)
Definition resolve (plan : MaterializationPlan) (bases : list path) (name : string) : option path :=
  head (omap (λ base, as_source <$> head (base.filter (λ step, as_target step = name_in base (mk_name name)) (mp_activation plan))) (rev bases)).
Definition key_c := sample_key "c" 1 ∅.
Definition key_c2 := sample_key "c" 2 ∅.
Definition key_x := sample_key "x" 1 ∅.
Definition key_x2 := sample_key "x" 2 ∅.
(** [a] needs b@2 and c@2, b@2 needs x@1, c@2 needs x@2; the project needs the versions 1. *)
Definition shadow_input : LayoutInput :=
  mk_layout (sample_instance <$> [key_a; key_b; key_b2; key_c; key_c2; key_x; key_x2]) [key_a; key_b; key_c; key_x]
    [mk_dependency_edge key_a key_b2; mk_dependency_edge key_a key_c2; mk_dependency_edge key_b2 key_x;
     mk_dependency_edge key_c2 key_x2].
Definition base_a : path := node_modules (name_in (root_base sample_root) (mk_name "a")).
Definition base_b : path := node_modules (name_in base_a (mk_name "b")).
(** x@2 is hoisted next to b@2, which had resolved x@1 from the root. *)
Example hoisting_shadows_a_resolved_dependency :
  let plan := finished (plan_layout 40 sample_root shadow_input Unix) in
  (resolve plan [root_base sample_root; base_a] "b", resolve plan [root_base sample_root; base_a; base_b] "x") =
  (Some (instance_path sample_root key_b2), Some (instance_path sample_root key_x2)).
Proof. vm_compute. reflexivity. Qed.
(** Peer contexts whose names differ in the place of a [/] and a [_] share a directory. *)
Definition peer_one : PeerContext := {[ mk_name "@s_t/x" := stable 1 0 0 ]}.
Definition peer_two : PeerContext := {[ mk_name "@s/t_x" := stable 1 0 0 ]}.
Definition shared_input : NamedLayoutInput :=
  mk_named_layout (sample_instance <$> [sample_key "a" 1 peer_one; sample_key "a" 1 peer_two])
    [mk_named (mk_name "f") (sample_key "a" 1 peer_one); mk_named (mk_name "g") (sample_key "a" 1 peer_two)] [].
Example instances_share_storage :
  let r := plan_named_layout 10 sample_root shared_input Unix in
  is_finished r = true ∧ length (mp_entries (finished r)) = 2%nat ∧
  length (dedup (me_target <$> mp_entries (finished r))) = 1%nat.
Proof. vm_compute. done. Qed.
