(* ===== verification/CrashFs.v ===== *)
(** * A filesystem that faults and crashes

    The state and the effects of the code that activates an installation: a tree of nodes
    below the workspace root, the calls of [std::fs] on it, and computations that any call
    can end - with an error, which the code sees, or with a crash, which leaves the disk as
    it is.  A list of events decides, one per call; writing a file and removing a directory
    leave anything in their place when they do not finish, every other call happens or does
    not.  A crash is the end of the process: what the calls did stays, in their order.

    Paths go through directories: the code resolves links in its paths before it uses them. *)
From Stdlib Require Import DecimalString DecimalN.
From S2P Require Import Prelude Order RustStr.

(** [n.to_string()] *)
Definition decimal (n : N) : string := NilZero.string_of_uint (N.to_uint n).

(** ** The disk *)
(** A link holds what it resolves to. *)
Inductive node :=
| File (content : string)
| Directory (entries : gmap string node)
| Link (target : option node)
| Special.
Definition place : Type := list string.
Fixpoint lookup_at (p : place) (n : node) : option node :=
  match p with
  | [] => Some n
  | name :: p => match n with Directory entries => entries !! name ≫= lookup_at p | _ => None end
  end.
(** Changes the entry at [p] of an existing directory. *)
Fixpoint alter_at (f : option node → option node) (p : place) (n : node) : node :=
  match p, n with
  | [name], Directory entries => Directory (partial_alter f name entries)
  | name :: p, Directory entries =>
      match entries !! name with
      | Some child => Directory (<[name := alter_at f p child]> entries)
      | None => n
      end
  | _, _ => n
  end.
Definition is_directory (o : option node) : bool := match o with Some (Directory _) => true | _ => false end.
Definition is_regular (n : node) : bool := match n with File _ => true | _ => false end.
Definition is_dir (n : node) : bool := match n with Directory _ => true | _ => false end.
Definition parent (p : place) : place := removelast p.

(** ** Computations *)
Inductive io_error := NotFound | InvalidData | OtherError.
#[export] Instance io_error_eq_dec : EqDecision io_error.
Proof. solve_decision. Defined.
(** What an unfinished write or removal leaves. *)
Record debris := mk_debris { left_content : string; left_entries : gmap string node }.
Inductive event := Proceed | Fault (left : debris) | Crash (left : debris).
(** The disk, and the last nonce of the process. *)
Record world := mk_world { disk : node; last_nonce : N }.
Definition with_disk (d : node) (w : world) : world := mk_world d (last_nonce w).
Inductive outcome (A : Type) :=
| Returned (a : A) (rest : list event) (w : world)
| Crashed (w : world)
| Panicked.
Arguments Returned {A} a rest w.
Arguments Crashed {A} w.
Arguments Panicked {A}.
Definition io (A : Type) : Type := list event → world → outcome A.
#[export] Instance io_ret : MRet io := λ A a ev w, Returned a ev w.
#[export] Instance io_bind : MBind io := λ A B f m ev w,
  match m ev w with
  | Returned a rest w => f a rest w
  | Crashed w => Crashed w
  | Panicked => Panicked
  end.
Definition panic {A} : io A := λ _ _, Panicked.
(** [Result<T, String>] with the operating system's part of the texts left out. *)
Notation act A := (io (result string A)).
Definition try_bind {E A B} (m : io (result E A)) (f : A → io (result E B)) : io (result E B) :=
  r ← m; match r with Ok a => f a | Err e => mret (Err e) end.
Notation "x '←?' m ; k" := (try_bind m (λ x, k)) (at level 20, m at level 100, k at level 200) : tapid_scope.
Definition fail {A} (text : string) : act A := mret (Err text).
Definition succeed {A} (a : A) : act A := mret (Ok a).
(** [.map_err(|e| format!("text: {e}"))] *)
Definition explain {A} (text : string) (m : io (result io_error A)) : act A :=
  r ← m; mret (map_err (λ _, text) r).
Definition ignore {A} (m : io A) : io () := _ ← m; mret tt.
Definition effect {A} (run : node → result io_error A * node) (torn : debris → node → node) : io (result io_error A) :=
  λ ev w,
    match ev with
    | Fault debris :: ev => Returned (Err OtherError) ev (with_disk (torn debris (disk w)) w)
    | Crash debris :: _ => Crashed (with_disk (torn debris (disk w)) w)
    | _ => let '(r, d) := run (disk w) in Returned r (tail ev) (with_disk d w)
    end.
Definition atomic {A} (run : node → result io_error A * node) : io (result io_error A) := effect run (λ _ d, d).
Definition inspect {A} (look : node → result io_error A) : io (result io_error A) := atomic (λ d, (look d, d)).

(** ** [std::fs] *)
(** The error of a path that is not there: an ancestor may be no directory. *)
Definition missing (p : place) (d : node) : io_error :=
  match lookup_at (parent p) d with Some (Directory _) | None => NotFound | _ => OtherError end.
Definition look (p : place) (d : node) : result io_error node :=
  match lookup_at p d with Some n => Ok n | None => Err (missing p d) end.
(** [symlink_metadata(p)]: the node, of which the code reads the kind and the length. *)
Definition symlink_metadata (p : place) : io (result io_error node) := inspect (look p).
Definition followed (n : node) : option node := match n with Link target => target | n => Some n end.
(** [p.exists()] and [p.is_dir()] follow links and are false on errors. *)
Definition path_exists (p : place) : io bool :=
  r ← symlink_metadata p; mret (match r with Ok n => bool_decide (is_Some (followed n)) | Err _ => false end).
Definition path_is_dir (p : place) : io bool :=
  r ← symlink_metadata p; mret (match r with Ok n => is_directory (followed n) | Err _ => false end).
(** [open] with [O_NOFOLLOW] for reading. *)
Definition open_nofollow (p : place) : io (result io_error node) :=
  inspect (λ d, n ← look p d; match n with Link _ => Err OtherError | n => Ok n end).
(** [fs::read(p)] *)
Definition read (p : place) : io (result io_error string) :=
  inspect (λ d, n ← look p d; match followed n with Some (File s) => Ok s | Some _ => Err OtherError | None => Err NotFound end).
(** A further call on an open handle, or [sync_all]: it can only fail. *)
Definition touch : io (result io_error ()) := inspect (λ _, Ok tt).
(** Opening a directory and syncing it. *)
Definition sync_all (p : place) : io (result io_error ()) := inspect (λ d, _ ← look p d; Ok tt).
Definition replaceable (source : node) (target : option node) : bool :=
  match source, target with
  | _, None => true
  | Directory _, Some (Directory entries) => bool_decide (entries = ∅)
  | Directory _, _ => false
  | _, Some (Directory _) => false
  | _, _ => true
  end.
Definition rename (p q : place) : io (result io_error ()) := atomic (λ d,
  match lookup_at p d with
  | None => (Err (missing p d), d)
  | Some n =>
      if negb (is_directory (lookup_at (parent q) d)) then (Err NotFound, d) else
      if bool_decide (p = q) then (Ok tt, d) else if bool_decide (p `prefix_of` q) then (Err OtherError, d) else
      if replaceable n (lookup_at q d)
      then (Ok tt, alter_at (λ _, Some n) q (alter_at (λ _, None) p d)) else (Err OtherError, d)
  end).
Definition remove_file (p : place) : io (result io_error ()) := atomic (λ d,
  match lookup_at p d with
  | None => (Err (missing p d), d)
  | Some (Directory _) => (Err OtherError, d)
  | Some _ => (Ok tt, alter_at (λ _, None) p d)
  end).
Definition leave_entries (p : place) (left : debris) (d : node) : node :=
  match lookup_at p d with
  | Some (Directory _) => alter_at (λ _, Some (Directory (left_entries left))) p d
  | _ => d
  end.
(** A link is removed itself; a directory with all that it holds. *)
Definition remove_dir_all (p : place) : io (result io_error ()) := effect (λ d,
  match lookup_at p d with
  | None => (Err (missing p d), d)
  | Some (Directory _) | Some (Link _) => (Ok tt, alter_at (λ _, None) p d)
  | Some _ => (Err OtherError, d)
  end) (leave_entries p).
Definition create_dir (p : place) : io (result io_error ()) := atomic (λ d,
  match lookup_at p d with
  | Some _ => (Err OtherError, d)
  | None =>
      if is_directory (lookup_at (parent p) d) then (Ok tt, alter_at (λ _, Some (Directory ∅)) p d)
      else (Err NotFound, d)
  end).
(** [create_new(true)] *)
Definition create_new (p : place) : io (result io_error ()) := atomic (λ d,
  match lookup_at p d with
  | Some _ => (Err OtherError, d)
  | None =>
      if is_directory (lookup_at (parent p) d) then (Ok tt, alter_at (λ _, Some (File "")) p d)
      else (Err NotFound, d)
  end).
(** [open] for reading and writing with [create(true)], without following links. *)
Definition open_or_create (p : place) : io (result io_error ()) := atomic (λ d,
  match lookup_at p d with
  | Some (Directory _) | Some (Link _) => (Err OtherError, d)
  | Some _ => (Ok tt, d)
  | None =>
      if is_directory (lookup_at (parent p) d) then (Ok tt, alter_at (λ _, Some (File "")) p d)
      else (Err NotFound, d)
  end).
Definition set_content (p : place) (s : string) (d : node) : node :=
  match lookup_at p d with Some (File _) => alter_at (λ _, Some (File s)) p d | _ => d end.
(** [write_all] on the handle of a file just opened at [p], from its start. *)
Definition write_all (p : place) (s : string) : io (result io_error ()) :=
  effect (λ d, (Ok tt, set_content p s d)) (λ left, set_content p (left_content left)).
(** [fs::write(p, s)] creates or truncates the file, then writes. *)
Definition truncate (p : place) : io (result io_error ()) := atomic (λ d,
  match lookup_at p d with
  | Some (File _) => (Ok tt, set_content p "" d)
  | Some _ => (Err OtherError, d)
  | None =>
      if is_directory (lookup_at (parent p) d) then (Ok tt, alter_at (λ _, Some (File "")) p d)
      else (Err NotFound, d)
  end).
Definition write (p : place) (s : string) : io (result io_error ()) :=
  r ← truncate p; match r with Ok _ => write_all p s | Err e => mret (Err e) end.
(** [read_dir(p)], in ascending order. *)
Definition read_dir (p : place) : io (result io_error (list string)) :=
  inspect (λ d, n ← look p d; match n with Directory entries => Ok (btree_keys entries) | _ => Err OtherError end).
