(* ===== verification/Activation.v ===== *)
(** * Activating node_modules

    The directory node_modules of a project is replaced by renames, with the old tree and
    the ownership marker kept under names of the lock's owner until the change is decided;
    an interrupted activation is rolled back or completed by the next owner of the lock
    (crates/tapid-cli/src/filesystem/activation.rs, with [unique_nonce] of atomic.rs).  The
    Unix build; the hooks by which tests end the process are crashes like any other.  Error
    texts are kept without the paths and the operating system's part. *)
From Stdlib Require Import HexadecimalString HexadecimalN.
From S2P Require Import Prelude Order RustStr CrashFs.

Definition newline : string := String newline_char "".
Definition MANAGED_MARKER : string := "tapid-managed-v1" +:+ newline.
Definition STAGE_OWNER_MARKER : string := ".tapid-stage-owner".
Definition marker_of (project : place) : place := project ++ [".tapid-managed"].
Definition destination_of (project : place) : place := project ++ ["node_modules"].
Definition marker_backup_of (project : place) (owner : string) : place := project ++ [".tapid-managed-old-" +:+ owner].
Definition node_backup_of (project : place) (owner : string) : place := project ++ [".tapid-node-modules-old-" +:+ owner].
Definition unmarked_node_modules : string := "refusing to replace unmarked node_modules".
(** What a failed attempt to restore adds to an error. *)
Definition appended {A} (reason : string) (restore : result string A) : string :=
  match restore with Ok _ => reason | Err text => reason +:+ "; " +:+ text end.

(** [open] of a bounded owner value on a handle of [n]. *)
Definition read_bounded_owner (n : node) : io (result io_error string) :=
  r ← touch;
  mret (match r, n with
        | Ok _, File s => if (128 <? str_len s)%Z then Err InvalidData else Ok s
        | Ok _, _ => Err OtherError
        | Err e, _ => Err e
        end).
Definition read_marker_backup (p : place) : io (result io_error string) :=
  r ← open_nofollow p;
  match r with
  | Err e => mret (Err e)
  | Ok n =>
      r ← touch;
      match r with
      | Err e => mret (Err e)
      | Ok _ => if negb (is_regular n) then mret (Err InvalidData) else read_bounded_owner n
      end
  end.
Definition sync_directory (p : place) : act () := explain "cannot sync activation directory" (sync_all p).

Definition validate_managed_node_modules (project : place) : act () :=
  r ← symlink_metadata (destination_of project);
  tree_exists ←? match r with
                 | Ok n => if is_dir n then succeed true
                           else fail "refusing to replace non-directory or symlink node_modules"
                 | Err NotFound => succeed false
                 | Err _ => fail "cannot inspect node_modules"
                 end;
  r ← read_marker_backup (marker_of project);
  match r with
  | Ok contents =>
      if str_eqb contents MANAGED_MARKER then succeed ()
      else fail "refusing to replace node_modules with an invalid .tapid-managed marker"
  | Err NotFound =>
      r ← symlink_metadata (marker_of project);
      match r with
      | Err NotFound => if tree_exists : bool then fail unmarked_node_modules else succeed ()
      | _ => fail "refusing to use a non-regular .tapid-managed marker"
      end
  | Err _ => fail "cannot read .tapid-managed"
  end.

Definition restore_marker (marker backup : place) (marker_exists : bool) : act () :=
  if negb marker_exists then succeed () else
  r ← symlink_metadata backup;
  match r with
  | Ok n =>
      if is_regular n then explain "cannot restore .tapid-managed" (rename backup marker) else
      _ ← ignore (remove_file backup);
      fail "cannot restore .tapid-managed: staged marker is not a regular file"
  | Err _ => fail "cannot restore .tapid-managed"
  end.
Definition restore_node_modules_backup (destination backup : place) : act () :=
  present ← path_exists backup;
  if present : bool then explain "cannot restore existing node_modules" (rename backup destination) else succeed ().
(** [if backup.exists() { let _ = fs::rename(&backup, &destination); }] *)
Definition put_back (destination backup : place) : io () :=
  present ← path_exists backup;
  if present : bool then ignore (rename backup destination) else mret ().

Section activation.
Context (pid : N) (clock : N → N).
(** The clock as the process reads it after the nonce it used last. *)
Definition unique_nonce : io N := λ ev w,
  let nonce := N.max (clock (last_nonce w)) (last_nonce w + 1) in Returned nonce ev (mk_world (disk w) nonce).

(** Moves the marker away, and accepts it only after that. *)
Definition stage_marker (project : place) (marker marker_backup : place) : act () :=
  _ ←? explain "cannot stage .tapid-managed marker" (rename marker marker_backup);
  _ ←? sync_directory project;
  r ← read_marker_backup marker_backup;
  match r with
  | Err _ =>
      restore ← restore_marker marker marker_backup true;
      fail (appended "cannot read .tapid-managed" restore)
  | Ok contents =>
      r ← symlink_metadata marker_backup;
      let still_regular := match r with Ok n => is_regular n | Err _ => false end in
      if negb still_regular || negb (str_eqb contents MANAGED_MARKER) then
        restore ← restore_marker marker marker_backup true;
        fail (appended (if still_regular then "refusing to replace node_modules with an invalid .tapid-managed marker"
                        else "refusing to use a non-regular .tapid-managed marker") restore)
      else succeed ()
  end.
(** Both restorations, after an error that leaves the staged tree alone. *)
Definition abandon {A} (destination backup marker marker_backup : place) (marker_exists : bool) (reason : string) : act A :=
  backup_restore ← restore_node_modules_backup destination backup;
  marker_restore ← restore_marker marker marker_backup marker_exists;
  fail (appended (appended reason backup_restore) marker_restore).
Definition is_real_directory (p : place) : io bool :=
  r ← symlink_metadata p; mret (match r with Ok n => is_dir n | Err _ => false end).
Definition write_marker (project : place) (marker : place) : io (place * result io_error ()) :=
  nonce ← unique_nonce;
  let temp := project ++ [".tapid-managed-" +:+ decimal pid +:+ "-" +:+ decimal nonce +:+ ".tmp"] in
  r ← create_new temp;
  match r with
  | Err e => mret (temp, Err e)
  | Ok _ =>
      r ← write_all temp MANAGED_MARKER;
      match r with
      | Err e => mret (temp, Err e)
      | Ok _ =>
          r ← touch;
          match r with
          | Err e => mret (temp, Err e)
          | Ok _ => r ← rename temp marker; mret (temp, r)
          end
      end
  end.
(** Once the staged tree is in place: the marker, and the end of the previous tree. *)
Definition discard_previous (marker_backup backup : place) (marker_exists : bool) : io () :=
  _ ← (if marker_exists then ignore (remove_file marker_backup) else mret ());
  ignore (remove_dir_all backup).
Definition complete_activation (project stage : place) (owner : string) (marker_exists preserve_previous : bool) : act () :=
  let destination := destination_of project in
  let marker := marker_of project in
  let marker_backup := marker_backup_of project owner in
  let backup := node_backup_of project owner in
  _ ←? sync_directory project;
  destination_is_directory ← is_real_directory destination;
  if negb destination_is_directory then
    _ ← ignore (remove_file destination);
    _ ← ignore (remove_dir_all destination);
    _ ← put_back destination backup;
    restore ← restore_marker marker marker_backup marker_exists;
    fail (appended "refusing to activate a symlinked install staging tree" restore)
  else
  '(temp, written) ← write_marker project marker;
  match written with
  | Err _ =>
      _ ← ignore (remove_file temp);
      _ ← ignore (remove_dir_all destination);
      _ ← put_back destination backup;
      restore ← restore_marker marker marker_backup marker_exists;
      _ ← (if marker_exists then mret () else ignore (remove_file marker));
      fail (appended "cannot write .tapid-managed" restore)
  | Ok _ =>
      _ ←? sync_directory project;
      _ ← (if preserve_previous then mret () else discard_previous marker_backup backup marker_exists);
      _ ← ignore (remove_dir_all stage);
      succeed ()
  end.
(** With the marker out of the way.  [TAPID_TEST_FAIL_ACTIVATION] is set: [inject]. *)
Definition swap_trees (project stage : place) (owner : string) (marker_exists preserve_previous inject : bool)
    (preflight : act ()) : act () :=
  let staged := stage ++ ["node_modules"] in
  let destination := destination_of project in
  let marker := marker_of project in
  let marker_backup := marker_backup_of project owner in
  let backup := node_backup_of project owner in
  present ← path_exists destination;
  moved ← (if present : bool then rename destination backup else mret (Ok ()));
  match moved with
  | Err _ =>
      restore ← restore_marker marker marker_backup marker_exists;
      fail (appended "cannot stage existing node_modules for replacement" restore)
  | Ok _ =>
  present ← path_exists backup;
  _ ←? (if present : bool then sync_directory project else succeed ());
  if inject then
    _ ← put_back destination backup;
    restore ← restore_marker marker marker_backup marker_exists;
    fail (appended "install activation failed (injected)" restore)
  else
  staged_is_directory ← is_real_directory staged;
  if negb staged_is_directory
  then abandon destination backup marker marker_backup marker_exists "refusing to activate a non-directory install staging tree" else
  checked ← preflight;
  match checked with
  | Err error => abandon destination backup marker marker_backup marker_exists error
  | Ok _ =>
  activated ← rename staged destination;
  match activated with
  | Err _ =>
      _ ← put_back destination backup;
      restore ← restore_marker marker marker_backup marker_exists;
      fail (appended "cannot activate node_modules" restore)
  | Ok _ => complete_activation project stage owner marker_exists preserve_previous
  end end end.
Definition activate_node_modules_with_preflight (project stage : place) (owner : string) (preserve_previous inject : bool)
    (preflight : act ()) : act () :=
  let marker := marker_of project in
  staged_dir ← path_is_dir (stage ++ ["node_modules"]);
  if negb staged_dir then fail "install transaction produced an empty node_modules layout" else
  r ← symlink_metadata marker;
  marker_exists ←? match r with
                   | Ok n => if is_regular n then succeed true
                             else fail "refusing to use a non-regular .tapid-managed marker"
                   | Err NotFound => succeed false
                   | Err _ => fail "cannot inspect .tapid-managed"
                   end;
  present ← path_exists (destination_of project);
  if present && negb marker_exists then fail unmarked_node_modules else
  _ ←? (if marker_exists : bool then stage_marker project marker (marker_backup_of project owner) else succeed ());
  swap_trees project stage owner marker_exists preserve_previous inject preflight.

(** ** Stages *)
Definition create_stage_owner_marker (stage : place) (owner : string) : act () :=
  let marker := stage ++ [STAGE_OWNER_MARKER] in
  _ ←? explain "cannot create install staging owner marker" (create_new marker);
  r ← symlink_metadata marker;
  _ ←? match r with
       | Ok n => if is_regular n then succeed () else fail "install staging owner marker is not a regular file"
       | Err _ => fail "cannot inspect install staging owner marker"
       end;
  _ ←? explain "cannot write install staging owner marker" (write_all marker owner);
  explain "cannot write install staging owner marker" touch.
(** [NEXT_STAGE] is [ordinal]; an owner without its newline is a panic. *)
Definition create_stage (project : place) (owner : string) (ordinal : N) : act place :=
  match strip_suffix newline owner with
  | None => panic
  | Some name =>
      let stage := project ++ [".tapid-install-stage-" +:+ name +:+ "-" +:+ decimal ordinal] in
      _ ←? explain "cannot create install staging directory" (create_dir stage);
      r ← create_stage_owner_marker stage owner;
      match r with
      | Err error => _ ← ignore (remove_dir_all stage); fail error
      | Ok _ => succeed stage
      end
  end.
End activation.

(** ** Owners *)
Definition activation_owner_is_valid (owner : string) : bool :=
  match strip_suffix newline owner with
  | None => false
  | Some owner =>
      match split_once "-" owner with
      | None => false
      | Some (pid, nonce) =>
          negb (is_empty pid) && str_forallb byte_is_digit pid && negb (is_empty nonce) && str_forallb is_hexdigit nonce
      end
  end.
Record RecoveryDecision := mk_decision {
  rd_owner : string;
  rd_committed : bool;
  rd_marker_existed : bool;
  rd_node_modules_existed : bool;
}.

(** ** Settling an activation *)
Definition commit_owned_activation (project : place) (owner : string) : act () :=
  match strip_suffix newline owner with
  | None => fail "cannot finalize malformed activation owner"
  | Some owner_name =>
      if negb (activation_owner_is_valid owner) then fail "cannot finalize invalid activation owner" else
      let marker_backup := marker_backup_of project owner_name in
      r ← symlink_metadata marker_backup;
      _ ←? match r with
           | Ok n => if is_regular n then explain "cannot remove committed managed-marker backup" (remove_file marker_backup)
                     else fail "refusing to remove non-regular managed-marker backup"
           | Err NotFound => succeed ()
           | Err _ => fail "cannot inspect managed-marker backup"
           end;
      let node_backup := node_backup_of project owner_name in
      r ← symlink_metadata node_backup;
      _ ←? match r with
           | Ok n => if is_dir n then explain "cannot remove committed node_modules backup" (remove_dir_all node_backup)
                     else fail "refusing to remove non-directory node_modules backup"
           | Err NotFound => succeed ()
           | Err _ => fail "cannot inspect node_modules backup"
           end;
      sync_directory project
  end.

Definition rollback_marker (decision : RecoveryDecision) (marker marker_backup : place) : act () :=
  r ← symlink_metadata marker_backup;
  match r with
  | Ok n =>
      if negb (is_regular n) then fail "refusing to restore non-regular managed marker backup" else
      current ← symlink_metadata marker;
      _ ←? match current with
           | Ok current =>
               if is_regular current then explain "cannot remove uncommitted managed marker" (remove_file marker)
               else fail "refusing to replace non-regular managed marker during recovery"
           | Err _ => succeed ()
           end;
      explain "cannot restore managed marker" (rename marker_backup marker)
  | Err NotFound =>
      if rd_marker_existed decision then succeed () else
      current ← symlink_metadata marker;
      match current with
      | Ok current => if is_regular current then explain "cannot remove uncommitted managed marker" (remove_file marker)
                      else fail "refusing to remove non-regular managed marker"
      | Err NotFound => succeed ()
      | Err _ => fail "cannot inspect managed marker"
      end
  | Err _ => fail "cannot inspect managed marker backup"
  end.
Definition rollback_tree (decision : RecoveryDecision) (destination node_backup : place) : act () :=
  r ← symlink_metadata node_backup;
  match r with
  | Ok n =>
      if negb (is_dir n) then fail "refusing to restore a non-directory node_modules backup" else
      current ← symlink_metadata destination;
      _ ←? match current with
           | Ok current =>
               if is_dir current then explain "cannot remove uncommitted node_modules activation" (remove_dir_all destination)
               else fail "refusing to replace non-directory node_modules during recovery"
           | Err NotFound => succeed ()
           | Err _ => fail "cannot inspect node_modules recovery"
           end;
      explain "cannot restore prior node_modules" (rename node_backup destination)
  | Err NotFound =>
      if rd_node_modules_existed decision then succeed () else
      current ← symlink_metadata destination;
      match current with
      | Ok current => if is_dir current then explain "cannot remove uncommitted node_modules activation" (remove_dir_all destination)
                      else fail "refusing to remove non-directory node_modules"
      | Err NotFound => succeed ()
      | Err _ => fail "cannot inspect node_modules"
      end
  | Err _ => fail "cannot inspect node_modules backup"
  end.
Definition rollback_coordinated_activation (project : place) (owner : string) (decision : RecoveryDecision) : act () :=
  match strip_suffix newline owner with
  | None => fail "cannot recover malformed activation owner"
  | Some owner_name =>
      _ ←? rollback_marker decision (marker_of project) (marker_backup_of project owner_name);
      rollback_tree decision (destination_of project) (node_backup_of project owner_name)
  end.

(** Without a journal: a completed replacement stands, anything less is undone. *)
Definition recover_uncoordinated_marker (marker marker_backup : place) : act () :=
  r ← symlink_metadata marker_backup;
  marker_backup_exists ←? match r with
    | Ok n =>
        if negb (is_regular n) then fail "refusing to recover a non-regular stale managed marker" else
        contents ←? explain "cannot read stale managed marker" (read_marker_backup marker_backup);
        if str_eqb contents MANAGED_MARKER then succeed true else fail "refusing to recover an invalid stale managed marker"
    | Err NotFound => succeed false
    | Err _ => fail "cannot inspect stale managed marker"
    end;
  r ← symlink_metadata marker;
  marker_exists ←? match r with
    | Ok n => if is_regular n then succeed true else fail "refusing to recover with a non-regular managed marker"
    | Err NotFound => succeed false
    | Err _ => fail "cannot inspect managed marker recovery"
    end;
  if negb marker_backup_exists then succeed ()
  else if marker_exists : bool then explain "cannot remove stale managed marker" (remove_file marker_backup)
  else explain "cannot restore managed marker" (rename marker_backup marker).
Definition recover_uncoordinated_tree (destination node_backup : place) : act () :=
  r ← symlink_metadata node_backup;
  node_backup_exists ←? match r with
    | Ok n => if is_dir n then succeed true else fail "refusing to recover a non-directory node_modules backup"
    | Err NotFound => succeed false
    | Err _ => fail "cannot inspect node_modules backup"
    end;
  if negb node_backup_exists then succeed () else
  current ← symlink_metadata destination;
  match current with
  | Ok n => if is_dir n then explain "cannot remove stale node_modules backup" (remove_dir_all node_backup)
            else fail "refusing to recover with a non-directory node_modules destination"
  | Err NotFound => explain "cannot restore stale node_modules backup" (rename node_backup destination)
  | Err _ => fail "cannot inspect node_modules recovery"
  end.
Definition recover_uncoordinated_activation (project : place) (owner : string) : act () :=
  match strip_suffix newline owner with
  | None => fail "cannot recover malformed activation owner"
  | Some owner =>
      _ ←? recover_uncoordinated_marker (marker_of project) (marker_backup_of project owner);
      recover_uncoordinated_tree (destination_of project) (node_backup_of project owner)
  end.
Definition recover_owned_activation (project : place) (owner : string) (decision : option RecoveryDecision) : act () :=
  match decision with
  | Some decision =>
      if rd_committed decision then commit_owned_activation project owner
      else rollback_coordinated_activation project owner decision
  | None => recover_uncoordinated_activation project owner
  end.

(** ** Leftover stages *)
(** The name of a stage of this owner whose marker was never written. *)
Definition ownerless_name (owner_name name : string) : bool :=
  let stage_name := ".tapid-install-stage-" +:+ owner_name in
  str_eqb name stage_name ||
  match strip_prefix (stage_name +:+ "-") name with
  | Some suffix => negb (is_empty suffix) && str_forallb byte_is_digit suffix
  | None => false
  end.
Definition recover_owned_stage (project : place) (owner owner_name name : string) : act () :=
  if negb (starts_with ".tapid-install-stage-" name) then succeed () else
  let stage := project ++ [name] in
  metadata ←? explain "cannot inspect stale install stage" (symlink_metadata stage);
  if negb (is_dir metadata) then succeed () else
  let marker := stage ++ [STAGE_OWNER_MARKER] in
  r ← symlink_metadata marker;
  match r with
  | Ok (File content) =>
      if (128 <? str_len content)%Z then succeed () else
      contents ←? explain "cannot read stale stage ownership" (read_marker_backup marker);
      if str_eqb contents owner then explain "cannot remove stale install stage" (remove_dir_all stage) else succeed ()
  | Ok _ => succeed ()
  | Err NotFound =>
      if ownerless_name owner_name name then explain "cannot remove ownerless stale install stage" (remove_dir_all stage)
      else succeed ()
  | Err _ => fail "cannot inspect stale stage ownership"
  end.
(** [for x in l { f(x)?; }] *)
Fixpoint act_each {A} (f : A → act ()) (l : list A) : act () :=
  match l with
  | [] => succeed ()
  | x :: l => _ ←? f x; act_each f l
  end.
Definition recover_owned_stages (project : place) (owner : string) : act () :=
  match strip_suffix newline owner with
  | None => fail "cannot recover malformed install stage owner"
  | Some owner_name =>
      names ←? explain "cannot inspect project for stale install stages" (read_dir project);
      act_each (recover_owned_stage project owner owner_name) names
  end.
