(* ===== verification/CrashLogic.v ===== *)
(** * Reasoning about computations that fault and crash

    Weakest preconditions with a condition for crashes.  A triple is proved once for both
    environments: [faulty] ones, in which any call can fail or be the last, and the quiet
    one, in which every call does what it can. *)
From S2P Require Import Prelude Order RustStr CrashFs Activation.

(** ** Changing one place *)
Definition apart (p q : place) : Prop := ¬ p `prefix_of` q ∧ ¬ q `prefix_of` p.
Lemma prefix_cons_eq {A} (x : A) l k : x :: l `prefix_of` x :: k ↔ l `prefix_of` k.
Proof. split; [by intros ?%prefix_cons_inv_2|apply prefix_cons]. Qed.
Lemma lookup_alter_ne f p q d : apart p q → lookup_at q (alter_at f p d) = lookup_at q d.
Proof.
  revert q d. induction p as [|name p IH]; intros q d [Hpq Hqp]; [by destruct Hpq; apply prefix_nil|].
  destruct q as [|name' q]; [by destruct Hqp; apply prefix_nil|].
  destruct d as [s|entries|t|]; [by destruct p| |by destruct p|by destruct p]. destruct p as [|name2 p]; cbn [alter_at lookup_at].
  - rewrite lookup_partial_alter_ne; [done|]. intros <-. apply Hpq. apply prefix_cons, prefix_nil.
  - destruct (entries !! name) as [child|] eqn:E; [|done]. cbn [lookup_at]. destruct (decide (name = name')) as [<-|Hne].
    + rewrite lookup_insert_eq, E. apply IH. rewrite !prefix_cons_eq in *. done.
    + by rewrite lookup_insert_ne.
Qed.
Lemma lookup_alter_eq f p d :
  p ≠ [] → is_directory (lookup_at (parent p) d) = true → lookup_at p (alter_at f p d) = f (lookup_at p d).
Proof.
  revert d. induction p as [|name p IH]; intros d Hne Hd; [done|]. destruct p as [|name2 p].
  - destruct d as [s|entries|t|]; try done. cbn. rewrite lookup_partial_alter_eq. destruct (entries !! name); cbn; by destruct (f _).
  - change (parent (name :: name2 :: p)) with (name :: parent (name2 :: p)) in Hd.
    destruct d as [s|entries|t|]; try done. cbn [alter_at lookup_at] in *.
    destruct (entries !! name) as [child|] eqn:E; [|done]. cbn [lookup_at]. rewrite lookup_insert_eq. by apply IH.
Qed.
Lemma directory_alter f p q d :
  ¬ p `prefix_of` q → is_directory (lookup_at q d) = true → is_directory (lookup_at q (alter_at f p d)) = true.
Proof.
  revert q d. induction p as [|name p IH]; intros q d Hpq Hd; [by destruct Hpq; apply prefix_nil|].
  destruct d as [s|entries|t|]; [by destruct p| |by destruct p|by destruct p].
  destruct q as [|name' q]; cbn [lookup_at] in *.
  { destruct p; cbn; [done|]. by destruct (entries !! name). }
  destruct p as [|name2 p]; cbn [alter_at lookup_at].
  - rewrite lookup_partial_alter_ne; [done|]. intros <-. apply Hpq. apply prefix_cons, prefix_nil.
  - destruct (entries !! name) as [child|] eqn:E; [|done]. cbn [lookup_at]. destruct (decide (name = name')) as [<-|Hne].
    + rewrite lookup_insert_eq. rewrite E in Hd. apply IH; [|done]. by rewrite prefix_cons_eq in Hpq.
    + by rewrite lookup_insert_ne.
Qed.
Lemma parent_snoc (p : place) name : parent (p ++ [name]) = p.
Proof. apply removelast_last. Qed.
Lemma apart_names (p : place) a b : a ≠ b → apart (p ++ [a]) (p ++ [b]).
Proof. intros H. split; intros [k Hk]; rewrite <-app_assoc in Hk; apply app_inv_head in Hk; by injection Hk as Hab; subst. Qed.
Lemma apart_below (p : place) a b rest : a ≠ b → apart (p ++ a :: rest) (p ++ [b]).
Proof.
  intros H. split; intros [k Hk]; rewrite <-app_assoc in Hk; apply app_inv_head in Hk; cbn in Hk; by injection Hk as Hab.
Qed.
Lemma lookup_parent p d n : p ≠ [] → lookup_at p d = Some n → is_directory (lookup_at (parent p) d) = true.
Proof.
  revert d. induction p as [|name p IH]; intros d Hne H; [done|]. destruct d as [s|entries|t|]; try done.
  destruct p as [|name2 p]; [done|]. change (parent (name :: name2 :: p)) with (name :: parent (name2 :: p)).
  cbn [lookup_at] in *. destruct (entries !! name) as [child|]; [|done]. by apply IH.
Qed.
Lemma missing_parent p d : is_directory (lookup_at (parent p) d) = true → missing p d = NotFound.
Proof. unfold missing. by destruct (lookup_at (parent p) d) as [[]|]. Qed.
Definition put (p : place) (o : option node) (w : world) : world := with_disk (alter_at (λ _, o) p (disk w)) w.
Lemma with_disk_same w : with_disk (disk w) w = w.
Proof. by destruct w. Qed.

(** ** Weakest preconditions *)
Definition allowed (faulty : bool) (ev : list event) : Prop := faulty = true ∨ Forall (λ e, e = Proceed) ev.
Definition wp (faulty : bool) {A} (m : io A) (Q : A → world → Prop) (C : world → Prop) (w : world) : Prop :=
  ∀ ev, allowed faulty ev →
    match m ev w with
    | Returned a rest w => allowed faulty rest ∧ Q a w
    | Crashed w => faulty = true ∧ C w
    | Panicked => False
    end.
Section wp.
Context (faulty : bool).
Implicit Types (w : world) (C : world → Prop).
Notation wp := (wp faulty).
Lemma wp_ret {A} (a : A) (Q : A → world → Prop) C w : Q a w → wp (mret a) Q C w.
Proof. intros H ev Hev. by split. Qed.
Lemma wp_bind {A B} (m : io A) (f : A → io B) (Q : B → world → Prop) C w :
  wp m (λ a w, wp (f a) Q C w) C w → wp (m ≫= f) Q C w.
Proof.
  intros H ev Hev. specialize (H ev Hev). unfold mbind, io_bind. destruct (m ev w) as [a rest w'|w'|]; [|done..].
  destruct H as [Hrest H]. by apply H.
Qed.
Lemma wp_wand {A} (m : io A) (Q Q' : A → world → Prop) C C' w :
  wp m Q C w → (∀ a w, Q a w → Q' a w) → (faulty = true → ∀ w, C w → C' w) → wp m Q' C' w.
Proof. intros H HQ HC ev Hev. specialize (H ev Hev). destruct (m ev w); [|by destruct H; auto|done]. destruct H; auto. Qed.
Lemma allowed_tail ev : allowed faulty ev → allowed faulty (tail ev).
Proof. intros [H|H]; [by left|right]. by destruct H. Qed.
Lemma wp_effect {A} (run : node → result io_error A * node) torn (Q : result io_error A → world → Prop) C w :
  (faulty = true → ∀ debris, C (with_disk (torn debris (disk w)) w) ∧ Q (Err OtherError) (with_disk (torn debris (disk w)) w)) →
  Q (run (disk w)).1 (with_disk (run (disk w)).2 w) →
  wp (effect run torn) Q C w.
Proof.
  intros Ht Hr ev Hev. unfold effect. destruct ev as [|[|x|x] ev].
  - by destruct (run (disk w)).
  - apply allowed_tail in Hev. by destruct (run (disk w)).
  - destruct Hev as [Hf|Hf]; [|by inversion Hf]. split; [by left|by apply Ht].
  - destruct Hev as [Hf|Hf]; [|by inversion Hf]. split; [done|by apply Ht].
Qed.
Lemma wp_atomic {A} (run : node → result io_error A * node) (Q : result io_error A → world → Prop) C w :
  (faulty = true → C w ∧ Q (Err OtherError) w) → Q (run (disk w)).1 (with_disk (run (disk w)).2 w) → wp (atomic run) Q C w.
Proof. intros Ht Hr. apply wp_effect; [|done]. intros Hf _. rewrite with_disk_same. by apply Ht. Qed.
Lemma wp_inspect {A} (look : node → result io_error A) (Q : result io_error A → world → Prop) C w :
  (faulty = true → C w ∧ Q (Err OtherError) w) → Q (look (disk w)) w → wp (inspect look) Q C w.
Proof. intros Ht Hr. apply wp_atomic; [done|]. cbn. by rewrite with_disk_same. Qed.
Lemma wp_touch (Q : result io_error () → world → Prop) C w :
  (faulty = true → C w ∧ Q (Err OtherError) w) → Q (Ok tt) w → wp touch Q C w.
Proof. apply (wp_inspect (λ _, Ok tt)). Qed.
Lemma wp_try {E A B} (m : io (result E A)) (f : A → io (result E B)) (Q : result E B → world → Prop) C w :
  wp m (λ r w, match r with Ok a => wp (f a) Q C w | Err e => Q (Err e) w end) C w → wp (try_bind m f) Q C w.
Proof.
  intros H. apply wp_bind. eapply wp_wand; [exact H| |done]. intros [a|e] w' Hr; [done|]. by apply wp_ret.
Qed.
Lemma wp_explain {A} text (m : io (result io_error A)) (Q : result string A → world → Prop) C w :
  wp m (λ r w, Q (map_err (λ _, text) r) w) C w → wp (explain text m) Q C w.
Proof. intros H. apply wp_bind. eapply wp_wand; [exact H| |done]. intros r w' Hr. by apply wp_ret. Qed.
Lemma wp_ignore {A} (m : io A) (Q : () → world → Prop) C w : wp m (λ _ w, Q tt w) C w → wp (ignore m) Q C w.
Proof. intros H. apply wp_bind. eapply wp_wand; [exact H| |done]. intros r w' Hr. by apply wp_ret. Qed.
Lemma wp_nonce clock (Q : N → world → Prop) C w : (∀ n last, Q n (mk_world (disk w) last)) → wp (Activation.unique_nonce clock) Q C w.
Proof. intros H ev Hev. by split. Qed.

(** Computations that change nothing. *)
Definition stays {A} (m : io A) : Prop := ∀ w, wp m (λ _ w', w' = w) (λ w', w' = w) w.
Lemma stays_ret {A} (a : A) : stays (mret a).
Proof. intros w. by apply wp_ret. Qed.
Lemma stays_inspect {A} (look : node → result io_error A) : stays (inspect look).
Proof. intros w. by apply wp_inspect. Qed.
Lemma stays_bind {A B} (m : io A) (f : A → io B) : stays m → (∀ a, stays (f a)) → stays (m ≫= f).
Proof. intros Hm Hf w. apply wp_bind. eapply wp_wand; [apply Hm| |done]. intros a ? ->. apply Hf. Qed.
Lemma stays_try {E A B} (m : io (result E A)) (f : A → io (result E B)) : stays m → (∀ a, stays (f a)) → stays (try_bind m f).
Proof. intros Hm Hf. apply stays_bind; [done|]. intros [a|e]; [apply Hf|apply stays_ret]. Qed.
Lemma stays_explain {A} text (m : io (result io_error A)) : stays m → stays (explain text m).
Proof. intros Hm. apply stays_bind; [done|]. intros a. apply stays_ret. Qed.
Lemma wp_stays {A B} (m : io A) (f : A → io B) (Q : B → world → Prop) C w :
  stays m → (faulty = true → C w) → (∀ a, wp (f a) Q C w) → wp (m ≫= f) Q C w.
Proof. intros Hm HC Hf. apply wp_bind. eapply wp_wand; [apply Hm|by intros a ? ->|by intros H ? ->; apply HC]. Qed.
Lemma wp_stays_try {E A B} (m : io (result E A)) (f : A → io (result E B)) (Q : result E B → world → Prop) C w :
  stays m → (faulty = true → C w) → (∀ e, Q (Err e) w) → (∀ a, wp (f a) Q C w) → wp (try_bind m f) Q C w.
Proof. intros Hm HC HQ Hf. apply wp_stays; [done..|]. intros [a|e]; [apply Hf|by apply wp_ret]. Qed.
End wp.
