(* ===== verification/Slots.v ===== *)
(** * The places of a project

    The files and directories of a project that an installation touches, as named slots,
    and the effect of each call on them: [views] says what every slot holds, and a call
    changes the slots it names and leaves the others alone. *)
From S2P Require Import Prelude Order RustStr CrashFs Activation CrashLogic.

Inductive slot :=
| Marker | MarkerBackup | Tree | TreeBackup | Staged | Journal | JournalBackup | Lockfile | Manifest | LockOwner.
#[export] Instance slot_eq_dec : EqDecision slot.
Proof. solve_decision. Defined.
Definition upd (v : slot → option node) (s : slot) (o : option node) : slot → option node :=
  λ t, if decide (t = s) then o else v t.
Lemma upd_eq v s o : upd v s o s = o.
Proof. unfold upd. by rewrite decide_True. Qed.
Lemma upd_ne v s t o : t ≠ s → upd v s o t = v t.
Proof. intros H. unfold upd. by rewrite decide_False. Qed.

Section slots.
Context (project : place) (owner stage_name : string).
Definition slot_name (s : slot) : string :=
  match s with
  | Marker => ".tapid-managed"
  | MarkerBackup => ".tapid-managed-old-" +:+ owner
  | Tree => "node_modules"
  | TreeBackup => ".tapid-node-modules-old-" +:+ owner
  | Staged => stage_name
  | Journal => ".tapid-lifecycle-journal.json"
  | JournalBackup => ".tapid-lifecycle-journal.lifecycle.bak"
  | Lockfile => "tapid.lock"
  | Manifest => "package.json"
  | LockOwner => ".tapid-activation.lock"
  end.
Definition stage_place : place := project ++ [stage_name].
Definition slot_place (s : slot) : place :=
  match s with Staged => stage_place ++ ["node_modules"] | s => project ++ [slot_name s] end.
(** A name that is no slot's: a temporary file's, or the stage's. *)
Definition other_name (name : string) : Prop := ∀ s, slot_name s ≠ name.
Context (Hstage : ∀ s, s ≠ Staged → slot_name s ≠ stage_name).
Implicit Types (w : world) (v : slot → option node) (d : node).

Lemma slot_name_inj s t : s ≠ Staged → t ≠ Staged → slot_name s = slot_name t → s = t.
Proof. by destruct s, t; intros Hs Ht H; try done; cbn in H; discriminate H. Qed.
Lemma staged_place : slot_place Staged = project ++ [stage_name; "node_modules"].
Proof. cbn. unfold stage_place. by rewrite <-app_assoc. Qed.
Lemma apart_sym p q : apart p q → apart q p.
Proof. intros [??]. by split. Qed.
Lemma slots_apart s t : s ≠ t → apart (slot_place s) (slot_place t).
Proof.
  assert (∀ t, t ≠ Staged → apart (slot_place Staged) (slot_place t)) as Hst.
  { intros t' Ht. rewrite staged_place. assert (slot_place t' = project ++ [slot_name t']) as -> by (by destruct t').
    apply apart_below. intros E. by apply (Hstage t'). }
  intros Hne. destruct (decide (s = Staged)) as [->|Hs]; [by apply Hst|].
  destruct (decide (t = Staged)) as [->|Ht]; [by apply apart_sym, Hst|].
  assert (slot_place s = project ++ [slot_name s]) as -> by (by destruct s).
  assert (slot_place t = project ++ [slot_name t]) as -> by (by destruct t).
  apply apart_names. intros E. by apply Hne, slot_name_inj.
Qed.
Definition outside (p : place) : Prop :=
  p ≠ [] ∧ ¬ p `prefix_of` project ∧ ∀ s, apart p (slot_place s).
Lemma outside_name name : other_name name → outside (project ++ [name]).
Proof.
  intros Hn. split_and!; [by destruct project|intros [k Hk]; apply (f_equal length) in Hk; rewrite !length_app in Hk; cbn in Hk; lia|].
  intros s. destruct (decide (s = Staged)) as [->|Hs].
  - rewrite staged_place. apply apart_sym, apart_below. apply (Hn Staged).
  - assert (slot_place s = project ++ [slot_name s]) as -> by (by destruct s). apply apart_names. intros E. by apply (Hn s).
Qed.

(** ** What the slots hold *)
Definition views w v : Prop := is_directory (lookup_at project (disk w)) = true ∧ ∀ s, lookup_at (slot_place s) (disk w) = v s.
Lemma slot_parent w v s : views w v → s ≠ Staged ∨ is_Some (v s) → is_directory (lookup_at (parent (slot_place s)) (disk w)) = true.
Proof.
  intros [Hd Hv] Hs. destruct (decide (s = Staged)) as [->|Hne].
  - destruct Hs as [|[n Hn]]; [done|]. eapply lookup_parent; [|by rewrite Hv]. rewrite staged_place. by destruct project.
  - assert (slot_place s = project ++ [slot_name s]) as -> by (by destruct s). by rewrite parent_snoc.
Qed.
Lemma slot_not_prefix s : ¬ slot_place s `prefix_of` project ∧ slot_place s ≠ [].
Proof.
  assert (length project < length (slot_place s))%nat as Hlen.
  { destruct s; cbn [slot_place]; rewrite ?staged_place; unfold stage_place; rewrite ?length_app; cbn; lia. }
  split; [intros [k Hk]; rewrite Hk, length_app in Hlen; lia|by destruct (slot_place s); cbn in Hlen; [lia|]].
Qed.
Lemma views_put w v s o : views w v → s ≠ Staged ∨ is_Some (v s) → views (put (slot_place s) o w) (upd v s o).
Proof.
  intros Hv Hs. pose proof (slot_parent _ _ _ Hv Hs) as Hp. destruct Hv as [Hd Hv]. destruct (slot_not_prefix s) as [Hpre Hne].
  split; [by apply directory_alter|]. intros t. cbn. destruct (decide (t = s)) as [->|Hts].
  - rewrite lookup_alter_eq by done. by rewrite upd_eq.
  - rewrite lookup_alter_ne by (by apply slots_apart). by rewrite upd_ne.
Qed.
Lemma views_outside w v p o : views w v → outside p → views (put p o w) v.
Proof.
  intros [Hd Hv] (Hne&Hpre&Ha). split; [by apply directory_alter|]. intros s. cbn. rewrite lookup_alter_ne by done. apply Hv.
Qed.
(** Whatever becomes of the stage, only the staged tree can change. *)
Lemma views_stage w v o : views w v → ∃ o', views (put stage_place o w) (upd v Staged o').
Proof.
  intros [Hd Hv]. exists (lookup_at (slot_place Staged) (disk (put stage_place o w))). split.
  - apply directory_alter; [|done]. unfold stage_place. intros [k Hk]. apply (f_equal length) in Hk. rewrite !length_app in Hk. cbn in Hk. lia.
  - intros s. destruct (decide (s = Staged)) as [->|Hs]; [by rewrite upd_eq|]. rewrite upd_ne by done. cbn.
    assert (slot_place s = project ++ [slot_name s]) as E by (by destruct s). rewrite <-Hv, E. apply lookup_alter_ne.
    apply apart_names. intros H. by apply (Hstage s).
Qed.
Lemma views_nonce w v last : views w v → views (mk_world (disk w) last) v.
Proof. done. Qed.
Lemma views_ext w v v' : (∀ s, v s = v' s) → views w v → views w v'.
Proof. intros H [Hd Hv]. split; [done|]. intros s. by rewrite Hv. Qed.

(** ** The calls *)
Section rules.
Context (faulty : bool).
Implicit Types (C : world → Prop).
Notation wp := (wp faulty).
Notation views := (views).
Lemma look_slot w v s : views w v →
  look (slot_place s) (disk w) = match v s with Some n => Ok n | None => Err (missing (slot_place s) (disk w)) end.
Proof. intros [Hd Hv]. unfold look. by rewrite Hv. Qed.
Lemma missing_slot w v s : views w v → s ≠ Staged → missing (slot_place s) (disk w) = NotFound.
Proof. intros Hv Hs. apply missing_parent. eapply slot_parent; [done|by left]. Qed.
Lemma wp_stat s v (Q : result io_error node → world → Prop) C w :
  views w v → (faulty = true → C w ∧ Q (Err OtherError) w) →
  (∀ n, v s = Some n → Q (Ok n) w) → (v s = None → ∀ e, (s ≠ Staged → e = NotFound) → Q (Err e) w) →
  wp (symlink_metadata (slot_place s)) Q C w.
Proof.
  intros Hv Hf Hs Hn. apply wp_inspect; [done|]. rewrite (look_slot _ _ _ Hv). destruct (v s) as [n|] eqn:E; [by apply Hs|].
  apply Hn; [done|]. by apply (missing_slot _ _ _ Hv).
Qed.
Lemma wp_exists s v (Q : bool → world → Prop) C w :
  views w v → (faulty = true → C w ∧ Q false w) →
  (∀ n, v s = Some n → Q (bool_decide (is_Some (followed n))) w) → (v s = None → Q false w) →
  wp (path_exists (slot_place s)) Q C w.
Proof.
  intros Hv Hf Hs Hn. apply wp_bind. apply (wp_stat s v); [done| | |].
  - intros H. destruct (Hf H). split; [done|]. by apply wp_ret.
  - intros n E. apply wp_ret. by apply Hs.
  - intros E e _. apply wp_ret. by apply Hn.
Qed.
Lemma wp_rename s t v (Q : result io_error () → world → Prop) C w :
  s ≠ t → t ≠ Staged → views w v → (faulty = true → C w ∧ Q (Err OtherError) w) →
  (v s = None → ∀ e, Q (Err e) w) →
  (∀ n w', v s = Some n → replaceable n (v t) = true → views w' (upd (upd v s None) t (Some n)) → Q (Ok tt) w') →
  (∀ n, v s = Some n → replaceable n (v t) = false → Q (Err OtherError) w) →
  wp (rename (slot_place s) (slot_place t)) Q C w.
Proof.
  intros Hst Ht Hv Hf Hnone Hok Hno. apply wp_atomic; [done|]. pose proof Hv as [Hd Hvs]. rewrite !Hvs.
  destruct (v s) as [n|] eqn:E; [|cbn; rewrite with_disk_same; by apply Hnone].
  rewrite (slot_parent _ _ t Hv) by (by left). cbn [negb].
  rewrite bool_decide_eq_false_2 by (intros Hp; apply (slots_apart s t Hst); rewrite Hp; apply prefix_nil || by exists []; rewrite app_nil_r).
  rewrite bool_decide_eq_false_2 by (apply (slots_apart s t Hst)).
  destruct (replaceable n (v t)) eqn:Er; cbn [fst snd]; [|rewrite with_disk_same; by eapply Hno].
  eapply Hok; [done|done|].
  assert (views (put (slot_place s) None w) (upd v s None)) as H1 by (apply views_put; [done|right; by rewrite E]).
  exact (views_put _ _ t (Some n) H1 (or_introl Ht)).
Qed.
Lemma wp_rename_in p t v n0 (Q : result io_error () → world → Prop) C w :
  outside p → t ≠ Staged → views w v → lookup_at p (disk w) = Some n0 → (faulty = true → C w ∧ Q (Err OtherError) w) →
  (∀ w', replaceable n0 (v t) = true → views w' (upd v t (Some n0)) → Q (Ok tt) w') →
  (replaceable n0 (v t) = false → Q (Err OtherError) w) →
  wp (rename p (slot_place t)) Q C w.
Proof.
  intros Hp Ht Hv Hl Hf Hok Hno. apply wp_atomic; [done|]. pose proof Hv as [Hd Hvs]. rewrite Hl, !Hvs.
  rewrite (slot_parent _ _ t Hv) by (by left). cbn [negb]. destruct Hp as (Hne&Hpre&Ha).
  rewrite bool_decide_eq_false_2 by (intros ->; apply (Ha t); by exists []; rewrite app_nil_r).
  rewrite bool_decide_eq_false_2 by (apply (Ha t)).
  destruct (replaceable n0 (v t)) eqn:Er; cbn [fst snd]; [|rewrite with_disk_same; by apply Hno].
  apply Hok; [done|]. assert (views (put p None w) v) as H1 by (by apply views_outside).
  exact (views_put _ _ t (Some n0) H1 (or_introl Ht)).
Qed.
Lemma wp_remove_file s v (Q : result io_error () → world → Prop) C w :
  views w v → (faulty = true → C w ∧ Q (Err OtherError) w) →
  (v s = None → ∀ e, (s ≠ Staged → e = NotFound) → Q (Err e) w) →
  (∀ n, v s = Some n → is_dir n = true → Q (Err OtherError) w) →
  (∀ n w', v s = Some n → is_dir n = false → views w' (upd v s None) → Q (Ok tt) w') →
  wp (remove_file (slot_place s)) Q C w.
Proof.
  intros Hv Hf Hnone Hdir Hok. apply wp_atomic; [done|]. pose proof Hv as [Hd Hvs]. rewrite Hvs.
  destruct (v s) as [n|] eqn:E; [|cbn; rewrite with_disk_same; apply Hnone; [done|by apply (missing_slot _ _ _ Hv)]].
  assert (views (put (slot_place s) None w) (upd v s None)) as H1 by (apply views_put; [done|right; by rewrite E]).
  destruct n as [x|x|x|]; cbn [fst snd]; [by eapply Hok|rewrite with_disk_same; by eapply Hdir|by eapply Hok..].
Qed.
Lemma wp_remove_file_outside p v (Q : result io_error () → world → Prop) C w :
  outside p → views w v → (∀ w', faulty = true → views w' v → C w') → (∀ r w', views w' v → Q r w') →
  wp (remove_file p) Q C w.
Proof.
  intros Hp Hv HC HQ. apply wp_atomic; [intros Hf; split; [by apply HC|by apply HQ]|].
  destruct (lookup_at p (disk w)) as [[x|x|x|]|]; cbn [fst snd]; rewrite ?with_disk_same; apply HQ; try done; by apply (views_outside w v p None).
Qed.
Lemma wp_remove_dir s v (Q : result io_error () → world → Prop) C w :
  views w v →
  (faulty = true → ∀ left w', (is_directory (v s) = true → views w' (upd v s (Some (Directory left)))) →
     (is_directory (v s) = false → views w' v) → C w' ∧ Q (Err OtherError) w') →
  (v s = None → ∀ e, Q (Err e) w) →
  (∀ n, v s = Some n → is_regular n || match n with Special => true | _ => false end = true → Q (Err OtherError) w) →
  (∀ n w', v s = Some n → views w' (upd v s None) → Q (Ok tt) w') →
  wp (remove_dir_all (slot_place s)) Q C w.
Proof.
  intros Hv Hf Hnone Hno Hok. pose proof Hv as [Hd Hvs]. apply wp_effect.
  - intros H x. apply (Hf H (left_entries x)); unfold leave_entries; rewrite Hvs; intros E; destruct (v s) as [[a|a|a|]|] eqn:Es; try done;
      try (by rewrite with_disk_same).
    apply (views_put w v s); [done|right; by rewrite Es].
  - rewrite Hvs. destruct (v s) as [n|] eqn:E; [|cbn; rewrite with_disk_same; by apply Hnone].
    assert (views (put (slot_place s) None w) (upd v s None)) as H1 by (apply views_put; [done|right; by rewrite E]).
    destruct n as [x|x|x|]; cbn [fst snd]; [rewrite with_disk_same; by eapply Hno|by eapply Hok|by eapply Hok|rewrite with_disk_same; by eapply Hno].
Qed.
Lemma wp_create_outside p v (Q : result io_error () → world → Prop) C w :
  outside p → views w v → (faulty = true → C w ∧ Q (Err OtherError) w) → (∀ e, Q (Err e) w) →
  (∀ w', views w' v → lookup_at p (disk w') = Some (File "") → Q (Ok tt) w') →
  wp (create_new p) Q C w.
Proof.
  intros Hp Hv Hf He Hok. apply wp_atomic; [done|]. destruct (lookup_at p (disk w)) as [n|] eqn:E; [cbn; rewrite with_disk_same; apply He|].
  destruct (is_directory _) eqn:Ed; cbn [fst snd]; [|rewrite with_disk_same; apply He].
  apply Hok; [by apply (views_outside w v p)|]. cbn. rewrite lookup_alter_eq by (done || by apply Hp). done.
Qed.
Lemma wp_write_outside p v s0 text (Q : result io_error () → world → Prop) C w :
  outside p → views w v → lookup_at p (disk w) = Some (File s0) →
  (∀ w', faulty = true → views w' v → C w' ∧ Q (Err OtherError) w') →
  (∀ w', views w' v → lookup_at p (disk w') = Some (File text) → Q (Ok tt) w') →
  wp (write_all p text) Q C w.
Proof.
  intros Hp Hv Hl Hf Hok.
  assert (∀ t, views (with_disk (set_content p t (disk w)) w) v) as Hset.
  { intros t. unfold set_content. rewrite Hl. by apply (views_outside w v p). }
  apply wp_effect; [intros H x; by apply Hf|]. cbn [fst snd]. apply Hok; [done|]. cbn. unfold set_content. rewrite Hl.
  rewrite lookup_alter_eq; [done|by apply Hp|]. eapply lookup_parent; [by apply Hp|done].
Qed.
Lemma wp_sync_project v (Q : result io_error () → world → Prop) C w :
  views w v → (faulty = true → C w ∧ Q (Err OtherError) w) → Q (Ok tt) w → wp (sync_all project) Q C w.
Proof.
  intros [Hd Hv] Hf Hok. apply wp_inspect; [done|]. unfold look. destruct (lookup_at project (disk w)); [done|by cbn in Hd].
Qed.
End rules.
End slots.
