(* ===== verification/ActivationInv.v ===== *)
(** * Interrupted activations can be undone

    Wherever an activation that keeps the previous tree fails or crashes, the project is in
    a state from which a rollback restores what was there before; a rollback that crashes
    itself leaves such a state again. *)
From S2P Require Import Prelude Order RustStr CrashFs Activation CrashLogic Slots.

Section activation.
Context (project : place) (owner stage_name : string).
Context (Hstage : ∀ s, s ≠ Staged → slot_name owner stage_name s ≠ stage_name).
Context (faulty : bool).
Notation wp := (wp faulty).
Notation views := (views project owner stage_name).
Notation slot_place := (slot_place project owner stage_name).
Notation outside := (outside project owner stage_name).
Implicit Types (w : world) (v : slot → option node).
(** What was there before. *)
Context (old_marker old_tree : option node).
Context (Hmarker : ∀ n, old_marker = Some n → is_regular n = true).
Context (Htree : ∀ n, old_tree = Some n → ∃ entries, n = Directory entries ∧ entries ≠ ∅).

Definition a_file (o : option node) : Prop := ∃ s, o = Some (File s).
Definition a_directory (o : option node) : Prop := ∃ m, o = Some (Directory m).
Definition marker_kept v : Prop :=
  (v MarkerBackup = None ∧ (v Marker = old_marker ∨ (old_marker = None ∧ a_file (v Marker)))) ∨
  (v MarkerBackup = old_marker ∧ is_Some old_marker ∧ (v Marker = None ∨ a_file (v Marker))).
Definition tree_kept v : Prop :=
  (v TreeBackup = None ∧ (v Tree = old_tree ∨ (old_tree = None ∧ a_directory (v Tree)))) ∨
  (v TreeBackup = old_tree ∧ is_Some old_tree ∧ (v Tree = None ∨ a_directory (v Tree))).
Definition activation_slot (s : slot) : bool :=
  match s with Marker | MarkerBackup | Tree | TreeBackup | Staged => true | _ => false end.
Definition rest_same v v0 : Prop := ∀ s, activation_slot s = false → v s = v0 s.
Context (v0 : slot → option node).
Definition kept v : Prop := marker_kept v ∧ tree_kept v ∧ rest_same v v0.
Definition recoverable w : Prop := ∃ v, views w v ∧ kept v.

Lemma rest_upd v s o : activation_slot s = true → rest_same v v0 → rest_same (upd v s o) v0.
Proof. intros Hs Hv t Ht. rewrite upd_ne; [by apply Hv|]. intros ->. congruence. Qed.
Lemma kept_upd_staged v o : kept v → kept (upd v Staged o).
Proof. intros (H1&H2&H3). split_and!; [done|done|by apply rest_upd]. Qed.

(** ** Steps on slots *)
Local Ltac stat s v := apply (wp_stat project owner stage_name faulty s v).
Local Ltac present s v := apply (wp_exists project owner stage_name faulty s v).
Local Ltac moved s t v := apply (wp_rename project owner stage_name Hstage faulty s t v).
Local Ltac removed s v := apply (wp_remove_file project owner stage_name Hstage faulty s v).
Local Ltac cleared s v := apply (wp_remove_dir project owner stage_name Hstage faulty s v).

(** ** Restoring *)
Lemma kept_marker_back v n :
  kept v → v MarkerBackup = Some n → is_regular n = true ∧ kept (upd (upd v MarkerBackup None) Marker (Some n)).
Proof.
  intros (Hm&Ht&Hs) Hn. destruct Hm as [[Hm _]|(Hm&_&_)]; [congruence|]. split; [apply Hmarker; congruence|].
  split_and!; [|done|by repeat (apply rest_upd; [done|])]. left. rewrite upd_ne, !upd_eq by done. split; [done|left; congruence].
Qed.
Lemma kept_tree_back v n :
  kept v → v TreeBackup = Some n → is_dir n = true ∧ kept (upd (upd v TreeBackup None) Tree (Some n)).
Proof.
  intros (Hm&Ht&Hs) Hn. destruct Ht as [[Ht _]|(Ht&_&_)]; [congruence|].
  split; [destruct (Htree n) as (m&->&_); [congruence|done]|].
  split_and!; [done| |by repeat (apply rest_upd; [done|])]. left. rewrite upd_ne, !upd_eq by done. split; [done|left; congruence].
Qed.
Lemma restore_marker_kept b w :
  recoverable w →
  wp (restore_marker (slot_place Marker) (slot_place MarkerBackup) b) (λ _ w, recoverable w) recoverable w.
Proof.
  intros Hr. pose proof Hr as (v&Hv&Hk). unfold restore_marker. destruct b; cbn [negb]; [|by apply wp_ret].
  apply wp_bind. stat MarkerBackup v; [done|intros _; split; [done|by apply wp_ret]| |intros; by apply wp_ret].
  intros n Hn. destruct (kept_marker_back v n Hk Hn) as [-> Hback].
  apply wp_explain. moved MarkerBackup Marker v; [done..| |done].
  intros n' w' Hn' _ Hv'. rewrite Hn in Hn'. injection Hn' as <-. by eexists.
Qed.
Lemma put_back_kept w :
  recoverable w → wp (put_back (slot_place Tree) (slot_place TreeBackup)) (λ _ w, recoverable w) recoverable w.
Proof.
  intros Hr. pose proof Hr as (v&Hv&Hk). unfold put_back. apply wp_bind.
  present TreeBackup v; [done|intros _; split; [done|by apply wp_ret]| |intros; by apply wp_ret].
  intros n Hn. destruct (kept_tree_back v n Hk Hn) as [_ Hback]. case_bool_decide; [|by apply wp_ret].
  apply wp_ignore. moved TreeBackup Tree v; [done..| |done].
  intros n' w' Hn' _ Hv'. rewrite Hn in Hn'. injection Hn' as <-. by eexists.
Qed.
Lemma restore_node_modules_backup_kept w :
  recoverable w →
  wp (restore_node_modules_backup (slot_place Tree) (slot_place TreeBackup)) (λ _ w, recoverable w) recoverable w.
Proof.
  intros Hr. pose proof Hr as (v&Hv&Hk). unfold restore_node_modules_backup. apply wp_bind.
  present TreeBackup v; [done|intros _; split; [done|by apply wp_ret]| |intros; by apply wp_ret].
  intros n Hn. destruct (kept_tree_back v n Hk Hn) as [_ Hback]. case_bool_decide; [|by apply wp_ret].
  apply wp_explain. moved TreeBackup Tree v; [done..| |done].
  intros n' w' Hn' _ Hv'. rewrite Hn in Hn'. injection Hn' as <-. by eexists.
Qed.
(** A failure ends with a recoverable project. *)
Definition settled {A} (r : result string A) w : Prop := is_ok r = false ∧ recoverable w.
Lemma restored_failure {A} b (reason : result string () → string) w :
  recoverable w →
  wp (restore ← restore_marker (slot_place Marker) (slot_place MarkerBackup) b; fail (A:=A) (reason restore)) settled recoverable w.
Proof.
  intros Hr. apply wp_bind. eapply wp_wand; [by apply restore_marker_kept| |done]. intros r w' Hr'. by apply wp_ret.
Qed.
Lemma abandon_settled {A} b reason w :
  recoverable w →
  wp (abandon (A:=A) (slot_place Tree) (slot_place TreeBackup) (slot_place Marker) (slot_place MarkerBackup) b reason) settled recoverable w.
Proof.
  intros Hr. unfold abandon. apply wp_bind. eapply wp_wand; [by apply restore_node_modules_backup_kept| |done].
  intros r w' Hr'. by apply (restored_failure b (λ restore, appended (appended reason r) restore)).
Qed.
Lemma put_back_failure {A} b (reason : result string () → string) w :
  recoverable w →
  wp (_ ← put_back (slot_place Tree) (slot_place TreeBackup);
      restore ← restore_marker (slot_place Marker) (slot_place MarkerBackup) b; fail (A:=A) (reason restore)) settled recoverable w.
Proof.
  intros Hr. apply wp_bind. eapply wp_wand; [by apply put_back_kept| |done]. intros [] w' Hr'. by apply restored_failure.
Qed.

(** ** Completing an activation *)
Context (pid : N) (clock : N → N).
Context (Htemp : ∀ nonce, outside (project ++ [".tapid-managed-" +:+ decimal pid +:+ "-" +:+ decimal nonce +:+ ".tmp"])).
Context (new_tree : gmap string node).
(** The staged tree is in place, and all that was there before is kept. *)
Definition replaced v : Prop :=
  v MarkerBackup = old_marker ∧ v TreeBackup = old_tree ∧ v Tree = Some (Directory new_tree) ∧ rest_same v v0.
Definition activated w : Prop := ∃ v, views w v ∧ replaced v ∧ v Marker = Some (File MANAGED_MARKER).
Lemma replaced_kept v : replaced v → (v Marker = None ∨ a_file (v Marker)) → kept v.
Proof.
  intros (Hmb&Htb&Ht&Hs) Hm. split_and!; [| |done].
  - unfold marker_kept. rewrite Hmb. destruct old_marker as [n|] eqn:E; [right; split_and!; [done|by eexists|done]|].
    left. split; [done|]. destruct Hm as [Hm|Hm]; [by left|by right].
  - unfold tree_kept. rewrite Htb. destruct old_tree as [n|] eqn:E; [right; split_and!; [done|by eexists|right; by eexists]|].
    left. split; [done|]. right. split; [done|]. by eexists.
Qed.
Definition completed {A} (r : result string A) w : Prop := recoverable w ∧ (is_ok r = true → activated w).
Lemma settled_completed {A} (r : result string A) w : settled r w → completed r w.
Proof. intros [Hr Hw]. split; [done|by rewrite Hr]. Qed.
Definition replaced_at w : Prop := ∃ v, views w v ∧ replaced v ∧ v Marker = None.
Lemma replaced_at_recoverable w : replaced_at w → recoverable w.
Proof. intros (v&Hv&Hr&Hm). exists v. split; [done|]. apply replaced_kept; [done|by left]. Qed.
Lemma activated_recoverable w : activated w → recoverable w.
Proof. intros (v&Hv&Hr&Hm). exists v. split; [done|]. apply replaced_kept; [done|right; by eexists]. Qed.
(** The new tree may go, or part of it. *)
Lemma remove_replaced w :
  replaced_at w → wp (ignore (remove_dir_all (slot_place Tree))) (λ _ w, recoverable w) recoverable w.
Proof.
  intros (v&Hv&Hr&Hm). pose proof Hr as (Hmb&Htb&Ht&Hs). pose proof (replaced_kept v Hr (or_introl Hm)) as (Kmk&Ktr&Krest).
  assert (∀ o, o = None ∨ a_directory o → kept (upd v Tree o)) as Hk.
  { intros o Ho. split_and!; [done| |by apply rest_upd]. unfold tree_kept. rewrite upd_ne, !upd_eq, Htb by done.
    destruct old_tree as [n|] eqn:E; [by right|]. left. split; [done|]. destruct Ho; [by left|by right]. }
  apply wp_ignore. cleared Tree v; [done| |congruence| |].
  - intros _ left w' Hdir Hno. assert (recoverable w') as Hr'; [|done]. exists (upd v Tree (Some (Directory left))). split; [|apply Hk; right; by eexists].
    apply Hdir. by rewrite Ht.
  - intros n E. rewrite Ht in E. by injection E as <-.
  - intros n w' _ Hv'. exists (upd v Tree None). split; [done|]. apply Hk. by left.
Qed.
Lemma write_marker_completed w :
  replaced_at w →
  wp (write_marker pid clock project (slot_place Marker))
    (λ r w, outside r.1 ∧ match r.2 with Ok _ => activated w | Err _ => replaced_at w end) recoverable w.
Proof.
  intros Hr. unfold write_marker. apply wp_bind, wp_nonce. intros nonce last.
  set (temp := project ++ [_]). assert (outside temp) as Hout by apply Htemp.
  assert (∀ w v, views w v → replaced v → v Marker = None → replaced_at w ∧ recoverable w) as Hat.
  { intros w' v Hv Hrep Hm. assert (replaced_at w') as H by (by exists v). split; [done|by apply replaced_at_recoverable]. }
  destruct Hr as (v&Hv&Hrep&Hm). pose proof (views_nonce project owner stage_name w v last Hv) as Hv1. clear Hv.
  generalize dependent (mk_world (disk w) last). clear w last. intros w Hv.
  apply wp_bind. apply (wp_create_outside project owner stage_name faulty temp v); [done|done| | |].
  { intros _. destruct (Hat w v); [done..|]. split; [done|]. by apply wp_ret. }
  { intros e. destruct (Hat w v); [done..|]. by apply wp_ret. }
  intros w1 Hv1 Hl1. apply wp_bind. apply (wp_write_outside project owner stage_name faulty temp v ""); [done|done|done| |].
  { intros w' _ Hv'. destruct (Hat w' v); [done..|]. split; [done|]. by apply wp_ret. }
  intros w2 Hv2 Hl2. destruct (Hat w2 v) as [Hat2 Hrec2]; [done..|]. apply wp_bind, wp_touch; [intros _; split; [done|by apply wp_ret]|].
  apply wp_bind. apply (wp_rename_in project owner stage_name Hstage faulty temp Marker v (File MANAGED_MARKER)); [done|done|done|done| | |].
  - intros _. split; [done|]. by apply wp_ret.
  - intros w3 _ Hv3. apply wp_ret. split; [done|]. eexists. split; [exact Hv3|]. rewrite upd_eq. split; [|done].
    destruct Hrep as (H1&H2&H3&H4). unfold replaced. rewrite !upd_ne by done. split_and!; [done..|]. by apply rest_upd.
  - intros _. apply wp_ret. split; [done|]. done.
Qed.
Lemma remove_temp temp w :
  outside temp → replaced_at w → wp (ignore (remove_file temp)) (λ _ w, replaced_at w) recoverable w.
Proof.
  intros Hout (v&Hv&Hr&Hm). apply wp_ignore. apply (wp_remove_file_outside project owner stage_name faulty temp v); [done|done| |].
  - intros w' _ Hv'. apply replaced_at_recoverable. by exists v.
  - intros _ w' Hv'. by exists v.
Qed.
(** With nothing kept of an old marker, a marker is not needed. *)
Lemma remove_marker_kept w :
  old_marker = None → recoverable w → wp (ignore (remove_file (slot_place Marker))) (λ _ w, recoverable w) recoverable w.
Proof.
  intros Hold Hr. pose proof Hr as (v&Hv&Hk). apply wp_ignore. removed Marker v; [done..|].
  intros n w' Hn _ Hv'. eexists. split; [done|]. destruct Hk as (Hm&Ht&Hs). split_and!; [|done|by apply rest_upd].
  left. rewrite upd_ne, upd_eq, Hold by done. split; [|by left]. destruct Hm as [[Hm _]|(_&[x Hx]&_)]; congruence.
Qed.
Lemma remove_stage w :
  activated w → wp (ignore (remove_dir_all (stage_place project stage_name))) (λ _ w, activated w) recoverable w.
Proof.
  intros Ha. pose proof Ha as (v&Hv&Hr&Hm).
  assert (∀ o, activated (put (stage_place project stage_name) o w)) as Hput.
  { intros o. destruct (views_stage project owner stage_name Hstage w v o Hv) as [o' Hv']. eexists. split; [exact Hv'|].
    rewrite upd_ne by done. split; [|done]. destruct Hr as (H1&H2&H3&H4). unfold replaced. rewrite !upd_ne by done.
    split_and!; [done..|by apply rest_upd]. }
  apply wp_ignore, wp_effect.
  - intros _ left. assert (activated (with_disk (leave_entries (stage_place project stage_name) left (disk w)) w)) as H;
      [|split; [by apply activated_recoverable|done]].
    unfold leave_entries. destruct (lookup_at _ _) as [[]|]; rewrite ?with_disk_same; try done. apply Hput.
  - destruct (lookup_at _ _) as [[]|]; cbn [fst snd]; rewrite ?with_disk_same; try done; apply Hput.
Qed.
Context (marker_exists : bool) (Hexists : marker_exists = bool_decide (is_Some old_marker)).
Lemma complete_activation_completed w :
  replaced_at w →
  wp (complete_activation pid clock project (stage_place project stage_name) owner marker_exists true) completed recoverable w.
Proof.
  intros Hr. assert (∀ w, replaced_at w → recoverable w) as Hrec by (apply replaced_at_recoverable).
  unfold complete_activation. pose proof Hr as (v&Hv&Hrep&Hm).
  apply wp_try, wp_explain, (wp_sync_project project owner stage_name faulty v); [done| |].
  { intros _. split; [by apply Hrec|]. by split; [apply Hrec|]. }
  cbn [map_err]. apply wp_bind, wp_bind. stat Tree v; [done| | |by destruct Hrep as (_&_&->&_)].
  { intros _. split; [by apply Hrec|]. apply wp_ret. cbn [negb]. apply wp_bind, wp_ignore.
    removed Tree v; [done| |by destruct Hrep as (_&_&->&_)| |].
    - intros _. split; [by apply Hrec|]. apply wp_bind. eapply wp_wand; [by apply remove_replaced| |done].
      intros [] w' Hr'. eapply wp_wand; [by apply (put_back_failure _ (λ restore, _))|apply settled_completed|done].
    - intros n Hn _. apply wp_bind. eapply wp_wand; [by apply remove_replaced| |done].
      intros [] w' Hr'. eapply wp_wand; [by apply (put_back_failure _ (λ restore, _))|apply settled_completed|done].
    - intros n w' Hn Hnd. destruct Hrep as (_&_&Ht&_). rewrite Ht in Hn. by injection Hn as <-. }
  intros n Hn. apply wp_ret. destruct Hrep as (_&_&Ht&_). rewrite Ht in Hn. injection Hn as <-. cbn [is_dir negb].
  apply wp_bind. eapply wp_wand; [by apply write_marker_completed| |done]. intros [temp [[]|e]] w' [Hout Hw].
  - (* the marker is written *) pose proof Hw as (v'&Hv'&_). apply wp_try, wp_explain, (wp_sync_project project owner stage_name faulty v'); [done| |].
    { intros _. assert (recoverable w') by (by apply activated_recoverable). split; [done|by split]. }
    cbn [map_err]. apply wp_bind, wp_ret, wp_bind. eapply wp_wand; [by apply remove_stage| |done].
    intros [] w2 Hw2. apply wp_ret. split; [by apply activated_recoverable|done].
  - apply wp_bind. eapply wp_wand; [by apply remove_temp| |done]. intros [] w2 Hw2.
    apply wp_bind. eapply wp_wand; [by apply remove_replaced| |done]. intros [] w3 Hw3.
    apply wp_bind. eapply wp_wand; [by apply put_back_kept| |done]. intros [] w4 Hw4.
    apply wp_bind. eapply wp_wand; [by apply restore_marker_kept| |done]. intros restore w5 Hw5.
    apply wp_bind. eapply (wp_wand _ _ (λ _ w, recoverable w)); [| |done].
    + destruct marker_exists; [by apply wp_ret|]. apply remove_marker_kept; [|done]. by destruct old_marker.
    + intros [] w6 Hw6. apply wp_ret. by split.
Qed.

(** ** Swapping the trees *)
(** The marker is out of the way; the old tree is where it was, or out of the way too. *)
Definition staged v : Prop :=
  v MarkerBackup = old_marker ∧ v Marker = None ∧ v Staged = Some (Directory new_tree) ∧ rest_same v v0.
Definition staged_tree v : Prop :=
  (v Tree = None ∧ v TreeBackup = old_tree) ∨ (v Tree = old_tree ∧ is_Some old_tree ∧ v TreeBackup = None).
Lemma staged_kept v : staged v → staged_tree v → kept v.
Proof.
  intros (Hmb&Hm&Hst&Hs) Ht. split_and!; [| |done].
  - unfold marker_kept. rewrite Hmb, Hm. destruct old_marker eqn:E; [right; split_and!; [done|by eexists|by left]|by left; split; [|left]].
  - destruct Ht as [[Ht Htb]|(Ht&Hold&Htb)]; unfold tree_kept; rewrite Ht, Htb; [|by left; split; [|left]].
    destruct old_tree eqn:E; [right; split_and!; [done|by eexists|by left]|by left; split; [|left]].
Qed.
Context (preflight : act ()).
Context (Hpreflight : ∀ v w, views w v → wp preflight (λ _ w, views w v) (λ w, views w v) w).
Context (inject : bool).
Lemma swap_trees_completed v w :
  views w v → staged v → v Tree = old_tree → v TreeBackup = None →
  wp (swap_trees pid clock project (stage_place project stage_name) owner marker_exists true inject preflight) completed recoverable w.
Proof.
  intros Hv Hst Ht Htb. unfold swap_trees.
  assert (∀ w v, views w v → staged v → staged_tree v → recoverable w) as Hrec by (intros w' v' H1 H2 H3; exists v'; split; [done|by apply staged_kept]).
  assert (∀ (m : act ()) w, wp m settled recoverable w → wp m completed recoverable w) as Hsettled.
  { intros m w' H. eapply wp_wand; [exact H|apply settled_completed|done]. }
  assert (staged_tree v) as Htr.
  { unfold staged_tree. rewrite Ht, Htb. destruct old_tree; [right; split_and!; [done|by eexists|done]|by left]. }
  apply wp_bind. apply (wp_wand _ _ (λ _ w, views w v) _ (λ w, views w v)); [| |by intros _ w' Hw'; apply (Hrec w' v)].
  { by present Tree v. }
  intros present w1 Hv1. clear Hv w. apply wp_bind.
  apply (wp_wand _ _ (λ r w, ∃ v, views w v ∧ staged v ∧ staged_tree v) _ recoverable); [| |done].
  { destruct present; [|apply wp_ret; by exists v].
    moved Tree TreeBackup v; [done..| | | |].
    - intros _. split; [by apply (Hrec w1 v)|by exists v].
    - intros _ e. by exists v.
    - intros n w' Hn _ Hv'. eexists. split; [exact Hv'|]. destruct Hst as (H1&H2&H3&H4). unfold staged.
      rewrite !upd_ne by done. split; [split_and!; [done..|by repeat (apply rest_upd; [done|])]|].
      left. rewrite upd_eq, upd_ne, upd_eq by done. split; [done|congruence].
    - intros n Hn _. by exists v. }
  clear dependent v. intros moved w2 (v&Hv&Hst&Htr). assert (recoverable w2) as Hr2 by (by apply (Hrec w2 v)).
  destruct moved as [[]|e]; [|apply Hsettled; by apply (restored_failure _ (λ restore, _))].
  apply wp_bind. apply (wp_wand _ _ (λ _ w, w = w2) _ recoverable); [| |done].
  { by present TreeBackup v. }
  intros present' ? ->. apply wp_try. apply (wp_wand _ _ (λ _ w, w = w2) _ recoverable); [| |done].
  { destruct present'; [|by apply wp_ret]. apply wp_explain. by apply (wp_sync_project project owner stage_name faulty v). }
  intros [[]|e] ? ->; [|by split].
  destruct inject.
  { apply Hsettled. by apply (put_back_failure _ (λ restore, _)). }
  apply wp_bind. apply (wp_wand _ _ (λ _ w, w = w2) _ recoverable); [| |done].
  { apply wp_bind. assert (stage_place project stage_name ++ ["node_modules"] = slot_place Staged) as -> by done.
    stat Staged v; [done|intros _; split; [done|by apply wp_ret]|intros; by apply wp_ret..]. }
  intros real ? ->. destruct real; cbn [negb]; [|apply Hsettled; by apply abandon_settled].
  apply wp_bind. eapply wp_wand; [by apply Hpreflight| |by intros _ w' Hw'; apply (Hrec w' v)].
  intros [[]|text] w3 Hv3; (assert (recoverable w3) as Hr3 by (by apply (Hrec w3 v))); [|apply Hsettled; by apply abandon_settled].
  apply wp_bind. apply (wp_wand _ _ (λ r w, match r with Ok _ => replaced_at w | Err _ => recoverable w end) _ recoverable); [| |done].
  - assert (stage_place project stage_name ++ ["node_modules"] = slot_place Staged) as -> by done.
    moved Staged Tree v; [done..| |done].
    intros n w4 Hn Hrep Hv4. destruct Hst as (H1&H2&H3&H4). rewrite H3 in Hn. injection Hn as <-.
    destruct Htr as [[Ht Htb]|(Ht&[t E]&Htb)].
    + eexists. split; [exact Hv4|]. unfold replaced. rewrite ?upd_eq. rewrite !upd_ne by done. split; [|done].
      split_and!; [done..|by repeat (apply rest_upd; [done|])].
    + rewrite Ht, E in Hrep. destruct (Htree t E) as (entries&->&Hne). cbn in Hrep. by apply bool_decide_eq_true in Hrep.
  - intros [[]|e] w4 Hw4; [by apply complete_activation_completed|]. apply Hsettled. by apply (put_back_failure _ (λ restore, _)).
Qed.

(** ** The whole activation *)
Definition started v : Prop :=
  v Marker = old_marker ∧ v MarkerBackup = None ∧ v Tree = old_tree ∧ v TreeBackup = None ∧
  v Staged = Some (Directory new_tree) ∧ rest_same v v0.
Definition marker_staged w : Prop := ∃ v, views w v ∧ staged v ∧ v Tree = old_tree ∧ v TreeBackup = None.
Lemma started_recoverable v w : views w v → started v → recoverable w.
Proof. intros Hv (H1&H2&H3&H4&H5&H6). exists v. split; [done|]. split_and!; [by left; split; [|left]..|done]. Qed.
Lemma marker_staged_recoverable w : marker_staged w → recoverable w.
Proof.
  intros (v&Hv&Hst&Ht&Htb). exists v. split; [done|]. apply staged_kept; [done|]. unfold staged_tree.
  rewrite Ht, Htb. destruct old_tree; [right; split_and!; [done|by eexists|done]|by left].
Qed.
(** Where a step of the activation that succeeds leads to [Q]. *)
Definition reaches (Q : world → Prop) {A} (r : result string A) w : Prop := match r with Ok _ => Q w | Err _ => recoverable w end.
Lemma read_marker_backup_same v w s :
  views w v → wp (read_marker_backup (slot_place s)) (λ _ w', w' = w) (λ w', w' = w) w.
Proof.
  intros Hv. unfold read_marker_backup. apply wp_bind, wp_inspect; [intros _; split; [done|by apply wp_ret]|].
  destruct (n ← look (slot_place s) (disk w); _) as [n|e]; [|by apply wp_ret].
  apply wp_bind, wp_touch; [intros _; split; [done|by apply wp_ret]|]. destruct (is_regular n) eqn:E; [cbn [negb]|by apply wp_ret].
  apply wp_bind, wp_touch; [intros _; split; [done|by apply wp_ret]|by apply wp_ret].
Qed.
Lemma stage_marker_staged v w :
  views w v → started v → is_Some old_marker →
  wp (stage_marker project (slot_place Marker) (slot_place MarkerBackup)) (reaches marker_staged) recoverable w.
Proof.
  intros Hv Hst [n Hn]. pose proof (started_recoverable v w Hv Hst) as Hr. destruct Hst as (H1&H2&H3&H4&H5&H6).
  unfold stage_marker. apply wp_try, wp_explain. moved Marker MarkerBackup v; [done..| |done].
  intros n' w1 Hn' _ Hv1. cbn [map_err].
  assert (marker_staged w1) as Hst1.
  { eexists. split; [exact Hv1|]. unfold staged. rewrite ?upd_eq. rewrite !upd_ne by done. rewrite ?upd_eq.
    split_and!; [congruence|done..|by repeat (apply rest_upd; [done|])|done|done]. }
  clear dependent v. pose proof Hst1 as (v&Hv&_&_). pose proof (marker_staged_recoverable w1 Hst1) as Hr1.
  assert (∀ (reason : result string () → string), wp (restore ← restore_marker (slot_place Marker) (slot_place MarkerBackup) true; fail (A:=()) (reason restore))
    (reaches marker_staged) recoverable w1) as Hrestore.
  { intros reason. eapply wp_wand; [by apply restored_failure| |done]. intros [[]|e] w' [Hok Hw']; [done|exact Hw']. }
  apply wp_try, wp_explain, (wp_sync_project project owner stage_name faulty v); [done..|]. cbn [map_err].
  apply wp_bind. eapply wp_wand; [by apply (read_marker_backup_same v)| |by intros _ ? ->].
  intros [contents|e] ? ->; [|apply (Hrestore (λ restore, _))].
  apply wp_bind. apply (wp_wand _ _ (λ _ w, w = w1) _ recoverable); [by stat MarkerBackup v| |done].
  intros r ? ->. cbv zeta. case_match; [apply (Hrestore (λ restore, _))|]. by apply wp_ret.
Qed.
Lemma activate_completed v w :
  views w v → started v →
  wp (activate_node_modules_with_preflight pid clock project (stage_place project stage_name) owner true inject preflight)
    completed recoverable w.
Proof.
  intros Hv Hst. pose proof (started_recoverable v w Hv Hst) as Hr. unfold activate_node_modules_with_preflight.
  apply wp_bind. apply (wp_wand _ _ (λ _ w', w' = w) _ recoverable); [| |done].
  { apply wp_bind. assert (stage_place project stage_name ++ ["node_modules"] = slot_place Staged) as -> by done.
    stat Staged v; [done|intros _; split; [done|by apply wp_ret]|intros; by apply wp_ret..]. }
  intros staged_dir ? ->. destruct staged_dir; cbn [negb]; [|by split].
  pose proof Hst as (H1&H2&H3&H4&H5&H6). apply wp_bind.
  apply (wp_wand _ _ (λ r w', w' = w ∧ match r with Ok n => old_marker = Some n | Err NotFound => old_marker = None | Err _ => True end) _ recoverable); [| |done].
  { stat Marker v; [done|done| |].
    - intros n Hn. split; [done|congruence].
    - intros Hn e He. rewrite He by done. split; [done|congruence]. }
  intros r ? [-> Hmr].
  apply wp_try. apply (wp_wand _ _ (λ r w', w' = w ∧ match r with Ok b => b = marker_exists | Err _ => True end) _ recoverable); [| |done].
  { destruct r as [n|[]]; [| |by apply wp_ret..].
    - rewrite (Hmarker n Hmr). apply wp_ret. split; [done|]. by rewrite Hexists, bool_decide_eq_true_2 by (by rewrite Hmr; eexists).
    - apply wp_ret. split; [done|]. rewrite Hexists, bool_decide_eq_false_2 by (rewrite Hmr; by intros [? ?]). done. }
  intros [b|e] ? [-> Hb]; [|by split]. subst b. apply wp_bind. apply (wp_wand _ _ (λ _ w', w' = w) _ recoverable); [| |done].
  { by present Tree v. }
  intros present ? ->. destruct (present && negb marker_exists) eqn:Ep; [by split|].
  apply wp_try. apply (wp_wand _ _ (reaches marker_staged) _ recoverable); [| |done].
  - destruct (decide (is_Some old_marker)) as [Eb|Eb].
    + assert (marker_exists = true) as E by (by rewrite Hexists, bool_decide_eq_true_2). rewrite E. by apply (stage_marker_staged v).
    + assert (marker_exists = false) as E by (by rewrite Hexists, bool_decide_eq_false_2). rewrite E. apply wp_ret. exists v. split; [done|]. unfold staged. rewrite H1, H2. split; [|done].
      destruct old_marker; [by destruct Eb; eexists|done].
  - intros [[]|e] w' Hw'; [|by split]. destruct Hw' as (v'&Hv'&Hs'&Ht'&Htb'). by apply (swap_trees_completed v').
Qed.
End activation.
