(* ===== verification/Settling.v ===== *)
(** * Settling an activation

    Rolling back restores exactly what was there before an activation, and committing
    removes what was kept of it.  Both can be interrupted anywhere and taken up again, and
    both succeed when no call fails. *)
From S2P Require Import Prelude Order RustStr CrashFs Activation CrashLogic Slots ActivationInv.

Lemma strip_suffix_newline s : strip_suffix newline (s +:+ newline) = Some s.
Proof.
  induction s as [|c s IH]; [done|]. change (String c s +:+ newline) with (String c (s +:+ newline)).
  cbn [strip_suffix]. destruct (str_eqb _ newline) eqn:E; [|by rewrite IH]. apply str_eqb_true in E. injection E as _ E. by destruct s.
Qed.

Section settling.
Context (project : place) (owner stage_name : string).
Context (Hstage : ∀ s, s ≠ Staged → slot_name owner stage_name s ≠ stage_name).
Context (faulty : bool).
Notation wp := (wp faulty).
Notation views := (views project owner stage_name).
Notation slot_place := (slot_place project owner stage_name).
Implicit Types (w : world) (v : slot → option node).
Context (old_marker old_tree : option node).
Context (Hmarker : ∀ n, old_marker = Some n → is_regular n = true).
Context (Htree : ∀ n, old_tree = Some n → ∃ entries, n = Directory entries ∧ entries ≠ ∅).
Context (v0 : slot → option node).
Notation kept := (kept old_marker old_tree v0).
Notation recoverable := (recoverable project owner stage_name old_marker old_tree v0).

Local Ltac stat s v := apply (wp_stat project owner stage_name faulty s v).
Local Ltac moved s t v := apply (wp_rename project owner stage_name Hstage faulty s t v).
Local Ltac removed s v := apply (wp_remove_file project owner stage_name Hstage faulty s v).
Local Ltac cleared s v := apply (wp_remove_dir project owner stage_name Hstage faulty s v).

(** ** Rolling back *)
Definition marker_back v : Prop := v Marker = old_marker ∧ v MarkerBackup = None.
Definition same_marker u v : Prop := v Marker = u Marker ∧ v MarkerBackup = u MarkerBackup.
Definition tree_back u v : Prop := v Tree = old_tree ∧ v TreeBackup = None ∧ same_marker u v.
(** Something is kept, and [done] when the step succeeds, as it does without faults. *)
Definition undone (back : (slot → option node) → Prop) (r : result string ()) w : Prop :=
  ∃ v, views w v ∧ kept v ∧ (is_ok r = true → back v) ∧ (faulty = false → is_ok r = true).
Lemma undone_failure back w text : faulty = true → recoverable w → undone back (Err text) w.
Proof. intros Hf (v&Hv&Hk). exists v. split_and!; [done..|congruence]. Qed.
Lemma undone_success back w v : views w v → kept v → back v → undone back (Ok ()) w.
Proof. intros Hv Hk Hb. by exists v. Qed.
Lemma undone_recoverable back r w : undone back r w → recoverable w.
Proof. intros (v&Hv&Hk&_). by exists v. Qed.
Context (decision : RecoveryDecision).
Context (Hme : rd_marker_existed decision = bool_decide (is_Some old_marker)).
Context (Hte : rd_node_modules_existed decision = bool_decide (is_Some old_tree)).

(** Without a marker, or with the one of the interrupted activation. *)
Lemma kept_marker_upd v o :
  kept v → v MarkerBackup = old_marker → o = None ∨ a_file o → kept (upd v Marker o).
Proof.
  intros (Hm&Ht&Hs) Hb Ho. split_and!; [|done|by apply rest_upd]. unfold marker_kept. rewrite upd_ne, upd_eq, Hb by done.
  destruct old_marker eqn:E; [by right|]. left. split; [done|]. destruct Ho; [by left|by right].
Qed.
Lemma rename_marker_back text v n w :
  views w v → kept v → v MarkerBackup = Some n →
  wp (explain text (rename (slot_place MarkerBackup) (slot_place Marker))) (undone marker_back) recoverable w.
Proof.
  intros Hv Hk Hn. assert (recoverable w) as Hr by (by exists v). destruct (kept_marker_back old_marker old_tree Hmarker v0 v n Hk Hn) as [Hreg Hback].
  apply wp_explain. moved MarkerBackup Marker v; [done..| |congruence| |].
  - intros Hf. split; [done|]. by apply undone_failure.
  - intros n' w' Hn' _ Hv'. assert (n' = n) as -> by congruence. eapply undone_success; [exact Hv'|done|]. unfold marker_back.
    rewrite upd_eq, upd_ne, upd_eq by done. split; [|done]. destruct Hk as ([[Hm _]|(Hm&_&_)]&_&_); congruence.
  - intros n' Hn' Hno. exfalso. assert (n' = n) as -> by congruence. destruct Hk as ([[Hm _]|(_&_&Hm)]&_&_); [congruence|].
    destruct n; try done. destruct Hm as [Hm|[x Hm]]; by rewrite Hm in Hno.
Qed.
Lemma remove_marker text v w :
  views w v → kept v → v MarkerBackup = old_marker → a_file (v Marker) →
  wp (explain text (remove_file (slot_place Marker)))
    (λ r w, match r with Ok _ => views w (upd v Marker None) ∧ kept (upd v Marker None) | Err _ => faulty = true ∧ recoverable w end) recoverable w.
Proof.
  intros Hv Hk Hb [x Hx]. assert (recoverable w) as Hr by (by exists v). apply wp_explain.
  removed Marker v; [done|done|congruence| |].
  - intros n Hn. rewrite Hx in Hn. by injection Hn as <-.
  - intros n w' _ _ Hv'. split; [done|]. apply kept_marker_upd; [done|done|by left].
Qed.
Lemma rollback_marker_undone v w :
  views w v → kept v →
  wp (rollback_marker decision (slot_place Marker) (slot_place MarkerBackup)) (undone marker_back) recoverable w.
Proof.
  intros Hv Hk. assert (recoverable w) as Hr by (by exists v). unfold rollback_marker. apply wp_bind.
  assert (∀ text, faulty = true → recoverable w ∧ wp (fail text) (undone marker_back) recoverable w) as Hfail.
  { intros text Hf. split; [done|]. apply wp_ret. by apply undone_failure. }
  stat MarkerBackup v; [done|by intros Hf; apply Hfail| |].
  - intros n Hn. destruct (kept_marker_back old_marker old_tree Hmarker v0 v n Hk Hn) as [-> _]. cbn [negb].
    pose proof Hk as (Hm&_&_). destruct Hm as [[Hm _]|(Hb&_&Hm)]; [congruence|]. apply wp_bind.
    stat Marker v; [done| | |].
    + intros _. split; [done|]. apply wp_try, wp_ret. by apply (rename_marker_back _ v n).
    + intros c Hc. destruct Hm as [Hm|Hm]; [congruence|]. pose proof Hm as [x Hx]. rewrite Hc in Hx. injection Hx as ->. cbn [is_regular].
      apply wp_try. eapply wp_wand; [by apply (remove_marker _ v)| |done]. intros [[]|e] w' Hw'; [|by apply undone_failure; destruct Hw'].
      destruct Hw' as [Hv' Hk']. by apply (rename_marker_back _ _ n _ Hv').
    + intros _ e _. apply wp_try, wp_ret. by apply (rename_marker_back _ v n).
  - intros Hn e He. rewrite He by done. rewrite Hme. pose proof Hk as (Hm&_&_).
    destruct Hm as [[_ Hm]|(Hb&Hold&_)]; [|destruct Hold; congruence].
    destruct (decide (is_Some old_marker)) as [Hold|Hold].
    { rewrite bool_decide_eq_true_2 by done. apply wp_ret. apply (undone_success _ _ v); [done..|]. split; [|done].
      destruct Hm as [|[Hm _]]; [done|]. destruct Hold; congruence. }
    rewrite bool_decide_eq_false_2 by done. assert (old_marker = None) as Hnone by (by destruct old_marker; [destruct Hold; eexists|]).
    apply wp_bind. stat Marker v; [done|by intros Hf; apply Hfail| |].
    + intros c Hc. destruct Hm as [Hm|[_ Hm]]; [congruence|]. pose proof Hm as [x Hx]. rewrite Hc in Hx. injection Hx as ->. cbn [is_regular].
      eapply wp_wand; [apply (remove_marker _ v); [done|done|congruence|done]| |done].
      intros [[]|e'] w' Hw'; [|by apply undone_failure; destruct Hw']. destruct Hw' as [Hv' Hk']. eapply undone_success; [done..|].
      unfold marker_back. rewrite upd_eq, upd_ne by done. by split.
    + intros Hc e' He'. rewrite He' by done. apply wp_ret. apply (undone_success _ _ v); [done..|]. split; [congruence|done].
Qed.

Lemma kept_tree_upd v o :
  kept v → v TreeBackup = old_tree → o = None ∨ a_directory o → kept (upd v Tree o).
Proof.
  intros (Hm&Ht&Hs) Hb Ho. split_and!; [done| |by apply rest_upd]. unfold tree_kept. rewrite upd_ne, upd_eq, Hb by done.
  destruct old_tree eqn:E; [by right|]. left. split; [done|]. destruct Ho; [by left|by right].
Qed.
Lemma rename_tree_back text u v n w :
  same_marker u v → views w v → kept v → v TreeBackup = Some n → v Tree = None →
  wp (explain text (rename (slot_place TreeBackup) (slot_place Tree))) (undone (tree_back u)) recoverable w.
Proof.
  intros [Hu1 Hu2] Hv Hk Hn Hnone. assert (recoverable w) as Hr by (by exists v). destruct (kept_tree_back old_marker old_tree Htree v0 v n Hk Hn) as [Hdir Hback].
  apply wp_explain. moved TreeBackup Tree v; [done..| |congruence| |].
  - intros Hf. split; [done|]. by apply undone_failure.
  - intros n' w' Hn' _ Hv'. assert (n' = n) as -> by congruence. eapply undone_success; [exact Hv'|done|]. unfold tree_back, same_marker.
    rewrite upd_eq, !upd_ne, upd_eq by done. split_and!; [|done..]. destruct Hk as (_&[[Hm _]|(Hm&_&_)]&_); congruence.
  - intros n' Hn' Hno. rewrite Hnone in Hno. by destruct n'.
Qed.
Lemma remove_tree text v w :
  views w v → kept v → v TreeBackup = old_tree → a_directory (v Tree) →
  wp (explain text (remove_dir_all (slot_place Tree)))
    (λ r w, match r with Ok _ => views w (upd v Tree None) ∧ kept (upd v Tree None) | Err _ => faulty = true ∧ recoverable w end) recoverable w.
Proof.
  intros Hv Hk Hb [x Hx]. apply wp_explain. cleared Tree v; [done| |congruence| |].
  - intros Hf left w' Hdir _. assert (recoverable w') as Hr; [|done]. eexists. split; [apply Hdir; by rewrite Hx|].
    apply kept_tree_upd; [done..|right; by eexists].
  - intros n Hn. rewrite Hx in Hn. by injection Hn as <-.
  - intros n w' _ Hv'. split; [done|]. apply kept_tree_upd; [done|done|by left].
Qed.
Lemma rollback_tree_undone u v w :
  same_marker u v → views w v → kept v →
  wp (rollback_tree decision (slot_place Tree) (slot_place TreeBackup)) (undone (tree_back u)) recoverable w.
Proof.
  intros Hu Hv Hk. assert (recoverable w) as Hr by (by exists v). unfold rollback_tree. apply wp_bind.
  assert (∀ text, faulty = true → recoverable w ∧ wp (fail text) (undone (tree_back u)) recoverable w) as Hfail.
  { intros text Hf. split; [done|]. apply wp_ret. by apply undone_failure. }
  stat TreeBackup v; [done|by intros Hf; apply Hfail| |].
  - intros n Hn. destruct (kept_tree_back old_marker old_tree Htree v0 v n Hk Hn) as [-> _]. cbn [negb].
    pose proof Hk as (_&Hm&_). destruct Hm as [[Hm _]|(Hb&_&Hm)]; [congruence|]. apply wp_bind.
    stat Tree v; [done| | |].
    + intros Hf. split; [done|]. apply wp_try, wp_ret. by apply undone_failure.
    + intros c Hc. destruct Hm as [Hm|Hm]; [congruence|]. pose proof Hm as [x Hx]. rewrite Hc in Hx. injection Hx as ->. cbn [is_dir].
      apply wp_try. eapply wp_wand; [by apply (remove_tree _ v)| |done]. intros [[]|e] w' Hw'; [|by apply undone_failure; destruct Hw'].
      destruct Hw' as [Hv' Hk']. apply (rename_tree_back _ u (upd v Tree None) n); [|done|done|by rewrite upd_ne|by rewrite upd_eq].
      unfold same_marker. by rewrite !upd_ne.
    + intros Hc e He. rewrite He by done. apply wp_try, wp_ret. by apply (rename_tree_back _ u v n).
  - intros Hn e He. rewrite He by done. rewrite Hte. pose proof Hk as (_&Hm&_).
    destruct Hm as [[_ Hm]|(Hb&Hold&_)]; [|destruct Hold; congruence].
    destruct (decide (is_Some old_tree)) as [Hold|Hold].
    { rewrite bool_decide_eq_true_2 by done. apply wp_ret. apply (undone_success _ _ v); [done..|]. split_and!; [|done|apply Hu..].
      destruct Hm as [|[Hm _]]; [done|]. destruct Hold; congruence. }
    rewrite bool_decide_eq_false_2 by done. assert (old_tree = None) as Hnone by (by destruct old_tree; [destruct Hold; eexists|]).
    apply wp_bind. stat Tree v; [done|by intros Hf; apply Hfail| |].
    + intros c Hc. destruct Hm as [Hm|[_ Hm]]; [congruence|]. pose proof Hm as [x Hx]. rewrite Hc in Hx. injection Hx as ->. cbn [is_dir].
      eapply wp_wand; [apply (remove_tree _ v); [done|done|congruence|done]| |done].
      intros [[]|e'] w' Hw'; [|by apply undone_failure; destruct Hw']. destruct Hw' as [Hv' Hk']. eapply undone_success; [done..|].
      unfold tree_back, same_marker. rewrite upd_eq, !upd_ne by done. by split_and!; [..|apply Hu|apply Hu].
    + intros Hc e' He'. rewrite He' by done. apply wp_ret. apply (undone_success _ _ v); [done..|]. split_and!; [congruence|done|apply Hu..].
Qed.

Definition restored w : Prop := ∃ v, views w v ∧ marker_back v ∧ v Tree = old_tree ∧ v TreeBackup = None ∧ rest_same v v0.
(** Recoverable whatever happens, restored on success, and a success without faults. *)
Definition rolled_back (r : result string ()) w : Prop :=
  recoverable w ∧ (is_ok r = true → restored w) ∧ (faulty = false → is_ok r = true).
Lemma rollback_rolled_back w :
  recoverable w → wp (rollback_coordinated_activation project (owner +:+ newline) decision) rolled_back recoverable w.
Proof.
  intros (v&Hv&Hk). unfold rollback_coordinated_activation. rewrite strip_suffix_newline. apply wp_try.
  eapply wp_wand; [by apply (rollback_marker_undone v)| |done]. intros r w1 (v1&Hv1&Hk1&Hb&Hq). destruct r as [[]|e].
  - specialize (Hb eq_refl). eapply wp_wand; [by apply (rollback_tree_undone v1 v1)| |done]. intros r w2 (v2&Hv2&Hk2&Hb2&Hq2).
    split_and!; [by exists v2| |done]. intros Hok. destruct (Hb2 Hok) as (H1&H2&H3&H4). destruct Hb as [Hb1 Hb3].
    exists v2. split_and!; [done| |done|done|apply Hk2]. split; congruence.
  - split_and!; [by exists v1|done|done].
Qed.

(** ** Committing *)
Context (new_tree : gmap string node).
(** The new tree stands; of what was kept, anything may still be there. *)
Definition decided v : Prop :=
  v Marker = Some (File MANAGED_MARKER) ∧ v Tree = Some (Directory new_tree) ∧
  (v MarkerBackup = None ∨ a_file (v MarkerBackup)) ∧ (v TreeBackup = None ∨ a_directory (v TreeBackup)) ∧ rest_same v v0.
Definition committing w : Prop := ∃ v, views w v ∧ decided v.
Definition committed (r : result string ()) w : Prop :=
  committing w ∧ (is_ok r = true → ∃ v, views w v ∧ decided v ∧ v MarkerBackup = None ∧ v TreeBackup = None) ∧
  (faulty = false → is_ok r = true).
Lemma activated_committing w : activated project owner stage_name old_marker old_tree v0 new_tree w → committing w.
Proof.
  intros (v&Hv&(Hmb&Htb&Ht&Hs)&Hm). exists v. split; [done|]. split_and!; [done|done| | |done].
  - rewrite Hmb. destruct old_marker as [n|]; [|by left]. pose proof (Hmarker n eq_refl). right. destruct n; try done. by eexists.
  - rewrite Htb. destruct old_tree as [n|]; [|by left]. destruct (Htree n eq_refl) as (m&->&_). right. by eexists.
Qed.
Lemma committed_failure text w : faulty = true → committing w → committed (Err text) w.
Proof. intros Hf Hw. split_and!; [done|done|congruence]. Qed.
Lemma decided_marker v : decided v → decided (upd v MarkerBackup None).
Proof. intros (H1&H2&H3&H4&H5). unfold decided. rewrite upd_eq, !upd_ne by done. split_and!; [done|done|by left|done|by apply rest_upd]. Qed.
Lemma decided_tree v o : decided v → o = None ∨ a_directory o → decided (upd v TreeBackup o).
Proof. intros (H1&H2&H3&H4&H5) Ho. unfold decided. rewrite upd_eq, !upd_ne by done. split_and!; [done..|by apply rest_upd]. Qed.
Lemma commit_synced v w :
  views w v → decided v → v MarkerBackup = None → v TreeBackup = None → wp (sync_directory project) committed committing w.
Proof.
  intros Hv Hd Hm Ht. assert (committing w) as Hw by (by exists v). apply wp_explain, (wp_sync_project project owner stage_name faulty v); [done| |].
  - intros Hf. split; [done|by apply committed_failure].
  - split_and!; [done| |done]. intros _. by exists v.
Qed.
Definition commit_tree : act () :=
  r ← symlink_metadata (slot_place TreeBackup);
  _ ←? match r with
       | Ok n => if is_dir n then explain "cannot remove committed node_modules backup" (remove_dir_all (slot_place TreeBackup))
                 else fail "refusing to remove non-directory node_modules backup"
       | Err NotFound => succeed ()
       | Err _ => fail "cannot inspect node_modules backup"
       end;
  sync_directory project.
Lemma commit_tree_committed v w :
  views w v → decided v → v MarkerBackup = None → wp commit_tree committed committing w.
Proof.
  intros Hv Hd Hnone. assert (committing w) as Hw by (by exists v). unfold commit_tree. apply wp_bind. stat TreeBackup v; [done| | |].
  - intros Hf. split; [done|]. apply wp_try, wp_ret. by apply committed_failure.
  - intros n Hn. pose proof Hd as (_&_&_&[Ht|[m Ht]]&_); [congruence|]. rewrite Hn in Ht. injection Ht as ->. cbn [is_dir].
    apply wp_try, wp_explain. cleared TreeBackup v; [done| |congruence| |].
    + intros Hf left w' Hdir _. assert (committing w') as Hw'; [|split; [done|by apply committed_failure]].
      eexists. split; [apply Hdir; by rewrite Hn|]. apply decided_tree; [done|right; by eexists].
    + intros n' E. rewrite Hn in E. by injection E as <-.
    + intros n' w' _ Hv'. apply (commit_synced _ _ Hv'); [apply decided_tree; [done|by left]|by rewrite upd_ne|by rewrite upd_eq].
  - intros Hn e He. rewrite He by done. apply wp_try, wp_ret. by apply (commit_synced v).
Qed.
Lemma commit_committed w :
  activation_owner_is_valid (owner +:+ newline) = true → committing w →
  wp (commit_owned_activation project (owner +:+ newline)) committed committing w.
Proof.
  intros Hvalid Hw. pose proof Hw as (v&Hv&Hd). unfold commit_owned_activation. rewrite strip_suffix_newline, Hvalid. cbn [negb].
  apply wp_bind. stat MarkerBackup v; [done| | |].
  - intros Hf. split; [done|]. apply wp_try, wp_ret. by apply committed_failure.
  - intros n Hn. pose proof Hd as (_&_&[Ht|[m Ht]]&_); [congruence|]. rewrite Hn in Ht. injection Ht as ->. cbn [is_regular].
    apply wp_try, wp_explain. removed MarkerBackup v; [done| |congruence| |].
    + intros Hf. split; [done|by apply committed_failure].
    + intros n' E. rewrite Hn in E. by injection E as <-.
    + intros n' w' _ _ Hv'. apply (commit_tree_committed _ _ Hv'); [by apply decided_marker|by rewrite upd_eq].
  - intros Hn e He. rewrite He by done. apply wp_try, wp_ret. by apply (commit_tree_committed v).
Qed.
End settling.
