(* ===== verification/Confined.v ===== *)
(** * What a computation leaves alone

    An area of the disk - some paths and all below them - and computations that change nothing
    outside it, however they end.  An activation and a rollback are confined to the entries of
    their own in the project: the tree, the marker, their backups, the stage and the temporary
    files of the marker. *)
From S2P Require Import Prelude Order RustStr CrashFs Activation CrashLogic Slots Settling.

(** ** Areas *)
Section area.
Context (area : place → Prop).
Definition within (p : place) : Prop := ∃ a, area a ∧ a `prefix_of` p.
(** A path with no place of the area above or below it. *)
Definition elsewhere (p : place) : Prop := ∀ a, area a → apart a p.
(** The same disk outside the area; the directories that lead to it are still directories. *)
Record agree (d d' : node) : Prop := mk_agree {
  agree_lookup p : elsewhere p → lookup_at p d' = lookup_at p d;
  agree_directory p : ¬ within p → is_directory (lookup_at p d) = true → is_directory (lookup_at p d') = true;
}.
#[export] Instance agree_preorder : PreOrder agree.
Proof.
  split; [by split|]. intros d d' d'' [H1 H2] [H3 H4]. split; [|by auto]. intros p Hp. by rewrite H3, H1.
Qed.
Lemma prefix_comparable {A} (p q r : list A) : p `prefix_of` r → q `prefix_of` r → p `prefix_of` q ∨ q `prefix_of` p.
Proof.
  revert q r. induction p as [|x p IH]; intros q r Hp Hq; [left; apply prefix_nil|]. destruct q as [|y q]; [right; apply prefix_nil|].
  destruct Hp as [k ->], Hq as [k' E]. cbn in E. injection E as <- E.
  destruct (IH q (p ++ k)) as [H|H]; [by exists k|by exists k'|left|right]; by apply prefix_cons.
Qed.
Lemma within_apart p q : within p → elsewhere q → apart p q.
Proof.
  intros (a&Ha&Hap) Hq. destruct (Hq a Ha) as [H1 H2]. split; intros H.
  - apply H1. by etrans.
  - destruct (prefix_comparable a q p Hap H); [by apply H1|by apply H2].
Qed.
Lemma agree_alter f p d : within p → agree d (alter_at f p d).
Proof.
  intros Hp. split.
  - intros q Hq. apply lookup_alter_ne. by apply within_apart.
  - intros q Hq. apply directory_alter. intros Hpq. apply Hq. destruct Hp as (a&Ha&Hap). exists a. split; [done|]. by etrans.
Qed.

(** ** Confined computations *)
Definition confined {A} (m : io A) : Prop :=
  ∀ ev w, match m ev w with Returned _ _ w' | Crashed w' => agree (disk w) (disk w') | Panicked => True end.
Lemma confined_ret {A} (a : A) : confined (mret a).
Proof. intros ev w. cbn. reflexivity. Qed.
Lemma confined_bind {A B} (m : io A) (f : A → io B) : confined m → (∀ a, confined (f a)) → confined (m ≫= f).
Proof.
  intros Hm Hf ev w. specialize (Hm ev w). unfold mbind, io_bind. destruct (m ev w) as [a rest w'|w'|]; [|done..].
  specialize (Hf a rest w'). destruct (f a rest w'); [by etrans|by etrans|done].
Qed.
Lemma confined_try {E A B} (m : io (result E A)) (f : A → io (result E B)) :
  confined m → (∀ a, confined (f a)) → confined (try_bind m f).
Proof. intros Hm Hf. apply confined_bind; [done|]. intros [a|e]; [apply Hf|apply confined_ret]. Qed.
Lemma confined_explain {A} text (m : io (result io_error A)) : confined m → confined (explain text m).
Proof. intros Hm. apply confined_bind; [done|]. intros r. apply confined_ret. Qed.
Lemma confined_ignore {A} (m : io A) : confined m → confined (ignore m).
Proof. intros Hm. apply confined_bind; [done|]. intros r. apply confined_ret. Qed.
Lemma confined_effect {A} (run : node → result io_error A * node) torn :
  (∀ d, agree d (run d).2) → (∀ left d, agree d (torn left d)) → confined (effect run torn).
Proof.
  intros Hr Ht ev w. unfold effect. destruct ev as [|[|x|x] ev]; cbn; [..|apply Ht|apply Ht];
    specialize (Hr (disk w)); by destruct (run (disk w)).
Qed.
Lemma confined_atomic {A} (run : node → result io_error A * node) : (∀ d, agree d (run d).2) → confined (atomic run).
Proof. intros Hr. by apply confined_effect. Qed.
Lemma confined_inspect {A} (look : node → result io_error A) : confined (inspect look).
Proof. by apply confined_atomic. Qed.
Lemma confined_nonce clock : confined (unique_nonce clock).
Proof. intros ev w. cbn. reflexivity. Qed.

(** What a computation returns, whatever the disk. *)
Definition yields {A} (m : io A) (P : A → Prop) : Prop :=
  ∀ ev w, match m ev w with Returned a _ _ => P a | _ => True end.
Lemma yields_ret {A} (a : A) (P : A → Prop) : P a → yields (mret a) P.
Proof. by intros H ev w. Qed.
Lemma yields_bind {A B} (m : io A) (f : A → io B) P : (∀ a, yields (f a) P) → yields (m ≫= f) P.
Proof. intros Hf ev w. unfold mbind, io_bind. destruct (m ev w) as [a rest w'|w'|]; [apply Hf|done..]. Qed.
Lemma confined_bind_yields {A B} (P : A → Prop) (m : io A) (f : A → io B) :
  confined m → yields m P → (∀ a, P a → confined (f a)) → confined (m ≫= f).
Proof.
  intros Hm Hy Hf ev w. specialize (Hm ev w). specialize (Hy ev w). unfold mbind, io_bind.
  destruct (m ev w) as [a rest w'|w'|]; [|done..].
  specialize (Hf a Hy rest w'). destruct (f a rest w'); [by etrans|by etrans|done].
Qed.

(** The calls, at places of the area. *)
Lemma confined_rename p q : within p → within q → confined (rename p q).
Proof.
  intros Hp Hq. apply confined_atomic. intros d. destruct (lookup_at p d) as [n|]; [|done].
  repeat case_match; cbn [snd]; try done. etrans; by apply agree_alter.
Qed.
Lemma confined_remove_file p : within p → confined (remove_file p).
Proof. intros Hp. apply confined_atomic. intros d. destruct (lookup_at p d) as [[]|]; try done; by apply agree_alter. Qed.
Lemma confined_remove_dir_all p : within p → confined (remove_dir_all p).
Proof.
  intros Hp. apply confined_effect.
  - intros d. destruct (lookup_at p d) as [[]|]; try done; by apply agree_alter.
  - intros left d. unfold leave_entries. destruct (lookup_at p d) as [[]|]; try done; by apply agree_alter.
Qed.
Lemma confined_create_new p : within p → confined (create_new p).
Proof. intros Hp. apply confined_atomic. intros d. destruct (lookup_at p d); [done|]. case_match; [by apply agree_alter|done]. Qed.
Lemma confined_write_all p text : within p → confined (write_all p text).
Proof.
  intros Hp. assert (∀ s d, agree d (set_content p s d)) as Hset.
  { intros s d. unfold set_content. destruct (lookup_at p d) as [[]|]; try done; by apply agree_alter. }
  apply confined_effect; intros; apply Hset.
Qed.
End area.

(** Case analysis down to the calls. *)
Ltac confine_step :=
  first
    [ apply confined_ret | apply confined_inspect | apply confined_nonce
    | apply confined_try; [|intros ?] | apply confined_bind; [|intros ?]
    | apply confined_explain | apply confined_ignore
    | apply confined_rename | apply confined_remove_file | apply confined_remove_dir_all
    | apply confined_create_new | apply confined_write_all
    | progress unfold succeed, fail, symlink_metadata, touch, sync_directory, sync_all, open_nofollow, path_exists, path_is_dir, is_real_directory
    | case_match ].
Ltac confine := repeat confine_step.

(** ** Computations in sequence *)
Lemma confined_wp {A} (area : place → Prop) faulty (m : io A) (Q : A → world → Prop) C w :
  confined area m → wp faulty m Q C w →
  wp faulty m (λ a w', Q a w' ∧ agree area (disk w) (disk w')) (λ w', C w' ∧ agree area (disk w) (disk w')) w.
Proof.
  intros Hm H ev Hev. specialize (Hm ev w). specialize (H ev Hev). destruct (m ev w); [|by destruct H|done].
  destruct H as [Hr HQ]. by split_and!.
Qed.

(** ** Activations and rollbacks *)
Section activation.
Context (project : place) (pid : N) (owner stage_name : string).
(** The entries of the project that belong to an activation. *)
Definition own_name (name : string) : Prop :=
  name ∈ [".tapid-managed"; ".tapid-managed-old-" +:+ owner; "node_modules"; ".tapid-node-modules-old-" +:+ owner; stage_name] ∨
  ∃ nonce, name = ".tapid-managed-" +:+ decimal pid +:+ "-" +:+ decimal nonce +:+ ".tmp".
Definition own_place (p : place) : Prop := ∃ name, own_name name ∧ p = project ++ [name].
Notation confined := (confined own_place).
Lemma own_within name rest : own_name name → within own_place (project ++ name :: rest).
Proof.
  intros Hn. exists (project ++ [name]). split; [by exists name|]. exists rest. by rewrite <-app_assoc.
Qed.
Lemma marker_within : within own_place (marker_of project).
Proof. apply own_within. left. set_solver. Qed.
Lemma marker_backup_within : within own_place (marker_backup_of project owner).
Proof. apply own_within. left. set_solver. Qed.
Lemma tree_within : within own_place (destination_of project).
Proof. apply own_within. left. set_solver. Qed.
Lemma tree_backup_within : within own_place (node_backup_of project owner).
Proof. apply own_within. left. set_solver. Qed.
Lemma stage_within : within own_place (stage_place project stage_name).
Proof. apply own_within. left. set_solver. Qed.
Lemma staged_within : within own_place (stage_place project stage_name ++ ["node_modules"]).
Proof. unfold stage_place. rewrite <-app_assoc. apply own_within. left. set_solver. Qed.
Lemma marker_temp_within nonce :
  within own_place (project ++ [".tapid-managed-" +:+ decimal pid +:+ "-" +:+ decimal nonce +:+ ".tmp"]).
Proof. apply own_within. right. by exists nonce. Qed.
Local Ltac own :=
  first [ apply marker_within | apply marker_backup_within | apply tree_within | apply tree_backup_within
        | apply stage_within | apply staged_within | apply marker_temp_within | done ].
Local Ltac confine_own := confine; try own.

Lemma confined_read_marker_backup p : confined (read_marker_backup p).
Proof. unfold read_marker_backup, read_bounded_owner. confine. Qed.
Lemma confined_restore_marker exists_ : confined (restore_marker (marker_of project) (marker_backup_of project owner) exists_).
Proof. unfold restore_marker. confine_own. Qed.
Lemma confined_put_back : confined (put_back (destination_of project) (node_backup_of project owner)).
Proof. unfold put_back. confine_own. Qed.
Lemma confined_restore_backup : confined (restore_node_modules_backup (destination_of project) (node_backup_of project owner)).
Proof. unfold restore_node_modules_backup. confine_own. Qed.
Lemma confined_stage_marker : confined (stage_marker project (marker_of project) (marker_backup_of project owner)).
Proof.
  unfold stage_marker.
  repeat first [apply confined_restore_marker | apply confined_read_marker_backup | confine_step | own].
Qed.
Lemma confined_write_marker clock : confined (write_marker pid clock project (marker_of project)).
Proof. unfold write_marker. cbv zeta. confine_own. Qed.
Lemma write_marker_temp clock : yields (write_marker pid clock project (marker_of project)) (λ r, within own_place r.1).
Proof.
  unfold write_marker. cbv zeta.
  repeat first [apply yields_ret; apply marker_temp_within | apply yields_bind; intros ? | case_match].
Qed.
Local Ltac confine_all :=
  repeat first
    [ apply (confined_bind_yields _ (λ r, within own_place r.1)); [apply confined_write_marker|apply write_marker_temp|intros [? ?] ?]
    | apply confined_restore_marker | apply confined_read_marker_backup | apply confined_put_back | apply confined_restore_backup
    | apply confined_stage_marker | apply confined_write_marker | own | confine_step ].
Lemma confined_complete clock exists_ preserve :
  confined (complete_activation pid clock project (stage_place project stage_name) owner exists_ preserve).
Proof. unfold complete_activation, discard_previous. cbv zeta. confine_all. Qed.
Lemma confined_abandon {A} exists_ reason :
  confined (abandon (A:=A) (destination_of project) (node_backup_of project owner) (marker_of project)
    (marker_backup_of project owner) exists_ reason).
Proof. unfold abandon. confine_all. Qed.
Lemma confined_activation clock preserve inject preflight :
  confined preflight →
  confined (activate_node_modules_with_preflight pid clock project (stage_place project stage_name) owner preserve inject preflight).
Proof.
  intros Hpre. unfold activate_node_modules_with_preflight, swap_trees. cbv zeta.
  repeat first [apply Hpre | apply confined_complete | apply confined_abandon | progress confine_all].
Qed.
Lemma confined_rollback decision : confined (rollback_coordinated_activation project (owner +:+ newline) decision).
Proof.
  unfold rollback_coordinated_activation, rollback_marker, rollback_tree.
  rewrite strip_suffix_newline. confine_all.
Qed.
End activation.
