(* ===== verification/ActivationThm.v ===== *)
(** * Replacing node_modules is all or nothing

    The theorems about [activate_node_modules_with_preflight] and what settles it, over
    arbitrary failures and crashes. *)
From Stdlib Require Import DecimalString DecimalN.
From S2P Require Import Prelude Order RustStr CrashFs Activation CrashLogic Slots ActivationInv Settling Confined.

(** ** Ends *)
(** The computation is over, with a result or by a crash, and left this world. *)
Definition ended {A} (o : outcome A) (w : world) : Prop :=
  match o with Returned _ _ w' | Crashed w' => w = w' | Panicked => False end.
(** Any number of attempts, each ending as it may. *)
Inductive attempts {A} (m : io A) : world → world → Prop :=
| no_attempt w : attempts m w w
| one_attempt ev w w1 w2 : ended (m ev w) w1 → attempts m w1 w2 → attempts m w w2.
Definition reads_only {A} (m : io A) : Prop := ∀ ev w, ∃ w', ended (m ev w) w' ∧ disk w' = disk w.
Lemma wp_ended {A} (m : io A) (Q : A → world → Prop) C ev w :
  wp true m Q C w → ∃ w', ended (m ev w) w' ∧ (C w' ∨ ∃ a, Q a w').
Proof.
  intros H. specialize (H ev (or_introl eq_refl)). destruct (m ev w) as [a rest w'|w'|]; [..|done]; exists w'; (split; [done|]).
  - right. exists a. apply H.
  - left. apply H.
Qed.
Lemma attempts_invariant {A} (m : io A) (I : world → Prop) w w' :
  (∀ w, I w → wp true m (λ _ w, I w) I w) → attempts m w w' → I w → I w'.
Proof.
  intros Hm. induction 1 as [w|ev w w1 w2 Hend _ IH]; [done|]. intros Hw. apply IH.
  destruct (wp_ended m _ _ ev w (Hm w Hw)) as (w'&Hend'&Hw'). assert (w1 = w') as ->; [|by destruct Hw' as [|[_ ?]]].
  destruct (m ev w); cbn in *; by simplify_eq.
Qed.
Lemma ended_agree {A} area (m : io A) ev w w' : confined area m → ended (m ev w) w' → agree area (disk w) (disk w').
Proof. intros Hm He. specialize (Hm ev w). by destruct (m ev w); cbn in He; subst. Qed.
Lemma attempts_agree {A} area (m : io A) w w' : confined area m → attempts m w w' → agree area (disk w) (disk w').
Proof. intros Hm. induction 1 as [|ev w w1 w2 He _ IH]; [done|]. etrans; [by eapply ended_agree|done]. Qed.
Lemma reads_only_confined {A} area (m : io A) : reads_only m → confined area m.
Proof. intros Hm ev w. destruct (Hm ev w) as (w'&He&Hd). destruct (m ev w); cbn in He; subst; by rewrite ?Hd. Qed.
Lemma wp_quiet {A} (m : io A) (Q : A → world → Prop) C w :
  wp false m Q C w → ∃ a rest w', m [] w = Returned a rest w' ∧ Q a w'.
Proof.
  intros H. specialize (H [] (or_intror (Forall_nil_2 _))). destruct (m [] w) as [a rest w'|w'|]; [|by destruct H..].
  exists a, rest, w'. split; [done|apply H].
Qed.

(** ** Names *)
Lemma decimal_head n : ∃ c rest, decimal n = String c rest ∧ byte_is_digit c = true.
Proof. unfold decimal. destruct (N.to_uint n); cbn; by do 2 eexists. Qed.
Section names.
Context (project : place) (owner suffix : string).
Definition stage_of : string := ".tapid-install-stage-" +:+ suffix.
Lemma stage_name_apart s : s ≠ Staged → slot_name owner stage_of s ≠ stage_of.
Proof. by destruct s. Qed.
Lemma temp_outside pid rest : outside project owner stage_of (project ++ [".tapid-managed-" +:+ decimal pid +:+ rest]).
Proof.
  apply outside_name. intros s. destruct (decimal_head pid) as (c&digits&->&Hc).
  destruct s; try done. cbn. intros E. injection E as E _. by subst c.
Qed.
End names.

(** ** The theorems *)
Section theorems.
Context (project : place) (owner suffix : string).
Notation stage_name := (stage_of suffix).
Notation at_slot s w := (lookup_at (slot_place project owner stage_name s) (disk w)).
(** Nothing is left of an earlier activation, and a staged tree is ready. *)
Record ready (new_tree : gmap string node) (w : world) : Prop := mk_ready {
  ready_project : is_directory (lookup_at project (disk w)) = true;
  ready_marker : ∀ n, at_slot Marker w = Some n → is_regular n = true;
  ready_tree : ∀ n, at_slot Tree w = Some n → ∃ entries, n = Directory entries ∧ entries ≠ ∅;
  ready_marker_backup : at_slot MarkerBackup w = None;
  ready_tree_backup : at_slot TreeBackup w = None;
  ready_staged : at_slot Staged w = Some (Directory new_tree);
}.
(** The activation slots apart, a slot holds the same in both worlds. *)
Definition others_same (w w' : world) : Prop := ∀ s, activation_slot s = false → at_slot s w' = at_slot s w.
Definition same_project (w w' : world) : Prop :=
  at_slot Marker w' = at_slot Marker w ∧ at_slot Tree w' = at_slot Tree w ∧
  at_slot MarkerBackup w' = None ∧ at_slot TreeBackup w' = None ∧ others_same w w'.
Definition new_project (new_tree : gmap string node) (w w' : world) : Prop :=
  at_slot Marker w' = Some (File MANAGED_MARKER) ∧ at_slot Tree w' = Some (Directory new_tree) ∧
  at_slot MarkerBackup w' = None ∧ at_slot TreeBackup w' = None ∧ others_same w w'.
(** The decision the journal records for a project in world [w]. *)
Definition decision_of (w : world) (committed : bool) : RecoveryDecision :=
  mk_decision (owner +:+ newline) committed (bool_decide (is_Some (at_slot Marker w))) (bool_decide (is_Some (at_slot Tree w))).

Context (new_tree : gmap string node) (w0 : world) (Hready : ready new_tree w0).
Context (pid : N) (clock : N → N) (preflight : act ()) (Hpreflight : reads_only preflight) (inject : bool).
Local Definition v0 (s : slot) : option node := at_slot s w0.
Notation recoverable := (recoverable project owner stage_name (v0 Marker) (v0 Tree) v0).
Notation activation := (activate_node_modules_with_preflight pid clock project (stage_place project stage_name) owner true inject preflight).
Lemma preflight_views v w :
  views project owner stage_name w v →
  wp true preflight (λ _ w, views project owner stage_name w v) (λ w, views project owner stage_name w v) w.
Proof.
  intros Hv ev _. destruct (Hpreflight ev w) as (w'&Hend&Hd).
  assert (views project owner stage_name w' v) as Hv' by (unfold views; rewrite Hd; apply Hv).
  destruct (preflight ev w); cbn in Hend; subst; [by split; [left|]|done|done].
Qed.
Lemma activation_completed :
  wp true activation (completed project owner stage_name (v0 Marker) (v0 Tree) v0 new_tree) recoverable w0.
Proof.
  destruct Hready as [Hd Hm Ht Hmb Htb Hst].
  apply (activate_completed project owner stage_name (stage_name_apart owner suffix) true (v0 Marker) (v0 Tree) Hm Ht v0 pid clock
    (λ nonce, temp_outside project owner suffix pid _) new_tree _ eq_refl preflight preflight_views inject v0 w0); [done|].
  by split_and!.
Qed.
Lemma activation_recoverable ev : ∃ w1, ended (activation ev w0) w1 ∧ recoverable w1.
Proof.
  destruct (wp_ended _ _ _ ev w0 activation_completed) as (w1&Hend&Hw). exists w1. split; [done|].
  by destruct Hw as [Hw|[r [Hw _]]].
Qed.
Notation rollback := (rollback_coordinated_activation project (owner +:+ newline) (decision_of w0 false)).
Lemma rollback_rule faulty w :
  recoverable w → wp faulty rollback (rolled_back project owner stage_name faulty (v0 Marker) (v0 Tree) v0) recoverable w.
Proof.
  destruct Hready as [Hd Hm Ht _ _ _]. apply rollback_rolled_back; [apply stage_name_apart|done|done|done|done].
Qed.
Lemma rollback_restores w2 w3 :
  recoverable w2 → attempts rollback w2 w3 → ∃ rest w4, rollback [] w3 = Returned (Ok tt) rest w4 ∧ same_project w0 w4.
Proof.
  intros Hr Ha. apply (λ H, attempts_invariant _ recoverable _ _ H Ha) in Hr; [clear Ha|].
  - destruct (wp_quiet _ _ _ _ (rollback_rule false w3 Hr)) as (r&rest&w4&Hrun&_&Hres&Hq). specialize (Hq eq_refl).
    destruct r as [[]|e]; [|done]. exists rest, w4. split; [done|]. destruct (Hres eq_refl) as (v&[_ Hv]&[H1 H2]&H3&H4&H5).
    unfold same_project, others_same. rewrite !Hv. split_and!; [done..|]. intros s Hs. rewrite Hv. by apply H5.
  - intros w Hw. eapply wp_wand; [by apply rollback_rule|by intros r w' [H _]|done].
Qed.
Notation commit := (commit_owned_activation project (owner +:+ newline)).
Notation committing := (committing project owner stage_name v0 new_tree).
Lemma commit_rule faulty w :
  activation_owner_is_valid (owner +:+ newline) = true → committing w →
  wp faulty commit (committed project owner stage_name faulty v0 new_tree) committing w.
Proof. apply commit_committed, stage_name_apart. Qed.
Lemma commit_completes w2 w3 :
  activation_owner_is_valid (owner +:+ newline) = true → committing w2 → attempts commit w2 w3 →
  ∃ rest w4, commit [] w3 = Returned (Ok tt) rest w4 ∧ new_project new_tree w0 w4.
Proof.
  intros Hvalid Hc Ha. apply (λ H, attempts_invariant _ committing _ _ H Ha) in Hc; [clear Ha|].
  - destruct (wp_quiet _ _ _ _ (commit_rule false w3 Hvalid Hc)) as (r&rest&w4&Hrun&_&Hres&Hq). specialize (Hq eq_refl).
    destruct r as [[]|e]; [|done]. exists rest, w4. split; [done|]. destruct (Hres eq_refl) as (v&[_ Hv]&(H1&H2&_&_&H5)&H3&H4).
    unfold new_project, others_same. rewrite !Hv. split_and!; [done..|]. intros s Hs. rewrite Hv. by apply H5.
  - intros w Hw. eapply wp_wand; [by apply commit_rule|by intros r w' [H _]|done].
Qed.
End theorems.

(** C22: an interrupted activation is undone.  An activation that keeps the previous tree starts
    with nothing left of an earlier one, with a marker that is a regular file or none, and with a
    tree that is a directory with entries or none.  Whatever calls of it fail and wherever it
    crashes, it ends without panicking; and after any number of rollbacks that are themselves
    interrupted, a rollback that is left to finish succeeds and leaves the project as it was: the
    previous tree and marker, or none, no backups, the other files of an installation unchanged,
    and every path of the disk untouched that is not at, above or below the tree, the marker,
    their backups, the stage or a temporary file of the marker. *)
Theorem interrupted_activation_rolls_back project owner suffix new_tree w pid clock preflight inject ev :
  ready project owner suffix new_tree w → reads_only preflight →
  ∃ w1, ended (activate_node_modules_with_preflight pid clock project (stage_place project (stage_of suffix)) owner true inject preflight ev w) w1 ∧
  ∀ w2, attempts (rollback_coordinated_activation project (owner +:+ newline) (decision_of project owner suffix w false)) w1 w2 →
  ∃ rest w3, rollback_coordinated_activation project (owner +:+ newline) (decision_of project owner suffix w false) [] w2 = Returned (Ok tt) rest w3 ∧
    same_project project owner suffix w w3 ∧ agree (own_place project pid owner (stage_of suffix)) (disk w) (disk w3).
Proof.
  intros Hready Hpre. destruct (activation_recoverable project owner suffix new_tree w Hready pid clock preflight Hpre inject ev) as (w1&Hend&Hr).
  exists w1. split; [done|]. intros w2 Ha.
  destruct (rollback_restores project owner suffix new_tree w Hready w1 w2 Hr Ha) as (rest&w3&Hrun&Hsame).
  exists rest, w3. split_and!; [done..|].
  etrans; [eapply ended_agree; [|exact Hend]; by apply confined_activation, reads_only_confined|].
  etrans; [eapply attempts_agree; [|exact Ha]; apply confined_rollback|].
  eapply ended_agree; [apply (confined_rollback project pid owner (stage_of suffix))|]. by rewrite Hrun.
Qed.

(** When an activation reports success, the staged tree is in place with its marker, and
    after any number of interrupted attempts to commit it, one that is left to finish
    succeeds and leaves the new tree, the marker and no backups, with the other files
    untouched. *)
Theorem successful_activation_commits project owner suffix new_tree w pid clock preflight inject ev rest w1 w2 :
  ready project owner suffix new_tree w → reads_only preflight → activation_owner_is_valid (owner +:+ newline) = true →
  activate_node_modules_with_preflight pid clock project (stage_place project (stage_of suffix)) owner true inject preflight ev w =
    Returned (Ok tt) rest w1 →
  attempts (commit_owned_activation project (owner +:+ newline)) w1 w2 →
  ∃ rest' w3, commit_owned_activation project (owner +:+ newline) [] w2 = Returned (Ok tt) rest' w3 ∧
    new_project project owner suffix new_tree w w3.
Proof.
  intros Hready Hpre Hvalid Hrun. apply commit_completes; [done|].
  pose proof (activation_completed project owner suffix new_tree w Hready pid clock preflight Hpre inject ev (or_introl eq_refl)) as H.
  rewrite Hrun in H. destruct H as [_ [_ H]]. destruct Hready as [_ Hm Ht _ _ _].
  apply (activated_committing project owner (stage_of suffix) _ _ Hm Ht _ (decision_of project owner suffix w false) eq_refl eq_refl). by apply H.
Qed.

(** ** A project *)
Definition entries_of (l : list (string * node)) : node := Directory (list_to_map l).
Definition sample_project (rest : list (string * node)) : world :=
  mk_world (entries_of [("app", entries_of ([(".tapid-install-stage-1-1", entries_of [("node_modules", entries_of [("new", File "2")])]);
    ("package.json", File "{}")] ++ rest))]) 0.
(** With an installation in it, and without. *)
Definition installed_project : world :=
  sample_project [(".tapid-managed", File MANAGED_MARKER); ("node_modules", entries_of [("old", File "1")])].
Definition empty_project : world := sample_project [].
Definition sample_tree : gmap string node := {[ "new" := File "2" ]}.
Definition sample_activation (events : list event) (w : world) : outcome (result string ()) :=
  activate_node_modules_with_preflight 1 id ["app"] (stage_place ["app"] (stage_of "1-1")) "1-a" true false (succeed ()) events w.
Definition no_debris : debris := mk_debris "" ∅.
Definition crash_after (n : nat) : list event := repeat Proceed n ++ [Crash no_debris].
Lemma installed_ready : ready ["app"] "1-a" "1-1" sample_tree installed_project.
Proof.
  split; try done.
  - intros n H. vm_compute in H. by injection H as <-.
  - intros n H. vm_compute in H. injection H as <-. eexists. split; [done|]. discriminate.
Defined.
Lemma succeed_reads_only : reads_only (succeed ()).
Proof. intros ev w. by exists w. Defined.
Lemma interrupted_activation_rolls_back_witness :
  ∃ w1, ended (sample_activation (crash_after 17) installed_project) w1 ∧
  ∀ w2, attempts (rollback_coordinated_activation ["app"] ("1-a" +:+ newline) (decision_of ["app"] "1-a" "1-1" installed_project false)) w1 w2 →
  ∃ rest w3, rollback_coordinated_activation ["app"] ("1-a" +:+ newline) (decision_of ["app"] "1-a" "1-1" installed_project false) [] w2 = Returned (Ok tt) rest w3 ∧
    same_project ["app"] "1-a" "1-1" installed_project w3 ∧
    agree (own_place ["app"] 1 "1-a" (stage_of "1-1")) (disk installed_project) (disk w3).
Proof. apply interrupted_activation_rolls_back with (new_tree := sample_tree); [apply installed_ready|apply succeed_reads_only]. Defined.
Definition holds_at (p : place) (w : world) : bool := match lookup_at p (disk w) with Some _ => true | None => false end.
(** The crash of the witness: the old tree is moved away, the new one in place, no marker. *)
Example crash_after_the_swap :
  match sample_activation (crash_after 17) installed_project with
  | Crashed w => holds_at ["app"; "node_modules"; "new"] w && holds_at ["app"; ".tapid-node-modules-old-1-a"; "old"] w
                 && negb (holds_at ["app"; ".tapid-managed"] w)
  | _ => false
  end = true.
Proof. vm_compute. reflexivity. Qed.
(** What a computation that returns leaves. *)
Definition world_after {A} (o : outcome A) (w : world) : world := match o with Returned _ _ w' | Crashed w' => w' | Panicked => w end.
Definition succeeded (o : outcome (result string ())) : bool := match o with Returned (Ok _) [] _ => true | _ => false end.
Lemma succeeded_returned o w : succeeded o = true → o = Returned (Ok tt) [] (world_after o w).
Proof. by destruct o as [[[]|] []| |]. Defined.
Definition crashed {A} (o : outcome A) : bool := match o with Crashed _ => true | _ => false end.
Lemma crashed_ended {A} (o : outcome A) w : crashed o = true → ended o (world_after o w).
Proof. by destruct o. Defined.
Definition activated_project : world := world_after (sample_activation [] installed_project) installed_project.
Definition sample_commit : act () := commit_owned_activation ["app"] ("1-a" +:+ newline).
(** A commit that crashes halfway through the removal of the old tree, then another. *)
Definition halfway : list event := [Proceed; Proceed; Proceed; Crash no_debris].
Lemma successful_activation_commits_witness :
  holds_at ["app"; ".tapid-node-modules-old-1-a"] (world_after (sample_commit halfway activated_project) activated_project) = true ∧
  ∃ rest w3, sample_commit [] (world_after (sample_commit halfway activated_project) activated_project) = Returned (Ok tt) rest w3 ∧
    new_project ["app"] "1-a" "1-1" sample_tree installed_project w3.
Proof.
  split; [vm_compute; reflexivity|].
  eapply successful_activation_commits with (ev := []) (rest := []) (w1 := activated_project).
  - apply installed_ready.
  - apply succeed_reads_only.
  - vm_compute. reflexivity.
  - apply succeeded_returned. vm_compute. reflexivity.
  - eapply one_attempt; [|apply no_attempt]. apply crashed_ended. vm_compute. reflexivity.
Defined.
(** The limit of the theorem: an empty tree can be lost.  If the second [exists] of the tree
    fails for a moment, it counts as missing; the rename of the staged tree replaces an empty
    directory, so a crash right after it leaves no backup, and the rollback keeps the new tree. *)
Definition empty_tree_project : world := sample_project [(".tapid-managed", File MANAGED_MARKER); ("node_modules", entries_of [])].
Definition failing_exists : list event := repeat Proceed 9 ++ [Fault no_debris] ++ repeat Proceed 3 ++ [Crash no_debris].
Example empty_tree_not_restored :
  let w1 := world_after (sample_activation failing_exists empty_tree_project) empty_tree_project in
  let o := rollback_coordinated_activation ["app"] ("1-a" +:+ newline) (decision_of ["app"] "1-a" "1-1" empty_tree_project false) [] w1 in
  crashed (sample_activation failing_exists empty_tree_project) && succeeded o && holds_at ["app"; "node_modules"; "new"] (world_after o w1) = true.
Proof. vm_compute. reflexivity. Qed.
