(* ===== verification/Journal.v ===== *)
(** * The journal of an installation

    An installation records what it is about to replace - the manifest and the lockfile as
    they were, and which trees and markers existed - in a journal next to the project's
    files, decides by a second write of the journal, and removes it when nothing is left to
    do; whoever finds a journal restores or completes (crates/tapid-cli/src/filesystem
    lifecycle_journal.rs, the lockfile functions of atomic.rs, and the lock of
    activation.rs, which recovers).  The Unix build.  [canonicalize] is the operating
    system's; [recover_store] stands for the store's own recovery, outside the project. *)
From Stdlib Require Import HexadecimalString HexadecimalN.
From S2P Require Import Prelude Order RustStr Crates Json CrashFs Activation.

Definition JOURNAL : string := ".tapid-lifecycle-journal.json".
Definition MAX_SNAPSHOT_BYTES : Z := 32 * 1024 * 1024.
Definition MAX_ENCODED_SNAPSHOT_BYTES : Z := (MAX_SNAPSHOT_BYTES + 2) / 3 * 4.
Definition MAX_JOURNAL_BYTES : Z := 96 * 1024 * 1024.

(** ** The record *)
Inductive State := Prepared | Committed.
#[export] Instance State_eq_dec : EqDecision State.
Proof. solve_decision. Defined.
Record MemberActivation := mk_member { ma_path : string; ma_marker_existed : bool; ma_node_modules_existed : bool }.
Record Record_ := mk_record {
  r_version : Z;
  r_manifest_path : string;
  r_owner : string;
  r_state : State;
  r_manifest_existed : bool;
  r_manifest : string;
  r_lock_existed : bool;
  r_lock : string;
  r_marker_existed : bool;
  r_node_modules_existed : bool;
  r_store_root : option string;
  r_members : list MemberActivation;
}.
Definition with_state (state : State) (r : Record_) : Record_ :=
  mk_record (r_version r) (r_manifest_path r) (r_owner r) state (r_manifest_existed r) (r_manifest r) (r_lock_existed r)
    (r_lock r) (r_marker_existed r) (r_node_modules_existed r) (r_store_root r) (r_members r).
Definition with_members (members : list MemberActivation) (r : Record_) : Record_ :=
  mk_record 3 (r_manifest_path r) (r_owner r) (r_state r) (r_manifest_existed r) (r_manifest r) (r_lock_existed r)
    (r_lock r) (r_marker_existed r) (r_node_modules_existed r) (r_store_root r) members.
Definition with_store_root (root : string) (r : Record_) : Record_ :=
  mk_record (r_version r) (r_manifest_path r) (r_owner r) (r_state r) (r_manifest_existed r) (r_manifest r) (r_lock_existed r)
    (r_lock r) (r_marker_existed r) (r_node_modules_existed r) (Some root) (r_members r).

(** The derived codecs; a unit variant is its name, or an object of its name and null. *)
Definition write_state (s : State) : json := JString match s with Prepared => "Prepared" | Committed => "Committed" end.
Definition state_named (name : string) : option State :=
  if str_eqb name "Prepared" then Some Prepared else if str_eqb name "Committed" then Some Committed else None.
Definition read_state (v : json) : option State :=
  match v with
  | JString name => state_named name
  | JObject [(name, JNull)] => state_named name
  | _ => None
  end.
Definition member_specs : list (string * presence) :=
  [("path", Required); ("marker_existed", Required); ("node_modules_existed", Required)].
Definition member_entries (m : MemberActivation) : list (string * option json) :=
  [field "path" (JString (ma_path m)); field "marker_existed" (JBool (ma_marker_existed m));
   field "node_modules_existed" (JBool (ma_node_modules_existed m))].
Definition read_member (v : json) : option MemberActivation :=
  fields ← struct_fields true member_specs v;
  match fields with
  | [path; marker; modules] =>
      path ← read_field read_string None path;
      marker ← read_field read_bool None marker;
      modules ← read_field read_bool None modules;
      Some (mk_member path marker modules)
  | _ => None
  end.
Definition record_specs : list (string * presence) :=
  [("version", Required); ("manifest_path", Defaulted); ("owner", Required); ("state", Required);
   ("manifest_existed", Required); ("manifest", Required); ("lock_existed", Required); ("lock", Required);
   ("marker_existed", Required); ("node_modules_existed", Required); ("store_root", Optional); ("members", Defaulted)].
Definition record_entries (r : Record_) : list (string * option json) :=
  [field "version" (JNumber (r_version r)); field "manifest_path" (JString (r_manifest_path r));
   field "owner" (JString (r_owner r)); field "state" (write_state (r_state r));
   field "manifest_existed" (JBool (r_manifest_existed r)); field "manifest" (JString (r_manifest r));
   field "lock_existed" (JBool (r_lock_existed r)); field "lock" (JString (r_lock r));
   field "marker_existed" (JBool (r_marker_existed r)); field "node_modules_existed" (JBool (r_node_modules_existed r));
   field "store_root" (match r_store_root r with Some s => JString s | None => JNull end);
   field_unless (bool_decide (r_members r = [])) "members" (JArray ((λ m, write_struct (member_entries m)) <$> r_members r))].
Definition read_record (v : json) : option Record_ :=
  fields ← struct_fields true record_specs v;
  match fields with
  | [version; path; owner; state; manifest_existed; manifest; lock_existed; lock; marker; modules; store; members] =>
      version ← read_field read_u32 None version;
      path ← read_field read_string (Some "package.json") path;
      owner ← read_field read_string None owner;
      state ← read_field read_state None state;
      manifest_existed ← read_field read_bool None manifest_existed;
      manifest ← read_field read_string None manifest;
      lock_existed ← read_field read_bool None lock_existed;
      lock ← read_field read_string None lock;
      marker ← read_field read_bool None marker;
      modules ← read_field read_bool None modules;
      store ← read_field (read_option read_string) (Some None) store;
      members ← read_field (read_vec read_member) (Some []) members;
      Some (mk_record version path owner state manifest_existed manifest lock_existed lock marker modules store members)
  | _ => None
  end.

(** ** Paths *)
Definition valid_owner (owner : string) : bool :=
  match strip_suffix newline owner with
  | None => false
  | Some value =>
      match split_once "-" value with
      | None => false
      | Some (pid, nonce) =>
          negb (is_empty pid) && str_forallb byte_is_digit pid && negb (is_empty nonce) && str_forallb is_hexdigit nonce
      end
  end.
(** The names of a path of [Normal] components only, a [.] inside it dropped. *)
Fixpoint normal_names (path : list component) : option place :=
  match path with
  | [] => Some []
  | Normal name :: path => names ← normal_names path; Some (name :: names)
  | _ => None
  end.
Definition joined_names (relative : string) : option place :=
  normal_names (base.filter (λ c, c ≠ CurDir) (path_components relative)).
Fixpoint strip_place (base p : place) : option place :=
  match base, p with
  | [], _ => Some p
  | b :: base, n :: p => if str_eqb b n then strip_place base p else None
  | _ :: _, [] => None
  end.
Definition journal_of (project : place) : place := project ++ [JOURNAL].
Definition journal_backup_of (project : place) : place := project ++ [".tapid-lifecycle-journal.lifecycle.bak"].
Definition lockfile_of (project : place) : place := project ++ ["tapid.lock"].
Definition sync_parent (p : place) : act () := explain "cannot sync lifecycle directory" (sync_all (parent p)).
(** [exists(path)] *)
Definition state_exists (p : place) : act bool :=
  r ← symlink_metadata p;
  match r with
  | Ok _ => succeed true
  | Err NotFound => succeed false
  | Err _ => fail "cannot inspect lifecycle state"
  end.

(** The journal, or its backup when there is no journal; only metadata is read. *)
Definition inspect_pending (project : place) : io (place * result string bool) :=
  let path := journal_of project in
  let backup := journal_backup_of project in
  r ← symlink_metadata path;
  '(path, metadata, label) ← match r with
    | Err NotFound => r ← symlink_metadata backup; mret (backup, r, "lifecycle journal backup")
    | r => mret (path, r, "lifecycle journal")
    end;
  mret (path, match metadata with
              | Ok (File content) =>
                  if (str_len content <=? MAX_JOURNAL_BYTES)%Z then Ok true
                  else Err ("refusing to inspect an oversized " +:+ label)
              | Ok _ => Err ("refusing to inspect a non-regular " +:+ label)
              | Err NotFound => Ok false
              | Err _ => Err ("cannot inspect " +:+ label)
              end).
Definition has_pending (project : place) : act bool := r ← inspect_pending project; mret r.2.

Section journal.
Context `{B64 : Base64} `{JC : JsonCodec} `{JP : JsonCompact}.
Context (pid : N) (clock : N → N).
Context (canonicalize : node → place → option place) (recover_store : string → act ()).
(** [fs::canonicalize(p).ok()] *)
Definition canonical_path (p : place) : io (option place) :=
  r ← inspect (λ d, ok_or OtherError (canonicalize d p)); mret (to_ok r).

Definition validate_member_root (project member : place) : act () :=
  match strip_place project member with
  | None => fail "member activation escapes project"
  | Some relative =>
      if bool_decide (relative = []) || bool_decide ("node_modules" ∈ relative)
      then fail "refusing unsafe lifecycle member path" else
      canonical ← canonical_path member;
      if negb (bool_decide (canonical = Some member)) then fail "refusing noncanonical lifecycle member path" else
      n ←? explain "cannot inspect lifecycle member" (symlink_metadata member);
      if is_dir n then succeed () else fail "lifecycle member must be a directory"
  end.
Fixpoint member_paths_from (project : place) (previous : option string) (members : list MemberActivation) : act (list place) :=
  match members with
  | [] => succeed []
  | member :: members =>
      if path_is_absolute (ma_path member) || match previous with Some p => leb (ma_path member) p | None => false end
      then fail "refusing unsafe or duplicate lifecycle member path" else
      match joined_names (ma_path member) with
      | None => fail "refusing unsafe lifecycle member path"
      | Some relative =>
          _ ←? validate_member_root project (project ++ relative);
          paths ←? member_paths_from project (Some (ma_path member)) members;
          succeed ((project ++ relative) :: paths)
      end
  end.
Definition member_paths (project : place) (members : list MemberActivation) : act (list place) :=
  member_paths_from project None members.
(** [manifest] is the path joined to the project when it was relative. *)
Definition relative_manifest_path (project manifest : place) : act string :=
  project ←? (c ← canonical_path project; mret (ok_or "cannot resolve lifecycle project root" c));
  n ←? explain "cannot inspect lifecycle manifest target" (symlink_metadata manifest);
  if negb (is_regular n) then fail "lifecycle manifest target must be a regular, non-symlink file" else
  canonical ←? (c ← canonical_path manifest; mret (ok_or "cannot resolve lifecycle manifest target" c));
  match strip_place project canonical with
  | None => fail "lifecycle manifest target escapes the project root"
  | Some relative =>
      if bool_decide (relative = []) then fail "lifecycle manifest target has an unsafe relative path"
      else succeed (join "/" relative)
  end.
Definition recovery_manifest_path (project : place) (relative : string) : act place :=
  match normal_names (path_components relative) with
  | None | Some [] => fail "refusing to recover lifecycle manifest through an unsafe path"
  | Some names =>
      root ←? (c ← canonical_path project; mret (ok_or "cannot resolve lifecycle project root" c));
      let target := root ++ names in
      parent ←? (c ← canonical_path (parent target); mret (ok_or "cannot resolve lifecycle manifest parent" c));
      match strip_place root parent with
      | None => fail "refusing to recover lifecycle manifest outside project root"
      | Some _ =>
          r ← symlink_metadata target;
          match r with
          | Ok n => if is_regular n then succeed target else fail "refusing to recover lifecycle manifest over a non-regular file"
          | Err NotFound => succeed target
          | Err _ => fail "cannot inspect lifecycle manifest during recovery"
          end
      end
  end.

(** ** Files *)
Definition atomic_replace (path : place) (bytes : string) : act () :=
  nonce ← unique_nonce clock;
  let name := default "" (last path) in
  let temp := parent path ++ ["." +:+ name +:+ ".lifecycle-" +:+ decimal pid +:+ "-" +:+ decimal nonce +:+ ".tmp"] in
  result ← (_ ←? explain "cannot create" (create_new temp);
            _ ←? explain "cannot write" (write_all temp bytes);
            _ ←? explain "cannot sync" touch;
            _ ←? explain "cannot rename" (rename temp path);
            sync_parent path);
  match result with
  | Ok _ => succeed ()
  | Err error => _ ← ignore (remove_file temp); fail error
  end.
(** The Unix build renames over the target, whether it exists or not. *)
Definition replace_journal_file (temp target : place) : io (result io_error ()) :=
  _ ← path_exists target; rename temp target.
Definition write_record (project : place) (record : Record_) : act () :=
  let path := journal_of project in
  nonce ← unique_nonce clock;
  let temp := project ++ [JOURNAL +:+ "." +:+ decimal nonce +:+ ".tmp"] in
  let bytes := json_compact (write_struct (record_entries record)) in
  if (MAX_JOURNAL_BYTES <? str_len bytes)%Z then fail "lifecycle recovery state exceeds encoded size limit" else
  _ ←? explain "cannot create lifecycle journal" (create_new temp);
  _ ←? explain "cannot persist lifecycle journal" (write_all temp bytes);
  _ ←? explain "cannot persist lifecycle journal" touch;
  _ ←? explain "cannot publish lifecycle journal" (replace_journal_file temp path);
  sync_parent path.
Definition clear_journal_backup (project : place) : act () :=
  let backup := journal_backup_of project in
  r ← symlink_metadata backup;
  match r with
  | Ok n =>
      if is_regular n then
        _ ←? explain "cannot remove stale lifecycle journal backup" (remove_file backup);
        sync_parent (journal_of project)
      else fail "refusing to remove a non-regular lifecycle journal backup"
  | Err NotFound => succeed ()
  | Err _ => fail "cannot inspect lifecycle journal backup"
  end.
Definition remove_journal (project : place) : act () :=
  let path := journal_of project in
  _ ←? clear_journal_backup project;
  r ← remove_file path;
  match r with
  | Ok _ => sync_parent path
  | Err NotFound => succeed ()
  | Err _ => fail "cannot remove lifecycle journal"
  end.

(** ** Recovery *)
Definition decode_bytes (text error : string) : act string := mret (ok_or error (b64_decode text)).
Definition recover_record (project : place) (record : Record_) : act () :=
  manifest ←? decode_bytes (r_manifest record) "invalid manifest bytes in lifecycle journal";
  manifest_path ←? recovery_manifest_path project (r_manifest_path record);
  _ ←? atomic_replace manifest_path manifest;
  let lock_path := lockfile_of project in
  if r_lock_existed record then
    lock ←? decode_bytes (r_lock record) "invalid lockfile bytes in lifecycle journal";
    atomic_replace lock_path lock
  else
    r ← remove_file lock_path;
    match r with
    | Ok _ => sync_parent lock_path
    | Err NotFound => succeed ()
    | Err _ => fail "cannot restore prior lockfile state"
    end.
(** The journal's metadata; an interrupted update is put back first. *)
Definition journal_metadata (project : place) : act (option node) :=
  let path := journal_of project in
  let backup := journal_backup_of project in
  r ← symlink_metadata path;
  match r with
  | Ok n => if is_regular n then succeed (Some n) else fail "refusing to recover a non-regular lifecycle journal"
  | Err NotFound =>
      r ← symlink_metadata backup;
      match r with
      | Ok (File content) =>
          if negb (str_len content <=? MAX_JOURNAL_BYTES)%Z
          then fail "refusing to recover an oversized lifecycle journal backup" else
          _ ←? explain "cannot restore interrupted lifecycle journal update" (rename backup path);
          _ ←? sync_parent path;
          n ←? explain "cannot inspect restored lifecycle journal" (symlink_metadata path);
          succeed (Some n)
      | Ok _ => fail "refusing to recover a non-regular lifecycle journal backup"
      | Err NotFound => succeed None
      | Err _ => fail "cannot inspect lifecycle journal backup"
      end
  | Err _ => fail "cannot inspect lifecycle journal"
  end.
Definition parse_record (bytes : string) : result string Record_ :=
  ok_or "refusing to recover a malformed lifecycle journal" (v ← json_parse bytes; read_record v).
Definition owned_record (record : Record_) (stale_owner : option string) : bool :=
  ((1 <=? r_version record) && (r_version record <=? 3))%Z
  && negb ((r_version record =? 1)%Z && negb (str_eqb (r_manifest_path record) "package.json"))
  && valid_owner (r_owner record)
  && match stale_owner with Some owner => str_eqb (r_owner record) owner | None => true end.
Definition recover_member (record : Record_) (m : MemberActivation * place) : act () :=
  let '(member, path) := m in
  _ ←? recover_owned_activation path (r_owner record)
         (Some (mk_decision (r_owner record) (bool_decide (r_state record = Committed)) (ma_marker_existed member)
                  (ma_node_modules_existed member)));
  recover_owned_stages path (r_owner record).
(** Checks everything that the record says, then acts on it. *)
Definition recover_parsed (project : place) (record : Record_) (stale_owner : option string) : act RecoveryDecision :=
  if negb (owned_record record stale_owner) then fail "refusing to recover a lifecycle journal with invalid ownership" else
  if (r_version record <? 3)%Z && negb (bool_decide (r_members record = []))
  then fail "member activation requires lifecycle version 3" else
  paths ←? member_paths project (r_members record);
  _ ←? recovery_manifest_path project (r_manifest_path record);
  if (MAX_ENCODED_SNAPSHOT_BYTES <? str_len (r_manifest record))%Z || (MAX_ENCODED_SNAPSHOT_BYTES <? str_len (r_lock record))%Z
  then fail "refusing to recover oversized lifecycle state" else
  _ ←? match r_store_root record with Some root => recover_store root | None => succeed () end;
  _ ←? (if bool_decide (r_state record = Prepared) then recover_record project record else succeed ());
  _ ←? act_each (recover_member record) (zip (r_members record) paths);
  succeed (mk_decision (r_owner record) (bool_decide (r_state record = Committed)) (r_marker_existed record)
             (r_node_modules_existed record)).
Definition recover (project : place) (stale_owner : option string) : act (option RecoveryDecision) :=
  metadata ←? journal_metadata project;
  match metadata with
  | None => succeed None
  | Some n =>
      if match n with File content => (MAX_JOURNAL_BYTES <? str_len content)%Z | _ => false end
      then fail "refusing to recover an oversized lifecycle journal" else
      bytes ←? explain "cannot read lifecycle journal" (read (journal_of project));
      record ←? mret (parse_record bytes);
      decision ←? recover_parsed project record stale_owner;
      succeed (Some decision)
  end.
Definition finish_recovery (project : place) : act () := remove_journal project.

(** ** [LifecycleJournal] *)
Record LifecycleJournal := mk_journal {
  lj_project : place;
  lj_record : Record_;
  lj_finished : bool;
  lj_settlement_attempted : bool;
}.
Definition begin (project manifest_path : place) (owner manifest : string) (lock : option string) : act LifecycleJournal :=
  if negb (valid_owner owner) then fail "refusing to create lifecycle journal with invalid owner" else
  if (MAX_SNAPSHOT_BYTES <? str_len manifest)%Z
     || match lock with Some bytes => (MAX_SNAPSHOT_BYTES <? str_len bytes)%Z | None => false end
  then fail "lifecycle recovery state exceeds size limit" else
  r ← symlink_metadata (journal_of project);
  _ ←? match r with
       | Ok _ => fail "an unfinished lifecycle transaction requires recovery"
       | Err NotFound => succeed ()
       | Err _ => fail "cannot inspect lifecycle journal"
       end;
  marker_existed ←? state_exists (marker_of project);
  node_modules_existed ←? state_exists (destination_of project);
  manifest_path ←? relative_manifest_path project manifest_path;
  let record := mk_record 2 manifest_path owner Prepared true (b64_encode manifest) (bool_decide (is_Some lock))
                  (default "" (b64_encode <$> lock)) marker_existed node_modules_existed None [] in
  _ ←? write_record project record;
  succeed (mk_journal project record false false).
Definition with_record (r : Record_) (j : LifecycleJournal) : LifecycleJournal :=
  mk_journal (lj_project j) r (lj_finished j) (lj_settlement_attempted j).
Definition member_state (project : place) (root : place) : act MemberActivation :=
  _ ←? validate_managed_node_modules root;
  match strip_place project root with
  | None => fail "member activation escapes project"
  | Some relative =>
      marker ←? state_exists (marker_of root);
      modules ←? state_exists (destination_of root);
      succeed (mk_member (join "/" relative) marker modules)
  end.
Fixpoint member_states (project : place) (roots : list place) : act (list MemberActivation) :=
  match roots with
  | [] => succeed []
  | root :: roots => m ←? member_state project root; ms ←? member_states project roots; succeed (m :: ms)
  end.
Definition set_member_roots (j : LifecycleJournal) (roots : list place) : io (LifecycleJournal * result string ()) :=
  if negb (bool_decide (r_members (lj_record j) = [])) then mret (j, Err "member activation roots already recorded") else
  states ← member_states (lj_project j) roots;
  match states with
  | Err e => mret (j, Err e)
  | Ok states =>
      let members := sort_by ma_path states in
      r ← member_paths (lj_project j) members;
      match r with
      | Err e => mret (j, Err e)
      | Ok _ =>
          if bool_decide (members = []) then mret (j, Ok ()) else
          let record := with_members members (lj_record j) in
          r ← write_record (lj_project j) record;
          mret (with_record record j, r)
      end
  end.
(** [root] is the canonical path of the store. *)
Definition set_store_root (j : LifecycleJournal) (root : string) : io (LifecycleJournal * result string ()) :=
  let record := with_store_root root (lj_record j) in
  r ← write_record (lj_project j) record;
  mret (with_record record j, r).
Definition mark_committed (j : LifecycleJournal) : io (LifecycleJournal * result string ()) :=
  let record := with_state Committed (lj_record j) in
  r ← write_record (lj_project j) record;
  mret (with_record record j, r).
Definition finish (j : LifecycleJournal) : io (LifecycleJournal * result string ()) :=
  r ← (members ←? member_paths (lj_project j) (r_members (lj_record j));
       _ ←? act_each (λ member, commit_owned_activation member (r_owner (lj_record j))) members;
       _ ←? commit_owned_activation (lj_project j) (r_owner (lj_record j));
       remove_journal (lj_project j));
  mret (match r with
        | Ok _ => mk_journal (lj_project j) (lj_record j) true (lj_settlement_attempted j)
        | Err _ => j
        end, r).
Definition is_committed (r : Record_) : bool := bool_decide (r_state r = Committed).
(** Did the transaction commit? *)
Definition settle (j : LifecycleJournal) : io (LifecycleJournal * result string bool) :=
  if lj_finished j then mret (j, Ok (is_committed (lj_record j))) else
  let j := mk_journal (lj_project j) (lj_record j) (lj_finished j) true in
  r ← (decision ←? recover (lj_project j) (Some (r_owner (lj_record j)));
       match decision with
       | None => fail "lifecycle journal disappeared before recovery"
       | Some decision =>
           _ ←? recover_owned_activation (lj_project j) (rd_owner decision) (Some decision);
           _ ←? recover_owned_stages (lj_project j) (rd_owner decision);
           _ ←? remove_journal (lj_project j);
           succeed (rd_committed decision)
       end);
  mret (match r with Ok _ => mk_journal (lj_project j) (lj_record j) true true | Err _ => j end, r).
(** [drop], when a panic unwinds past the explicit settlement. *)
Definition drop_journal (j : LifecycleJournal) : io () :=
  if negb (lj_finished j) && negb (lj_settlement_attempted j) then ignore (settle j) else mret ().

(** ** The lock of a project *)
Inductive LockError := ProjectBusy | Transaction | Recovery.
Record ActivationLock := mk_lock { al_owner : string; al_recovered : bool }.
Definition kinded {A} (kind : LockError) (m : act A) : io (result (LockError * string) A) :=
  r ← m; mret (map_err (pair kind) r).
Definition lock_path_of (project : place) : place := project ++ [".tapid-activation.lock"].
Definition open_lock_file (path : place) : act () :=
  _ ←? explain "cannot open node_modules activation lock" (open_or_create path);
  n ←? explain "cannot inspect node_modules activation lock" (symlink_metadata path);
  if is_regular n then succeed () else fail "refusing to use a non-regular node_modules activation lock".
Definition read_lock_owner (path : place) : io (result (LockError * string) string) :=
  r ← symlink_metadata path;
  match r with
  | Err _ => mret (Err (Recovery, "cannot read node_modules activation lock"))
  | Ok n =>
      r ← read_bounded_owner n;
      mret (match r with
            | Ok owner =>
                if negb (utf8_valid owner) || (negb (is_empty owner) && negb (activation_owner_is_valid owner))
                then Err (Recovery, "refusing to recover a malformed node_modules activation lock") else Ok owner
            | Err InvalidData => Err (Recovery, "refusing to recover an oversized node_modules activation lock")
            | Err _ => Err (Recovery, "cannot read node_modules activation lock")
            end)
  end.
Definition interrupted_name (name : string) : bool :=
  existsb (λ prefix, starts_with prefix name)
    [".tapid-lifecycle-journal"; ".tapid-install-stage-"; ".tapid-node-modules-old-"; ".tapid-managed-old-"].
Definition hex (n : N) : string := NilZero.string_of_uint (N.to_hex_uint n).
Definition write_owner (path : place) : io (result (LockError * string) string) :=
  nonce ← unique_nonce clock;
  let owner := decimal pid +:+ "-" +:+ hex nonce +:+ newline in
  kinded Transaction
    (_ ←? explain "cannot initialize node_modules activation lock" (truncate path);
     _ ←? explain "cannot initialize node_modules activation lock" touch;
     _ ←? explain "cannot initialize node_modules activation lock" (write_all path owner);
     _ ←? explain "cannot initialize node_modules activation lock" touch;
     succeed owner).
Definition recover_lock (project : place) (previous_owner : string) : act bool :=
  decision ←? recover project (if is_empty previous_owner then None else Some previous_owner);
  let recovery_owner := match decision with Some d => rd_owner d | None => previous_owner end in
  _ ←? (if is_empty recovery_owner then succeed () else
        _ ←? recover_owned_activation project recovery_owner decision;
        recover_owned_stages project recovery_owner);
  _ ←? match decision with Some _ => finish_recovery project | None => succeed () end;
  succeed (bool_decide (is_Some decision)).
(** [busy]: another process holds the lock on the file. *)
Definition acquire_mode (project : place) (recovering busy : bool) : io (result (LockError * string) ActivationLock) :=
  let path := lock_path_of project in
  _ ←? kinded Transaction (open_lock_file path);
  _ ←? kinded Transaction (explain "cannot acquire node_modules activation lock" touch);
  _ ←? (if busy then mret (Err (ProjectBusy, "another node_modules activation is already in progress")) else mret (Ok ()));
  previous_owner ←? read_lock_owner path;
  if negb recovering then
    names ←? kinded Recovery (explain "cannot inspect project" (read_dir project));
    if existsb interrupted_name names
    then mret (Err (Recovery, "import refuses interrupted install state; finish recovery with tapid install before importing"))
    else mret (Ok (mk_lock previous_owner false))
  else
    recovered ←? kinded Recovery (recover_lock project previous_owner);
    owner ←? write_owner path;
    mret (Ok (mk_lock owner recovered)).
Definition acquire (project : place) (busy : bool) : io (result (LockError * string) ActivationLock) :=
  acquire_mode project true busy.
Definition acquire_without_recovery (project : place) (busy : bool) : io (result (LockError * string) ActivationLock) :=
  acquire_mode project false busy.

(** ** The lockfile (atomic.rs) *)
Definition write_synced_file (path : place) (bytes : string) : act () :=
  _ ←? explain "cannot create" (create_new path);
  result ← (_ ←? explain "cannot write" (write_all path bytes); explain "cannot sync" touch);
  match result with
  | Ok _ => succeed ()
  | Err error => _ ← ignore (remove_file path); fail error
  end.
Definition publish_lockfile_with_temp (path : place) (contents : string) (temp : place) : act () :=
  _ ←? write_synced_file temp contents;
  r ← rename temp path;
  match r with
  | Ok _ => succeed ()
  | Err _ => _ ← ignore (remove_file temp); fail "cannot rename"
  end.
Definition lock_temp (path : place) (nonce : N) (extension : string) : place :=
  parent path ++ [".tapid-lock-" +:+ decimal pid +:+ "-" +:+ decimal nonce +:+ extension].
Definition publish_lockfile (path : place) (contents : string) : act () :=
  nonce ← unique_nonce clock;
  publish_lockfile_with_temp path contents (lock_temp path nonce ".tmp").
Definition replace_lockfile (path : place) (contents : string) : act (option place) :=
  nonce ← unique_nonce clock;
  let temp := lock_temp path nonce ".tmp" in
  let backup := lock_temp path nonce ".bak" in
  _ ←? explain "cannot create" (create_new temp);
  _ ←? explain "cannot write" (write_all temp contents);
  _ ←? explain "cannot sync" touch;
  had_old ← path_exists path;
  _ ←? (if had_old : bool then explain "cannot rename" (rename path backup) else succeed ());
  r ← rename temp path;
  match r with
  | Ok _ => succeed (if had_old then Some backup else None)
  | Err _ =>
      _ ← (if had_old then ignore (rename backup path) else mret ());
      _ ← ignore (remove_file temp);
      fail "cannot rename"
  end.
Definition rollback_lockfile (path : place) (backup : option place) : act () :=
  match backup with
  | Some backup => _ ← ignore (remove_file path); explain "cannot restore" (rename backup path)
  | None => explain "cannot remove" (remove_file path)
  end.
Definition discard_lockfile_backup (backup : option place) : act () :=
  match backup with Some backup => explain "cannot remove" (remove_file backup) | None => succeed () end.
End journal.
