(* ===== verification/JournalInv.v ===== *)
(** * Recovering an interrupted installation

    While a journal is there, whoever acquires the lock goes on from where the interrupted
    process stopped: it restores what the journal recorded, or completes what it decided,
    and removes the journal last.  Recovery can itself be interrupted anywhere. *)
From S2P Require Import Prelude Order RustStr Crates Json CrashFs Activation CrashLogic Slots ActivationInv Settling Journal.

(** ** The codec *)
Lemma read_write_member m : read_member (write_struct (member_entries m)) = Some m.
Proof. unfold read_member. by read_struct; destruct m. Qed.
Lemma read_write_state s : read_state (write_state s) = Some s.
Proof. by destruct s. Qed.
Lemma read_write_members members : read_vec read_member (JArray ((λ m, write_struct (member_entries m)) <$> members)) = Some members.
Proof. apply (mapM_write _ _ (λ _, True)); [intros m _; apply read_write_member|by apply Forall_true]. Qed.
#[local] Arguments read_u32 _ : simpl never.
#[local] Arguments read_vec {_} _ _ : simpl never.
Lemma read_write_record r : (0 <= r_version r <= u32_max)%Z → read_record (write_struct (record_entries r)) = Some r.
Proof.
  intros Hv. unfold read_record. read_struct. cbn [fmap list_fmap snd field field_unless record_entries].
  destruct r as [version path owner state me manifest le lock marker modules store members]. cbn [r_version] in Hv.
  pose proof (read_field_default (read_vec read_member) [] members (JArray ((λ m, write_struct (member_entries m)) <$> members))) as Hm.
  specialize (Hm (λ _, read_write_members members)). assert (read_u32 (JNumber version) = Some version) as Hu.
  { unfold read_u32. by rewrite (proj2 (andb_true_iff _ _)) by (split; lia). }
  destruct store, state; simpl; rewrite Hu; simpl; by rewrite Hm.
Qed.

Section journal.
Context `{B64 : Base64} `{JC : JsonCodec} `{JP : JsonCompact}.
Context (project : place) (owner stage_name : string).
Context (Hstage : ∀ s, s ≠ Staged → slot_name owner stage_name s ≠ stage_name).
Context (faulty : bool).
Notation wp := (wp faulty).
Notation views := (views project owner stage_name).
Notation slot_place := (slot_place project owner stage_name).
Notation outside := (outside project owner stage_name).
Implicit Types (w : world) (v : slot → option node).
Context (pid : N) (clock : N → N).

Local Ltac stat s v := apply (wp_stat project owner stage_name faulty s v).
Local Ltac removed s v := apply (wp_remove_file project owner stage_name Hstage faulty s v).

Lemma stays_read_marker_backup p : stays faulty (read_marker_backup p).
Proof.
  apply stays_bind; [apply stays_inspect|]. intros [n|e]; [|apply stays_ret]. apply stays_bind; [apply stays_inspect|].
  intros [[]|e]; [|apply stays_ret]. case_match; [apply stays_ret|]. apply stays_bind; [apply stays_inspect|]. intros r. apply stays_ret.
Qed.

(** ** Replacing a file *)
Definition replaced_in v s bytes w : Prop := ∃ v', views w v' ∧ (v' = v ∨ v' = upd v s (Some (File bytes))).
Lemma replaced_same v s bytes w : views w v → replaced_in v s bytes w.
Proof. intros Hv. exists v. split; [done|by left]. Qed.
Lemma replaced_new v s bytes w : views w (upd v s (Some (File bytes))) → replaced_in v s bytes w.
Proof. intros Hv. eexists. split; [done|by right]. Qed.
(** After [r]: replaced when it succeeded. *)
Definition replacing v s bytes (r : result string ()) w : Prop :=
  match r with Ok _ => views w (upd v s (Some (File bytes))) | Err _ => replaced_in v s bytes w end.
Lemma atomic_replace_rule s v bytes w :
  s ≠ Staged → is_directory (v s) = false →
  (∀ nonce, outside (project ++ ["." +:+ slot_name owner stage_name s +:+ ".lifecycle-" +:+ decimal pid +:+ "-" +:+ decimal nonce +:+ ".tmp"])) →
  views w v → wp (atomic_replace pid clock (slot_place s) bytes) (replacing v s bytes) (replaced_in v s bytes) w.
Proof.
  intros Hs Hdir Hout Hv. unfold atomic_replace. apply wp_bind, wp_nonce. intros nonce last. cbv zeta.
  assert (slot_place s = project ++ [slot_name owner stage_name s]) as Ep by (by destruct s).
  assert (parent (slot_place s) = project) as Hpar by (rewrite Ep; apply parent_snoc). rewrite Hpar.
  assert (list.last (slot_place s) = Some (slot_name owner stage_name s)) as -> by (rewrite Ep; apply last_snoc).
  cbn [default]. specialize (Hout nonce). set (temp := project ++ [_]) in *.
  apply (views_nonce project owner stage_name w v last) in Hv. generalize dependent (mk_world (disk w) last). clear w last. intros w Hv.
  apply wp_bind. apply (wp_wand _ _ (replacing v s bytes) _ (replaced_in v s bytes)); [| |done].
  - apply wp_try, wp_explain, (wp_create_outside project owner stage_name faulty temp v); [done|done|intros _; split; by apply replaced_same|intros e; by apply replaced_same|].
    intros w1 Hv1 Hl1. apply wp_try, wp_explain, (wp_write_outside project owner stage_name faulty temp v ""); [done|done|done|intros w' _ Hv'; split; by apply replaced_same|].
    intros w2 Hv2 Hl2. apply wp_try, wp_explain, wp_touch; [intros _; split; by apply replaced_same|].
    apply wp_try, wp_explain, (wp_rename_in project owner stage_name Hstage faulty temp s v (File bytes)); [done|done|done|done| | |].
    + intros _. split; by apply replaced_same.
    + intros w3 _ Hv3. cbn [map_err]. unfold sync_parent. rewrite Hpar.
      apply wp_explain, (wp_sync_project project owner stage_name faulty _ _ _ _ Hv3); [|done]. intros _. split; by apply replaced_new.
    + intros Hno. by apply replaced_same.
  - intros [[]|e] w1 Hw1; [by apply wp_ret|]. destruct Hw1 as (v'&Hv'&E). apply wp_bind, wp_ignore.
    apply (wp_remove_file_outside project owner stage_name faulty temp v'); [done|done| |].
    + intros w2 _ Hv2. by exists v'.
    + intros r w2 Hv2. apply wp_ret. by exists v'.
Qed.

(** ** Leftover stages *)
Definition but_staged v w : Prop := ∃ v', views w v' ∧ ∀ s, s ≠ Staged → v' s = v s.
Lemma but_staged_put v w name o :
  starts_with ".tapid-install-stage-" name = true → (∀ s, s ≠ Staged → slot_name owner stage_name s ≠ name) →
  but_staged v w → but_staged v (put (project ++ [name]) o w).
Proof.
  intros Hname Hslots (v'&Hv'&Hsame). destruct (decide (name = stage_name)) as [->|Hne].
  - destruct (views_stage project owner stage_name Hstage w v' o Hv') as [o' Ho']. eexists. split; [exact Ho'|].
    intros s Hs. rewrite upd_ne by done. by apply Hsame.
  - exists v'. split; [|done]. apply views_outside; [done|]. apply outside_name. intros s. destruct (decide (s = Staged)) as [->|Hs]; [by intros E; apply Hne; rewrite <-E|by apply Hslots].
Qed.
Lemma stage_prefix_apart s name : s ≠ Staged → starts_with ".tapid-install-stage-" name = true → slot_name owner stage_name s ≠ name.
Proof. intros Hs Hn <-. by destruct s. Qed.
Lemma remove_stage_rule v name text w :
  starts_with ".tapid-install-stage-" name = true → but_staged v w →
  wp (explain text (remove_dir_all (project ++ [name]))) (λ _ w, but_staged v w) (but_staged v) w.
Proof.
  intros Hname Hw. assert (∀ o, but_staged v (put (project ++ [name]) o w)) as Hput.
  { intros o. apply but_staged_put; [done|intros s Hs; by apply stage_prefix_apart|done]. }
  apply wp_explain, wp_effect.
  - intros _ left. assert (but_staged v (with_disk (leave_entries (project ++ [name]) left (disk w)) w)) as H; [|done].
    unfold leave_entries. destruct (lookup_at _ _) as [[]|]; rewrite ?with_disk_same; try done. apply Hput.
  - destruct (lookup_at _ _) as [[]|]; cbn [fst snd]; rewrite ?with_disk_same; try done; apply Hput.
Qed.
Lemma recover_owned_stage_rule v line name w :
  but_staged v w → wp (recover_owned_stage project line owner name) (λ _ w, but_staged v w) (but_staged v) w.
Proof.
  intros Hw. unfold recover_owned_stage. destruct (starts_with _ name) eqn:Hname; cbn [negb]; [|by apply wp_ret].
  apply wp_stays_try; [by apply stays_explain, stays_inspect|done|done|]. intros n. destruct (is_dir n); cbn [negb]; [|by apply wp_ret].
  apply wp_stays; [apply stays_inspect|done|]. intros [[content|x|x|]|[| |]]; try by apply wp_ret.
  - case_match; [by apply wp_ret|]. apply wp_stays_try; [apply stays_explain, stays_read_marker_backup|done|done|].
    intros text. case_match; [by apply remove_stage_rule|by apply wp_ret].
  - case_match; [by apply remove_stage_rule|by apply wp_ret].
Qed.
Lemma act_each_rule {A} (f : A → act ()) (I : world → Prop) l w :
  (∀ a w, I w → wp (f a) (λ _ w, I w) I w) → I w → wp (act_each f l) (λ _ w, I w) I w.
Proof.
  intros Hf. revert w. induction l as [|a l IH]; intros w Hw; [by apply wp_ret|]. apply wp_try.
  eapply wp_wand; [by apply Hf| |done]. intros [[]|e] w' Hw'; [by apply IH|done].
Qed.
Lemma recover_owned_stages_rule v w :
  views w v → wp (recover_owned_stages project (owner +:+ Activation.newline)) (λ _ w, but_staged v w) (but_staged v) w.
Proof.
  intros Hv. assert (but_staged v w) as Hw by (by exists v). unfold recover_owned_stages. rewrite strip_suffix_newline.
  apply wp_stays_try; [by apply stays_explain, stays_inspect|done|done|]. intros names.
  apply act_each_rule; [|done]. intros name w'. apply recover_owned_stage_rule.
Qed.

(** ** What the journal recorded *)
Context (canonicalize : node → place → option place) (recover_store : string → act ()).
Context (Hcanon : ∀ d, is_directory (lookup_at project d) = true → canonicalize d project = Some project).
Context (Hstore : ∀ root v w, views w v → wp (recover_store root) (λ _ w, views w v) (λ w, views w v) w).
Context (old_marker old_tree : option node).
Context (Hmarker : ∀ n, old_marker = Some n → is_regular n = true).
Context (Htree : ∀ n, old_tree = Some n → ∃ entries, n = Directory entries ∧ entries ≠ ∅).
Context (manifest : string) (lock : option string).
Context (bytes : string) (record : Record_).
(** The journal's text reads as [record], which describes the project as it was. *)
Record records : Prop := mk_records {
  rs_size : (str_len bytes <=? MAX_JOURNAL_BYTES)%Z = true;
  rs_parse : parse_record bytes = Ok record;
  rs_owned : owned_record record (Some (owner +:+ Activation.newline)) = true;
  rs_members : r_members record = [];
  rs_path : r_manifest_path record = "package.json";
  rs_snapshots : (MAX_ENCODED_SNAPSHOT_BYTES <? str_len (r_manifest record))%Z || (MAX_ENCODED_SNAPSHOT_BYTES <? str_len (r_lock record))%Z = false;
  rs_manifest : b64_decode (r_manifest record) = Some manifest;
  rs_lock_existed : r_lock_existed record = bool_decide (is_Some lock);
  rs_lock : ∀ text, lock = Some text → b64_decode (r_lock record) = Some text;
  rs_marker : r_marker_existed record = bool_decide (is_Some old_marker);
  rs_tree : r_node_modules_existed record = bool_decide (is_Some old_tree);
}.
Context (Hrecords : records).
Lemma record_owner : r_owner record = owner +:+ Activation.newline.
Proof.
  pose proof (rs_owned Hrecords) as H. unfold owned_record in H. rewrite !andb_true_iff in H. destruct H as [_ H]. by apply str_eqb_true in H.
Qed.
Definition journaled v : Prop :=
  v Journal = Some (File bytes) ∧ v JournalBackup = None ∧ is_directory (v Manifest) = false ∧ is_directory (v Lockfile) = false.
Definition undecided v : Prop := marker_kept old_marker v ∧ tree_kept old_tree v ∧ journaled v.
Definition pending w : Prop := ∃ v, views w v ∧ undecided v.
Definition files_back v : Prop := v Manifest = Some (File manifest) ∧ v Lockfile = File <$> lock.
Lemma undecided_file v s o : s = Manifest ∨ s = Lockfile → is_directory o = false → undecided v → undecided (upd v s o).
Proof.
  intros Hs Ho (Hm&Ht&H1&H2&H3&H4). unfold undecided, marker_kept, tree_kept, journaled.
  destruct Hs as [-> | ->]; rewrite ?upd_eq, !upd_ne by done; by split_and!.
Qed.
Lemma temp_file_outside s nonce :
  s = Manifest ∨ s = Lockfile → starts_with ".tapid-install-stage-" stage_name = true →
  outside (project ++ ["." +:+ slot_name owner stage_name s +:+ ".lifecycle-" +:+ decimal pid +:+ "-" +:+ decimal nonce +:+ ".tmp"]).
Proof.
  intros Hs Hst. apply outside_name. intros t. destruct Hs as [-> | ->]; destruct t; try done; intros E; cbn in E; by rewrite E in Hst.
Qed.
Context (Hprefix : starts_with ".tapid-install-stage-" stage_name = true).
Lemma replaced_pending v s text w : s = Manifest ∨ s = Lockfile → undecided v → replaced_in v s text w → pending w.
Proof. intros Hs Hv (v'&Hv'&[-> | ->]); eexists; (split; [exact Hv'|]); [done|by apply undecided_file]. Qed.
(** The error leaves things as they are; success gives [P]. *)
Definition pending_then {A} (P : A → (slot → option node) → Prop) (r : result string A) w : Prop :=
  pending w ∧ ∀ a, r = Ok a → ∃ v, views w v ∧ undecided v ∧ P a v.
Lemma pending_err {A} (P : A → (slot → option node) → Prop) e w : pending w → pending_then P (Err e) w.
Proof. by split. Qed.
Lemma pending_ok {A} (P : A → (slot → option node) → Prop) a v w : views w v → undecided v → P a v → pending_then P (Ok a) w.
Proof. intros Hv Hu HP. split; [by exists v|]. intros a' [= <-]. by exists v. Qed.
Lemma pending_settle {A B} (P : A → (slot → option node) → Prop) (P' : B → (slot → option node) → Prop) (m : act A) (f : A → act B) w :
  wp m (pending_then P) pending w →
  (∀ a v w, views w v → undecided v → P a v → wp (f a) (pending_then P') pending w) →
  wp (try_bind m f) (pending_then P') pending w.
Proof.
  intros Hm Hf. apply wp_try. eapply wp_wand; [exact Hm| |done]. intros [a|e] w' [Hp Hok]; [|by split].
  destruct (Hok a eq_refl) as (v&Hv&Hu&HP). by apply (Hf a v).
Qed.
Lemma replace_pending s text v w :
  s = Manifest ∨ s = Lockfile → views w v → undecided v →
  wp (atomic_replace pid clock (slot_place s) text) (pending_then (λ _ v', v' = upd v s (Some (File text)))) pending w.
Proof.
  intros Hs Hv Hu. eapply wp_wand; [apply (atomic_replace_rule s v); [by destruct Hs as [-> | ->]| | |done]| |].
  - destruct Hs as [-> | ->]; apply Hu.
  - intros nonce. by apply temp_file_outside.
  - intros [[]|e] w' Hw'; [|by apply pending_err, (replaced_pending v s text)].
    apply (pending_ok _ _ _ _ Hw'); [by apply undecided_file|done].
  - intros _ w' Hw'. by apply (replaced_pending v s text).
Qed.
Lemma remove_lockfile_pending v w :
  views w v → undecided v →
  wp (r ← remove_file (slot_place Lockfile);
      match r with
      | Ok _ => sync_parent (slot_place Lockfile)
      | Err NotFound => succeed ()
      | Err _ => fail "cannot restore prior lockfile state"
      end) (pending_then (λ _ v', v' Lockfile = None ∧ v' Manifest = v Manifest)) pending w.
Proof.
  intros Hv Hu. assert (pending w) as Hp by (by exists v). apply wp_bind. removed Lockfile v; [done| | | |].
  - intros _. split; [done|]. by apply wp_ret, pending_err.
  - intros Hn e He. rewrite He by done. apply wp_ret. by apply (pending_ok _ _ v).
  - intros n Hn Hd. destruct Hu as (_&_&_&_&_&Hu). rewrite Hn in Hu. by destruct n.
  - intros n w' Hn _ Hv'. assert (undecided (upd v Lockfile None)) as Hu' by (apply undecided_file; [by right|done|done]).
    assert (pending w') as Hp' by (by eexists). unfold sync_parent. cbn [slot_place slot_name]. rewrite parent_snoc.
    apply wp_explain, (wp_sync_project project owner stage_name faulty _ _ _ _ Hv').
    + intros _. split; [done|]. by apply pending_err.
    + apply (pending_ok _ _ _ _ Hv'); [done|]. by rewrite upd_eq, upd_ne.
Qed.
Lemma stays_canonical_path p : stays faulty (canonical_path canonicalize p).
Proof. apply stays_bind; [apply stays_inspect|]. intros r. apply stays_ret. Qed.
Lemma manifest_components : normal_names (path_components "package.json") = Some ["package.json"].
Proof. reflexivity. Qed.
Lemma canonical_project w v (Q : option place → world → Prop) :
  views w v → Q (Some project) w → Q None w → wp (canonical_path canonicalize project) Q (λ w', w' = w) w.
Proof.
  intros [Hd _] Hs Hn. apply wp_bind, wp_inspect; [intros _; split; [done|by apply wp_ret]|]. rewrite Hcanon by done. by apply wp_ret.
Qed.
Lemma recovery_path_pending v w :
  views w v → undecided v →
  wp (recovery_manifest_path canonicalize project (r_manifest_path record)) (pending_then (λ p v', p = slot_place Manifest ∧ v' = v)) pending w.
Proof.
  intros Hv Hu. assert (pending w) as Hp by (by exists v). rewrite (rs_path Hrecords). unfold recovery_manifest_path. rewrite manifest_components.
  assert (∀ text, wp (fail text) (pending_then (λ p v', p = slot_place Manifest ∧ v' = v)) pending w) as Hfail by (intros text; by apply wp_ret, pending_err).
  assert (∀ text (f : place → act place), wp (f project) (pending_then (λ p v', p = slot_place Manifest ∧ v' = v)) pending w →
    wp (try_bind (c ← canonical_path canonicalize project; mret (ok_or text c)) f) (pending_then (λ p v', p = slot_place Manifest ∧ v' = v)) pending w) as Hroot.
  { intros text f Hf. apply wp_try, wp_bind. eapply wp_wand; [apply (canonical_project w v (λ c w', w' = w ∧ (c = Some project ∨ c = None)) Hv); auto| |by intros _ ? ->].
    intros c ? [-> [-> | ->]]; apply wp_ret; [done|by apply pending_err]. }
  apply Hroot. cbv zeta. rewrite parent_snoc. apply Hroot.
  assert (strip_place project project = Some []) as ->.
  { clear. induction project as [|n p IH]; [done|]. cbn. by rewrite str_eqb_refl. }
  apply wp_bind. change (project ++ ["package.json"]) with (slot_place Manifest). stat Manifest v; [done| | |].
  - intros _. by split.
  - intros n Hn. case_match; [|done]. apply wp_ret. by apply (pending_ok _ _ v).
  - intros Hn e He. rewrite He by done. apply wp_ret. by apply (pending_ok _ _ v).
Qed.
Lemma recover_record_pending v w :
  views w v → undecided v →
  wp (recover_record pid clock canonicalize project record) (pending_then (λ _ v', files_back v')) pending w.
Proof.
  intros Hv Hu. unfold recover_record, decode_bytes. rewrite (rs_manifest Hrecords). apply wp_try, wp_ret. cbn [ok_or].
  eapply pending_settle; [by apply recovery_path_pending|]. cbn beta. intros p ? w1 Hv1 _ [-> ->].
  eapply pending_settle; [apply (replace_pending Manifest); [by left|done|done]|]. cbn beta. intros [] ? w2 Hv2 Hu2 ->.
  rewrite (rs_lock_existed Hrecords). cbv zeta. destruct lock as [text|] eqn:El; cbn [bool_decide].
  - rewrite bool_decide_eq_true_2 by (by eexists). rewrite (rs_lock Hrecords text El). apply wp_try, wp_ret. cbn [ok_or].
    eapply wp_wand; [apply (replace_pending Lockfile); [by right|done|done]| |done].
    intros r w3 [Hp Hok]. split; [done|]. intros a E. destruct (Hok a E) as (v3&Hv3&Hu3&->). eexists. split_and!; [done|done|].
    unfold files_back. rewrite upd_eq, upd_ne, upd_eq, El by done. done.
  - rewrite bool_decide_eq_false_2 by (by intros []). eapply wp_wand; [by apply (remove_lockfile_pending _ _ Hv2)| |done].
    intros r w3 [Hp Hok]. split; [done|]. intros a E. destruct (Hok a E) as (v3&Hv3&Hu3&H1&H2). exists v3. split_and!; [done|done|].
    unfold files_back. by rewrite H1, H2, upd_eq, El.
Qed.

(** ** Reading the journal *)
Lemma journal_metadata_rule v w :
  views w v → v Journal = Some (File bytes) →
  wp (journal_metadata project) (λ r w', w' = w ∧ (r = Ok (Some (File bytes)) ∨ is_ok r = false)) (λ w', w' = w) w.
Proof.
  intros Hv Hj. unfold journal_metadata. apply wp_bind. stat Journal v; [done| | |congruence].
  - intros _. split; [done|]. apply wp_ret. split; [done|by right].
  - intros n Hn. assert (n = File bytes) as -> by congruence. apply wp_ret. split; [done|by left].
Qed.
Lemma read_journal_rule text v w :
  views w v → v Journal = Some (File bytes) →
  wp (explain text (read (journal_of project))) (λ r w', w' = w ∧ (r = Ok bytes ∨ is_ok r = false)) (λ w', w' = w) w.
Proof.
  intros Hv Hj. apply wp_explain, wp_inspect; [intros _; split; [done|split; [done|by right]]|].
  change (journal_of project) with (slot_place Journal). rewrite (look_slot _ _ _ _ _ _ Hv), Hj. cbn. split; [done|by left].
Qed.
(** What remains is to act on the record. *)
Lemma recover_reads (Q : result string (option RecoveryDecision) → world → Prop) C v w :
  views w v → v Journal = Some (File bytes) → C w → (∀ e, Q (Err e) w) →
  wp (decision ←? recover_parsed pid clock canonicalize recover_store project record (Some (owner +:+ Activation.newline)); succeed (Some decision)) Q C w →
  wp (recover pid clock canonicalize recover_store project (Some (owner +:+ Activation.newline))) Q C w.
Proof.
  intros Hv Hj HC HE Hrun. unfold recover. apply wp_try. eapply wp_wand; [by apply (journal_metadata_rule v)| |by intros _ ? ->].
  intros r ? [-> [-> | Hr]]; [|by destruct r]. pose proof (rs_size Hrecords) as Hsize.
  assert ((MAX_JOURNAL_BYTES <? str_len bytes)%Z = false) as -> by lia. apply wp_try.
  eapply wp_wand; [by apply (read_journal_rule _ v)| |by intros _ ? ->]. intros r ? [-> [-> | Hr]]; [|by destruct r].
  apply wp_try, wp_ret. by rewrite (rs_parse Hrecords).
Qed.
Definition decision : RecoveryDecision :=
  mk_decision (owner +:+ Activation.newline) (bool_decide (r_state record = Committed)) (bool_decide (is_Some old_marker)) (bool_decide (is_Some old_tree)).
(** The checks of the record pass. *)
Lemma recover_parsed_acts (Q : result string RecoveryDecision → world → Prop) C w :
  wp (_ ←? recovery_manifest_path canonicalize project (r_manifest_path record);
      _ ←? match r_store_root record with Some root => recover_store root | None => succeed () end;
      _ ←? (if bool_decide (r_state record = Prepared) then recover_record pid clock canonicalize project record else succeed ());
      succeed decision) Q C w →
  wp (recover_parsed pid clock canonicalize recover_store project record (Some (owner +:+ Activation.newline))) Q C w.
Proof.
  intros H. unfold recover_parsed. rewrite (rs_owned Hrecords), (rs_members Hrecords), bool_decide_eq_true_2, andb_false_r by done. cbn [negb].
  apply wp_try, wp_ret. rewrite (rs_snapshots Hrecords). cbn [zip act_each zip_with].
  unfold decision in H. rewrite <-(rs_marker Hrecords), <-(rs_tree Hrecords), <-record_owner in H. exact H.
Qed.
Lemma store_pending v w :
  views w v → undecided v →
  wp (match r_store_root record with Some root => recover_store root | None => succeed () end) (pending_then (λ _ v', True)) pending w.
Proof.
  intros Hv Hu. destruct (r_store_root record) as [root|]; [|apply wp_ret; by apply (pending_ok _ _ v)].
  eapply wp_wand; [by apply (Hstore root v)| |].
  - intros r w' Hv'. split; [by exists v|]. intros a _. by exists v.
  - intros _ w' Hv'. by exists v.
Qed.
Lemma recover_prepared v w :
  r_state record = Prepared → views w v → undecided v →
  wp (recover pid clock canonicalize recover_store project (Some (owner +:+ Activation.newline)))
    (pending_then (λ d v', d = Some decision ∧ files_back v')) pending w.
Proof.
  intros Hstate Hv Hu. assert (pending w) as Hp by (by exists v).
  apply (recover_reads _ _ v); [done|apply Hu|done|intros e; by apply pending_err|].
  apply (pending_settle (λ d v', d = decision ∧ files_back v')).
  - apply recover_parsed_acts. eapply pending_settle; [by apply recovery_path_pending|]. intros _ ? w1 Hv1 Hu1 _.
    eapply pending_settle; [by apply (store_pending _ w1 Hv1)|]. cbn beta. intros _ v2 w2 Hv2 Hu2 _. rewrite bool_decide_eq_true_2 by done.
    eapply pending_settle; [by apply (recover_record_pending v2)|]. cbn beta. intros _ v3 w3 Hv3 Hu3 Hf.
    apply wp_ret. by apply (pending_ok _ _ v3).
  - intros d v' w' Hv' Hu' [-> Hf]. apply wp_ret. by apply (pending_ok _ _ v').
Qed.

(** ** Nothing left to recover *)
(** The journal is gone and no backups are left. *)
Definition at_rest v : Prop :=
  v MarkerBackup = None ∧ (∀ n, v Marker = Some n → is_regular n = true) ∧ v TreeBackup = None ∧
  v Journal = None ∧ v JournalBackup = None.
Lemma uncoordinated_at_rest v w :
  views w v → at_rest v → wp (recover_uncoordinated_activation project (owner +:+ Activation.newline)) (λ _ w', w' = w) (λ w', w' = w) w.
Proof.
  intros Hv (Hmb&Hm&Htb&_). unfold recover_uncoordinated_activation. rewrite strip_suffix_newline. apply wp_try.
  apply (wp_wand _ _ (λ _ w', w' = w) _ (λ w', w' = w)); [| |done].
  - unfold recover_uncoordinated_marker. apply wp_bind. change (marker_backup_of project owner) with (slot_place MarkerBackup).
    stat MarkerBackup v; [done|intros _; split; [done|by apply wp_try, wp_ret]|congruence|].
    intros _ e He. rewrite He by done. apply wp_try, wp_ret, wp_bind. change (marker_of project) with (slot_place Marker).
    stat Marker v; [done|intros _; split; [done|by apply wp_try, wp_ret]| |].
    + intros n Hn. rewrite (Hm n Hn). apply wp_try, wp_ret. by apply wp_ret.
    + intros _ e' He'. rewrite He' by done. apply wp_try, wp_ret. by apply wp_ret.
  - intros [[]|e] ? ->; [|done]. unfold recover_uncoordinated_tree. apply wp_bind. change (node_backup_of project owner) with (slot_place TreeBackup).
    stat TreeBackup v; [done|intros _; split; [done|by apply wp_try, wp_ret]|congruence|].
    intros _ e He. rewrite He by done. apply wp_try, wp_ret. by apply wp_ret.
Qed.
Lemma no_journal_rule stale v w :
  views w v → at_rest v →
  wp (recover pid clock canonicalize recover_store project stale) (λ r w', w' = w ∧ (r = Ok None ∨ is_ok r = false)) (λ w', w' = w) w.
Proof.
  intros Hv (_&_&_&Hj&Hjb). unfold recover, journal_metadata. apply wp_try, wp_bind. change (journal_of project) with (slot_place Journal).
  stat Journal v; [done|intros _; split; [done|apply wp_ret; split; [done|by right]]|congruence|].
  intros _ e He. rewrite He by done. apply wp_bind. change (journal_backup_of project) with (slot_place JournalBackup).
  stat JournalBackup v; [done|intros _; split; [done|apply wp_ret; split; [done|by right]]|congruence|].
  intros _ e' He'. rewrite He' by done. apply wp_ret, wp_ret. split; [done|by left].
Qed.
Lemma owner_not_empty : is_empty (owner +:+ Activation.newline) = false.
Proof. by destruct owner. Qed.
Lemma recover_lock_at_rest v w :
  views w v → at_rest v →
  wp (recover_lock pid clock canonicalize recover_store project (owner +:+ Activation.newline)) (λ _ w', but_staged v w') (but_staged v) w.
Proof.
  intros Hv Hrest. assert (but_staged v w) as Hw by (by exists v). unfold recover_lock. rewrite owner_not_empty. apply wp_try.
  eapply wp_wand; [by apply (no_journal_rule _ v)| |by intros _ ? ->]. intros r ? [-> [-> | Hr]]; [|by destruct r].
  rewrite owner_not_empty. apply wp_try, wp_try. eapply wp_wand; [by apply (uncoordinated_at_rest v)| |by intros _ ? ->].
  intros [[]|e] ? ->; [|done]. eapply wp_wand; [by apply (recover_owned_stages_rule v)| |done].
  intros [[]|e] w' Hw'; [|done]. by apply wp_try, wp_ret, wp_ret.
Qed.
(** The journal goes last. *)
Lemma remove_journal_rule v w :
  views w v → v Journal = Some (File bytes) → v JournalBackup = None →
  wp (remove_journal project) (λ r w', if is_ok r then views w' (upd v Journal None) else views w' v ∨ views w' (upd v Journal None))
    (λ w', views w' v ∨ views w' (upd v Journal None)) w.
Proof.
  intros Hv Hj Hjb. unfold remove_journal, clear_journal_backup. apply wp_try, wp_bind.
  change (journal_backup_of project) with (slot_place JournalBackup).
  stat JournalBackup v; [done|intros _; split; [by left|]; apply wp_ret; by left|congruence|].
  intros _ e He. rewrite He by done. apply wp_ret, wp_bind. change (journal_of project) with (slot_place Journal).
  removed Journal v; [done|intros _; split; [by left|]; apply wp_ret; by left|congruence| |].
  - intros n Hn Hd. rewrite Hj in Hn. by injection Hn as <-.
  - intros n w' _ _ Hv'. unfold sync_parent. change (slot_place Journal) with (project ++ [JOURNAL]). rewrite parent_snoc.
    apply wp_explain, (wp_sync_project project owner stage_name faulty _ _ _ _ Hv'); [|done]. intros _. split; by right.
Qed.

(** ** Restoring *)
Definition finished v : Prop :=
  v Marker = old_marker ∧ v MarkerBackup = None ∧ v Tree = old_tree ∧ v TreeBackup = None ∧ files_back v ∧
  v Journal = None ∧ v JournalBackup = None.
Definition in_recovery w : Prop := pending w ∨ ∃ v, views w v ∧ finished v.
Definition recovery_end (r : result string bool) w : Prop :=
  in_recovery w ∧ (is_ok r = true → ∃ v, views w v ∧ finished v).
Lemma finished_at_rest v : finished v → at_rest v.
Proof. intros (H1&H2&H3&H4&_&H5&H6). split_and!; try done. intros n Hn. apply Hmarker. congruence. Qed.
Lemma finished_but_staged v w : finished v → but_staged v w → ∃ v', views w v' ∧ finished v'.
Proof. intros Hf (v'&Hv'&Hsame). exists v'. split; [done|]. unfold finished, files_back. by rewrite !Hsame by done. Qed.
Definition back v : Prop := v Marker = old_marker ∧ v MarkerBackup = None ∧ v Tree = old_tree ∧ v TreeBackup = None ∧ files_back v.
Lemma undecided_same v v' : undecided v → marker_kept old_marker v' → tree_kept old_tree v' → rest_same v' v → undecided v'.
Proof. intros (_&_&H1&H2&H3&H4) Hm Ht Hs. split_and!; [done|done|]. unfold journaled. by rewrite !Hs by done. Qed.
Lemma rollback_pending v w :
  r_state record = Prepared → views w v → undecided v → files_back v →
  wp (recover_owned_activation project (owner +:+ Activation.newline) (Some decision)) (pending_then (λ _ v', back v')) pending w.
Proof.
  intros Hstate Hv Hu Hf. unfold recover_owned_activation. cbn [decision rd_committed]. rewrite bool_decide_eq_false_2 by congruence.
  assert (∀ w', recoverable project owner stage_name old_marker old_tree v w' → pending w') as Hpend.
  { intros w' (v'&Hv'&Hm&Ht&Hs). exists v'. split; [done|]. by apply (undecided_same v). }
  eapply wp_wand; [apply (rollback_rolled_back project owner stage_name Hstage faulty old_marker old_tree Hmarker Htree v decision eq_refl eq_refl)| |intros _; apply Hpend].
  - exists v. split; [done|]. split_and!; [apply Hu|apply Hu|done].
  - intros r w' (Hr&Hok&_). split; [by apply Hpend|]. intros a ->. destruct (Hok eq_refl) as (v'&Hv'&[Hm Hmb]&Ht&Htb&Hs).
    exists v'. split; [done|]. split.
    + apply (undecided_same v); [done| | |done]; left; (split; [done|by left]).
    + destruct Hf as [Hf1 Hf2]. unfold back, files_back. by rewrite (Hs Manifest), (Hs Lockfile).
Qed.
Lemma back_but_staged v w : undecided v → back v → but_staged v w → ∃ v', views w v' ∧ undecided v' ∧ back v'.
Proof.
  intros (Hm&Ht&H1&H2&H3&H4) (B1&B2&B3&B4&B5&B6) (v'&Hv'&Hsame). exists v'. split; [done|].
  unfold undecided, marker_kept, tree_kept, journaled, back, files_back. by rewrite !Hsame by done.
Qed.
Lemma finish_prepared v w :
  views w v → undecided v → back v →
  wp (_ ←? remove_journal project; succeed true) recovery_end in_recovery w.
Proof.
  intros Hv Hu Hb. assert (∀ w', views w' v → pending w') as Hp by (intros w' Hw'; by exists v).
  assert (∀ w', views w' (upd v Journal None) → ∃ v', views w' v' ∧ finished v') as Hf.
  { intros w' Hw'. eexists. split; [exact Hw'|]. unfold finished, files_back. rewrite upd_eq, !upd_ne by done.
    destruct Hb as (B1&B2&B3&B4&B5&B6). destruct Hu as (_&_&_&Hu&_). by split_and!. }
  destruct Hu as (_&_&Hj&Hjb&_). apply wp_try. eapply wp_wand; [by apply (remove_journal_rule v)| |].
  - intros [[]|e] w' Hw'; cbn [is_ok] in Hw'.
    + apply wp_ret. apply Hf in Hw'. split; [by right|done].
    + split; [|done]. destruct Hw' as [Hw'|Hw']; [left; by apply Hp|right; by apply Hf].
  - intros _ w' [Hw'|Hw']; [left; by apply Hp|right; by apply Hf].
Qed.
Lemma recover_lock_prepared w :
  r_state record = Prepared → in_recovery w →
  wp (recover_lock pid clock canonicalize recover_store project (owner +:+ Activation.newline)) recovery_end in_recovery w.
Proof.
  intros Hstate [(v&Hv&Hu)|(v&Hv&Hf)]; last first.
  { eapply wp_wand; [apply (recover_lock_at_rest v); [done|by apply finished_at_rest]| |].
    - intros r w' Hw'. destruct (finished_but_staged v w' Hf Hw') as (v'&Hv'&Hf'). split; [right|intros _]; by exists v'.
    - intros _ w' Hw'. right. by apply (finished_but_staged v). }
  assert (∀ e w, pending w → recovery_end (Err e) w) as Herr by (intros e w' Hw'; split; [by left|done]).
  unfold recover_lock. rewrite owner_not_empty. apply wp_try.
  eapply wp_wand; [by apply (recover_prepared v)| |by left]. intros [d|e] w1 [Hp1 Hok1]; [|by apply Herr].
  destruct (Hok1 d eq_refl) as (v1&Hv1&Hu1&->&Hf1). cbn [decision rd_owner]. rewrite owner_not_empty.
  apply wp_try, wp_try. eapply wp_wand; [by apply (rollback_pending v1)| |by left]. intros [[]|e] w2 [Hp2 Hok2]; [|by apply Herr].
  destruct (Hok2 tt eq_refl) as (v2&Hv2&Hu2&Hb2).
  assert (∀ w', but_staged v2 w' → pending w') as Hstages.
  { intros w' Hw'. destruct (back_but_staged v2 w' Hu2 Hb2 Hw') as (v'&Hv'&Hu'&_). by exists v'. }
  eapply wp_wand; [by apply (recover_owned_stages_rule v2)| |intros _ w' Hw'; left; by apply Hstages].
  intros [[]|e] w3 Hw3; [|by apply Herr, Hstages].
  destruct (back_but_staged v2 w3 Hu2 Hb2 Hw3) as (v3&Hv3&Hu3&Hb3). rewrite bool_decide_eq_true_2 by (by eexists). by apply (finish_prepared v3).
Qed.

(** ** Completing *)
Context (new_tree : gmap string node) (new_manifest new_lock : option node).
Definition resolved v : Prop :=
  v Marker = Some (File MANAGED_MARKER) ∧ v Tree = Some (Directory new_tree) ∧
  (v MarkerBackup = None ∨ a_file (v MarkerBackup)) ∧ (v TreeBackup = None ∨ a_directory (v TreeBackup)) ∧
  v Journal = Some (File bytes) ∧ v JournalBackup = None ∧ v Manifest = new_manifest ∧ v Lockfile = new_lock.
Definition completed_install v : Prop :=
  v Marker = Some (File MANAGED_MARKER) ∧ v Tree = Some (Directory new_tree) ∧ v MarkerBackup = None ∧ v TreeBackup = None ∧
  v Journal = None ∧ v JournalBackup = None ∧ v Manifest = new_manifest ∧ v Lockfile = new_lock.
Definition resolving w : Prop := ∃ v, views w v ∧ resolved v.
Definition in_completion w : Prop := resolving w ∨ ∃ v, views w v ∧ completed_install v.
Definition completion_end (r : result string bool) w : Prop :=
  in_completion w ∧ (is_ok r = true → ∃ v, views w v ∧ completed_install v).
Lemma resolving_end e w : resolving w → completion_end (Err e) w.
Proof. intros Hw. split; [by left|done]. Qed.
Lemma completed_but_staged v w : completed_install v → but_staged v w → ∃ v', views w v' ∧ completed_install v'.
Proof. intros Hf (v'&Hv'&Hsame). exists v'. split; [done|]. unfold completed_install. by rewrite !Hsame by done. Qed.
Lemma resolved_but_staged v w : resolved v → but_staged v w → ∃ v', views w v' ∧ resolved v' ∧ v' MarkerBackup = v MarkerBackup ∧ v' TreeBackup = v TreeBackup.
Proof. intros Hf (v'&Hv'&Hsame). exists v'. split; [done|]. unfold resolved. by rewrite !Hsame by done. Qed.
Lemma commit_resolving v w :
  valid_owner (owner +:+ Activation.newline) = true → r_state record = Committed → views w v → resolved v →
  wp (recover_owned_activation project (owner +:+ Activation.newline) (Some decision))
    (λ r w', resolving w' ∧ (is_ok r = true → ∃ v', views w' v' ∧ resolved v' ∧ v' MarkerBackup = None ∧ v' TreeBackup = None)) resolving w.
Proof.
  intros Hvalid Hstate Hv (R1&R2&R3&R4&R5&R6&R7&R8). unfold recover_owned_activation. cbn [decision rd_committed]. rewrite bool_decide_eq_true_2 by done.
  assert (∀ v', decided v new_tree v' → resolved v') as Hres.
  { intros v' (D1&D2&D3&D4&D5). unfold resolved. rewrite (D5 Journal), (D5 JournalBackup), (D5 Manifest), (D5 Lockfile) by done. by split_and!. }
  eapply wp_wand; [apply (commit_committed project owner stage_name Hstage faulty v new_tree); [done|exists v; by split_and!]| |].
  - intros r w' ((v'&Hv'&Hd')&Hok&_). split; [exists v'; by auto|]. intros E. destruct (Hok E) as (v2&Hv2&Hd2&H1&H2). exists v2. by auto.
  - intros _ w' (v'&Hv'&Hd'). exists v'. by auto.
Qed.
Lemma remove_resolved v w :
  views w v → resolved v → v MarkerBackup = None → v TreeBackup = None →
  wp (remove_journal project) (λ r w, in_completion w ∧ (is_ok r = true → ∃ v, views w v ∧ completed_install v)) in_completion w.
Proof.
  intros Hv Hr Hmb Htb. assert (∀ w', views w' v → resolving w') as Hp by (intros w' Hw'; by exists v).
  destruct Hr as (R1&R2&_&_&R5&R6&R7&R8).
  assert (∀ w', views w' (upd v Journal None) → ∃ v', views w' v' ∧ completed_install v') as Hf.
  { intros w' Hw'. eexists. split; [exact Hw'|]. unfold completed_install. rewrite upd_eq, !upd_ne by done. by split_and!. }
  eapply wp_wand; [by apply (remove_journal_rule v)| |].
  - intros [[]|e] w' Hw'; cbn [is_ok] in Hw'; [apply Hf in Hw'; split; [by right|done]|].
    split; [|done]. destruct Hw' as [Hw'|Hw']; [left; by apply Hp|right; by apply Hf].
  - intros _ w' [Hw'|Hw']; [left; by apply Hp|right; by apply Hf].
Qed.
Lemma finish_resolved v w :
  views w v → resolved v → v MarkerBackup = None → v TreeBackup = None →
  wp (_ ←? remove_journal project; succeed true) completion_end in_completion w.
Proof.
  intros Hv Hr Hmb Htb. apply wp_try. eapply wp_wand; [by apply (remove_resolved v)| |done].
  intros [[]|e] w' [Hin Hok]; [apply wp_ret; split; [done|intros _; by apply Hok]|by split].
Qed.
Lemma stays_recovery_path relative : stays faulty (recovery_manifest_path canonicalize project relative).
Proof.
  assert (∀ p (text : string), stays faulty (c ← canonical_path canonicalize p; mret (ok_or text c))) as Hroot.
  { intros p text. apply stays_bind; [apply stays_canonical_path|]. intros c. apply stays_ret. }
  unfold recovery_manifest_path. destruct (normal_names _) as [[|n names]|]; [apply stays_ret| |apply stays_ret].
  apply stays_try; [apply Hroot|]. intros root. apply stays_try; [apply Hroot|]. intros q. destruct (strip_place root q); [|apply stays_ret].
  apply stays_bind; [apply stays_inspect|]. intros [m|[| |]]; [case_match|..]; apply stays_ret.
Qed.
Lemma recover_committed v w :
  r_state record = Committed → views w v → resolved v →
  wp (recover pid clock canonicalize recover_store project (Some (owner +:+ Activation.newline)))
    (λ r w', views w' v ∧ (r = Ok (Some decision) ∨ is_ok r = false)) (λ w', views w' v) w.
Proof.
  intros Hstate Hv Hr. apply (recover_reads _ _ v); [done|apply Hr|done|intros e; split; [done|by right]|].
  apply wp_try, recover_parsed_acts, wp_stays_try; [apply stays_recovery_path|done|intros e; split; [done|by right]|]. intros p.
  apply wp_try, (wp_wand _ _ (λ _ w', views w' v) _ (λ w', views w' v)); [| |done].
  - destruct (r_store_root record) as [root|]; [by apply Hstore|by apply wp_ret].
  - intros [[]|e] w' Hv'; [|split; [done|by right]]. rewrite bool_decide_eq_false_2 by congruence.
    apply wp_try, wp_ret, wp_ret, wp_ret. split; [done|by left].
Qed.
Lemma completed_at_rest v : completed_install v → at_rest v.
Proof. intros (H1&H2&H3&H4&H5&H6&_). split_and!; try done. intros n Hn. rewrite H1 in Hn. by injection Hn as <-. Qed.
Lemma recover_lock_committed w :
  valid_owner (owner +:+ Activation.newline) = true → r_state record = Committed → in_completion w →
  wp (recover_lock pid clock canonicalize recover_store project (owner +:+ Activation.newline)) completion_end in_completion w.
Proof.
  intros Hvalid Hstate [(v&Hv&Hr)|(v&Hv&Hf)]; last first.
  { eapply wp_wand; [apply (recover_lock_at_rest v); [done|by apply completed_at_rest]| |].
    - intros r w' Hw'. destruct (completed_but_staged v w' Hf Hw') as (v'&Hv'&Hf'). split; [right|intros _]; by exists v'.
    - intros _ w' Hw'. right. by apply (completed_but_staged v). }
  unfold recover_lock. rewrite owner_not_empty. apply wp_try.
  eapply wp_wand; [by apply (recover_committed v)| |intros _ w' Hw'; left; by exists v]. intros r w1 [Hv1 [-> | Hr1]].
  - cbn [decision rd_owner]. rewrite owner_not_empty. apply wp_try, wp_try.
    eapply wp_wand; [by apply (commit_resolving v)| |by left]. intros [[]|e] w2 [Hp2 Hok2]; [|by apply resolving_end].
    destruct (Hok2 eq_refl) as (v2&Hv2&Hr2&Hmb&Htb).
    assert (∀ w', but_staged v2 w' → resolving w') as Hstages.
    { intros w' Hw'. destruct (resolved_but_staged v2 w' Hr2 Hw') as (v'&Hv'&Hr'&_). by exists v'. }
    eapply wp_wand; [by apply (recover_owned_stages_rule v2)| |intros _ w' Hw'; left; by apply Hstages].
    intros [[]|e] w3 Hw3; [|by apply resolving_end, Hstages].
    destruct (resolved_but_staged v2 w3 Hr2 Hw3) as (v3&Hv3&Hr3&Hmb3&Htb3). rewrite bool_decide_eq_true_2 by (by eexists).
    apply (finish_resolved v3); [done|done|congruence|congruence].
  - destruct r; [done|]. apply resolving_end. by exists v.
Qed.
End journal.
