(* ===== verification/JournalThm.v ===== *)
(** * Interrupted installations recover

    An activation under a journal, ended anywhere, followed by recoveries ended anywhere,
    ends up as the journal recorded; and once the journal says that the installation is
    committed, as installed. *)
From S2P Require Import Prelude Order RustStr Crates Samples Json CrashFs Activation CrashLogic Slots ActivationInv Settling ActivationThm Journal JournalInv.

Section theorems.
Context `{B64 : Base64} `{JC : JsonCodec} `{JP : JsonCompact}.
Context (project : place) (owner suffix : string).
Notation at_slot s w := (lookup_at (slot_place project owner (stage_of suffix) s) (disk w)).
Definition recorded_project (old_marker old_tree : option node) (manifest : string) (lock : option string) (w : world) : Prop :=
  at_slot Marker w = old_marker ∧ at_slot Tree w = old_tree ∧ at_slot MarkerBackup w = None ∧ at_slot TreeBackup w = None ∧
  at_slot Manifest w = Some (File manifest) ∧ at_slot Lockfile w = File <$> lock ∧
  at_slot Slots.Journal w = None ∧ at_slot JournalBackup w = None.
Definition installed_files (new_tree : gmap string node) (new_manifest new_lock : option node) (w : world) : Prop :=
  at_slot Marker w = Some (File MANAGED_MARKER) ∧ at_slot Tree w = Some (Directory new_tree) ∧
  at_slot MarkerBackup w = None ∧ at_slot TreeBackup w = None ∧
  at_slot Manifest w = new_manifest ∧ at_slot Lockfile w = new_lock ∧
  at_slot Slots.Journal w = None ∧ at_slot JournalBackup w = None.

Context (pid : N) (clock : N → N) (canonicalize : node → place → option place) (recover_store : string → act ()).
Context (Hcanon : ∀ d, is_directory (lookup_at project d) = true → canonicalize d project = Some project).
(** Never panics, and leaves every file of an installation in the project as it is. *)
Definition spares_project {A} (m : act A) : Prop := ∀ ev w, ∃ w', ended (m ev w) w' ∧
  (is_directory (lookup_at project (disk w)) = true → is_directory (lookup_at project (disk w')) = true) ∧
  ∀ s, at_slot s w' = at_slot s w.
Lemma reads_only_spares {A} (m : act A) : reads_only m → spares_project m.
Proof. intros Hm ev w. destruct (Hm ev w) as (w'&He&Hd). exists w'. by rewrite Hd. Qed.
Context (Hstore : ∀ root, spares_project (recover_store root)).
Lemma store_views root v w :
  views project owner (stage_of suffix) w v →
  wp true (recover_store root) (λ _ w, views project owner (stage_of suffix) w v) (λ w, views project owner (stage_of suffix) w v) w.
Proof.
  intros [Hd Hv] ev _. destruct (Hstore root ev w) as (w'&Hend&Hd'&Hs).
  assert (views project owner (stage_of suffix) w' v) as Hv' by (split; [by apply Hd'|intros s; by rewrite Hs]).
  destruct (recover_store root ev w); cbn in Hend; subst; [by split; [left|]|done|done].
Qed.
Lemma stage_prefix : starts_with ".tapid-install-stage-" (stage_of suffix) = true.
Proof. apply starts_with_app. Qed.
Lemma attempts_end {A} (m : act A) (I : world → Prop) (P : world → Prop) w w' ev :
  (∀ w, I w → wp true m (λ r w, I w ∧ (is_ok r = true → P w)) I w) → I w → attempts m w w' →
  ∃ w2, ended (m ev w') w2 ∧ ∀ b rest, m ev w' = Returned (Ok b) rest w2 → P w2.
Proof.
  intros Hm Hw Ha. assert (I w') as Hw'.
  { eapply (attempts_invariant m I); [|exact Ha|done]. intros u Hu. eapply wp_wand; [by apply Hm|by intros r u' [H _]|done]. }
  specialize (Hm w' Hw' ev (or_introl eq_refl)). destruct (m ev w') as [r rest w2|w2|]; [|by exists w2|done].
  exists w2. split; [done|]. intros b rest' [= -> <-]. destruct Hm as [_ [_ Hm]]. by apply Hm.
Qed.
Notation recovery := (recover_lock pid clock canonicalize recover_store project (owner +:+ newline)).
Definition kept_before (old_marker old_tree : option node) : Prop :=
  (∀ n, old_marker = Some n → is_regular n = true) ∧ (∀ n, old_tree = Some n → ∃ entries, n = Directory entries ∧ entries ≠ ∅).
Lemma recovery_restores old_marker old_tree manifest lock bytes record w w' ev :
  kept_before old_marker old_tree → records owner old_marker old_tree manifest lock bytes record → r_state record = Prepared →
  in_recovery project owner (stage_of suffix) old_marker old_tree manifest lock bytes w → attempts recovery w w' →
  ∃ w2, ended (recovery ev w') w2 ∧
    ∀ b rest, recovery ev w' = Returned (Ok b) rest w2 → recorded_project old_marker old_tree manifest lock w2.
Proof.
  intros [Hm Ht] Hrec Hstate. apply attempts_end. clear w. intros w Hw.
  eapply wp_wand; [apply (recover_lock_prepared project owner (stage_of suffix) (stage_name_apart owner suffix) true pid clock
    canonicalize recover_store Hcanon store_views old_marker old_tree Hm Ht manifest lock bytes record Hrec stage_prefix w Hstate Hw)| |done].
  intros r w3 [Hin Hok]. split; [done|]. intros E. destruct (Hok E) as (v&[_ Hv]&H1&H2&H3&H4&[H5 H6]&H7&H8).
  unfold recorded_project. rewrite !Hv. by split_and!.
Qed.
Lemma finished_restores old_marker old_tree manifest lock w w' ev :
  kept_before old_marker old_tree →
  (∃ v, views project owner (stage_of suffix) w v ∧ finished old_marker old_tree manifest lock v) → attempts recovery w w' →
  ∃ w2, ended (recovery ev w') w2 ∧
    ∀ b rest, recovery ev w' = Returned (Ok b) rest w2 → recorded_project old_marker old_tree manifest lock w2.
Proof.
  intros [Hm Ht]. apply (attempts_end _ (λ w, ∃ v, views project owner (stage_of suffix) w v ∧ finished old_marker old_tree manifest lock v)).
  clear w w'. intros w (v&Hv&Hf). assert (∀ w', but_staged project owner (stage_of suffix) v w' →
    ∃ v', views project owner (stage_of suffix) w' v' ∧ finished old_marker old_tree manifest lock v') as Hstaged.
  { intros w' Hw'. by eapply finished_but_staged. }
  eapply wp_wand; [eapply (recover_lock_at_rest project owner (stage_of suffix) (stage_name_apart owner suffix)); [exact store_views|exact Hv|by eapply finished_at_rest]| |].
  - intros r w' Hw'. apply Hstaged in Hw'. split; [done|]. intros _. destruct Hw' as (v'&[_ Hv']&H1&H2&H3&H4&[H5 H6]&H7&H8).
    unfold recorded_project. rewrite !Hv'. by split_and!.
  - intros _ w' Hw'. by apply Hstaged.
Qed.
Lemma records_valid_owner old_marker old_tree manifest lock bytes record :
  records owner old_marker old_tree manifest lock bytes record → valid_owner (owner +:+ newline) = true.
Proof.
  intros Hrec. pose proof (rs_owned _ _ _ _ _ _ _ Hrec) as H. pose proof (record_owner _ _ _ _ _ _ _ Hrec) as Ho. unfold owned_record in H.
  rewrite !andb_true_iff, Ho in H. apply H.
Qed.
Lemma completion_installs old_marker old_tree manifest lock bytes record new_tree new_manifest new_lock w w' ev :
  records owner old_marker old_tree manifest lock bytes record → r_state record = Committed →
  in_completion project owner (stage_of suffix) bytes new_tree new_manifest new_lock w → attempts recovery w w' →
  ∃ w2, ended (recovery ev w') w2 ∧
    ∀ b rest, recovery ev w' = Returned (Ok b) rest w2 → installed_files new_tree new_manifest new_lock w2.
Proof.
  intros Hrec Hstate. pose proof (records_valid_owner _ _ _ _ _ _ Hrec) as Hvalid. apply attempts_end. clear w. intros w Hw.
  eapply wp_wand; [apply (recover_lock_committed project owner (stage_of suffix) (stage_name_apart owner suffix) true pid clock
    canonicalize recover_store store_views old_marker old_tree manifest lock bytes record Hrec new_tree new_manifest new_lock w Hvalid Hstate Hw)| |done].
  intros r w3 [Hin Hok]. split; [done|]. intros E. destruct (Hok E) as (v&[_ Hv]&H1&H2&H3&H4&H5&H6&H7&H8).
  unfold installed_files. rewrite !Hv. by split_and!.
Qed.

(** ** The commit point *)
Notation journal_bytes r := (json_compact (write_struct (record_entries r))).
Lemma write_record_rule v record w :
  is_directory (v Slots.Journal) = false → views project owner (stage_of suffix) w v →
  wp true (write_record clock project record) (replacing project owner (stage_of suffix) v Slots.Journal (journal_bytes record))
    (replaced_in project owner (stage_of suffix) v Slots.Journal (journal_bytes record)) w.
Proof.
  intros Hdir Hv. unfold write_record. apply wp_bind, wp_nonce. intros nonce last. cbv zeta.
  set (temp := project ++ [_]). assert (outside project owner (stage_of suffix) temp) as Hout by (apply outside_name; by intros []).
  apply (views_nonce project owner (stage_of suffix) w v last) in Hv. generalize dependent (mk_world (disk w) last). clear w last. intros w Hv.
  case_match; [apply wp_ret; by apply replaced_same|]. set (text := journal_bytes record) in *.
  apply wp_try, wp_explain, (wp_create_outside project owner (stage_of suffix) true temp v); [done|done|intros _; split; by apply replaced_same|intros e; by apply replaced_same|].
  intros w1 Hv1 Hl1. apply wp_try, wp_explain, (wp_write_outside project owner (stage_of suffix) true temp v ""); [done|done|done|intros w' _ Hv'; split; by apply replaced_same|].
  intros w2 Hv2 Hl2. apply wp_try, wp_explain, wp_touch; [intros _; split; by apply replaced_same|].
  apply wp_try, wp_explain, wp_stays; [apply stays_bind; [apply stays_inspect|intros r; apply stays_ret]|intros _; by apply replaced_same|]. intros _.
  change (journal_of project) with (slot_place project owner (stage_of suffix) Slots.Journal).
  apply (wp_rename_in project owner (stage_of suffix) (stage_name_apart owner suffix) true temp Slots.Journal v (File text)); [done|done|done|done| | |].
  - intros _. split; by apply replaced_same.
  - intros w3 _ Hv3. cbn [map_err]. unfold sync_parent. cbn [slot_place slot_name]. rewrite parent_snoc.
    apply wp_explain, (wp_sync_project project owner (stage_of suffix) true _ _ _ _ Hv3); [|done]. intros _. split; by apply replaced_new.
  - intros Hno. by apply replaced_same.
Qed.
End theorems.

(** ** Beginning an installation *)
Section begin.
Context `{B64 : Base64} `{JC : JsonCodec} `{JP : JsonCompact} `{JL : !JsonCompactLaws}.
Context (project : place) (owner suffix : string) (clock : N → N) (canonicalize : node → place → option place).
Notation views := (views project owner (stage_of suffix)).
Notation slot_place := (slot_place project owner (stage_of suffix)).
Context (Hcanon : ∀ d, is_directory (lookup_at project d) = true → canonicalize d project = Some project).
Context (Hcanon_file : ∀ d s, lookup_at (slot_place Manifest) d = Some (File s) → canonicalize d (slot_place Manifest) = Some (slot_place Manifest)).
Context (Hdecode : ∀ s, b64_decode (b64_encode s) = Some s).
Context (Hlength : ∀ s, (str_len (b64_encode s) <= (str_len s + 2) / 3 * 4)%Z).
Lemma state_exists_rule s v w :
  views w v → s ≠ Staged →
  wp true (state_exists (slot_place s)) (λ r w', w' = w ∧ (r = Ok (bool_decide (is_Some (v s))) ∨ is_ok r = false)) (λ w', w' = w) w.
Proof.
  intros Hv Hs. apply wp_bind. apply (wp_stat project owner (stage_of suffix) true s v); [done| | |].
  - intros _. split; [done|]. apply wp_ret. split; [done|by right].
  - intros n ->. apply wp_ret. split; [done|]. left. by rewrite bool_decide_eq_true_2 by (by eexists).
  - intros -> e He. rewrite He by done. apply wp_ret. split; [done|]. left. by rewrite bool_decide_eq_false_2 by (by intros [??]).
Qed.
Lemma strip_place_app p q : strip_place p (p ++ q) = Some q.
Proof. induction p as [|n p IH]; [done|]. cbn. by rewrite str_eqb_refl. Qed.
Lemma relative_manifest_rule v w text :
  views w v → v Manifest = Some (File text) →
  wp true (relative_manifest_path canonicalize project (slot_place Manifest)) (λ r w', w' = w ∧ (r = Ok "package.json" ∨ is_ok r = false)) (λ w', w' = w) w.
Proof.
  intros Hv Hm. unfold relative_manifest_path.
  assert (∀ p q, canonicalize (disk w) p = Some q →
    ∀ (text : string) (f : place → act string), wp true (f q) (λ r w', w' = w ∧ (r = Ok "package.json" ∨ is_ok r = false)) (λ w', w' = w) w →
    wp true (try_bind (c ← canonical_path canonicalize p; mret (ok_or text c)) f) (λ r w', w' = w ∧ (r = Ok "package.json" ∨ is_ok r = false)) (λ w', w' = w) w) as Hroot.
  { intros p q Hc e f Hf. apply wp_try, wp_bind, wp_bind, wp_inspect.
    - intros _. split; [done|]. apply wp_ret, wp_ret. split; [done|by right].
    - apply wp_ret, wp_ret. by rewrite Hc. }
  apply (Hroot _ project); [by apply Hcanon, Hv|].
  apply wp_try, wp_explain. apply (wp_stat project owner (stage_of suffix) true Manifest v); [done| | |congruence].
  - intros _. split; [done|]. split; [done|by right].
  - intros n Hn. assert (n = File text) as -> by congruence. cbn [is_regular negb map_err].
    apply (Hroot _ (slot_place Manifest)); [apply (Hcanon_file _ text); by rewrite (proj2 Hv)|].
    cbn [slot_place slot_name]. rewrite strip_place_app. apply wp_ret. split; [done|by left].
Qed.
Lemma encoded_size s : (str_len s <= MAX_SNAPSHOT_BYTES)%Z → (MAX_ENCODED_SNAPSHOT_BYTES <? str_len (b64_encode s))%Z = false.
Proof.
  intros H. apply Z.ltb_ge. etrans; [apply Hlength|]. unfold MAX_ENCODED_SNAPSHOT_BYTES. apply Z.mul_le_mono_nonneg_r; [done|].
  apply Z.div_le_mono; lia.
Qed.
(** The record as it begins, and once the store is named. *)
Definition begun_record (v : slot → option node) (manifest : string) (lock store : option string) : Record_ :=
  mk_record 2 "package.json" (owner +:+ newline) Prepared true (b64_encode manifest) (bool_decide (is_Some lock))
    (default "" (b64_encode <$> lock)) (bool_decide (is_Some (v Marker))) (bool_decide (is_Some (v Tree))) store [].
Lemma record_text_reads r :
  (0 <= r_version r <= u32_max)%Z → r_members r = [] →
  json_parse (json_compact (write_struct (record_entries r))) = Some (write_struct (record_entries r)).
Proof.
  intros Hv Hm. apply json_parse_compact. change json_depth with (S (S 125)). generalize 125%nat as n. intros n.
  apply json_ok_struct. unfold record_entries, field, field_unless.
  rewrite Hm. repeat (apply Forall_cons; split); [..|by apply Forall_nil]; intros v [= <-]; try reflexivity.
  - unfold u32_max in Hv. apply andb_true_iff. unfold u64_max. split; lia.
  - by destruct (r_store_root r).
Qed.
Lemma begun_records v manifest lock store state :
  valid_owner (owner +:+ newline) = true → (str_len manifest <= MAX_SNAPSHOT_BYTES)%Z →
  (∀ text, lock = Some text → (str_len text <= MAX_SNAPSHOT_BYTES)%Z) →
  let record := with_state state (begun_record v manifest lock store) in
  (MAX_JOURNAL_BYTES <? str_len (json_compact (write_struct (record_entries record))))%Z = false →
  records owner (v Marker) (v Tree) manifest lock (json_compact (write_struct (record_entries record))) record.
Proof.
  intros Hvalid Hm Hl record Hsize. split; try done.
  - lia.
  - unfold parse_record. rewrite record_text_reads by done. cbn [mbind option_bind]. by rewrite read_write_record.
  - unfold owned_record, record, begun_record, with_state. cbn [r_owner r_version r_manifest_path]. by rewrite Hvalid, !str_eqb_refl.
  - apply orb_false_iff. unfold record, begun_record, with_state. cbn [r_manifest r_lock]. split; [by apply encoded_size|].
    destruct lock as [text|]; cbn; [apply encoded_size; by apply Hl|done].
  - apply Hdecode.
  - intros text ->. cbn. apply Hdecode.
Qed.

(** *** From the journal to the activation *)
Context (v0 : slot → option node) (manifest : string) (lock : option string).
Notation record_for store := (begun_record v0 manifest lock store).
Definition journal_text (store : option string) : string := json_compact (write_struct (record_entries (record_for store))).
(** What [begin] checks, and the size of the text. *)
Definition recordable : Prop :=
  valid_owner (owner +:+ newline) = true ∧ (str_len manifest <= MAX_SNAPSHOT_BYTES)%Z ∧
  ∀ text, lock = Some text → (str_len text <= MAX_SNAPSHOT_BYTES)%Z.
Definition fits (store : option string) : Prop :=
  recordable ∧ (MAX_JOURNAL_BYTES <? str_len (journal_text store))%Z = false.
(** The journal describes the project as it was; the manifest, the lockfile and the stage
    are anything, the rest is as it was. *)
Record preparation v : Prop := mk_preparation {
  pr_journal : ∃ store, fits store ∧ v Slots.Journal = Some (File (journal_text store));
  pr_manifest : is_directory (v Manifest) = false;
  pr_lockfile : is_directory (v Lockfile) = false;
  pr_same s : s ∈ [Marker; MarkerBackup; Tree; TreeBackup; JournalBackup] → v s = v0 s;
}.
Definition prepared w : Prop := ∃ v, views w v ∧ preparation v.
Lemma preparation_upd v store : fits store → preparation v → preparation (upd v Slots.Journal (Some (File (journal_text store)))).
Proof.
  intros Hf [_ H2 H3 H4]. split; [exists store; by rewrite upd_eq|by rewrite upd_ne..|].
  intros s Hs. rewrite upd_ne; [by apply H4|]. intros ->. clear -Hs. set_solver.
Qed.
Lemma write_prepared store w :
  prepared w → wp true (write_record clock project (record_for store)) (λ _ w, prepared w) prepared w.
Proof.
  intros (v&Hv&Hp). destruct (MAX_JOURNAL_BYTES <? str_len (journal_text store))%Z eqn:Hsize.
  - unfold write_record. apply wp_bind, wp_nonce. intros nonce last. cbv zeta. unfold journal_text in Hsize. rewrite Hsize.
    apply wp_ret. by exists v.
  - assert (∀ w', replaced_in project owner (stage_of suffix) v Slots.Journal (journal_text store) w' → prepared w') as Hrep.
    { intros w' (v'&Hv'&[-> | ->]); eexists; (split; [exact Hv'|]); [done|apply preparation_upd; [|done]].
      split; [|done]. by destruct (pr_journal _ Hp) as (?&[? _]&_). }
    eapply wp_wand; [apply (write_record_rule project owner suffix clock v); [|done]| |intros _; apply Hrep].
    + destruct Hp as [(store'&_&->) _ _ _]. done.
    + intros [[]|e] w' Hw'; apply Hrep; [by apply replaced_new|done].
Qed.
(** The journal in the hands of the process: its project and, up to the store, its record. *)
Definition our_journal (j : LifecycleJournal) : Prop := lj_project j = project ∧ ∃ store, lj_record j = record_for store.
Lemma set_store_root_rule j root w :
  our_journal j → prepared w →
  wp true (set_store_root clock j root) (λ r w, our_journal r.1 ∧ prepared w) prepared w.
Proof.
  intros [Hj [store Hr]] Hw. unfold set_store_root. cbv zeta. rewrite Hj, Hr. apply wp_bind.
  change (with_store_root root (record_for store)) with (record_for (Some root)).
  eapply wp_wand; [by apply write_prepared| |done]. intros r w' Hw'. apply wp_ret. split; [|done]. split; [done|by eexists].
Qed.
(** A project without members has none to record. *)
Lemma set_no_members j ev w : our_journal j → set_member_roots clock canonicalize j [] ev w = Returned (j, Ok ()) ev w.
Proof. intros [_ [store Hr]]. unfold set_member_roots. by rewrite Hr. Qed.
Lemma begin_rule w :
  views w v0 → v0 Slots.Journal = None → v0 Manifest = Some (File manifest) → is_directory (v0 Lockfile) = false →
  wp true (begin clock canonicalize project (slot_place Manifest) (owner +:+ newline) manifest lock)
    (λ r w, (views w v0 ∨ prepared w) ∧ ∀ j, r = Ok j → our_journal j ∧ prepared w) (λ w, views w v0 ∨ prepared w) w.
Proof.
  intros Hv Hj Hman Hlock. set (Q (r : result string LifecycleJournal) w := (views w v0 ∨ prepared w) ∧ ∀ j, r = Ok j → our_journal j ∧ prepared w).
  assert (∀ e w, views w v0 ∨ prepared w → Q (Err e) w) as Herr by (intros e u Hu; by split).
  unfold begin. destruct (valid_owner (owner +:+ newline)) eqn:Hvalid; cbn [negb]; [|apply wp_ret, Herr; by left].
  destruct (_ || _) eqn:Hsizes; [apply wp_ret, Herr; by left|]. apply orb_false_iff in Hsizes as [Hm Hl]. apply Z.ltb_ge in Hm.
  assert (recordable) as Hrec by (split_and!; [done|done|]; intros t ->; by apply Z.ltb_ge).
  apply wp_bind. apply (wp_stat project owner (stage_of suffix) true Slots.Journal v0); [done|intros _; split; [by left|apply wp_try, wp_ret, Herr; by left]|congruence|].
  intros _ e He. rewrite He by done. apply wp_try, wp_ret, wp_try.
  eapply wp_wand; [by apply (state_exists_rule Marker v0)| |intros _ ? ->; by left]. intros r ? [-> [-> | Hr]]; [|destruct r; [done|apply Herr; by left]]. apply wp_try.
  eapply wp_wand; [by apply (state_exists_rule Tree v0)| |intros _ ? ->; by left]. intros r ? [-> [-> | Hr]]; [|destruct r; [done|apply Herr; by left]]. apply wp_try.
  eapply wp_wand; [by apply (relative_manifest_rule v0 w manifest)| |intros _ ? ->; by left]. intros r ? [-> [-> | Hr]]; [|destruct r; [done|apply Herr; by left]].
  change (mk_record 2 _ _ _ _ _ _ _ _ _ _ _) with (record_for None). cbv zeta. apply wp_try.
  destruct (MAX_JOURNAL_BYTES <? str_len (journal_text None))%Z eqn:Hsize.
  - unfold write_record. apply wp_bind, wp_nonce. intros nonce last. cbv zeta. unfold journal_text in Hsize. rewrite Hsize.
    apply wp_ret, Herr. by left.
  - assert (preparation (upd v0 Slots.Journal (Some (File (journal_text None))))) as Hp.
    { split; [exists None; by rewrite upd_eq|rewrite upd_ne by done; by rewrite Hman|by rewrite upd_ne|].
      intros s Hs. rewrite upd_ne; [done|]. intros ->. clear -Hs. set_solver. }
    assert (∀ u, replaced_in project owner (stage_of suffix) v0 Slots.Journal (journal_text None) u → views u v0 ∨ prepared u) as Hrep.
    { intros u (v'&Hv'&[-> | ->]); [by left|right; by eexists]. }
    eapply wp_wand; [apply (write_record_rule project owner suffix clock v0); [by rewrite Hj|done]| |intros _; apply Hrep].
    intros [[]|err] w1 Hw1; [|apply Herr; by apply Hrep]. assert (prepared w1) as Hp1 by (by eexists).
    apply wp_ret. split; [by right|]. intros j [= <-]. split; [|done]. split; [done|by exists None].
Qed.
Lemma preparation_records v :
  preparation v → ∃ store, v Slots.Journal = Some (File (journal_text store)) ∧
    records owner (v0 Marker) (v0 Tree) manifest lock (journal_text store) (record_for store).
Proof. intros [(store&[(Hv&Hm&Hl) Hfits]&Hj) _ _ _]. exists store. split; [done|]. by apply (begun_records v0 manifest lock store Prepared). Qed.
End begin.
(** ** An installation *)
(** Nothing is left of an earlier installation. *)
Record unused (project : place) (owner suffix : string) (w : world) : Prop := mk_unused {
  un_project : is_directory (lookup_at project (disk w)) = true;
  un_marker : ∀ n, lookup_at (marker_of project) (disk w) = Some n → is_regular n = true;
  un_tree : ∀ n, lookup_at (destination_of project) (disk w) = Some n → ∃ entries, n = Directory entries ∧ entries ≠ ∅;
  un_backups : lookup_at (marker_backup_of project owner) (disk w) = None ∧ lookup_at (node_backup_of project owner) (disk w) = None;
  un_journals : lookup_at (journal_of project) (disk w) = None ∧ lookup_at (journal_backup_of project) (disk w) = None;
}.
(** Between the journal and the activation an installation replaces the manifest and the lockfile
    and fills its stage: [w'] is [w] with anything else in their places. *)
Record prepares (project : place) (owner suffix : string) (w w' : world) : Prop := mk_prepares {
  ps_project : is_directory (lookup_at project (disk w')) = true;
  ps_manifest : is_directory (lookup_at (slot_place project owner (stage_of suffix) Manifest) (disk w')) = false;
  ps_lockfile : is_directory (lookup_at (slot_place project owner (stage_of suffix) Lockfile) (disk w')) = false;
  ps_others s : s ≠ Manifest → s ≠ Lockfile → s ≠ Staged →
    lookup_at (slot_place project owner (stage_of suffix) s) (disk w') = lookup_at (slot_place project owner (stage_of suffix) s) (disk w);
}.
Section installation.
Context `{B64 : Base64} `{JC : JsonCodec} `{JP : JsonCompact}.
Context (project : place) (owner suffix : string) (pid : N) (clock : N → N) (canonicalize : node → place → option place).
Context (preflight : act ()) (inject : bool) (manifest : string) (lock : option string) (w : world).
Notation beginning := (begin clock canonicalize project (project ++ ["package.json"]) (owner +:+ newline) manifest lock).
Notation activating := (activate_node_modules_with_preflight pid clock project (stage_place project (stage_of suffix)) owner true inject preflight).
(** The installation from its journal to its activation, call by call: no members are recorded,
    the store is named in the journal, whether that write succeeds or not, and the files of the
    project are prepared, in any order. *)
Inductive preparing : LifecycleJournal → world → Prop :=
| begun_installation ev j rest w1 : beginning ev w = Returned (Ok j) rest w1 → preparing j w1
| no_members_recorded ev j w1 j' r rest w2 :
    preparing j w1 → set_member_roots clock canonicalize j [] ev w1 = Returned (j', r) rest w2 → preparing j' w2
| store_recorded ev j w1 root j' r rest w2 :
    preparing j w1 → set_store_root clock j root ev w1 = Returned (j', r) rest w2 → preparing j' w2
| files_prepared j w1 w2 : preparing j w1 → prepares project owner suffix w1 w2 → preparing j w2.
Definition staged (w1 : world) : Prop := ∃ tree, lookup_at (slot_place project owner (stage_of suffix) Staged) (disk w1) = Some (Directory tree).
(** Where it can stop before it is committed: at any call of a write of the journal or of the
    activation, or anywhere between. *)
Inductive stopped : world → Prop :=
| stopped_beginning ev w1 : ended (beginning ev w) w1 → stopped w1
| stopped_preparing j w1 : preparing j w1 → stopped w1
| stopped_recording ev j w1 root w2 : preparing j w1 → ended (set_store_root clock j root ev w1) w2 → stopped w2
| stopped_activating ev j w1 w2 : preparing j w1 → staged w1 → ended (activating ev w1) w2 → stopped w2.

Context `{JL : !JsonCompactLaws}.
Context (Hcanon : ∀ d, is_directory (lookup_at project d) = true → canonicalize d project = Some project).
Context (Hcanon_file : ∀ d s, lookup_at (project ++ ["package.json"]) d = Some (File s) →
  canonicalize d (project ++ ["package.json"]) = Some (project ++ ["package.json"])).
Context (Hdecode : ∀ s, b64_decode (b64_encode s) = Some s).
Context (Hlength : ∀ s, (str_len (b64_encode s) <= (str_len s + 2) / 3 * 4)%Z).
Context (Hpre : reads_only preflight) (Hunused : unused project owner suffix w).
Context (Hman : lookup_at (project ++ ["package.json"]) (disk w) = Some (File manifest)).
Context (Hlock : lookup_at (lockfile_of project) (disk w) = File <$> lock).
Local Definition v0 (s : slot) : option node := lookup_at (slot_place project owner (stage_of suffix) s) (disk w).
Notation views := (views project owner (stage_of suffix)).
Notation prepared := (prepared project owner suffix v0 manifest lock).
Notation our_journal := (our_journal project owner v0 manifest lock).
Notation text store := (journal_text owner v0 manifest lock store).
Notation in_recovery store := (in_recovery project owner (stage_of suffix) (v0 Marker) (v0 Tree) manifest lock (text store)).
Lemma views_before : views w v0.
Proof. split; [apply Hunused|done]. Qed.
Lemma lockfile_before : is_directory (v0 Lockfile) = false.
Proof. unfold v0. change (slot_place project owner (stage_of suffix) Lockfile) with (lockfile_of project). rewrite Hlock. by destruct lock. Qed.
Lemma beginning_rule :
  wp true beginning (λ r w, (views w v0 ∨ prepared w) ∧ ∀ j, r = Ok j → our_journal j ∧ prepared w) (λ w, views w v0 ∨ prepared w) w.
Proof.
  exact (begin_rule project owner suffix clock canonicalize Hcanon Hcanon_file v0 manifest lock w views_before
    (proj1 (un_journals _ _ _ _ Hunused)) Hman lockfile_before).
Qed.
Lemma prepares_prepared w1 w2 : prepared w1 → prepares project owner suffix w1 w2 → prepared w2.
Proof.
  intros (v&[_ Hv]&[(store&Hfits&H1) H2 H3 H4]) [R1 R2 R3 R4].
  exists (λ s, lookup_at (slot_place project owner (stage_of suffix) s) (disk w2)). split; [by split|].
  split; [exists store; split; [done|]; rewrite R4, Hv by done; exact H1|done|done|].
  intros s Hs. rewrite R4, Hv; [by apply H4|..]; intros ->; set_solver.
Qed.
Lemma preparing_prepared j w1 : preparing j w1 → our_journal j ∧ prepared w1.
Proof.
  induction 1 as [ev j rest w1 Hb|ev j w1 j' r rest w2 _ [Hj Hp] Hs|ev j w1 root j' r rest w2 _ [Hj Hp] Hs|j w1 w2 _ [Hj Hp] Hs].
  - pose proof (beginning_rule ev (or_introl eq_refl)) as Hrun. rewrite Hb in Hrun. by apply Hrun.
  - rewrite (set_no_members project owner clock canonicalize v0 manifest lock j ev w1 Hj) in Hs. by injection Hs as <- _ _ <-.
  - pose proof (set_store_root_rule project owner suffix clock v0 manifest lock j root w1 Hj Hp ev (or_introl eq_refl)) as Hrun.
    rewrite Hs in Hrun. apply Hrun.
  - split; [done|]. by eapply prepares_prepared.
Qed.
Lemma kept_unused : kept_before (v0 Marker) (v0 Tree).
Proof. split; [exact (un_marker _ _ _ _ Hunused)|exact (un_tree _ _ _ _ Hunused)]. Qed.
Lemma finished_unused : finished (v0 Marker) (v0 Tree) manifest lock v0.
Proof. destruct Hunused as [_ _ _ [Hmb Htb] [Hj Hjb]]. by split_and!. Qed.
Lemma prepared_ready v w1 tree :
  views w1 v → preparation owner v0 manifest lock v → v Staged = Some (Directory tree) → ready project owner suffix tree w1.
Proof.
  intros [Hd Hv] [_ _ _ Hsame] Hst. destruct Hunused as [_ Hm Ht [Hmb Htb] _].
  split; rewrite ?Hv; try done; rewrite ?Hsame by set_solver; done.
Qed.
(** What recoveries start from: the journal with all that it describes, or nothing to do. *)
Definition recovers (w1 : world) : Prop :=
  (∃ store, records owner (v0 Marker) (v0 Tree) manifest lock (text store) (begun_record owner v0 manifest lock store) ∧ in_recovery store w1) ∨
  ∃ v, views w1 v ∧ finished (v0 Marker) (v0 Tree) manifest lock v.
Lemma kept_recovers v v1 w1 :
  preparation owner v0 manifest lock v → views w1 v1 → marker_kept (v0 Marker) v1 → tree_kept (v0 Tree) v1 → rest_same v1 v → recovers w1.
Proof.
  intros Hp Hv1 Hm Ht Hs. left. destruct (preparation_records owner Hdecode Hlength v0 manifest lock v Hp) as (store&Hj&Hrec).
  exists store. split; [done|]. left. exists v1. split; [done|]. split_and!; [done|done|]. destruct Hp as [_ H2 H3 H4].
  unfold journaled. rewrite (Hs Slots.Journal), (Hs JournalBackup), (Hs Manifest), (Hs Lockfile), (H4 JournalBackup) by (done || set_solver).
  split_and!; [done|apply Hunused|done|done].
Qed.
Lemma prepared_recovers w1 : prepared w1 → recovers w1.
Proof.
  intros (v&Hv&Hp). apply (kept_recovers v v); [done|done| | |by intros s _]; destruct Hunused as [_ _ _ [Hmb Htb] _];
    left; (split; [|left]); by rewrite (pr_same _ _ _ _ _ Hp) by set_solver.
Qed.
Lemma stopped_recovers w1 : stopped w1 → recovers w1.
Proof.
  intros [ev w1' Hend|j w1' Hp|ev j w1' root w2 Hp Hend|ev j w1' w2 Hp [tree Hst] Hend].
  - destruct (wp_ended _ _ _ ev w beginning_rule) as (w2&Hend'&Hw2). assert (w1' = w2) as ->.
    { destruct (beginning ev w); cbn in *; by simplify_eq. }
    assert (views w2 v0 ∨ prepared w2) as [Hv|Hp] by (by destruct Hw2 as [?|[? [? _]]]).
    + right. exists v0. split; [done|]. apply finished_unused.
    + by apply prepared_recovers.
  - apply prepared_recovers. by eapply preparing_prepared.
  - apply preparing_prepared in Hp as [Hj Hp].
    destruct (wp_ended _ _ _ ev w1' (set_store_root_rule project owner suffix clock v0 manifest lock j root w1' Hj Hp)) as (w3&Hend'&Hw3).
    assert (w2 = w3) as ->. { destruct (set_store_root clock j root ev w1'); cbn in *; by simplify_eq. }
    apply prepared_recovers. by destruct Hw3 as [?|[? [_ ?]]].
  - apply preparing_prepared in Hp as [_ (v&Hv&Hp)]. pose proof (prepared_ready v w1' tree Hv Hp) as Hready.
    destruct (activation_recoverable project owner suffix tree w1' (Hready ltac:(by rewrite <-(proj2 Hv))) pid clock preflight Hpre inject ev) as (w3&Hend'&v3&Hv3&Hm&Ht&Hs).
    assert (w2 = w3) as ->. { destruct (activating ev w1'); cbn in *; by simplify_eq. }
    assert (∀ s, ActivationThm.v0 project owner suffix w1' s = v s) as Hv1 by (intros s; apply Hv).
    apply (kept_recovers v v3); [done|done| | |].
    + by rewrite Hv1, (pr_same _ _ _ _ _ Hp) in Hm by set_solver.
    + by rewrite Hv1, (pr_same _ _ _ _ _ Hp) in Ht by set_solver.
    + intros s E. rewrite (Hs s E). apply Hv1.
Qed.
Lemma recovers_same v w1 w2 : views w1 v → views w2 v → recovers w1 → recovers w2.
Proof.
  intros [_ H1] [Hd H2]. assert (∀ v', views w1 v' → views w2 v') as Hv by (intros v' [_ Hv']; split; [done|]; intros s; by rewrite H2, <-H1).
  intros [(store&Hrec&[(v'&Hv'&Hu)|(v'&Hv'&Hf)])|(v'&Hv'&Hf)].
  - left. exists store. split; [done|]. left. exists v'. by auto.
  - left. exists store. split; [done|]. right. exists v'. by auto.
  - right. exists v'. by auto.
Qed.
Lemma recovers_restores pid' clock' recover_store w1 w2 ev :
  (∀ root, spares_project project owner suffix (recover_store root)) → recovers w1 →
  attempts (recover_lock pid' clock' canonicalize recover_store project (owner +:+ newline)) w1 w2 →
  ∃ w3, ended (recover_lock pid' clock' canonicalize recover_store project (owner +:+ newline) ev w2) w3 ∧
    ∀ b rest, recover_lock pid' clock' canonicalize recover_store project (owner +:+ newline) ev w2 = Returned (Ok b) rest w3 →
    recorded_project project owner suffix (v0 Marker) (v0 Tree) manifest lock w3.
Proof.
  intros Hstore [(store&Hrec&Hin)|Hf] Ha.
  - eapply recovery_restores; [exact Hcanon|exact Hstore|apply kept_unused|exact Hrec|done|exact Hin|exact Ha].
  - eapply finished_restores; [exact Hstore|apply kept_unused|exact Hf|exact Ha].
Qed.
(** *** The decision *)
Definition committed_text (store : option string) : string :=
  json_compact (write_struct (record_entries (with_state Committed (begun_record owner v0 manifest lock store)))).
(** The new tree is in place, with all that was there before kept, and the journal undecided. *)
Definition swapped (tree : gmap string node) (m l : option node) v : Prop :=
  replaced (v0 Marker) (v0 Tree) v tree v ∧ v Marker = Some (File MANAGED_MARKER) ∧ v JournalBackup = None ∧
  is_directory (v Slots.Journal) = false ∧ v Manifest = m ∧ v Lockfile = l.
Notation in_completion store tree m l := (in_completion project owner (stage_of suffix) (committed_text store) tree m l).
Lemma activated_swapped j w1 tree ev rest w2 :
  preparing j w1 → lookup_at (slot_place project owner (stage_of suffix) Staged) (disk w1) = Some (Directory tree) →
  activating ev w1 = Returned (Ok tt) rest w2 →
  recovers w2 ∧ ∃ v, views w2 v ∧
    swapped tree (lookup_at (project ++ ["package.json"]) (disk w1)) (lookup_at (lockfile_of project) (disk w1)) v.
Proof.
  intros Hj Hst Hrun. split.
  { apply stopped_recovers. apply (stopped_activating ev j w1); [done|by exists tree|]. by rewrite Hrun. }
  apply preparing_prepared in Hj as [_ (v&Hv&Hp)]. pose proof (prepared_ready v w1 tree Hv Hp ltac:(by rewrite <-(proj2 Hv))) as Hready.
  pose proof (activation_completed project owner suffix tree w1 Hready pid clock preflight Hpre inject ev (or_introl eq_refl)) as H.
  rewrite Hrun in H. destruct H as [_ [_ H]]. destruct (H eq_refl) as (v2&Hv2&(Hmb&Htb&Ht&Hs)&Hm).
  assert (∀ s, ActivationThm.v0 project owner suffix w1 s = v s) as Hv1 by (intros s; apply Hv).
  rewrite Hv1, (pr_same _ _ _ _ _ Hp) in Hmb, Htb by set_solver.
  exists v2. split; [done|]. split; [by split_and!|]. split; [done|].
  rewrite (Hs JournalBackup), (Hs Slots.Journal), (Hs Manifest), (Hs Lockfile), !Hv1, (pr_same _ _ _ _ _ Hp) by (done || set_solver).
  destruct (pr_journal _ _ _ _ _ Hp) as (store&_&->). split_and!; [apply Hunused|done|by rewrite <-(proj2 Hv)..].
Qed.

(** The journal says that the installation is committed. *)
Definition decided_at (tree : gmap string node) (m l : option node) (store : option string) (w1 : world) : Prop :=
  records owner (v0 Marker) (v0 Tree) manifest lock (committed_text store) (with_state Committed (begun_record owner v0 manifest lock store)) ∧
  resolving project owner (stage_of suffix) (committed_text store) tree m l w1.
Lemma swapped_resolved tree m l store v :
  swapped tree m l v → resolved (committed_text store) tree m l (upd v Slots.Journal (Some (File (committed_text store)))).
Proof.
  intros ((Hmb&Htb&Ht&_)&Hm&Hjb&_&Hm2&Hl). destruct kept_unused as [Km Kt].
  unfold resolved. rewrite upd_eq, !upd_ne by done. split_and!; try done.
  - rewrite Hmb. destruct (v0 Marker) as [n|]; [|by left]. specialize (Km n eq_refl). right. destruct n as [x|x|x|]; try done. by exists x.
  - rewrite Htb. destruct (v0 Tree) as [n|]; [|by left]. destruct (Kt n eq_refl) as (x&->&_). right. by exists x.
Qed.
Lemma mark_committed_rule tree m l j v w1 :
  our_journal j → recordable owner manifest lock → views w1 v → swapped tree m l v →
  wp true (mark_committed clock j)
    (λ r w2, (views w2 v ∨ ∃ store, decided_at tree m l store w2) ∧
       (is_ok r.2 = true → lj_project r.1 = project ∧
          ∃ store, lj_record r.1 = with_state Committed (begun_record owner v0 manifest lock store) ∧ decided_at tree m l store w2))
    (λ w2, views w2 v ∨ ∃ store, decided_at tree m l store w2) w1.
Proof.
  intros [Hj [store Hr]] (Hvalid&Hms&Hls) Hv Hs. unfold mark_committed. cbv zeta. rewrite Hj, Hr. apply wp_bind.
  destruct (MAX_JOURNAL_BYTES <? str_len (committed_text store))%Z eqn:Hsize.
  - unfold write_record. apply wp_bind, wp_nonce. intros nonce last. cbv zeta. unfold committed_text in Hsize. rewrite Hsize.
    apply wp_ret, wp_ret. split; [by left|done].
  - pose proof (begun_records owner Hdecode Hlength v0 manifest lock store Committed Hvalid Hms Hls Hsize) as Hrec.
    assert (∀ w2, views w2 (upd v Slots.Journal (Some (File (committed_text store)))) → decided_at tree m l store w2) as Hat.
    { intros w2 Hw2. split; [done|]. eexists. split; [exact Hw2|by apply swapped_resolved]. }
    assert (∀ w2, replaced_in project owner (stage_of suffix) v Slots.Journal (committed_text store) w2 →
      views w2 v ∨ ∃ store, decided_at tree m l store w2) as Hrep.
    { intros w2 (v'&Hv'&[-> | ->]); [by left|right; exists store; by apply Hat]. }
    destruct Hs as (_&_&_&Hdir&_).
    eapply wp_wand; [by apply (write_record_rule project owner suffix clock v)| |intros _; apply Hrep].
    intros [[]|e] w2 Hw2; apply wp_ret; cbn [fst snd is_ok].
    + split; [right; exists store; by apply Hat|]. intros _. split; [done|]. exists store. split; [done|by apply Hat].
    + split; [by apply Hrep|done].
Qed.
(** Finishing what is decided. *)
Lemma finish_rule tree m l j store w1 :
  lj_project j = project → lj_record j = with_state Committed (begun_record owner v0 manifest lock store) →
  decided_at tree m l store w1 →
  wp true (finish canonicalize j)
    (λ r w2, in_completion store tree m l w2 ∧ (is_ok r.2 = true → ∃ v, views w2 v ∧ completed_install tree m l v))
    (in_completion store tree m l) w1.
Proof.
  intros Hj Hr [Hrec (v&Hv&Hres)]. pose proof (records_valid_owner _ _ _ _ _ _ _ Hrec) as Hvalid.
  unfold finish. rewrite Hj, Hr. cbn [r_members with_state begun_record r_owner member_paths member_paths_from act_each].
  apply wp_bind, (wp_wand _ _ (λ r w2, in_completion store tree m l w2 ∧ (is_ok r = true → ∃ v, views w2 v ∧ completed_install tree m l v)) _
    (in_completion store tree m l)); [| |done].
  2: { intros r w2 Hw2. by apply wp_ret. }
  apply wp_try, wp_ret, wp_try, wp_ret, wp_try.
  eapply wp_wand; [apply (commit_resolving project owner (stage_of suffix) (stage_name_apart owner suffix) true (v0 Marker) (v0 Tree)
    (committed_text store) (with_state Committed (begun_record owner v0 manifest lock store)) tree m l v w1 Hvalid eq_refl Hv Hres)| |by left].
  intros [[]|e] w2 [Hres2 Hok]; [|split; [by left|done]]. destruct (Hok eq_refl) as (v2&Hv2&Hr2&Hmb&Htb).
  by apply (remove_resolved project owner (stage_of suffix) (stage_name_apart owner suffix) true (committed_text store) tree m l v2).
Qed.

(** C9: an interrupted installation is undone as a whole.  This is an installation of a project
    without workspace members, whose manifest is the package.json of its directory, whose tree is
    a directory with entries or none, and in which nothing is left of an earlier installation;
    the store lies outside of the files of the installation, and its recovery may fail or crash
    but not panic.  From the first call of [begin], which writes the journal, over the writes of
    the journal that name the store, the changes of the manifest and the lockfile and the filling
    of the stage, up to the activation of the new tree, the process can be stopped by a failure or
    a crash at any call, and recoveries can be interrupted any number of times: the activation and
    every recovery end without panicking, and when a recovery reports success, the manifest, the
    lockfile, the marker and the tree are what they were before the installation began, with no
    backups and no journal left. *)
Theorem interrupted_installation_recovers pid' clock' recover_store :
  (∀ root, spares_project project owner suffix (recover_store root)) →
  (∀ j w1 ev, preparing j w1 → staged w1 → ∃ w2, ended (activating ev w1) w2) ∧
  ∀ w1 w2 ev', stopped w1 → attempts (recover_lock pid' clock' canonicalize recover_store project (owner +:+ newline)) w1 w2 →
  ∃ w3, ended (recover_lock pid' clock' canonicalize recover_store project (owner +:+ newline) ev' w2) w3 ∧
    ∀ b rest, recover_lock pid' clock' canonicalize recover_store project (owner +:+ newline) ev' w2 = Returned (Ok b) rest w3 →
    recorded_project project owner suffix (lookup_at (marker_of project) (disk w)) (lookup_at (destination_of project) (disk w)) manifest lock w3.
Proof.
  intros Hstore. split.
  - intros j w1 ev Hp [tree Hst]. apply preparing_prepared in Hp as [_ (v&Hv&Hp)].
    destruct (activation_recoverable project owner suffix tree w1 (prepared_ready v w1 tree Hv Hp ltac:(by rewrite <-(proj2 Hv))) pid clock preflight Hpre inject ev)
      as (w2&Hend&_). by exists w2.
  - intros w1 w2 ev' Hs%stopped_recovers Ha. by apply (recovers_restores pid' clock' recover_store w1).
Qed.
(** C10: an installation is decided by one write of the journal, and completed once it is decided.
    This is an installation as above, whose activation has succeeded.  When [mark_committed] then
    stops, at any call, recoveries - each of which can be interrupted - end without panicking, and
    one that reports success leaves either all that was there before the installation, or the
    installation: the new tree with its marker, and the manifest and the lockfile as they were
    when it was activated, with no backups and no journal left.  Once [mark_committed] has
    succeeded, it is the installation: [finish] does not panic; when it succeeds, that is what it
    leaves; and wherever it stops, a recovery that reports success leaves that. *)
Theorem committed_installation_completes pid' clock' recover_store j w1 tree ev1 rest1 w2 ev2 w3 :
  let recovery := recover_lock pid' clock' canonicalize recover_store project (owner +:+ newline) in
  let before := recorded_project project owner suffix (lookup_at (marker_of project) (disk w)) (lookup_at (destination_of project) (disk w)) manifest lock in
  let installed := installed_files project owner suffix tree (lookup_at (project ++ ["package.json"]) (disk w1)) (lookup_at (lockfile_of project) (disk w1)) in
  (∀ root, spares_project project owner suffix (recover_store root)) →
  preparing j w1 → lookup_at (stage_place project (stage_of suffix) ++ ["node_modules"]) (disk w1) = Some (Directory tree) →
  activating ev1 w1 = Returned (Ok tt) rest1 w2 → ended (mark_committed clock j ev2 w2) w3 →
  (∀ w4 ev, attempts recovery w3 w4 →
    ∃ w5, ended (recovery ev w4) w5 ∧ ∀ b rest, recovery ev w4 = Returned (Ok b) rest w5 → before w5 ∨ installed w5) ∧
  (∀ j' rest2, mark_committed clock j ev2 w2 = Returned (j', Ok tt) rest2 w3 →
    (∀ ev, ∃ w4, ended (finish canonicalize j' ev w3) w4 ∧
      ∀ j'' rest, finish canonicalize j' ev w3 = Returned (j'', Ok tt) rest w4 → installed w4) ∧
    ∀ w4 w5 ev, w4 = w3 ∨ (∃ ev3, ended (finish canonicalize j' ev3 w3) w4) → attempts recovery w4 w5 →
      ∃ w6, ended (recovery ev w5) w6 ∧ ∀ b rest, recovery ev w5 = Returned (Ok b) rest w6 → installed w6).
Proof.
  intros recovery before installed Hstore Hj Hst Hrun Hend.
  destruct (activated_swapped j w1 tree ev1 rest1 w2 Hj Hst Hrun) as (Hold&v&Hv&Hs).
  apply preparing_prepared in Hj as [Hj (v1&Hv1&Hp)]. destruct (pr_journal _ _ _ _ _ Hp) as (store1&[Hrecordable _]&_).
  set (m := lookup_at (project ++ ["package.json"]) (disk w1)) in *. set (l := lookup_at (lockfile_of project) (disk w1)) in *.
  pose proof (mark_committed_rule tree m l j v w2 Hj Hrecordable Hv Hs) as Hrule.
  assert (∀ store w' w4 ev, records owner (v0 Marker) (v0 Tree) manifest lock (committed_text store) (with_state Committed (begun_record owner v0 manifest lock store)) →
    in_completion store tree m l w' → attempts recovery w' w4 →
    ∃ w5, ended (recovery ev w4) w5 ∧ ∀ b rest, recovery ev w4 = Returned (Ok b) rest w5 → installed w5) as Hcomplete.
  { intros store w' w4 ev Hrec Hin Ha. eapply completion_installs; [exact Hstore|exact Hrec|done|exact Hin|exact Ha]. }
  split.
  - intros w4 ev Ha. destruct (wp_ended _ _ _ ev2 w2 Hrule) as (w3'&Hend'&Hw3).
    assert (w3' = w3) as ->. { destruct (mark_committed clock j ev2 w2); cbn in *; by simplify_eq. }
    assert (views w3 v ∨ ∃ store, decided_at tree m l store w3) as [Hw|(store&Hrec&Hin)] by (by destruct Hw3 as [?|[? [? _]]]).
    + destruct (recovers_restores pid' clock' recover_store w3 w4 ev Hstore (recovers_same v w2 w3 Hv Hw Hold) Ha) as (w5&?&Hok).
      exists w5. split; [done|]. intros b rest E. left. by eapply Hok.
    + destruct (Hcomplete store w3 w4 ev Hrec (or_introl Hin) Ha) as (w5&?&Hok). exists w5. split; [done|]. intros b rest E. right. by eapply Hok.
  - intros j' rest2 Hmark. specialize (Hrule ev2 (or_introl eq_refl)). rewrite Hmark in Hrule. destruct Hrule as [_ [_ Hrule]].
    destruct (Hrule eq_refl) as (Hproj&store&Hr&Hdec). cbn [fst] in Hproj, Hr.
    pose proof (finish_rule tree m l j' store w3 Hproj Hr Hdec) as Hfin. destruct Hdec as [Hrec Hres]. split.
    + intros ev. specialize (Hfin ev (or_introl eq_refl)). destruct (finish canonicalize j' ev w3) as [[j'' r] rest w4|w4|]; [..|done]; exists w4; (split; [done|]); [|done].
      intros j3 rest3 [= -> -> ->]. destruct Hfin as [_ [_ Hok]]. destruct (Hok eq_refl) as (v4&[_ Hv4]&H1&H2&H3&H4&H5&H6&H7&H8).
      unfold installed, installed_files. rewrite !Hv4. by split_and!.
    + intros w4 w5 ev [-> | [ev3 He]] Ha; [by apply (Hcomplete store w3 w5 ev Hrec (or_introl Hres))|].
      destruct (wp_ended _ _ _ ev3 w3 Hfin) as (w4'&Hend'&Hw4).
      assert (w4' = w4) as ->. { destruct (finish canonicalize j' ev3 w3); cbn in *; by simplify_eq. }
      apply (Hcomplete store w4 w5 ev Hrec); [|done]. by destruct Hw4 as [?|[? [? _]]].
Qed.
End installation.

(** A write of the journal - the point at which an installation is decided - is atomic:
    wherever it fails or crashes, the journal is the one that was there or the new one as a
    whole, it is the new one when the write succeeds, and nothing else of the project has
    changed. *)
Theorem journal_update_is_atomic `{JsonCompact} project owner suffix clock record w ev :
  is_directory (lookup_at project (disk w)) = true → is_directory (lookup_at (journal_of project) (disk w)) = false →
  ∃ w1, ended (write_record clock project record ev w) w1 ∧
    (∀ s, s ≠ Slots.Journal → lookup_at (slot_place project owner (stage_of suffix) s) (disk w1) = lookup_at (slot_place project owner (stage_of suffix) s) (disk w)) ∧
    (lookup_at (journal_of project) (disk w1) = lookup_at (journal_of project) (disk w) ∨
     lookup_at (journal_of project) (disk w1) = Some (File (json_compact (write_struct (record_entries record))))) ∧
    (∀ rest, write_record clock project record ev w = Returned (Ok tt) rest w1 →
     lookup_at (journal_of project) (disk w1) = Some (File (json_compact (write_struct (record_entries record))))).
Proof.
  intros Hd Hj. set (v s := lookup_at (slot_place project owner (stage_of suffix) s) (disk w)).
  pose proof (write_record_rule project owner suffix clock v record w Hj (conj Hd (λ s, eq_refl)) ev (or_introl eq_refl)) as Hrun.
  assert (∀ w1, replaced_in project owner (stage_of suffix) v Slots.Journal (json_compact (write_struct (record_entries record))) w1 →
    (∀ s, s ≠ Slots.Journal → lookup_at (slot_place project owner (stage_of suffix) s) (disk w1) = v s) ∧
    (lookup_at (journal_of project) (disk w1) = v Slots.Journal ∨
     lookup_at (journal_of project) (disk w1) = Some (File (json_compact (write_struct (record_entries record)))))) as Hrep.
  { intros w1 (v'&[_ Hv']&[-> | ->]); (split; [intros s Hs; rewrite Hv'|change (journal_of project) with (slot_place project owner (stage_of suffix) Slots.Journal); rewrite Hv']); [done|by left|by rewrite upd_ne|right; by rewrite upd_eq]. }
  destruct (write_record clock project record ev w) as [r rest w1|w1|]; [..|done]; exists w1; (split; [done|]).
  - destruct Hrun as [_ Hrun]. destruct r as [[]|e]; cbn [replacing] in Hrun.
    + destruct (Hrep w1) as [H1 H2]; [by apply replaced_new|]. split_and!; [done|done|]. intros rest' _. destruct Hrun as [_ Hv1].
      change (journal_of project) with (slot_place project owner (stage_of suffix) Slots.Journal). by rewrite Hv1, upd_eq.
    + destruct (Hrep w1 Hrun) as [H1 H2]. by split_and!.
  - destruct (Hrep w1) as [H1 H2]; [apply Hrun|]. by split_and!.
Qed.

(** ** A project *)
#[local] Instance plain_base64 : Base64 := {| b64_decode s := Some s; b64_decode_no_pad s := Some s; b64_encode s := s |}.
Definition sample_record (state : State) : Record_ :=
  mk_record 2 "package.json" ("1-a" +:+ newline) state true "{}" false "" true true None [].
Definition sample_journal (state : State) : string := json_compact (write_struct (record_entries (sample_record state))).
(** The installation has replaced the manifest and written a lockfile. *)
Definition journaled_project (state : State) (rest : list (string * node)) : world :=
  mk_world (entries_of [("app", entries_of ([(".tapid-install-stage-1-1", entries_of [("node_modules", entries_of [("new", File "2")])]);
    ("package.json", File "{new}"); ("tapid.lock", File "{lock}"); (JOURNAL, File (sample_journal state))] ++ rest))]) 0.
Definition prepared_project : world :=
  journaled_project Prepared [(".tapid-managed", File MANAGED_MARKER); ("node_modules", entries_of [("old", File "1")])].
Definition sample_recovery (events : list event) (w : world) : outcome (result string bool) :=
  recover_lock 2 id (λ _ p, Some p) (λ _, succeed ()) ["app"] ("1-a" +:+ newline) events w.
Lemma sample_records : records "1-a" (Some (File MANAGED_MARKER)) (Some (entries_of [("old", File "1")])) "{}" None (sample_journal Prepared) (sample_record Prepared).
Proof. split; try done; vm_compute; reflexivity. Defined.
Definition interrupted (n : nat) : world := world_after (sample_activation (crash_after n) prepared_project) prepared_project.
Definition recovered (n : nat) : outcome (result string bool) := sample_recovery [] (interrupted n).
(** From the beginning of an installation on. *)
Lemma plain_length s : (str_len (b64_encode s) <= (str_len s + 2) / 3 * 4)%Z.
Proof. cbn [b64_encode plain_base64]. assert (0 <= str_len s)%Z as H by apply Nat2Z.is_nonneg. revert H. generalize (str_len s). intros n H. pose proof (Z.div_mod (n + 2) 3). pose proof (Z.mod_pos_bound (n + 2) 3). lia. Qed.
Definition sample_begin : outcome (result string LifecycleJournal) :=
  begin id (λ _ p, Some p) ["app"] ["app"; "package.json"] ("1-a" +:+ newline) "{}" None [] installed_project.
Definition begun_journal (o : outcome (result string LifecycleJournal)) (d : LifecycleJournal) : LifecycleJournal :=
  match o with Returned (Ok j) _ _ => j | _ => d end.
Lemma begun_returned o w d :
  match o with Returned (Ok _) [] _ => true | _ => false end = true → o = Returned (Ok (begun_journal o d)) [] (world_after o w).
Proof. by destruct o as [[j|] []| |]. Defined.
Definition begun_project : world := world_after sample_begin installed_project.
(** With the store named in the journal. *)
Definition begun_sample : LifecycleJournal := begun_journal sample_begin (mk_journal [] (sample_record Prepared) false false).
Definition sample_store : outcome (LifecycleJournal * result string ()) := set_store_root id begun_sample "/store" [] begun_project.
Definition store_journal : LifecycleJournal := match sample_store with Returned (j, _) _ _ => j | _ => begun_sample end.
Definition store_project : world := world_after sample_store begun_project.
Definition sample_result (o : outcome (LifecycleJournal * result string ())) : result string () :=
  match o with Returned (_, r) _ _ => r | _ => Err "" end.
Definition published_project : world :=
  with_disk (alter_at (λ _, Some (File "{lock}")) ["app"; "tapid.lock"] (alter_at (λ _, Some (File "{new}")) ["app"; "package.json"] (disk store_project))) store_project.
Lemma sample_store_returned : sample_store = Returned (store_journal, sample_result sample_store) [] store_project.
Proof. vm_compute. reflexivity. Defined.
Lemma published_files : prepares ["app"] "1-a" "1-1" store_project published_project.
Proof. split; [vm_compute; reflexivity..|]. intros s H1 H2 H3. by destruct s. Defined.
Notation sample_preparing := (preparing ["app"] "1-a" "1-1" id (λ _ p, Some p) "{}" None installed_project).
Lemma sample_prepared : sample_preparing store_journal published_project.
Proof.
  apply (files_prepared _ _ _ _ _ _ _ _ _ store_project); [|apply published_files].
  apply (store_recorded _ _ _ _ _ _ _ _ [] begun_sample begun_project "/store" _ (sample_result sample_store) []).
  - apply (begun_installation _ _ _ _ _ _ _ _ [] _ []). apply begun_returned. vm_compute. reflexivity.
  - apply sample_store_returned.
Defined.
Lemma sample_unused : unused ["app"] "1-a" "1-1" installed_project.
Proof. destruct installed_ready as [H1 H2 H3 H4 H5 _]. by split. Defined.
Lemma succeed_spares project owner suffix : spares_project project owner suffix (succeed ()).
Proof. apply reads_only_spares, succeed_reads_only. Defined.
(** A crash of the activation right after the swap. *)
Lemma interrupted_installation_recovers_witness :
  ∃ w1, ended (sample_activation (crash_after 17) published_project) w1 ∧
  ∀ w2 ev', attempts (recover_lock 2 id (λ _ p, Some p) (λ _, succeed ()) ["app"] ("1-a" +:+ newline)) w1 w2 →
  ∃ w3, ended (sample_recovery ev' w2) w3 ∧ ∀ b rest, sample_recovery ev' w2 = Returned (Ok b) rest w3 →
    recorded_project ["app"] "1-a" "1-1" (Some (File MANAGED_MARKER)) (Some (entries_of [("old", File "1")])) "{}" None w3.
Proof.
  destruct (@interrupted_installation_recovers plain_base64 _ _ ["app"] "1-a" "1-1" 1 id (λ _ p, Some p) (succeed ()) false "{}" None installed_project _
    (λ _ _, eq_refl) (λ _ _ _, eq_refl) (λ _, eq_refl) plain_length succeed_reads_only sample_unused eq_refl eq_refl
    2 id (λ _, succeed ()) (λ _, succeed_spares _ _ _)) as [Hends Hrecovers].
  assert (staged ["app"] "1-a" "1-1" published_project) as Hstaged by (exists sample_tree; vm_compute; reflexivity).
  destruct (Hends store_journal published_project (crash_after 17) sample_prepared Hstaged) as (w1&Hend).
  exists w1. split; [exact Hend|]. intros w2 ev'. apply Hrecovers.
  eapply stopped_activating; [exact sample_prepared|exact Hstaged|exact Hend].
Defined.
Definition file_is (p : place) (text : string) (w : world) : bool :=
  match lookup_at p (disk w) with Some (File s) => str_eqb s text | _ => false end.
Definition restored_sample (o : outcome (result string bool)) : bool :=
  match o with
  | Returned (Ok _) _ w =>
      file_is ["app"; "package.json"] "{}" w && negb (holds_at ["app"; "tapid.lock"] w) && file_is ["app"; ".tapid-managed"] MANAGED_MARKER w
      && file_is ["app"; "node_modules"; "old"] "1" w && negb (holds_at ["app"; "node_modules"; "new"] w)
      && negb (holds_at ["app"; ".tapid-managed-old-1-a"] w) && negb (holds_at ["app"; ".tapid-node-modules-old-1-a"] w)
      && negb (holds_at ["app"; JOURNAL] w)
  | _ => false
  end.
(** Here every recovery that is left to finish succeeds: after a crash in each
    state of the project that the activation goes through, and after a further crash at each
    call of a first recovery. *)
Example every_crash_recovers :
  forallb (λ n, let w := interrupted n in restored_sample (sample_recovery [] w) &&
    forallb (λ m, restored_sample (sample_recovery [] (world_after (sample_recovery (crash_after m) w) w))) (seq 0 31)) [0; 3; 4; 11; 15; 21; 23]%nat = true.
Proof. vm_compute. reflexivity. Qed.
(** The sample installation, activated and committed; then [finish] crashes with the backup of the
    tree half removed. *)
Definition activated_world : world := world_after (sample_activation [] published_project) published_project.
Lemma sample_activated :
  activate_node_modules_with_preflight 1 id ["app"] (stage_place ["app"] (stage_of "1-1")) "1-a" true false (succeed ()) [] published_project =
  Returned (Ok tt) [] activated_world.
Proof. vm_compute. reflexivity. Defined.
Notation sample_mark := (mark_committed id store_journal [] activated_world).
Definition committed_journal : LifecycleJournal := match sample_mark with Returned (j, _) _ _ => j | _ => store_journal end.
Definition committed_world : world := world_after sample_mark activated_world.
Notation sample_finish := (finish (λ _ p, Some p) committed_journal [Proceed; Proceed; Proceed; Crash no_debris] committed_world).
Definition half_committed : world := world_after sample_finish committed_world.
Lemma sample_mark_returned : sample_mark = Returned (committed_journal, Ok ()) [] committed_world.
Proof. vm_compute. reflexivity. Defined.
Lemma recovered_holds (o : outcome (result string bool)) (P : world → Prop) w :
  match o with Returned (Ok _) _ _ => true | _ => false end = true → ended o w → (∀ b rest, o = Returned (Ok b) rest w → P w) →
  match o with Returned (Ok _) _ w => P w | _ => False end.
Proof. destruct o as [[b|e] rest w'|w'|]; try done. cbn. intros _ ->. eauto. Qed.
Lemma sample_finish_ended : ended sample_finish half_committed.
Proof. vm_compute. reflexivity. Defined.
Lemma committed_installation_completes_witness :
  holds_at ["app"; ".tapid-node-modules-old-1-a"] half_committed = true ∧
  match sample_recovery [] half_committed with
  | Returned (Ok _) _ w => installed_files ["app"] "1-a" "1-1" sample_tree (Some (File "{new}")) (Some (File "{lock}")) w
  | _ => False
  end.
Proof.
  split; [vm_compute; reflexivity|].
  destruct (@committed_installation_completes plain_base64 _ _ ["app"] "1-a" "1-1" 1 id (λ _ p, Some p) (succeed ()) false "{}" None installed_project _
    (λ _ _, eq_refl) (λ _ _ _, eq_refl) (λ _, eq_refl) plain_length succeed_reads_only sample_unused eq_refl eq_refl
    2 id (λ _, succeed ()) store_journal published_project sample_tree [] [] activated_world [] committed_world
    (λ _, succeed_spares _ _ _) sample_prepared) as [_ H].
  - vm_compute. reflexivity.
  - exact sample_activated.
  - rewrite sample_mark_returned. exact eq_refl.
  - destruct (H committed_journal [] sample_mark_returned) as [_ Hrec].
    destruct (Hrec half_committed half_committed []) as (w6&Hend&Hok).
    + right. exists [Proceed; Proceed; Proceed; Crash no_debris]. exact sample_finish_ended.
    + apply no_attempt.
    + refine (recovered_holds (sample_recovery [] half_committed) _ w6 _ Hend Hok). vm_compute. reflexivity.
Defined.
(** Writing the decision, with a crash while the new journal is being written. *)
Definition torn_decision : outcome (result string ()) := write_record id ["app"] (sample_record Committed) (crash_after 1) prepared_project.
Lemma journal_update_is_atomic_witness :
  ∃ w1, ended torn_decision w1 ∧
    (lookup_at (journal_of ["app"]) (disk w1) = Some (File (sample_journal Prepared)) ∨
     lookup_at (journal_of ["app"]) (disk w1) = Some (File (sample_journal Committed))).
Proof.
  destruct (journal_update_is_atomic ["app"] "1-a" "1-1" id (sample_record Committed) prepared_project (crash_after 1)) as (w1&Hend&_&Hj&_); [done|done|].
  exists w1. split; [done|]. exact Hj.
Defined.
(** Such a crash leaves the file of the new journal, which no recovery removes, and an
    import, which does not recover, then refuses the project for good. *)
Definition after_recovery : world := world_after (sample_recovery [] (world_after torn_decision prepared_project)) prepared_project.
Example torn_journal_blocks_imports :
  negb (holds_at ["app"; JOURNAL] after_recovery)
  && match acquire_without_recovery 3 id (λ _ p, Some p) (λ _, succeed ()) ["app"] false [] after_recovery with
     | Returned (Err (Recovery, _)) _ _ => true
     | _ => false
     end
  && match acquire 3 id (λ _ p, Some p) (λ _, succeed ()) ["app"] false [] after_recovery with
     | Returned (Ok _) _ w =>
         match acquire_without_recovery 3 id (λ _ p, Some p) (λ _, succeed ()) ["app"] false [] w with
         | Returned (Err (Recovery, _)) _ _ => true
         | _ => false
         end
     | _ => false
     end = true.
Proof. vm_compute. reflexivity. Qed.
