(* ===== verification/RunnerConfig.v ===== *)
(** * tapid-runner: run configuration and policy selection

    The sandbox policy, the checked-in run configuration and the permissions of one
    invocation (crates/tapid-runner/src/config.rs,
    crates/tapid-cli/src/commands/run/permissions.rs).  [toml::from_str] with the derived
    [Deserialize] instances is a class parameter that returns the document or the text of
    its error; a message is a term that keeps the arguments of its [format!]. *)
From S2P Require Import Prelude Order RustStr.

(** ** Strings *)
Definition to_upper (a : ascii) : ascii :=
  if byte_is_lower a then ascii_of_N (N_of_ascii a - 32) else a.
Definition to_ascii_uppercase : string → string := str_map to_upper.
(** [s.contains(pat)] for a non-empty pattern. *)
Definition contains_str (pat s : string) : bool :=
  match split_once pat s with Some _ => true | None => false end.
Definition ends_with_any (cs : list ascii) (s : string) : bool := existsb (λ c, ends_with_char c s) cs.

(** ** Ceilings *)
Definition MAX_CONFIG_BYTES : Z := 1024 * 1024.
Definition MAX_PROFILE_COUNT : Z := 256.
Definition MAX_GRANT_COUNT : Z := 256.
Definition MAX_ENVIRONMENT_COUNT : Z := 256.
Definition MAX_STRING_BYTES : Z := 255.
Definition len {A} (l : list A) : Z := Z.of_nat (length l).
Definition u32_max : Z := 2 ^ 32 - 1.

(** ** The policy *)
Inductive SandboxMode := Required | Disabled.
#[export] Instance SandboxMode_eq_dec : EqDecision SandboxMode.
Proof. solve_decision. Defined.
Inductive AssuranceLevel := Restricted | ManagedTree.
#[export] Instance AssuranceLevel_eq_dec : EqDecision AssuranceLevel.
Proof. solve_decision. Defined.
Record FilesystemPolicy := mk_filesystem { fp_read : list string; fp_write : list string }.
#[export] Instance FilesystemPolicy_eq_dec : EqDecision FilesystemPolicy.
Proof. solve_decision. Defined.
Record ExecutionLimits := mk_limits {
  timeout_seconds : option Z;
  max_output_bytes : option Z;
  max_processes : option Z;
  max_memory_bytes : option Z;
}.
#[export] Instance ExecutionLimits_eq_dec : EqDecision ExecutionLimits.
Proof. solve_decision. Defined.
Definition no_limits : ExecutionLimits := mk_limits None None None None.
Record SandboxPolicy := mk_sandbox {
  sp_mode : SandboxMode;
  sp_assurance : AssuranceLevel;
  sp_filesystem : FilesystemPolicy;
  sp_network : bool;
  sp_environment : list string;
  sp_subprocess : bool;
  sp_limits : ExecutionLimits;
}.
#[export] Instance SandboxPolicy_eq_dec : EqDecision SandboxPolicy.
Proof. solve_decision. Defined.
Definition default_policy : SandboxPolicy :=
  mk_sandbox Required ManagedTree (mk_filesystem ["."] []) false [] true no_limits.

(** ** Errors *)
Inductive ConfigErrorCategory :=
| Malformed
| UnknownKey
| InvalidPath
| InvalidEnvironment
| InvalidLimit
| CapacityExceeded.
#[export] Instance ConfigErrorCategory_eq_dec : EqDecision ConfigErrorCategory.
Proof. solve_decision. Defined.
Inductive ConfigMessage :=
| ExceedsGrants
| ExceedsEnvironment
| ExceedsConfigBytes
| NotUtf8
| ExceedsProfiles
| TomlMessage (text : string)
| LimitMessage (name reason : string)
| TooLong (what : string)
| NotPortable (value : string)
| BadEnvironmentName (name : string).
Record ConfigError := mk_config_error {
  ce_category : ConfigErrorCategory;
  ce_message : ConfigMessage;
}.
Notation config_result := (result ConfigError).

(** ** Validation *)
Definition is_windows_reserved_port (suffix : string) : bool :=
  bool_decide (suffix ∈ ["1"; "2"; "3"; "4"; "5"; "6"; "7"; "8"; "9"; "¹"; "²"; "³"]).
Definition is_windows_reserved_component (part : string) : bool :=
  let stem := default part (head (split "." part)) in
  let upper := to_ascii_uppercase stem in
  bool_decide (upper ∈ ["CON"; "PRN"; "AUX"; "NUL"; "CONIN$"; "CONOUT$"]) ||
  match strip_prefix "COM" upper with Some port => is_windows_reserved_port port | None => false end ||
  match strip_prefix "LPT" upper with Some port => is_windows_reserved_port port | None => false end.
(** Control characters and those Windows forbids in a file name. *)
Definition forbidden_char (c : Z) : bool :=
  char_is_control c || bool_decide (c ∈ [60; 62; 58; 34; 124; 63; 42; 92]%Z).
Definition invalid_component (value part : string) : bool :=
  is_empty part ||
  (str_eqb part "." && negb (str_eqb value ".")) ||
  str_eqb part ".." ||
  (negb (str_eqb part ".") && ends_with_any ["."; " "]%char part) ||
  chars_any forbidden_char part ||
  is_windows_reserved_component part.
Definition windows_absolute (value : string) : bool :=
  starts_with_char "\" value || starts_with_char "/" value ||
  (match str_get value 1 with Some b => ascii_eqb b ":" | None => false end &&
   match str_get value 0 with Some b => byte_is_alphabetic b | None => false end).
Definition escaping_component (c : component) : bool :=
  match c with ParentDir | RootDir => true | CurDir | Normal _ => false end.
Definition validate_project_path (value : string) : config_result () :=
  let components := split "/" value in
  ensure (negb (is_empty value || path_is_absolute value || windows_absolute value ||
                existsb (invalid_component value) components ||
                existsb escaping_component (path_components value)))
    (mk_config_error InvalidPath (NotPortable value)).
Definition validate_string_length (what value : string) : config_result () :=
  ensure (str_len value <=? MAX_STRING_BYTES)%Z (mk_config_error CapacityExceeded (TooLong what)).
Definition is_name_start (a : ascii) : bool := ascii_eqb a "_" || byte_is_alphabetic a.
Definition is_name_rest (a : ascii) : bool := ascii_eqb a "_" || byte_is_alphanumeric a.
Definition validate_environment_name (name : string) : config_result () :=
  ensure (match name with
          | "" => false
          | String c rest => is_name_start c && str_forallb is_name_rest rest
          end)
    (mk_config_error InvalidEnvironment (BadEnvironmentName name)).
Definition invalid_limit (name reason : string) : ConfigError :=
  mk_config_error InvalidLimit (LimitMessage name reason).
Definition nonzero (name : string) (value : option Z) : config_result (option Z) :=
  if bool_decide (value = Some 0%Z) then Err (invalid_limit name "must be greater than zero") else Ok value.

(** ** Constructors *)
Definition validate_grant (path : string) : config_result () :=
  _ ← validate_string_length "filesystem grant" path;
  validate_project_path path.
Definition FilesystemPolicy_new (read write : list string) : config_result FilesystemPolicy :=
  _ ← ensure (negb (MAX_GRANT_COUNT <? u64_saturating_add (len read) (len write))%Z)
        (mk_config_error CapacityExceeded ExceedsGrants);
  _ ← for_each validate_grant (read ++ write);
  Ok (mk_filesystem read write).
Definition ExecutionLimits_new (timeout output processes memory : option Z) : config_result ExecutionLimits :=
  timeout ← nonzero "timeout_seconds" timeout;
  output ← nonzero "max_output_bytes" output;
  processes ← nonzero "max_processes" processes;
  memory ← nonzero "max_memory_bytes" memory;
  Ok (mk_limits timeout output processes memory).
(** The checks on an environment allowlist, written twice in config.rs. *)
Definition validate_environment_entry (name : string) : config_result () :=
  _ ← validate_string_length "environment variable name" name;
  validate_environment_name name.
Definition validate_environment (environment : list string) : config_result () :=
  _ ← ensure (negb (MAX_ENVIRONMENT_COUNT <? len environment)%Z)
        (mk_config_error CapacityExceeded ExceedsEnvironment);
  for_each validate_environment_entry environment.
Definition new_with_assurance (mode : SandboxMode) (assurance : AssuranceLevel) (filesystem : FilesystemPolicy)
    (network : bool) (environment : list string) (subprocess : bool) (limits : ExecutionLimits) :
    config_result SandboxPolicy :=
  _ ← validate_environment environment;
  Ok (mk_sandbox mode assurance filesystem network environment subprocess limits).
Definition SandboxPolicy_new (mode : SandboxMode) (filesystem : FilesystemPolicy) (network : bool)
    (environment : list string) (subprocess : bool) (limits : ExecutionLimits) : config_result SandboxPolicy :=
  new_with_assurance mode ManagedTree filesystem network environment subprocess limits.

(** ** The document *)
Record RawProfile := mk_profile {
  raw_assurance : option AssuranceLevel;
  raw_read : option (list string);
  raw_write : option (list string);
  raw_network : option bool;
  raw_environment : option (list string);
  raw_subprocess : option bool;
  raw_timeout_seconds : option Z;
  raw_max_output_bytes : option Z;
  raw_max_processes : option Z;
  raw_max_memory_bytes : option Z;
}.
Definition empty_profile : RawProfile := mk_profile None None None None None None None None None None.
Record RunSection := mk_section {
  rs_defaults : option RawProfile;
  rs_scripts : gmap string RawProfile;
}.
(** The reserved [registries] table is accepted and not read here. *)
Record ConfigDocument := mk_document { cd_run : RunSection }.
Class TomlConfig : Type := { toml_config : string → result string ConfigDocument }.

Definition deserialize_error (message : string) : ConfigError :=
  let category :=
    if contains_str "unknown field" message then UnknownKey
    else if existsb (λ field, contains_str field message)
              ["timeout_seconds"; "max_output_bytes"; "max_processes"; "max_memory_bytes"] &&
            (contains_str "too large" message || contains_str "out of range" message ||
             contains_str "expected u64" message)
    then InvalidLimit else Malformed in
  mk_config_error category (TomlMessage message).

Definition processes_limit (raw : option Z) (inherited : option Z) : config_result (option Z) :=
  match raw with
  | Some value =>
      if (value <=? u32_max)%Z then Ok (Some value)
      else Err (invalid_limit "max_processes" "must fit in an unsigned 32-bit integer")
  | None => Ok inherited
  end.
Definition or_else {A} (o inherited : option A) : option A :=
  match o with Some _ => o | None => inherited end.
Definition apply_profile (policy : SandboxPolicy) (raw : RawProfile) : config_result SandboxPolicy :=
  let limits := sp_limits policy in
  filesystem ← FilesystemPolicy_new (default (fp_read (sp_filesystem policy)) (raw_read raw))
                 (default (fp_write (sp_filesystem policy)) (raw_write raw));
  environment ← match raw_environment raw with
                | Some environment => _ ← validate_environment environment; Ok environment
                | None => Ok (sp_environment policy)
                end;
  processes ← processes_limit (raw_max_processes raw) (max_processes limits);
  limits ← ExecutionLimits_new
             (or_else (raw_timeout_seconds raw) (timeout_seconds limits))
             (or_else (raw_max_output_bytes raw) (max_output_bytes limits))
             processes
             (or_else (raw_max_memory_bytes raw) (max_memory_bytes limits));
  Ok (mk_sandbox (sp_mode policy) (default (sp_assurance policy) (raw_assurance raw)) filesystem
        (default (sp_network policy) (raw_network raw)) environment
        (default (sp_subprocess policy) (raw_subprocess raw)) limits).

Record RunConfig := mk_run_config {
  rc_defaults : SandboxPolicy;
  rc_explicit_defaults : bool;
  rc_scripts : gmap string SandboxPolicy;
}.
Definition run_config_of (root : ConfigDocument) : config_result RunConfig :=
  let run := cd_run root in
  _ ← ensure (negb (MAX_PROFILE_COUNT <? Z.of_nat (size (rs_scripts run)))%Z)
        (mk_config_error CapacityExceeded ExceedsProfiles);
  _ ← for_each (validate_string_length "script profile name") (btree_keys (rs_scripts run));
  let explicit_defaults := match rs_defaults run with Some _ => true | None => false end in
  defaults ← apply_profile default_policy (default empty_profile (rs_defaults run));
  scripts ← try_map (λ entry : string * RawProfile,
              policy ← apply_profile defaults entry.2; Ok (entry.1, policy))
              (btree_iter (rs_scripts run));
  Ok (mk_run_config defaults explicit_defaults (btree_collect scripts)).
Definition parse_toml_bytes `{TomlConfig} (input : string) : config_result RunConfig :=
  _ ← ensure (negb (MAX_CONFIG_BYTES <? str_len input)%Z)
        (mk_config_error CapacityExceeded ExceedsConfigBytes);
  _ ← ensure (utf8_valid input) (mk_config_error Malformed NotUtf8);
  root ← map_err deserialize_error (toml_config input);
  run_config_of root.
Definition parse_toml `{TomlConfig} (input : string) : config_result RunConfig := parse_toml_bytes input.
Definition configured_defaults (config : RunConfig) : option SandboxPolicy :=
  if rc_explicit_defaults config then Some (rc_defaults config) else None.
Definition exact_profile (config : RunConfig) (script : string) : option SandboxPolicy :=
  rc_scripts config !! script.
Definition profile_for (config : RunConfig) (script : string) : SandboxPolicy :=
  default (rc_defaults config) (rc_scripts config !! script).

(** ** Permissions of one invocation *)
Record InvocationPermissions := mk_permissions {
  allow_read : list string;
  allow_write : list string;
  allow_env : list string;
  allow_subprocess : bool;
  allow_network : bool;
}.
Record PolicySelection := mk_selection {
  ps_policy : SandboxPolicy;
  ps_ceiling : option SandboxPolicy;
  ps_source : string;
}.
Definition enabled (p : InvocationPermissions) : bool :=
  negb (bool_decide (allow_read p = [])) || negb (bool_decide (allow_write p = [])) ||
  negb (bool_decide (allow_env p = [])) || allow_subprocess p || allow_network p.
Definition selected (requested configured : list string) : list string :=
  if bool_decide (requested = []) then configured else requested.
Definition select (p : InvocationPermissions) (config : RunConfig) (script : string) :
    config_result PolicySelection :=
  let '(ceiling, source) :=
    match exact_profile config script with
    | Some profile => (Some profile, "script-profile")
    | None => match configured_defaults config with
              | Some defaults => (Some defaults, "configured-defaults")
              | None => (None, "invocation-baseline")
              end
    end in
  no_grants ← FilesystemPolicy_new [] [];
  baseline ← new_with_assurance Required Restricted no_grants false [] false no_limits;
  let base := default baseline ceiling in
  filesystem ← FilesystemPolicy_new
                 (selected (allow_read p) (fp_read (sp_filesystem base)))
                 (selected (allow_write p) (fp_write (sp_filesystem base)));
  policy ← new_with_assurance (sp_mode base) (sp_assurance base) filesystem
             (allow_network p || sp_network base)
             (selected (allow_env p) (sp_environment base))
             (allow_subprocess p || sp_subprocess base)
             (sp_limits base);
  Ok (mk_selection policy ceiling source).
