(* ===== verification/RunnerConfigThm.v ===== *)
(** * tapid-runner: what a parsed configuration guarantees

    A configuration is the overlay of its layers and nothing else, it is accepted exactly
    when every layer is well formed, and an invocation is granted no more than it asked for
    or its profile allows. *)
From S2P Require Import Prelude Order RustStr Policy RunnerConfig.

(** ** Portable paths *)
Definition plain_component (part : string) : Prop :=
  part ≠ "" ∧ part ≠ "." ∧ part ≠ ".." ∧ ends_with_any ["."; " "]%char part = false ∧
  chars_any forbidden_char part = false ∧ is_windows_reserved_component part = false.
Definition portable (value : string) : Prop := value = "." ∨ Forall plain_component (split "/" value).

Lemma existsb_elem_false {A} (f : A → bool) (l : list A) : existsb f l = false ↔ ∀ x, x ∈ l → f x = false.
Proof.
  rewrite <-not_true_iff_false, existsb_elem. setoid_rewrite <-not_true_iff_false. naive_solver.
Qed.
Lemma ensure_then {E B} b (e : E) (k : result E B) r : (_ ← ensure b e; k) = Ok r ↔ b = true ∧ k = Ok r.
Proof. destruct b; naive_solver. Qed.
Lemma str_eqb_false s t : str_eqb s t = false ↔ s ≠ t.
Proof. apply bool_decide_eq_false. Qed.
Lemma invalid_component_false value part : value ≠ "." →
  invalid_component value part = false ↔ plain_component part.
Proof.
  intros Hv%str_eqb_false. unfold invalid_component, plain_component. rewrite Hv. cbn [negb].
  rewrite andb_true_r, !orb_false_iff, andb_false_iff, negb_false_iff, str_eqb_true, !str_eqb_false.
  assert (is_empty part = false ↔ part ≠ "") as -> by (by destruct part).
  tauto.
Qed.
Lemma portable_chars value : Forall plain_component (split "/" value) → chars_any forbidden_char value = false.
Proof.
  intros Hall. rewrite <-(join_split "/" value), chars_any_join by done.
  apply existsb_elem_false. intros part Hin. rewrite Forall_forall in Hall.
  destruct (Hall _ Hin) as (_&_&_&_&Hf&_). done.
Qed.
Lemma chars_any_byte f c x y : byte_is_ascii c = true → f (code c) = true → chars_any f (x +:+ String c y) = true.
Proof. intros Hc Hf. rewrite chars_any_app by done. rewrite Hf. by rewrite orb_true_r. Qed.
Lemma portable_not_windows value : Forall plain_component (split "/" value) → windows_absolute value = false.
Proof.
  intros Hall. pose proof (portable_chars _ Hall) as Hc. unfold windows_absolute, starts_with_char, str_get.
  destruct value as [|a value]; [done|]. rewrite !orb_false_iff. split_and!.
  - apply not_true_iff_false. intros E%ascii_eqb_true.
    subst a. pose proof (chars_any_byte forbidden_char "\" "" value eq_refl eq_refl) as E'. rewrite ?app_cons, app_nil_l' in E'. congruence.
  - apply not_true_iff_false. intros E%ascii_eqb_true. subst a. cbn in Hall.
    apply Forall_cons in Hall as [[? _] _]. done.
  - destruct value as [|b value]; [done|]. simpl. apply andb_false_iff. left.
    apply not_true_iff_false. intros E%ascii_eqb_true.
    subst b. pose proof (chars_any_byte forbidden_char ":" (String a "") value eq_refl eq_refl) as E'. rewrite ?app_cons, app_nil_l' in E'. congruence.
Qed.
Lemma later_plain part : plain_component part → later_component part = Some (Normal part).
Proof.
  intros (H1&H2&H3&_). unfold later_component, str_eqb. by rewrite !bool_decide_eq_false_2.
Qed.
Lemma omap_plain parts : Forall plain_component parts → omap later_component parts = Normal <$> parts.
Proof.
  induction 1 as [|part parts Hp _ IH]; [done|]. cbn. rewrite later_plain by done. by f_equal.
Qed.
Lemma plain_relative value : Forall plain_component (split "/" value) → path_is_absolute value = false.
Proof.
  destruct value as [|a value]; [done|]. unfold path_is_absolute, starts_with_char. intros Hall.
  apply not_true_iff_false. intros E%ascii_eqb_true. subst a. cbn in Hall. apply Forall_cons in Hall as [[? _] _]. done.
Qed.
(** The components of an accepted path: it never leaves the directory it is joined to. *)
Lemma portable_components value : portable value →
  path_components value = [CurDir] ∨ path_components value = Normal <$> split "/" value.
Proof.
  intros [->|Hall]; [by left|]. right. unfold path_components. rewrite plain_relative by done.
  pose proof (omap_plain _ Hall) as E. destruct (split "/" value) as [|first rest]; [done|].
  apply Forall_cons in Hall as [(_&H2&_) _]. apply str_eqb_false in H2. by rewrite H2.
Qed.
Lemma validate_project_path_Ok value : validate_project_path value = Ok () ↔ portable value.
Proof.
  destruct (decide (value = ".")) as [->|Hv]; [split; [by left|done]|].
  unfold validate_project_path. cbv zeta. rewrite ensure_Ok, negb_true_iff, !orb_false_iff. split.
  - intros ((((_&_)&_)&Hc)&_). right. apply Forall_forall. intros part Hin.
    apply (invalid_component_false value); [done|]. rewrite existsb_elem_false in Hc. auto.
  - intros [?|Hall]; [done|]. split_and!.
    + destruct value; [|done]. apply Forall_cons in Hall as [[? _] _]. done.
    + by apply plain_relative.
    + by apply portable_not_windows.
    + apply existsb_elem_false. intros part Hin. rewrite Forall_forall in Hall.
      apply invalid_component_false; auto.
    + destruct (portable_components value (or_intror Hall)) as [E|E]; rewrite E; [done|].
      apply existsb_elem_false. by intros c (part&->&_)%list_elem_of_fmap.
Qed.

(** ** Well-formed policies *)
Definition grant_ok (path : string) : Prop := (str_len path <= MAX_STRING_BYTES)%Z ∧ portable path.
Definition grants_ok (fs : FilesystemPolicy) : Prop :=
  (len (fp_read fs) + len (fp_write fs) <= MAX_GRANT_COUNT)%Z ∧ Forall grant_ok (fp_read fs ++ fp_write fs).
(** A letter or underscore, then letters, digits and underscores. *)
Definition environment_name (name : string) : Prop :=
  ∃ c rest, name = String c rest ∧ is_name_start c = true ∧ str_forallb is_name_rest rest = true.
Definition environment_ok (environment : list string) : Prop :=
  (len environment <= MAX_ENVIRONMENT_COUNT)%Z ∧
  Forall (λ name, str_len name <= MAX_STRING_BYTES ∧ environment_name name)%Z environment.
Definition limits_ok (l : ExecutionLimits) : Prop :=
  timeout_seconds l ≠ Some 0%Z ∧ max_output_bytes l ≠ Some 0%Z ∧
  max_processes l ≠ Some 0%Z ∧ max_memory_bytes l ≠ Some 0%Z.
Definition policy_ok (p : SandboxPolicy) : Prop :=
  grants_ok (sp_filesystem p) ∧ environment_ok (sp_environment p) ∧ limits_ok (sp_limits p).

Lemma validate_string_length_Ok what value :
  validate_string_length what value = Ok () ↔ (str_len value <= MAX_STRING_BYTES)%Z.
Proof. unfold validate_string_length. by rewrite ensure_Ok, Z.leb_le. Qed.
Lemma validate_grant_Ok path : validate_grant path = Ok () ↔ grant_ok path.
Proof.
  unfold validate_grant, grant_ok. rewrite bind_Ok, <-validate_project_path_Ok, <-(validate_string_length_Ok "filesystem grant").
  split; [intros ([]&?&?); auto|]. intros [H1 H2]. by exists ().
Qed.
Lemma validate_environment_name_Ok name : validate_environment_name name = Ok () ↔ environment_name name.
Proof.
  unfold validate_environment_name, environment_name. rewrite ensure_Ok.
  destruct name as [|c rest]; [naive_solver|]. rewrite andb_true_iff. naive_solver.
Qed.
Lemma validate_environment_Ok environment : validate_environment environment = Ok () ↔ environment_ok environment.
Proof.
  assert (∀ name, validate_environment_entry name = Ok () ↔
    (str_len name <= MAX_STRING_BYTES)%Z ∧ environment_name name) as He.
  { intros name. unfold validate_environment_entry. rewrite bind_Ok, <-validate_environment_name_Ok,
      <-(validate_string_length_Ok "environment variable name").
    split; [intros ([]&?&?); auto|]. intros [H1 H2]. by exists (). }
  unfold validate_environment, environment_ok. rewrite Forall_forall. split.
  - intros H. run_ok H. rewrite for_each_Ok in H. apply negb_true_iff, Z.ltb_ge in H0.
    split; [done|]. intros name Hin. by apply He, H.
  - intros [Hn Hall]. rewrite bind_Ok. exists (). rewrite ensure_Ok, negb_true_iff, Z.ltb_ge. split; [done|].
    apply for_each_Ok. intros name Hin. by apply He, Hall.
Qed.
Lemma FilesystemPolicy_new_Ok read write fs :
  FilesystemPolicy_new read write = Ok fs ↔ fs = mk_filesystem read write ∧ grants_ok fs.
Proof.
  unfold FilesystemPolicy_new, u64_saturating_add. split.
  - intros H. run_ok H. injection H as <-. rewrite for_each_Ok in H1. split; [done|]. split; simpl.
    + apply negb_true_iff, Z.ltb_ge in H0. unfold MAX_GRANT_COUNT, u64_max in *. lia.
    + apply Forall_forall. intros path Hin. by apply validate_grant_Ok, H1.
  - intros [-> [Hn Hall]]. simpl in *. rewrite bind_Ok. exists (). rewrite ensure_Ok. split.
    + apply negb_true_iff, Z.ltb_ge. unfold MAX_GRANT_COUNT in *. lia.
    + rewrite bind_Ok. exists (). rewrite for_each_Ok. split; [|done].
      intros path Hin. rewrite Forall_forall in Hall. by apply validate_grant_Ok, Hall.
Qed.
Lemma nonzero_Ok name value value' : nonzero name value = Ok value' ↔ value' = value ∧ value ≠ Some 0%Z.
Proof. unfold nonzero. case_bool_decide; naive_solver. Qed.
Lemma ExecutionLimits_new_Ok t o p m l :
  ExecutionLimits_new t o p m = Ok l ↔ l = mk_limits t o p m ∧ limits_ok l.
Proof.
  unfold ExecutionLimits_new, limits_ok. split.
  - intros H. run_ok H. rewrite !nonzero_Ok in *. naive_solver.
  - intros [-> (?&?&?&?)]. simpl in *. unfold nonzero. by rewrite !bool_decide_eq_false_2.
Qed.
Lemma new_with_assurance_Ok mode assurance fs network environment subprocess limits p :
  new_with_assurance mode assurance fs network environment subprocess limits = Ok p ↔
  p = mk_sandbox mode assurance fs network environment subprocess limits ∧ environment_ok environment.
Proof.
  unfold new_with_assurance. rewrite bind_Ok. rewrite <-validate_environment_Ok.
  split; [intros ([]&?&[= <-]); auto|]. intros [-> ?]. by exists ().
Qed.
Lemma default_policy_ok : policy_ok default_policy.
Proof.
  split_and!; [|split; [done|constructor]|split_and!; done].
  split; [done|]. simpl. forall_list. split; [done|by left].
Qed.

(** ** Configurations as overlays *)
Definition overlay (base : SandboxPolicy) (raw : RawProfile) : SandboxPolicy :=
  let limits := sp_limits base in
  mk_sandbox (sp_mode base) (default (sp_assurance base) (raw_assurance raw))
    (mk_filesystem (default (fp_read (sp_filesystem base)) (raw_read raw))
                   (default (fp_write (sp_filesystem base)) (raw_write raw)))
    (default (sp_network base) (raw_network raw))
    (default (sp_environment base) (raw_environment raw))
    (default (sp_subprocess base) (raw_subprocess raw))
    (mk_limits (or_else (raw_timeout_seconds raw) (timeout_seconds limits))
               (or_else (raw_max_output_bytes raw) (max_output_bytes limits))
               (or_else (raw_max_processes raw) (max_processes limits))
               (or_else (raw_max_memory_bytes raw) (max_memory_bytes limits))).
Definition processes_fit (raw : RawProfile) : Prop :=
  ∀ n, raw_max_processes raw = Some n → (n <= u32_max)%Z.

Lemma processes_limit_Ok raw inherited p :
  processes_limit raw inherited = Ok p ↔ p = or_else raw inherited ∧ ∀ n, raw = Some n → (n <= u32_max)%Z.
Proof.
  unfold processes_limit. destruct raw as [n|]; simpl; [|naive_solver].
  destruct (Z.leb_spec n u32_max); [naive_solver|]. split; [done|]. intros [_ H']. specialize (H' _ eq_refl). lia.
Qed.
Lemma apply_profile_Ok base raw p : policy_ok base →
  apply_profile base raw = Ok p ↔ p = overlay base raw ∧ processes_fit raw ∧ policy_ok p.
Proof.
  intros (_&He&_). unfold apply_profile. cbv zeta.
  assert (∀ e, match raw_environment raw with
                | Some environment => _ ← validate_environment environment; Ok environment
                | None => Ok (sp_environment base)
                end = Ok e ↔ e = default (sp_environment base) (raw_environment raw) ∧ environment_ok e) as Henv.
  { intros e. destruct (raw_environment raw); simpl; [|naive_solver]. rewrite bind_Ok, <-validate_environment_Ok.
    split; [intros ([]&?&[= <-]); auto|]. intros [-> ?]. by exists (). }
  split.
  - intros H. run_ok H. apply FilesystemPolicy_new_Ok in H0 as [-> ?]. apply Henv in H1 as [-> ?].
    apply processes_limit_Ok in H2 as [-> ?]. apply ExecutionLimits_new_Ok in H3 as [-> ?].
    injection H as <-. split; [done|]. split; [done|]. by split_and!.
  - intros (->&?&?&?&?). rewrite bind_Ok. eexists. rewrite FilesystemPolicy_new_Ok. split; [by split|].
    rewrite bind_Ok. eexists. rewrite Henv. split; [by split|].
    rewrite bind_Ok. eexists. rewrite processes_limit_Ok. split; [by split|].
    rewrite bind_Ok. eexists. rewrite ExecutionLimits_new_Ok. by split.
Qed.

(** The defaults of a document, and when it is accepted. *)
Definition document_defaults (root : ConfigDocument) : SandboxPolicy :=
  overlay default_policy (default empty_profile (rs_defaults (cd_run root))).
Definition document_ok (root : ConfigDocument) : Prop :=
  let scripts := rs_scripts (cd_run root) in
  (Z.of_nat (size scripts) <= MAX_PROFILE_COUNT)%Z ∧
  (∀ name raw, scripts !! name = Some raw → (str_len name <= MAX_STRING_BYTES)%Z) ∧
  processes_fit (default empty_profile (rs_defaults (cd_run root))) ∧
  policy_ok (document_defaults root) ∧
  ∀ name raw, scripts !! name = Some raw → processes_fit raw ∧ policy_ok (overlay (document_defaults root) raw).
Definition document_config (root : ConfigDocument) : RunConfig :=
  mk_run_config (document_defaults root) (bool_decide (is_Some (rs_defaults (cd_run root))))
    (overlay (document_defaults root) <$> rs_scripts (cd_run root)).

Lemma profiles_Ok defaults (m : gmap string RawProfile) k : policy_ok defaults →
  try_map (λ entry : string * RawProfile, policy ← apply_profile defaults entry.2; Ok (entry.1, policy)) (btree_iter m) = Ok k ↔
  k = btree_iter (overlay defaults <$> m) ∧
  ∀ name raw, m !! name = Some raw → processes_fit raw ∧ policy_ok (overlay defaults raw).
Proof.
  intros Hd. rewrite btree_iter_fmap, try_map_Ok.
  assert (∀ (entry : string * RawProfile) (y : string * SandboxPolicy), (policy ← apply_profile defaults entry.2; Ok (entry.1, policy)) = Ok y ↔
    y = (entry.1, overlay defaults entry.2) ∧ processes_fit entry.2 ∧ policy_ok (overlay defaults entry.2)) as Hstep.
  { intros [name raw] y. cbn [fst snd]. rewrite bind_Ok. split.
    - intros (p&Hp&[= <-]). apply apply_profile_Ok in Hp as (->&?&?); auto.
    - intros (->&?&?). exists (overlay defaults raw). by rewrite apply_profile_Ok. }
  assert (∀ (l : list (string * RawProfile)) k,
    Forall2 (λ entry y, (policy ← apply_profile defaults entry.2; Ok (entry.1, policy)) = Ok y) l k ↔
    k = ((λ kv, (kv.1, overlay defaults kv.2)) <$> l) ∧
    ∀ entry, entry ∈ l → processes_fit entry.2 ∧ policy_ok (overlay defaults entry.2)) as Hall.
  { intros l. induction l as [|x l IH]; intros k'.
    - split; [intros ->%Forall2_nil_inv_l; split; [done|by intros ? ?%not_elem_of_nil]|by intros [-> _]].
    - split.
      + intros (y&k''&(->&?)%Hstep&(->&?)%IH&->)%Forall2_cons_inv_l. split; [done|].
        intros e [-> |?]%elem_of_cons; auto.
      + intros [-> H]. cbn. constructor; [apply Hstep; split; [done|apply H; by left]|]. apply IH. split; [done|].
        intros; apply H; by right. }
  rewrite Hall. split; intros [-> H]; (split; [done|]).
  - intros name raw Hin%elem_of_btree_iter. by apply (H (name, raw)).
  - intros [name raw] Hin%elem_of_btree_iter. by apply (H name raw).
Qed.
Lemma run_config_of_Ok root config :
  run_config_of root = Ok config ↔ document_ok root ∧ config = document_config root.
Proof.
  unfold run_config_of, document_ok, document_config. cbv zeta. split.
  - intros H. run_ok H. apply negb_true_iff, Z.ltb_ge in H0. rewrite for_each_Ok in H1.
    apply apply_profile_Ok in H2 as (->&?&?); [|apply default_policy_ok].
    apply profiles_Ok in H3 as (->&?); [|done]. injection H as <-. rewrite btree_collect_iter.
    split_and!; [done| |done..|].
    + intros name raw Hin. apply (validate_string_length_Ok "script profile name"), H1, elem_of_btree_keys. eauto.
    + f_equal. by destruct (rs_defaults _).
  - intros ((Hn&Hs&Hf&Hd&Hall)&->). rewrite bind_Ok. exists ().
    rewrite ensure_Ok, negb_true_iff, Z.ltb_ge. split; [done|]. rewrite bind_Ok. exists (). split.
    + apply for_each_Ok. intros name [raw Hin]%elem_of_btree_keys. apply validate_string_length_Ok. eauto.
    + rewrite bind_Ok. eexists. rewrite apply_profile_Ok by apply default_policy_ok. split; [by split_and!|].
      rewrite bind_Ok. eexists. rewrite profiles_Ok by done. split; [by split|]. f_equal.
      rewrite btree_collect_iter. f_equal. by destruct (rs_defaults _).
Qed.

(** ** What a caller may rely on *)
Definition config_ok (config : RunConfig) : Prop :=
  (policy_ok (rc_defaults config) ∧ sp_mode (rc_defaults config) = Required) ∧
  ∀ script p, rc_scripts config !! script = Some p → policy_ok p ∧ sp_mode p = Required.
Lemma document_config_ok root : document_ok root → config_ok (document_config root).
Proof.
  intros (_&_&_&Hd&Hs). split; [by split|]. intros script p (raw&<-&Hraw)%lookup_fmap_Some.
  split; [|done]. by apply (Hs script).
Qed.
(** The ceiling a configuration puts on one script. *)
Definition ceiling_for (config : RunConfig) (script : string) : option SandboxPolicy :=
  match exact_profile config script with
  | Some profile => Some profile
  | None => configured_defaults config
  end.
Definition restricted_baseline : SandboxPolicy :=
  mk_sandbox Required Restricted (mk_filesystem [] []) false [] false no_limits.
Lemma baseline_ok : policy_ok restricted_baseline.
Proof. split_and!; [|split; [done|constructor]|split_and!; done]. split; [done|constructor]. Qed.
Lemma ceiling_ok config script p : config_ok config → ceiling_for config script = Some p → policy_ok p ∧ sp_mode p = Required.
Proof.
  intros [Hd Hs]. unfold ceiling_for, exact_profile, configured_defaults.
  destruct (rc_scripts config !! script) as [profile|] eqn:E; [intros [= <-]; eauto|].
  destruct (rc_explicit_defaults config); [by intros [= <-]|done].
Qed.
(** The policy an invocation asks for, on top of the one it starts from. *)
Definition requested_policy (p : InvocationPermissions) (base : SandboxPolicy) : SandboxPolicy :=
  mk_sandbox (sp_mode base) (sp_assurance base)
    (mk_filesystem (selected (allow_read p) (fp_read (sp_filesystem base)))
                   (selected (allow_write p) (fp_write (sp_filesystem base))))
    (allow_network p || sp_network base) (selected (allow_env p) (sp_environment base))
    (allow_subprocess p || sp_subprocess base) (sp_limits base).
Lemma select_Ok p config script s : config_ok config →
  select p config script = Ok s ↔
  let base := default restricted_baseline (ceiling_for config script) in
  ps_policy s = requested_policy p base ∧ policy_ok (ps_policy s) ∧
  ps_ceiling s = ceiling_for config script ∧
  ps_source s = match exact_profile config script, configured_defaults config with
                | Some _, _ => "script-profile"
                | None, Some _ => "configured-defaults"
                | None, None => "invocation-baseline"
                end.
Proof.
  intros Hc. unfold select, ceiling_for.
  set (cs := match exact_profile config script with Some _ => _ | None => _ end).
  assert (cs = (ceiling_for config script, match exact_profile config script, configured_defaults config with
    | Some _, _ => "script-profile" | None, Some _ => "configured-defaults" | None, None => "invocation-baseline" end)) as ->.
  { unfold cs, ceiling_for. by destruct (exact_profile config script), (configured_defaults config). }
  assert (FilesystemPolicy_new [] [] = Ok (mk_filesystem [] [])) as -> by done. cbn [mbind result_bind].
  assert (new_with_assurance Required Restricted (mk_filesystem [] []) false [] false no_limits = Ok restricted_baseline)
    as -> by done. cbn [mbind result_bind].
  fold (ceiling_for config script). set (base := default restricted_baseline _).
  assert (policy_ok base) as Hb.
  { unfold base. destruct (ceiling_for config script) eqn:E; [|apply baseline_ok]. by eapply ceiling_ok in E as [??]. }
  destruct s as [policy ceiling source]. simpl. split.
  - intros H. run_ok H. apply FilesystemPolicy_new_Ok in H0 as [-> ?]. apply new_with_assurance_Ok in H1 as [-> ?].
    injection H as <- <- <-. split; [done|]. split; [|done]. split; [done|]. split; [done|apply Hb].
  - intros (->&(?&?&?)&->&->). rewrite bind_Ok. eexists. rewrite FilesystemPolicy_new_Ok. split; [by split|].
    rewrite bind_Ok. eexists. rewrite new_with_assurance_Ok. by split.
Qed.

Section parsed.
Context `{TC : TomlConfig}.

(** C27: a run configuration is accepted exactly when its document is: at most 1 MiB of valid
    UTF-8 that the TOML parser accepts, at most 256 script profiles with names of at most 255
    bytes, process limits that fit 32 bits, and defaults and profiles that are well-formed once
    laid over what they inherit (portable project-relative grants, valid environment names, no
    zero limit, the counts).  The configuration is then exactly the overlay of the built-in
    defaults, the [defaults] table and the script's own table, field by field. *)
Theorem configuration_is_overlay input config :
  parse_toml_bytes input = Ok config ↔
  (str_len input <= MAX_CONFIG_BYTES)%Z ∧ utf8_valid input = true ∧
  ∃ root, toml_config input = Ok root ∧ document_ok root ∧ config = document_config root.
Proof.
  unfold parse_toml_bytes. split.
  - intros H. run_ok H. apply negb_true_iff, Z.ltb_ge in H0. apply run_config_of_Ok in H as [? ->]. split_and!; [done..|]. by exists x1.
  - intros (Hlen&Hutf&root&Hroot&?&->). rewrite bind_Ok. exists (). rewrite ensure_Ok, negb_true_iff, Z.ltb_ge.
    split; [done|]. rewrite bind_Ok. exists (). rewrite ensure_Ok. split; [done|].
    rewrite Hroot. simpl. by apply run_config_of_Ok.
Qed.

Lemma parsed_config_ok input config : parse_toml_bytes input = Ok config → config_ok config.
Proof.
  unfold parse_toml_bytes. intros H. run_ok H. apply run_config_of_Ok in H as [? ->]. by apply document_config_ok.
Qed.

(** C14: an invocation's permissions never give more than was asked for or configured, and never
    turn containment off.  The policy selected for a script of a parsed configuration is in
    [Required] mode and well-formed; every grant names the project root or a path under it,
    every one of its components a plain name; each grant and environment name was requested on
    the command line or stands in the ceiling, network and subprocess access likewise; the
    resource limits are the ceiling's; and with no profile and no configured defaults nothing is
    granted that was not requested. *)
Theorem invocation_grants_no_more input config p script s :
  parse_toml_bytes input = Ok config → select p config script = Ok s →
  let policy := ps_policy s in
  let ceiling := default restricted_baseline (ps_ceiling s) in
  ps_ceiling s = ceiling_for config script ∧ sp_mode policy = Required ∧ policy_ok policy ∧
  (∀ path, path ∈ fp_read (sp_filesystem policy) ++ fp_write (sp_filesystem policy) →
     path_components path = [CurDir] ∨ path_components path = Normal <$> split "/" path) ∧
  (∀ path, path ∈ fp_read (sp_filesystem policy) →
     path ∈ allow_read p ∨ path ∈ fp_read (sp_filesystem ceiling)) ∧
  (∀ path, path ∈ fp_write (sp_filesystem policy) →
     path ∈ allow_write p ∨ path ∈ fp_write (sp_filesystem ceiling)) ∧
  (∀ name, name ∈ sp_environment policy → name ∈ allow_env p ∨ name ∈ sp_environment ceiling) ∧
  (sp_network policy = true → allow_network p = true ∨ sp_network ceiling = true) ∧
  (sp_subprocess policy = true → allow_subprocess p = true ∨ sp_subprocess ceiling = true) ∧
  sp_limits policy = sp_limits ceiling ∧ sp_assurance policy = sp_assurance ceiling.
Proof.
  intros Hc%parsed_config_ok Hs. pose proof Hs as (Hp&Hok&Hcl&_)%select_Ok; [|done]. cbv zeta. rewrite Hcl, Hp in *.
  set (base := default restricted_baseline _) in *.
  assert (sp_mode base = Required) as Hm.
  { unfold base. destruct (ceiling_for config script) eqn:E; [|done]. by eapply ceiling_ok in E as [??]. }
  assert (∀ requested configured path, path ∈ selected requested configured → path ∈ requested ∨ path ∈ configured) as Hsel.
  { intros requested configured path. unfold selected. case_bool_decide; auto. }
  split_and!; simpl; [done..| | | | | | |done|done]; [|eauto..|by intros ?%orb_true_iff|by intros ?%orb_true_iff].
  intros path Hin. destruct Hok as ((_&Hg)&_). rewrite Forall_forall in Hg. apply portable_components, Hg, Hin.
Qed.
End parsed.

(** A document with defaults and one profile. *)
Definition sample_profile : RawProfile :=
  mk_profile None None (Some ["dist/out"]) (Some true) (Some ["NODE_ENV"]) None None (Some 4096%Z) (Some 4%Z) None.
Definition sample_defaults : RawProfile :=
  mk_profile (Some Restricted) (Some ["."; "fixtures"]) None None None None (Some 30%Z) None None None.
Definition sample_document : ConfigDocument :=
  mk_document (mk_section (Some sample_defaults) {["build" := sample_profile]}).
Definition sample_toml : TomlConfig := {| toml_config _ := Ok sample_document |}.
Definition sample_permissions : InvocationPermissions := mk_permissions ["src"] [] ["CI"] true false.
Definition sample_config : RunConfig :=
  match @parse_toml_bytes sample_toml "" with Ok config => config | Err _ => mk_run_config default_policy false ∅ end.
Definition sample_selection : PolicySelection :=
  match select sample_permissions sample_config "build" with Ok s => s | Err _ => mk_selection default_policy None "" end.
Lemma sample_parsed : @parse_toml_bytes sample_toml "" = Ok sample_config.
Proof. vm_compute. reflexivity. Qed.
Lemma sample_selected : select sample_permissions sample_config "build" = Ok sample_selection.
Proof. vm_compute. reflexivity. Qed.

Lemma invocation_grants_no_more_witness : sp_mode (ps_policy sample_selection) = Required.
Proof.
  destruct (@invocation_grants_no_more sample_toml "" sample_config sample_permissions "build" sample_selection
    sample_parsed sample_selected) as (_&H&_). exact H.
Defined.
Example selected_policy :
  ps_policy sample_selection =
  mk_sandbox Required Restricted (mk_filesystem ["src"] ["dist/out"]) true ["CI"] true
    (mk_limits (Some 30%Z) (Some 4096%Z) (Some 4%Z) None).
Proof. vm_compute. reflexivity. Qed.
Example outside_is_refused : FilesystemPolicy_new ["../outside"] [] = Err (mk_config_error InvalidPath (NotPortable "../outside")).
Proof. vm_compute. reflexivity. Qed.
Example superscript_port_is_refused : is_ok (validate_project_path "build/com¹.txt") = false.
Proof. vm_compute. reflexivity. Qed.
