(* ===== verification/Lifecycle.v ===== *)
(** * tapid-runner: script approvals and the dependency lifecycle policy

    The plan that binds an approval to an artifact and a script
    (crates/tapid-runner/src/lib.rs), and the checked-in authorization of dependency
    installation hooks (crates/tapid-runner/src/lifecycle.rs) on a Unix host.
    [toml::from_str] with the derived [Deserialize] instances is a class parameter; SHA-256
    is the one of the archive model. *)
From S2P Require Import Prelude Order RustStr Crates Core Policy RunnerConfig.

(** ** Script approvals (lib.rs) *)
Definition carriage_return : ascii := ascii_of_N 13.
Definition crlf : string := String carriage_return (String newline_char "").
Definition lf : string := String newline_char "".
Definition normalize_script (script : string) : string :=
  trim (replace_with carriage_return lf (join lf (split_str crlf script))).

Record RunnerRequest := mk_request {
  rr_artifact_digest : string;
  rr_script : string;
  rr_unattended : bool;
  rr_os : string;
}.
Record ScriptHash := mk_script_hash { hash_str : string }.
#[export] Instance ScriptHash_eq_dec : EqDecision ScriptHash.
Proof. solve_decision. Defined.
Record Approval := mk_approval { ap_artifact_digest : string; ap_script_hash : ScriptHash }.
Inductive ValidationError :=
| ArtifactDigestMismatch
| ScriptHashMismatch
| MissingApproval
| UnsupportedSystem
| PolicyDenied
| RequestMismatch.
Record RunnerPlan := mk_plan {
  rp_policy : PolicyDecision;
  rp_approval_required : bool;
  rp_containment_available : bool;
  rp_request : RunnerRequest;
}.

Section approvals.
Context `{SH : Sha256}.

Definition normalized_script_hash (script : string) : ScriptHash :=
  mk_script_hash ("sha256-" +:+ sha256_hex (normalize_script script)).
Definition script_hash (request : RunnerRequest) : ScriptHash := normalized_script_hash (rr_script request).
Definition for_request (request : RunnerRequest) : Approval :=
  mk_approval (rr_artifact_digest request) (script_hash request).
Definition validate_approval (plan : RunnerPlan) (request : RunnerRequest) (approval : option Approval) :
    result ValidationError () :=
  _ ← ensure (str_eqb (rr_artifact_digest request) (rr_artifact_digest (rp_request plan))) ArtifactDigestMismatch;
  _ ← ensure (bool_decide (script_hash request = script_hash (rp_request plan))) ScriptHashMismatch;
  _ ← ensure (eqb (rr_unattended request) (rr_unattended (rp_request plan)) &&
              str_eqb (rr_os request) (rr_os (rp_request plan))) RequestMismatch;
  _ ← ensure (negb (bool_decide (pd_decision (rp_policy plan) = Deny))) PolicyDenied;
  match approval with
  | None => ensure (negb (rp_approval_required plan)) MissingApproval
  | Some approval =>
      _ ← ensure (str_eqb (ap_artifact_digest approval) (rr_artifact_digest request)) ArtifactDigestMismatch;
      ensure (bool_decide (ap_script_hash approval = script_hash request)) ScriptHashMismatch
  end.
Definition supported_os (os : string) : bool := bool_decide (os ∈ ["linux"; "macos"; "windows"]).
Definition plan (request : RunnerRequest) (evidence : list Evidence) : RunnerPlan :=
  let policy := from_evidence evidence (rr_unattended request) in
  let policy := if supported_os (rr_os request) then policy
                else mk_policy Deny [UnsupportedOs] (pd_evidence policy) in
  mk_plan policy (negb (bool_decide (pd_decision policy = Allow))) false request.
End approvals.

(** ** The lifecycle document (lifecycle.rs) *)
Record LifecycleTool := mk_tool { tool_name : string; tool_path : string; tool_digest : string }.
Record RawApproval := mk_raw_approval {
  ra_package : string;
  ra_version : string;
  ra_hook : string;
  ra_archive_digest : option string;
  ra_script_digest : option string;
  ra_read : option (list string);
  ra_write : option (list string);
  ra_network : option bool;
  ra_environment : option (gmap string string);
  ra_timeout_seconds : option Z;
  ra_max_output_bytes : option Z;
  ra_max_processes : option Z;
  ra_max_memory_bytes : option Z;
  ra_tools : option (list LifecycleTool);
  ra_system_toolchain : option bool;
  ra_dependencies : bool;
  ra_process_memory_stats : bool;
}.
Record LifecycleDocument := mk_lifecycle_document { ld_schema : Z; ld_approvals : list RawApproval }.
Class TomlLifecycle : Type := { toml_lifecycle : string → option LifecycleDocument }.

Record DependencyLifecycleApproval := mk_lifecycle_approval {
  la_package : string;
  la_version : string;
  la_archive_digest : string;
  la_script_digest : string;
  la_hook : string;
  la_policy : SandboxPolicy;
  la_environment : gmap string string;
  la_tools : list LifecycleTool;
  la_dependencies : bool;
  la_process_memory_stats : bool;
}.
Record DependencyLifecyclePolicy := mk_lifecycle_policy {
  lp_digest : string;
  lp_approvals : list DependencyLifecycleApproval;
}.
(** The errors are texts; those of the sandbox policy are its own. *)
Inductive LifecycleError := LifecycleText (text : string) | LifecyclePolicyError (error : ConfigError).
Notation lifecycle_result := (result LifecycleError).
Definition required {A} (text : string) (o : option A) : lifecycle_result A := ok_or (LifecycleText text) o.
Definition checked (b : bool) (text : string) : lifecycle_result () := ensure b (LifecycleText text).

Definition windows_executable_name (name : string) : string :=
  if ends_with ".exe" (to_ascii_lowercase name) then name else name +:+ ".exe".
Definition executable_name (windows : bool) (tool : LifecycleTool) : string :=
  if windows then windows_executable_name (tool_name tool) else tool_name tool.
Definition sensitive_environment (name : string) : bool :=
  let name := to_ascii_uppercase name in
  if starts_with "LD_" name || starts_with "DYLD_" name then true
  else bool_decide (name ∈ ["HOME"; "USERPROFILE"; "PATH"; "SSH_AUTH_SOCK"; "GCONV_PATH"; "GLIBC_TUNABLES";
                            "NODE_OPTIONS"; "BASH_ENV"; "ENV"]) ||
       existsb (λ part, contains_str part name)
         ["TOKEN"; "SECRET"; "PASSWORD"; "CREDENTIAL"; "AWS_"; "AZURE_"; "GOOGLE_"; "GITHUB_"; "NPM_"; "DEPLOY"].
Definition nul : ascii := ascii_of_N 0.
Definition refused_variable (entry : string * string) : bool :=
  (255 <? str_len entry.1)%Z || (4096 <? str_len entry.2)%Z || contains_char nul entry.2 || sensitive_environment entry.1.
Definition tool_byte (b : ascii) : bool :=
  byte_is_alphanumeric b || ascii_eqb b "-" || ascii_eqb b "_" || ascii_eqb b ".".
Definition check_sha256 (digest : string) : lifecycle_result () :=
  parsed ← map_err (λ _, LifecycleText "lifecycle digest must be SHA-256") (ArtifactDigest_from_str digest);
  checked (str_eqb (ArtifactDigest_display parsed) digest && starts_with "sha256-" digest)
    "lifecycle digest must be canonical SHA-256".
(** One turn of the loop over the tools: the names and the portable names seen so far. *)
Definition check_tool (seen : gset string * gset string) (tool : LifecycleTool) :
    lifecycle_result (gset string * gset string) :=
  let '(names, portable_names) := seen in
  let name := tool_name tool in
  let executable := windows_executable_name name in
  let portable := to_ascii_lowercase executable in
  _ ← checked (negb (is_empty name || (255 <? str_len name)%Z || negb (str_forallb tool_byte name) ||
                     str_eqb name "." || str_eqb name ".." || bool_decide (name ∈ names) ||
                     (255 <? str_len executable)%Z || bool_decide (portable ∈ portable_names)))
        "invalid or duplicate lifecycle tool name";
  _ ← checked (negb ((4096 <? str_len (tool_path tool))%Z || negb (path_is_absolute (tool_path tool)) ||
                     contains_char nul (tool_path tool)))
        "lifecycle tool path must be absolute";
  _ ← check_sha256 (tool_digest tool);
  Ok ({[name]} ∪ names, {[portable]} ∪ portable_names).

Section lifecycle.
Context `{SV : Semver} `{B64 : Base64} `{SH : Sha256} `{TL : TomlLifecycle}.

Definition sha256 (bytes : string) : string := "sha256-" +:+ sha256_hex bytes.
Definition identity : Type := string * string * string.
(** One turn of the loop over the approvals. *)
Definition parse_approval (state : list DependencyLifecycleApproval * gset identity) (raw : RawApproval) :
    lifecycle_result (list DependencyLifecycleApproval * gset identity) :=
  let '(approvals, identities) := state in
  _ ← checked (bool_decide (ra_hook raw ∈ ["preinstall"; "install"; "postinstall"]))
        ("unsupported dependency lifecycle hook " +:+ ra_hook raw);
  _ ← checked (bool_decide (ra_system_toolchain raw = Some true))
        "lifecycle system-toolchain = true must explicitly approve the documented read-only system runtime paths";
  _ ← map_err (λ _, LifecycleText "invalid lifecycle package name") (PackageName_from_str (ra_package raw));
  _ ← map_err (λ _, LifecycleText "lifecycle version must be exact") (PackageVersion_from_str (ra_version raw));
  archive_digest ← required "lifecycle archive-digest is required" (ra_archive_digest raw);
  canonical ← map_err (λ _, LifecycleText "lifecycle archive-digest must be SHA-512 SRI")
                (PackageIntegrity_from_str archive_digest);
  _ ← checked (str_eqb (integrity_str canonical) archive_digest) "lifecycle archive-digest must be canonical";
  script_digest ← required "lifecycle script-digest is required" (ra_script_digest raw);
  _ ← check_sha256 script_digest;
  let id := (ra_package raw, ra_version raw, ra_hook raw) in
  _ ← checked (negb (bool_decide (id ∈ identities))) "duplicate dependency lifecycle approval";
  read ← required "lifecycle read is required" (ra_read raw);
  write ← required "lifecycle write is required" (ra_write raw);
  filesystem ← map_err LifecyclePolicyError (FilesystemPolicy_new read write);
  environment ← required "lifecycle environment is required" (ra_environment raw);
  _ ← checked (negb (existsb refused_variable (btree_iter environment)))
        "dependency lifecycle environment contains a reserved or credential variable";
  timeout ← required "lifecycle timeout-seconds is required" (ra_timeout_seconds raw);
  output ← required "lifecycle max-output-bytes is required" (ra_max_output_bytes raw);
  processes ← required "lifecycle max-processes is required" (ra_max_processes raw);
  memory ← required "lifecycle max-memory-bytes is required" (ra_max_memory_bytes raw);
  limits ← map_err LifecyclePolicyError (ExecutionLimits_new (Some timeout) (Some output) (Some processes) (Some memory));
  network ← required "lifecycle network is required" (ra_network raw);
  policy ← map_err LifecyclePolicyError
             (SandboxPolicy_new Required filesystem network (btree_keys environment) true limits);
  tools ← required "lifecycle tools are required" (ra_tools raw);
  _ ← checked (negb (bool_decide (tools = []) || (64 <? len tools)%Z))
        "lifecycle tools must contain between 1 and 64 executables";
  seen ← try_fold check_tool (∅, ∅) tools;
  _ ← checked (bool_decide ("sh" ∈ seen.1) || bool_decide ("cmd" ∈ seen.1)) "lifecycle tools must pin sh or cmd";
  let approval := mk_lifecycle_approval (ra_package raw) (ra_version raw) archive_digest script_digest (ra_hook raw)
                    policy environment tools (ra_dependencies raw) (ra_process_memory_stats raw) in
  Ok (approvals ++ [approval], {[id]} ∪ identities).

Definition denied_lifecycle : DependencyLifecyclePolicy :=
  mk_lifecycle_policy (sha256 "tapid-lifecycle-denied-v1") [].
Definition parse_lifecycle (bytes : string) : lifecycle_result DependencyLifecyclePolicy :=
  _ ← checked (negb (MAX_CONFIG_BYTES <? str_len bytes)%Z) "dependency lifecycle policy exceeds 1 MiB";
  _ ← checked (utf8_valid bytes) "dependency lifecycle policy must be UTF-8";
  document ← required "invalid dependency lifecycle policy" (toml_lifecycle bytes);
  _ ← checked (negb (negb (ld_schema document =? 1)%Z || (MAX_PROFILE_COUNT <? len (ld_approvals document))%Z))
        "unsupported dependency lifecycle policy schema or too many approvals";
  state ← try_fold parse_approval ([], ∅) (ld_approvals document);
  Ok (mk_lifecycle_policy (sha256 bytes) state.1).

Definition validate_script (a : DependencyLifecycleApproval) (script : string) : lifecycle_result () :=
  checked (str_eqb (la_script_digest a) (sha256 script)) "dependency lifecycle script digest does not match approval".
Definition approval_mismatch (package version hook : string) : string :=
  "dependency lifecycle approval does not match version/archive for " +:+ package +:+ "@" +:+ version +:+ " " +:+ hook.
Definition approval_for (p : DependencyLifecyclePolicy) (package version archive_digest hook script : string) :
    lifecycle_result (option DependencyLifecycleApproval) :=
  let candidates := base.filter (λ a, la_package a = package ∧ la_hook a = hook) (lp_approvals p) in
  match candidates with
  | [] => Ok None
  | _ =>
      approval ← required (approval_mismatch package version hook)
                   (head (base.filter (λ a, la_version a = version) candidates));
      _ ← checked (negb (negb (str_eqb (la_version approval) version) ||
                         negb (str_eqb (la_archive_digest approval) archive_digest)))
            (approval_mismatch package version hook);
      _ ← validate_script approval script;
      Ok (Some approval)
  end.

(** [(value.len() as u64).to_le_bytes()] *)
Fixpoint le_bytes (width : nat) (n : Z) : string :=
  match width with
  | O => ""
  | S width => String (ascii_of_N (Z.to_N (n mod 256))) (le_bytes width (n / 256))
  end.
Definition framed (value : string) : string := le_bytes 8 (str_len value mod 2 ^ 64) +:+ value.
Definition derived_inputs (p : DependencyLifecyclePolicy) (a : DependencyLifecycleApproval) (toolchain graph : string) :
    list string :=
  ["tapid-derived-lifecycle-v1"; la_package a; la_version a; la_archive_digest a; lp_digest p; la_hook a;
   la_script_digest a; toolchain; graph].
Definition derived_key (p : DependencyLifecyclePolicy) (a : DependencyLifecycleApproval) (toolchain graph : string) : string :=
  sha256 (String.concat "" (framed <$> derived_inputs p a toolchain graph)).
End lifecycle.
