(* ===== verification/LifecycleThm.v ===== *)
(** * tapid-runner: what an approval authorizes

    An approval of a script cannot override a denial, a lifecycle policy is accepted only
    with complete and unambiguous approvals, an approval authorizes one script of one
    archive, and the key of a derived output determines everything it was derived from. *)
From S2P Require Import Prelude Order RustStr Crates Samples Core Policy RunnerConfig RunnerConfigThm Lifecycle.

(** ** Script approvals *)
Section plans.
Context `{SH : Sha256}.

Lemma plan_allowed request evidence :
  pd_decision (rp_policy (plan request evidence)) ≠ Deny ↔
  rr_os request ∈ ["linux"; "macos"; "windows"] ∧ ¬ denied evidence (rr_unattended request).
Proof.
  unfold plan, supported_os. rewrite denied_guard. case_bool_decide; simpl; [|naive_solver].
  unfold from_evidence. destruct (existsb is_ambiguous evidence), (rr_unattended request), (existsb needs_prompt evidence), (existsb declares_network evidence);
    simpl; naive_solver.
Qed.
Lemma plan_unprompted request evidence : pd_decision (rp_policy (plan request evidence)) ≠ Deny →
  rp_approval_required (plan request evidence) = false ↔
  ∀ e, e ∈ evidence → ¬ (evidence_kind e = KDeclared ∧ evidence_capability e = Network).
Proof.
  assert (existsb declares_network evidence = false ↔
    ∀ e, e ∈ evidence → ¬ (evidence_kind e = KDeclared ∧ evidence_capability e = Network)) as <-.
  { rewrite existsb_elem_false. unfold declares_network. setoid_rewrite andb_false_iff.
    setoid_rewrite bool_decide_eq_false. split; intros H e He; specialize (H e He); [tauto|].
    destruct (decide (evidence_kind e = KDeclared)); tauto. }
  unfold plan. cbn. destruct (supported_os _); simpl; [|done]. unfold from_evidence.
  destruct (existsb is_ambiguous evidence), (rr_unattended request), (existsb needs_prompt evidence), (existsb declares_network evidence); simpl; naive_solver.
Qed.

(** Validating an approval against a plan succeeds exactly when the request is the planned
    one (artifact, normalized script, attendance and operating system), the plan is not denied
    (a supported system, no ambiguous evidence, nothing to prompt for in an unattended session),
    and the approval given names that artifact and script, or none is given and the evidence
    declares no network access.  In particular no approval overrides a denial, and an approval
    of another script or artifact is refused. *)
Theorem approval_authorizes request evidence request' approval :
  validate_approval (plan request evidence) request' approval = Ok () ↔
  (rr_artifact_digest request' = rr_artifact_digest request ∧ script_hash request' = script_hash request ∧
   rr_unattended request' = rr_unattended request ∧ rr_os request' = rr_os request) ∧
  rr_os request ∈ ["linux"; "macos"; "windows"] ∧ ¬ denied evidence (rr_unattended request) ∧
  match approval with
  | Some a => a = for_request request
  | None => ∀ e, e ∈ evidence → ¬ (evidence_kind e = KDeclared ∧ evidence_capability e = Network)
  end.
Proof.
  unfold validate_approval. rewrite !ensure_then. cbn [rp_request plan].
  rewrite !str_eqb_true, andb_true_iff, eqb_true_iff, str_eqb_true, negb_true_iff, bool_decide_eq_true, bool_decide_eq_false.
  destruct (decide (pd_decision (rp_policy (plan request evidence)) = Deny)) as [Hd|Hd].
  { pose proof (plan_allowed request evidence). naive_solver. }
  pose proof Hd as [Hos Hden]%plan_allowed.
  destruct approval as [[digest hash]|].
  - rewrite ensure_then, ensure_Ok, str_eqb_true, bool_decide_eq_true. unfold for_request. cbn. split.
    + intros (->&->&[-> ->]&_&->&->). by split_and!.
    + intros ((->&->&->&->)&_&_&[= -> ->]). by split_and!.
  - rewrite ensure_Ok, negb_true_iff, plan_unprompted by done. split.
    + intros (->&->&[-> ->]&_&?). by split_and!.
    + intros ((->&->&->&->)&_&_&?). by split_and!.
Qed.
End plans.

(** ** Approvals of dependency hooks *)
Definition tool_ok (tool : LifecycleTool) : Prop :=
  tool_name tool ≠ "" ∧ str_forallb tool_byte (tool_name tool) = true ∧
  tool_name tool ∉ ["."; ".."] ∧ (str_len (windows_executable_name (tool_name tool)) <= 255)%Z ∧
  path_is_absolute (tool_path tool) = true ∧ contains_char nul (tool_path tool) = false ∧
  (str_len (tool_path tool) <= 4096)%Z ∧ canonical_digest (tool_digest tool).
Definition portable_name (tool : LifecycleTool) : string :=
  to_ascii_lowercase (windows_executable_name (tool_name tool)).

Lemma check_sha256_Ok digest u : check_sha256 digest = Ok u ↔ canonical_digest digest.
Proof.
  destruct u. unfold check_sha256, checked. split.
  - intros H. run_ok H. bool_prop. apply str_eqb_true in H. rewrite <-H.
    by eapply ArtifactDigest_parse_canonical.
  - intros Hc. pose proof Hc as Hp%canonical_digest_parse. rewrite Hp. simpl. rewrite str_eqb_refl.
    destruct Hc as (hex&->&_). by rewrite starts_with_app.
Qed.
Lemma check_tool_Ok names portables tool names' portables' :
  check_tool (names, portables) tool = Ok (names', portables') →
  names' = {[tool_name tool]} ∪ names ∧ portables' = {[portable_name tool]} ∪ portables ∧
  portable_name tool ∉ portables ∧ tool_ok tool.
Proof.
  unfold check_tool, checked. cbv zeta. rewrite !ensure_then. intros (H1&H2&H). run_ok H.
  apply check_sha256_Ok in H0. injection H as <- <-. bool_prop.
  repeat match goal with H : (_ <? _)%Z = false |- _ => apply Z.ltb_ge in H end.
  rewrite ?bool_decide_eq_false, ?str_eqb_false in *.
  split; [done|]. split; [done|]. split; [done|]. unfold tool_ok. split_and!; try done; [by destruct (tool_name tool)|set_solver].
Qed.
Lemma check_tools_Ok tools seen :
  try_fold check_tool (∅, ∅) tools = Ok seen →
  Forall tool_ok tools ∧ NoDup (portable_name <$> tools) ∧ ∀ name, name ∈ seen.1 → name ∈ tool_name <$> tools.
Proof.
  intros H. assert (Forall tool_ok tools ∧ NoDup (portable_name <$> tools) ∧
    (∀ name, name ∈ seen.1 → name ∈ tool_name <$> tools) ∧
    (∀ name, name ∈ portable_name <$> tools → name ∈ seen.2)) as (?&?&?&_); [|done].
  revert H. apply (try_fold_prefix (λ tools (seen : gset string * gset string), Forall tool_ok tools ∧ NoDup (portable_name <$> tools) ∧
    (∀ name, name ∈ seen.1 → name ∈ tool_name <$> tools) ∧
    (∀ name, name ∈ portable_name <$> tools → name ∈ seen.2))).
  - intros pre tool post [names portables] [names' portables'] _ (Hok&Hnd&Hn&Hp) (->&->&Hnew&Ht)%check_tool_Ok.
    rewrite !fmap_app. cbn [fmap list_fmap fst snd] in *. split_and!.
    + apply Forall_app. split; [done|by apply Forall_singleton].
    + apply NoDup_app. split_and!; [done| |apply NoDup_singleton].
      intros name Hin%Hp ->%list_elem_of_singleton. done.
    + set_solver.
    + set_solver.
  - split_and!; [constructor|constructor|set_solver..].
Qed.

Section lifecycle_theory.
Context `{SV : Semver} `{B64 : Base64} `{SH : Sha256} `{TL : TomlLifecycle}.

(** A complete approval: every field of the document given, canonical and bounded. *)
Record approval_ok (a : DependencyLifecycleApproval) : Prop := {
  ok_hook : la_hook a ∈ ["preinstall"; "install"; "postinstall"];
  ok_package : valid_name (la_package a);
  ok_version : is_ok (PackageVersion_from_str (la_version a)) = true;
  ok_archive : PackageIntegrity_from_str (la_archive_digest a) = Ok (mk_integrity (la_archive_digest a));
  ok_script : canonical_digest (la_script_digest a);
  ok_policy : policy_ok (la_policy a) ∧ sp_mode (la_policy a) = Required ∧ sp_assurance (la_policy a) = ManagedTree;
  ok_limits : ∃ t o p m, sp_limits (la_policy a) = mk_limits (Some t) (Some o) (Some p) (Some m);
  ok_environment : sp_environment (la_policy a) = btree_keys (la_environment a) ∧
    ∀ name value, la_environment a !! name = Some value →
      sensitive_environment name = false ∧ contains_char nul value = false ∧ (str_len value <= 4096)%Z;
  ok_tools : (1 <= len (la_tools a) <= 64)%Z ∧ Forall tool_ok (la_tools a) ∧ NoDup (portable_name <$> la_tools a) ∧
    ("sh" ∈ tool_name <$> la_tools a ∨ "cmd" ∈ tool_name <$> la_tools a);
}.
Definition approval_identity (a : DependencyLifecycleApproval) : identity := (la_package a, la_version a, la_hook a).

Lemma environment_checked (environment : gmap string string) name value :
  existsb refused_variable (btree_iter environment) = false → environment !! name = Some value →
  sensitive_environment name = false ∧ contains_char nul value = false ∧ (str_len value <= 4096)%Z.
Proof.
  rewrite existsb_elem_false. intros H Hin%elem_of_btree_iter. specialize (H _ Hin).
  unfold refused_variable in H. cbn [fst snd] in H. bool_prop. split_and!; [done..|lia].
Qed.
Lemma SandboxPolicy_new_Ok mode fs network environment subprocess limits p :
  SandboxPolicy_new mode fs network environment subprocess limits = Ok p ↔
  p = mk_sandbox mode ManagedTree fs network environment subprocess limits ∧ environment_ok environment.
Proof. apply new_with_assurance_Ok. Qed.
Lemma parse_approval_Ok approvals identities raw approvals' identities' :
  parse_approval (approvals, identities) raw = Ok (approvals', identities') →
  ∃ a, approvals' = approvals ++ [a] ∧ identities' = {[approval_identity a]} ∪ identities ∧
    approval_identity a ∉ identities ∧ approval_ok a.
Proof.
  unfold parse_approval, checked, required. cbv zeta. intros H. run_ok H.
  repeat match goal with
  | H : FilesystemPolicy_new _ _ = Ok _ |- _ => apply FilesystemPolicy_new_Ok in H as [-> ?]
  | H : ExecutionLimits_new _ _ _ _ = Ok _ |- _ => apply ExecutionLimits_new_Ok in H as [-> ?]
  | H : SandboxPolicy_new _ _ _ _ _ _ = Ok _ |- _ => apply SandboxPolicy_new_Ok in H as [-> ?]
  | H : check_sha256 _ = Ok _ |- _ => apply check_sha256_Ok in H
  | H : PackageName_from_str _ = Ok _ |- _ => apply PackageName_from_str_Ok in H as [? _]
  | H : try_fold check_tool _ _ = Ok _ |- _ => apply check_tools_Ok in H as (?&?&?)
  | H : str_eqb _ _ = true |- _ => apply str_eqb_true in H
  end.
  injection H as <- <-. eexists. split; [done|]. split; [done|]. bool_prop.
  rewrite ?bool_decide_eq_true, ?bool_decide_eq_false in *. split; [done|].
  constructor; cbn; try done.
  - match goal with H : PackageVersion_from_str _ = _ |- _ => by rewrite H end.
  - subst. match goal with H : PackageIntegrity_from_str _ = Ok ?i |- _ => by destruct i end.
  - eauto.
  - split; [done|]. intros. by eapply environment_checked.
  - match goal with H : _ || _ = true |- _ => apply orb_true_iff in H; rewrite !bool_decide_eq_true in H; rename H into Hsh end.
    split; [|split; [done|split; [done|naive_solver]]]. unfold len in *.
    match goal with H : ?tools ≠ [] |- _ => destruct tools; [done|] end. cbn [length] in *. repeat match goal with H : (_ <? _)%Z = false |- _ => apply Z.ltb_ge in H end. lia.
Qed.

Definition policy_complete (bytes : string) (p : DependencyLifecyclePolicy) : Prop :=
  lp_digest p = sha256 bytes ∧ Forall approval_ok (lp_approvals p) ∧ NoDup (approval_identity <$> lp_approvals p).
Lemma parsed_complete bytes p : parse_lifecycle bytes = Ok p → policy_complete bytes p.
Proof.
  unfold parse_lifecycle, checked, required. intros H. run_ok H. injection H as <-. split; [done|]. cbn [lp_approvals].
  match goal with H : try_fold parse_approval _ _ = Ok ?state |- _ =>
    assert (Forall approval_ok state.1 ∧ NoDup (approval_identity <$> state.1) ∧
      (∀ id, id ∈ approval_identity <$> state.1 → id ∈ state.2)) as (?&?&_); [|done]; revert H end.
  apply (try_fold_inv (λ state : list DependencyLifecycleApproval * gset identity, Forall approval_ok state.1 ∧
      NoDup (approval_identity <$> state.1) ∧ ∀ id, id ∈ approval_identity <$> state.1 → id ∈ state.2)).
  - intros [approvals ids] raw [approvals' ids'] _ (Hok&Hnd&Hid) (a&->&->&Hnew&Ha)%parse_approval_Ok.
    cbn [fst snd] in *. rewrite fmap_app. cbn [fmap list_fmap]. split_and!.
    + apply Forall_app. split; [done|by apply Forall_singleton].
    + apply NoDup_app. split_and!; [done| |apply NoDup_singleton]. by intros id Hin%Hid ->%list_elem_of_singleton.
    + intros id [Hin| ->%list_elem_of_singleton]%elem_of_app; set_solver.
  - split_and!; [constructor..|]. by intros id ?%elem_of_nil.
Qed.
Lemma identity_unique (p : DependencyLifecyclePolicy) bytes a b : policy_complete bytes p →
  a ∈ lp_approvals p → b ∈ lp_approvals p → approval_identity a = approval_identity b → a = b.
Proof.
  intros (_&_&Hnd). revert Hnd. induction (lp_approvals p) as [|c l IH]; [by intros _ ?%elem_of_nil|].
  cbn [fmap list_fmap]. intros [Hc Hnd]%NoDup_cons Ha Hb Hid. apply elem_of_cons in Ha, Hb.
  destruct Ha as [-> | Ha], Hb as [-> | Hb]; [done| | |auto]; exfalso; apply Hc, list_elem_of_fmap; eauto.
Qed.
Lemma approval_for_None p package version archive hook script :
  approval_for p package version archive hook script = Ok None ↔
  ∀ a, a ∈ lp_approvals p → ¬ (la_package a = package ∧ la_hook a = hook).
Proof.
  unfold approval_for, checked, required. set (candidates := base.filter _ _). split.
  - destruct candidates as [|c l] eqn:E; [|intros H; run_ok H; done].
    intros _ a Ha Hm. assert (a ∈ candidates) as Hin by by apply list_elem_of_filter.
    rewrite E in Hin. by apply elem_of_nil in Hin.
  - intros H. destruct candidates as [|c l] eqn:E; [done|].
    assert (c ∈ candidates) as [? ?]%list_elem_of_filter by (rewrite E; by left). naive_solver.
Qed.
Lemma approval_for_Some bytes p package version archive hook script a : policy_complete bytes p →
  approval_for p package version archive hook script = Ok (Some a) ↔
  a ∈ lp_approvals p ∧ (la_package a = package ∧ la_hook a = hook) ∧ la_version a = version ∧
  la_archive_digest a = archive ∧ la_script_digest a = sha256 script.
Proof.
  intros Hp. unfold approval_for, validate_script, checked, required. set (candidates := base.filter _ _).
  assert (∀ b, b ∈ base.filter (λ a, la_version a = version) candidates ↔
    b ∈ lp_approvals p ∧ (la_package b = package ∧ la_hook b = hook) ∧ la_version b = version) as Hc.
  { intros b. unfold candidates. rewrite !list_elem_of_filter. naive_solver. }
  split.
  - destruct candidates as [|c l] eqn:E; [done|]. intros H. run_ok H. injection H as <-. bool_prop.
    repeat match goal with H : str_eqb _ _ = true |- _ => apply str_eqb_true in H end.
    match goal with H : head ?l = Some ?x |- _ => assert (x ∈ l) as Hin; [destruct l; [done|]; injection H as ->; by left|] end.
    apply Hc in Hin as (?&[? ?]&?). by split_and!.
  - intros (Hin&Hm&Hv&Ha&Hs). assert (a ∈ candidates) as Hcand by by apply list_elem_of_filter.
    destruct candidates as [|c l] eqn:E; [by apply elem_of_nil in Hcand|].
    assert (head (base.filter (λ a, la_version a = version) (c :: l)) = Some a) as ->.
    { pose proof (proj2 (Hc a) (conj Hin (conj Hm Hv))) as Hh.
      destruct (base.filter _ (c :: l)) as [|b k]; [by apply elem_of_nil in Hh|]. simpl. f_equal.
      assert (b ∈ b :: k) as (?&[? ?]&?)%Hc by by left. destruct Hm.
      eapply identity_unique; [done..|]. unfold approval_identity. congruence. }
    simpl. subst. by rewrite !str_eqb_refl, Hs, str_eqb_refl.
Qed.

(** C13: a dependency hook runs only under an exact approval.  A parsed policy holds complete
    approvals only, no two for the same package, version and hook: a valid name, an exact
    version, a canonical SHA-512 archive integrity, a canonical script digest, a well-formed
    sandbox policy in [Required] mode for a managed tree with all four limits set, no reserved
    or credential variable in the environment, and 1 to 64 executables pinned by digest at
    absolute paths, a shell among them.  An approval is found exactly when one names the
    package, version, archive and hook asked for and the digest of the very script; and the
    answer is "no approval" exactly when none names the package and hook, so that a changed
    version, archive or script is an error and not a missing approval. *)
Theorem hook_needs_exact_approval bytes p package version archive hook script :
  parse_lifecycle bytes = Ok p →
  Forall approval_ok (lp_approvals p) ∧ NoDup (approval_identity <$> lp_approvals p) ∧
  (∀ a, approval_for p package version archive hook script = Ok (Some a) ↔
     a ∈ lp_approvals p ∧ (la_package a = package ∧ la_hook a = hook) ∧ la_version a = version ∧
     la_archive_digest a = archive ∧ la_script_digest a = sha256 script) ∧
  (approval_for p package version archive hook script = Ok None ↔
     ∀ a, a ∈ lp_approvals p → ¬ (la_package a = package ∧ la_hook a = hook)).
Proof.
  intros Hp%parsed_complete. pose proof Hp as (_&?&?). split_and!; [done..| |].
  - intros a. by apply (approval_for_Some bytes).
  - apply approval_for_None.
Qed.
End lifecycle_theory.

(** ** Keys of derived outputs *)
Lemma length_le_bytes width n : String.length (le_bytes width n) = width.
Proof. revert n. induction width as [|width IH]; intros n; [done|]. cbn. by rewrite IH. Qed.
Lemma le_bytes_inj width n m :
  (0 <= n < 256 ^ Z.of_nat width)%Z → (0 <= m < 256 ^ Z.of_nat width)%Z →
  le_bytes width n = le_bytes width m → n = m.
Proof.
  revert n m. induction width as [|width IH]; intros n m Hn Hm; [simpl in *; lia|].
  cbn [le_bytes]. intros [= Hb Hr]. rewrite Nat2Z.inj_succ, Z.pow_succ_r in Hn, Hm by lia.
  apply (f_equal N_of_ascii) in Hb.
  rewrite !Ascii.N_ascii_embedding in Hb by (pose proof (Z.mod_pos_bound n 256); pose proof (Z.mod_pos_bound m 256); lia).
  apply Z2N.inj in Hb; [|by apply Z.mod_pos_bound..].
  apply IH in Hr; [|split; [apply Z.div_pos; lia|apply Z.div_lt_upper_bound; lia]..].
  rewrite (Z.div_mod n 256), (Z.div_mod m 256) by lia. by rewrite Hb, Hr.
Qed.
Definition short (s : string) : Prop := (str_len s < 2 ^ 64)%Z.
Lemma framed_inj x y s t : short x → short y → framed x +:+ s = framed y +:+ t → x = y ∧ s = t.
Proof.
  unfold framed, short, str_len. intros Hx Hy. rewrite !app_assoc'.
  intros [Hl H]%app_inj_length; [|by rewrite !length_le_bytes]. apply app_inj_length; [|done].
  rewrite !Z.mod_small in Hl by lia. apply le_bytes_inj in Hl; [lia|change (256 ^ Z.of_nat 8)%Z with (2 ^ 64)%Z; lia..].
Qed.
Lemma framed_concat_inj l k : length l = length k → Forall short l → Forall short k →
  String.concat "" (framed <$> l) = String.concat "" (framed <$> k) → l = k.
Proof.
  assert (∀ x l, String.concat "" (x :: l) = x +:+ String.concat "" l) as Hcons.
  { intros x [|y m]; simpl; [by rewrite app_nil_r'|done]. }
  revert k. induction l as [|x l IH]; intros [|y k]; try done. intros [= Hlen] [Hx Hl]%Forall_cons [Hy Hk]%Forall_cons.
  cbn [fmap list_fmap]. rewrite !Hcons. intros [-> H]%framed_inj; [|done..]. f_equal. by apply IH.
Qed.

Section derived.
Context `{SV : Semver} `{B64 : Base64} `{SH : Sha256} `{TL : TomlLifecycle}.

(** C30: the key of a derived output determines what it was derived from.  If two approvals of
    two parsed policies have the same key, for the same or another toolchain and dependency
    graph, then the policy documents are the same byte for byte, the approvals are the same,
    and so are the toolchains and the graphs; or SHA-256 collides. *)
Theorem derived_key_faithful bytes bytes' p p' a a' toolchain toolchain' graph graph' :
  parse_lifecycle bytes = Ok p → parse_lifecycle bytes' = Ok p' →
  a ∈ lp_approvals p → a' ∈ lp_approvals p' →
  Forall short (derived_inputs p a toolchain graph) → Forall short (derived_inputs p' a' toolchain' graph') →
  derived_key p a toolchain graph = derived_key p' a' toolchain' graph' →
  (∃ s t, s ≠ t ∧ sha256_hex s = sha256_hex t) ∨
  bytes = bytes' ∧ a = a' ∧ toolchain = toolchain' ∧ graph = graph'.
Proof.
  intros Hp Hp' Ha Ha' Hs Hs' Hk. apply (inj (String.app "sha256-")) in Hk.
  destruct (decide (String.concat "" (framed <$> derived_inputs p a toolchain graph) =
    String.concat "" (framed <$> derived_inputs p' a' toolchain' graph'))) as [E|E]; [|left; by eexists _, _].
  apply framed_concat_inj in E; [|done..]. injection E as Epkg Ever _ Edig Ehook _ Etool Egraph.
  pose proof (parsed_complete _ _ Hp) as Hc. pose proof (parsed_complete _ _ Hp') as (Hd'&_).
  rewrite Hd', (proj1 Hc) in Edig. apply (inj (String.app "sha256-")) in Edig.
  destruct (decide (bytes = bytes')) as [<-|Hb]; [|left; by eexists _, _].
  right. assert (p' = p) as -> by congruence. split_and!; try done.
  apply (identity_unique p bytes); [done..|]. unfold approval_identity. congruence.
Qed.
End derived.

(** A policy with one approval. *)
Definition sample_archive : string := "sha512-" +:+ sample_encode (str_repeat 64 "x").
Definition sample_script_digest : string := sha256 "node-gyp rebuild".
Definition sample_tool : LifecycleTool := mk_tool "sh" "/bin/sh" ("sha256-" +:+ str_repeat 64 "0").
Definition sample_raw : RawApproval :=
  mk_raw_approval "native-demo" "1.0.0" "postinstall" (Some sample_archive) (Some sample_script_digest)
    (Some ["."]) (Some ["build"]) (Some false) (Some {["NODE_ENV" := "production"]})
    (Some 10%Z) (Some 1024%Z) (Some 32%Z) (Some 134217728%Z) (Some [sample_tool]) (Some true) false false.
Definition sample_lifecycle_toml : TomlLifecycle :=
  {| toml_lifecycle _ := Some (mk_lifecycle_document 1 [sample_raw]) |}.
Local Existing Instance sample_lifecycle_toml.
Definition sample_policy : DependencyLifecyclePolicy :=
  match parse_lifecycle "schema = 1" with Ok p => p | Err _ => denied_lifecycle end.
Lemma sample_policy_parsed : parse_lifecycle "schema = 1" = Ok sample_policy.
Proof.
  assert (is_ok (parse_lifecycle "schema = 1") = true) as H by (vm_compute; reflexivity).
  unfold sample_policy. destruct (parse_lifecycle "schema = 1"); [done|discriminate H].
Qed.
Definition sample_approval : DependencyLifecycleApproval :=
  match lp_approvals sample_policy with a :: _ => a | [] =>
    mk_lifecycle_approval "" "" "" "" "" default_policy ∅ [] false false end.
Lemma sample_approval_in : sample_approval ∈ lp_approvals sample_policy.
Proof.
  assert ((0 <? length (lp_approvals sample_policy)) = true)%nat as H by (vm_compute; reflexivity).
  unfold sample_approval. destruct (lp_approvals sample_policy); [discriminate H|]. by left.
Qed.
Definition found (r : lifecycle_result (option DependencyLifecycleApproval)) : option (option string) :=
  match r with Ok o => Some (la_hook <$> o) | Err _ => None end.
(** The approved script runs; a changed one, or another archive, is an error; an unlisted package
    has no approval. *)
Example approved_script_runs :
  found (approval_for sample_policy "native-demo" "1.0.0" sample_archive "postinstall" "node-gyp rebuild") = Some (Some "postinstall") ∧
  found (approval_for sample_policy "native-demo" "1.0.0" sample_archive "postinstall" "curl evil") = None ∧
  found (approval_for sample_policy "native-demo" "1.0.1" sample_archive "postinstall" "node-gyp rebuild") = None ∧
  found (approval_for sample_policy "other" "1.0.0" sample_archive "postinstall" "node-gyp rebuild") = Some None.
Proof. vm_compute. split_and!; reflexivity. Qed.

Lemma hook_needs_exact_approval_witness : Forall approval_ok (lp_approvals sample_policy).
Proof.
  destruct (hook_needs_exact_approval "schema = 1" sample_policy "native-demo" "1.0.0" sample_archive "postinstall"
    "node-gyp rebuild" sample_policy_parsed) as [H _]. exact H.
Defined.
Lemma sample_short : Forall short (derived_inputs sample_policy sample_approval "gcc" "graph").
Proof.
  assert (forallb (λ s, str_len s <? 2 ^ 64)%Z (derived_inputs sample_policy sample_approval "gcc" "graph") = true) as H
    by (vm_compute; reflexivity).
  apply Forall_forall. intros s Hs. rewrite forallb_forall in H. apply Z.ltb_lt, H. by apply list_elem_of_In.
Qed.
Lemma derived_key_faithful_witness :
  (∃ s t, s ≠ t ∧ sha256_hex s = sha256_hex t) ∨
  "schema = 1" = "schema = 1" ∧ sample_approval = sample_approval ∧ "gcc" = "gcc" ∧ "graph" = "graph".
Proof.
  exact (derived_key_faithful "schema = 1" "schema = 1" sample_policy sample_policy sample_approval sample_approval
    "gcc" "gcc" "graph" "graph" sample_policy_parsed sample_policy_parsed sample_approval_in sample_approval_in
    sample_short sample_short eq_refl).
Defined.
