(* ===== verification/WinCommand.v ===== *)
(** * tapid-runner: Windows command lines and environment blocks

    The serialization of a program and its arguments into the one command line
    [CreateProcessW] takes, its size bound, the environment block, and the comparison of
    native paths (crates/tapid-runner/src/execution/request.rs).  A UTF-16 code unit is an
    integer. *)
From S2P Require Import Prelude Order RustStr RunnerConfig.

Notation units := (list Z).
Definition MAX_ARGV_UNITS : Z := 32767.
Definition MAX_ENVIRONMENT_BLOCK_UNITS : Z := 32767.
Definition slash_unit : Z := 92.
Definition quote_unit : Z := 34.
Definition space_unit : Z := 32.
Definition equals_unit : Z := 61.

Inductive CommandError :=
| EmptyOrNul
| MissingPayload
| CommandTooLong
| ArgvTooLong
| BadName
| ValueNul
| DuplicateNames
| BlockTooLarge.
Notation command_result := (result CommandError).

(** ** Command lines *)
(** The loop of the inner [quote], with its count of pending backslashes; the output is
    what the loop and the two statements after it append. *)
Fixpoint quote_rest (argument : units) (backslashes : nat) : units :=
  match argument with
  | [] => replicate (backslashes * 2) slash_unit ++ [quote_unit]
  | unit :: rest =>
      if (unit =? slash_unit)%Z then quote_rest rest (backslashes + 1)
      else if (unit =? quote_unit)%Z
      then replicate (backslashes * 2 + 1) slash_unit ++ quote_unit :: quote_rest rest 0
      else replicate backslashes slash_unit ++ unit :: quote_rest rest 0
  end.
Definition quote (argument : units) : units := quote_unit :: quote_rest argument 0.
Definition argument_text (verbatim_last : bool) (argument : units) : units :=
  space_unit :: (if verbatim_last then argument else quote argument).
Definition contains_nul (u : units) : bool := existsb (Z.eqb 0) u.
Definition serialize_windows_command_line_units (program : units) (arguments : list units) (verbatim_last : bool) :
    command_result units :=
  _ ← ensure (negb (bool_decide (program = []) || contains_nul program || existsb contains_nul arguments)) EmptyOrNul;
  _ ← ensure (negb (verbatim_last && bool_decide (arguments = []))) MissingPayload;
  let command_line := quote program ++ concat (argument_text verbatim_last <$> arguments) ++ [0%Z] in
  _ ← ensure (negb (MAX_ARGV_UNITS <? len command_line)%Z) CommandTooLong;
  Ok command_line.

Definition checked_mul (a b : Z) : option Z := if (a * b <=? u64_max)%Z then Some (a * b)%Z else None.
Definition add_argument (units : option Z) (argument_units : Z) : option Z :=
  units ← units;
  units ← u64_checked_add units 1;
  doubled ← checked_mul argument_units 2;
  quoted ← u64_checked_add doubled 2;
  u64_checked_add units quoted.
Definition windows_command_line_units_upper_bound (program_units : Z) (argument_units : list Z) : option Z :=
  let start :=
    doubled ← checked_mul program_units 2;
    quoted ← u64_checked_add doubled 2;
    u64_checked_add quoted 1 in
  fold_left add_argument argument_units start.
Definition validate_windows_command_line_units (program_units : Z) (argument_units : list Z) : command_result () :=
  ensure (match windows_command_line_units_upper_bound program_units argument_units with
          | Some units => negb (MAX_ARGV_UNITS <? units)%Z
          | None => false
          end) ArgvTooLong.

(** ** Environment blocks *)
Definition fold_ascii_case (unit : Z) : Z := if between 65 90 unit then unit + 32 else unit.
Definition entry : Type := units * units.
Definition windows_environment_names_equal (left right : units) : bool :=
  (length left =? length right)%nat &&
  forallb (λ '(l, r), fold_ascii_case l =? fold_ascii_case r)%Z (zip left right).
Definition ascii_units (s : string) : units := code <$> String.list_ascii_of_string s.
Definition require_entry (entries : list entry) (required : string * units) : list entry :=
  let required_name := ascii_units required.1 in
  base.filter (λ candidate : entry, windows_environment_names_equal candidate.1 required_name = false) entries ++
  [(required_name, required.2)].
Definition windows_appcontainer_environment_entries (entries : list entry) (local_app_data system_root : units) :
    list entry :=
  fold_left require_entry [("LOCALAPPDATA", local_app_data); ("SYSTEMROOT", system_root)] entries.

Definition name_key (e : entry) : units := fold_ascii_case <$> e.1.
Definition check_entry (e : entry) : command_result () :=
  _ ← ensure (negb (bool_decide (e.1 = []) || existsb (λ unit, (unit =? 0) || (unit =? equals_unit))%Z e.1)) BadName;
  ensure (negb (contains_nul e.2)) ValueNul.
(** [entries.windows(2).any(..)] *)
Fixpoint adjacent_duplicate (entries : list entry) : bool :=
  match entries with
  | a :: ((b :: _) as rest) => bool_decide (name_key a = name_key b) || adjacent_duplicate rest
  | _ => false
  end.
Definition add_entry_units (units : option Z) (e : entry) : option Z :=
  units ← units;
  units ← u64_checked_add units (len e.1);
  units ← u64_checked_add units 1;
  units ← u64_checked_add units (len e.2);
  u64_checked_add units 1.
Definition entry_text (e : entry) : units := e.1 ++ equals_unit :: e.2 ++ [0%Z].
Definition assemble_windows_environment_block (entries : list entry) : command_result units :=
  _ ← for_each check_entry entries;
  let entries := sort_by name_key entries in
  _ ← ensure (negb (adjacent_duplicate entries)) DuplicateNames;
  units ← ok_or BlockTooLarge (fold_left add_entry_units entries (Some (if bool_decide (entries = []) then 2 else 1)%Z));
  _ ← ensure (negb (MAX_ENVIRONMENT_BLOCK_UNITS <? units)%Z) BlockTooLarge;
  if bool_decide (entries = []) then Ok [0; 0]%Z
  else Ok (concat (entry_text <$> entries) ++ [0%Z]).

(** ** Native paths *)
Definition SEPARATOR : Z := 59.
(** Mirrors [std::env::join_paths] on Windows. *)
Definition quote_path (path : units) : option units :=
  if existsb (Z.eqb quote_unit) path then None
  else Some (if existsb (Z.eqb SEPARATOR) path then quote_unit :: path ++ [quote_unit] else path).
Fixpoint join_units (paths : list units) : units :=
  match paths with
  | [] => []
  | [path] => path
  | path :: rest => path ++ SEPARATOR :: join_units rest
  end.
Definition join_windows_path_units (paths : list units) : option units := join_units <$> mapM quote_path paths.
Definition EXTENDED_PREFIX : units := [92; 92; 63; 92]%Z.
Definition EXTENDED_UNC_PREFIX : units := [92; 92; 63; 92; 85; 78; 67; 92]%Z.
Definition starts_with_units (prefix path : units) : bool := bool_decide (prefix `prefix_of` path).
Definition windows_environment_path_units (path : units) : units :=
  if starts_with_units EXTENDED_UNC_PREFIX path then [92; 92]%Z ++ drop (length EXTENDED_UNC_PREFIX) path
  else if starts_with_units EXTENDED_PREFIX path then drop (length EXTENDED_PREFIX) path
  else path.
Definition windows_path_units_semantically_equal (left right : units) : bool :=
  (length left =? length right)%nat &&
  forallb (λ '(l, r), fold_ascii_case l =? fold_ascii_case r)%Z (zip left right).
