(* ===== verification/WinCommandThm.v ===== *)
(** * tapid-runner: Windows command lines and environment blocks, against their readers

    A program started with a serialized command line reads back exactly its arguments, the
    size bound is one, and an environment block reads back as the sorted environment. *)
From S2P Require Import Prelude Order RustStr Policy RunnerConfig RunnerConfigThm WinCommand.

(** ** How a process reads its command line
    The rules of the C runtime and [CommandLineToArgvW]: outside quotes a space or tab ends an
    argument; 2n backslashes before a quote stand for n and the quote delimits, 2n+1 stand for n
    and a literal quote; a doubled quote inside quotes is one literal quote; other backslashes
    are literal.  The program name ends at the next quote, without escapes. *)
Definition is_blank (c : Z) : bool := (c =? space_unit)%Z || (c =? 9)%Z.
Definition flush (arg : option units) (slashes : nat) : list units :=
  match arg, slashes with
  | None, O => []
  | _, _ => [default [] arg ++ replicate slashes slash_unit]
  end.
Fixpoint parse_arguments (line : units) (quoted : bool) (slashes : nat) (arg : option units) : list units :=
  match line with
  | [] => flush arg slashes
  | c :: rest =>
      if (c =? slash_unit)%Z then parse_arguments rest quoted (S slashes) arg
      else if (c =? quote_unit)%Z then
        let text := default [] arg ++ replicate (Nat.div2 slashes) slash_unit in
        if Nat.odd slashes then parse_arguments rest quoted 0 (Some (text ++ [quote_unit]))
        else match rest with
             | c' :: rest' =>
                 if quoted && (c' =? quote_unit)%Z then parse_arguments rest' quoted 0 (Some (text ++ [quote_unit]))
                 else parse_arguments rest (negb quoted) 0 (Some text)
             | [] => flush (Some text) 0
             end
      else if is_blank c && negb quoted then flush arg slashes ++ parse_arguments rest false 0 None
      else parse_arguments rest quoted 0 (Some (default [] arg ++ replicate slashes slash_unit ++ [c]))
  end.
Fixpoint until_quote (line : units) : units * units :=
  match line with
  | [] => ([], [])
  | c :: rest => if (c =? quote_unit)%Z then ([], rest) else let '(a, b) := until_quote rest in (c :: a, b)
  end.
Definition parse_command_line (line : units) : option (list units) :=
  match line with
  | c :: rest =>
      if (c =? quote_unit)%Z then let '(program, rest) := until_quote rest in
        Some (program :: parse_arguments rest false 0 None)
      else None
  | [] => None
  end.

Lemma parse_slashes k line quoted slashes arg :
  parse_arguments (replicate k slash_unit ++ line) quoted slashes arg = parse_arguments line quoted (slashes + k) arg.
Proof.
  revert slashes. induction k as [|k IH]; intros slashes; [by rewrite Nat.add_0_r|].
  cbn [replicate app parse_arguments]. rewrite Z.eqb_refl, IH. f_equal. lia.
Qed.
Definition ends_argument (line : units) : Prop := line = [] ∨ ∃ rest, line = space_unit :: rest.
Lemma parse_close slashes line acc : ends_argument line → Nat.Even slashes →
  parse_arguments (quote_unit :: line) true slashes (Some acc) =
  parse_arguments line false 0 (Some (acc ++ replicate (Nat.div2 slashes) slash_unit)).
Proof.
  intros Hl He. cbn [parse_arguments]. replace (quote_unit =? slash_unit)%Z with false by done. rewrite Z.eqb_refl.
  assert (Nat.odd slashes = false) as -> by (by apply Nat.negb_odd, negb_false_iff, Nat.even_spec || (rewrite <-Nat.negb_even; by apply negb_false_iff, Nat.even_spec)).
  cbn [default]. destruct Hl as [->|(rest&->)]; [|done]. cbn. by rewrite app_nil_r.
Qed.
Lemma parse_quote_rest argument n line acc : ends_argument line →
  parse_arguments (quote_rest argument n ++ line) true 0 (Some acc) =
  parse_arguments line false 0 (Some (acc ++ replicate n slash_unit ++ argument)).
Proof.
  intros Hl. revert n acc. induction argument as [|c argument IH]; intros n acc; cbn [quote_rest].
  - rewrite <-app_assoc, parse_slashes. cbn [app]. rewrite parse_close; [|done|exists n; lia].
    replace (0 + n * 2)%nat with (2 * n)%nat by lia. by rewrite Nat.div2_double, app_nil_r.
  - destruct (Z.eqb_spec c slash_unit) as [->|Hs].
    { rewrite IH. do 3 f_equal. rewrite Nat.add_1_r, replicate_S_end, <-app_assoc. done. }
    destruct (Z.eqb_spec c quote_unit) as [->|Hq].
    + rewrite <-app_assoc, parse_slashes. cbn [app parse_arguments].
      replace (quote_unit =? slash_unit)%Z with false by done. rewrite Z.eqb_refl.
      replace (0 + (n * 2 + 1))%nat with (S (2 * n)) by lia.
      rewrite Nat.odd_succ, Nat.even_mul. cbn [Nat.even orb]. rewrite Nat.div2_succ_double, IH. cbn.
      by rewrite <-!app_assoc.
    + rewrite <-app_assoc, parse_slashes. cbn [app parse_arguments].
      rewrite (proj2 (Z.eqb_neq _ _) Hs), (proj2 (Z.eqb_neq _ _) Hq). rewrite andb_false_r, IH. cbn.
      by rewrite <-!app_assoc.
Qed.
Lemma parse_quoted argument line : ends_argument line →
  parse_arguments (quote argument ++ line) false 0 None = parse_arguments line false 0 (Some argument).
Proof.
  intros Hl. unfold quote. cbn [app parse_arguments]. replace (quote_unit =? slash_unit)%Z with false by done.
  rewrite Z.eqb_refl. cbn. pose proof (parse_quote_rest argument 0 line [] Hl) as E. cbn [app replicate] in E.
  rewrite <-E. destruct (quote_rest argument 0 ++ line); done.
Qed.
Lemma arguments_start arguments : ends_argument (concat (argument_text false <$> arguments)).
Proof. destruct arguments as [|a arguments]; [by left|]. right. by eexists. Qed.
Lemma parse_serialized arguments :
  parse_arguments (concat (argument_text false <$> arguments)) false 0 None = arguments.
Proof.
  induction arguments as [|a arguments IH]; [done|]. cbn [fmap list_fmap concat argument_text app].
  cbn [parse_arguments]. replace (space_unit =? slash_unit)%Z with false by done.
  replace (space_unit =? quote_unit)%Z with false by done. cbn [is_blank andb negb orb flush app].
  replace (is_blank space_unit) with true by done. cbn [andb negb]. rewrite parse_quoted by apply arguments_start.
  pose proof (arguments_start arguments) as [E|(rest&E)].
  - rewrite E in *. cbn [parse_arguments flush]. cbn. rewrite app_nil_r. f_equal. by rewrite <-IH.
  - rewrite E in *. cbn [parse_arguments] in *. replace (space_unit =? slash_unit)%Z with false in * by done.
    replace (space_unit =? quote_unit)%Z with false in * by done. replace (is_blank space_unit) with true in * by done.
    cbn [andb negb flush default replicate app] in *. rewrite app_nil_r. f_equal. done.
Qed.
(** A program name a quoted name can carry: no quote, and no backslash at the end. *)
Definition program_name (program : units) : Prop := quote_unit ∉ program ∧ last program ≠ Some slash_unit.
Lemma quote_rest_plain program n : quote_unit ∉ program → (program = [] → n = 0) → last program ≠ Some slash_unit →
  quote_rest program n = replicate n slash_unit ++ program ++ [quote_unit].
Proof.
  revert n. induction program as [|c program IH]; intros n Hq Hn Hl; cbn [quote_rest]; [by rewrite Hn|].
  apply not_elem_of_cons in Hq as [Hc Hq].
  assert (last program ≠ Some slash_unit) as Hl' by (destruct program; [done|by rewrite last_cons_cons in Hl]).
  destruct (Z.eqb_spec c slash_unit) as [->|Hs].
  - rewrite IH; [|done| |done].
    + rewrite Nat.add_1_r, replicate_S_end, <-app_assoc. done.
    + intros ->. by destruct Hl.
  - destruct (Z.eqb_spec c quote_unit) as [->|_]; [done|]. by rewrite IH.
Qed.
Lemma until_quote_plain program rest : quote_unit ∉ program → until_quote (program ++ quote_unit :: rest) = (program, rest).
Proof.
  induction program as [|c program IH]; cbn; [done|]. intros [Hc Hq]%not_elem_of_cons.
  rewrite (proj2 (Z.eqb_neq _ _)) by done. by rewrite IH.
Qed.
Lemma parse_program program arguments : program_name program →
  parse_command_line (quote program ++ concat (argument_text false <$> arguments)) = Some (program :: arguments).
Proof.
  intros [Hq Hl]. unfold quote. cbn [app parse_command_line]. rewrite Z.eqb_refl.
  rewrite quote_rest_plain by done. cbn [replicate app]. rewrite <-app_assoc. cbn [app].
  rewrite until_quote_plain by done. by rewrite parse_serialized.
Qed.

(** ** Sizes *)
Lemma len_app {A} (l k : list A) : len (l ++ k) = (len l + len k)%Z.
Proof. unfold len. rewrite length_app. lia. Qed.
Lemma len_cons {A} (x : A) l : len (x :: l) = (1 + len l)%Z.
Proof. unfold len. cbn [length]. lia. Qed.
Lemma len_quote argument : (len (quote argument) <= 2 * len argument + 2)%Z.
Proof.
  assert (∀ argument n, (len (quote_rest argument n) <= 2 * Z.of_nat n + 2 * len argument + 1)%Z) as Hr.
  { clear. intros argument. induction argument as [|c argument IH]; intros n; cbn [quote_rest].
    - rewrite len_app. unfold len. rewrite length_replicate. cbn [length]. lia.
    - rewrite len_cons. destruct (c =? slash_unit)%Z; [specialize (IH (n + 1)); lia|]. specialize (IH 0).
      destruct (c =? quote_unit)%Z; rewrite len_app, len_cons; unfold len at 1; rewrite length_replicate; lia. }
  unfold quote. rewrite len_cons. specialize (Hr argument 0). lia.
Qed.
Lemma len_nonneg {A} (l : list A) : (0 <= len l)%Z.
Proof. unfold len. lia. Qed.
Definition arguments_bound (sizes : list Z) : Z := foldr (λ size acc, 1 + (2 * size + 2) + acc)%Z 0%Z sizes.
Lemma fold_argument_None sizes : fold_left add_argument sizes None = None.
Proof. by induction sizes. Qed.
Lemma add_argument_Some start size b : add_argument (Some start) size = Some b → b = (start + (1 + (2 * size + 2)))%Z.
Proof. unfold add_argument, checked_mul, u64_checked_add. intros H.
  repeat (cbn in *; case_match; simplify_eq). lia.
Qed.
Lemma fold_argument_bound sizes start b :
  fold_left add_argument sizes (Some start) = Some b → (b = start + arguments_bound sizes)%Z.
Proof.
  revert start. induction sizes as [|size sizes IH]; intros start; cbn [fold_left arguments_bound foldr]; [intros [= ->]; lia|].
  destruct (add_argument (Some start) size) as [next|] eqn:E; [|by rewrite fold_argument_None].
  apply add_argument_Some in E. intros H%IH. fold (arguments_bound sizes). lia.
Qed.
Lemma serialized_bound arguments verbatim :
  (len (concat (argument_text verbatim <$> arguments)) <= arguments_bound (len <$> arguments))%Z.
Proof.
  induction arguments as [|a arguments IH]; [done|]. cbn [fmap list_fmap concat arguments_bound foldr] in *.
  rewrite len_app. unfold argument_text at 1. rewrite len_cons. fold (arguments_bound (len <$> arguments)).
  pose proof (len_quote a). pose proof (len_nonneg a). destruct verbatim; lia.
Qed.
Lemma upper_bound_sum program_units sizes b :
  windows_command_line_units_upper_bound program_units sizes = Some b →
  (b = 2 * program_units + 3 + arguments_bound sizes)%Z.
Proof.
  unfold windows_command_line_units_upper_bound, checked_mul, u64_checked_add. cbn.
  intros H. repeat (cbn in *; case_match; simplify_eq); cbn in H; rewrite ?fold_argument_None in H; simplify_eq;
    apply fold_argument_bound in H; lia.
Qed.

Lemma contains_nul_false u : contains_nul u = false ↔ 0%Z ∉ u.
Proof.
  unfold contains_nul. rewrite existsb_elem_false. setoid_rewrite Z.eqb_neq. split.
  - intros H Hin. by apply (H 0%Z).
  - intros H x Hin E. by subst.
Qed.
Lemma nul_free_quote argument : 0%Z ∉ argument → 0%Z ∉ quote argument.
Proof.
  intros Ha. unfold quote. apply not_elem_of_cons. split; [done|]. generalize O. revert Ha.
  induction argument as [|c argument IH]; intros Ha n; cbn [quote_rest].
  - apply not_elem_of_app. split; [by intros [? _]%elem_of_replicate|]. by apply not_elem_of_cons.
  - apply not_elem_of_cons in Ha as [Hc Ha].
    destruct (c =? slash_unit)%Z; [auto|]. destruct (c =? quote_unit)%Z;
      (apply not_elem_of_app; split; [by intros [? _]%elem_of_replicate|]; apply not_elem_of_cons; split; [done|auto]).
Qed.
Lemma nul_free_arguments arguments verbatim : existsb contains_nul arguments = false →
  0%Z ∉ concat (argument_text verbatim <$> arguments).
Proof.
  intros Hall. rewrite existsb_elem_false in Hall.
  intros (a&Ha&Hin)%elem_of_concat_fmap. specialize (Hall a Ha). apply contains_nul_false in Hall.
  unfold argument_text in Hin. apply elem_of_cons in Hin as [?|Hin]; [done|]. destruct verbatim; [done|].
  by apply (nul_free_quote a).
Qed.
Lemma serialize_Ok program arguments verbatim line :
  serialize_windows_command_line_units program arguments verbatim = Ok line ↔
  program ≠ [] ∧ 0%Z ∉ program ∧ (∀ a, a ∈ arguments → 0%Z ∉ a) ∧ (verbatim = true → arguments ≠ []) ∧
  line = quote program ++ concat (argument_text verbatim <$> arguments) ++ [0%Z] ∧ (len line <= MAX_ARGV_UNITS)%Z.
Proof.
  unfold serialize_windows_command_line_units. rewrite !ensure_then.
  rewrite !negb_true_iff, !orb_false_iff, bool_decide_eq_false, contains_nul_false, existsb_elem_false, Z.ltb_ge, andb_false_iff,
    bool_decide_eq_false.
  setoid_rewrite contains_nul_false. split.
  - intros (((?&?)&?)&Hv&?&[= <-]). split_and!; try done. intros ->. by destruct Hv.
  - intros (?&?&?&Hv&->&?). split_and!; try done. destruct verbatim; auto.
Qed.

(** C28: Windows command lines are read back exactly and are as long as promised.  A serialized
    line ends in its only NUL and fits 32767 units.  Without verbatim arguments a process that
    reads it by the rules of the C runtime gets the program name and precisely the given
    arguments, whatever quotes, backslashes, spaces and tabs they contain, if the program name
    holds no quote and does not end in a backslash.  The line is never longer than the bound
    computed from the sizes alone, so a request within the bound, without NULs and with a
    program, serializes, as a verbatim one does if it has an argument. *)
Theorem command_line_round_trip program arguments :
  (∀ verbatim line, serialize_windows_command_line_units program arguments verbatim = Ok line →
    (len line <= MAX_ARGV_UNITS)%Z ∧
    (∃ body, line = body ++ [0%Z] ∧ 0%Z ∉ body ∧
      (verbatim = false → program_name program → parse_command_line body = Some (program :: arguments))) ∧
    (∀ bound, windows_command_line_units_upper_bound (len program) (len <$> arguments) = Some bound →
      len line <= bound)%Z) ∧
  (validate_windows_command_line_units (len program) (len <$> arguments) = Ok () →
    program ≠ [] → 0%Z ∉ program → (∀ a, a ∈ arguments → 0%Z ∉ a) →
    ∀ verbatim, (verbatim = true → arguments ≠ []) →
    ∃ line, serialize_windows_command_line_units program arguments verbatim = Ok line).
Proof.
  assert (∀ verbatim bound, windows_command_line_units_upper_bound (len program) (len <$> arguments) = Some bound →
    len (quote program ++ concat (argument_text verbatim <$> arguments) ++ [0%Z]) <= bound)%Z as Hbound.
  { intros verbatim bound ->%upper_bound_sum. rewrite !len_app. pose proof (len_quote program).
    pose proof (serialized_bound arguments verbatim). change (len [0%Z]) with 1%Z. lia. }
  split.
  - intros verbatim line (Hp&Hn&Ha&_&->&Hlen)%serialize_Ok. split_and!; [done| |auto].
    exists (quote program ++ concat (argument_text verbatim <$> arguments)). split_and!.
    + by rewrite app_assoc.
    + apply not_elem_of_app. split; [by apply nul_free_quote|]. apply nul_free_arguments, existsb_elem_false.
      intros a Hin. by apply contains_nul_false, Ha.
    + intros ->. apply parse_program.
  - unfold validate_windows_command_line_units. rewrite ensure_Ok.
    destruct (windows_command_line_units_upper_bound _ _) as [bound|] eqn:E; [|done].
    rewrite negb_true_iff, Z.ltb_ge. intros Hb Hp Hn Ha verbatim Hv. eexists. apply serialize_Ok.
    split_and!; [done..|]. specialize (Hbound verbatim bound eq_refl). lia.
Qed.

(** ** How a process reads its environment block *)
Fixpoint parse_block (block : units) (name : units) (value : option units) : list entry :=
  match block with
  | [] => []
  | c :: rest =>
      match value with
      | Some value => if (c =? 0)%Z then (name, value) :: parse_block rest [] None
                      else parse_block rest name (Some (value ++ [c]))
      | None => if (c =? 0)%Z then []
                else if (c =? equals_unit)%Z then parse_block rest name (Some [])
                else parse_block rest (name ++ [c]) None
      end
  end.
Definition entry_ok (e : entry) : Prop := e.1 ≠ [] ∧ 0%Z ∉ e.1 ∧ equals_unit ∉ e.1 ∧ 0%Z ∉ e.2.

Lemma check_entry_Ok e : check_entry e = Ok () ↔ entry_ok e.
Proof.
  unfold check_entry, entry_ok.
  rewrite ensure_then, ensure_Ok, !negb_true_iff, contains_nul_false, orb_false_iff, bool_decide_eq_false, existsb_elem_false.
  setoid_rewrite orb_false_iff. setoid_rewrite Z.eqb_neq. split.
  - intros [[? H] ?]. split_and!; try done; intros Hin; by destruct (H _ Hin).
  - intros (?&?&?&?). split_and!; try done. intros x Hin. split; by intros ->.
Qed.
Lemma parse_value e name value rest : 0%Z ∉ e →
  parse_block (e ++ 0%Z :: rest) name (Some value) = (name, value ++ e) :: parse_block rest [] None.
Proof.
  revert value. induction e as [|c e IH]; intros value; cbn; [by rewrite app_nil_r|].
  intros [Hc He]%not_elem_of_cons. rewrite (proj2 (Z.eqb_neq _ _)) by done. rewrite IH by done. by rewrite <-app_assoc.
Qed.
Lemma parse_name e acc rest : 0%Z ∉ e → equals_unit ∉ e →
  parse_block (e ++ equals_unit :: rest) acc None = parse_block rest (acc ++ e) (Some []).
Proof.
  revert acc. induction e as [|c e IH]; intros acc; cbn; [by rewrite app_nil_r|].
  intros [Hc He]%not_elem_of_cons [Hc' He']%not_elem_of_cons. rewrite !(proj2 (Z.eqb_neq _ _)) by done.
  rewrite IH by done. by rewrite <-app_assoc.
Qed.
Lemma parse_entries entries : Forall entry_ok entries → parse_block (concat (entry_text <$> entries) ++ [0%Z]) [] None = entries.
Proof.
  induction 1 as [|[name value] entries (_&Hn&He&Hv) _ IH]; [done|]. cbn [fmap list_fmap concat] in *.
  unfold entry_text at 1. cbn [fst snd] in *. rewrite <-!app_assoc. cbn [app]. rewrite parse_name by done.
  rewrite <-!app_assoc. cbn [app]. rewrite parse_value by done. cbn [app]. by rewrite IH.
Qed.
Lemma adjacent_distinct entries :
  StronglySorted (key_le name_key) entries → adjacent_duplicate entries = false →
  StronglySorted (λ a b, lt_of (name_key a) (name_key b)) entries.
Proof.
  induction 1 as [|a l Hl IH Ha]; [constructor|]. intros Hd. constructor.
  - apply IH. by destruct l; [|apply orb_false_iff in Hd as [_ ?]].
  - destruct l as [|b l]; [constructor|]. apply orb_false_iff in Hd as [Hab Hd]. apply bool_decide_eq_false in Hab.
    apply Forall_cons in Ha as [Hle _]. unfold key_le in Hle. apply le_of_lt_eq in Hle as [Hlt|?]; [|done].
    constructor; [done|]. specialize (IH Hd). inversion IH as [|?? _ Hb]; subst.
    eapply Forall_impl; [exact Hb|]. intros c Hc. simpl in Hc. by trans (name_key b).
Qed.
Lemma fold_units_None entries : fold_left add_entry_units entries None = None.
Proof. by induction entries. Qed.
Lemma fold_units_Some entries start b : fold_left add_entry_units entries (Some start) = Some b →
  b = (start + len (concat (entry_text <$> entries)))%Z.
Proof.
  revert start. induction entries as [|e entries IH]; intros start; cbn [fold_left fmap list_fmap concat].
  - intros [= ->]. unfold len. simpl. lia.
  - destruct (add_entry_units (Some start) e) as [next|] eqn:E; [|by rewrite fold_units_None].
    intros ->%IH. rewrite !len_app. unfold entry_text. rewrite len_app, len_cons, len_app.
    unfold add_entry_units, u64_checked_add in E. repeat (cbn in *; case_match; simplify_eq).
    change (len [0%Z]) with 1%Z. lia.
Qed.

Definition names_equal (left right : units) : Prop := (fold_ascii_case <$> left) = (fold_ascii_case <$> right).
Lemma windows_environment_names_equal_true left right :
  windows_environment_names_equal left right = true ↔ names_equal left right.
Proof.
  unfold windows_environment_names_equal, names_equal. revert right.
  induction left as [|l left IH]; intros [|r right]; try done. cbn in *.
  specialize (IH right). rewrite !andb_true_iff, Nat.eqb_eq, Z.eqb_eq in *. split.
  - intros (Hl&->&Hr). f_equal. by apply IH.
  - intros [= -> Hr]. apply IH in Hr as [??]. by split_and!.
Qed.
Lemma appcontainer_entries entries local_app_data system_root e :
  e ∈ windows_appcontainer_environment_entries entries local_app_data system_root ↔
  e = (ascii_units "LOCALAPPDATA", local_app_data) ∨ e = (ascii_units "SYSTEMROOT", system_root) ∨
  e ∈ entries ∧ ¬ names_equal e.1 (ascii_units "LOCALAPPDATA") ∧ ¬ names_equal e.1 (ascii_units "SYSTEMROOT").
Proof.
  unfold windows_appcontainer_environment_entries, require_entry. cbn [fold_left fst snd].
  rewrite !elem_of_app, !list_elem_of_filter, !list_elem_of_singleton, elem_of_app, list_elem_of_filter, list_elem_of_singleton.
  rewrite <-!windows_environment_names_equal_true, !not_true_iff_false.
  assert (windows_environment_names_equal (ascii_units "LOCALAPPDATA") (ascii_units "SYSTEMROOT") = false) as Hd by done.
  split; [tauto|]. intros [-> |[-> |?]]; [|tauto..]. left. split; [done|by right].
Qed.

(** C29: an environment block is read back as the environment.  When a block is assembled from
    the entries (every name non-empty and without NUL or equals sign, every value without NUL),
    it fits 32767 units, ends in two NULs, and reads as exactly the given entries, in strictly
    ascending order of their names up to ASCII case, so that no name appears twice.  Before
    that, the two variables an application container needs are set to the host's values,
    whatever spelling of them a caller supplied, and every other entry is kept. *)
Theorem environment_block_round_trip entries :
  (∀ block, assemble_windows_environment_block entries = Ok block →
    (len block <= MAX_ENVIRONMENT_BLOCK_UNITS)%Z ∧ (∃ body, block = body ++ [0; 0]%Z) ∧
    parse_block block [] None ≡ₚ entries ∧ parse_block block [] None = sort_by name_key entries ∧
    StronglySorted (λ a b, lt_of (name_key a) (name_key b)) (parse_block block [] None)) ∧
  (∀ local_app_data system_root e,
    e ∈ windows_appcontainer_environment_entries entries local_app_data system_root ↔
    e = (ascii_units "LOCALAPPDATA", local_app_data) ∨ e = (ascii_units "SYSTEMROOT", system_root) ∨
    e ∈ entries ∧ ¬ names_equal e.1 (ascii_units "LOCALAPPDATA") ∧ ¬ names_equal e.1 (ascii_units "SYSTEMROOT")).
Proof.
  split; [|intros; apply appcontainer_entries]. intros block.
  unfold assemble_windows_environment_block. intros H. run_ok H. rewrite for_each_Ok in H0.
  set (sorted := sort_by name_key entries) in *.
  assert (Forall entry_ok sorted) as Hok.
  { apply Forall_forall. intros e He. apply check_entry_Ok, H0. by apply (elem_of_sort_by name_key). }
  apply negb_true_iff in H1, H3. apply Z.ltb_ge in H3. apply fold_units_Some in H2 as ->.
  assert (parse_block block [] None = sorted) as Hparse.
  { destruct (bool_decide (sorted = [])) eqn:E; injection H as <-; [|by apply parse_entries].
    apply bool_decide_eq_true in E. by rewrite E. }
  rewrite Hparse. split_and!; [| | |done|].
  - destruct (bool_decide (sorted = [])) eqn:E; injection H as <-; [done|]. rewrite len_app. change (len [0%Z]) with 1%Z. lia.
  - destruct (bool_decide (sorted = [])) eqn:E; injection H as <-; [by exists []|].
    apply bool_decide_eq_false in E. destruct (exists_last E) as (l&[name value]&->).
    rewrite fmap_app, concat_app. cbn. eexists (concat (entry_text <$> l) ++ name ++ equals_unit :: value).
    unfold entry_text. cbn. rewrite app_nil_r. rewrite <-!app_assoc. cbn. by rewrite <-!app_assoc.
  - apply sort_by_perm.
  - by apply adjacent_distinct; [apply sort_by_sorted|].
Qed.

(** ** At concrete inputs *)
Definition sample_program : units := ascii_units "C:\tools\node.exe".
Definition sample_arguments : list units :=
  (ascii_units <$> ["plain"; ""; "two words"; "trailing\"]) ++ [[97; quote_unit; slash_unit; quote_unit]]%Z.
Definition sample_line : units :=
  match serialize_windows_command_line_units sample_program sample_arguments false with Ok line => line | Err _ => [] end.
Lemma sample_serialized : serialize_windows_command_line_units sample_program sample_arguments false = Ok sample_line.
Proof. vm_compute. reflexivity. Qed.
Lemma sample_program_name : program_name sample_program.
Proof.
  assert (bool_decide (quote_unit ∉ sample_program) && bool_decide (last sample_program ≠ Some slash_unit) = true) as H
    by (vm_compute; reflexivity).
  apply andb_true_iff in H. by rewrite !bool_decide_eq_true in H.
Qed.
Lemma command_line_round_trip_witness :
  (len sample_line <= MAX_ARGV_UNITS)%Z ∧
  ∃ body, sample_line = body ++ [0%Z] ∧ parse_command_line body = Some (sample_program :: sample_arguments).
Proof.
  destruct (command_line_round_trip sample_program sample_arguments) as [H _].
  destruct (H false sample_line sample_serialized) as (Hlen&(body&Hb&_&Hp)&_). split; [exact Hlen|].
  exists body. split; [exact Hb|]. exact (Hp eq_refl sample_program_name).
Defined.
Definition sample_entries : list entry :=
  [(ascii_units "Zed", ascii_units "1"); (ascii_units "alpha", ascii_units "a=b"); (ascii_units "MID", [])].
Definition sample_block : units :=
  match assemble_windows_environment_block sample_entries with Ok block => block | Err _ => [] end.
Lemma sample_assembled : assemble_windows_environment_block sample_entries = Ok sample_block.
Proof. vm_compute. reflexivity. Qed.
Lemma environment_block_round_trip_witness :
  parse_block sample_block [] None = [(ascii_units "alpha", ascii_units "a=b"); (ascii_units "MID", []); (ascii_units "Zed", ascii_units "1")].
Proof.
  destruct (environment_block_round_trip sample_entries) as [H _].
  destruct (H sample_block sample_assembled) as (_&_&_&E&_). rewrite E. vm_compute. reflexivity.
Defined.
Example case_duplicates_are_refused :
  assemble_windows_environment_block [(ascii_units "Path", []); (ascii_units "PATH", [])] = Err DuplicateNames.
Proof. vm_compute. reflexivity. Qed.
