(* ===== verification/Enforcement.v ===== *)
(** * tapid-runner: enforcement evidence

    The dimensions of containment, the evidence a backend reports for each, its identity and
    support report, and the errors of an execution (crates/tapid-runner/src/execution.rs).
    The Linux build is modelled. *)
From S2P Require Import Prelude Order RustStr RunnerConfig.

Definition MAX_BACKEND_IDENTITY_BYTES : Z := 255.

(** ** Dimensions *)
Record EnforcementDimensions := mk_dimensions {
  filesystem_read : bool;
  filesystem_write : bool;
  network : bool;
  environment_sanitization : bool;
  descriptor_hygiene : bool;
  subprocess_restriction : bool;
  descendant_authority_propagation : bool;
  descendant_lifecycle : bool;
  process_tree_membership : bool;
  complete_cleanup : bool;
  timeout : bool;
  output : bool;
  process_count : bool;
  memory : bool;
}.
#[export] Instance EnforcementDimensions_eq_dec : EqDecision EnforcementDimensions.
Proof. solve_decision. Defined.
Definition no_dimensions : EnforcementDimensions :=
  mk_dimensions false false false false false false false false false false false false false false.
Definition is_some {A} (o : option A) : bool := match o with Some _ => true | None => false end.
Definition requested_by (policy : SandboxPolicy) : EnforcementDimensions :=
  if bool_decide (sp_mode policy = Disabled) then no_dimensions
  else
    let limits := sp_limits policy in
    let managed_tree := bool_decide (sp_assurance policy = ManagedTree) in
    mk_dimensions true true true true true (negb (sp_subprocess policy)) true managed_tree managed_tree managed_tree
      (is_some (timeout_seconds limits)) (is_some (max_output_bytes limits))
      (is_some (max_processes limits)) (is_some (max_memory_bytes limits)).
Definition completion_required (requested : EnforcementDimensions) : EnforcementDimensions :=
  mk_dimensions false false false false false false false (descendant_lifecycle requested)
    (process_tree_membership requested) (complete_cleanup requested) false false false false.
Definition implies (required given : bool) : bool := negb required || given.
Definition contains (self required : EnforcementDimensions) : bool :=
  implies (filesystem_read required) (filesystem_read self) &&
  implies (filesystem_write required) (filesystem_write self) &&
  implies (network required) (network self) &&
  implies (environment_sanitization required) (environment_sanitization self) &&
  implies (descriptor_hygiene required) (descriptor_hygiene self) &&
  implies (subprocess_restriction required) (subprocess_restriction self) &&
  implies (descendant_authority_propagation required) (descendant_authority_propagation self) &&
  implies (descendant_lifecycle required) (descendant_lifecycle self) &&
  implies (process_tree_membership required) (process_tree_membership self) &&
  implies (complete_cleanup required) (complete_cleanup self) &&
  implies (timeout required) (timeout self) &&
  implies (output required) (output self) &&
  implies (process_count required) (process_count self) &&
  implies (memory required) (memory self).
Definition resource_limits (d : EnforcementDimensions) : bool := timeout d || output d || process_count d || memory d.

Inductive EnforcementDimension :=
| FilesystemRead | FilesystemWrite | Network | EnvironmentSanitization | DescriptorHygiene
| SubprocessRestriction | DescendantAuthorityPropagation | DescendantLifecycle
| ProcessTreeMembership | CompleteCleanup | Timeout | Output | ProcessCount | Memory.
#[export] Instance EnforcementDimension_eq_dec : EqDecision EnforcementDimension.
Proof. solve_decision. Defined.
Inductive EnforcementScope := LaunchProcess | DescendantTree | ManagedTreeScope.
#[export] Instance EnforcementScope_eq_dec : EqDecision EnforcementScope.
Proof. solve_decision. Defined.
Record DimensionEvidence := mk_evidence {
  ev_dimension : EnforcementDimension;
  ev_scope : EnforcementScope;
  ev_mechanism : string;
  ev_limitations : list string;
}.
#[export] Instance DimensionEvidence_eq_dec : EqDecision DimensionEvidence.
Proof. solve_decision. Defined.

(** The table of [evidence_for_dimensions]. *)
Definition dimension_table (d : EnforcementDimensions) : list (EnforcementDimension * bool) :=
  [(FilesystemRead, filesystem_read d); (FilesystemWrite, filesystem_write d); (Network, network d);
   (EnvironmentSanitization, environment_sanitization d); (DescriptorHygiene, descriptor_hygiene d);
   (SubprocessRestriction, subprocess_restriction d);
   (DescendantAuthorityPropagation, descendant_authority_propagation d);
   (DescendantLifecycle, descendant_lifecycle d); (ProcessTreeMembership, process_tree_membership d);
   (CompleteCleanup, complete_cleanup d); (Timeout, timeout d); (Output, output d);
   (ProcessCount, process_count d); (Memory, memory d)].
Definition dimension_scope (managed : bool) (dimension : EnforcementDimension) : EnforcementScope :=
  match dimension with
  | EnvironmentSanitization | DescriptorHygiene => LaunchProcess
  | DescendantLifecycle | ProcessTreeMembership | CompleteCleanup => ManagedTreeScope
  | Timeout | Output | ProcessCount | Memory => if managed then ManagedTreeScope else DescendantTree
  | _ => DescendantTree
  end.
Definition evidence_for_dimensions (d : EnforcementDimensions) (mechanism : string) (limitations : list string) :
    list DimensionEvidence :=
  (λ entry : EnforcementDimension * bool,
     mk_evidence entry.1 (dimension_scope (process_tree_membership d) entry.1) mechanism limitations) <$>
  base.filter (λ entry : EnforcementDimension * bool, entry.2 = true) (dimension_table d).

(** ** Errors *)
Inductive CleanupConfidence := NotGuaranteed | BestEffortObserved | KernelOwnedComplete.
#[export] Instance CleanupConfidence_eq_dec : EqDecision CleanupConfidence.
Proof. solve_decision. Defined.
Record CompletionEvidence := mk_completion {
  confirmed : EnforcementDimensions;
  completion_evidence : list DimensionEvidence;
  cleanup_confidence : CleanupConfidence;
}.
Inductive ExecutionErrorCategory :=
| InvalidRequest | UnsupportedContainment | PolicyViolation | SpawnFailed | TimeoutFailed | OutputLimit
| ProcessLimit | MemoryLimit | Internal.
#[export] Instance ExecutionErrorCategory_eq_dec : EqDecision ExecutionErrorCategory.
Proof. solve_decision. Defined.
(** A message keeps the arguments of its [format!]. *)
Inductive ExecutionMessage :=
| Text (text : string)
| About (text value : string)
| Resolving (what path error : string)
| Wrapping (text : string) (inner : ExecutionMessage).
Record ExecutionError := mk_error {
  ee_category : ExecutionErrorCategory;
  ee_message : ExecutionMessage;
  ee_completion : option CompletionEvidence;
}.
Notation exec_result := (result ExecutionError).
Definition new_error (category : ExecutionErrorCategory) (message : ExecutionMessage) : ExecutionError :=
  mk_error category message None.
Definition with_completion (error : ExecutionError) (completion : CompletionEvidence) : ExecutionError :=
  mk_error (ee_category error) (ee_message error) (Some completion).
Definition violation (text : string) : ExecutionError := new_error PolicyViolation (Text text).
Definition unsupported_error (text : string) : ExecutionError := new_error UnsupportedContainment (Text text).
Definition invalid_request (message : ExecutionMessage) : ExecutionError := new_error InvalidRequest message.

(** ** Validation of what a backend reports *)
Definition reportable (value : string) : bool :=
  negb (is_empty value) && negb (MAX_BACKEND_IDENTITY_BYTES <? str_len value)%Z && negb (chars_any char_is_control value).
Definition validate_identity_field (what value : string) : exec_result () :=
  ensure (reportable value)
    (invalid_request (About "must be non-empty, bounded and contain no control characters" what)).
Record BackendIdentity := mk_backend_identity {
  bi_name : string;
  bi_version : string;
  bi_deprecation : option string;
}.
#[export] Instance BackendIdentity_eq_dec : EqDecision BackendIdentity.
Proof. solve_decision. Defined.
Definition BackendIdentity_new (name version : string) (deprecation : option string) : exec_result BackendIdentity :=
  _ ← validate_identity_field "backend name" name;
  _ ← validate_identity_field "backend version" version;
  _ ← match deprecation with
      | Some message => validate_identity_field "backend deprecation" message
      | None => Ok ()
      end;
  Ok (mk_backend_identity name version deprecation).
Definition matching_evidence (required candidate : DimensionEvidence) : bool :=
  bool_decide (ev_dimension candidate = ev_dimension required) && bool_decide (ev_scope candidate = ev_scope required) &&
  reportable (ev_mechanism candidate) && forallb reportable (ev_limitations candidate).
Definition evidence_problem (evidence : list DimensionEvidence) (required : DimensionEvidence) : bool :=
  negb (length (base.filter (λ candidate, ev_dimension candidate = ev_dimension required) evidence) =? 1)%nat ||
  negb (existsb (matching_evidence required) evidence).
Definition validate_dimension_evidence (dimensions : EnforcementDimensions) (evidence : list DimensionEvidence) :
    exec_result () :=
  let expected := evidence_for_dimensions dimensions "expected" [] in
  ensure (negb (negb (length evidence =? length expected)%nat || existsb (evidence_problem evidence) expected))
    (unsupported_error "backend dimension metadata is incomplete, duplicated, invalid, or has the wrong scope").

Inductive SupportAvailability := Supported | Unsupported.
#[export] Instance SupportAvailability_eq_dec : EqDecision SupportAvailability.
Proof. solve_decision. Defined.
Record ContainmentSupport := mk_support {
  cs_availability : SupportAvailability;
  cs_backend : BackendIdentity;
  cs_platform : option string;
  cs_reason : option string;
  cs_requested : EnforcementDimensions;
  cs_declared : EnforcementDimensions;
  cs_observed : EnforcementDimensions;
  cs_declared_evidence : list DimensionEvidence;
  cs_observed_evidence : list DimensionEvidence;
}.
#[export] Instance ContainmentSupport_eq_dec : EqDecision ContainmentSupport.
Proof. solve_decision. Defined.
Definition supported (backend : BackendIdentity) (requested declared observed : EnforcementDimensions)
    (declared_evidence observed_evidence : list DimensionEvidence) : ContainmentSupport :=
  mk_support Supported backend (Some "linux") None requested declared observed declared_evidence observed_evidence.
Definition unsupported (backend : BackendIdentity) (platform reason : string)
    (requested declared observed : EnforcementDimensions) : ContainmentSupport :=
  mk_support Unsupported backend (Some platform) (Some reason) requested declared observed [] [].
Definition is_supported (s : ContainmentSupport) : bool := bool_decide (cs_availability s = Supported).
