(* ===== verification/Grants.v ===== *)
(** * tapid-runner: filesystem grants

    How the read and write grants of a policy are resolved against the host filesystem, which
    grants are confined to the project, and how a backend's bindings are checked against them
    (crates/tapid-runner/src/execution.rs, Linux build).  The host filesystem is a class
    parameter over the state of the world; a [PathBuf] is its text, compared by components. *)
From S2P Require Import Prelude Order RustStr RunnerConfig.
From S2P Require Import Workspace Enforcement.

(** ** The host filesystem *)
Inductive host_type := HostFile | HostDirectory | HostCharDevice | HostOther.
#[export] Instance host_type_eq_dec : EqDecision host_type.
Proof. solve_decision. Defined.
Record Metadata := mk_metadata {
  md_type : host_type;
  md_dev : Z;
  md_ino : Z;
  md_rdev : Z;
  md_mode : Z;
}.
(** [h_lexists] is [fs::symlink_metadata], of which only success is used; a held file is a
    handle, and [h_open] is [fs::File::open]. *)
Class Host (W : Type) : Type := {
  h_canonicalize : W → string → result io_error string;
  h_lexists : W → string → result io_error ();
  h_metadata : W → string → result io_error Metadata;
  h_open : W → string → result io_error Z;
  h_file_metadata : W → Z → result io_error Metadata;
}.

Definition path_eqb (p q : string) : bool := bool_decide (path_components p = path_components q).
(** [path.file_name()] *)
Definition file_name (path : string) : option string :=
  match last (path_components path) with Some (Normal part) => Some part | _ => None end.
Definition path_error (what path : string) (error : io_error) : ExecutionError :=
  new_error PolicyViolation (Resolving what path (io_message error)).

(** ** Grants *)
Inductive FilesystemAccess := ReadData | ReadMetadata | Read | Write.
#[export] Instance FilesystemAccess_eq_dec : EqDecision FilesystemAccess.
Proof. solve_decision. Defined.
Inductive FilesystemGrantKind := ExactDirectory | CharacterDevice | ExactFile | DirectorySubtree.
#[export] Instance FilesystemGrantKind_eq_dec : EqDecision FilesystemGrantKind.
Proof. solve_decision. Defined.
Inductive FilesystemGrantSource := ProjectPolicy | BackendRuntime.
#[export] Instance FilesystemGrantSource_eq_dec : EqDecision FilesystemGrantSource.
Proof. solve_decision. Defined.
Inductive FilesystemBindingMode := NativeObject | CanonicalPath.
#[export] Instance FilesystemBindingMode_eq_dec : EqDecision FilesystemBindingMode.
Proof. solve_decision. Defined.
Inductive GrantResolution :=
| ExistingCanonical
| MissingWriteDirectory (canonical_ancestor relative_target : string)
| RuntimeCanonical
| RuntimeDevice (device inode rdev : Z).
Record ResolvedGrant := mk_grant {
  g_path : string;
  g_access : FilesystemAccess;
  g_kind : FilesystemGrantKind;
  g_source : FilesystemGrantSource;
  g_resolution : GrantResolution;
}.
Record ResolvedFilesystemGrant := mk_receipt_grant {
  rg_path : string;
  rg_access : FilesystemAccess;
  rg_kind : FilesystemGrantKind;
  rg_source : FilesystemGrantSource;
  rg_binding : FilesystemBindingMode;
}.
Record RuntimeFilesystemAdditions := mk_additions { ad_read : list ResolvedGrant; ad_write : list ResolvedGrant }.
Definition no_additions : RuntimeFilesystemAdditions := mk_additions [] [].
Record ResolvedSandboxPolicy := mk_resolved {
  rs_assurance : AssuranceLevel;
  rs_mode : SandboxMode;
  rs_project_root : string;
  rs_read : list ResolvedGrant;
  rs_write : list ResolvedGrant;
  rs_limits : ExecutionLimits;
}.
Definition all_grants (policy : ResolvedSandboxPolicy) : list ResolvedGrant := rs_read policy ++ rs_write policy.
Record BoundFilesystemGrant := mk_bound {
  bg_receipt : ResolvedFilesystemGrant;
  bg_held : option Z;
  bg_native_identity : option (Z * Z);
}.
Notation FilesystemBindings := (list BoundFilesystemGrant).

Definition read_grants (grants : list ResolvedFilesystemGrant) : list ResolvedFilesystemGrant :=
  base.filter (λ g, rg_access g = Read ∨ rg_access g = ReadData ∨ rg_access g = ReadMetadata) grants.
Definition write_grants (grants : list ResolvedFilesystemGrant) : list ResolvedFilesystemGrant :=
  base.filter (λ g, rg_access g = Write) grants.
Definition binding_mismatch : ExecutionError :=
  violation "backend filesystem bindings do not match the exact validated preflight".
Definition grant_confinement_error (path : string) : ExecutionError :=
  new_error PolicyViolation
    (About "filesystem grant is neither project-confined nor an approved runtime addition: " path).
Definition grant_receipt (grant : ResolvedGrant) (binding : FilesystemBindingMode) : ResolvedFilesystemGrant :=
  mk_receipt_grant (g_path grant) (g_access grant) (g_kind grant) (g_source grant) binding.
Definition bindings_receipt (bindings : FilesystemBindings) : list ResolvedFilesystemGrant := bg_receipt <$> bindings.

Section host.
Context {W : Type} `{HO : Host W}.

Definition canonical_path (w : W) (path what : string) : exec_result string :=
  map_err (path_error what path) (h_canonicalize w path).
Definition filesystem_kind (w : W) (path : string) : exec_result FilesystemGrantKind :=
  metadata ← map_err (path_error "inspect filesystem grant kind" path) (h_metadata w path);
  match md_type metadata with
  | HostFile => Ok ExactFile
  | HostDirectory => Ok DirectorySubtree
  | _ => Err (new_error PolicyViolation
                (About "filesystem grant is neither a regular file nor directory: " path))
  end.
Definition grant_kind_matches (w : W) (grant : ResolvedGrant) (path : string) : exec_result bool :=
  match g_resolution grant with
  | RuntimeDevice device inode rdev =>
      metadata ← map_err (λ _, binding_mismatch) (h_metadata w path);
      Ok (bool_decide (g_source grant = BackendRuntime) && bool_decide (g_kind grant = CharacterDevice) &&
          bool_decide (md_type metadata = HostCharDevice) &&
          bool_decide ((md_dev metadata, md_ino metadata, md_rdev metadata) = (device, inode, rdev)))
  | _ =>
      actual ← filesystem_kind w path;
      Ok (bool_decide (actual = g_kind grant) ||
          (bool_decide (actual = DirectorySubtree) && bool_decide (g_kind grant = ExactDirectory)))
  end.

(** *** Project grants *)
Definition no_ancestor (configured : string) : ExecutionError :=
  new_error PolicyViolation (About "filesystem grant has no existing ancestor: " configured).
(** The loop that looks for the nearest existing ancestor; [missing] in the order of the
    vector.  Every turn but the last drops a component. *)
Fixpoint find_ancestor (fuel : nat) (w : W) (target configured : string) (access : FilesystemAccess)
    (ancestor : string) (missing : list string) : option (exec_result (string * list string)) :=
  match fuel with
  | O => None
  | S fuel =>
      match h_lexists w ancestor with
      | Ok _ => Some (Ok (ancestor, missing))
      | Err error =>
          if io_not_found error then
            if decide (access = Read)
            then Some (Err (new_error PolicyViolation (About "read grant target does not exist: " configured)))
            else match file_name ancestor with
                 | None => Some (Err (no_ancestor configured))
                 | Some name =>
                     match path_parent ancestor with
                     | None => Some (Err (no_ancestor configured))
                     | Some parent => find_ancestor fuel w target configured access parent (missing ++ [name])
                     end
                 end
          else Some (Err (path_error "inspect filesystem grant" target error))
      end
  end.
Definition ancestor_fuel (target : string) : nat := S (length (path_components target)).
(** [iter().collect::<PathBuf>()] *)
Definition collect_path (parts : list string) : string := fold_left path_join parts "".
Definition finish_project_grant (w : W) (project_root configured : string) (access : FilesystemAccess)
    (found : string * list string) : exec_result ResolvedGrant :=
  let '(ancestor, missing) := found in
  canonical_ancestor ← canonical_path w ancestor "filesystem grant ancestor";
  _ ← ensure (path_starts_with project_root canonical_ancestor)
        (new_error PolicyViolation (About "filesystem grant escapes the canonical project root: " configured));
  if bool_decide (missing = []) then
    kind ← filesystem_kind w canonical_ancestor;
    Ok (mk_grant canonical_ancestor access kind ProjectPolicy ExistingCanonical)
  else
    let relative_target := collect_path (reverse missing) in
    Ok (mk_grant (path_join canonical_ancestor relative_target) access DirectorySubtree ProjectPolicy
          (MissingWriteDirectory canonical_ancestor relative_target)).
Definition resolve_project_grant (w : W) (project_root configured : string) (access : FilesystemAccess) :
    option (exec_result ResolvedGrant) :=
  let target := path_join project_root configured in
  found ← find_ancestor (ancestor_fuel target) w target configured access target [];
  Some (found ≫= finish_project_grant w project_root configured access).

(** *** Runtime grants *)
Definition resolve_executable_search_directory (w : W) (path : string) : exec_result ResolvedGrant :=
  _ ← ensure (path_is_absolute path)
        (new_error PolicyViolation (About "executable search directory must be absolute: " path));
  canonical ← canonical_path w path "executable search directory";
  metadata ← map_err (path_error "executable search directory" canonical) (h_metadata w canonical);
  _ ← ensure (bool_decide (md_type metadata = HostDirectory))
        (new_error PolicyViolation (About "executable search path is not a directory: " path));
  Ok (mk_grant canonical Read DirectorySubtree BackendRuntime RuntimeCanonical).
Fixpoint check_search_aliases (prior : list string) (requested : list string) (resolved : list ResolvedGrant) :
    exec_result () :=
  match requested, resolved with
  | path :: requested, grant :: resolved =>
      _ ← ensure (negb (existsb (path_eqb (g_path grant)) prior))
            (new_error PolicyViolation (About "executable search directories resolve to the same platform alias: " path));
      check_search_aliases (prior ++ [g_path grant]) requested resolved
  | _, _ => Ok ()
  end.
Definition validate_resolved_executable_search_paths (requested : list string) (resolved : list ResolvedGrant) :
    exec_result () :=
  _ ← check_search_aliases [] requested resolved;
  for_each (λ pair : string * ResolvedGrant,
    ensure (path_eqb pair.1 (g_path pair.2))
      (new_error PolicyViolation (About "executable search directory must already be canonical: " pair.1)))
    (zip requested resolved).
Definition is_device_name (path : string) : bool :=
  bool_decide (path ∈ ["/dev/null"; "/dev/random"; "/dev/urandom"]) || path_eqb path "/dev/zero".
Definition resolve_runtime_grant (w : W) (access : FilesystemAccess) (path : string) : exec_result ResolvedGrant :=
  _ ← ensure (path_is_absolute path)
        (new_error PolicyViolation (About "runtime filesystem grant must be absolute: " path));
  canonical ← canonical_path w path "runtime filesystem grant";
  _ ← ensure (path_eqb canonical path)
        (new_error PolicyViolation (About "runtime filesystem grant must already be canonical: " path));
  if is_device_name canonical then
    metadata ← map_err (λ _, binding_mismatch) (h_metadata w canonical);
    _ ← ensure (bool_decide (md_type metadata = HostCharDevice)) binding_mismatch;
    Ok (mk_grant canonical access CharacterDevice BackendRuntime
          (RuntimeDevice (md_dev metadata) (md_ino metadata) (md_rdev metadata)))
  else
    kind ← filesystem_kind w canonical;
    Ok (mk_grant canonical access kind BackendRuntime RuntimeCanonical).
Definition additions_checked (w : W) (read write : list string) : exec_result RuntimeFilesystemAdditions :=
  read ← try_map (resolve_runtime_grant w Read) read;
  write ← try_map (resolve_runtime_grant w Write) write;
  Ok (mk_additions read write).

(** *** Validation of a resolved policy *)
Definition validate_canonical_path (w : W) (path : string) : exec_result () :=
  let error := new_error PolicyViolation (About "filesystem grant is not absolute and canonical: " path) in
  _ ← ensure (path_is_absolute path) error;
  canonical ← canonical_path w path "filesystem grant";
  ensure (path_eqb canonical path) error.
Definition is_normal_component (c : RustStr.component) : bool := match c with Normal _ => true | _ => false end.
Definition validate_resolved_grant (w : W) (project_root : string) (grant : ResolvedGrant) : exec_result () :=
  match g_resolution grant with
  | ExistingCanonical =>
      _ ← validate_canonical_path w (g_path grant);
      ensure (path_starts_with project_root (g_path grant)) (grant_confinement_error (g_path grant))
  | MissingWriteDirectory canonical_ancestor relative_target =>
      _ ← validate_canonical_path w canonical_ancestor;
      ensure (bool_decide (g_access grant = Write) && bool_decide (g_kind grant = DirectorySubtree) &&
              path_starts_with project_root canonical_ancestor && negb (path_is_absolute relative_target) &&
              forallb is_normal_component (path_components relative_target) &&
              path_eqb (path_join canonical_ancestor relative_target) (g_path grant))
        (grant_confinement_error (g_path grant))
  | RuntimeCanonical => validate_canonical_path w (g_path grant)
  | RuntimeDevice _ _ _ =>
      _ ← validate_canonical_path w (g_path grant);
      matches ← grant_kind_matches w grant (g_path grant);
      ensure matches binding_mismatch
  end.
Definition validate_policy (w : W) (policy : ResolvedSandboxPolicy) : exec_result () :=
  for_each (validate_resolved_grant w (rs_project_root policy)) (all_grants policy).

(** *** Bindings *)
Definition bind_canonical (w : W) (grant : ResolvedGrant) : exec_result BoundFilesystemGrant :=
  canonical ← map_err (λ error, match g_resolution grant with
                                | MissingWriteDirectory _ _ =>
                                    new_error UnsupportedContainment
                                      (Wrapping "backend did not securely materialize missing write subtree: "
                                         (ee_message error))
                                | _ => error
                                end)
                (canonical_path w (g_path grant) "canonical filesystem binding");
  _ ← ensure (path_eqb canonical (g_path grant)) binding_mismatch;
  matches ← grant_kind_matches w grant canonical;
  _ ← ensure matches binding_mismatch;
  Ok (mk_bound (grant_receipt grant CanonicalPath) None None).
Definition bindings_canonical_path (w : W) (policy : ResolvedSandboxPolicy) : exec_result FilesystemBindings :=
  try_map (bind_canonical w) (all_grants policy).
Definition bind_native (w : W) (grant : ResolvedGrant) : exec_result BoundFilesystemGrant :=
  canonical ← canonical_path w (g_path grant) "native filesystem binding";
  _ ← ensure (path_eqb canonical (g_path grant)) binding_mismatch;
  matches ← grant_kind_matches w grant canonical;
  _ ← ensure matches binding_mismatch;
  held ← map_err (path_error "open native filesystem binding" canonical) (h_open w canonical);
  metadata ← map_err (path_error "inspect native filesystem binding" canonical) (h_file_metadata w held);
  Ok (mk_bound (grant_receipt grant NativeObject) (Some held) (Some (md_dev metadata, md_ino metadata))).
Definition bindings_native_objects (w : W) (policy : ResolvedSandboxPolicy) : exec_result FilesystemBindings :=
  try_map (bind_native w) (all_grants policy).
Definition validate_binding (w : W) (pair : ResolvedGrant * BoundFilesystemGrant) : exec_result () :=
  let '(expected, bound) := pair in
  let receipt := bg_receipt bound in
  _ ← ensure (path_eqb (rg_path receipt) (g_path expected) && bool_decide (rg_access receipt = g_access expected) &&
              bool_decide (rg_kind receipt = g_kind expected) && bool_decide (rg_source receipt = g_source expected))
        binding_mismatch;
  canonical ← canonical_path w (g_path expected) "filesystem binding revalidation";
  _ ← ensure (path_eqb canonical (g_path expected)) binding_mismatch;
  matches ← grant_kind_matches w expected canonical;
  _ ← ensure matches binding_mismatch;
  match rg_binding receipt with
  | CanonicalPath => ensure (negb (is_some (bg_held bound))) binding_mismatch
  | NativeObject =>
      held ← ok_or binding_mismatch (bg_held bound);
      held_metadata ← map_err (path_error "inspect held native filesystem binding" (g_path expected))
                        (h_file_metadata w held);
      current ← map_err (path_error "inspect current native filesystem binding" canonical) (h_metadata w canonical);
      let identity := (md_dev held_metadata, md_ino held_metadata) in
      ensure (bool_decide (Some identity = bg_native_identity bound) &&
              bool_decide (identity = (md_dev current, md_ino current))) binding_mismatch
  end.
Definition validate_bindings (w : W) (policy : ResolvedSandboxPolicy) (bindings : FilesystemBindings) : exec_result () :=
  let expected := all_grants policy in
  _ ← ensure (length expected =? length bindings)%nat binding_mismatch;
  for_each (validate_binding w) (zip expected bindings).
End host.
