(* ===== verification/Request.v ===== *)
(** * tapid-runner: execution requests

    The request builder, the validation of a request, the ceiling a configured policy puts on
    an invocation, and the resolution of a request's policy
    (crates/tapid-runner/src/execution/request.rs, execution/policy_ceiling.rs, execution.rs;
    Linux build).  Native strings are byte strings. *)
From S2P Require Import Prelude Order RustStr Workspace RunnerConfig Enforcement Grants.

Definition MAX_PROGRAM_UNITS : Z := 4096.
Definition MAX_ARGUMENT_COUNT : Z := 4096.
Definition MAX_ARGUMENT_UNITS : Z := 16384.
Definition MAX_ARGV_BYTES : Z := 32767.
Definition MAX_ENVIRONMENT_VALUE_UNITS : Z := 32767.
Definition MAX_ENVIRONMENT_BLOCK : Z := 32767.
Definition MAX_PROJECT_ROOT_UNITS : Z := 32767.
Definition MAX_EXECUTABLE_SEARCH_PATH_COUNT : Z := 256.
Definition MAX_EXECUTABLE_SEARCH_PATH_UNITS : Z := 4096.
Definition MAX_EXECUTABLE_SEARCH_PATHS_UNITS : Z := 32767.

Record TrustedNodeRuntime := mk_runtime { tr_path : string; tr_identity : Z * Z }.
Record ExecutionRequest := mk_exec_request {
  er_launcher : option (option string);          (* the executable of the private launcher *)
  er_program : string;
  er_arguments : list string;
  er_executable_search_paths : list string;
  er_trusted_node_runtime : option TrustedNodeRuntime;
  er_windows_verbatim_arguments : bool;
  er_allow_process_memory_stats : bool;
  er_project_root : string;
  er_working_directory : option string;
  er_policy : SandboxPolicy;
  er_policy_ceiling : option SandboxPolicy;
  er_environment : gmap string string;
}.
Record ExecutionRequestBuilder := mk_builder {
  eb_program : string;
  eb_arguments : list string;
  eb_executable_search_paths : list string;
  eb_trusted_node_runtime : option string;
  eb_windows_verbatim_arguments : bool;
  eb_allow_process_memory_stats : bool;
  eb_project_root : string;
  eb_working_directory : option string;
  eb_policy : SandboxPolicy;
  eb_policy_ceiling : option SandboxPolicy;
  eb_environment : gmap string string;
}.
Definition builder (program : string) : ExecutionRequestBuilder :=
  mk_builder program [] [] None false false "." None default_policy None ∅.
(** *** The setters of the builder, which consume and return it. *)
Definition builder_arg (b : ExecutionRequestBuilder) (argument : string) : ExecutionRequestBuilder :=
  mk_builder (eb_program b) (eb_arguments b ++ [argument]) (eb_executable_search_paths b) (eb_trusted_node_runtime b) (eb_windows_verbatim_arguments b) (eb_allow_process_memory_stats b)
    (eb_project_root b) (eb_working_directory b) (eb_policy b) (eb_policy_ceiling b) (eb_environment b).
Definition builder_args (b : ExecutionRequestBuilder) (arguments : list string) : ExecutionRequestBuilder :=
  mk_builder (eb_program b) (eb_arguments b ++ arguments) (eb_executable_search_paths b) (eb_trusted_node_runtime b) (eb_windows_verbatim_arguments b) (eb_allow_process_memory_stats b)
    (eb_project_root b) (eb_working_directory b) (eb_policy b) (eb_policy_ceiling b) (eb_environment b).
Definition builder_executable_search_path (b : ExecutionRequestBuilder) (path : string) : ExecutionRequestBuilder :=
  mk_builder (eb_program b) (eb_arguments b) (eb_executable_search_paths b ++ [path]) (eb_trusted_node_runtime b) (eb_windows_verbatim_arguments b) (eb_allow_process_memory_stats b)
    (eb_project_root b) (eb_working_directory b) (eb_policy b) (eb_policy_ceiling b) (eb_environment b).
Definition builder_executable_search_paths (b : ExecutionRequestBuilder) (paths : list string) : ExecutionRequestBuilder :=
  mk_builder (eb_program b) (eb_arguments b) (eb_executable_search_paths b ++ paths) (eb_trusted_node_runtime b) (eb_windows_verbatim_arguments b) (eb_allow_process_memory_stats b)
    (eb_project_root b) (eb_working_directory b) (eb_policy b) (eb_policy_ceiling b) (eb_environment b).
Definition builder_trusted_node_runtime (b : ExecutionRequestBuilder) (path : string) : ExecutionRequestBuilder :=
  mk_builder (eb_program b) (eb_arguments b) (eb_executable_search_paths b) (Some path) (eb_windows_verbatim_arguments b) (eb_allow_process_memory_stats b)
    (eb_project_root b) (eb_working_directory b) (eb_policy b) (eb_policy_ceiling b) (eb_environment b).
Definition builder_windows_verbatim_arguments (b : ExecutionRequestBuilder) (enabled : bool) : ExecutionRequestBuilder :=
  mk_builder (eb_program b) (eb_arguments b) (eb_executable_search_paths b) (eb_trusted_node_runtime b) enabled (eb_allow_process_memory_stats b)
    (eb_project_root b) (eb_working_directory b) (eb_policy b) (eb_policy_ceiling b) (eb_environment b).
Definition builder_allow_process_memory_stats (b : ExecutionRequestBuilder) (enabled : bool) : ExecutionRequestBuilder :=
  mk_builder (eb_program b) (eb_arguments b) (eb_executable_search_paths b) (eb_trusted_node_runtime b) (eb_windows_verbatim_arguments b) enabled
    (eb_project_root b) (eb_working_directory b) (eb_policy b) (eb_policy_ceiling b) (eb_environment b).
Definition builder_project_root (b : ExecutionRequestBuilder) (root : string) : ExecutionRequestBuilder :=
  mk_builder (eb_program b) (eb_arguments b) (eb_executable_search_paths b) (eb_trusted_node_runtime b) (eb_windows_verbatim_arguments b) (eb_allow_process_memory_stats b) root (eb_working_directory b) (eb_policy b) (eb_policy_ceiling b) (eb_environment b).
Definition builder_working_directory (b : ExecutionRequestBuilder) (directory : string) : ExecutionRequestBuilder :=
  mk_builder (eb_program b) (eb_arguments b) (eb_executable_search_paths b) (eb_trusted_node_runtime b) (eb_windows_verbatim_arguments b) (eb_allow_process_memory_stats b)
    (eb_project_root b) (Some directory) (eb_policy b) (eb_policy_ceiling b) (eb_environment b).
Definition builder_policy (b : ExecutionRequestBuilder) (policy : SandboxPolicy) : ExecutionRequestBuilder :=
  mk_builder (eb_program b) (eb_arguments b) (eb_executable_search_paths b) (eb_trusted_node_runtime b) (eb_windows_verbatim_arguments b) (eb_allow_process_memory_stats b)
    (eb_project_root b) (eb_working_directory b) policy (eb_policy_ceiling b) (eb_environment b).
Definition builder_policy_ceiling (b : ExecutionRequestBuilder) (ceiling : SandboxPolicy) : ExecutionRequestBuilder :=
  mk_builder (eb_program b) (eb_arguments b) (eb_executable_search_paths b) (eb_trusted_node_runtime b) (eb_windows_verbatim_arguments b) (eb_allow_process_memory_stats b)
    (eb_project_root b) (eb_working_directory b) (eb_policy b) (Some ceiling) (eb_environment b).
Definition builder_env (b : ExecutionRequestBuilder) (name value : string) : ExecutionRequestBuilder :=
  mk_builder (eb_program b) (eb_arguments b) (eb_executable_search_paths b) (eb_trusted_node_runtime b) (eb_windows_verbatim_arguments b) (eb_allow_process_memory_stats b)
    (eb_project_root b) (eb_working_directory b) (eb_policy b) (eb_policy_ceiling b) (<[name := value]> (eb_environment b)).
Definition builder_envs (b : ExecutionRequestBuilder) (environment : list (string * string)) : ExecutionRequestBuilder :=
  mk_builder (eb_program b) (eb_arguments b) (eb_executable_search_paths b) (eb_trusted_node_runtime b) (eb_windows_verbatim_arguments b) (eb_allow_process_memory_stats b)
    (eb_project_root b) (eb_working_directory b) (eb_policy b) (eb_policy_ceiling b) (fold_left (λ m e, <[e.1 := e.2]> m) environment (eb_environment b)).
Definition working_directory (request : ExecutionRequest) : string :=
  default (er_project_root request) (er_working_directory request).
Definition private_launcher_executable (request : ExecutionRequest) : option string := mjoin (er_launcher request).

(** ** Native values *)
Definition nul_char : ascii := ascii_of_N 0.
Definition validate_os_value (what value : string) (maximum : Z) : exec_result Z :=
  _ ← ensure (negb (contains_char nul_char value)) (invalid_request (About "contains an embedded NUL" what));
  _ ← ensure (negb (maximum <? str_len value)%Z) (invalid_request (About "exceeds its maximum of bytes" what));
  Ok (str_len value).
(** [std::env::join_paths] on Unix: an entry may not contain the separator. *)
Definition join_executable_search_paths (paths : list string) : exec_result string :=
  _ ← for_each (λ path, ensure (negb (contains_char ":" path))
        (invalid_request (Text "executable search directory cannot be joined into PATH"))) paths;
  Ok (join ":" paths).
Definition executable_search_path_too_large : ExecutionError :=
  invalid_request (Text "executable search path exceeds its maximum of bytes").
Definition environment_block_too_large : ExecutionError :=
  invalid_request (Text "execution environment exceeds its maximum of bytes").
Definition check_duplicate (seen : gset string) (path : string) : exec_result (gset string) :=
  if bool_decide (path ∈ seen) then Err (invalid_request (About "duplicate executable search directory: " path))
  else Ok ({[path]} ∪ seen).
Definition validate_executable_search_paths (paths : list string) : exec_result string :=
  _ ← ensure (negb (MAX_EXECUTABLE_SEARCH_PATH_COUNT <? len paths)%Z)
        (invalid_request (Text "execution request exceeds 256 executable search directories"));
  _ ← for_each (λ path, _ ← validate_os_value "executable search directory" path MAX_EXECUTABLE_SEARCH_PATH_UNITS; Ok ())
        paths;
  joined ← join_executable_search_paths paths;
  total ← ok_or executable_search_path_too_large (u64_checked_add (str_len joined) 1);
  _ ← ensure (negb (MAX_EXECUTABLE_SEARCH_PATHS_UNITS <? total)%Z) executable_search_path_too_large;
  _ ← try_fold check_duplicate ∅ paths;
  Ok joined.
(** The environment of the child with its controlled [PATH]; [None] is the panic of [expect]. *)
Definition child_environment (request : ExecutionRequest) : option (gmap string string) :=
  match join_executable_search_paths (er_executable_search_paths request) with
  | Ok path => Some (<["PATH" := path]> (er_environment request))
  | Err _ => None
  end.
Definition is_cmd (program : string) : bool :=
  match file_name program with
  | Some name => utf8_valid name && (eq_ignore_ascii_case name "cmd" || eq_ignore_ascii_case name "cmd.exe")
  | None => false
  end.
Definition line_break (b : ascii) : bool := ascii_eqb b newline_char || ascii_eqb b (ascii_of_N 13).
Definition validate_windows_verbatim_boundary (request : ExecutionRequest) : exec_result () :=
  if negb (er_windows_verbatim_arguments request) then Ok () else
  let boundary := invalid_request
    (Text "Windows verbatim arguments require cmd.exe /D /S /C plus one command payload") in
  match er_arguments request with
  | [d; s; c; payload] =>
      _ ← ensure (is_cmd (er_program request) && str_eqb d "/D" && str_eqb s "/S" && str_eqb c "/C") boundary;
      _ ← ensure (utf8_valid payload) (invalid_request (Text "Windows verbatim command payload must be valid Unicode"));
      ensure (negb (str_existsb line_break payload))
        (invalid_request (Text "Windows verbatim command payload cannot contain CR or LF"))
  | _ => Err boundary
  end.
(** One turn of the loop over the environment, with the units counted so far. *)
Definition check_variable (policy : SandboxPolicy) (units : Z) (entry : string * string) : exec_result Z :=
  let '(name, value) := entry in
  _ ← ensure (utf8_valid name) (invalid_request (Text "environment variable names must be valid UTF-8"));
  _ ← ensure (negb (eq_ignore_ascii_case name "PATH"))
        (invalid_request (Text "caller-controlled PATH is forbidden; containment backends own executable search paths"));
  _ ← map_err (λ _, invalid_request (About "invalid environment variable name: " name)) (validate_environment_name name);
  value_units ← validate_os_value "environment variable value" value MAX_ENVIRONMENT_VALUE_UNITS;
  units ← ok_or environment_block_too_large
            (u ← u64_checked_add units (str_len name); u ← u64_checked_add u value_units; u64_checked_add u 2);
  _ ← ensure (negb (MAX_ENVIRONMENT_BLOCK <? units)%Z) environment_block_too_large;
  _ ← ensure (bool_decide (name ∈ sp_environment policy))
        (invalid_request (About "environment variable is not allowlisted by policy: " name));
  Ok units.

Section host.
Context {W : Type} `{HO : Host W}.

(** ** The trusted runtime *)
Definition runtime_checked (w : W) (path : string) : exec_result TrustedNodeRuntime :=
  canonical ← canonical_path w path "trusted Node runtime";
  _ ← ensure (path_eqb canonical path && bool_decide (file_name canonical = Some "node"))
        (invalid_request (Text "trusted Node runtime must be canonical and named node or node.exe"));
  metadata ← map_err (path_error "trusted Node runtime" canonical) (h_metadata w canonical);
  _ ← ensure (bool_decide (md_type metadata = HostFile)) (invalid_request (Text "trusted Node runtime must be a regular file"));
  _ ← ensure (negb (Z.land (md_mode metadata) 73 =? 0)%Z) (invalid_request (Text "trusted Node runtime must be executable"));
  Ok (mk_runtime canonical (md_dev metadata, md_ino metadata)).
Definition runtime_validate (w : W) (runtime : TrustedNodeRuntime) (search_paths : list string) : exec_result () :=
  let resolved :=
    directory ← head search_paths;
    name ← file_name (tr_path runtime);
    to_ok (h_canonicalize w (path_join directory name)) in
  let changed := violation "trusted Node runtime identity changed after request construction" in
  _ ← ensure (match resolved with Some path => path_eqb path (tr_path runtime) | None => false end)
        (invalid_request (Text "first executable search directory must resolve node to the verified runtime"));
  current ← map_err (λ _, changed) (runtime_checked w (tr_path runtime));
  ensure (path_eqb (tr_path current) (tr_path runtime) && bool_decide (tr_identity current = tr_identity runtime)) changed.
Definition validate_trusted_node_runtime (w : W) (request : ExecutionRequest) : exec_result () :=
  match er_trusted_node_runtime request with
  | Some runtime => runtime_validate w runtime (er_executable_search_paths request)
  | None => Ok ()
  end.
Definition host_is_dir (w : W) (path : string) : bool :=
  match h_metadata w path with Ok metadata => bool_decide (md_type metadata = HostDirectory) | Err _ => false end.

(** ** Validation *)
Definition validate_memory_stats (request : ExecutionRequest) : exec_result () :=
  if er_allow_process_memory_stats request then
    _ ← ensure (bool_decide (sp_mode (er_policy request) = Required))
          (invalid_request (Text "process memory statistics opt-in requires required sandbox mode"));
    ensure (is_some (private_launcher_executable request))
      (invalid_request (Text "process memory statistics opt-in requires early private-launcher initialization"))
  else Ok ().
Definition add_argument_units (units : Z) (argument : string) : exec_result Z :=
  argument_units ← validate_os_value "execution argument" argument MAX_ARGUMENT_UNITS;
  Ok (u64_saturating_add (u64_saturating_add units argument_units) 1).
Definition validate_command (request : ExecutionRequest) : exec_result () :=
  program_units ← validate_os_value "execution program" (er_program request) MAX_PROGRAM_UNITS;
  _ ← ensure (negb (is_empty (er_program request))) (invalid_request (Text "execution program must not be empty"));
  _ ← ensure (negb (MAX_ARGUMENT_COUNT <? len (er_arguments request))%Z)
        (invalid_request (Text "execution request exceeds 4096 arguments"));
  argv_units ← try_fold add_argument_units (u64_saturating_add program_units 1) (er_arguments request);
  ensure (negb (MAX_ARGV_BYTES <? argv_units)%Z) (invalid_request (Text "execution argv exceeds its maximum of bytes")).
Definition validate_directories (w : W) (request : ExecutionRequest) : exec_result () :=
  let root := er_project_root request in
  _ ← validate_os_value "project root" root MAX_PROJECT_ROOT_UNITS;
  _ ← ensure (negb (is_empty root)) (invalid_request (Text "project root must not be empty"));
  match er_working_directory request with
  | None => Ok ()
  | Some directory =>
      _ ← validate_os_value "working directory" directory MAX_PROJECT_ROOT_UNITS;
      _ ← ensure (negb (is_empty directory)) (invalid_request (Text "working directory must not be empty"));
      canonical_root ← canonical_path w root "project root";
      canonical ← canonical_path w directory "working directory";
      ensure (path_eqb canonical_root root && path_eqb canonical directory && path_starts_with canonical_root canonical &&
              host_is_dir w canonical)
        (invalid_request (Text "working directory must be canonical, existing, and contained beneath project root"))
  end.
Definition validate_request (w : W) (request : ExecutionRequest) : exec_result () :=
  _ ← validate_windows_verbatim_boundary request;
  _ ← validate_memory_stats request;
  _ ← validate_command request;
  _ ← validate_directories w request;
  executable_search_path ← validate_executable_search_paths (er_executable_search_paths request);
  _ ← validate_trusted_node_runtime w request;
  units ← ok_or environment_block_too_large
            (u ← u64_checked_add 1 (str_len "PATH"); u ← u64_checked_add u (str_len executable_search_path);
             u64_checked_add u 2);
  _ ← ensure (negb (MAX_ENVIRONMENT_BLOCK <? units)%Z) environment_block_too_large;
  _ ← try_fold (check_variable (er_policy request)) units (btree_iter (er_environment request));
  Ok ().

(** ** The policy ceiling *)
Definition exceeds (dimension : string) : ExecutionError :=
  new_error PolicyViolation (About "invocation permission exceeds the configured run policy" dimension).
Definition bounded (requested ceiling : option Z) : bool :=
  match ceiling with
  | None => true
  | Some limit => match requested with Some value => (value <=? limit)%Z | None => false end
  end.
Definition within_cap (grant cap : ResolvedGrant) : bool :=
  path_eqb (g_path grant) (g_path cap) ||
  (bool_decide (g_kind cap = DirectorySubtree) && path_starts_with (g_path cap) (g_path grant)).
(** [iter().map(f).collect::<Result<..>>()] for a [f] that may lack fuel. *)
Fixpoint resolve_each (w : W) (root : string) (access : FilesystemAccess) (configured : list string) :
    option (exec_result (list ResolvedGrant)) :=
  match configured with
  | [] => Some (Ok [])
  | path :: rest =>
      resolved ← resolve_project_grant w root path access;
      match resolved with
      | Err e => Some (Err e)
      | Ok grant =>
          others ← resolve_each w root access rest;
          Some (others ← others; Ok (grant :: others))
      end
  end.
Definition validate_dimension_ceiling (policy ceiling : SandboxPolicy) : exec_result () :=
  let limits := sp_limits policy in
  let cap := sp_limits ceiling in
  _ ← ensure (negb (bool_decide (sp_mode ceiling = Required) && negb (bool_decide (sp_mode policy = Required))))
        (exceeds "sandbox mode");
  _ ← ensure (negb (bool_decide (sp_assurance ceiling = ManagedTree) &&
                    negb (bool_decide (sp_assurance policy = ManagedTree)))) (exceeds "assurance");
  _ ← ensure (negb (sp_network policy && negb (sp_network ceiling))) (exceeds "network");
  _ ← ensure (negb (sp_subprocess policy && negb (sp_subprocess ceiling))) (exceeds "subprocess");
  _ ← ensure (forallb (λ name, bool_decide (name ∈ sp_environment ceiling)) (sp_environment policy))
        (exceeds "environment");
  ensure (bounded (timeout_seconds limits) (timeout_seconds cap) &&
          bounded (max_output_bytes limits) (max_output_bytes cap) &&
          bounded (max_processes limits) (max_processes cap) &&
          bounded (max_memory_bytes limits) (max_memory_bytes cap)) (exceeds "resource limit").
Definition validate_grant_ceiling (w : W) (root : string) (requested : list ResolvedGrant) (configured : list string)
    (access : FilesystemAccess) (dimension : string) : option (exec_result ()) :=
  allowed ← resolve_each w root access configured;
  Some (allowed ← allowed;
        ensure (forallb (λ grant, existsb (within_cap grant) allowed) requested) (exceeds dimension)).
Definition validate_ceiling (w : W) (request : ExecutionRequest) (root : string) (read write : list ResolvedGrant) :
    option (exec_result ()) :=
  match er_policy_ceiling request with
  | None => Some (Ok ())
  | Some ceiling =>
      match validate_dimension_ceiling (er_policy request) ceiling with
      | Err e => Some (Err e)
      | Ok _ =>
          r ← validate_grant_ceiling w root read (fp_read (sp_filesystem ceiling)) Read "read";
          match r with
          | Err e => Some (Err e)
          | Ok _ => validate_grant_ceiling w root write (fp_write (sp_filesystem ceiling)) Write "write"
          end
      end
  end.

(** ** Resolution *)
Definition resolve_policy (w : W) (request : ExecutionRequest) (additions : RuntimeFilesystemAdditions) :
    option (exec_result ResolvedSandboxPolicy) :=
  let policy := er_policy request in
  let filesystem := sp_filesystem policy in
  match canonical_path w (er_project_root request) "project root" with
  | Err e => Some (Err e)
  | Ok project_root =>
      read ← resolve_each w project_root Read (fp_read filesystem);
      match read with
      | Err e => Some (Err e)
      | Ok read =>
          write ← resolve_each w project_root Write (fp_write filesystem);
          match write with
          | Err e => Some (Err e)
          | Ok write =>
              ceiling ← validate_ceiling w request project_root read write;
              Some (_ ← ceiling;
                    search ← try_map (resolve_executable_search_directory w) (er_executable_search_paths request);
                    _ ← validate_resolved_executable_search_paths (er_executable_search_paths request) search;
                    Ok (mk_resolved (sp_assurance policy) (sp_mode policy) project_root
                          (read ++ search ++ ad_read additions) (write ++ ad_write additions) (sp_limits policy)))
          end
      end
  end.

(** ** The builder *)
Definition resolve_working_directory (w : W) (root directory : string) : exec_result string :=
  project_root ← map_err (path_error "project root" root) (h_canonicalize w root);
  _ ← ensure (host_is_dir w project_root) (invalid_request (Text "project root must be an existing directory"));
  let working_path := if path_is_absolute directory then directory else path_join project_root directory in
  resolved ← map_err (path_error "working directory" working_path) (h_canonicalize w working_path);
  _ ← ensure (host_is_dir w resolved && path_starts_with project_root resolved)
        (invalid_request (Text "working directory must be an existing directory beneath project root"));
  Ok resolved.
Definition transpose {A E} (o : option (result E A)) : result E (option A) :=
  match o with Some r => a ← r; Ok (Some a) | None => Ok None end.
Definition build (launcher : option (option string)) (w : W) (b : ExecutionRequestBuilder) :
    option (exec_result ExecutionRequest) :=
  let built :=
    directory ← transpose (resolve_working_directory w (eb_project_root b) <$> eb_working_directory b);
    runtime ← transpose (runtime_checked w <$> eb_trusted_node_runtime b);
    let request := mk_exec_request launcher (eb_program b) (eb_arguments b) (eb_executable_search_paths b) runtime
      (eb_windows_verbatim_arguments b) (eb_allow_process_memory_stats b) (eb_project_root b) directory
      (eb_policy b) (eb_policy_ceiling b) (eb_environment b) in
    _ ← validate_request w request;
    Ok request in
  match built with
  | Err e => Some (Err e)
  | Ok request =>
      if is_some (er_policy_ceiling request) then
        resolved ← resolve_policy w request no_additions;
        Some (_ ← resolved; Ok request)
      else Some (Ok request)
  end.
End host.
