(* ===== verification/GrantsThm.v ===== *)
(** * tapid-runner: what validated evidence and grants mean

    Complete evidence, the termination of the search for an existing ancestor, the components
    of joined paths, and the confinement of validated grants to the project. *)
From S2P Require Import Prelude Order RustStr Workspace Policy RunnerConfig RunnerConfigThm Enforcement Grants.

(** ** Evidence *)
Definition enabled_dimensions (d : EnforcementDimensions) : list EnforcementDimension :=
  (base.filter (λ entry : EnforcementDimension * bool, entry.2 = true) (dimension_table d)).*1.
(** One report per enabled dimension, with the scope that dimension has and printable text. *)
Definition evidence_complete (d : EnforcementDimensions) (evidence : list DimensionEvidence) : Prop :=
  (ev_dimension <$> evidence) ≡ₚ enabled_dimensions d ∧
  Forall (λ e, ev_scope e = dimension_scope (process_tree_membership d) (ev_dimension e) ∧
               reportable (ev_mechanism e) = true ∧ Forall (λ l, reportable l = true) (ev_limitations e)) evidence.

Lemma enabled_NoDup d : NoDup (enabled_dimensions d).
Proof.
  assert (NoDup (dimension_table d).*1) as Hall.
  { apply (bool_decide_unpack (NoDup [FilesystemRead; FilesystemWrite; Network; EnvironmentSanitization; DescriptorHygiene;
      SubprocessRestriction; DescendantAuthorityPropagation; DescendantLifecycle; ProcessTreeMembership; CompleteCleanup;
      Timeout; Output; ProcessCount; Memory])). vm_compute. done. }
  unfold enabled_dimensions. eapply sublist_NoDup; [exact Hall|]. apply fmap_sublist, filter_sublist.
Qed.
Lemma expected_dimensions d m l : ev_dimension <$> evidence_for_dimensions d m l = enabled_dimensions d.
Proof. unfold evidence_for_dimensions, enabled_dimensions. rewrite <-list_fmap_compose. done. Qed.
Lemma expected_elem d m l e : e ∈ evidence_for_dimensions d m l ↔
  ev_dimension e ∈ enabled_dimensions d ∧ ev_scope e = dimension_scope (process_tree_membership d) (ev_dimension e) ∧
  ev_mechanism e = m ∧ ev_limitations e = l.
Proof.
  unfold evidence_for_dimensions, enabled_dimensions. rewrite !list_elem_of_fmap. split.
  - intros (entry&->&Hin). cbn. split_and!; try done. by exists entry.
  - intros ((entry&Hd&Hin)&Hs&Hm&Hl). exists entry. split; [|done]. destruct e; cbn in *. by subst.
Qed.
Lemma unique_candidate dimension (evidence : list DimensionEvidence) a b :
  length (base.filter (λ c, ev_dimension c = dimension) evidence) = 1 →
  a ∈ evidence → b ∈ evidence → ev_dimension a = dimension → ev_dimension b = dimension → a = b.
Proof.
  intros Hlen Ha Hb Hda Hdb. assert (∀ c, c ∈ evidence → ev_dimension c = dimension →
    c ∈ base.filter (λ c, ev_dimension c = dimension) evidence) as Hin by (intros; by apply list_elem_of_filter).
  pose proof (Hin a Ha Hda) as Hina. pose proof (Hin b Hb Hdb) as Hinb.
  destruct (base.filter _ evidence) as [|c [|]]; try done.
  apply list_elem_of_singleton in Hina, Hinb. congruence.
Qed.
Lemma validate_dimension_evidence_complete d evidence :
  validate_dimension_evidence d evidence = Ok () → evidence_complete d evidence.
Proof.
  unfold validate_dimension_evidence. cbv zeta. rewrite ensure_Ok, negb_true_iff, orb_false_iff, negb_false_iff, Nat.eqb_eq.
  intros [Hlen Hall]. rewrite existsb_elem_false in Hall.
  assert (∀ dimension, dimension ∈ enabled_dimensions d →
    length (base.filter (λ c, ev_dimension c = dimension) evidence) = 1 ∧
    ∃ c, c ∈ evidence ∧ ev_dimension c = dimension ∧ ev_scope c = dimension_scope (process_tree_membership d) dimension ∧
      reportable (ev_mechanism c) = true ∧ Forall (λ l, reportable l = true) (ev_limitations c)) as Hdim.
  { intros dimension Hd. set (required := mk_evidence dimension (dimension_scope (process_tree_membership d) dimension) "expected" []).
    assert (required ∈ evidence_for_dimensions d "expected" []) as Hin by by apply expected_elem.
    specialize (Hall _ Hin). unfold evidence_problem in Hall. bool_prop. apply Nat.eqb_eq in H. split; [done|].
    apply existsb_elem in H0 as (c&Hc&Hm). exists c. unfold matching_evidence in Hm. bool_prop.
    rewrite !bool_decide_eq_true in *. split_and!; try done. apply Forall_forall. intros l Hl.
    match goal with H : forallb _ _ = true |- _ => rewrite forallb_forall in H; apply H end. by apply list_elem_of_In. }
  assert ((ev_dimension <$> evidence) ≡ₚ enabled_dimensions d) as Hperm.
  { symmetry. apply submseteq_length_Permutation.
    - apply NoDup_submseteq; [apply enabled_NoDup|]. intros dimension (_&c&Hc&<-&_)%Hdim. by apply list_elem_of_fmap_2.
    - rewrite <-(expected_dimensions d "expected" []), !length_fmap. lia. }
  split; [done|]. apply Forall_forall. intros e He.
  assert (ev_dimension e ∈ enabled_dimensions d) as Hd by (rewrite <-Hperm; by apply list_elem_of_fmap_2).
  destruct (Hdim _ Hd) as (Hlen1&c&Hc&Hdc&Hs&?&?).
  assert (e = c) as -> by by eapply unique_candidate. by rewrite Hs.
Qed.

(** ** Paths *)
Lemma ends_with_char_Some c s : ends_with_char c s = true → ∃ s', s = s' +:+ String c "".
Proof.
  induction s as [|a s IH]; [done|]. destruct s as [|b s].
  - cbn. intros ->%ascii_eqb_true. by exists "".
  - intros (s'&E)%IH. exists (String a s'). by rewrite app_cons, <-E.
Qed.
Lemma relative_path_components rel : path_is_absolute rel = false → forallb is_normal_component (path_components rel) = true →
  path_components rel = omap later_component (split "/" rel).
Proof.
  unfold path_components. intros ->. destruct (split "/" rel) as [|first rest] eqn:E; [done|].
  by destruct (str_eqb first ".").
Qed.
Lemma join_components c rel :
  path_is_absolute c = true → path_is_absolute rel = false → forallb is_normal_component (path_components rel) = true →
  path_components (path_join c rel) = path_components c ++ path_components rel.
Proof.
  intros Hc Hr Hn. rewrite (relative_path_components rel) by done. unfold path_join. rewrite Hr.
  destruct (is_empty c) eqn:Hce; [by destruct c|]. cbn [orb].
  assert (∀ x, path_is_absolute (c +:+ x) = true) as Habs by (intros x; by destruct c).
  destruct (ends_with_char "/" c) eqn:He.
  - apply ends_with_char_Some in He as (c'&->). rewrite app_assoc', app_cons, app_nil_l' in *.
    unfold path_components. rewrite Hc. specialize (Habs rel). rewrite app_assoc', app_cons, app_nil_l' in Habs. rewrite Habs.
    rewrite !split_separator, !omap_app. cbn. by rewrite app_nil_r.
  - rewrite app_cons, app_nil_l'. unfold path_components. rewrite Hc, Habs. by rewrite split_separator, omap_app.
Qed.
Lemma strip_components_app base l k : strip_components base l = Some k → l = base ++ k.
Proof.
  revert l. induction base as [|b base IH]; intros l; cbn; [by intros [= ->]|].
  destruct l as [|c l]; [done|]. case_decide; [|done]. intros ->%IH. by subst.
Qed.
Lemma strip_components_prefix base k : strip_components base (base ++ k) = Some k.
Proof. induction base as [|b base IH]; [done|]. cbn. by rewrite decide_True. Qed.
Lemma path_starts_with_iff base path : path_starts_with base path = true ↔ path_components base `prefix_of` path_components path.
Proof.
  unfold path_starts_with, path_strip_prefix. split.
  - destruct (strip_components _ _) as [k|] eqn:E; [|done]. intros _. exists k. by apply strip_components_app.
  - intros [k ->]. by rewrite strip_components_prefix.
Qed.
Lemma path_eqb_true p q : path_eqb p q = true ↔ path_components p = path_components q.
Proof. apply bool_decide_eq_true. Qed.

(** *** Paths from components *)
(** A component behind the first one; only the first may be the root or [.]. *)
Definition later_part (c : RustStr.component) : Prop :=
  match c with
  | Normal s => contains_char "/" s = false ∧ s ≠ "" ∧ s ≠ "." ∧ s ≠ ".."
  | ParentDir => True
  | _ => False
  end.
Definition path_shape (l : list RustStr.component) : Prop :=
  match l with [] => True | c :: rest => (c = RootDir ∨ c = CurDir ∨ later_part c) ∧ Forall later_part rest end.
Lemma later_parts l : Forall (λ x, contains_char "/" x = false) l → Forall later_part (omap later_component l).
Proof.
  induction 1 as [|x l Hx _ IH]; [constructor|]. cbn. unfold later_component at 1. destruct (_ || _) eqn:E; [done|].
  apply orb_false_iff in E as [Hne%str_eqb_false Hdot%str_eqb_false].
  destruct (str_eqb x "..") eqn:Hdd; constructor; try done. by apply str_eqb_false in Hdd.
Qed.
Lemma components_shape path : path_shape (path_components path).
Proof.
  assert (Forall (λ x, contains_char "/" x = false) (split "/" path)) as Hf
    by (apply Forall_forall; intros x; apply split_pieces_free).
  unfold path_components. destruct (path_is_absolute path); [split; [by left|by apply later_parts]|].
  destruct (split "/" path) as [|first rest] eqn:E; [done|]. destruct (str_eqb first ".").
  - split; [by right; left|]. apply later_parts. by apply Forall_cons in Hf as [_ ?].
  - pose proof (later_parts _ Hf) as Hl. destruct (omap later_component (first :: rest)); [done|].
    apply Forall_cons in Hl as [??]. split; [by right; right|done].
Qed.
Lemma later_part_text c : later_part c →
  later_component (component_text c) = Some c ∧ contains_char "/" (component_text c) = false ∧ component_text c ≠ "" ∧
  component_text c ≠ ".".
Proof.
  destruct c as [| | |s]; try done. intros (Hs&He&Hd&Hdd). cbn. split; [|done]. unfold later_component.
  apply str_eqb_false in He, Hd, Hdd. by rewrite He, Hd, Hdd.
Qed.
Lemma later_parts_texts k : Forall later_part k → omap later_component (component_text <$> k) = k.
Proof. induction 1 as [|c k (Hc&_)%later_part_text _ IH]; [done|]. cbn. by rewrite Hc, IH. Qed.
Lemma split_texts k : k ≠ [] → Forall (λ c, contains_char "/" (component_text c) = false) k →
  split "/" (join "/" (component_text <$> k)) = component_text <$> k.
Proof. intros Hne Hk. apply (split_join "/"); [by destruct k|]. by apply Forall_fmap. Qed.
Lemma text_relative c k : contains_char "/" (component_text c) = false → component_text c ≠ "" →
  path_is_absolute (join "/" (component_text <$> (c :: k))) = false.
Proof.
  intros Hc Hne. cbn [fmap list_fmap]. destruct (component_text c) as [|a t] eqn:Et; [done|].
  rewrite contains_char_cons in Hc. apply orb_false_iff in Hc as [Hc _].
  assert (∃ t', join "/" (String a t :: (component_text <$> k)) = String a t') as [t' ->].
  { destruct (component_text <$> k); eexists; done. }
  exact Hc.
Qed.
Lemma later_free k : Forall later_part k → Forall (λ c, contains_char "/" (component_text c) = false) k.
Proof. intros Hk. eapply Forall_impl; [exact Hk|]. by intros c (_&?&_)%later_part_text. Qed.
(** A path made of components has those components. *)
Lemma text_components l : path_shape l → path_components (path_text l) = l.
Proof.
  destruct l as [|c l]; [done|]. intros [Hc Hl]. destruct (decide (c = RootDir)) as [->|Hr].
  - cbn [path_text]. rewrite app_cons, app_nil_l'. set (text := join "/" (component_text <$> l)).
    assert (path_components (String "/" text) = RootDir :: omap later_component (split "/" text)) as ->.
    { unfold path_components. cbn [split]. by rewrite ascii_eqb_refl. }
    f_equal. destruct (decide (l = [])) as [->|Hne]; [done|].
    unfold text. by rewrite split_texts, later_parts_texts by (done || by apply later_free).
  - assert (path_text (c :: l) = join "/" (component_text <$> (c :: l))) as -> by by destruct c.
    assert (contains_char "/" (component_text c) = false ∧ component_text c ≠ "") as [Hf Hne].
    { destruct Hc as [?|[->|(_&?&?&_)%later_part_text]]; done. }
    unfold path_components. rewrite text_relative, split_texts by (done || by constructor; [|apply later_free]).
    destruct Hc as [?|[->|Hc]]; [done| |].
    + cbn. by rewrite later_parts_texts.
    + pose proof (later_part_text c Hc) as (_&_&_&Hdot%str_eqb_false). cbn [fmap list_fmap]. rewrite Hdot.
      apply (later_parts_texts (c :: l)). by constructor.
Qed.
Lemma removelast_shape l : path_shape l → path_shape (removelast l).
Proof.
  destruct l as [|c l]; [done|]. intros [Hc Hl]. cbn [removelast]. destruct l as [|d l]; [done|].
  split; [done|]. revert d Hl. induction l as [|e l IH]; intros d Hl; [constructor|].
  apply Forall_cons in Hl as [Hd Hl]. constructor; [done|]. by apply IH.
Qed.
Lemma parent_components path parent : path_parent path = Some parent →
  ∃ c, path_components path = path_components parent ++ [c].
Proof.
  unfold path_parent. destruct (last (path_components path)) as [c|] eqn:El; [|done].
  intros Hp. assert (parent = path_text (removelast (path_components path))) as -> by (destruct c; by simplify_eq).
  rewrite text_components by apply removelast_shape, components_shape. exists c.
  assert (path_components path ≠ []) as Hne by (intros E; by rewrite E in El).
  destruct (exists_last Hne) as (l&x&E). rewrite E in *. rewrite removelast_last. by rewrite last_snoc in El; simplify_eq.
Qed.
Lemma parent_shorter path parent : path_parent path = Some parent →
  length (path_components parent) < length (path_components path).
Proof. intros [c ->]%parent_components. rewrite length_app. cbn. lia. Qed.
Lemma file_name_last path name l c : file_name path = Some name → path_components path = l ++ [c] → c = Normal name.
Proof. unfold file_name. intros Hn E. rewrite E, last_snoc in Hn. destruct c; by simplify_eq. Qed.
Lemma file_name_part path name : file_name path = Some name → later_part (Normal name).
Proof.
  unfold file_name. destruct (last (path_components path)) as [c|] eqn:El; [|done]. intros Hn.
  assert (c = Normal name) as -> by (destruct c; by simplify_eq). pose proof (components_shape path) as Hs.
  apply last_Some in El as [l El]. rewrite El in Hs. destruct l as [|d l]; cbn in Hs.
  - by destruct Hs as [[?|[?|?]] _].
  - destruct Hs as [_ Hs]. apply Forall_app in Hs as [_ Hs]. by apply Forall_cons in Hs as [Hs _].
Qed.
(** *** Paths collected from names *)
Definition part_name (s : string) : Prop := later_part (Normal s).
Lemma not_ending_separator c s : contains_char c s = false → ends_with_char c s = false.
Proof.
  intros Hf. destruct (ends_with_char c s) eqn:E; [|done]. apply ends_with_char_Some in E as (s'&->).
  by rewrite contains_char_app, contains_char_cons, ascii_eqb_refl, orb_true_l, orb_true_r in Hf.
Qed.
Lemma join_last sep l x : l ≠ [] → join sep (l ++ [x]) = join sep l +:+ sep +:+ x.
Proof.
  induction l as [|y l IH]; [done|]. intros _. destruct l as [|z l]; [done|].
  change (join sep ((y :: z :: l) ++ [x])) with (y +:+ sep +:+ join sep ((z :: l) ++ [x])).
  change (join sep (y :: z :: l)) with (y +:+ sep +:+ join sep (z :: l)).
  rewrite IH by done. by rewrite !app_assoc'.
Qed.
Lemma joined_not_ending names : names ≠ [] → Forall part_name names → ends_with_char "/" (join "/" names) = false.
Proof.
  intros Hne Hn. destruct (exists_last Hne) as (k&t&->). apply Forall_app in Hn as [_ Ht].
  apply Forall_cons in Ht as [(Ht&Htne&_) _]. destruct (decide (k = [])) as [->|Hk]; [by apply not_ending_separator|].
  rewrite join_last, app_cons, app_nil_l' by done. destruct t as [|b t]; [done|].
  change (String "/" (String b t)) with ("/" +:+ String b t). rewrite <-app_assoc', ends_with_char_app.
  by apply not_ending_separator.
Qed.
Lemma part_name_relative s : part_name s → path_is_absolute s = false ∧ is_empty s = false.
Proof.
  intros (Hs&Hne&_). destruct s as [|a s]; [done|]. rewrite contains_char_cons in Hs.
  by apply orb_false_iff in Hs as [? _].
Qed.
Lemma collect_path_join names : Forall part_name names → collect_path names = join "/" names.
Proof.
  unfold collect_path. induction names as [|s names IH] using rev_ind; [done|]. intros [Hn Hs]%Forall_app.
  apply Forall_cons in Hs as [Hs _]. rewrite fold_left_app, IH by done. cbn [fold_left]. unfold path_join.
  destruct (part_name_relative s Hs) as [-> _]. destruct (decide (names = [])) as [->|Hnn]; [done|].
  rewrite joined_not_ending, join_last by done. destruct (is_empty (join "/" names)) eqn:He; [|done].
  apply is_empty_true in He. destruct names as [|x names]; [done|].
  apply Forall_cons in Hn as [Hx _]. apply part_name_relative in Hx as [_ Hx].
  destruct x; [done|]. by destruct names.
Qed.
Lemma collected_components names : Forall part_name names →
  path_is_absolute (collect_path names) = false ∧ path_components (collect_path names) = Normal <$> names.
Proof.
  intros Hn. rewrite collect_path_join by done. assert (component_text <$> (Normal <$> names) = names) as Ht.
  { rewrite <-list_fmap_compose. by apply list_fmap_id. }
  assert (join "/" names = path_text (Normal <$> names)) as ->.
  { destruct names as [|x names]; [done|]. cbn [fmap list_fmap path_text]. by rewrite <-Ht at 1. }
  destruct names as [|x names]; [done|]. apply Forall_cons in Hn as [Hx Hn]. split.
  - cbn [fmap list_fmap path_text]. apply (text_relative (Normal x)); by destruct Hx as (?&?&_).
  - apply text_components. split; [by right; right|]. by apply Forall_fmap.
Qed.

(** ** Grants *)
Section grants.
Context {W : Type} `{HO : Host W}.

Lemma find_ancestor_total fuel w target configured access ancestor missing :
  length (path_components ancestor) < fuel → is_Some (find_ancestor fuel w target configured access ancestor missing).
Proof.
  revert ancestor missing. induction fuel as [|fuel IH]; intros ancestor missing Hf; [lia|]. cbn.
  destruct (h_lexists w ancestor) as [?|error]; [done|]. destruct (io_not_found error); [|done].
  destruct (decide (access = Read)); [done|]. destruct (file_name ancestor); [|done].
  destruct (path_parent ancestor) as [parent|] eqn:Hp; [|done]. apply IH. apply parent_shorter in Hp. lia.
Qed.
(** The search for an existing ancestor always has enough fuel. *)
Lemma resolve_project_grant_total w root configured access : is_Some (resolve_project_grant w root configured access).
Proof.
  unfold resolve_project_grant. cbv zeta.
  destruct (find_ancestor_total (ancestor_fuel (path_join root configured)) w (path_join root configured) configured access
    (path_join root configured) [] (Nat.lt_succ_diag_r _)) as [found ->]. by eexists.
Qed.
Lemma resolve_project_grant_Ok w root configured access g :
  resolve_project_grant w root configured access = Some (Ok g) →
  g_source g = ProjectPolicy ∧ g_access g = access ∧
  match g_resolution g with ExistingCanonical | MissingWriteDirectory _ _ => True | _ => False end.
Proof.
  unfold resolve_project_grant. cbv zeta. destruct (find_ancestor _ _ _ _ _ _ _) as [found|]; [|done]. cbn.
  intros [= H]. apply bind_Ok in H as ([ancestor missing]&_&H). unfold finish_project_grant in H. run_ok H.
  destruct (bool_decide (missing = [])); [run_ok H|]; by injection H as <-.
Qed.
(** A validated grant of the project lies in the project root. *)
Lemma validated_confined w root g :
  validate_resolved_grant w root g = Ok () →
  match g_resolution g with ExistingCanonical | MissingWriteDirectory _ _ => True | _ => False end →
  path_starts_with root (g_path g) = true.
Proof.
  unfold validate_resolved_grant. destruct (g_resolution g) as [|c rel| |]; try done; intros H _; run_ok H; [done|].
  bool_prop. unfold validate_canonical_path in *. match goal with H : _ = Ok ?u |- _ => run_ok H end.
  repeat match goal with H : path_eqb _ _ = true |- _ => apply path_eqb_true in H end.
  rewrite !path_starts_with_iff in *.
  match goal with H : path_components (path_join _ _) = _ |- _ => rewrite <-H end.
  rewrite join_components by done. by apply prefix_app_r.
Qed.
Lemma find_ancestor_found fuel w target configured access ancestor missing found names :
  find_ancestor fuel w target configured access ancestor missing = Some (Ok (found, names)) → Forall part_name missing →
  h_lexists w found = Ok () ∧ Forall part_name names ∧
  ∃ more, names = missing ++ more ∧ path_components ancestor = path_components found ++ (Normal <$> reverse more) ∧
    (more = [] → found = ancestor) ∧
    (more ≠ [] → access ≠ Read ∧ ∃ e, h_lexists w ancestor = Err e ∧ io_not_found e = true).
Proof.
  revert ancestor missing. induction fuel as [|fuel IH]; intros ancestor missing; [done|]. cbn [find_ancestor].
  destruct (h_lexists w ancestor) as [[]|error] eqn:He.
  { intros [= <- <-] Hm. split_and!; [done..|]. exists []. by rewrite !app_nil_r. }
  destruct (io_not_found error) eqn:Hnf; [|done]. destruct (decide (access = Read)); [done|].
  destruct (file_name ancestor) as [name|] eqn:Hn; [|done]. destruct (path_parent ancestor) as [parent|] eqn:Hp; [|done].
  intros Hf Hm. apply IH in Hf as (Hx&Hall&more&->&Hc&_); [|apply Forall_app; split; [done|]; constructor;
    [by eapply file_name_part|constructor]].
  apply parent_components in Hp as [c Hp]. pose proof (file_name_last _ _ _ _ Hn Hp) as ->.
  split_and!; [done..|]. exists (name :: more). rewrite <-app_assoc. split; [done|]. split; [|split; [done|eauto]].
  by rewrite Hp, Hc, reverse_cons, fmap_app, app_assoc.
Qed.
(** What a configured path is granted: the canonical path of its target, which is a file or a
    directory; or, for a write grant only, the subtree at a target that does not exist yet, below
    the canonical path of an ancestor that does. *)
Record project_grant (w : W) (root : string) (access : FilesystemAccess) (configured : string) (g : ResolvedGrant) : Prop := {
  pg_policy : g_source g = ProjectPolicy ∧ g_access g = access;
  pg_confined : path_starts_with root (g_path g) = true;
  pg_target : ∃ ancestor canonical names,
    h_lexists w ancestor = Ok () ∧ h_canonicalize w ancestor = Ok canonical ∧
    path_components (path_join root configured) = path_components ancestor ++ (Normal <$> names) ∧
    path_components (g_path g) = path_components canonical ++ (Normal <$> names) ∧
    (names = [] → ancestor = path_join root configured ∧ g_path g = canonical ∧ filesystem_kind w canonical = Ok (g_kind g)) ∧
    (names ≠ [] → access = Write ∧ g_kind g = DirectorySubtree ∧
       ∃ e, h_lexists w (path_join root configured) = Err e ∧ io_not_found e = true);
}.
Lemma resolved_project_grant w root configured access g : access = Read ∨ access = Write →
  resolve_project_grant w root configured access = Some (Ok g) → validate_resolved_grant w root g = Ok () →
  project_grant w root access configured g.
Proof.
  intros Hacc Hr Hv. pose proof (resolve_project_grant_Ok _ _ _ _ _ Hr) as (Hs&Ha&Hres).
  constructor; [done|by eapply validated_confined|].
  unfold resolve_project_grant in Hr. cbv zeta in Hr. destruct (find_ancestor _ _ _ _ _ _ _) as [found|] eqn:Hf; [|done].
  cbn in Hr. injection Hr as Hr. apply bind_Ok in Hr as ([ancestor names]&->&Hr).
  apply find_ancestor_found in Hf as (Hx&Hn&more&->&Hc&Hz&Hnz); [|constructor]. cbn [app] in *.
  unfold finish_project_grant in Hr. run_ok Hr. unfold canonical_path in *.
  match goal with H : map_err _ (h_canonicalize w ancestor) = Ok ?c |- _ => apply map_err_Ok in H; rename c into canonical end.
  exists ancestor, canonical, (reverse more). split_and!; [done..| | |].
  - case_bool_decide as Hm; run_ok Hr; injection Hr as <-; cbn in *; [by rewrite Hm, app_nil_r|].
    unfold validate_resolved_grant in Hv. cbn in Hv. run_ok Hv. unfold validate_canonical_path in *.
    match goal with H : _ = Ok ?u |- _ => is_var u; run_ok H end.
    apply Forall_reverse, collected_components in Hn as [Hrel Hcomp].
    rewrite join_components by (done || by rewrite Hcomp; clear; induction (reverse more)).
    by rewrite Hcomp.
  - intros Hnil. apply (f_equal reverse) in Hnil. rewrite reverse_involutive in Hnil. cbn in Hnil. subst more. case_bool_decide as Hm; [|done]. run_ok Hr. injection Hr as <-. cbn. by rewrite (Hz eq_refl).
  - intros Hne. case_bool_decide as Hm; [by subst|]. injection Hr as <-. cbn.
    destruct (Hnz Hm) as [Hnr ?]. split_and!; [by destruct Hacc|done..].
Qed.
Lemma validate_policy_Ok w policy g : validate_policy w policy = Ok () → g ∈ all_grants policy →
  validate_resolved_grant w (rs_project_root policy) g = Ok ().
Proof. unfold validate_policy. rewrite for_each_Ok. auto. Qed.

(** A receipt for a grant: the same access, kind and source at the same path. *)
Definition receipt_for (g : ResolvedGrant) (r : ResolvedFilesystemGrant) : Prop :=
  path_components (rg_path r) = path_components (g_path g) ∧ rg_access r = g_access g ∧ rg_kind r = g_kind g ∧
  rg_source r = g_source g.
Lemma validate_binding_Ok w g bound : validate_binding w (g, bound) = Ok () → receipt_for g (bg_receipt bound).
Proof.
  unfold validate_binding. cbv zeta. rewrite ensure_then. intros [H _]. bool_prop. rewrite !bool_decide_eq_true in *.
  match goal with H : path_eqb _ _ = true |- _ => apply path_eqb_true in H end. by split_and!.
Qed.
Lemma validate_bindings_Ok w policy bindings : validate_bindings w policy bindings = Ok () →
  Forall2 receipt_for (all_grants policy) (bindings_receipt bindings).
Proof.
  unfold validate_bindings. cbv zeta. rewrite ensure_then, for_each_Ok, Nat.eqb_eq. intros [Hlen Hall].
  unfold bindings_receipt. revert bindings Hlen Hall. induction (all_grants policy) as [|g l IH]; intros [|b k] Hlen Hall;
    [constructor|done..|]. cbn in *. constructor.
  - eapply validate_binding_Ok, Hall. by left.
  - apply IH; [lia|]. intros pair Hp. apply Hall. by right.
Qed.
End grants.
