(* ===== verification/Execution.v ===== *)
(** * tapid-runner: receipts, outcomes and supervision

    What an execution returns and how it is checked, the lifecycle of an owned attempt with its
    fallback cleanup, and the generic execution over a private backend
    (crates/tapid-runner/src/execution.rs, execution/supervision.rs).  A backend is a record of
    functions that may change the state of the world; a lifecycle may panic. *)
From S2P Require Import Prelude Order RustStr Workspace RunnerConfig Enforcement Grants Request.

(** ** Checked preflight *)
Record ValidatedPreflight := mk_preflight {
  pf_support : ContainmentSupport;
  pf_policy : ResolvedSandboxPolicy;
  pf_bindings : FilesystemBindings;
  pf_child_environment : gmap string string;
}.

(** ** Receipts *)
Record ReservedExecutableEvidence := mk_reserved {
  re_command : string;
  re_private_path : string;
  re_trusted_runtime : string;
  re_device : Z;
  re_inode : Z;
  re_mechanism : string;
  re_identity_checks : string;
  re_cleanup_observed : bool;
  re_limitations : string;
}.
Record ExecutableResolutionEvidence := mk_resolution {
  er_path : string;
  er_path_order : list string;
  er_caller_path_inherited : bool;
  er_reserved_node : option ReservedExecutableEvidence;
}.
Record EnforcementReceipt := mk_receipt {
  rc_executable_resolution : option ExecutableResolutionEvidence;
  rc_assurance : AssuranceLevel;
  rc_support : ContainmentSupport;
  rc_enforced : EnforcementDimensions;
  rc_established_evidence : list DimensionEvidence;
  rc_resolved_filesystem : list ResolvedFilesystemGrant;
  rc_configured_limits : ExecutionLimits;
}.
Definition rc_requested (r : EnforcementReceipt) : EnforcementDimensions := cs_requested (rc_support r).
Definition limits_match (requested : EnforcementDimensions) (limits : ExecutionLimits) : bool :=
  eqb (timeout requested) (is_some (timeout_seconds limits)) &&
  eqb (output requested) (is_some (max_output_bytes limits)) &&
  eqb (process_count requested) (is_some (max_processes limits)) &&
  eqb (memory requested) (is_some (max_memory_bytes limits)).
Definition EnforcementReceipt_checked (preflight : ValidatedPreflight) (enforced : EnforcementDimensions)
    (established_evidence : list DimensionEvidence) : exec_result EnforcementReceipt :=
  let support := pf_support preflight in
  let requested := cs_requested support in
  let limits := rs_limits (pf_policy preflight) in
  _ ← ensure (is_supported support)
        (unsupported_error "cannot issue an enforcement receipt for unsupported containment");
  _ ← ensure (negb (bool_decide (rs_mode (pf_policy preflight) = Disabled)))
        (violation "disabled sandbox execution cannot issue an enforcement receipt");
  _ ← ensure (bool_decide (enforced = requested))
        (violation "established dimensions do not exactly match the requested restrictions");
  _ ← ensure (contains (cs_declared support) requested && contains (cs_observed support) requested)
        (unsupported_error "requested restrictions lack declared or observed backend support");
  _ ← ensure (limits_match requested limits)
        (violation "configured limits do not match requested resource restrictions");
  _ ← validate_dimension_evidence enforced established_evidence;
  Ok (mk_receipt None (rs_assurance (pf_policy preflight)) support enforced established_evidence
        (bindings_receipt (pf_bindings preflight)) limits).

(** ** Completion and outcomes *)
Definition CompletionEvidence_checked (preflight : ValidatedPreflight) (confirmed : EnforcementDimensions)
    (evidence : list DimensionEvidence) (confidence : CleanupConfidence) : exec_result CompletionEvidence :=
  _ ← ensure (bool_decide (confirmed = completion_required (cs_requested (pf_support preflight))))
        (violation "completion evidence does not exactly match completion-observable dimensions");
  _ ← validate_dimension_evidence confirmed evidence;
  Ok (mk_completion confirmed evidence confidence).
Inductive Termination :=
| Exited (code : Z)
| Signaled (signal : Z)
| TimedOut
| OutputLimitExceeded
| ProcessLimitExceeded
| MemoryLimitExceeded
| Cancelled.
#[export] Instance Termination_eq_dec : EqDecision Termination.
Proof. solve_decision. Defined.
(** [ExitStatus] on Unix: the exit code, or the signal. *)
Definition from_process_status (code signal : option Z) : Termination :=
  match code with Some code => Exited code | None => Signaled (default 0%Z signal) end.
Record ExecutionOutcome := mk_outcome {
  oc_termination : Termination;
  oc_stdout : string;
  oc_stderr : string;
  oc_process_memory_stats_hint : bool;
  oc_enforcement : EnforcementReceipt;
  oc_completion : CompletionEvidence;
}.
Definition with_process_memory_stats_hint (o : ExecutionOutcome) (hint : bool) : ExecutionOutcome :=
  mk_outcome (oc_termination o) (oc_stdout o) (oc_stderr o) hint (oc_enforcement o) (oc_completion o).
Definition ExecutionOutcome_checked (termination : Termination) (stdout stderr : string)
    (enforcement : EnforcementReceipt) (completion : CompletionEvidence) : exec_result ExecutionOutcome :=
  _ ← ensure (bool_decide (rc_enforced enforcement = rc_requested enforcement))
        (violation "execution outcome lacks complete enforcement evidence");
  _ ← ensure (bool_decide (confirmed completion = completion_required (rc_requested enforcement)))
        (violation "execution outcome lacks complete completion evidence");
  _ ← ensure (negb (process_tree_membership (rc_requested enforcement) &&
                    negb (bool_decide (cleanup_confidence completion = KernelOwnedComplete))))
        (violation "managed-tree execution requires kernel-owned complete cleanup evidence");
  Ok (mk_outcome termination stdout stderr false enforcement completion).

Definition receipt_grant_eqb (a b : ResolvedFilesystemGrant) : bool :=
  path_eqb (rg_path a) (rg_path b) && bool_decide (rg_access a = rg_access b) && bool_decide (rg_kind a = rg_kind b) &&
  bool_decide (rg_source a = rg_source b) && bool_decide (rg_binding a = rg_binding b).
Fixpoint receipt_grants_eqb (a b : list ResolvedFilesystemGrant) : bool :=
  match a, b with
  | [], [] => true
  | x :: a, y :: b => receipt_grant_eqb x y && receipt_grants_eqb a b
  | _, _ => false
  end.
Definition checked_captured_output_bytes (stdout stderr : Z) : exec_result Z :=
  ok_or (violation "captured stdout and stderr byte count overflowed") (u64_checked_add stdout stderr).
(** A termination by a limit needs that limit. *)
Definition termination_allowed (limits : ExecutionLimits) (t : Termination) : bool :=
  match t with
  | TimedOut => is_some (timeout_seconds limits)
  | OutputLimitExceeded => is_some (max_output_bytes limits)
  | ProcessLimitExceeded => is_some (max_processes limits)
  | MemoryLimitExceeded => is_some (max_memory_bytes limits)
  | _ => true
  end.
Definition termination_message (t : Termination) : string :=
  match t with
  | TimedOut => "timeout termination requires an exact preflight timeout limit"
  | OutputLimitExceeded => "output-limit termination requires an exact preflight output limit"
  | ProcessLimitExceeded => "process-limit termination requires an exact preflight process limit"
  | MemoryLimitExceeded => "memory-limit termination requires an exact preflight memory limit"
  | _ => ""
  end.
Definition validate_outcome (outcome : ExecutionOutcome) (preflight : ValidatedPreflight) : exec_result () :=
  let required := cs_requested (pf_support preflight) in
  let receipt := oc_enforcement outcome in
  let limits := rs_limits (pf_policy preflight) in
  _ ← ensure (bool_decide (rc_support receipt = pf_support preflight) && bool_decide (rc_requested receipt = required) &&
              bool_decide (rc_enforced receipt = required) && contains (cs_declared (rc_support receipt)) required &&
              contains (cs_observed (rc_support receipt)) required &&
              bool_decide (rc_configured_limits receipt = limits) &&
              receipt_grants_eqb (rc_resolved_filesystem receipt) (bindings_receipt (pf_bindings preflight)) &&
              bool_decide (confirmed (oc_completion outcome) = completion_required required))
        (violation "execution outcome does not match the exact validated preflight");
  captured ← checked_captured_output_bytes (str_len (oc_stdout outcome)) (str_len (oc_stderr outcome));
  _ ← ensure (match max_output_bytes limits with Some limit => negb (limit <? captured)%Z | None => true end)
        (violation "captured stdout and stderr exceed the exact preflight output limit");
  ensure (termination_allowed limits (oc_termination outcome))
    (violation (termination_message (oc_termination outcome))).

(** ** Supervision *)
Definition validate_completion (completion : CompletionEvidence) (preflight : ValidatedPreflight) : exec_result () :=
  let required := completion_required (cs_requested (pf_support preflight)) in
  _ ← ensure (bool_decide (confirmed completion = required))
        (violation "post-spawn completion does not match completion-observable dimensions");
  _ ← validate_dimension_evidence required (completion_evidence completion);
  ensure (negb (process_tree_membership required &&
                negb (bool_decide (cleanup_confidence completion = KernelOwnedComplete))))
    (violation "managed-tree completion lacks kernel-owned complete cleanup").

(** How a call ends: it returns, it panics, or a panic while unwinding aborts the process. *)
Inductive ended (A : Type) := Returned (a : A) | Panicked | Aborted.
Arguments Returned {A} a.
Arguments Panicked {A}.
Arguments Aborted {A}.
(** The calls made on a lifecycle. *)
Inductive lifecycle_call := Executed | CleanedUp.

Section supervision.
Context {W : Type} `{HO : Host W}.

Record ExecutionLifecycle := mk_lifecycle {
  lc_execute : W → W * ended (exec_result ExecutionOutcome);
  lc_cleanup : W → W * ended CompletionEvidence;
}.
Record OwnedExecutionAttempt := mk_attempt {
  oa_preflight : ValidatedPreflight;
  oa_lifecycle : ExecutionLifecycle;
}.
(** The default [runtime_filesystem_additions] adds nothing and the default [bind_filesystem] is
    [bindings_canonical_path]. *)
Record ExecutionBackend := mk_backend {
  containment_support : ExecutionRequest → W → W * ContainmentSupport;
  runtime_filesystem_additions : ExecutionRequest → W → W * exec_result RuntimeFilesystemAdditions;
  bind_filesystem : ExecutionRequest → ResolvedSandboxPolicy → W → W * exec_result FilesystemBindings;
  prepare : ExecutionRequest → ValidatedPreflight → W → W * exec_result OwnedExecutionAttempt;
}.

(** [Drop]: the fallback cleanup of an attempt that was not finished, while it unwinds. *)
Definition drop_unwinding (preflight : ValidatedPreflight) (lc : ExecutionLifecycle) (w : W) :
    W * list lifecycle_call * ended (exec_result ExecutionOutcome) :=
  match lc_cleanup lc w with
  | (w, Returned completion) =>
      (w, [CleanedUp], match validate_completion completion preflight with Ok _ => Panicked | Err _ => Aborted end)
  | (w, _) => (w, [CleanedUp], Aborted)
  end.
(** The attempt counts as finished before the cleanup starts, so that a panic here is not
    followed by a second cleanup. *)
Definition checked_fallback (preflight : ValidatedPreflight) (lc : ExecutionLifecycle) (error : ExecutionError) (w : W) :
    W * list lifecycle_call * ended (exec_result ExecutionOutcome) :=
  match lc_cleanup lc w with
  | (w, Returned completion) =>
      (w, [CleanedUp],
        match validate_completion completion preflight with
        | Ok _ => Returned (Err (with_completion error completion))
        | Err _ => Panicked
        end)
  | (w, Panicked) => (w, [CleanedUp], Panicked)
  | (w, Aborted) => (w, [CleanedUp], Aborted)
  end.
Definition after (call : lifecycle_call) (r : W * list lifecycle_call * ended (exec_result ExecutionOutcome)) :
    W * list lifecycle_call * ended (exec_result ExecutionOutcome) :=
  let '(w, calls, e) := r in (w, call :: calls, e).
Definition finish (attempt : OwnedExecutionAttempt) (w : W) :
    W * list lifecycle_call * ended (exec_result ExecutionOutcome) :=
  let preflight := oa_preflight attempt in
  let lc := oa_lifecycle attempt in
  match lc_execute lc w with
  | (w, Returned (Ok outcome)) =>
      match validate_outcome outcome preflight with
      | Err error => after Executed (checked_fallback preflight lc error w)
      | Ok _ => (w, [Executed], Returned (Ok outcome))
      end
  | (w, Returned (Err error)) => after Executed (checked_fallback preflight lc error w)
  | (w, Panicked) => after Executed (drop_unwinding preflight lc w)
  | (w, Aborted) => (w, [Executed], Aborted)
  end.

Definition invalid_identity : ExecutionError := violation "backend returned an invalid identity".
Definition validate_supported_evidence (request : ExecutionRequest) (support : ContainmentSupport) : exec_result () :=
  let required := requested_by (er_policy request) in
  let backend := cs_backend support in
  _ ← map_err (λ _, invalid_identity) (validate_identity_field "backend name" (bi_name backend));
  _ ← map_err (λ _, invalid_identity) (validate_identity_field "backend version" (bi_version backend));
  _ ← match bi_deprecation backend with
      | Some deprecation =>
          map_err (λ _, invalid_identity) (validate_identity_field "backend deprecation" deprecation)
      | None => Ok ()
      end;
  let platform := default "unknown platform" (cs_platform support) in
  let reason := default "no reason reported" (cs_reason support) in
  _ ← ensure (is_supported support)
        (unsupported_error ("sandbox containment is unavailable on " +:+ platform +:+ ": " +:+ reason));
  _ ← ensure (bool_decide (cs_requested support = required))
        (violation "backend requested evidence does not match the execution policy");
  _ ← ensure (contains (cs_declared support) required && contains (cs_observed support) required)
        (unsupported_error "requested restrictions lack declared or observed backend support");
  _ ← validate_dimension_evidence (cs_declared support) (cs_declared_evidence support);
  validate_dimension_evidence (cs_observed support) (cs_observed_evidence support).

(** The backend of a platform without one; the version is the crate's. *)
Definition no_backend_identity (version : string) : BackendIdentity :=
  mk_backend_identity "tapid-runner/no-backend" version None.
Definition no_backend_support (version os : string) (request : ExecutionRequest) : ContainmentSupport :=
  unsupported (no_backend_identity version) os "no platform execution backend is implemented"
    (requested_by (er_policy request)) no_dimensions no_dimensions.
Definition no_backend (version os : string) : ExecutionBackend := {|
  containment_support request w := (w, no_backend_support version os request);
  runtime_filesystem_additions _ w := (w, Ok no_additions);
  bind_filesystem _ policy w := (w, bindings_canonical_path w policy);
  prepare _ _ w := (w, Err (new_error Internal
    (Text "containment backend reported support but execution is not implemented")));
|}.

(** A step of the generic execution before an attempt exists. *)
Definition stop (w : W) (e : ended ExecutionError) : W * list lifecycle_call * ended (exec_result ExecutionOutcome) :=
  (w, [], match e with Returned error => Returned (Err error) | Panicked => Panicked | Aborted => Aborted end).
Definition or_stop {A} (w : W) (r : exec_result A)
    (k : A → W * list lifecycle_call * ended (exec_result ExecutionOutcome)) :
    W * list lifecycle_call * ended (exec_result ExecutionOutcome) :=
  match r with Ok a => k a | Err error => stop w (Returned error) end.
(** [None] only if the loop over the ancestors of a grant lacks fuel. *)
Definition execute_with_backend (backend : ExecutionBackend) (request : ExecutionRequest) (w : W) :
    option (W * list lifecycle_call * ended (exec_result ExecutionOutcome)) :=
  match validate_request w request with Err e => Some (stop w (Returned e)) | Ok _ =>
  if bool_decide (sp_mode (er_policy request) = Disabled)
  then Some (stop w (Returned (violation "sandboxed execution does not accept disabled sandbox policies"))) else
  let '(w, support) := containment_support backend request w in
  match validate_supported_evidence request support with Err e => Some (stop w (Returned e)) | Ok _ =>
  let '(w, additions) := runtime_filesystem_additions backend request w in
  match additions with Err e => Some (stop w (Returned e)) | Ok additions =>
  resolved ← resolve_policy w request additions;
  match resolved with Err e => Some (stop w (Returned e)) | Ok policy =>
  match validate_policy w policy with Err e => Some (stop w (Returned e)) | Ok _ =>
  let '(w, bindings) := bind_filesystem backend request policy w in
  match bindings with Err e => Some (stop w (Returned e)) | Ok bindings =>
  match validate_bindings w policy bindings with Err e => Some (stop w (Returned e)) | Ok _ =>
  match child_environment request with None => Some (stop w Panicked) | Some environment =>
  let preflight := mk_preflight support policy bindings environment in
  Some (
    or_stop w (validate_bindings w policy bindings) (λ _,
    or_stop w (ensure (is_some (environment !! "PATH"))
      (new_error Internal (Text "validated child environment is missing mandatory PATH"))) (λ _,
    or_stop w (validate_trusted_node_runtime w request) (λ _,
    let '(w, attempt) := prepare backend request preflight w in
    or_stop w attempt (λ attempt, finish attempt w)))))
  end end end end end end end end.
End supervision.
Arguments ExecutionLifecycle W : clear implicits.
Arguments OwnedExecutionAttempt W : clear implicits.
Arguments ExecutionBackend W : clear implicits.
