(* ===== verification/ExecutionThm.v ===== *)
(** * tapid-runner: the contract of a sandboxed execution

    Whatever a backend reports, an execution that succeeds kept the policy it was given, and one
    that fails after a process may have started was cleaned up exactly once. *)
From S2P Require Import Prelude Order RustStr Workspace Policy RunnerConfig RunnerConfigThm Enforcement Grants Request GrantsThm Execution.

(** ** Ceilings *)
Definition limit_within (requested ceiling : option Z) : Prop :=
  ∀ limit, ceiling = Some limit → ∃ value, requested = Some value ∧ (value <= limit)%Z.
(** The dimensions of a policy that a ceiling bounds, apart from its grants. *)
Definition dimensions_within (policy ceiling : SandboxPolicy) : Prop :=
  (sp_mode ceiling = Required → sp_mode policy = Required) ∧
  (sp_assurance ceiling = ManagedTree → sp_assurance policy = ManagedTree) ∧
  (sp_network policy = true → sp_network ceiling = true) ∧
  (sp_subprocess policy = true → sp_subprocess ceiling = true) ∧
  (∀ name, name ∈ sp_environment policy → name ∈ sp_environment ceiling) ∧
  limit_within (timeout_seconds (sp_limits policy)) (timeout_seconds (sp_limits ceiling)) ∧
  limit_within (max_output_bytes (sp_limits policy)) (max_output_bytes (sp_limits ceiling)) ∧
  limit_within (max_processes (sp_limits policy)) (max_processes (sp_limits ceiling)) ∧
  limit_within (max_memory_bytes (sp_limits policy)) (max_memory_bytes (sp_limits ceiling)).
Lemma bounded_true requested ceiling : bounded requested ceiling = true ↔ limit_within requested ceiling.
Proof.
  unfold bounded, limit_within. destruct ceiling as [limit|]; [|naive_solver]. destruct requested as [value|].
  - rewrite Z.leb_le. split; [intros ? ? [= <-]; eauto|]. intros H. by destruct (H _ eq_refl) as (?&[= <-]&?).
  - split; [done|]. intros H. by destruct (H _ eq_refl) as (?&?&_).
Qed.
Lemma guarded a b : negb (a && negb b) = true ↔ (a = true → b = true).
Proof. destruct a, b; naive_solver. Qed.
Lemma validate_dimension_ceiling_Ok policy ceiling :
  validate_dimension_ceiling policy ceiling = Ok () ↔ dimensions_within policy ceiling.
Proof.
  unfold validate_dimension_ceiling, dimensions_within. cbv zeta. rewrite !ensure_then, ensure_Ok, !guarded, !andb_true_iff.
  rewrite !bounded_true, !bool_decide_eq_true, forallb_forall. setoid_rewrite bool_decide_eq_true.
  setoid_rewrite <-list_elem_of_In. tauto.
Qed.

Section host.
Context {W : Type} `{HO : Host W}.

Lemma resolve_each_total w root access configured : is_Some (resolve_each w root access configured).
Proof.
  induction configured as [|path configured [r IH]]; [done|]. cbn [resolve_each].
  destruct (resolve_project_grant_total w root path access) as [[g|e] ->]; [|done]. cbn [mbind option_bind]. by rewrite IH.
Qed.
Lemma resolve_each_Ok w root access configured grants :
  resolve_each w root access configured = Some (Ok grants) →
  Forall2 (λ path g, resolve_project_grant w root path access = Some (Ok g)) configured grants.
Proof.
  revert grants. induction configured as [|path configured IH]; intros grants; cbn [resolve_each]; [by intros [= <-]; constructor|].
  destruct (resolve_project_grant w root path access) as [[g|e]|] eqn:E; cbn; [|done..].
  destruct (resolve_each w root access configured) as [[others|e]|]; cbn; [|done..].
  intros [= <-]. constructor; [done|]. by apply IH.
Qed.
(** Every requested grant is at a configured grant or below a configured directory. *)
Definition grants_within (w : W) (root : string) (access : FilesystemAccess) (requested : list ResolvedGrant)
    (configured : list string) : Prop :=
  ∀ g, g ∈ requested → ∃ path cap, path ∈ configured ∧ resolve_project_grant w root path access = Some (Ok cap) ∧
    (path_components (g_path g) = path_components (g_path cap) ∨
     g_kind cap = DirectorySubtree ∧ path_starts_with (g_path cap) (g_path g) = true).
Lemma validate_grant_ceiling_total w root requested configured access dimension :
  is_Some (validate_grant_ceiling w root requested configured access dimension).
Proof.
  unfold validate_grant_ceiling. destruct (resolve_each_total w root access configured) as [r ->]. by eexists.
Qed.
Lemma validate_grant_ceiling_Ok w root requested configured access dimension :
  validate_grant_ceiling w root requested configured access dimension = Some (Ok ()) →
  grants_within w root access requested configured.
Proof.
  unfold validate_grant_ceiling. destruct (resolve_each w root access configured) as [[allowed|e]|] eqn:E; cbn; [|done..].
  intros [= H]. rewrite ensure_Ok, forallb_forall in H. intros g Hg. apply list_elem_of_In, H in Hg.
  apply existsb_elem in Hg as (cap&Hcap&Hw). apply resolve_each_Ok in E.
  apply list_elem_of_lookup in Hcap as [i Hi]. destruct (Forall2_lookup_r _ _ _ _ _ E Hi) as (path&Hp&Hr).
  exists path, cap. split_and!; [by eapply list_elem_of_lookup_2|done|]. unfold within_cap in Hw.
  apply orb_true_iff in Hw as [Hw|Hw]; [left; by apply path_eqb_true|]. bool_prop. right.
  by rewrite bool_decide_eq_true in *.
Qed.
(** A policy within the ceiling of its request. *)
Definition ceiling_respected (w : W) (request : ExecutionRequest) (root : string) (read write : list ResolvedGrant) : Prop :=
  ∀ ceiling, er_policy_ceiling request = Some ceiling →
    dimensions_within (er_policy request) ceiling ∧
    grants_within w root Read read (fp_read (sp_filesystem ceiling)) ∧
    grants_within w root Write write (fp_write (sp_filesystem ceiling)).
Lemma validate_ceiling_total w request root read write : is_Some (validate_ceiling w request root read write).
Proof.
  unfold validate_ceiling. destruct (er_policy_ceiling request) as [ceiling|]; [|done].
  destruct (validate_dimension_ceiling _ _); [|done].
  edestruct (validate_grant_ceiling_total w root read) as [[?|?] ->]; [|done]. cbn. apply validate_grant_ceiling_total.
Qed.
Lemma validate_ceiling_Ok w request root read write :
  validate_ceiling w request root read write = Some (Ok ()) → ceiling_respected w request root read write.
Proof.
  unfold validate_ceiling, ceiling_respected. intros H ceiling Hc. rewrite Hc in H.
  destruct (validate_dimension_ceiling _ _) as [[]|] eqn:Hd; [|done]. apply validate_dimension_ceiling_Ok in Hd.
  destruct (validate_grant_ceiling w root read _ _ _) as [[[]|]|] eqn:Hr; cbn in H; [|done..].
  apply validate_grant_ceiling_Ok in Hr, H. done.
Qed.

Lemma search_directory_Ok w path g : resolve_executable_search_directory w path = Ok g →
  g_access g = Read ∧ g_kind g = DirectorySubtree ∧ g_source g = BackendRuntime ∧ path_is_absolute path = true ∧
  h_canonicalize w path = Ok (g_path g).
Proof.
  unfold resolve_executable_search_directory, canonical_path. intros H. run_ok H. injection H as <-. done.
Qed.
(** An executable search directory: read-only, at exactly the requested path. *)
Definition search_grant (path : string) (g : ResolvedGrant) : Prop :=
  g_source g = BackendRuntime ∧ g_access g = Read ∧ g_kind g = DirectorySubtree ∧
  path_components path = path_components (g_path g).
Lemma search_aliases w paths search resolved : Forall2 (λ path g, resolve_executable_search_directory w path = Ok g) paths search →
  resolved = search → validate_resolved_executable_search_paths paths resolved = Ok () → Forall2 search_grant paths search.
Proof.
  intros Hs -> H. unfold validate_resolved_executable_search_paths in H. run_ok H. rewrite for_each_Ok in H. clear H0.
  revert H. induction Hs as [|path g paths search Hg Hs IH]; intros H; [constructor|]. cbn in H. constructor.
  - apply search_directory_Ok in Hg as (?&?&?&_). specialize (H (path, g) ltac:(by left)).
    rewrite ensure_Ok in H. apply path_eqb_true in H. by split_and!.
  - apply IH. intros pair Hp. apply H. by right.
Qed.
(** ** Resolution of a policy *)
Record resolution (w : W) (request : ExecutionRequest) (additions : RuntimeFilesystemAdditions)
    (policy : ResolvedSandboxPolicy) (read write search : list ResolvedGrant) : Prop := {
  re_root : h_canonicalize w (er_project_root request) = Ok (rs_project_root policy);
  re_shape : policy = mk_resolved (sp_assurance (er_policy request)) (sp_mode (er_policy request)) (rs_project_root policy)
    (read ++ search ++ ad_read additions) (write ++ ad_write additions) (sp_limits (er_policy request));
  re_read : Forall2 (λ path g, resolve_project_grant w (rs_project_root policy) path Read = Some (Ok g))
    (fp_read (sp_filesystem (er_policy request))) read;
  re_write : Forall2 (λ path g, resolve_project_grant w (rs_project_root policy) path Write = Some (Ok g))
    (fp_write (sp_filesystem (er_policy request))) write;
  re_search : Forall2 search_grant (er_executable_search_paths request) search;
  re_ceiling : ceiling_respected w request (rs_project_root policy) read write;
}.
Lemma resolve_policy_total w request additions : is_Some (resolve_policy w request additions).
Proof.
  unfold resolve_policy. cbv zeta. destruct (canonical_path _ _ _) as [root|]; [|done].
  edestruct (resolve_each_total w root Read) as [[read|?] ->]; [|done]. cbn.
  edestruct (resolve_each_total w root Write) as [[write|?] ->]; [|done]. cbn.
  destruct (validate_ceiling_total w request root read write) as [r ->]. by eexists.
Qed.
Lemma resolve_policy_Ok w request additions policy :
  resolve_policy w request additions = Some (Ok policy) → ∃ read write search, resolution w request additions policy read write search.
Proof.
  unfold resolve_policy. cbv zeta. destruct (canonical_path _ _ _) as [root|] eqn:Hroot; [|done].
  destruct (resolve_each w root Read _) as [[read|?]|] eqn:Hr; cbn; [|done..].
  destruct (resolve_each w root Write _) as [[write|?]|] eqn:Hw; cbn; [|done..].
  destruct (validate_ceiling w request root read write) as [[[]|?]|] eqn:Hc; cbn; [|done..].
  intros [= H]. run_ok H. injection H as <-. exists read, write, x. apply map_err_Ok in Hroot.
  constructor; cbn; [done|done|by apply resolve_each_Ok|by apply resolve_each_Ok| |by apply validate_ceiling_Ok].
  match goal with u : () |- _ => destruct u end. eapply search_aliases; [by apply try_map_Ok|done..].
Qed.
End host.

(** ** Validated requests *)
Ltac ltb_prop := bool_prop; repeat match goal with H : (_ <? _)%Z = false |- _ => apply Z.ltb_ge in H end.
Definition entry_bytes (e : string * string) : Z := (str_len e.1 + str_len e.2 + 2)%Z.
Definition sum_bytes (l : list Z) : Z := foldr Z.add 0%Z l.
(** The block of an environment: each entry with its equals sign and terminator, and the last terminator. *)
Definition block_bytes (environment : gmap string string) : Z :=
  (1 + sum_bytes (entry_bytes <$> btree_iter environment))%Z.
Definition argv_bytes (request : ExecutionRequest) : Z :=
  sum_bytes ((λ s, str_len s + 1)%Z <$> (er_program request :: er_arguments request)).
Lemma sum_bytes_perm (l k : list Z) : l ≡ₚ k → sum_bytes l = sum_bytes k.
Proof. unfold sum_bytes. induction 1; cbn; lia. Qed.
Lemma validate_os_value_Ok what value maximum n : validate_os_value what value maximum = Ok n →
  n = str_len value ∧ contains_char nul_char value = false ∧ (str_len value <= maximum)%Z.
Proof.
  unfold validate_os_value. rewrite !ensure_then, !negb_true_iff, Z.ltb_ge. by intros (?&?&[= <-]).
Qed.
Definition variable_ok (policy : SandboxPolicy) (e : string * string) : Prop :=
  e.1 ∈ sp_environment policy ∧ environment_name e.1 ∧ eq_ignore_ascii_case e.1 "PATH" = false ∧
  contains_char nul_char e.2 = false ∧ (str_len e.2 <= MAX_ENVIRONMENT_VALUE_UNITS)%Z.
Lemma u64_checked_add_Some a b c : u64_checked_add a b = Some c → c = (a + b)%Z.
Proof. unfold u64_checked_add. case_match; [|done]. by intros [= ->]. Qed.
Lemma check_variable_Ok policy units e units' : check_variable policy units e = Ok units' →
  units' = (units + entry_bytes e)%Z ∧ (units' <= MAX_ENVIRONMENT_BLOCK)%Z ∧ variable_ok policy e.
Proof.
  unfold check_variable. destruct e as [name value]. intros H. run_ok H. injection H as <-. ltb_prop.
  match goal with H : validate_environment_name _ = Ok ?u |- _ => destruct u; apply validate_environment_name_Ok in H end.
  match goal with H : validate_os_value _ _ _ = Ok _ |- _ => apply validate_os_value_Ok in H as (->&?&?) end.
  match goal with H : mbind _ _ = Some _ |- _ => rename H into Hu end.
  apply bind_Some in Hu as (a&Ha%u64_checked_add_Some&Hu). apply bind_Some in Hu as (b&Hb%u64_checked_add_Some&Hc%u64_checked_add_Some).
  rewrite bool_decide_eq_true in *. unfold entry_bytes, variable_ok. cbn. split_and!; try done; lia.
Qed.
Lemma check_variables_Ok policy entries units units' : (units <= MAX_ENVIRONMENT_BLOCK)%Z →
  try_fold (check_variable policy) units entries = Ok units' →
  units' = (units + sum_bytes (entry_bytes <$> entries))%Z ∧ (units' <= MAX_ENVIRONMENT_BLOCK)%Z ∧
  Forall (variable_ok policy) entries.
Proof.
  intros Hu. apply (try_fold_prefix (λ pre units', units' = (units + sum_bytes (entry_bytes <$> pre))%Z ∧
    (units' <= MAX_ENVIRONMENT_BLOCK)%Z ∧ Forall (variable_ok policy) pre)).
  - intros pre e post s s' _ (->&_&Hok) (->&?&?)%check_variable_Ok. split_and!; [|done|by apply Forall_app; split; [|apply Forall_singleton]].
    rewrite (sum_bytes_perm (entry_bytes <$> (pre ++ [e])) (entry_bytes e :: (entry_bytes <$> pre))).
    + unfold sum_bytes. cbn. lia.
    + rewrite fmap_app. cbn. by rewrite Permutation_app_comm.
  - split_and!; [cbn; lia|done|constructor].
Qed.
Lemma validate_search_Ok paths joined : validate_executable_search_paths paths = Ok joined →
  join_executable_search_paths paths = Ok joined ∧ joined = join ":" paths ∧ Forall (λ p, contains_char ":" p = false) paths ∧
  (len paths <= MAX_EXECUTABLE_SEARCH_PATH_COUNT)%Z.
Proof.
  unfold validate_executable_search_paths. intros H. run_ok H. injection H as <-. ltb_prop. split; [done|].
  match goal with H : join_executable_search_paths _ = _ |- _ => unfold join_executable_search_paths in H; run_ok H; injection H as <- end.
  split; [done|]. split; [|lia]. match goal with H : for_each (λ path, ensure _ _) _ = _ |- _ => rewrite for_each_Ok in H; rename H into Hc end.
  apply Forall_forall. intros p Hp. specialize (Hc p Hp). rewrite ensure_Ok in Hc. by bool_prop.
Qed.
Lemma validate_command_Ok request u : validate_command request = Ok u → (argv_bytes request <= MAX_ARGV_BYTES)%Z.
Proof.
  unfold validate_command. intros H. run_ok H. ltb_prop.
  match goal with H : validate_os_value _ _ _ = Ok _ |- _ => apply validate_os_value_Ok in H as (->&_&_) end.
  match goal with H : try_fold add_argument_units _ _ = Ok ?n |- _ => rename H into Hf end.
  unfold argv_bytes. cbn [fmap list_fmap sum_bytes foldr]. fold (sum_bytes ((λ s, str_len s + 1)%Z <$> er_arguments request)).
  unfold u64_saturating_add at 1 in Hf. change u64_max with (2 ^ 64 - 1)%Z in Hf.
  assert (∀ l start n, (0 <= start)%Z → try_fold add_argument_units start l = Ok n →
    (Z.min (start + sum_bytes ((λ s, str_len s + 1)%Z <$> l)) u64_max <= Z.min n u64_max)%Z) as Hsum.
  { clear. intros l. induction l as [|s l IH]; intros start n Hs; cbn [try_fold]; [intros [= ->]; cbn; lia|].
    intros Hr. run_ok Hr. unfold add_argument_units in Hr0. run_ok Hr0.
    match goal with H : validate_os_value _ _ _ = Ok _ |- _ => apply validate_os_value_Ok in H as (->&_&_) end.
    injection Hr0 as <-. pose proof (str_len_nonneg s). apply IH in Hr; [|unfold u64_saturating_add, u64_max; lia].
    cbn [fmap list_fmap sum_bytes foldr]. fold (sum_bytes ((λ s, str_len s + 1)%Z <$> l)).
    assert (0 <= sum_bytes ((λ s, str_len s + 1)%Z <$> l))%Z.
    { clear. induction l as [|s l IH]; [done|]. cbn. pose proof (str_len_nonneg s). unfold sum_bytes in IH. lia. }
    unfold u64_saturating_add, u64_max in *. lia. }
  pose proof (str_len_nonneg (er_program request)).
  apply Hsum in Hf; [|lia].
  assert (0 <= sum_bytes ((λ s, str_len s + 1)%Z <$> er_arguments request))%Z.
  { clear. induction (er_arguments request) as [|s l IH]; [done|]. cbn. pose proof (str_len_nonneg s). unfold sum_bytes in IH. lia. }
  unfold MAX_ARGV_BYTES, u64_max in *. lia.
Qed.

Section requests.
Context {W : Type} `{HO : Host W}.

(** A path that is its own canonical path. *)
Definition is_canonical (w : W) (path canonical : string) : Prop :=
  h_canonicalize w path = Ok canonical ∧ path_components canonical = path_components path.
(** A working directory that is what it seems: an existing directory, canonical like the project
    root, and below it. *)
Definition working_directory_inside (w : W) (root directory : string) : Prop :=
  ∃ canonical_root canonical, is_canonical w root canonical_root ∧ is_canonical w directory canonical ∧
    host_is_dir w canonical = true ∧ path_starts_with root directory = true.
Lemma validate_directories_Ok w request u directory :
  validate_directories w request = Ok u → er_working_directory request = Some directory →
  working_directory_inside w (er_project_root request) directory.
Proof.
  unfold validate_directories, canonical_path. cbv zeta. intros H Hd. rewrite Hd in H. run_ok H. bool_prop.
  repeat match goal with H : path_eqb _ _ = true |- _ => apply path_eqb_true in H end.
  repeat match goal with H : map_err _ _ = Ok _ |- _ => apply map_err_Ok in H end.
  eexists _, _. split_and!; [by split|by split|done|]. rewrite path_starts_with_iff in *. congruence.
Qed.
Lemma validated_environment w request : validate_request w request = Ok () →
  ∃ environment, child_environment request = Some environment ∧
    environment !! "PATH" = Some (join ":" (er_executable_search_paths request)).
Proof.
  unfold validate_request. intros H. run_ok H.
  match goal with H : validate_executable_search_paths _ = Ok ?j |- _ => apply validate_search_Ok in H as (Hj&->&_) end.
  unfold child_environment. rewrite Hj. eexists. split; [done|]. by rewrite lookup_insert.
Qed.
(** C26: a validated request passes nothing to the child that the policy did not allow, in
    bounded space.  Every variable of its environment is in the policy's allowlist, has a portable
    name other than [PATH] in any case and a value without NUL; the child gets those and a [PATH],
    which splits back into exactly the executable search directories, or is empty if there are
    none; the environment block with its terminators, [PATH] included, and the argument vector fit
    their 32767 bytes; and a working directory is an existing directory that, like the project
    root, is its own canonical path, and lies below that root: neither [..] nor a symbolic link
    leads out of it. *)
Theorem validated_request w request :
  validate_request w request = Ok () →
  (∀ name value, er_environment request !! name = Some value → variable_ok (er_policy request) (name, value)) ∧
  (∃ path, child_environment request = Some (<["PATH" := path]> (er_environment request)) ∧
    (er_executable_search_paths request ≠ [] → split ":" path = er_executable_search_paths request) ∧
    (er_executable_search_paths request = [] → path = "") ∧
    (block_bytes (<["PATH" := path]> (er_environment request)) <= MAX_ENVIRONMENT_BLOCK)%Z) ∧
  (argv_bytes request <= MAX_ARGV_BYTES)%Z ∧
  (∀ directory, er_working_directory request = Some directory →
     working_directory_inside w (er_project_root request) directory).
Proof.
  unfold validate_request. intros H. run_ok H. clear H. ltb_prop.
  match goal with H : validate_executable_search_paths _ = Ok ?j |- _ => rename H into Hs, j into joined end.
  match goal with H : try_fold (check_variable _) _ _ = Ok _ |- _ => rename H into Hv end.
  match goal with H : mbind _ _ = Some _ |- _ => rename H into Hu end.
  apply validate_search_Ok in Hs as (Hj&->&Hfree&_).
  apply bind_Some in Hu as (a&->%u64_checked_add_Some&Hu). apply bind_Some in Hu as (b&->%u64_checked_add_Some&Hu).
  apply u64_checked_add_Some in Hu as ->. apply check_variables_Ok in Hv as (->&Hle&Hok); [|done].
  rewrite Forall_forall in Hok.
  assert (∀ name value, er_environment request !! name = Some value → variable_ok (er_policy request) (name, value)) as Henv
    by (intros name value Hn; by apply Hok, elem_of_btree_iter).
  split_and!; [done| |by eapply validate_command_Ok|intros; by eapply validate_directories_Ok].
  exists (join ":" (er_executable_search_paths request)). split_and!.
  - unfold child_environment. by rewrite Hj.
  - intros Hne. by apply (split_join ":").
  - by intros ->.
  - unfold block_bytes. rewrite (sum_bytes_perm _ (entry_bytes <$>
      (("PATH", join ":" (er_executable_search_paths request)) :: btree_iter (er_environment request)))).
    + cbn [fmap list_fmap sum_bytes foldr]. unfold entry_bytes at 1. cbn [fst snd].
      change (foldr Z.add 0%Z) with sum_bytes. lia.
    + apply fmap_Permutation. rewrite btree_iter_perm, map_to_list_insert; [by rewrite btree_iter_perm|].
      destruct (er_environment request !! "PATH") as [value|] eqn:E; [|done]. apply Henv in E as (_&_&E&_). done.
Qed.
End requests.

(** ** The contract *)
Section contract.
Context {W : Type} `{HO : Host W}.

(** What the private fields of the reported types leave a backend: evidence, receipts and
    outcomes are built by their checked constructors, for whatever preflight; the memory hint and
    the resolution evidence may be added to them.  An attempt owns the preflight it was given. *)
Definition constructed (o : ExecutionOutcome) : Prop :=
  ∃ pf enforced established receipt resolution pf' done_ evidence confidence completion termination out err o' hint,
    EnforcementReceipt_checked pf enforced established = Ok receipt ∧
    CompletionEvidence_checked pf' done_ evidence confidence = Ok completion ∧
    ExecutionOutcome_checked termination out err
      (mk_receipt resolution (rc_assurance receipt) (rc_support receipt) (rc_enforced receipt)
         (rc_established_evidence receipt) (rc_resolved_filesystem receipt) (rc_configured_limits receipt)) completion = Ok o' ∧
    o = with_process_memory_stats_hint o' hint.
Class BackendLaws (backend : ExecutionBackend W) : Prop := {
  prepare_keeps_preflight request preflight w w' attempt :
    prepare backend request preflight w = (w', Ok attempt) → oa_preflight attempt = preflight;
  outcomes_constructed request preflight w w' attempt u u' o :
    prepare backend request preflight w = (w', Ok attempt) →
    lc_execute (oa_lifecycle attempt) u = (u', Returned (Ok o)) → constructed o;
}.

Lemma constructed_Ok o : constructed o →
  validate_dimension_evidence (rc_enforced (oc_enforcement o)) (rc_established_evidence (oc_enforcement o)) = Ok () ∧
  validate_dimension_evidence (confirmed (oc_completion o)) (completion_evidence (oc_completion o)) = Ok () ∧
  (process_tree_membership (rc_requested (oc_enforcement o)) = true →
   cleanup_confidence (oc_completion o) = KernelOwnedComplete).
Proof.
  intros (pf&enforced&established&receipt&resolution&pf'&done_&evidence&confidence&completion&termination&out&err&o'&hint&Hr&Hc&Ho&->).
  unfold EnforcementReceipt_checked in Hr. cbv zeta in Hr. run_ok Hr. injection Hr as <-.
  unfold CompletionEvidence_checked in Hc. run_ok Hc. injection Hc as <-.
  unfold ExecutionOutcome_checked in Ho. run_ok Ho. injection Ho as <-. cbn in *.
  repeat match goal with u : () |- _ => destruct u end. split_and!; try done.
  match goal with H : negb (_ && _) = true |- _ => rename H into Hm end. rewrite guarded in Hm.
  intros Hp. apply Hm in Hp. by apply bool_decide_eq_true in Hp.
Qed.
Lemma receipt_grants_eqb_true a b : receipt_grants_eqb a b = true →
  Forall2 (λ x y, path_components (rg_path x) = path_components (rg_path y) ∧ rg_access x = rg_access y ∧
                  rg_kind x = rg_kind y ∧ rg_source x = rg_source y ∧ rg_binding x = rg_binding y) a b.
Proof.
  revert b. induction a as [|x a IH]; intros [|y b]; cbn; try done. intros [Hx Hr]%andb_true_iff.
  constructor; [|by apply IH]. unfold receipt_grant_eqb in Hx. bool_prop. rewrite !bool_decide_eq_true in *.
  by match goal with H : path_eqb _ _ = true |- _ => apply path_eqb_true in H end.
Qed.

Lemma receipts_compose grants mid receipts :
  Forall2 receipt_for grants mid → receipt_grants_eqb receipts mid = true → Forall2 receipt_for grants receipts.
Proof.
  intros Hg Hr%receipt_grants_eqb_true. revert receipts Hr. induction Hg as [|g r grants mid Hg _ IH]; intros receipts Hr.
  - apply Forall2_nil_inv_r in Hr as ->. constructor.
  - apply Forall2_cons_inv_r in Hr as (x&rest&(?&?&?&?&_)&?&->). constructor; [|by apply IH].
    destruct Hg as (?&?&?&?). split_and!; congruence.
Qed.
Record contract (backend : ExecutionBackend W) (request : ExecutionRequest) (w : W) (outcome : ExecutionOutcome) : Prop := {
  ct_required : sp_mode (er_policy request) = Required;
  ct_dimensions : rc_enforced (oc_enforcement outcome) = requested_by (er_policy request) ∧
    contains (cs_declared (rc_support (oc_enforcement outcome))) (requested_by (er_policy request)) = true ∧
    contains (cs_observed (rc_support (oc_enforcement outcome))) (requested_by (er_policy request)) = true;
  ct_evidence : evidence_complete (requested_by (er_policy request)) (rc_established_evidence (oc_enforcement outcome));
  ct_limits : rc_configured_limits (oc_enforcement outcome) = sp_limits (er_policy request) ∧
    (∀ limit, max_output_bytes (sp_limits (er_policy request)) = Some limit →
       str_len (oc_stdout outcome) + str_len (oc_stderr outcome) <= limit)%Z ∧
    termination_allowed (sp_limits (er_policy request)) (oc_termination outcome) = true;
  ct_completion : confirmed (oc_completion outcome) = completion_required (requested_by (er_policy request)) ∧
    evidence_complete (completion_required (requested_by (er_policy request))) (completion_evidence (oc_completion outcome)) ∧
    (sp_assurance (er_policy request) = ManagedTree → cleanup_confidence (oc_completion outcome) = KernelOwnedComplete);
  ct_grants : ∃ w1 w2 additions root read write search,
    containment_support backend request w = (w1, rc_support (oc_enforcement outcome)) ∧
    runtime_filesystem_additions backend request w1 = (w2, Ok additions) ∧
    h_canonicalize w2 (er_project_root request) = Ok root ∧
    Forall2 (project_grant w2 root Read) (fp_read (sp_filesystem (er_policy request))) read ∧
    Forall2 (project_grant w2 root Write) (fp_write (sp_filesystem (er_policy request))) write ∧
    Forall2 search_grant (er_executable_search_paths request) search ∧
    ceiling_respected w2 request root read write ∧
    Forall2 receipt_for ((read ++ search ++ ad_read additions) ++ write ++ ad_write additions)
      (rc_resolved_filesystem (oc_enforcement outcome));
}.

Lemma membership_requested policy : process_tree_membership (requested_by policy) = true ↔
  sp_mode policy ≠ Disabled ∧ sp_assurance policy = ManagedTree.
Proof.
  unfold requested_by. case_bool_decide; cbn; [naive_solver|]. rewrite bool_decide_eq_true. naive_solver.
Qed.
Lemma validate_outcome_Ok outcome pf : validate_outcome outcome pf = Ok () →
  rc_support (oc_enforcement outcome) = pf_support pf ∧
  rc_enforced (oc_enforcement outcome) = cs_requested (pf_support pf) ∧
  rc_configured_limits (oc_enforcement outcome) = rs_limits (pf_policy pf) ∧
  receipt_grants_eqb (rc_resolved_filesystem (oc_enforcement outcome)) (bindings_receipt (pf_bindings pf)) = true ∧
  confirmed (oc_completion outcome) = completion_required (cs_requested (pf_support pf)) ∧
  (∀ limit, max_output_bytes (rs_limits (pf_policy pf)) = Some limit →
     str_len (oc_stdout outcome) + str_len (oc_stderr outcome) <= limit)%Z ∧
  termination_allowed (rs_limits (pf_policy pf)) (oc_termination outcome) = true.
Proof.
  unfold validate_outcome. cbv zeta. intros H. run_ok H. bool_prop. rewrite !bool_decide_eq_true in *.
  match goal with H : checked_captured_output_bytes _ _ = Ok _ |- _ =>
    unfold checked_captured_output_bytes in H; apply ok_or_Ok, u64_checked_add_Some in H as -> end.
  split_and!; try done. intros limit Hl. rewrite Hl in *. ltb_prop. lia.
Qed.

Lemma attempt_finish_Ok (attempt : OwnedExecutionAttempt W) w w' calls outcome :
  finish attempt w = (w', calls, Returned (Ok outcome)) →
  calls = [Executed] ∧ validate_outcome outcome (oa_preflight attempt) = Ok () ∧
  lc_execute (oa_lifecycle attempt) w = (w', Returned (Ok outcome)).
Proof.
  unfold finish, checked_fallback, drop_unwinding, after.
  destruct (lc_execute _ w) as [w1 [[o|e]| |]]; [destruct (validate_outcome o _) as [[]|e] eqn:Hv; [by intros [= <- <- <-]|]|..];
    try done; destruct (lc_cleanup _ w1) as [w2 [c| |]]; try done; by destruct (validate_completion _ _).
Qed.
Definition fresh_preflight (request : ExecutionRequest) (support : ContainmentSupport) (policy : ResolvedSandboxPolicy)
    (bindings : FilesystemBindings) (pf : ValidatedPreflight) : Prop :=
  ∃ environment, pf = mk_preflight support policy bindings environment ∧ child_environment request = Some environment.
Lemma execute_Ok backend request w w' calls outcome :
  execute_with_backend backend request w = Some (w', calls, Returned (Ok outcome)) →
  ∃ support additions policy bindings pf attempt w1 u v u1 u2 u3,
    containment_support backend request w = (w1, support) ∧ runtime_filesystem_additions backend request w1 = (u, Ok additions) ∧
    sp_mode (er_policy request) ≠ Disabled ∧ validate_supported_evidence request support = Ok () ∧
    resolve_policy u request additions = Some (Ok policy) ∧ validate_policy u policy = Ok () ∧
    validate_bindings v policy bindings = Ok () ∧ fresh_preflight request support policy bindings pf ∧
    prepare backend request pf u1 = (u2, Ok attempt) ∧ finish attempt u2 = (u3, calls, Returned (Ok outcome)).
Proof.
  unfold execute_with_backend. destruct (validate_request w request) as [[]|]; [|done].
  destruct (bool_decide (sp_mode _ = Disabled)) eqn:Hmode; [done|]. apply bool_decide_eq_false in Hmode.
  destruct (containment_support backend request w) as [w1 support] eqn:Hcs.
  destruct (validate_supported_evidence request support) as [[]|] eqn:Hs; [|done].
  destruct (runtime_filesystem_additions backend request w1) as [w2 [additions|]] eqn:Hadd; [|done].
  destruct (resolve_policy w2 request additions) as [[policy|]|] eqn:Hr; cbn [mbind option_bind]; [|done..].
  destruct (validate_policy w2 policy) as [[]|] eqn:Hp; [|done].
  destruct (bind_filesystem backend request policy w2) as [w3 [bindings|]]; [|done].
  destruct (validate_bindings w3 policy bindings) as [[]|] eqn:Hb; [|done].
  destruct (child_environment request) as [environment|] eqn:He; [|done]. cbn [or_stop].
  destruct (is_some (environment !! "PATH")); [|done]. cbn [ensure or_stop].
  destruct (validate_trusted_node_runtime w3 request) as [[]|]; [|done]. cbn [or_stop].
  destruct (prepare backend request _ w3) as [w4 [attempt|]] eqn:Ha; [|done]. cbn [or_stop]. intros [= Hf].
  exists support, additions, policy, bindings, (mk_preflight support policy bindings environment), attempt, w1, w2, w3, w3, w4, w'.
  split_and!; try done. by exists environment.
Qed.
Lemma supported_Ok request support : validate_supported_evidence request support = Ok () →
  cs_requested support = requested_by (er_policy request) ∧
  contains (cs_declared support) (requested_by (er_policy request)) = true ∧
  contains (cs_observed support) (requested_by (er_policy request)) = true.
Proof.
  unfold validate_supported_evidence. cbv zeta. intros H. run_ok H. bool_prop. rewrite !bool_decide_eq_true in *. done.
Qed.
Lemma project_grants w root access configured (grants : list ResolvedGrant) policy :
  access = Read ∨ access = Write → rs_project_root policy = root →
  validate_policy w policy = Ok () → (∀ g, g ∈ grants → g ∈ all_grants policy) →
  Forall2 (λ path g, resolve_project_grant w root path access = Some (Ok g)) configured grants →
  Forall2 (project_grant w root access) configured grants.
Proof.
  intros Hacc <- Hv Hin Hall. induction Hall as [|path g paths grants Hg _ IH]; constructor.
  - apply resolved_project_grant; [done..|]. eapply validate_policy_Ok; [done|]. apply Hin. by left.
  - apply IH. intros g' Hg'. apply Hin. by right.
Qed.

(** C11: the contract of a sandboxed execution.  Whatever support a backend reports, whatever
    grants it declares, bindings it makes and outcome it returns, if the execution succeeds then the
    policy was in [Required] mode; the dimensions enforced are exactly those the policy asks for,
    declared and observed by the backend, each with one complete piece of evidence of the right
    scope; the limits are the policy's, the captured output is within them, and a termination by
    a limit happened only where that limit is set; the completion confirms what a managed tree
    requires, and for a managed tree the kernel owned the cleanup; and the effective grants are,
    one for one and nothing else, those of the policy's configured paths, the read-only executable
    search directories at exactly the requested paths, and the additions that the backend declared
    for this request.  A configured path is granted exactly: the canonical path of its target in the
    project, or for a missing write target the subtree at it below the canonical path of an
    existing ancestor, either way inside the canonical project root and within the configured
    ceiling. *)
Theorem sandbox_contract (backend : ExecutionBackend W) `{!BackendLaws backend} request w w' calls outcome :
  execute_with_backend backend request w = Some (w', calls, Returned (Ok outcome)) →
  contract backend request w outcome.
Proof.
  intros (support&additions&policy&bindings&pf&attempt&w1&u&v&u1&u2&u3&Hcs&Hadd&Hmode&Hs&Hr&Hp&Hb&(environment&->&_)&Ha&Hf)%execute_Ok.
  pose proof (prepare_keeps_preflight _ _ _ _ _ Ha) as Hpf. apply attempt_finish_Ok in Hf as (_&Hv&Hx). rewrite Hpf in Hv.
  pose proof (outcomes_constructed _ _ _ _ _ _ _ _ Ha Hx) as (Hev&Hcev&Hk)%constructed_Ok.
  apply validate_outcome_Ok in Hv as (Hsup&Henf&Hlim&Hgr&Hconf&Hout&Hterm). cbn in *.
  apply supported_Ok in Hs as (Hreq&Hdecl&Hobs). rewrite Hreq in *.
  apply resolve_policy_Ok in Hr as (read&write&search&[Hroot Hshape Hread Hwrite Hsearch Hceil]).
  assert (rs_limits policy = sp_limits (er_policy request)) as Hl by by rewrite Hshape. rewrite Hl in *.
  constructor.
  - by destruct (sp_mode (er_policy request)).
  - rewrite Hsup. by split_and!.
  - rewrite Henf in Hev. by apply validate_dimension_evidence_complete.
  - by split_and!.
  - rewrite Hconf in Hcev. split_and!; [done|by apply validate_dimension_evidence_complete|].
    intros Hm. apply Hk. unfold rc_requested. rewrite Hsup, Hreq. by apply membership_requested.
  - exists w1, u, additions, (rs_project_root policy), read, write, search. apply validate_bindings_Ok in Hb.
    assert (all_grants policy = (read ++ search ++ ad_read additions) ++ write ++ ad_write additions) as Hall
      by by rewrite Hshape.
    rewrite Hall in Hb. split_and!; [by rewrite Hsup|done|done| | |done|done|].
    + eapply project_grants; [by left|done|exact Hp| |exact Hread]. intros g Hg. rewrite Hall. set_solver.
    + eapply project_grants; [by right|done|exact Hp| |exact Hwrite]. intros g Hg. rewrite Hall. set_solver.
    + eapply receipts_compose; [exact Hb|exact Hgr].
Qed.

(** ** Cleanup *)
(** A backend whose lifecycles return, with completion evidence that satisfies the contract. *)
Definition orderly (backend : ExecutionBackend W) : Prop :=
  ∀ request preflight w w' attempt, prepare backend request preflight w = (w', Ok attempt) →
    (∀ u, ∃ u' r, lc_execute (oa_lifecycle attempt) u = (u', Returned r)) ∧
    (∀ u, ∃ u' c, lc_cleanup (oa_lifecycle attempt) u = (u', Returned c) ∧
                  validate_completion c (oa_preflight attempt) = Ok ()).
Definition cleaned_up (error : ExecutionError) : Prop :=
  ∃ completion preflight, ee_completion error = Some completion ∧ validate_completion completion preflight = Ok ().
(** The ways an execution ends, by the calls made on the lifecycle. *)
Inductive settled : list lifecycle_call → ended (exec_result ExecutionOutcome) → Prop :=
| never_started error : settled [] (Returned (Err error))
| succeeded outcome : settled [Executed] (Returned (Ok outcome))
| backend_aborted : settled [Executed] Aborted
| failed_clean error : cleaned_up error → settled [Executed; CleanedUp] (Returned (Err error))
| cleanup_panicked : settled [Executed; CleanedUp] Panicked
| cleanup_aborted : settled [Executed; CleanedUp] Aborted.

Lemma fallback_settled pf lc error (w : W) :
  ∃ w' calls e, after Executed (checked_fallback pf lc error w) = (w', calls, e) ∧ settled calls e ∧
    ((∃ u' c, lc_cleanup lc w = (u', Returned c) ∧ validate_completion c pf = Ok ()) → ∃ r, e = Returned r).
Proof.
  unfold checked_fallback, after. destruct (lc_cleanup lc w) as [w2 [c| |]] eqn:Hc.
  - destruct (validate_completion c pf) as [[]|] eqn:Hv.
    + do 3 eexists. split; [done|]. split; [constructor; by exists c, pf|eauto].
    + do 3 eexists. split; [done|]. split; [constructor|]. intros (u&c'&[= -> ->]&Hv'). by rewrite Hv in Hv'.
  - do 3 eexists. split; [done|]. split; [constructor|]. by intros (u&c'&?&_).
  - do 3 eexists. split; [done|]. split; [constructor|]. by intros (u&c'&?&_).
Qed.
Lemma finish_settled (attempt : OwnedExecutionAttempt W) w :
  ∃ w' calls e, finish attempt w = (w', calls, e) ∧ settled calls e ∧
    ((∀ u, ∃ u' r, lc_execute (oa_lifecycle attempt) u = (u', Returned r)) →
     (∀ u, ∃ u' c, lc_cleanup (oa_lifecycle attempt) u = (u', Returned c) ∧
                   validate_completion c (oa_preflight attempt) = Ok ()) → ∃ r, e = Returned r).
Proof.
  unfold finish. cbv zeta. destruct (lc_execute (oa_lifecycle attempt) w) as [w1 [[o|error]| |]] eqn:Hx.
  - destruct (validate_outcome o _) as [[]|error].
    + do 3 eexists. split; [done|]. split; [constructor|eauto].
    + destruct (fallback_settled (oa_preflight attempt) (oa_lifecycle attempt) error w1) as (w'&calls&e&->&?&He).
      do 3 eexists. split; [done|]. split; [done|]. intros _ Hc. by apply He.
  - destruct (fallback_settled (oa_preflight attempt) (oa_lifecycle attempt) error w1) as (w'&calls&e&->&?&He).
    do 3 eexists. split; [done|]. split; [done|]. intros _ Hc. by apply He.
  - unfold drop_unwinding, after. destruct (lc_cleanup (oa_lifecycle attempt) w1) as [w2 [c| |]];
      [destruct (validate_completion c _)|..]; do 3 eexists; (split; [done|]; split; [constructor|]);
      intros Hr _; destruct (Hr w) as (?&?&Hr'); by rewrite Hx in Hr'.
  - do 3 eexists. split; [done|]. split; [constructor|]. intros Hr _. destruct (Hr w) as (?&?&Hr'). by rewrite Hx in Hr'.
Qed.

(** C12: an execution always ends, and what it started it cleaned up.  The generic execution
    returns for every backend and request; it never panics on its own, the joining of validated
    search paths included.  Either no lifecycle was ever run and it returned an error, or it ran
    one, once: on success nothing is cleaned up; on any failure after that (an error of the
    backend, an outcome that breaks the contract, a panic) the cleanup is run exactly once, and
    an error that is returned carries completion evidence that was checked.  A panic or an abort
    comes only from a lifecycle that panics itself or whose cleanup evidence breaks the contract:
    with an orderly backend every execution returns. *)
Theorem execution_settles (backend : ExecutionBackend W) request w :
  ∃ w' calls e, execute_with_backend backend request w = Some (w', calls, e) ∧ settled calls e ∧
    (orderly backend → ∃ r, e = Returned r).
Proof.
  assert (∀ (w : W) error, ∃ w' calls e, Some (stop w (Returned error)) = Some (w', calls, e) ∧ settled calls e ∧
    (orderly backend → ∃ r, e = Returned r)) as Hstop.
  { intros u error. do 3 eexists. split; [done|]. split; [constructor|eauto]. }
  unfold execute_with_backend. destruct (validate_request w request) as [[]|] eqn:Hreq; [|apply Hstop].
  destruct (bool_decide (sp_mode _ = Disabled)); [apply Hstop|].
  destruct (containment_support backend request w) as [w1 support].
  destruct (validate_supported_evidence request support) as [[]|]; [|apply Hstop].
  destruct (runtime_filesystem_additions backend request w1) as [w2 [additions|]]; [|apply Hstop].
  destruct (resolve_policy_total w2 request additions) as [[policy|] ->]; cbn [mbind option_bind]; [|apply Hstop].
  destruct (validate_policy w2 policy) as [[]|]; [|apply Hstop].
  destruct (bind_filesystem backend request policy w2) as [w3 [bindings|]]; [|apply Hstop].
  destruct (validate_bindings w3 policy bindings) as [[]|]; [|apply Hstop].
  apply validated_environment in Hreq as (environment&->&Hpath). cbn [or_stop].
  rewrite Hpath. cbn [ensure or_stop is_some].
  destruct (validate_trusted_node_runtime w3 request) as [[]|]; cbn [or_stop]; [|apply Hstop].
  destruct (prepare backend request _ w3) as [w4 [attempt|]] eqn:Ha; cbn [or_stop]; [|apply Hstop].
  destruct (finish_settled attempt w4) as (w'&calls&e&->&?&He). do 3 eexists. split; [done|]. split; [done|].
  intros Ho. destruct (Ho _ _ _ _ _ Ha). by apply He.
Qed.
End contract.

(** ** A backend that runs *)
(** A project with a missing write directory, which binding materializes; the world records
    whether it exists. *)
Definition sample_directories (built : bool) : list string :=
  ["/project"; "/runtime/bin"] ++ (if built then ["/project/build"] else []).
Definition sample_missing : io_error := mk_io true "not found".
#[export] Instance sample_host : Host bool := {|
  h_canonicalize built path :=
    let text := path_text (path_components path) in
    if bool_decide (text ∈ sample_directories built) then Ok text else Err sample_missing;
  h_lexists built path :=
    if bool_decide (path_text (path_components path) ∈ sample_directories built) then Ok () else Err sample_missing;
  h_metadata built path :=
    if bool_decide (path_text (path_components path) ∈ sample_directories built)
    then Ok (mk_metadata HostDirectory 1 2 0 493) else Err sample_missing;
  h_open _ _ := Err sample_missing;
  h_file_metadata _ _ := Err sample_missing;
|}.
Definition sample_sandbox : SandboxPolicy :=
  mk_sandbox Required ManagedTree (mk_filesystem ["."] ["build"]) false ["CI"] true (mk_limits None (Some 16%Z) None None).
Definition sample_exec_request : ExecutionRequest :=
  mk_exec_request None "sh" ["-c"; "npm test"] ["/runtime/bin"] None false false "/project" None sample_sandbox
    (Some sample_sandbox) {["CI" := "1"]}.
Definition sample_dimensions : EnforcementDimensions := requested_by sample_sandbox.
Definition sample_evidence (d : EnforcementDimensions) : list DimensionEvidence := evidence_for_dimensions d "sample" [].
Definition sample_completion : CompletionEvidence :=
  mk_completion (completion_required sample_dimensions) (sample_evidence (completion_required sample_dimensions)) KernelOwnedComplete.
Definition sample_outcome (stdout : string) (pf : ValidatedPreflight) : exec_result ExecutionOutcome :=
  receipt ← EnforcementReceipt_checked pf sample_dimensions (sample_evidence sample_dimensions);
  completion ← CompletionEvidence_checked pf (completion_required sample_dimensions)
                 (sample_evidence (completion_required sample_dimensions)) KernelOwnedComplete;
  ExecutionOutcome_checked (Exited 0) stdout "" receipt completion.
Definition sample_backend (stdout : string) : ExecutionBackend bool := {|
  containment_support _ w := (w, supported (mk_backend_identity "sample" "1" None) sample_dimensions sample_dimensions
    sample_dimensions (sample_evidence sample_dimensions) (sample_evidence sample_dimensions));
  runtime_filesystem_additions _ w := (w, Ok no_additions);
  bind_filesystem _ policy _ := (true, bindings_canonical_path true policy);
  prepare _ pf w := (w, Ok (mk_attempt pf (mk_lifecycle (λ u, (u, Returned (sample_outcome stdout pf)))
    (λ u, (u, Returned sample_completion)))));
|}.
#[export] Instance sample_backend_laws stdout : BackendLaws (sample_backend stdout).
Proof.
  split.
  - by intros request pf w w' attempt [= _ <-].
  - intros request pf w w' attempt u u' o [= _ <-] [= _ Ho]. cbn in Ho. unfold sample_outcome in Ho. run_ok Ho.
    exists pf, sample_dimensions, (sample_evidence sample_dimensions), x, (rc_executable_resolution x), pf,
      (completion_required sample_dimensions), (sample_evidence (completion_required sample_dimensions)),
      KernelOwnedComplete, x0, (Exited 0), stdout, "", o, false.
    split_and!; [done|done|by destruct x|]. unfold ExecutionOutcome_checked in Ho. run_ok Ho. by injection Ho as <-.
Qed.
Definition sample_run (stdout : string) := execute_with_backend (sample_backend stdout) sample_exec_request false.
Definition ran (r : option (bool * list lifecycle_call * ended (exec_result ExecutionOutcome))) :
    option (bool * bool * nat) :=
  match r with
  | Some (built, calls, Returned (Ok _)) => Some (built, true, length calls)
  | Some (built, calls, Returned (Err e)) => Some (built, is_some (ee_completion e), length calls)
  | _ => None
  end.
(** Within the output limit the run succeeds; beyond it the outcome is refused and cleaned up. *)
Example run_within_limit : ran (sample_run "ok") = Some (true, true, 1).
Proof. vm_compute. reflexivity. Qed.
Example run_beyond_limit : ran (sample_run "far too much output") = Some (true, true, 2).
Proof. vm_compute. reflexivity. Qed.
Lemma sample_run_succeeds : ∃ w' calls outcome, sample_run "ok" = Some (w', calls, Returned (Ok outcome)).
Proof.
  assert (match sample_run "ok" with Some (_, _, Returned (Ok _)) => true | _ => false end = true) as H
    by (vm_compute; reflexivity).
  destruct (sample_run "ok") as [[[w' calls] [[o|e]| |]]|]; try discriminate H. by exists w', calls, o.
Qed.
Lemma sandbox_contract_witness : ∃ w' calls outcome,
  sample_run "ok" = Some (w', calls, Returned (Ok outcome)) ∧ contract (sample_backend "ok") sample_exec_request false outcome.
Proof.
  destruct sample_run_succeeds as (w'&calls&outcome&H). exists w', calls, outcome. split; [exact H|].
  exact (sandbox_contract (sample_backend "ok") sample_exec_request false w' calls outcome H).
Defined.
Lemma sample_request_valid : validate_request false sample_exec_request = Ok ().
Proof. vm_compute. reflexivity. Qed.
Lemma validated_request_witness :
  ∃ path, child_environment sample_exec_request = Some (<["PATH" := path]> {["CI" := "1"]}) ∧ split ":" path = ["/runtime/bin"].
Proof.
  destruct (validated_request false sample_exec_request sample_request_valid) as (_&(path&Hp&Hs&_)&_).
  exists path. split; [exact Hp|]. apply Hs. discriminate.
Defined.
