(* ===== verification/Signatures.v ===== *)
(** * Trust envelopes, release manifests and transparency records

    crates/tapid-signatures (lib.rs, release.rs) and crates/tapid-transparency: key rings,
    canonical signing payloads, signing and verification, and inclusion records.  Ed25519 and
    the canonical JSON printer are parameters; an array of 32 bytes is a string of that length,
    made where the code converts one. *)
From S2P Require Import Prelude Order RustStr Crates Json JsonValue.

(** ** Crates *)
(** [ed25519_dalek]: keys, seeds and signatures as bytes. *)
Class Ed25519 : Type := {
  ed_sign : string → string → string;       (* [SigningKey::from_bytes(seed).sign(m).to_bytes()] *)
  ed_public : string → string;              (* [SigningKey::from_bytes(seed).verifying_key().to_bytes()] *)
  ed_key : string → result string ();       (* [VerifyingKey::from_bytes] and its error *)
  ed_signature : string → result string (); (* [Signature::from_slice] and its error *)
  ed_verify : string → string → string → bool; (* [key.verify(m, signature).is_ok()] *)
}.
(** The public key of a seed is a key of 32 bytes, a signature has 64, and it verifies. *)
Class Ed25519Laws `{Ed25519} : Prop := {
  ed_public_key seed : String.length seed = 32%nat →
    String.length (ed_public seed) = 32%nat ∧ ed_key (ed_public seed) = Ok ();
  ed_sign_length seed m : String.length seed = 32%nat →
    String.length (ed_sign seed m) = 64%nat ∧ ed_signature (ed_sign seed m) = Ok ();
  ed_verify_sign seed m : String.length seed = 32%nat → ed_verify (ed_public seed) m (ed_sign seed m) = true;
}.
(** [serde_jcs::to_string], the JSON canonicalization scheme, and its error. *)
Class Jcs : Type := { jcs : json → result string string }.
(** The texts of base64 errors. *)
Class Base64Message : Type := { b64_message : string → string }.

(** Values with the same canonical text are the same but for the precision of numbers. *)
Class JcsLaws `{Jcs} : Prop := {
  jcs_same v w s : jcs v = Ok s → jcs w = Ok s → same_value (to_value v) (to_value w);
}.

(** ** Names and errors *)
Definition ENVELOPE_VERSION : string := "tapid-trust-envelope-v1".
Definition DIGEST_ALGORITHM : string := "sha256".
Definition SIGNATURE_ALGORITHM : string := "ed25519".
Definition KEY_RING_VERSION : string := "tapid-release-keyring-v1".

Record TrustedKey := mk_trusted_key { tk_key_id : string; tk_algorithm : string; tk_public_key : string }.
Record EmbeddedTrustedKey := mk_embedded_key {
  ek_key_id : string;
  ek_algorithm : string;
  ek_public_key : string;
  ek_fingerprint : string;
}.
Record EmbeddedKeyRing := mk_embedded_ring { er_version : string; er_keys : list EmbeddedTrustedKey }.
Definition KeyRing : Type := gmap string TrustedKey.
Definition KeyRing_new : KeyRing := ∅.

Inductive VerificationError :=
| Unsigned
| SubjectMismatch
| ArtifactDigestMismatch
| UnsupportedAlgorithm (algorithm : string)
| UnknownKeyId (key_id : string)
| KeyIdMismatch
| InvalidKeyId (key_id : string)
| DuplicateKeyId (key_id : string)
| UnsupportedKeyRingVersion (version : string)
| KeyFingerprintMismatch
| InvalidKeyMaterial (reason : string)
| ManifestDigestMismatch
| InvalidSignature
| PublicKeyRequired
| InvalidEnvelope (reason : string).
Definition VerificationError_display (e : VerificationError) : string :=
  match e with
  | Unsigned => "envelope is unsigned; cryptographic verification is unavailable"
  | SubjectMismatch => "signature subject does not match envelope subject"
  | ArtifactDigestMismatch => "signature artifact digest does not match envelope"
  | UnsupportedAlgorithm a => "unsupported signature algorithm: " +:+ a
  | UnknownKeyId k => "unknown trusted key ID: " +:+ k
  | KeyIdMismatch => "signature key ID does not match trusted key"
  | InvalidKeyId k => "invalid key ID: " +:+ k
  | DuplicateKeyId k => "duplicate trusted key ID: " +:+ k
  | UnsupportedKeyRingVersion v => "unsupported key ring version: " +:+ v
  | KeyFingerprintMismatch => "trusted key fingerprint does not match public key"
  | InvalidKeyMaterial e => "invalid embedded key material: " +:+ e
  | ManifestDigestMismatch => "release manifest digest does not match signature"
  | InvalidSignature => "signature verification failed"
  | PublicKeyRequired => "a trusted public key is required for verification"
  | InvalidEnvelope e => "invalid envelope: " +:+ e
  end.
Notation verification := (result VerificationError).

Record CanonicalError := mk_canonical_error { CanonicalError_display : string }.
Notation canonical := (result CanonicalError).

(** ** Key rings *)
Definition key_id_byte (b : ascii) : bool :=
  byte_is_alphanumeric b || bool_decide (b ∈ ["."; "_"; ":"; "-"]%char).
Definition validate_key_id (key_id : string) : verification () :=
  ensure (negb (is_empty key_id || (128 <? str_len key_id)%Z || negb (str_forallb key_id_byte key_id)))
    (InvalidKeyId key_id).
Definition KeyRing_insert (ring : KeyRing) (key : TrustedKey) : verification KeyRing :=
  _ ← validate_key_id (tk_key_id key);
  _ ← ensure (str_eqb (tk_algorithm key) SIGNATURE_ALGORITHM) (UnsupportedAlgorithm (tk_algorithm key));
  _ ← ensure (negb (contains_key (tk_key_id key) ring)) (DuplicateKeyId (tk_key_id key));
  Ok (<[tk_key_id key := key]> ring).
Definition KeyRing_contains_key (ring : KeyRing) (key_id : string) : bool := contains_key key_id ring.
Definition KeyRing_len (ring : KeyRing) : Z := Z.of_nat (size ring).
Definition KeyRing_is_empty (ring : KeyRing) : bool := bool_decide (ring = ∅).
Definition get_for_release (ring : KeyRing) (key_id : string) : option TrustedKey := ring !! key_id.
Definition KeyRing_get (ring : KeyRing) (key_id : string) : verification TrustedKey :=
  ok_or (UnknownKeyId key_id) (ring !! key_id).

Definition read_embedded_key (v : json) : option EmbeddedTrustedKey :=
  fields ← struct_fields true
    [("key_id", Required); ("algorithm", Required); ("public_key", Required); ("fingerprint", Required)] v;
  match fields with
  | [Some id; Some algorithm; Some public_key; Some fingerprint] =>
      id ← read_string id; algorithm ← read_string algorithm; public_key ← read_string public_key;
      fingerprint ← read_string fingerprint; Some (mk_embedded_key id algorithm public_key fingerprint)
  | _ => None
  end.
Definition read_embedded_ring (v : json) : option EmbeddedKeyRing :=
  fields ← struct_fields true [("version", Required); ("keys", Required)] v;
  match fields with
  | [Some version; Some keys] =>
      version ← read_string version; keys ← read_vec read_embedded_key keys; Some (mk_embedded_ring version keys)
  | _ => None
  end.

(** ** Envelopes *)
Record DetachedSignature := mk_detached {
  ds_algorithm : string;
  ds_key_id : string;
  ds_subject : string;
  ds_artifact_digest : string;
  ds_value : string;
}.
Record TrustEnvelope := mk_envelope {
  te_version : string;
  te_subject : string;
  te_artifact_digest : string;
  te_claims : json;
  te_signature : option DetachedSignature;
}.
Definition read_signature (v : json) : option DetachedSignature :=
  fields ← struct_fields false
    [("algorithm", Required); ("key_id", Required); ("subject", Required); ("artifact_digest", Required);
     ("value", Required)] v;
  match fields with
  | [Some algorithm; Some id; Some subject; Some digest; Some value] =>
      algorithm ← read_string algorithm; id ← read_string id; subject ← read_string subject;
      digest ← read_string digest; value ← read_string value; Some (mk_detached algorithm id subject digest value)
  | _ => None
  end.
Definition read_envelope (v : json) : option TrustEnvelope :=
  fields ← struct_fields false
    [("version", Required); ("subject", Required); ("artifact_digest", Required); ("claims", Required);
     ("signature", Optional)] v;
  match fields with
  | [Some version; Some subject; Some digest; Some claims; signature] =>
      version ← read_string version; subject ← read_string subject; digest ← read_string digest;
      signature ← read_field (read_option read_signature) (Some None) signature;
      Some (mk_envelope version subject digest (to_value claims) signature)
  | _ => None
  end.
Definition write_signature (s : DetachedSignature) : json :=
  write_struct [field "algorithm" (JString (ds_algorithm s)); field "key_id" (JString (ds_key_id s));
                field "subject" (JString (ds_subject s)); field "artifact_digest" (JString (ds_artifact_digest s));
                field "value" (JString (ds_value s))].
Definition write_envelope (e : TrustEnvelope) : json :=
  write_struct [field "version" (JString (te_version e)); field "subject" (JString (te_subject e));
                field "artifact_digest" (JString (te_artifact_digest e)); field "claims" (te_claims e);
                ("signature", write_signature <$> te_signature e)].

Definition unsigned_envelope (subject artifact_digest : string) (claims : json) : TrustEnvelope :=
  mk_envelope ENVELOPE_VERSION subject artifact_digest claims None.
Definition with_signature (e : TrustEnvelope) (s : DetachedSignature) : TrustEnvelope :=
  mk_envelope (te_version e) (te_subject e) (te_artifact_digest e) (te_claims e) (Some s).

(** [Map::new] and a sequence of [insert]s. *)
Definition json_map (fields : list (string * json)) : json := of_object (btree_collect fields).
Definition signature_context (algorithm key_id : string) (more : list (string * json)) : string * json :=
  ("signature_context", json_map ([("algorithm", JString algorithm); ("key_id", JString key_id)] ++ more)).
Definition envelope_fields (e : TrustEnvelope) : list (string * json) :=
  [("artifact_digest", JString (te_artifact_digest e)); ("claims", te_claims e);
   ("subject", JString (te_subject e)); ("version", JString (te_version e))].
Definition envelope_payload (e : TrustEnvelope) (algorithm key_id : option string) : json :=
  json_map (envelope_fields e ++
    match algorithm, key_id with
    | Some algorithm, Some key_id => [signature_context algorithm key_id []]
    | _, _ => []
    end).

Section signatures.
Context `{SH : Sha256} `{JC : Jcs} `{B64 : Base64} `{BM : Base64Message} `{ED : Ed25519}.

Definition canonical_json (v : json) : canonical string := map_err mk_canonical_error (jcs v).
(** [serde_json::to_string] over bytes cannot fail here; the function always returns [Ok]. *)
Definition digest (bytes : string) : canonical string := Ok ("sha256-" +:+ sha256_hex bytes).

Definition signing_bytes_with_context (e : TrustEnvelope) (algorithm key_id : option string) : canonical string :=
  canonical_json (envelope_payload e algorithm key_id).
Definition signing_bytes (e : TrustEnvelope) : canonical string := signing_bytes_with_context e None None.
Definition sign (e : TrustEnvelope) (key_id secret_key : string) : canonical TrustEnvelope :=
  _ ← map_err (λ error, mk_canonical_error (VerificationError_display error)) (validate_key_id key_id);
  bytes ← signing_bytes_with_context e (Some SIGNATURE_ALGORITHM) (Some key_id);
  Ok (with_signature e (mk_detached SIGNATURE_ALGORITHM key_id (te_subject e) (te_artifact_digest e)
                          (b64_encode (ed_sign secret_key bytes)))).
Definition decode_base64 (value : string) : result string string := ok_or (b64_message value) (b64_decode value).
Definition invalid_canonical (error : CanonicalError) : VerificationError := InvalidEnvelope (CanonicalError_display error).
Definition verify_with_trusted_key (e : TrustEnvelope) (key : TrustedKey) : verification () :=
  detached ← ok_or Unsigned (te_signature e);
  _ ← validate_key_id (ds_key_id detached);
  _ ← ensure (str_eqb (ds_key_id detached) (tk_key_id key)) KeyIdMismatch;
  _ ← ensure (str_eqb (ds_algorithm detached) (tk_algorithm key) && str_eqb (ds_algorithm detached) SIGNATURE_ALGORITHM)
        (UnsupportedAlgorithm (ds_algorithm detached));
  _ ← ensure (str_eqb (ds_subject detached) (te_subject e)) SubjectMismatch;
  _ ← ensure (str_eqb (ds_artifact_digest detached) (te_artifact_digest e)) ArtifactDigestMismatch;
  _ ← map_err InvalidEnvelope (ed_key (tk_public_key key));
  signature_bytes ← map_err InvalidEnvelope (decode_base64 (ds_value detached));
  _ ← map_err InvalidEnvelope (ed_signature signature_bytes);
  bytes ← map_err invalid_canonical
            (signing_bytes_with_context e (Some (ds_algorithm detached)) (Some (ds_key_id detached)));
  ensure (ed_verify (tk_public_key key) bytes signature_bytes) InvalidSignature.
Definition verify_with_keyring (e : TrustEnvelope) (keyring : KeyRing) : verification () :=
  signature ← ok_or Unsigned (te_signature e);
  _ ← validate_key_id (ds_key_id signature);
  key ← KeyRing_get keyring (ds_key_id signature);
  verify_with_trusted_key e key.
Definition verify_with_public_key (e : TrustEnvelope) (public_key : string) : verification () :=
  signature ← ok_or Unsigned (te_signature e);
  verify_with_trusted_key e (mk_trusted_key (ds_key_id signature) (ds_algorithm signature) public_key).
Definition envelope_digest (e : TrustEnvelope) : canonical string :=
  bytes ← signing_bytes e; digest bytes.
Definition verify_binding (e : TrustEnvelope) : verification () :=
  signature ← ok_or Unsigned (te_signature e);
  _ ← validate_key_id (ds_key_id signature);
  _ ← ensure (str_eqb (ds_algorithm signature) SIGNATURE_ALGORITHM) (UnsupportedAlgorithm (ds_algorithm signature));
  _ ← ensure (str_eqb (ds_subject signature) (te_subject e)) SubjectMismatch;
  _ ← ensure (str_eqb (ds_artifact_digest signature) (te_artifact_digest e)) ArtifactDigestMismatch;
  Err PublicKeyRequired.

(** ** Embedded key material *)
Definition invalid_material (error : CanonicalError) : VerificationError := InvalidKeyMaterial (CanonicalError_display error).
(** [try_into().expect("length checked")] *)
Definition insert_embedded (ring : KeyRing) (embedded : EmbeddedTrustedKey) : verification KeyRing :=
  _ ← validate_key_id (ek_key_id embedded);
  _ ← ensure (str_eqb (ek_algorithm embedded) SIGNATURE_ALGORITHM) (UnsupportedAlgorithm (ek_algorithm embedded));
  public_key ← map_err (λ e, InvalidKeyMaterial ("invalid public key: " +:+ e)) (decode_base64 (ek_public_key embedded));
  _ ← ensure (negb (negb (str_len public_key =? 32)%Z || negb (str_eqb (b64_encode public_key) (ek_public_key embedded))))
        (InvalidKeyMaterial "public key must be canonical padded Base64 for 32 bytes");
  fingerprint ← map_err invalid_material (digest public_key);
  _ ← ensure (str_eqb fingerprint (ek_fingerprint embedded)) KeyFingerprintMismatch;
  _ ← map_err InvalidKeyMaterial (ed_key public_key);
  KeyRing_insert ring (mk_trusted_key (ek_key_id embedded) (ek_algorithm embedded) public_key).
End signatures.

Section texts.
Context `{SH : Sha256} `{JC : Jcs} `{B64 : Base64} `{BM : Base64Message} `{ED : Ed25519} `{JX : JsonCodec}.
(** [serde_json::from_slice]: bytes that are not UTF-8 are refused. *)
Definition json_of_bytes (bytes : string) : option json := if utf8_valid bytes then json_parse bytes else None.
Definition from_embedded_json (bytes : string) : verification KeyRing :=
  material ← ok_or (InvalidKeyMaterial (json_message bytes)) (v ← json_of_bytes bytes; read_embedded_ring v);
  _ ← ensure (str_eqb (er_version material) KEY_RING_VERSION) (UnsupportedKeyRingVersion (er_version material));
  try_fold insert_embedded KeyRing_new (er_keys material).
(** The trust root, from the text of data/release-keyring.json. *)
Definition production (keyring_json : string) : verification KeyRing := from_embedded_json keyring_json.
End texts.

(** ** Release manifests *)
Section release.
Context `{SH : Sha256} `{JC : Jcs} `{B64 : Base64} `{BM : Base64Message} `{ED : Ed25519}.

Definition not_an_object : CanonicalError := mk_canonical_error "release manifest must be a JSON object".
Definition manifest_signing_bytes (manifest : json) : canonical string :=
  unsigned ← ok_or not_an_object (as_object manifest);
  canonical_json (of_object (delete "signature" unsigned)).
Definition release_payload (unsigned : gmap string json) (algorithm key_id signed_digest : string) : json :=
  let context := signature_context algorithm key_id [("signed_digest", JString signed_digest)] in
  of_object (<[context.1 := context.2]> (delete "signature" unsigned)).
Definition signature_payload (manifest : json) (algorithm key_id signed_digest : string) : canonical string :=
  unsigned ← ok_or not_an_object (as_object manifest);
  canonical_json (release_payload unsigned algorithm key_id signed_digest).
Definition detached_fields (algorithm key_id signed_digest value : string) : json :=
  json_map [("algorithm", JString algorithm); ("key_id", JString key_id); ("signed_digest", JString signed_digest);
            ("value", JString value)].
Definition sign_manifest (manifest : json) (key_id secret_key : string) : canonical json :=
  _ ← map_err (λ error, mk_canonical_error (VerificationError_display error)) (validate_key_id key_id);
  unsigned_bytes ← manifest_signing_bytes manifest;
  signed_digest ← digest unsigned_bytes;
  bytes ← signature_payload manifest SIGNATURE_ALGORITHM key_id signed_digest;
  object ← ok_or not_an_object (as_object manifest);
  Ok (of_object (<["signature" := detached_fields SIGNATURE_ALGORITHM key_id signed_digest
                                    (b64_encode (ed_sign secret_key bytes))]> object)).

Definition string_field (object : gmap string json) (field : string) : verification string :=
  ok_or (InvalidEnvelope ("signature." +:+ field +:+ " must be a string")) (v ← object !! field; as_str v).
Definition known_field (field : string) : bool :=
  bool_decide (field ∈ ["algorithm"; "key_id"; "signed_digest"; "value"]).
Definition digest_shaped (signed_digest : string) : bool :=
  (str_len signed_digest =? 71)%Z && starts_with "sha256-" signed_digest &&
  str_forallb (λ b, is_hexdigit b) (str_drop 7 signed_digest).
Definition verify_manifest (manifest : json) (keyring : KeyRing) : verification () :=
  object ← ok_or (InvalidEnvelope "release manifest must be an object") (as_object manifest);
  signature ← ok_or Unsigned (v ← object !! "signature"; as_object v);
  _ ← ensure (negb (existsb (λ field, negb (known_field field)) (btree_keys signature)))
        (InvalidEnvelope "signature contains unknown fields");
  algorithm ← string_field signature "algorithm";
  key_id ← string_field signature "key_id";
  signed_digest ← string_field signature "signed_digest";
  value ← string_field signature "value";
  _ ← ensure (str_eqb algorithm SIGNATURE_ALGORITHM) (UnsupportedAlgorithm algorithm);
  _ ← validate_key_id key_id;
  _ ← ensure (digest_shaped signed_digest) (InvalidEnvelope "signature.signed_digest must be a sha256 digest");
  key ← ok_or (UnknownKeyId key_id) (get_for_release keyring key_id);
  _ ← ensure (str_eqb (tk_algorithm key) algorithm) (UnsupportedAlgorithm (tk_algorithm key));
  unsigned_bytes ← map_err invalid_canonical (manifest_signing_bytes manifest);
  actual ← map_err invalid_canonical (digest unsigned_bytes);
  _ ← ensure (str_eqb actual signed_digest) ManifestDigestMismatch;
  bytes ← map_err invalid_canonical (signature_payload manifest algorithm key_id signed_digest);
  signature_bytes ← map_err InvalidEnvelope (decode_base64 value);
  _ ← ensure (str_len signature_bytes =? 64)%Z (InvalidEnvelope "signature.value must decode to 64 bytes");
  _ ← map_err InvalidEnvelope (ed_signature signature_bytes);
  _ ← map_err InvalidEnvelope (ed_key (tk_public_key key));
  ensure (ed_verify (tk_public_key key) bytes signature_bytes) InvalidSignature.
End release.

(** ** Transparency records *)
Record TransparencyInclusionRecord := mk_inclusion {
  ti_envelope_digest : string;
  ti_log_id : string;
  ti_tree_size : Z;
  ti_leaf_index : Z;
  ti_inclusion_path : list string;
  ti_witnessed_at : string;
}.
Definition validate_inclusion (r : TransparencyInclusionRecord) : result string () :=
  _ ← ensure (negb (is_empty (ti_envelope_digest r) || is_empty (ti_log_id r) || is_empty (ti_witnessed_at r)))
        "digest, log_id, and witnessed_at are required";
  _ ← ensure (negb (ti_tree_size r <=? ti_leaf_index r)%Z) "leaf_index must be less than tree_size";
  ensure (negb (existsb is_empty (ti_inclusion_path r))) "inclusion path entries must be non-empty".
Definition write_inclusion (r : TransparencyInclusionRecord) : json :=
  write_struct [field "envelope_digest" (JString (ti_envelope_digest r)); field "log_id" (JString (ti_log_id r));
                field "tree_size" (JNumber (ti_tree_size r)); field "leaf_index" (JNumber (ti_leaf_index r));
                field "inclusion_path" (write_strings (ti_inclusion_path r));
                field "witnessed_at" (JString (ti_witnessed_at r))].
Section transparency.
Context `{SH : Sha256} `{JC : Jcs}.
Definition canonical_bytes (r : TransparencyInclusionRecord) : canonical string :=
  canonical_json (to_value (write_inclusion r)).
Definition binds_to (r : TransparencyInclusionRecord) (e : TrustEnvelope) : canonical bool :=
  digest ← envelope_digest e; Ok (str_eqb (ti_envelope_digest r) digest).
End transparency.
