(* ===== verification/SecurityEvidence.v ===== *)
(** * Security evidence and attestations

    crates/tapid-protocol (lib.rs, security.rs) and crates/tapid-attestations (lib.rs,
    security.rs): the wire form of package identities, the security contract with its strict
    readers, the verification of evidence, and attestation claims. *)
From S2P Require Import Prelude Order RustStr Crates Core Json Signatures.
From Stdlib Require Import SpecFloat.

(** ** Wire identities *)
Record PackageInstanceWire := mk_wire { pw_registry : string; pw_name : string; pw_version : string }.
#[export] Instance PackageInstanceWire_eq_dec : EqDecision PackageInstanceWire.
Proof. solve_decision. Defined.
Definition wire_specs : list (string * presence) := [("registry", Required); ("name", Required); ("version", Required)].
Definition read_wire (deny : bool) (v : json) : option PackageInstanceWire :=
  fields ← struct_fields deny wire_specs v;
  match fields with
  | [Some registry; Some name; Some version] =>
      registry ← read_string registry; name ← read_string name; version ← read_string version;
      Some (mk_wire registry name version)
  | _ => None
  end.
Definition write_wire (w : PackageInstanceWire) : json :=
  write_struct [field "registry" (JString (pw_registry w)); field "name" (JString (pw_name w));
                field "version" (JString (pw_version w))].
Section wire.
Context `{SV : Semver} `{UC : UrlCrate}.
Definition wire_of_instance (value : PackageInstanceId) : PackageInstanceWire :=
  mk_wire (source_as_str (id_registry value)) (PackageName_display (id_name value))
    (PackageVersion_display (id_version value)).
Definition instance_of_wire (value : PackageInstanceWire) : result DomainError PackageInstanceId :=
  registry ← PackageSource_from_str (pw_registry value);
  name ← PackageName_from_str (pw_name value);
  version ← PackageVersion_from_str (pw_version value);
  Ok (from_source registry name version).
End wire.

(** ** The contract's data *)
Definition SECURITY_CONTRACT_V1 : string := "tapid-security-v1".
Definition MAX_SECURITY_BYTES : Z := 262144.
Record SecurityPlatform := mk_security_platform {
  sp_os : option string;
  sp_cpu : option string;
  sp_libc : option string;
}.
#[export] Instance SecurityPlatform_eq_dec : EqDecision SecurityPlatform.
Proof. solve_decision. Defined.
Record SecuritySubject := mk_subject {
  ss_package : PackageInstanceWire;
  ss_requested_name : string;
  ss_placement : string;
  ss_peers : gmap string PackageInstanceWire;
  ss_platform : SecurityPlatform;
}.
#[export] Instance SecuritySubject_eq_dec : EqDecision SecuritySubject.
Proof. solve_decision. Defined.
Inductive SecurityCheck := Advisory | Artifact (digest : string).
#[export] Instance SecurityCheck_eq_dec : EqDecision SecurityCheck.
Proof. solve_decision. Defined.
Inductive EvidenceAudience := Public | Tenant (tenant : string).
#[export] Instance EvidenceAudience_eq_dec : EqDecision EvidenceAudience.
Proof. solve_decision. Defined.
Record SecurityRequest := mk_security_request {
  sr_version : string;
  sr_subject : SecuritySubject;
  sr_check : SecurityCheck;
  sr_coverage : list string;
  sr_audience : EvidenceAudience;
}.
#[export] Instance SecurityRequest_eq_dec : EqDecision SecurityRequest.
Proof. solve_decision. Defined.
Inductive SecurityStatus :=
| Findings
| NoKnownFindings
| NotScanned
| Unavailable
| Stale
| Partial
| Unsupported
| InvalidEvidence.
#[export] Instance SecurityStatus_eq_dec : EqDecision SecurityStatus.
Proof. solve_decision. Defined.
Inductive SecurityScope := PackageVersionScope | ArtifactBytes.
#[export] Instance SecurityScope_eq_dec : EqDecision SecurityScope.
Proof. solve_decision. Defined.
Record SecurityFinding := mk_finding { sf_id : string; sf_summary : string; sf_severity : string }.
#[export] Instance SecurityFinding_eq_dec : EqDecision SecurityFinding.
Proof. solve_decision. Defined.
Record SecurityResult := mk_security_result {
  sx_version : string;
  sx_request : SecurityRequest;
  sx_issuer : string;
  sx_sequence : Z;
  sx_status : SecurityStatus;
  sx_scanner : string;
  sx_scanner_version : string;
  sx_rule_version : string;
  sx_scope : SecurityScope;
  sx_coverage : list string;
  sx_source_revision : string;
  sx_checked_at : Z;
  sx_issued_at : Z;
  sx_expires_at : Z;
  sx_findings : list SecurityFinding;
  sx_limitations : list string;
}.
Inductive SecurityReason :=
| InputTooLarge
| Malformed
| UnsupportedVersion
| InvalidRequest
| SubjectMismatch
| DigestMismatch
| UnknownIssuer
| UntrustedKey
| InvalidSignature
| InvalidEnvelope
| InvalidResult
| Expired
| FutureEvidence
| Replay
| IncompleteCoverage.
#[export] Instance SecurityReason_eq_dec : EqDecision SecurityReason.
Proof. solve_decision. Defined.
Notation security_result := (result SecurityReason).

(** ** Strict readers *)
Definition read_u64 (v : json) : option Z :=
  match v with
  | JNumber n => if (0 <=? n)%Z && (n <=? u64_max)%Z then Some n else None
  | _ => None
  end.
(** A derived enum of unit variants: its name, or an object with its name and [null]. *)
Definition read_unit_enum {A} (variants : list (string * A)) (v : json) : option A :=
  match v with
  | JString s | JObject [(s, JNull)] => snd <$> List.find (λ kv, str_eqb kv.1 s) variants
  | _ => None
  end.
(** A derived enum with [tag]: the tag's one value and the other fields in their order; an
    array gives the tag first. *)
Definition read_tagged (tag : string) (v : json) : option (string * json) :=
  match v with
  | JObject fields =>
      match base.filter (λ kv, kv.1 = tag) fields with
      | [(_, JString name)] => Some (name, JObject (base.filter (λ kv, kv.1 ≠ tag) fields))
      | _ => None
      end
  | JArray (JString name :: rest) => Some (name, JArray rest)
  | _ => None
  end.
(** A unit variant takes an object whatever its fields, and an empty array. *)
Definition read_unit_variant (content : json) : option () :=
  match content with JObject _ | JArray [] => Some () | _ => None end.
Definition read_text_variant (name : string) (content : json) : option string :=
  fields ← struct_fields true [(name, Required)] content;
  match fields with [Some v] => read_string v | _ => None end.
Definition read_check (v : json) : option SecurityCheck :=
  '(kind, content) ← read_tagged "kind" v;
  if str_eqb kind "advisory" then _ ← read_unit_variant content; Some Advisory
  else if str_eqb kind "artifact" then Artifact <$> read_text_variant "digest" content
  else None.
Definition read_audience (v : json) : option EvidenceAudience :=
  '(visibility, content) ← read_tagged "visibility" v;
  if str_eqb visibility "public" then _ ← read_unit_variant content; Some Public
  else if str_eqb visibility "tenant" then Tenant <$> read_text_variant "tenant" content
  else None.
Definition security_statuses : list (string * SecurityStatus) :=
  [("findings", Findings); ("no_known_findings", NoKnownFindings); ("not_scanned", NotScanned);
   ("unavailable", Unavailable); ("stale", Stale); ("partial", Partial); ("unsupported", Unsupported);
   ("invalid_evidence", InvalidEvidence)].
Definition security_scopes : list (string * SecurityScope) :=
  [("package_version", PackageVersionScope); ("artifact_bytes", ArtifactBytes)].
Definition max_peers : nat := 128.
(** One turn of [visit_map]'s loop. *)
Definition add_peer (peers : gmap string PackageInstanceWire) (entry : string * json) :
    option (gmap string PackageInstanceWire) :=
  if (max_peers <=? size peers)%nat || contains_key entry.1 peers then None
  else package ← read_wire true entry.2; Some (<[entry.1 := package]> peers).
Fixpoint insert_peers (peers : gmap string PackageInstanceWire) (entries : list (string * json)) :
    option (gmap string PackageInstanceWire) :=
  match entries with
  | [] => Some peers
  | entry :: entries => peers ← add_peer peers entry; insert_peers peers entries
  end.
Definition unique_peers (v : json) : option (gmap string PackageInstanceWire) :=
  match v with JObject entries => insert_peers ∅ entries | _ => None end.
Definition platform_specs : list (string * presence) := [("os", Optional); ("cpu", Optional); ("libc", Optional)].
Definition read_platform (v : json) : option SecurityPlatform :=
  fields ← struct_fields true platform_specs v;
  match fields with
  | [os; cpu; libc] =>
      os ← read_field (read_option read_string) (Some None) os;
      cpu ← read_field (read_option read_string) (Some None) cpu;
      libc ← read_field (read_option read_string) (Some None) libc;
      Some (mk_security_platform os cpu libc)
  | _ => None
  end.
Definition subject_specs : list (string * presence) :=
  [("package", Required); ("requestedName", Required); ("placement", Required); ("peers", Required);
   ("platform", Required)].
Definition read_subject (v : json) : option SecuritySubject :=
  fields ← struct_fields true subject_specs v;
  match fields with
  | [Some package; Some requested; Some placement; Some peers; Some platform] =>
      package ← read_wire true package; requested ← read_string requested; placement ← read_string placement;
      peers ← unique_peers peers; platform ← read_platform platform;
      Some (mk_subject package requested placement peers platform)
  | _ => None
  end.
Definition request_specs : list (string * presence) :=
  [("version", Required); ("subject", Required); ("check", Required); ("coverage", Required); ("audience", Required)].
Definition read_request (v : json) : option SecurityRequest :=
  fields ← struct_fields true request_specs v;
  match fields with
  | [Some version; Some subject; Some check; Some coverage; Some audience] =>
      version ← read_string version; subject ← read_subject subject; check ← read_check check;
      coverage ← read_vec read_string coverage; audience ← read_audience audience;
      Some (mk_security_request version subject check coverage audience)
  | _ => None
  end.
Definition finding_specs : list (string * presence) := [("id", Required); ("summary", Required); ("severity", Required)].
Definition read_finding (v : json) : option SecurityFinding :=
  fields ← struct_fields true finding_specs v;
  match fields with
  | [Some id; Some summary; Some severity] =>
      id ← read_string id; summary ← read_string summary; severity ← read_string severity;
      Some (mk_finding id summary severity)
  | _ => None
  end.
Definition result_specs : list (string * presence) :=
  [("version", Required); ("request", Required); ("issuer", Required); ("sequence", Required); ("status", Required);
   ("scanner", Required); ("scannerVersion", Required); ("ruleVersion", Required); ("scope", Required);
   ("coverage", Required); ("sourceRevision", Required); ("checkedAt", Required); ("issuedAt", Required);
   ("expiresAt", Required); ("findings", Required); ("limitations", Required)].
Definition read_result (v : json) : option SecurityResult :=
  fields ← struct_fields true result_specs v;
  match fields with
  | [Some version; Some request; Some issuer; Some sequence; Some status; Some scanner; Some scanner_version;
     Some rule_version; Some scope; Some coverage; Some source_revision; Some checked_at; Some issued_at;
     Some expires_at; Some findings; Some limitations] =>
      version ← read_string version; request ← read_request request; issuer ← read_string issuer;
      sequence ← read_u64 sequence; status ← read_unit_enum security_statuses status;
      scanner ← read_string scanner; scanner_version ← read_string scanner_version;
      rule_version ← read_string rule_version; scope ← read_unit_enum security_scopes scope;
      coverage ← read_vec read_string coverage; source_revision ← read_string source_revision;
      checked_at ← read_u64 checked_at; issued_at ← read_u64 issued_at; expires_at ← read_u64 expires_at;
      findings ← read_vec read_finding findings; limitations ← read_vec read_string limitations;
      Some (mk_security_result version request issuer sequence status scanner scanner_version rule_version scope
              coverage source_revision checked_at issued_at expires_at findings limitations)
  | _ => None
  end.

(** ** Writers *)
Definition write_option (write : string → json) (o : option string) : json :=
  match o with Some s => write s | None => JNull end.
Definition variant_name {A} `{EqDecision A} (variants : list (string * A)) (x : A) : string :=
  from_option fst "" (List.find (λ kv, bool_decide (kv.2 = x)) variants).
Definition write_platform (p : SecurityPlatform) : json :=
  write_struct [field "os" (write_option JString (sp_os p)); field "cpu" (write_option JString (sp_cpu p));
                field "libc" (write_option JString (sp_libc p))].
Definition write_subject (s : SecuritySubject) : json :=
  write_struct [field "package" (write_wire (ss_package s)); field "requestedName" (JString (ss_requested_name s));
                field "placement" (JString (ss_placement s)); field "peers" (write_map write_wire (ss_peers s));
                field "platform" (write_platform (ss_platform s))].
Definition write_check (c : SecurityCheck) : json :=
  match c with
  | Advisory => write_struct [field "kind" (JString "advisory")]
  | Artifact digest => write_struct [field "kind" (JString "artifact"); field "digest" (JString digest)]
  end.
Definition write_audience (a : EvidenceAudience) : json :=
  match a with
  | Public => write_struct [field "visibility" (JString "public")]
  | Tenant tenant => write_struct [field "visibility" (JString "tenant"); field "tenant" (JString tenant)]
  end.
Definition write_request (r : SecurityRequest) : json :=
  write_struct [field "version" (JString (sr_version r)); field "subject" (write_subject (sr_subject r));
                field "check" (write_check (sr_check r)); field "coverage" (write_strings (sr_coverage r));
                field "audience" (write_audience (sr_audience r))].
Definition write_finding (f : SecurityFinding) : json :=
  write_struct [field "id" (JString (sf_id f)); field "summary" (JString (sf_summary f));
                field "severity" (JString (sf_severity f))].
Definition write_result (r : SecurityResult) : json :=
  write_struct
    [field "version" (JString (sx_version r)); field "request" (write_request (sx_request r));
     field "issuer" (JString (sx_issuer r)); field "sequence" (JNumber (sx_sequence r));
     field "status" (JString (variant_name security_statuses (sx_status r)));
     field "scanner" (JString (sx_scanner r)); field "scannerVersion" (JString (sx_scanner_version r));
     field "ruleVersion" (JString (sx_rule_version r));
     field "scope" (JString (variant_name security_scopes (sx_scope r)));
     field "coverage" (write_strings (sx_coverage r)); field "sourceRevision" (JString (sx_source_revision r));
     field "checkedAt" (JNumber (sx_checked_at r)); field "issuedAt" (JNumber (sx_issued_at r));
     field "expiresAt" (JNumber (sx_expires_at r)); field "findings" (JArray (write_finding <$> sx_findings r));
     field "limitations" (write_strings (sx_limitations r))].

(** ** Validation *)
Definition text (value : string) : bool :=
  negb (is_empty (trim value)) && (str_len value <=? 4096)%Z && negb (chars_any char_is_control value).
Definition valid_placement (value : string) : bool :=
  text value && negb (starts_with_char "/" value) && negb (contains_any ["\"; ":"]%char value) &&
  negb (existsb (λ segment, is_empty segment || str_eqb segment "." || str_eqb segment "..") (split "/" value)).
(** [values.iter().enumerate().all(|(i, v)| f(v) && !values[..i].contains(v))] *)
Fixpoint all_fresh (f : string → bool) (before values : list string) : bool :=
  match values with
  | [] => true
  | v :: values => f v && negb (bool_decide (v ∈ before)) && all_fresh f (before ++ [v]) values
  end.
Definition valid_coverage (values : list string) : bool :=
  negb (bool_decide (values = [])) && (length values <=? 128)%nat && all_fresh text [] values.
Definition safe_integer (n : Z) : bool := (n <=? 9007199254740991)%Z.

Section security.
Context `{SV : Semver} `{UC : UrlCrate}.

Definition valid_package (package : PackageInstanceWire) : bool :=
  bool_decide (origin_str <$> to_ok (RegistryOrigin_from_str (pw_registry package)) = Some (pw_registry package)) &&
  is_ok (PackageName_from_str (pw_name package)) &&
  bool_decide (PackageVersion_display <$> to_ok (PackageVersion_from_str (pw_version package)) = Some (pw_version package)).
Definition valid_subject (s : SecuritySubject) : bool :=
  valid_package (ss_package s) && is_ok (PackageName_from_str (ss_requested_name s)) &&
  valid_placement (ss_placement s) && negb (128 <? size (ss_peers s))%nat &&
  forallb (λ kv, is_ok (PackageName_from_str kv.1) && valid_package kv.2) (btree_iter (ss_peers s)) &&
  forallb text (omap id [sp_os (ss_platform s); sp_cpu (ss_platform s); sp_libc (ss_platform s)]) &&
  is_ok (PlatformContext_new (sp_os (ss_platform s)) (sp_cpu (ss_platform s)) (sp_libc (ss_platform s))).
Definition SecurityRequest_validate (r : SecurityRequest) : security_result () :=
  _ ← ensure (str_eqb (sr_version r) SECURITY_CONTRACT_V1) UnsupportedVersion;
  _ ← ensure (valid_subject (sr_subject r) && valid_coverage (sr_coverage r) &&
              match sr_audience r with Tenant tenant => text tenant | Public => true end) InvalidRequest;
  match sr_check r with
  | Artifact digest =>
      ensure (bool_decide (ArtifactDigest_display <$> to_ok (ArtifactDigest_from_str digest) = Some digest)) InvalidRequest
  | Advisory => Ok ()
  end.

Definition scope_matches (check : SecurityCheck) (scope : SecurityScope) : bool :=
  match check, scope with
  | Advisory, PackageVersionScope | Artifact _, ArtifactBytes => true
  | _, _ => false
  end.
Definition without_scan (status : SecurityStatus) : bool :=
  bool_decide (status ∈ [NotScanned; Unavailable; Unsupported; InvalidEvidence]).
Definition complete_status (status : SecurityStatus) : bool := bool_decide (status ∈ [Findings; NoKnownFindings]).
Definition finding_text (f : SecurityFinding) : bool := text (sf_id f) && text (sf_summary f) && text (sf_severity f).
(** The long condition of [SecurityResult::validate], negated. *)
Definition result_shape (r : SecurityResult) : bool :=
  forallb text [sx_issuer r; sx_scanner r; sx_scanner_version r; sx_rule_version r; sx_source_revision r] &&
  scope_matches (sr_check (sx_request r)) (sx_scope r) &&
  forallb safe_integer [sx_sequence r; sx_checked_at r; sx_issued_at r; sx_expires_at r] &&
  negb (without_scan (sx_status r) && (negb (bool_decide (sx_coverage r = [])) || negb (bool_decide (sx_findings r = [])))) &&
  negb (sx_sequence r =? 0)%Z && negb (sx_issued_at r <? sx_checked_at r)%Z &&
  negb (sx_expires_at r <=? sx_issued_at r)%Z && negb (128 <? length (sx_coverage r))%nat &&
  all_fresh (λ v, text v && bool_decide (v ∈ sr_coverage (sx_request r))) [] (sx_coverage r) &&
  negb (256 <? length (sx_findings r))%nat && negb (128 <? length (sx_limitations r))%nat &&
  forallb text (sx_limitations r) && forallb finding_text (sx_findings r) &&
  negb (bool_decide (sx_status r = Findings) && bool_decide (sx_findings r = [])) &&
  negb (bool_decide (sx_status r = NoKnownFindings) && negb (bool_decide (sx_findings r = []))).
Definition SecurityResult_validate (r : SecurityResult) : security_result () :=
  _ ← ensure (str_eqb (sx_version r) SECURITY_CONTRACT_V1) UnsupportedVersion;
  _ ← SecurityRequest_validate (sx_request r);
  _ ← ensure (result_shape r) InvalidResult;
  _ ← ensure (negb (complete_status (sx_status r) &&
                    existsb (λ c, negb (bool_decide (c ∈ sx_coverage r))) (sr_coverage (sx_request r)))) IncompleteCoverage;
  ensure (negb (negb (complete_status (sx_status r)) && bool_decide (sx_limitations r = []))) InvalidResult.
End security.

(** ** Hosted accounts *)
Inductive SecurityPermission := ReadPrivate | SubmitAnalysis | PublishEvidence.
Inductive SecurityServiceError :=
| AuthenticationRequired
| InvalidCredential
| CredentialExpired
| CredentialRevoked
| WrongAudience
| Forbidden
| TenantMismatch
| NotFound
| RateLimited
| ServiceUnavailable
| ServiceUnsupportedVersion
| ServiceInvalidRequest.
Record AccountAuthorization := mk_account {
  aa_version : string;
  aa_authority : string;
  aa_subject : string;
  aa_tenant : string;
  aa_audience : string;
  aa_scopes : list SecurityPermission;
  aa_issued_at : Z;
  aa_expires_at : Z;
  aa_credential_id : string;
}.
Record SecurityErrorResponse := mk_error_response {
  ser_version : string;
  ser_code : SecurityServiceError;
  ser_retry_after_seconds : option Z;
}.
Record EvidencePublicationRequest := mk_publication {
  ep_version : string;
  ep_tenant : string;
  ep_evidence_digest : string;
  ep_expected_sequence : Z;
}.

(** ** Verification of evidence *)
Record SecurityTrust := mk_trust { st_issuer : string; st_keys : KeyRing; st_valid_until : Z }.
Record EvidenceFreshness := mk_freshness {
  ef_now : Z;
  ef_max_age : Z;
  ef_minimum_sequence : Z;
  ef_previous_digest : option string;
}.
Record VerifiedSecurityEvidence := mk_verified { ve_result : SecurityResult; ve_envelope_digest : string }.
Record SecuritySignature := mk_security_signature {
  sg_algorithm : string;
  sg_key_id : string;
  sg_subject : string;
  sg_artifact_digest : string;
  sg_value : string;
}.
Record SecurityEnvelope := mk_security_envelope {
  se_version : string;
  se_subject : string;
  se_artifact_digest : string;
  se_claims : SecurityResult;
  se_signature : SecuritySignature;
}.
Definition signature_specs : list (string * presence) :=
  [("algorithm", Required); ("key_id", Required); ("subject", Required); ("artifact_digest", Required); ("value", Required)].
Definition read_security_signature (v : json) : option SecuritySignature :=
  fields ← struct_fields true signature_specs v;
  match fields with
  | [Some algorithm; Some id; Some subject; Some digest; Some value] =>
      algorithm ← read_string algorithm; id ← read_string id; subject ← read_string subject;
      digest ← read_string digest; value ← read_string value;
      Some (mk_security_signature algorithm id subject digest value)
  | _ => None
  end.
Definition envelope_specs : list (string * presence) :=
  [("version", Required); ("subject", Required); ("artifact_digest", Required); ("claims", Required);
   ("signature", Required)].
Definition read_security_envelope (v : json) : option SecurityEnvelope :=
  fields ← struct_fields true envelope_specs v;
  match fields with
  | [Some version; Some subject; Some digest; Some claims; Some signature] =>
      version ← read_string version; subject ← read_string subject; digest ← read_string digest;
      claims ← read_result claims; signature ← read_security_signature signature;
      Some (mk_security_envelope version subject digest claims signature)
  | _ => None
  end.
Definition evidence_binding (check : SecurityCheck) : string :=
  match check with Advisory => "version-scope" | Artifact digest => digest end.
Definition u64_saturating_sub (a b : Z) : Z := Z.max 0 (a - b).
Definition expired (trust : SecurityTrust) (freshness : EvidenceFreshness) (result : SecurityResult) : bool :=
  (st_valid_until trust <=? ef_now freshness)%Z || (sx_expires_at result <=? ef_now freshness)%Z ||
  (ef_max_age freshness <? u64_saturating_sub (ef_now freshness) (sx_checked_at result))%Z.
Definition replayed (freshness : EvidenceFreshness) (result : SecurityResult) (envelope_digest : string) : bool :=
  (sx_sequence result <? ef_minimum_sequence freshness)%Z ||
  ((sx_sequence result =? ef_minimum_sequence freshness)%Z &&
   negb (bool_decide (ef_previous_digest freshness = Some envelope_digest))).

Section evidence.
Context `{SV : Semver} `{UC : UrlCrate} `{SH : Sha256} `{JC : Jcs} `{B64 : Base64} `{BM : Base64Message}
  `{ED : Ed25519} `{JX : JsonCodec}.
Definition verify_security_evidence (bytes : string) (request : SecurityRequest) (trust : SecurityTrust)
    (freshness : EvidenceFreshness) : security_result VerifiedSecurityEvidence :=
  _ ← ensure (negb (MAX_SECURITY_BYTES <? str_len bytes)%Z) InputTooLarge;
  _ ← SecurityRequest_validate request;
  parsed ← ok_or Malformed (v ← json_of_bytes bytes; read_security_envelope v);
  _ ← ensure (str_eqb (se_version parsed) ENVELOPE_VERSION && str_eqb (se_subject parsed) SECURITY_CONTRACT_V1)
        InvalidEnvelope;
  _ ← SecurityResult_validate (se_claims parsed);
  envelope ← ok_or Malformed (v ← json_of_bytes bytes; read_envelope v);
  _ ← ensure (str_eqb (sx_issuer (se_claims parsed)) (st_issuer trust)) UnknownIssuer;
  _ ← ensure (KeyRing_contains_key (st_keys trust) (sg_key_id (se_signature parsed))) UntrustedKey;
  _ ← map_err (λ _, InvalidSignature) (verify_with_keyring envelope (st_keys trust));
  _ ← ensure (bool_decide (sx_request (se_claims parsed) = request)) SubjectMismatch;
  _ ← ensure (str_eqb (se_artifact_digest parsed) (evidence_binding (sr_check request))) DigestMismatch;
  let result := se_claims parsed in
  _ ← ensure (negb (expired trust freshness result)) Expired;
  _ ← ensure (negb (ef_now freshness <? sx_issued_at result)%Z) FutureEvidence;
  envelope_digest ← map_err (λ _, InvalidEnvelope) (envelope_digest envelope);
  _ ← ensure (negb (replayed freshness result envelope_digest)) Replay;
  Ok (mk_verified result envelope_digest).
End evidence.

(** ** Attestation claims *)
(** [time]: instants with an offset, and RFC 3339. *)
Class TimeCrate : Type := {
  OffsetDateTime : Type;
  rfc3339_parse : string → option OffsetDateTime;
  rfc3339_format : OffsetDateTime → option string;
  instant : OffsetDateTime → Z;    (* what comparisons compare *)
}.
Record Finding := mk_attested { fd_id : string; fd_conclusion : string; fd_severity : option string }.
Record AttestationClaims := mk_claims {
  ac_issuer : string;
  ac_methodology : string;
  ac_scope : string;
  ac_issued_at : string;
  ac_expires_at : option string;
  ac_findings : list Finding;
  ac_confidence : spec_float;      (* an [f64] *)
  ac_limitations : list string;
  ac_payment_disclosure : string;
}.
Definition f64_zero : spec_float := S754_zero false.
Definition f64_one : spec_float := S754_finite false (2 ^ 52) (-52).
(** [(0.0..=1.0).contains(&c)]: false for NaN. *)
Definition unit_interval (c : spec_float) : bool := SFleb f64_zero c && SFleb c f64_one.
Definition timestamp_error (field : string) : string :=
  if str_eqb field "issued_at" then "issued_at must be a canonical RFC 3339 timestamp"
  else if str_eqb field "expires_at" then "expires_at must be a canonical RFC 3339 timestamp"
  else "timestamp must be a canonical RFC 3339 timestamp".
Definition write_attested (f : Finding) : json :=
  write_struct [field "id" (JString (fd_id f)); field "conclusion" (JString (fd_conclusion f));
                field "severity" (write_option JString (fd_severity f))].
Section attestations.
Context `{TM : TimeCrate}.
Definition parse_canonical_timestamp (value field : string) : result string OffsetDateTime :=
  timestamp ← ok_or (timestamp_error field) (rfc3339_parse value);
  canonical ← ok_or (timestamp_error field) (rfc3339_format timestamp);
  _ ← ensure (str_eqb canonical value) (timestamp_error field);
  Ok timestamp.
Definition validate_claims (c : AttestationClaims) : result string () :=
  _ ← ensure (negb (is_empty (ac_issuer c) || is_empty (ac_methodology c) || is_empty (ac_scope c) ||
                    is_empty (ac_issued_at c))) "issuer, methodology, scope, and issued_at are required";
  issued_at ← parse_canonical_timestamp (ac_issued_at c) "issued_at";
  _ ← ensure (unit_interval (ac_confidence c)) "confidence must be between 0 and 1";
  _ ← match ac_expires_at c with
      | Some expiry =>
          expires_at ← parse_canonical_timestamp expiry "expires_at";
          ensure (negb (instant expires_at <=? instant issued_at)%Z) "expires_at must be after issued_at"
      | None => Ok ()
      end;
  ensure (negb (is_empty (ac_payment_disclosure c))) "payment_disclosure is required".
Definition write_f64 (x : spec_float) : json :=
  match x with S754_zero _ | S754_finite _ _ _ => JFloat x | _ => JNull end.
Definition write_claims (c : AttestationClaims) : json :=
  write_struct [field "issuer" (JString (ac_issuer c)); field "methodology" (JString (ac_methodology c));
                field "scope" (JString (ac_scope c)); field "issued_at" (JString (ac_issued_at c));
                field "expires_at" (write_option JString (ac_expires_at c));
                field "findings" (JArray (write_attested <$> ac_findings c));
                field "confidence" (write_f64 (ac_confidence c));
                field "limitations" (write_strings (ac_limitations c));
                field "payment_disclosure" (JString (ac_payment_disclosure c))].
Definition into_envelope (c : AttestationClaims) (subject artifact_digest : string) : result string TrustEnvelope :=
  _ ← validate_claims c;
  Ok (unsigned_envelope subject artifact_digest (to_value (write_claims c))).
End attestations.
