(* ===== verification/SignaturesThm.v ===== *)
(** * What signatures establish

    Theorems about [Signatures]: which envelopes and release manifests verify, what the
    message that was signed says about them, and which key rings the embedded material gives. *)
From S2P Require Import Prelude Order RustStr Crates Samples Json JsonValue Signatures.

(** ** Key rings *)
Definition key_id_ok (key_id : string) : Prop :=
  key_id ≠ "" ∧ (str_len key_id <= 128)%Z ∧ str_forallb key_id_byte key_id = true.
Lemma validate_key_id_Ok key_id u : validate_key_id key_id = Ok u ↔ key_id_ok key_id.
Proof.
  unfold validate_key_id, key_id_ok. rewrite ensure_Ok, negb_true_iff, !orb_false_iff, negb_false_iff, Z.ltb_ge.
  destruct key_id; naive_solver.
Qed.
Lemma KeyRing_insert_Ok ring key ring' :
  KeyRing_insert ring key = Ok ring' ↔
  key_id_ok (tk_key_id key) ∧ tk_algorithm key = SIGNATURE_ALGORITHM ∧ ring !! tk_key_id key = None ∧
  ring' = <[tk_key_id key := key]> ring.
Proof.
  unfold KeyRing_insert. rewrite bind_Ok. setoid_rewrite validate_key_id_Ok. split.
  - intros (u&Hid&H). run_ok H. apply negb_true_iff, contains_key_false in H1. apply bool_decide_eq_true in H0.
    injection H as <-. done.
  - intros (Hid&Ha&Hn&->). exists (). split; [done|]. rewrite bind_Ok. exists (). rewrite ensure_Ok.
    split; [by apply bool_decide_eq_true|]. rewrite bind_Ok. exists (). rewrite ensure_Ok, negb_true_iff, contains_key_false.
    done.
Qed.

Section embedded.
Context `{SH : Sha256} `{B64 : Base64} `{BM : Base64Message} `{ED : Ed25519} `{JX : JsonCodec}.

(** The key that an entry of the material gives. *)
Definition embedded_key (ek : EmbeddedTrustedKey) (key : TrustedKey) : Prop :=
  key_id_ok (ek_key_id ek) ∧ tk_key_id key = ek_key_id ek ∧
  tk_algorithm key = SIGNATURE_ALGORITHM ∧ ek_algorithm ek = SIGNATURE_ALGORITHM ∧
  b64_decode (ek_public_key ek) = Some (tk_public_key key) ∧ b64_encode (tk_public_key key) = ek_public_key ek ∧
  str_len (tk_public_key key) = 32%Z ∧ ek_fingerprint ek = "sha256-" +:+ sha256_hex (tk_public_key key) ∧
  ed_key (tk_public_key key) = Ok ().
Lemma insert_embedded_Ok ring ek ring' :
  insert_embedded ring ek = Ok ring' ↔
  ∃ key, embedded_key ek key ∧ ring !! tk_key_id key = None ∧ ring' = <[tk_key_id key := key]> ring.
Proof.
  unfold insert_embedded, embedded_key, decode_base64, digest. split.
  - intros H. run_ok H. apply validate_key_id_Ok in H0. apply KeyRing_insert_Ok in H as (_&Ha&Hn&->). simpl in *.
    repeat match goal with u : () |- _ => destruct u end. injection H4 as <-.
    apply negb_true_iff, orb_false_iff in H3 as [Hl Hc]. apply negb_false_iff in Hl, Hc.
    apply bool_decide_eq_true in H1, H5, Hc. apply Z.eqb_eq in Hl.
    eexists (mk_trusted_key _ _ _). split_and!; done.
  - intros ([id algorithm key]&(Hid&Hk&Ha&Hea&Hd&He&Hl&Hf&Hed)&Hn&->). simpl in *. subst id algorithm.
    rewrite bind_Ok. exists (). split; [by apply validate_key_id_Ok|].
    rewrite bind_Ok. exists (). split; [by apply ensure_Ok, bool_decide_eq_true|].
    rewrite bind_Ok. exists key. split; [by rewrite Hd|].
    rewrite bind_Ok. exists (). split.
    { rewrite ensure_Ok, negb_true_iff, orb_false_iff, !negb_false_iff, Z.eqb_eq. split; [done|by apply bool_decide_eq_true]. }
    cbn [map_err mbind result_bind]. rewrite bind_Ok. exists (). split; [by apply ensure_Ok, bool_decide_eq_true|].
    rewrite bind_Ok. exists (). split; [by rewrite Hed|].
    apply KeyRing_insert_Ok. simpl. rewrite Hea. done.
Qed.
Lemma insert_all_Ok ring eks ring' :
  try_fold insert_embedded ring eks = Ok ring' ↔
  ∃ keys, Forall2 embedded_key eks keys ∧ NoDup (tk_key_id <$> keys) ∧
    (∀ key, key ∈ keys → ring !! tk_key_id key = None) ∧
    ring' = foldl (λ m key, <[tk_key_id key := key]> m) ring keys.
Proof.
  revert ring. induction eks as [|ek eks IH]; intros ring; simpl.
  - split.
    + intros [= <-]. exists []. split_and!; [constructor..| |done]. by intros ? ?%not_elem_of_nil.
    + intros (keys&->%Forall2_nil_inv_l&_&_&->). done.
  - rewrite bind_Ok. setoid_rewrite insert_embedded_Ok. setoid_rewrite IH. split.
    + intros (r&(key&Hk&Hn&->)&keys&Hks&Hnd&Hfree&->). exists (key :: keys). split_and!; [by constructor| | |done].
      * constructor; [|done]. intros (key'&Heq&Hin)%list_elem_of_fmap. specialize (Hfree _ Hin).
        by apply lookup_insert_None in Hfree as [_ Hne].
      * intros key' [->|Hin]%elem_of_cons; [done|]. specialize (Hfree _ Hin).
        by apply lookup_insert_None in Hfree as [? _].
    + intros (keys&(key&ks&Hk&Hks&->)%Forall2_cons_inv_l&[Hnin Hnd]%NoDup_cons&Hfree&->).
      exists (<[tk_key_id key := key]> ring). split.
      * exists key. split_and!; [done| |done]. apply Hfree. by left.
      * exists ks. split_and!; [done..| |done]. intros key' Hin. apply lookup_insert_None. split; [apply Hfree; by right|].
        intros Heq. apply Hnin. rewrite Heq. by apply list_elem_of_fmap_2.
Qed.

(** Key material gives a ring exactly when it is valid UTF-8 JSON of the current version, and
    every entry has a well-formed identifier that no other entry has, the Ed25519 algorithm, and
    canonical Base64 of a valid key of 32 bytes with its fingerprint.  The ring then holds those
    keys. *)
Lemma from_embedded_json_Ok bytes ring :
  from_embedded_json bytes = Ok ring ↔
  ∃ v material keys, json_of_bytes bytes = Some v ∧ read_embedded_ring v = Some material ∧
    er_version material = KEY_RING_VERSION ∧ Forall2 embedded_key (er_keys material) keys ∧
    NoDup (tk_key_id <$> keys) ∧ ring = foldl (λ m key, <[tk_key_id key := key]> m) ∅ keys.
Proof.
  unfold from_embedded_json. rewrite bind_Ok. split.
  - intros (material&(v&Hv&Hm)%ok_or_Ok%bind_Some&H). run_ok H. apply bool_decide_eq_true in H0.
    apply insert_all_Ok in H as (keys&?&?&_&->). exists v, material, keys. by split_and!.
  - intros (v&material&keys&Hv&Hm&Hver&Hks&Hnd&->). exists material. split; [by rewrite Hv; cbn; rewrite Hm|].
    rewrite bind_Ok. exists (). split; [by apply ensure_Ok, bool_decide_eq_true|].
    apply insert_all_Ok. exists keys. split_and!; [exact Hks|exact Hnd|intros; apply lookup_empty|reflexivity].
Qed.
End embedded.

(** ** Payloads *)
Lemma json_map_lookup (l : list (string * json)) k v : NoDup l.*1 → (k, v) ∈ l → btree_collect l !! k = Some v.
Proof. apply btree_collect_lookup. Qed.
Ltac payload_field := apply btree_collect_lookup; [simpl; repeat (constructor; [set_solver|]); constructor|set_solver].
Ltac no_payload_field := apply btree_collect_None; simpl; set_solver.

(** Two envelopes with the same content; the numbers in their claims are the same doubles. *)
Definition same_envelope (e e' : TrustEnvelope) : Prop :=
  te_version e = te_version e' ∧ te_subject e = te_subject e' ∧ te_artifact_digest e = te_artifact_digest e' ∧
  same_value (to_value (te_claims e)) (to_value (te_claims e')).
Lemma json_map_string l l' k s s' :
  same_value (to_value (json_map l)) (to_value (json_map l')) →
  btree_collect l !! k = Some (JString s) → btree_collect l' !! k = Some (JString s') → s = s'.
Proof. apply same_string_lookup. Qed.
Lemma same_context a k more a' k' more' :
  "algorithm" ∉ more.*1 → "key_id" ∉ more.*1 → "algorithm" ∉ more'.*1 → "key_id" ∉ more'.*1 →
  NoDup more.*1 → NoDup more'.*1 →
  same_value (to_value (signature_context a k more).2) (to_value (signature_context a' k' more').2) → a = a' ∧ k = k'.
Proof.
  intros H1 H2 H3 H4 Hd Hd' Hs. simpl in Hs.
  assert (∀ (m : list (string * json)) x y, "algorithm" ∉ m.*1 → "key_id" ∉ m.*1 → NoDup m.*1 →
    NoDup (("algorithm", x) :: ("key_id", y) :: m).*1) as Hnd.
  { intros m x y Ha Hk Hm. simpl. constructor; [|by constructor]. by intros [|]%elem_of_cons. }
  split.
  - eapply json_map_string; [exact Hs| |]; (apply btree_collect_lookup; [by apply Hnd|by left]).
  - eapply json_map_string; [exact Hs| |]; (apply btree_collect_lookup; [by apply Hnd|by right; left]).
Qed.
Lemma same_payload_fields e e' more more' :
  Forall (λ name, name ∉ more.*1 ∧ name ∉ more'.*1) (envelope_fields e).*1 → NoDup more.*1 → NoDup more'.*1 →
  same_value (to_value (json_map (envelope_fields e ++ more))) (to_value (json_map (envelope_fields e' ++ more'))) →
  same_envelope e e'.
Proof.
  intros Hfree Hm Hm' Hs. rewrite Forall_forall in Hfree.
  assert (∀ e, NoDup (envelope_fields e).*1) as Hf.
  { intros. simpl. repeat (constructor; [set_solver|]). constructor. }
  assert (NoDup (envelope_fields e ++ more).*1) as Hnd.
  { rewrite fmap_app, NoDup_app. split_and!; [done|apply Hfree|done]. }
  assert (NoDup (envelope_fields e' ++ more').*1) as Hnd'.
  { rewrite fmap_app, NoDup_app. split_and!; [done|apply Hfree|done]. }
  assert (∀ k v, (k, v) ∈ envelope_fields e → btree_collect (envelope_fields e ++ more) !! k = Some v) as Hl.
  { intros. apply btree_collect_lookup; [done|]. rewrite elem_of_app. by left. }
  assert (∀ k v, (k, v) ∈ envelope_fields e' → btree_collect (envelope_fields e' ++ more') !! k = Some v) as Hl'.
  { intros. apply btree_collect_lookup; [done|]. rewrite elem_of_app. by left. }
  split_and!.
  - apply (json_map_string _ _ "version" _ _ Hs); [apply Hl|apply Hl']; unfold envelope_fields; set_solver.
  - apply (json_map_string _ _ "subject" _ _ Hs); [apply Hl|apply Hl']; unfold envelope_fields; set_solver.
  - apply (json_map_string _ _ "artifact_digest" _ _ Hs); [apply Hl|apply Hl']; unfold envelope_fields; set_solver.
  - apply (same_object_lookup _ _ "claims") in Hs.
    rewrite (Hl "claims" (te_claims e)), (Hl' "claims" (te_claims e')) in Hs by (unfold envelope_fields; set_solver).
    by inversion Hs.
Qed.
Lemma same_signed_payload e e' a k a' k' :
  same_value (to_value (envelope_payload e (Some a) (Some k))) (to_value (envelope_payload e' (Some a') (Some k'))) →
  a = a' ∧ k = k' ∧ same_envelope e e'.
Proof.
  unfold envelope_payload. intros Hs. assert (a = a' ∧ k = k') as [-> ->].
  { pose proof (same_object_lookup _ _ "signature_context" Hs) as Hc.
    rewrite (json_map_lookup _ _ (signature_context a k []).2), (json_map_lookup _ _ (signature_context a' k' []).2) in Hc;
      [|simpl; repeat (constructor; [set_solver|]); constructor|set_solver
       |simpl; repeat (constructor; [set_solver|]); constructor|set_solver].
    inversion Hc as [? ? Hv|]; subst. eapply (same_context a k [] a' k' []); try exact Hv; try apply not_elem_of_nil; constructor. }
  split_and!; [done..|]. eapply same_payload_fields; [..|exact Hs]; simpl;
    [repeat constructor; set_solver|repeat (constructor; [set_solver|]); constructor..].
Qed.
(** A payload with a context says something else than one without, or than that of a release. *)
Lemma context_present e a k : btree_collect (envelope_fields e ++ [signature_context a k []]) !! "signature_context" =
  Some (signature_context a k []).2.
Proof. payload_field. Qed.
Lemma unsigned_payload_differs e a k e' :
  ¬ same_value (to_value (envelope_payload e (Some a) (Some k))) (to_value (envelope_payload e' None None)).
Proof.
  intros Hs%(same_object_lookup _ _ "signature_context"). cbn match in Hs. rewrite context_present in Hs.
  rewrite (btree_collect_None (envelope_fields e' ++ []) "signature_context") in Hs by (simpl; set_solver). inversion Hs.
Qed.
Lemma release_payload_differs e a k o a' k' d :
  ¬ same_value (to_value (envelope_payload e (Some a) (Some k))) (to_value (release_payload o a' k' d)).
Proof.
  intros Hs%(same_object_lookup _ _ "signature_context"). cbn match in Hs. rewrite context_present in Hs.
  unfold release_payload in Hs. rewrite lookup_insert_eq in Hs. inversion Hs as [? ? Hc|]; subst. simpl in Hc.
  apply (same_object_lookup _ _ "signed_digest") in Hc.
  rewrite (btree_collect_None [_; _]) in Hc by (simpl; set_solver).
  rewrite (json_map_lookup _ "signed_digest" (JString d)) in Hc; [by inversion Hc| |set_solver].
  simpl. repeat (constructor; [set_solver|]). constructor.
Qed.
Lemma same_release_payload o o' a a' k k' d d' :
  same_value (to_value (release_payload o a k d)) (to_value (release_payload o' a' k' d')) → a = a' ∧ k = k' ∧ d = d'.
Proof.
  intros Hs%(same_object_lookup _ _ "signature_context"). unfold release_payload in Hs.
  rewrite !lookup_insert_eq in Hs. inversion Hs as [? ? Hc|]; subst.
  assert (a = a' ∧ k = k') as [-> ->].
  { eapply same_context; [..|exact Hc]; simpl; try set_solver; repeat (constructor; [set_solver|]); constructor. }
  split_and!; [done..|]. simpl in Hc. apply (json_map_string _ _ "signed_digest" _ _ Hc); payload_field.
Qed.

Section envelopes.
Context `{SH : Sha256} `{JC : Jcs} `{B64 : Base64} `{BM : Base64Message} `{ED : Ed25519}.

Lemma canonical_json_Ok v bytes : canonical_json v = Ok bytes ↔ jcs v = Ok bytes.
Proof. unfold canonical_json. apply map_err_Ok. Qed.
(** What [verify_with_trusted_key] checks, with the message and the signature. *)
Record envelope_signed (e : TrustEnvelope) (key : TrustedKey) (s : DetachedSignature) (bytes signature : string) : Prop := {
  es_signature : te_signature e = Some s;
  es_key_id : key_id_ok (ds_key_id s) ∧ tk_key_id key = ds_key_id s;
  es_algorithm : ds_algorithm s = SIGNATURE_ALGORITHM ∧ tk_algorithm key = SIGNATURE_ALGORITHM;
  es_binding : ds_subject s = te_subject e ∧ ds_artifact_digest s = te_artifact_digest e;
  es_decoded : b64_decode (ds_value s) = Some signature ∧ ed_signature signature = Ok ();
  es_bytes : signing_bytes_with_context e (Some (ds_algorithm s)) (Some (ds_key_id s)) = Ok bytes;
  es_verified : ed_key (tk_public_key key) = Ok () ∧ ed_verify (tk_public_key key) bytes signature = true;
}.
Lemma verify_with_trusted_key_Ok e key :
  verify_with_trusted_key e key = Ok () ↔ ∃ s bytes signature, envelope_signed e key s bytes signature.
Proof.
  unfold verify_with_trusted_key, decode_base64. split.
  - intros H. run_ok H. apply validate_key_id_Ok in H1. bool_prop. rewrite !str_eqb_true in *.
    repeat match goal with u : () |- _ => destruct u end. eexists _, _, _. constructor; try done; split; congruence.
  - intros (s&bytes&signature&[Hs [Hid Hk] [Ha Ht] [Hsub Hdig] [Hd Hsig] Hb [Hkey Hv]]).
    rewrite bind_Ok. exists s. split; [by rewrite Hs|]. rewrite bind_Ok. exists (). split; [by apply validate_key_id_Ok|].
    rewrite bind_Ok. exists (). split; [by rewrite ensure_Ok, str_eqb_true|].
    rewrite bind_Ok. exists (). split; [by rewrite ensure_Ok, andb_true_iff, !str_eqb_true, Ha, Ht|].
    rewrite bind_Ok. exists (). split; [by rewrite ensure_Ok, str_eqb_true|].
    rewrite bind_Ok. exists (). split; [by rewrite ensure_Ok, str_eqb_true|].
    rewrite bind_Ok. exists (). split; [by rewrite Hkey|].
    rewrite bind_Ok. exists signature. split; [by rewrite Hd|].
    rewrite bind_Ok. exists (). split; [by rewrite Hsig|].
    rewrite bind_Ok. exists bytes. split; [by rewrite Hb|]. by rewrite ensure_Ok.
Qed.
Lemma verify_with_keyring_Ok e ring :
  verify_with_keyring e ring = Ok () ↔
  ∃ key s bytes signature, ring !! ds_key_id s = Some key ∧ envelope_signed e key s bytes signature.
Proof.
  unfold verify_with_keyring, KeyRing_get. split.
  - intros H. run_ok H. apply verify_with_trusted_key_Ok in H as (s&bytes&signature&He).
    pose proof (es_signature _ _ _ _ _ He). exists x1, s, bytes, signature. split; [|done]. congruence.
  - intros (key&s&bytes&signature&Hk&He). pose proof He as [Hs [Hid _] _ _ _ _ _].
    rewrite bind_Ok. exists s. split; [by rewrite Hs|]. rewrite bind_Ok. exists (). split; [by apply validate_key_id_Ok|].
    rewrite bind_Ok. exists key. split; [by rewrite Hk|]. apply verify_with_trusted_key_Ok. eauto.
Qed.

Context `{JL : !JcsLaws}.
(** C17: an envelope that verifies is exactly what the key's owner signed.  It verifies when its
    signature repeats its subject and digest, names a key of the ring, and that key verifies the
    decoded signature over the envelope's canonical payload, and only then.  That payload is the
    payload of no other key identifier or algorithm, of no envelope with another version,
    subject, digest or other claims, is no envelope's unsigned payload, and is no release
    manifest's payload: a signature cannot be moved to other claims, relabelled with another
    trusted key identifier, or taken from a release.  Claims are the same when they differ at
    most in the order and repetition of object keys, as a [Value] forgets them, and in numbers
    that round to the same double, which is what canonical JSON writes. *)
Theorem verified_envelope e ring :
  verify_with_keyring e ring = Ok () ↔
  ∃ key s bytes signature, ring !! ds_key_id s = Some key ∧ envelope_signed e key s bytes signature ∧
    (∀ e' a k, signing_bytes_with_context e' (Some a) (Some k) = Ok bytes →
       a = SIGNATURE_ALGORITHM ∧ k = ds_key_id s ∧ same_envelope e' e) ∧
    (∀ e', signing_bytes e' ≠ Ok bytes) ∧ (∀ manifest a k d, signature_payload manifest a k d ≠ Ok bytes).
Proof.
  rewrite verify_with_keyring_Ok. split; [|naive_solver].
  intros (key&s&bytes&signature&Hk&He). exists key, s, bytes, signature.
  pose proof He as [_ _ [Ha _] _ _ Hb%canonical_json_Ok _]. split_and!; [done|done|..].
  - intros e' a k Hb'%canonical_json_Ok. rewrite <-Ha. apply same_signed_payload. by eapply jcs_same.
  - intros e' Hb'%canonical_json_Ok. eapply unsigned_payload_differs. by eapply jcs_same.
  - intros manifest a k d Hp. unfold signature_payload in Hp. run_ok Hp. apply canonical_json_Ok in Hp.
    eapply release_payload_differs. by eapply jcs_same.
Qed.
End envelopes.

(** ** Signing *)
Section signing.
Context `{SH : Sha256} `{JC : Jcs} `{B64 : Base64} `{BM : Base64Message} `{ED : Ed25519}.
Context `{EL : !Ed25519Laws} `{BL : !Base64Laws}.

(** The key with which a seed signs under an identifier. *)
Definition seed_key (key_id seed : string) : TrustedKey := mk_trusted_key key_id SIGNATURE_ALGORITHM (ed_public seed).
(** What is signed verifies.  Signing with a seed succeeds for every well-formed key
    identifier and canonical payload; the signed envelope has the content and the digest of the
    envelope, and verifies with the seed's public key, and with every ring that holds that key
    under the identifier. *)
Theorem signed_envelope_verifies e key_id seed :
  String.length seed = 32%nat →
  (∀ e', sign e key_id seed = Ok e' →
     (te_version e' = te_version e ∧ te_subject e' = te_subject e ∧ te_artifact_digest e' = te_artifact_digest e ∧
      te_claims e' = te_claims e ∧ envelope_digest e' = envelope_digest e) ∧
     verify_with_public_key e' (ed_public seed) = Ok () ∧
     ∀ ring : KeyRing, ring !! key_id = Some (seed_key key_id seed) → verify_with_keyring e' ring = Ok ()) ∧
  ((∃ e', sign e key_id seed = Ok e') ↔
     key_id_ok key_id ∧ ∃ bytes, signing_bytes_with_context e (Some SIGNATURE_ALGORITHM) (Some key_id) = Ok bytes).
Proof.
  intros Hseed. destruct (ed_public_key seed Hseed) as [Hpl Hpk].
  assert (∀ e', sign e key_id seed = Ok e' ↔ key_id_ok key_id ∧ ∃ bytes,
    signing_bytes_with_context e (Some SIGNATURE_ALGORITHM) (Some key_id) = Ok bytes ∧
    e' = with_signature e (mk_detached SIGNATURE_ALGORITHM key_id (te_subject e) (te_artifact_digest e)
                             (b64_encode (ed_sign seed bytes)))) as Hsign.
  { intros e'. unfold sign. split.
    - intros H. run_ok H. apply validate_key_id_Ok in H0. injection H as <-. eauto.
    - intros (Hid&bytes&Hb&->). rewrite bind_Ok. exists (). split; [by apply map_err_Ok, validate_key_id_Ok|].
      rewrite bind_Ok. by exists bytes. }
  split; [|split].
  - intros e' (Hid&bytes&Hb&->)%Hsign. destruct (ed_sign_length seed bytes Hseed) as [Hl Hsg].
    assert (envelope_signed (with_signature e (mk_detached SIGNATURE_ALGORITHM key_id (te_subject e) (te_artifact_digest e)
      (b64_encode (ed_sign seed bytes)))) (seed_key key_id seed)
      (mk_detached SIGNATURE_ALGORITHM key_id (te_subject e) (te_artifact_digest e) (b64_encode (ed_sign seed bytes)))
      bytes (ed_sign seed bytes)) as Hs.
    { constructor; simpl; try done.
      - by rewrite b64_decode_encode.
      - by rewrite ed_verify_sign. }
    split_and!; [done..| |].
    + apply verify_with_trusted_key_Ok. eauto.
    + intros ring Hr. apply verify_with_keyring_Ok. do 4 eexists. split; [|exact Hs]. exact Hr.
  - intros (e'&(Hid&bytes&Hb&_)%Hsign). eauto.
  - intros (Hid&bytes&Hb). eexists. apply Hsign. eauto.
Qed.
End signing.

(** ** Release manifests *)
(** The lowercase digest has 64 hexadecimal digits. *)
Class Sha256Laws `{Sha256} : Prop := {
  sha256_hex_shape s : str_len (sha256_hex s) = 64%Z ∧ str_forallb is_hexdigit (sha256_hex s) = true;
}.
Section manifests.
Context `{SH : Sha256} `{JC : Jcs} `{B64 : Base64} `{BM : Base64Message} `{ED : Ed25519}.

(** The message that a key identifier signs for a manifest. *)
Definition manifest_message (manifest : json) (key_id bytes : string) : Prop :=
  ∃ unsigned_bytes, manifest_signing_bytes manifest = Ok unsigned_bytes ∧
    signature_payload manifest SIGNATURE_ALGORITHM key_id ("sha256-" +:+ sha256_hex unsigned_bytes) = Ok bytes.
Definition same_manifest (m m' : json) : Prop :=
  ∃ o o', as_object m = Some o ∧ as_object m' = Some o' ∧
    same_value (to_value (of_object (delete "signature" o))) (to_value (of_object (delete "signature" o'))).
(** The texts without signature of two manifests differ, and have the same digest. *)
Definition manifests_collide (m m' : json) : Prop :=
  ∃ u u', manifest_signing_bytes m = Ok u ∧ manifest_signing_bytes m' = Ok u' ∧ u ≠ u' ∧ sha256_hex u = sha256_hex u'.
Lemma manifest_message_binds `{JL : !JcsLaws} m m' id id' bytes :
  manifest_message m id bytes → manifest_message m' id' bytes →
  id = id' ∧ (same_manifest m m' ∨ manifests_collide m m').
Proof.
  intros (u&Hu&Hp) (u'&Hu'&Hp'). pose proof Hu as Hm. pose proof Hu' as Hm'.
  unfold manifest_signing_bytes, signature_payload in Hu, Hp, Hu', Hp'.
  run_ok Hu. run_ok Hp. run_ok Hu'. run_ok Hp'. simplify_eq. apply canonical_json_Ok in Hu, Hp, Hu', Hp'.
  pose proof (jcs_same _ _ _ Hp Hp') as (_&->&Hd)%same_release_payload. apply (inj (String.app "sha256-")) in Hd.
  split; [done|]. destruct (decide (u = u')) as [->|Hne]; [|right; by exists u, u'].
  left. eexists _, _. split_and!; [done..|]. by eapply jcs_same.
Qed.
(** What [verify_manifest] checks. *)
Record manifest_signed (m : json) (key : TrustedKey) (key_id bytes signature : string) : Prop := {
  ms_fields : ∃ object fields, as_object m = Some object ∧ (v ← object !! "signature"; as_object v) = Some fields ∧
    (∀ name, is_Some (fields !! name) → name ∈ ["algorithm"; "key_id"; "signed_digest"; "value"]) ∧
    fields !! "algorithm" = Some (JString SIGNATURE_ALGORITHM) ∧ fields !! "key_id" = Some (JString key_id) ∧
    (∃ d, fields !! "signed_digest" = Some (JString d) ∧ digest_shaped d = true ∧
       ∃ unsigned_bytes, manifest_signing_bytes m = Ok unsigned_bytes ∧ d = "sha256-" +:+ sha256_hex unsigned_bytes) ∧
    ∃ value, fields !! "value" = Some (JString value) ∧ b64_decode value = Some signature;
  ms_key_id : key_id_ok key_id ∧ tk_algorithm key = SIGNATURE_ALGORITHM;
  ms_message : manifest_message m key_id bytes;
  ms_signature : str_len signature = 64%Z ∧ ed_signature signature = Ok ();
  ms_verified : ed_key (tk_public_key key) = Ok () ∧ ed_verify (tk_public_key key) bytes signature = true;
}.
Lemma string_field_Ok fields name s : string_field fields name = Ok s ↔ fields !! name = Some (JString s).
Proof.
  unfold string_field. rewrite ok_or_Ok. destruct (fields !! name) as [[]|]; simpl; split; congruence.
Qed.
Lemma known_fields (fields : gmap string json) :
  existsb (λ field, negb (known_field field)) (btree_keys fields) = false ↔
  ∀ name, is_Some (fields !! name) → name ∈ ["algorithm"; "key_id"; "signed_digest"; "value"].
Proof.
  rewrite <-not_true_iff_false, existsb_exists. split.
  - intros H name Hn. destruct (decide (name ∈ ["algorithm"; "key_id"; "signed_digest"; "value"])) as [|Hk]; [done|].
    destruct H. exists name. split; [by apply list_elem_of_In, elem_of_btree_keys|].
    apply negb_true_iff. by apply bool_decide_eq_false.
  - intros H (name&Hin%list_elem_of_In%elem_of_btree_keys&Hk). apply negb_true_iff, bool_decide_eq_false in Hk. eauto.
Qed.
Lemma verify_manifest_Ok m (ring : KeyRing) :
  verify_manifest m ring = Ok () ↔
  ∃ key key_id bytes signature, ring !! key_id = Some key ∧ manifest_signed m key key_id bytes signature.
Proof.
  unfold verify_manifest, get_for_release, digest, decode_base64. split.
  - intros H. run_ok H. repeat match goal with u : () |- _ => destruct u end.
    repeat match goal with H : string_field _ _ = Ok _ |- _ => apply string_field_Ok in H end.
    repeat match goal with H : str_eqb _ _ = true |- _ => apply str_eqb_true in H end.
    repeat match goal with H : validate_key_id _ = Ok _ |- _ => apply validate_key_id_Ok in H end.
    match goal with H : negb (existsb _ _) = true |- _ => apply negb_true_iff in H; rename H into Hknown end.
    rewrite known_fields in Hknown.
    repeat match goal with H : (_ =? _)%Z = true |- _ => apply Z.eqb_eq in H end. simplify_eq.
    do 4 eexists. split; [eassumption|].
    constructor; [eexists _, _; split_and!; eauto 6|done|eexists; eauto|done|done].
  - intros (key&id&bytes&signature&Hk&[(o&fields&Ho&Hf&Hknown&Ha&Hid&(d&Hd&Hshape&u&Hu&Hdu)&value&Hv&Hdec)
      [Hidok Hka] (u'&Hu'&Hb) [Hl Hs] [Hek Hev]]).
    assert (u' = u) as -> by congruence.
    rewrite bind_Ok. exists o. split; [by rewrite Ho|]. rewrite bind_Ok. exists fields. split; [by rewrite Hf|].
    rewrite bind_Ok. exists (). split; [by rewrite ensure_Ok, negb_true_iff, known_fields|].
    rewrite bind_Ok. exists SIGNATURE_ALGORITHM. split; [by apply string_field_Ok|].
    rewrite bind_Ok. exists id. split; [by apply string_field_Ok|].
    rewrite bind_Ok. exists d. split; [by apply string_field_Ok|].
    rewrite bind_Ok. exists value. split; [by apply string_field_Ok|].
    rewrite bind_Ok. exists (). split; [done|]. rewrite bind_Ok. exists (). split; [by apply validate_key_id_Ok|].
    rewrite bind_Ok. exists (). split; [by rewrite ensure_Ok|]. rewrite bind_Ok. exists key. split; [by rewrite Hk|].
    rewrite bind_Ok. exists (). split; [by rewrite ensure_Ok, Hka, str_eqb_refl|].
    rewrite bind_Ok. exists u. split; [by rewrite Hu|]. cbn [map_err mbind result_bind].
    rewrite bind_Ok. exists (). split; [by rewrite ensure_Ok, Hdu, str_eqb_refl|].
    rewrite bind_Ok. exists bytes. split; [rewrite Hdu; by rewrite Hb|].
    rewrite bind_Ok. exists signature. split; [by rewrite Hdec|].
    rewrite bind_Ok. exists (). split; [by rewrite ensure_Ok, Hl|].
    rewrite bind_Ok. exists (). split; [by rewrite Hs|]. rewrite bind_Ok. exists (). split; [by rewrite Hek|].
    by rewrite ensure_Ok.
Qed.
End manifests.

Section release.
Context `{SH : Sha256} `{JC : Jcs} `{B64 : Base64} `{BM : Base64Message} `{ED : Ed25519}.
Lemma same_value_object m : same_value (to_value (of_object m)) (to_value (of_object m)).
Proof. apply same_value_refl. Qed.
Lemma digest_is_shaped `{SL : !Sha256Laws} bytes : digest_shaped ("sha256-" +:+ sha256_hex bytes) = true.
Proof.
  destruct (sha256_hex_shape bytes) as [Hl Hx]. unfold digest_shaped. rewrite !andb_true_iff. split_and!; [|done|done].
  rewrite Z.eqb_eq. unfold str_len in *. rewrite length_app'. simpl. lia.
Qed.
Lemma signed_manifest_verifies `{EL : !Ed25519Laws} `{BL : !Base64Laws} `{SL : !Sha256Laws} m m' key_id seed
    (ring : KeyRing) :
  String.length seed = 32%nat → sign_manifest m key_id seed = Ok m' → ring !! key_id = Some (seed_key key_id seed) →
  verify_manifest m' ring = Ok () ∧ same_manifest m' m.
Proof.
  intros Hseed H Hr. destruct (ed_public_key seed Hseed) as [_ Hpk].
  unfold sign_manifest, digest in H. run_ok H. repeat match goal with u : () |- _ => destruct u end. simplify_eq.
  match goal with H : as_object m = Some ?o |- _ => rename H into Ho, o into object end.
  match goal with H : manifest_signing_bytes m = Ok ?u |- _ => rename H into Hu, u into unsigned end.
  match goal with H : signature_payload m _ _ _ = Ok ?b |- _ => rename H into Hb, b into bytes end.
  match goal with H : validate_key_id _ = Ok _ |- _ => apply validate_key_id_Ok in H; rename H into Hid end.
  destruct (ed_sign_length seed bytes Hseed) as [Hl Hsg].
  unfold manifest_signing_bytes, signature_payload in *. rewrite Ho in Hu, Hb. cbn in Hu, Hb.
  match goal with |- verify_manifest (of_object (<[_ := ?f]> _)) _ = _ ∧ _ => set (fields := f) end. split.
  - apply verify_manifest_Ok. exists (seed_key key_id seed), key_id, bytes, (ed_sign seed bytes). split; [done|].
    constructor; simpl; [|done| | |].
    + exists (<["signature" := fields]> object), (btree_collect [("algorithm", JString SIGNATURE_ALGORITHM);
        ("key_id", JString key_id); ("signed_digest", JString ("sha256-" +:+ sha256_hex unsigned));
        ("value", JString (b64_encode (ed_sign seed bytes)))]).
      split; [apply as_object_of_object|]. rewrite lookup_insert_eq. cbn [mbind option_bind].
      split; [apply as_object_of_object|]. split_and!.
      * intros name [v Hv%btree_collect_elem%(list_elem_of_fmap_2 fst)]. done.
      * payload_field.
      * payload_field.
      * exists ("sha256-" +:+ sha256_hex unsigned). split; [payload_field|]. split; [apply digest_is_shaped|]. exists unsigned. split; [|done].
        unfold manifest_signing_bytes. rewrite as_object_of_object. cbn. by rewrite delete_insert_eq.
      * exists (b64_encode (ed_sign seed bytes)). split; [payload_field|]. by apply b64_decode_encode.
    + exists unsigned. unfold manifest_signing_bytes, signature_payload. rewrite as_object_of_object. cbn.
      unfold release_payload. rewrite delete_insert_eq. done.
    + split; [|done]. unfold str_len. lia.
    + split; [done|]. by apply ed_verify_sign.
  - eexists _, _. split; [apply as_object_of_object|]. split; [done|]. rewrite delete_insert_eq. apply same_value_refl.
Qed.

(** C31: release manifests: what is signed verifies, and what verifies was signed as it is.  A
    manifest verifies with a ring exactly when its signature has the four known fields, the
    digest is that of the manifest without its signature, and a key of the ring verifies the
    decoded signature over the contextual payload.  That payload belongs to no other key
    identifier and to no trust envelope, and a manifest that has it too says the same without
    its signature, or the two texts that were hashed are a collision of SHA-256 (to say the
    same is to differ at most in key order, repeated keys and numbers that round to the same
    double).  A signed manifest says the same as the manifest and verifies with every ring that
    holds the key, digests having their shape and signatures verifying. *)
Theorem release_signature `{!JcsLaws} m (ring : KeyRing) :
  (verify_manifest m ring = Ok () ↔
   ∃ key key_id bytes signature, ring !! key_id = Some key ∧ manifest_signed m key key_id bytes signature ∧
     (∀ m' key_id', manifest_message m' key_id' bytes →
        key_id' = key_id ∧ (same_manifest m' m ∨ manifests_collide m' m)) ∧
     ∀ e a k, signing_bytes_with_context e (Some a) (Some k) ≠ Ok bytes) ∧
  (Sha256Laws → Ed25519Laws → Base64Laws → ∀ m' key_id seed, String.length seed = 32%nat → sign_manifest m key_id seed = Ok m' →
     ring !! key_id = Some (seed_key key_id seed) → verify_manifest m' ring = Ok () ∧ same_manifest m' m).
Proof.
  split; [|intros; by eapply signed_manifest_verifies]. rewrite verify_manifest_Ok. split; [|naive_solver].
  intros (key&id&bytes&signature&Hk&Hm). exists key, id, bytes, signature. pose proof (ms_message _ _ _ _ _ Hm) as Hmsg.
  split_and!; [done|done| |].
  - intros m' id' Hm'. by apply (manifest_message_binds m' m id' id bytes).
  - intros e a k Hb%canonical_json_Ok. destruct Hmsg as (u&_&Hp). unfold signature_payload in Hp. run_ok Hp.
    apply canonical_json_Ok in Hp. eapply release_payload_differs. by eapply jcs_same.
Qed.
End release.

(** ** Sample crates *)
(** Signatures of the sample scheme: a short sum of the key and the message, in 64 digits. *)
Fixpoint short_sum (acc : Z) (s : string) : Z :=
  match s with "" => acc | String a s => short_sum (Z.land (acc * 31 + code a) 65535) s end.
Definition sample_signature (key m : string) : string := hex_digits 64 (short_sum 7 (key +:+ m)).
#[export] Instance sample_ed25519 : Ed25519 := {|
  ed_sign := sample_signature;
  ed_public seed := seed;
  ed_key key := ensure (String.length key =? 32)%nat "not a key";
  ed_signature s := ensure (String.length s =? 64)%nat "not a signature";
  ed_verify key m s := str_eqb s (sample_signature key m);
|}.
Lemma hex_digits_length n z : String.length (hex_digits n z) = n.
Proof. revert z. induction n as [|n IH]; intros z; [done|]. simpl. rewrite length_app', IH. simpl. lia. Qed.
#[export] Instance sample_ed25519_laws : Ed25519Laws.
Proof.
  split; cbn [ed_sign ed_public ed_key ed_signature ed_verify sample_ed25519].
  - intros seed Hs. by rewrite Hs.
  - intros seed m _. unfold sample_signature. by rewrite hex_digits_length.
  - intros seed m _. apply str_eqb_refl.
Qed.
#[export] Instance sample_b64_message : Base64Message := {| b64_message _ := "invalid base64" |}.
#[export] Instance sample_jcs : Jcs := {| jcs v := Ok (json_pretty (to_value v) +:+ newline) |}.
#[export] Instance sample_jcs_laws : JcsLaws.
Proof.
  split. intros v w s [= Hv] [= Hw]. assert (to_value v = to_value w) as ->; [|apply same_value_refl].
  rewrite <-(tree_json_tree (to_value v)), <-(tree_json_tree (to_value w)).
  assert (bits (encode (json_tree (to_value v))) +:+ newline = bits (encode (json_tree (to_value w))) +:+ newline) as H
    by congruence.
  apply (f_equal unbits) in H. rewrite !unbits_bits in H. by apply (inj encode) in H as ->.
Qed.
#[export] Instance sample_sha256_laws : Sha256Laws.
Proof.
  split. intros s. cbn [sha256_hex sample_sha256]. split; [unfold str_len; by rewrite hex_digits_length|].
  generalize (checksum 0 s). generalize 64%nat. intros n. induction n as [|n IH]; intros z; [done|].
  cbn [hex_digits]. rewrite str_forallb_app, IH. cbn [andb str_forallb].
  assert (0 <= z mod 16 < 16)%Z as Hz by (apply Z.mod_pos_bound; lia). revert Hz. generalize (z mod 16)%Z. intros d Hd.
  assert (forallb (λ d, is_hexdigit (to_lower (upper_hex_digit d))) (seqZ 0 16) = true) as Hall by (by vm_compute).
  rewrite forallb_forall in Hall. rewrite Hall; [done|]. apply list_elem_of_In, elem_of_seqZ. lia.
Qed.

(** ** Witnesses *)
Definition sample_seed : string := "0123456789abcdef0123456789abcdef".
Definition sample_envelope : TrustEnvelope :=
  unsigned_envelope "release" "sha256-a" (JObject [("ok", JBool true); ("size", JNumber 3)]).
Definition sample_ring : KeyRing := {["key-1" := seed_key "key-1" sample_seed]}.
Definition sample_signed : TrustEnvelope := default sample_envelope (to_ok (sign sample_envelope "key-1" sample_seed)).
Lemma verified_envelope_witness :
  verify_with_keyring sample_signed sample_ring = Ok () ∧
  ∃ key s bytes signature, sample_ring !! ds_key_id s = Some key ∧ envelope_signed sample_signed key s bytes signature ∧
    (∀ e' a k, signing_bytes_with_context e' (Some a) (Some k) = Ok bytes →
       a = SIGNATURE_ALGORITHM ∧ k = ds_key_id s ∧ same_envelope e' sample_signed) ∧
    (∀ e', signing_bytes e' ≠ Ok bytes) ∧ (∀ manifest a k d, signature_payload manifest a k d ≠ Ok bytes).
Proof.
  assert (verify_with_keyring sample_signed sample_ring = Ok ()) as H by (by vm_compute).
  split; [exact H|]. apply (verified_envelope sample_signed sample_ring). exact H.
Defined.
Lemma signed_envelope_verifies_witness :
  String.length sample_seed = 32%nat ∧ ∃ e', sign sample_envelope "key-1" sample_seed = Ok e'.
Proof.
  assert (String.length sample_seed = 32%nat) as H by done. split; [exact H|].
  apply (signed_envelope_verifies sample_envelope "key-1" sample_seed H).
  split; [split; [done|split; [done|by vm_compute]]|by eexists].
Defined.
Definition sample_manifest : json := JObject [("product", JString "tapid"); ("version", JString "0.0.6")].
Definition sample_release : json := default JNull (to_ok (sign_manifest sample_manifest "key-1" sample_seed)).
Lemma release_signature_witness :
  sign_manifest sample_manifest "key-1" sample_seed = Ok sample_release ∧
  verify_manifest sample_release sample_ring = Ok () ∧ same_manifest sample_release sample_manifest.
Proof.
  assert (sign_manifest sample_manifest "key-1" sample_seed = Ok sample_release) as H by (by vm_compute).
  split; [exact H|].
  apply (proj2 (release_signature sample_manifest sample_ring) sample_sha256_laws sample_ed25519_laws _ sample_release "key-1" sample_seed);
    [done|exact H|by vm_compute].
Defined.
