(* ===== verification/SecurityEvidenceThm.v ===== *)
(** * What accepted security evidence is

    Theorems about [SecurityEvidence]: the strict readers see what the verified envelope says,
    what an acceptance establishes, that evidence cannot be rolled back, and that evidence
    issued by the rules is accepted. *)
From S2P Require Import Prelude Order RustStr Crates Samples Core Json JsonValue Signatures SignaturesThm SecurityEvidence.

(** ** Readers *)
Existing Class value_stable.
Existing Class respects.
#[export] Existing Instances stable_string respects_string stable_vec respects_vec stable_option respects_option.
Ltac read_fields H :=
  repeat match type of H with
  | context [match ?l with [] => _ | _ :: _ => _ end] => is_var l; destruct l as [|[?|] ?]; try discriminate H
  | context [match ?o with Some _ => _ | None => _ end] => is_var o; destruct o; try discriminate H
  end.
Ltac read_one H :=
  let a := fresh "a" in let Ha := fresh "Ha" in apply bind_Some in H as (a&Ha&H);
  first [apply (stable_field _ _ _ _ _) in Ha | apply (_ : value_stable _) in Ha]; cbn [fmap option_fmap option_map] in Ha;
  try rewrite Ha; cbn [mbind option_bind].
(** A reader of a struct: its fields, then the reads in order. *)
Ltac stable_struct reader :=
  let v := fresh "v" in let x := fresh "x" in let H := fresh "H" in let fs := fresh "fs" in let Hfs := fresh "Hfs" in
  intros v x H; unfold reader in H |- *; apply bind_Some in H as (fs&Hfs&H);
  rewrite (struct_fields_to_value _ _ _ _ Hfs); cbn [mbind option_bind]; clear Hfs; read_fields H;
  cbn [fmap list_fmap option_fmap option_map]; repeat read_one H; first [congruence | exact ((_ : value_stable _) _ _ H)].
Ltac same_fields :=
  repeat match goal with
  | H : Forall2 _ (_ :: _) (_ :: _) |- _ => apply Forall2_cons_1 in H as [? H]
  | H : Forall2 _ (_ :: _) [] |- _ => inversion H
  | H : Forall2 _ [] (_ :: _) |- _ => inversion H
  | H : option_Forall2 _ (Some _) (Some _) |- _ => inversion H; subst; clear H
  | H : option_Forall2 _ (Some _) None |- _ => inversion H
  | H : option_Forall2 _ None (Some _) |- _ => inversion H
  end.
Ltac same_reads :=
  cbn [read_field] in *;
  repeat match goal with
  | Hs : same_value ?v ?w, Ha : ?read ?v = Some ?a, Hb : ?read ?w = Some ?b |- _ =>
      assert (a = b) by exact ((_ : respects eq read) v w a b Hs Ha Hb); clear Hs; subst
  end.
Ltac all_reads H := repeat (let a := fresh "a" in let Ha := fresh "Ha" in apply bind_Some in H as (a&Ha&H)).
Ltac respects_struct reader :=
  let v := fresh "v" in let w := fresh "w" in let x := fresh "x" in let y := fresh "y" in
  let Hs := fresh "Hs" in let Hx := fresh "Hx" in let Hy := fresh "Hy" in
  let fs := fresh "fs" in let Hfs := fresh "Hfs" in let gs := fresh "gs" in let Hgs := fresh "Hgs" in
  intros v w x y Hs Hx Hy; unfold reader in Hx, Hy;
  apply bind_Some in Hx as (fs&Hfs&Hx); apply bind_Some in Hy as (gs&Hgs&Hy);
  pose proof (same_struct_fields _ _ _ _ _ _ Hs Hfs Hgs); clear Hfs Hgs Hs; read_fields Hx; read_fields Hy;
  same_fields; all_reads Hx; all_reads Hy.

#[export] Instance stable_wire deny : value_stable (read_wire deny).
Proof. stable_struct read_wire. Qed.
#[export] Instance respects_wire deny : respects eq (read_wire deny).
Proof. respects_struct read_wire; same_reads; congruence. Qed.
#[export] Instance stable_finding : value_stable read_finding.
Proof. stable_struct read_finding. Qed.
#[export] Instance respects_finding : respects eq read_finding.
Proof. respects_struct read_finding; same_reads; congruence. Qed.
#[export] Instance stable_platform : value_stable read_platform.
Proof. stable_struct read_platform. Qed.
#[export] Instance respects_platform : respects eq read_platform.
Proof. respects_struct read_platform; same_reads; congruence. Qed.

(** ** Numbers, enums and tags *)
#[export] Instance stable_u64 : value_stable read_u64.
Proof. by intros []. Qed.
Lemma read_u64_bounds v n : read_u64 v = Some n → (0 <= n <= u64_max)%Z.
Proof. destruct v; try done. simpl. destruct (_ && _) eqn:E; [|done]. intros [= <-]. bool_prop. lia. Qed.
#[export] Instance respects_u64 : respects (λ a b, (a <= exact_max)%Z → (b <= exact_max)%Z → a = b) read_u64.
Proof.
  intros v w x y Hs Hx Hy Ha Hb. pose proof (read_u64_bounds _ _ Hx). pose proof (read_u64_bounds _ _ Hy).
  destruct v as [| |m| | | |]; try done. destruct w as [| |n| | | |]; try done. simpl in Hx, Hy.
  destruct (_ && _); [|done]. destruct (_ && _); [|done]. simplify_eq. inversion Hs as [| |? ? Hn| | |]; subst.
  apply (same_number_exact _ _ Hn); lia.
Qed.
Lemma to_value_single k v : to_value (JObject [(k, v)]) = JObject [(k, to_value v)].
Proof.
  rewrite to_value_object. unfold of_object. rewrite <-(btree_iter_collect [(k, to_value v)]); [|by repeat constructor].
  f_equal. f_equal. unfold btree_collect. simpl. by rewrite fmap_insert, fmap_empty.
Qed.
#[export] Instance stable_unit_enum {A} (variants : list (string * A)) : value_stable (read_unit_enum variants).
Proof.
  intros [| | | | | |l] x; try done. destruct l as [|[k []] [|]]; try done. by rewrite to_value_single.
Qed.
#[export] Instance respects_unit_enum {A} (variants : list (string * A)) : respects eq (read_unit_enum variants).
Proof.
  intros v w x y Hs Hx Hy. destruct v as [| | | |s| |l]; try done.
  - apply same_string_inv in Hs as ->. congruence.
  - apply same_object_inv in Hs as (k&->&Hl). simpl in Hx, Hy. destruct l as [|[a []] [|]]; try done.
    apply Forall2_cons_inv_l in Hl as ([b u]&k'&[Hab Hv]&->%Forall2_nil_inv_l&->). simpl in Hab, Hv. subst b.
    apply same_null_inv in Hv as ->. congruence.
Qed.
Lemma collect_filter_ne (l : list (string * json)) k :
  btree_collect (base.filter (λ kv, kv.1 ≠ k) l) = delete k (btree_collect l).
Proof.
  unfold btree_collect. rewrite <-(delete_empty k : delete k (∅ : gmap string json) = ∅) at 1. generalize (∅ : gmap string json) as m.
  induction l as [|[k' v] l IH]; intros m; [done|]. destruct (decide (k' = k)) as [->|Hk].
  - rewrite filter_cons_False by naive_solver. cbn [foldl]. rewrite <-IH. by rewrite delete_insert_eq.
  - rewrite filter_cons_True by done. cbn [foldl fst snd]. rewrite <-IH. by rewrite delete_insert_ne.
Qed.
Lemma iter_filter_ne (m : gmap string json) k :
  base.filter (λ kv, kv.1 ≠ k) (btree_iter m) = btree_iter (delete k m).
Proof.
  assert (StronglySorted lt_of (base.filter (λ kv, kv.1 ≠ k) (btree_iter m)).*1) as Hs.
  { apply keys_sorted. pose proof (proj1 (keys_sorted _) (btree_keys_ascending m)) as Hm. revert Hm.
    generalize (btree_iter m). intros l. induction l as [|x l IH]; [constructor|]. intros [Hl Hx]%StronglySorted_inv.
    rewrite filter_cons. case_decide; [|by apply IH]. constructor; [by apply IH|].
    rewrite Forall_forall in Hx |- *. intros y [_ Hy]%list_elem_of_filter. by apply Hx. }
  apply sorted_keys_unique; [done|apply btree_keys_ascending|]. apply NoDup_Permutation.
  - by apply (NoDup_fmap_1 fst), sorted_lt_NoDup.
  - apply btree_iter_NoDup.
  - intros [k' v]. rewrite list_elem_of_filter, !elem_of_btree_iter, lookup_delete_Some. naive_solver.
Qed.
(** A tagged value gives the same tag, and its content as a [Value]. *)
Lemma stable_tagged tag v name content :
  read_tagged tag v = Some (name, content) → read_tagged tag (to_value v) = Some (name, to_value content).
Proof.
  destruct v as [| | | | |l|l]; try done; simpl.
  - destruct l as [|[] l]; try done. intros [= -> <-]. done.
  - destruct (base.filter (λ kv, kv.1 = tag) l) as [|[k [| | | |s| |]] [|]] eqn:Hf; try done. intros [= -> <-].
    rewrite btree_collect_fmap, filter_iter, iter_filter_ne, lookup_fmap, (filter_collect _ _ _ _ Hf).
    cbn [fmap option_fmap option_map to_value]. by rewrite btree_collect_fmap, collect_filter_ne, fmap_delete.
Qed.
Lemma same_filter_ne k (l l' : list (string * json)) :
  Forall2 (same_entry same_value) l l' →
  Forall2 (same_entry same_value) (base.filter (λ kv, kv.1 ≠ k) l) (base.filter (λ kv, kv.1 ≠ k) l').
Proof.
  induction 1 as [|[a v] [b w] l l' [Hk Hv] Hl IH]; [constructor|]. simpl in Hk. subst b.
  destruct (decide (a = k)); [rewrite !filter_cons_False by naive_solver; done|].
  rewrite !filter_cons_True by done. by constructor.
Qed.
Lemma same_tagged tag v w name name' c c' :
  same_value v w → read_tagged tag v = Some (name, c) → read_tagged tag w = Some (name', c') →
  name = name' ∧ same_value c c'.
Proof.
  intros Hs. destruct v as [| | | | |l|l]; try done.
  - apply same_array_inv in Hs as (k&->&Hl). simpl. destruct Hl as [|a b l k Hab Hl]; [done|].
    destruct a as [| | | |s| |]; try done. apply same_string_inv in Hab as ->. intros [= <- <-] [= <- <-].
    split; [done|]. by apply same_array.
  - apply same_object_inv in Hs as (k&->&Hl). simpl. pose proof (same_filter_ne tag _ _ Hl) as Hc.
    apply (same_filter tag) in Hl. destruct Hl as [|[a v] [b w] m m' [_ Hv] Hm]; [done|]. simpl in Hv.
    destruct v as [| | | |s| |]; try done. apply same_string_inv in Hv as ->. destruct Hm; [|done].
    intros [= <- <-] [= <- <-]. split; [done|]. by apply same_object.
Qed.
#[export] Instance stable_text_variant name : value_stable (read_text_variant name).
Proof. stable_struct read_text_variant. Qed.
#[export] Instance respects_text_variant name : respects eq (read_text_variant name).
Proof. respects_struct read_text_variant; same_reads; congruence. Qed.
Lemma stable_unit_variant v u : read_unit_variant v = Some u → read_unit_variant (to_value v) = Some u.
Proof. destruct v as [| | | | |[]|]; try done. Qed.
#[export] Instance stable_check : value_stable read_check.
Proof.
  intros v x. unfold read_check. intros ([kind c]&Ht%stable_tagged&H)%bind_Some. rewrite Ht. cbn [mbind option_bind].
  repeat case_match; try done.
  - apply bind_Some in H as (u&Hu%stable_unit_variant&H). by rewrite Hu.
  - apply fmap_Some in H as (s&Hr&->). apply (_ : value_stable _) in Hr. by rewrite Hr.
Qed.
#[export] Instance respects_check : respects eq read_check.
Proof.
  intros v w x y Hs. unfold read_check. intros ([k c]&Ht&H)%bind_Some ([k' c']&Ht'&H')%bind_Some.
  destruct (same_tagged _ _ _ _ _ _ _ Hs Ht Ht') as [<- Hc]. repeat case_match; try done.
  - apply bind_Some in H as (u&_&H), H' as (u'&_&H'). congruence.
  - apply fmap_Some in H as (s&Hr&->), H' as (s'&Hr'&->). f_equal. by eapply respects_text_variant.
Qed.
#[export] Instance stable_audience : value_stable read_audience.
Proof.
  intros v x. unfold read_audience. intros ([kind c]&Ht%stable_tagged&H)%bind_Some. rewrite Ht. cbn [mbind option_bind].
  repeat case_match; try done.
  - apply bind_Some in H as (u&Hu%stable_unit_variant&H). by rewrite Hu.
  - apply fmap_Some in H as (s&Hr&->). apply (_ : value_stable _) in Hr. by rewrite Hr.
Qed.
#[export] Instance respects_audience : respects eq read_audience.
Proof.
  intros v w x y Hs. unfold read_audience. intros ([k c]&Ht&H)%bind_Some ([k' c']&Ht'&H')%bind_Some.
  destruct (same_tagged _ _ _ _ _ _ _ Hs Ht Ht') as [<- Hc]. repeat case_match; try done.
  - apply bind_Some in H as (u&_&H), H' as (u'&_&H'). congruence.
  - apply fmap_Some in H as (s&Hr&->), H' as (s'&Hr'&->). f_equal. by eapply respects_text_variant.
Qed.

(** ** Peers *)
Lemma insert_peers_Some acc entries m :
  insert_peers acc entries = Some m ↔
  NoDup entries.*1 ∧ (∀ k, k ∈ entries.*1 → acc !! k = None) ∧
  (entries = [] ∨ (size acc + length entries <= max_peers)%nat) ∧
  Forall (λ e, is_Some (read_wire true e.2)) entries ∧
  ∀ k w, m !! k = Some w ↔ acc !! k = Some w ∨ ∃ v, (k, v) ∈ entries ∧ read_wire true v = Some w.
Proof.
  revert acc. induction entries as [|[k v] entries IH]; intros acc; cbn [insert_peers].
  - split.
    + intros [= <-]. split_and!; [constructor|by intros k ?%not_elem_of_nil|by left|constructor|].
      intros k w. split; [by left|]. intros [|(v&?%not_elem_of_nil&_)]; done.
    + intros (_&_&_&_&Hm). f_equal. apply map_eq. intros k. apply option_eq. intros w. rewrite Hm.
      split; [by left|]. intros [|(v&?%not_elem_of_nil&_)]; done.
  - unfold add_peer. cbn [fst snd]. destruct ((max_peers <=? size acc)%nat || contains_key k acc) eqn:Hg.
    { split; [done|]. intros (_&Hfree&Hlen&_). apply orb_true_iff in Hg as [Hg|Hg].
      - apply Nat.leb_le in Hg. destruct Hlen; [done|]. simpl in *. lia.
      - rewrite contains_key_true, (Hfree k) in Hg by (simpl; set_solver). by destruct Hg. }
    apply orb_false_iff in Hg as [Hsize Hk]. apply Nat.leb_gt in Hsize. apply contains_key_false in Hk.
    destruct (read_wire true v) as [p|] eqn:Hp; cbn [mbind option_bind].
    2:{ split; [done|]. intros (_&_&_&[[? Hv] _]%Forall_cons&_). simpl in Hv. congruence. }
    rewrite IH. rewrite map_size_insert_None by done. simpl. rewrite NoDup_cons, Forall_cons. split.
    + intros (Hnd&Hfree&Hlen&Hall&Hm). split_and!; [|done|intros k'|..].
      * intros Hin. specialize (Hfree _ Hin). by rewrite lookup_insert_eq in Hfree.
      * intros [->|Hin]%elem_of_cons; [done|]. by apply Hfree, lookup_insert_None in Hin as [? _].
      * right. destruct Hlen as [->|]; simpl in *; lia.
      * by eexists.
      * done.
      * intros k' w. rewrite Hm, lookup_insert_Some. setoid_rewrite elem_of_cons. split.
        -- intros [[[<- <-]|[? ?]]|(u&?&?)]; [right; exists v; by split; [left|]|by left|right; exists u; by split; [right|]].
        -- intros [Hw|(u&[[= -> ->]|Hin]&Hr)]; [|left; left; split; congruence|right; eauto].
           left. right. split; [|done]. intros ->. congruence.
    + intros ([Hnin Hnd]&Hfree&Hlen&[Hv Hall]&Hm). split_and!; [done|intros k' Hin|..|done|].
      * apply lookup_insert_None. split; [apply Hfree; set_solver|]. intros ->. done.
      * right. destruct Hlen as [|]; [done|]. lia.
      * intros k' w. rewrite Hm, lookup_insert_Some. setoid_rewrite elem_of_cons. split.
        -- intros [Hw|(u&[[= -> ->]|Hin]&Hr)]; [|left; left; split; congruence|right; eauto].
           left. right. split; [|done]. intros ->. congruence.
        -- intros [[[<- <-]|[? ?]]|(u&?&?)]; [right; exists v; by split; [left|]|by left|right; exists u; by split; [right|]].
Qed.
#[export] Instance stable_peers : value_stable unique_peers.
Proof.
  intros [| | | | | |l] m; try done. simpl unique_peers at 1. intros (Hnd&_&Hlen&Hall&Hm)%insert_peers_Some.
  rewrite to_value_object. simpl. apply insert_peers_Some.
  assert (∀ k v, (k, v) ∈ btree_iter (to_value <$> btree_collect l) ↔ ∃ u, (k, u) ∈ l ∧ v = to_value u) as Hin.
  { intros k v. rewrite elem_of_btree_iter, lookup_fmap, fmap_Some. split.
    - intros (u&Hu%btree_collect_elem&->). eauto.
    - intros (u&Hu&->). exists u. split; [by apply btree_collect_lookup|done]. }
  rewrite Forall_forall in Hall. split_and!.
  - apply sorted_lt_NoDup, btree_keys_ascending.
  - intros. apply lookup_empty.
  - destruct Hlen as [->|Hlen]; [by left|right]. rewrite length_btree_iter, map_size_fmap, map_size_empty in *.
    assert (length l = size (btree_collect l)) as <-; [|done].
    rewrite <-length_btree_iter. rewrite <-(length_fmap fst l), <-(length_fmap fst (btree_iter _)).
    apply Permutation_length, NoDup_Permutation; [done|apply sorted_lt_NoDup, btree_keys_ascending|].
    intros k. change (btree_iter (btree_collect l)).*1 with (btree_keys (btree_collect l)). rewrite elem_of_btree_keys. split.
    + intros ([k' v]&->&Hk)%list_elem_of_fmap. by eapply btree_collect_is_Some.
    + intros [v Hv%btree_collect_elem]. by apply (list_elem_of_fmap_2 fst) in Hv.
  - apply Forall_forall. intros [k v] (u&Hu&->)%Hin. destruct (Hall _ Hu) as [w Hw]. exists w. by apply (_ : value_stable _).
  - intros k w. rewrite Hm. f_equiv. split.
    + intros (v&Hv&Hr). exists (to_value v). split; [apply Hin; eauto|by apply (_ : value_stable _)].
    + intros (v&(u&Hu&->)%Hin&Hr). exists u. split; [done|]. destruct (Hall _ Hu) as [w' Hw]. simpl in Hw.
      rewrite Hw. apply (_ : value_stable _) in Hw. congruence.
Qed.
#[export] Instance respects_peers : respects eq unique_peers.
Proof.
  intros [| | | | | |l] w m m' Hs Hx Hy; try done. apply same_object_inv in Hs as (k&->&Hl). simpl in Hx, Hy.
  apply insert_peers_Some in Hx as (_&_&_&Ha&Hm). apply insert_peers_Some in Hy as (_&_&_&Ha'&Hm').
  rewrite Forall_forall in Ha, Ha'. apply map_eq. intros name. apply option_eq. intros p. rewrite Hm, Hm'. f_equiv. split.
  - intros (v&(i&Hi)%list_elem_of_lookup&Hr). destruct (Forall2_lookup_l _ _ _ _ _ Hl Hi) as ([b u]&Hu&[Hb Hvu]). simpl in Hb, Hvu. subst b.
    apply list_elem_of_lookup_2 in Hu. exists u. split; [done|]. destruct (Ha' _ Hu) as [q Hq]. simpl in Hq. rewrite Hq. f_equal.
    symmetry. by apply (respects_wire true v u).
  - intros (v&(i&Hi)%list_elem_of_lookup&Hr). destruct (Forall2_lookup_r _ _ _ _ _ Hl Hi) as ([b u]&Hu&[Hb Hvu]). simpl in Hb, Hvu. subst b.
    apply list_elem_of_lookup_2 in Hu. exists u. split; [done|]. destruct (Ha _ Hu) as [q Hq]. simpl in Hq. rewrite Hq. f_equal.
    by apply (respects_wire true u v).
Qed.

(** ** Requests and results *)
#[export] Instance stable_subject : value_stable read_subject.
Proof. stable_struct read_subject. Qed.
#[export] Instance respects_subject : respects eq read_subject.
Proof. respects_struct read_subject; same_reads; congruence. Qed.
#[export] Instance stable_request : value_stable read_request.
Proof. stable_struct read_request. Qed.
#[export] Instance respects_request : respects eq read_request.
Proof. respects_struct read_request; same_reads; congruence. Qed.
#[export] Instance stable_result : value_stable read_result.
Proof. stable_struct read_result. Qed.
(** The numbers of a result that a double holds exactly. *)
Definition exact_numbers (r : SecurityResult) : Prop :=
  Forall (λ n, (n <= exact_max)%Z) [sx_sequence r; sx_checked_at r; sx_issued_at r; sx_expires_at r].
#[export] Instance respects_result : respects (λ r r', exact_numbers r → exact_numbers r' → r = r') read_result.
Proof.
  respects_struct read_result. intros Hr Hr'. injection Hx as <-. injection Hy as <-.
  unfold exact_numbers in *. cbn in Hr, Hr'. repeat setoid_rewrite Forall_cons in Hr. repeat setoid_rewrite Forall_cons in Hr'.
  destruct Hr as (?&?&?&?&_), Hr' as (?&?&?&?&_).
  repeat match goal with
  | Hs : same_value ?v ?w, Ha : read_u64 ?v = Some ?a, Hb : read_u64 ?w = Some ?b |- _ =>
      assert (a = b) by (by eapply (respects_u64 v w)); clear Hs; subst
  end.
  same_reads. congruence.
Qed.

(** ** The two readings of an envelope *)
Lemma struct_fields_lenient specs v fs : struct_fields true specs v = Some fs → struct_fields false specs v = Some fs.
Proof. destruct v; try done. unfold struct_fields. by destruct (true && _). Qed.
Lemma object_field_optional fields name v :
  object_field fields (name, Required) = Some (Some v) → object_field fields (name, Optional) = Some (Some v).
Proof. unfold object_field. simpl. by destruct (base.filter _ fields) as [|[? ?] [|]]. Qed.
Definition lenient_specs : list (string * presence) :=
  [("version", Required); ("subject", Required); ("artifact_digest", Required); ("claims", Required); ("signature", Optional)].
Lemma envelope_fields_agree j fs a b c d e :
  struct_fields true envelope_specs j = Some [Some a; Some b; Some c; Some d; Some e] →
  struct_fields false lenient_specs j = Some fs → fs = [Some a; Some b; Some c; Some d; Some e].
Proof.
  intros H%struct_fields_lenient H'. destruct j as [| | | | |l|l]; try done.
  - simpl in *. repeat (destruct l as [|? l]; [done|]). destruct l; [|done]. simplify_eq. done.
  - apply mapM_Some in H, H'. unfold envelope_specs, lenient_specs in *.
    repeat match goal with H : Forall2 _ (_ :: _) ?k |- _ => is_var k; apply Forall2_cons_inv_l in H as (?&?&?&H&->) end.
    apply Forall2_nil_inv_l in H' as ->.
    repeat match goal with H : Forall2 _ (_ :: _) (_ :: _) |- _ => apply Forall2_cons_1 in H as [? H] end.
    match goal with H : object_field l ("signature", Required) = _ |- _ => apply object_field_optional in H end.
    repeat f_equal; congruence.
Qed.
Lemma signature_agrees v s s' :
  read_security_signature v = Some s → read_signature v = Some s' →
  s' = mk_detached (sg_algorithm s) (sg_key_id s) (sg_subject s) (sg_artifact_digest s) (sg_value s).
Proof.
  unfold read_security_signature, read_signature. intros (fs&Hfs%struct_fields_lenient&H)%bind_Some (gs&Hgs&H')%bind_Some.
  assert (fs = gs) as <- by (unfold signature_specs in Hfs; congruence). clear Hfs Hgs. read_fields H.
  all_reads H. all_reads H'. simplify_eq. done.
Qed.
Lemma read_security_signature_not_null v s : read_security_signature v = Some s → read_option read_signature v = Some <$> read_signature v.
Proof. by destruct v. Qed.
Lemma envelopes_agree j se env :
  read_security_envelope j = Some se → read_envelope j = Some env →
  te_version env = se_version se ∧ te_subject env = se_subject se ∧ te_artifact_digest env = se_artifact_digest se ∧
  read_result (te_claims env) = Some (se_claims se) ∧
  te_signature env = Some (mk_detached (sg_algorithm (se_signature se)) (sg_key_id (se_signature se))
    (sg_subject (se_signature se)) (sg_artifact_digest (se_signature se)) (sg_value (se_signature se))).
Proof.
  unfold read_security_envelope, read_envelope. intros (fs&Hfs&H)%bind_Some (gs&Hgs&H')%bind_Some. read_fields H.
  apply (envelope_fields_agree _ gs) in Hfs as ->; [|done]. all_reads H. cbn [read_field] in H'. all_reads H'.
  match goal with
  | Hs : read_security_signature ?g = Some _, Ho : read_option read_signature ?g = Some _ |- _ =>
      rewrite (read_security_signature_not_null _ _ Hs) in Ho; apply fmap_Some in Ho as (s'&Hs'&->);
      pose proof (signature_agrees _ _ _ Hs Hs') as ->
  end.
  match goal with Hc : read_result _ = Some _ |- _ => apply (_ : value_stable read_result) in Hc end.
  simplify_eq. done.
Qed.

(** ** Validated results *)
Lemma all_fresh_true f before values :
  all_fresh f before values = true ↔ Forall (λ v, f v = true ∧ v ∉ before) values ∧ NoDup values.
Proof.
  revert before. induction values as [|v l IH]; intros before; simpl.
  - split; [|done]. split; constructor.
  - rewrite !andb_true_iff, negb_true_iff, bool_decide_eq_false, IH, Forall_cons, NoDup_cons, !Forall_forall.
    setoid_rewrite not_elem_of_app. setoid_rewrite list_elem_of_singleton. split.
    + intros ([Hv Hb]&Hl&Hnd). split_and!; [done..|intros x Hx; split_and!; naive_solver| |done].
      intros Hin. by apply Hl in Hin as (_&_&?).
    + intros ([[Hv Hb] Hl]&Hnin&Hnd). split_and!; [done..|intros x Hx; split_and!; [naive_solver..|]|done]. by intros ->.
Qed.
Lemma read_result_numbers v r : read_result v = Some r →
  Forall (λ n, (0 <= n <= u64_max)%Z) [sx_sequence r; sx_checked_at r; sx_issued_at r; sx_expires_at r].
Proof.
  unfold read_result. intros (fs&Hfs&H)%bind_Some. clear Hfs. read_fields H. all_reads H. injection H as <-. simpl.
  repeat constructor; eapply read_u64_bounds; eassumption.
Qed.
Section security.
Context `{SV : Semver} `{UC : UrlCrate}.
(** What a validated result promises. *)
Record result_ok (r : SecurityResult) : Prop := {
  ro_exact : exact_numbers r;
  ro_times : (sx_sequence r ≠ 0 ∧ sx_checked_at r <= sx_issued_at r < sx_expires_at r)%Z;
  ro_scope : scope_matches (sr_check (sx_request r)) (sx_scope r) = true;
  ro_coverage : NoDup (sx_coverage r) ∧ ∀ c, c ∈ sx_coverage r → c ∈ sr_coverage (sx_request r);
  ro_complete : complete_status (sx_status r) = true → ∀ c, c ∈ sr_coverage (sx_request r) → c ∈ sx_coverage r;
  ro_findings : (sx_status r = Findings → sx_findings r ≠ []) ∧ (sx_status r = NoKnownFindings → sx_findings r = []);
  ro_unscanned : without_scan (sx_status r) = true → sx_coverage r = [] ∧ sx_findings r = [];
  ro_limitations : complete_status (sx_status r) = false → sx_limitations r ≠ [];
}.
Lemma SecurityResult_validate_ok r : SecurityResult_validate r = Ok () → result_ok r.
Proof.
  unfold SecurityResult_validate. intros H. run_ok H. unfold result_shape in *. bool_prop.
  repeat match goal with u : () |- _ => destruct u end.
  repeat match goal with H : all_fresh _ _ _ = true |- _ => apply all_fresh_true in H as [? ?] end.
  repeat match goal with H : (_ <? _)%Z = false |- _ => apply Z.ltb_ge in H | H : (_ <=? _)%Z = false |- _ => apply Z.leb_gt in H
    | H : (_ =? _)%Z = false |- _ => apply Z.eqb_neq in H end.
  repeat match goal with H : Forall _ _ |- _ => rewrite Forall_forall in H end.
  assert (∀ x y : bool, x && y = false → x = true → y = false) as Hand by (by intros [] []).
  constructor.
  - match goal with H : forallb safe_integer _ = true |- _ => rename H into Hs end.
    simpl in Hs. bool_prop. unfold safe_integer, exact_numbers, exact_max in *. repeat constructor; by apply Z.leb_le.
  - lia.
  - done.
  - split; [done|]. intros c Hc. match goal with H : ∀ x, x ∈ sx_coverage r → _ |- _ => apply H in Hc as [Hc _] end.
    bool_prop. by eapply bool_decide_eq_true.
  - intros Hc c Hin. match goal with H : complete_status _ && existsb _ _ = false |- _ => apply Hand in H; [rename H into He|done] end.
    rewrite <-not_true_iff_false, existsb_exists in He. destruct (decide (c ∈ sx_coverage r)) as [|Hn]; [done|].
    destruct He. exists c. split; [by apply list_elem_of_In|]. by apply negb_true_iff, bool_decide_eq_false.
  - split; intros Hst.
    + match goal with H : bool_decide (_ = Findings) && _ = false |- _ => apply Hand in H; [by apply bool_decide_eq_false in H|by apply bool_decide_eq_true] end.
    + match goal with H : bool_decide (_ = NoKnownFindings) && _ = false |- _ => apply Hand in H; [|by apply bool_decide_eq_true]; apply negb_false_iff in H; by apply bool_decide_eq_true in H end.
  - intros Hw. match goal with H : without_scan _ && _ = false |- _ => apply Hand in H; [|done]; apply orb_false_iff in H as [Ha Hb] end.
    apply negb_false_iff in Ha, Hb. split; by eapply bool_decide_eq_true.
  - intros Hc. match goal with H : negb (complete_status _) && _ = false |- _ => apply Hand in H; [by apply bool_decide_eq_false in H|by rewrite Hc] end.
Qed.
End security.

(** ** Acceptance *)
Section evidence.
Context `{SV : Semver} `{UC : UrlCrate} `{SH : Sha256} `{JC : Jcs} `{B64 : Base64} `{BM : Base64Message}
  `{ED : Ed25519} `{JX : JsonCodec}.
(** The envelope that a result was read from, authenticated by a ring. *)
Definition authentic (bytes : string) (keys : KeyRing) (binding : string) (r : SecurityResult) (digest : string) : Prop :=
  ∃ j envelope, json_of_bytes bytes = Some j ∧ read_envelope j = Some envelope ∧
    verify_with_keyring envelope keys = Ok () ∧
    (te_version envelope = ENVELOPE_VERSION ∧ te_subject envelope = SECURITY_CONTRACT_V1 ∧
     te_artifact_digest envelope = binding) ∧
    read_result (te_claims envelope) = Some r ∧ envelope_digest envelope = Ok digest.
Definition current (trust : SecurityTrust) (f : EvidenceFreshness) (r : SecurityResult) : Prop :=
  (sx_checked_at r <= sx_issued_at r <= ef_now f)%Z ∧ (ef_now f < sx_expires_at r)%Z ∧
  (ef_now f < st_valid_until trust)%Z ∧ (ef_now f - sx_checked_at r <= ef_max_age f)%Z.
Definition fresh (f : EvidenceFreshness) (sequence : Z) (digest : string) : Prop :=
  (ef_minimum_sequence f < sequence)%Z ∨
  sequence = ef_minimum_sequence f ∧ ef_previous_digest f = Some digest.

Lemma not_replayed f r digest : replayed f r digest = false ↔ fresh f (sx_sequence r) digest.
Proof.
  unfold replayed, fresh. rewrite orb_false_iff, Z.ltb_ge, andb_false_iff, Z.eqb_neq, negb_false_iff, bool_decide_eq_true.
  destruct (decide (sx_sequence r = ef_minimum_sequence f)) as [->|]; [|intuition lia]. split; [|intros [|[? ?]]; [lia|by split; [|right]]].
  intros [_ [|?]]; [done|by right].
Qed.
(** C15: accepted evidence is authentic, about this request, and current.  Evidence is accepted
    only within the size limit and from an envelope of the contract that verifies with the
    issuer's keys; the result that is returned is what the signed claims say, although envelope
    and claims are parsed twice; it answers exactly the request, in its scope, from the
    trusted issuer; the clock is between its issue and its expiry, before the
    expiry of the trust, and within the age since the check; its sequence is above the floor, or
    at the floor with the digest that was accepted there; completed statuses cover everything
    that was requested, "no known findings" has none, and every other status than the two
    complete ones explains itself. *)
Theorem accepted_evidence bytes request trust freshness v :
  verify_security_evidence bytes request trust freshness = Ok v →
  let r := ve_result v in
  (str_len bytes <= MAX_SECURITY_BYTES)%Z ∧ SecurityRequest_validate request = Ok () ∧
  authentic bytes (st_keys trust) (evidence_binding (sr_check request)) r (ve_envelope_digest v) ∧
  (sx_request r = request ∧ sx_issuer r = st_issuer trust) ∧ current trust freshness r ∧
  (1 <= sx_sequence r <= exact_max)%Z ∧ fresh freshness (sx_sequence r) (ve_envelope_digest v) ∧ result_ok r.
Proof.
  unfold verify_security_evidence. intros H. run_ok H. repeat match goal with u : () |- _ => destruct u end.
  injection H as <-. cbn [ve_result ve_envelope_digest].
  match goal with H : mbind _ _ = Some ?e, H' : mbind _ _ = Some ?p |- _ =>
    apply bind_Some in H as (j&Hj&He), H' as (j'&Hj'&Hp) end. assert (j' = j) as -> by congruence.
  match goal with He : read_envelope j = Some ?e, Hp : read_security_envelope j = Some ?p |- _ =>
    destruct (envelopes_agree _ _ _ Hp He) as (Hver&Hsub&Hdig&Hread&Hsig) end.
  match goal with H : SecurityResult_validate _ = Ok () |- _ => pose proof (SecurityResult_validate_ok _ H) as Hok end.
  match goal with H : negb (expired _ _ _) = true |- _ => rename H into Hexp end.
  unfold expired in Hexp. bool_prop. rewrite !str_eqb_true in *.
  repeat match goal with H : (_ <? _)%Z = false |- _ => apply Z.ltb_ge in H | H : (_ <=? _)%Z = false |- _ => apply Z.leb_gt in H end.
  match goal with H : replayed _ _ _ = false |- _ => apply not_replayed in H as Hfresh end.
  match goal with H : bool_decide (sx_request _ = request) = true |- _ => apply bool_decide_eq_true in H as Hreq end.
  pose proof (ro_times _ Hok) as (?&?&?). pose proof (ro_exact _ Hok) as Hex.
  pose proof (read_result_numbers _ _ Hread) as Hnum. unfold exact_numbers in *.
  rewrite !Forall_cons in Hex, Hnum. destruct Hex as (?&?&?&?&_), Hnum as (?&?&?&?&_).
  split_and!; try done.
  - eexists j, _. split_and!; first [done|congruence].
  - unfold u64_saturating_sub in *. unfold current. lia.
  - lia.
Qed.

Context `{JL : !JcsLaws}.
(** Equal digests: the same claims, or a collision. *)
Lemma digest_binds e e' d : envelope_digest e = Ok d → envelope_digest e' = Ok d →
  (∃ s t, s ≠ t ∧ sha256_hex s = sha256_hex t) ∨ same_envelope e e'.
Proof.
  unfold envelope_digest, digest. intros H H'. run_ok H. run_ok H'. injection H as <-. injection H' as Hd.
  match goal with Ha : signing_bytes e = Ok ?a, Hb : signing_bytes e' = Ok ?b |- _ =>
    apply canonical_json_Ok in Ha, Hb; destruct (decide (a = b)) as [<-|Hne];
    [right; pose proof (jcs_same _ _ _ Ha Hb) as Hs|left; by exists a, b] end.
  unfold envelope_payload in Hs. eapply same_payload_fields; [| | |exact Hs]; simpl; [|constructor..].
  repeat constructor; set_solver.
Qed.
Lemma authentic_unique bytes bytes' keys keys' b b' r r' d :
  authentic bytes keys b r d → authentic bytes' keys' b' r' d → exact_numbers r → exact_numbers r' →
  (∃ s t, s ≠ t ∧ sha256_hex s = sha256_hex t) ∨ r = r'.
Proof.
  intros (j&e&_&_&_&_&Hr&Hd) (j'&e'&_&_&_&_&Hr'&Hd') Hx Hx'.
  destruct (digest_binds _ _ _ Hd Hd') as [|(_&_&_&Hs)]; [by left|right].
  by apply (respects_result (to_value (te_claims e)) (to_value (te_claims e'))); [|apply (_ : value_stable read_result)..| |].
Qed.

(** The replay state of an issuer and a request: what was accepted, newest first, each
    presented with the floor and digest of the last; clock and trust may change. *)
Inductive accepted_run (request : SecurityRequest) : list VerifiedSecurityEvidence → Z → option string → Prop :=
| run_start : accepted_run request [] 0 None
| run_accept vs floor previous bytes trust now max_age v :
    accepted_run request vs floor previous →
    verify_security_evidence bytes request trust (mk_freshness now max_age floor previous) = Ok v →
    accepted_run request (v :: vs) (sx_sequence (ve_result v)) (Some (ve_envelope_digest v)).
Definition supersedes (v u : VerifiedSecurityEvidence) : Prop :=
  (sx_sequence (ve_result u) < sx_sequence (ve_result v))%Z ∨ ve_result v = ve_result u ∧ ve_envelope_digest v = ve_envelope_digest u.
Lemma supersedes_trans v u w : supersedes v u → supersedes u w → supersedes v w.
Proof. unfold supersedes. intros [|[Ha Hb]] [|[Hc Hd]]; [left; lia|left; by rewrite <-Hc|left; by rewrite Ha|right; split; congruence]. Qed.

(** C16: accepted evidence is never rolled back.  When every acceptance stores its sequence and
    digest as the next floor, then however often documents are presented, in whatever order,
    under whatever keys and clocks, each acceptance has a higher sequence than all earlier
    ones or repeats the very result and digest accepted at the floor; an issuer that signs two
    results with one sequence gets only the first accepted, unless SHA-256 collides. *)
Theorem evidence_never_rolls_back request vs floor previous :
  accepted_run request vs floor previous →
  (∃ s t, s ≠ t ∧ sha256_hex s = sha256_hex t) ∨
  StronglySorted supersedes vs ∧ Forall (λ v, sx_sequence (ve_result v) <= floor)%Z vs.
Proof.
  intros Hrun. enough ((∃ s t, s ≠ t ∧ sha256_hex s = sha256_hex t) ∨
    StronglySorted supersedes vs ∧ match vs with
    | [] => floor = 0%Z ∧ previous = None
    | v :: _ => floor = sx_sequence (ve_result v) ∧ previous = Some (ve_envelope_digest v) ∧ exact_numbers (ve_result v) ∧
        ∃ bytes keys b, authentic bytes keys b (ve_result v) (ve_envelope_digest v)
    end) as [?|[Hs Hv]]; [by left| |].
  { right. split; [done|]. destruct Hs as [|v vs Hs Hall]; [constructor|]. destruct Hv as [-> _]. constructor; [done|].
    eapply Forall_impl; [exact Hall|]. intros u [|[-> _]]; simpl; lia. }
  induction Hrun as [|vs floor previous bytes trust now age v Hrun IH Hv]; [right; by repeat constructor|].
  destruct IH as [|[Hs Hhead]]; [by left|]. apply accepted_evidence in Hv as (_&_&Hauth&_&_&_&Hfresh&Hok).
  pose proof (ro_exact _ Hok) as Hex. destruct vs as [|u vs].
  { right. split; [by repeat constructor|]. split_and!; eauto. }
  destruct Hhead as (->&->&Hex'&bytes'&keys'&b'&Hauth').
  assert ((∃ s t, s ≠ t ∧ sha256_hex s = sha256_hex t) ∨ supersedes v u) as [|Hvu]; [|by left|].
  { destruct Hfresh as [|[_ Hd]]; [by right; left|]. injection Hd as Hd. simpl in Hd. rewrite Hd in Hauth'.
    destruct (authentic_unique _ _ _ _ _ _ _ _ _ Hauth Hauth' Hex Hex') as [|]; [by left|right; by right]. }
  right. split; [|split_and!; eauto]. constructor; [done|]. constructor; [done|].
  apply StronglySorted_inv in Hs as [_ Hall]. eapply Forall_impl; [exact Hall|]. intros w. by apply supersedes_trans.
Qed.
End evidence.

(** ** Reading what was written *)
Lemma read_write_wire deny w : read_wire deny (write_wire w) = Some w.
Proof. unfold read_wire, write_wire, wire_specs. read_struct. by destruct w. Qed.
Lemma read_write_finding f : read_finding (write_finding f) = Some f.
Proof. unfold read_finding, write_finding, finding_specs. read_struct. by destruct f. Qed.
Lemma read_write_option o : read_option read_string (write_option JString o) = Some o.
Proof. by destruct o. Qed.
Lemma read_write_platform p : read_platform (write_platform p) = Some p.
Proof.
  unfold read_platform, write_platform, platform_specs. read_struct. simpl. rewrite !read_write_option. by destruct p.
Qed.
Lemma read_write_peers m : (size m <= max_peers)%nat → unique_peers (write_map write_wire m) = Some m.
Proof.
  intros Hm. simpl. apply insert_peers_Some.
  assert (((λ kv, (kv.1, write_wire kv.2)) <$> btree_iter m).*1 = btree_keys m) as Hkeys.
  { unfold btree_keys. rewrite <-list_fmap_compose. by apply list_fmap_ext. }
  assert (∀ k v, (k, v) ∈ (λ kv, (kv.1, write_wire kv.2)) <$> btree_iter m ↔ ∃ w, m !! k = Some w ∧ v = write_wire w) as Hin.
  { intros k v. rewrite list_elem_of_fmap. split.
    - intros ([k' w]&[= -> ->]&Hw%elem_of_btree_iter). eauto.
    - intros (w&Hw&->). exists (k, w). by rewrite elem_of_btree_iter. }
  split_and!.
  - rewrite Hkeys. apply sorted_lt_NoDup, btree_keys_ascending.
  - intros. apply lookup_empty.
  - right. rewrite length_fmap, length_btree_iter, map_size_empty. done.
  - apply Forall_forall. intros [k v] (w&_&->)%Hin. exists w. apply read_write_wire.
  - intros k w. rewrite lookup_empty. split.
    + intros Hw. right. exists (write_wire w). split; [apply Hin; eauto|apply read_write_wire].
    + intros [|(v&(u&Hu&->)%Hin&Hr)]; [done|]. rewrite read_write_wire in Hr. congruence.
Qed.
Lemma read_write_subject s : (size (ss_peers s) <= max_peers)%nat → read_subject (write_subject s) = Some s.
Proof.
  intros Hs. unfold read_subject, write_subject, subject_specs. read_struct. cbn [fmap list_fmap snd field mbind option_bind].
  rewrite read_write_wire. cbn [mbind option_bind read_string]. rewrite read_write_peers by done. cbn [mbind option_bind].
  rewrite read_write_platform. by destruct s.
Qed.
Lemma read_write_check c : read_check (write_check c) = Some c.
Proof. by destruct c. Qed.
Lemma read_write_audience a : read_audience (write_audience a) = Some a.
Proof. by destruct a. Qed.
Lemma read_write_request r : (size (ss_peers (sr_subject r)) <= max_peers)%nat → read_request (write_request r) = Some r.
Proof.
  intros Hr. unfold read_request, write_request, request_specs. read_struct. cbn [fmap list_fmap snd field mbind option_bind].
  cbn [read_string mbind option_bind]. rewrite read_write_subject by done. cbn [mbind option_bind]. rewrite read_write_check.
  cbn [mbind option_bind]. rewrite read_write_strings. cbn [mbind option_bind]. rewrite read_write_audience. by destruct r.
Qed.
Lemma read_write_u64 n : (0 <= n <= u64_max)%Z → read_u64 (JNumber n) = Some n.
Proof. intros Hn. simpl. by rewrite !(proj2 (Z.leb_le _ _)) by lia. Qed.
Definition u64_numbers (r : SecurityResult) : Prop :=
  Forall (λ n, (0 <= n <= u64_max)%Z) [sx_sequence r; sx_checked_at r; sx_issued_at r; sx_expires_at r].
Lemma read_write_result r :
  u64_numbers r → (size (ss_peers (sr_subject (sx_request r))) <= max_peers)%nat → read_result (write_result r) = Some r.
Proof.
  intros Hn Hr. unfold u64_numbers in Hn. rewrite !Forall_cons in Hn. destruct Hn as (?&?&?&?&_).
  unfold read_result, write_result, result_specs. read_struct. cbn [fmap list_fmap snd field mbind option_bind].
  rewrite read_write_request by done. cbn [read_string mbind option_bind]. rewrite read_write_u64 by done.
  cbn [read_string mbind option_bind].
  assert (read_unit_enum security_statuses (JString (variant_name security_statuses (sx_status r))) = Some (sx_status r)) as ->
    by (by destruct (sx_status r)).
  cbn [read_string mbind option_bind].
  assert (read_unit_enum security_scopes (JString (variant_name security_scopes (sx_scope r))) = Some (sx_scope r)) as ->
    by (by destruct (sx_scope r)).
  cbn [read_string mbind option_bind]. rewrite !read_write_strings. cbn [read_string mbind option_bind].
  rewrite !read_write_u64 by done. cbn [mbind option_bind].
  assert (read_vec read_finding (JArray (write_finding <$> sx_findings r)) = Some (sx_findings r)) as ->.
  { simpl. apply (mapM_write _ _ (λ _, True)); [intros; apply read_write_finding|by apply Forall_true]. }
  by destruct r.
Qed.
Lemma read_write_signature s : read_signature (write_signature s) = Some s.
Proof. unfold read_signature, write_signature. read_struct. by destruct s. Qed.
Lemma read_write_security_signature s : read_security_signature (write_signature s) =
  Some (mk_security_signature (ds_algorithm s) (ds_key_id s) (ds_subject s) (ds_artifact_digest s) (ds_value s)).
Proof. unfold read_security_signature, write_signature, signature_specs. by read_struct. Qed.
Lemma read_write_envelope e s : te_signature e = Some s → to_value (te_claims e) = te_claims e →
  read_envelope (write_envelope e) = Some e.
Proof.
  intros Hs Hc. unfold read_envelope, write_envelope. rewrite Hs. read_struct. cbn [fmap list_fmap snd field mbind option_bind option_fmap option_map].
  cbn [read_string mbind option_bind read_field].
  assert (read_option read_signature (write_signature s) = Some (Some s)) as ->.
  { change (read_option read_signature (write_signature s)) with (Some <$> read_signature (write_signature s)). by rewrite read_write_signature. }
  cbn [mbind option_bind]. rewrite Hc, <-Hs. by destruct e.
Qed.
Lemma read_write_security_envelope e s r : te_signature e = Some s → read_result (te_claims e) = Some r →
  read_security_envelope (write_envelope e) = Some (mk_security_envelope (te_version e) (te_subject e) (te_artifact_digest e) r
    (mk_security_signature (ds_algorithm s) (ds_key_id s) (ds_subject s) (ds_artifact_digest s) (ds_value s))).
Proof.
  intros Hs Hc. unfold read_security_envelope, write_envelope, envelope_specs. rewrite Hs. read_struct.
  cbn [fmap list_fmap snd field mbind option_bind option_fmap option_map read_string]. rewrite Hc. cbn [mbind option_bind].
  by rewrite read_write_security_signature.
Qed.

(** ** Issued evidence *)
Section issued.
Context `{SV : Semver} `{UC : UrlCrate} `{SH : Sha256} `{JC : Jcs} `{B64 : Base64} `{BM : Base64Message}
  `{ED : Ed25519} `{JX : JsonCodec}.
Context `{EL : !Ed25519Laws} `{BL : !Base64Laws}.
(** The envelope of a result, before it is signed. *)
Definition evidence_envelope (r : SecurityResult) : TrustEnvelope :=
  unsigned_envelope SECURITY_CONTRACT_V1 (evidence_binding (sr_check (sx_request r))) (to_value (write_result r)).
Lemma valid_peers request : SecurityRequest_validate request = Ok () →
  (size (ss_peers (sr_subject request)) <= max_peers)%nat.
Proof.
  unfold SecurityRequest_validate. intros H. run_ok H. unfold valid_subject in *. bool_prop.
  match goal with H : (_ <? _)%nat = false |- _ => by apply Nat.ltb_ge in H end.
Qed.
Lemma current_not_expired trust f r : current trust f r → expired trust f r = false ∧ (ef_now f <? sx_issued_at r)%Z = false.
Proof.
  intros (?&?&?&?). unfold expired, u64_saturating_sub. rewrite !orb_false_iff, !Z.leb_gt, !Z.ltb_ge. lia.
Qed.
(** C32: evidence issued by the rules is accepted.  A result that validates, of the trusted
    issuer and for the request asked about, signed with a key the client trusts and sent within
    the size limit, is accepted with exactly that result whenever it is current and its
    sequence is fresh: what the issuer writes is what the strict readers read. *)
Theorem issued_evidence_accepted bytes trust freshness r key_id seed signed digest :
  String.length seed = 32%nat → sign (evidence_envelope r) key_id seed = Ok signed →
  json_of_bytes bytes = Some (write_envelope signed) → (str_len bytes <= MAX_SECURITY_BYTES)%Z →
  SecurityResult_validate r = Ok () → u64_numbers r → sx_issuer r = st_issuer trust →
  st_keys trust !! key_id = Some (seed_key key_id seed) → current trust freshness r →
  envelope_digest (evidence_envelope r) = Ok digest → fresh freshness (sx_sequence r) digest →
  verify_security_evidence bytes (sx_request r) trust freshness = Ok (mk_verified r digest).
Proof.
  intros Hseed Hsign Hbytes Hlen Hval Hnum Hissuer Hkey Hcur Hd Hfresh.
  assert (SecurityRequest_validate (sx_request r) = Ok ()) as Hreq.
  { unfold SecurityResult_validate in Hval. run_ok Hval. by repeat match goal with u : () |- _ => destruct u end. }
  destruct (signed_envelope_verifies (evidence_envelope r) key_id seed Hseed) as [Hall _].
  destruct (Hall _ Hsign) as ((Hv&Hs&Hdig&Hc&Hed)&_&Hring). clear Hall. specialize (Hring _ Hkey).
  pose proof Hring as (key&s&b&sg&Hk&He)%verify_with_keyring_Ok. pose proof (es_signature _ _ _ _ _ He) as Hsig.
  assert (read_result (te_claims signed) = Some r) as Hread.
  { rewrite Hc. cbn [te_claims evidence_envelope unsigned_envelope].
    apply (stable_result (write_result r)), read_write_result; [done|by apply valid_peers]. }
  unfold verify_security_evidence.
  rewrite bind_Ok. exists (). split; [by rewrite ensure_Ok, negb_true_iff, Z.ltb_ge|].
  rewrite bind_Ok. exists (). split; [done|].
  rewrite bind_Ok. eexists. split.
  { rewrite Hbytes. cbn [mbind option_bind]. by rewrite (read_write_security_envelope _ _ _ Hsig Hread). }
  cbn [se_version se_subject se_artifact_digest se_claims se_signature sg_key_id].
  rewrite Hv, Hs, Hdig. rewrite bind_Ok. exists (). split; [done|]. rewrite bind_Ok. exists (). split; [done|].
  rewrite bind_Ok. exists signed. split.
  { rewrite Hbytes. cbn [mbind option_bind]. rewrite (read_write_envelope _ _ Hsig); [done|]. rewrite Hc. apply to_value_idem. }
  rewrite bind_Ok. exists (). split; [by rewrite ensure_Ok, Hissuer, str_eqb_refl|].
  rewrite bind_Ok. exists (). split; [rewrite ensure_Ok; apply contains_key_true; by eexists|].
  rewrite bind_Ok. exists (). split; [by rewrite Hring|].
  rewrite bind_Ok. exists (). split; [by rewrite ensure_Ok, bool_decide_eq_true|].
  rewrite bind_Ok. exists (). split; [by rewrite ensure_Ok, str_eqb_refl|].
  apply current_not_expired in Hcur as [Hexp Hissued]. apply not_replayed in Hfresh.
  rewrite bind_Ok. exists (). split; [by rewrite Hexp|]. rewrite bind_Ok. exists (). split; [by rewrite Hissued|].
  rewrite bind_Ok. exists digest. split; [by rewrite Hed, Hd|]. rewrite bind_Ok. exists (). by rewrite Hfresh.
Qed.
End issued.

(** The unit variants of the tagged enums accept any other field, although the contract
    refuses unknown fields. *)
Example advisory_with_unknown_fields :
  read_check (JObject [("kind", JString "advisory"); ("digest", JString "sha256-a"); ("future", JBool true)]) = Some Advisory ∧
  read_audience (JObject [("visibility", JString "public"); ("tenant", JString "private")]) = Some Public.
Proof. done. Qed.

(** ** Transparency records and attestations *)
Section records.
Context `{SH : Sha256} `{JC : Jcs} `{JL : !JcsLaws}.
(** An inclusion record belongs to one envelope: two that it binds to have the same content. *)
Lemma inclusion_binds r e e' : binds_to r e = Ok true → binds_to r e' = Ok true →
  (∃ s t, s ≠ t ∧ sha256_hex s = sha256_hex t) ∨ same_envelope e e'.
Proof.
  unfold binds_to. intros H H'. run_ok H. run_ok H'. injection H as H%str_eqb_true. injection H' as H'%str_eqb_true.
  eapply digest_binds; [eassumption|]. congruence.
Qed.
(** A valid record names a leaf inside its tree, and its evidence is not empty. *)
Lemma validate_inclusion_Ok r : validate_inclusion r = Ok () ↔
  (ti_envelope_digest r ≠ "" ∧ ti_log_id r ≠ "" ∧ ti_witnessed_at r ≠ "") ∧ (ti_leaf_index r < ti_tree_size r)%Z ∧
  "" ∉ ti_inclusion_path r.
Proof.
  assert (∀ s, is_empty s = false ↔ s ≠ "") as Hempty by (by intros []).
  unfold validate_inclusion. split.
  - intros H. run_ok H. bool_prop. rewrite Hempty in *. split_and!; [done..|by apply Z.leb_gt|]. intros Hin.
    rewrite <-not_true_iff_false, existsb_exists in H. destruct H. exists "". by split; [apply list_elem_of_In|].
  - intros ((Ha&Hb&Hc)&Hl&Hp). rewrite <-Hempty in Ha, Hb, Hc. rewrite bind_Ok. exists ().
    split; [by rewrite Ha, Hb, Hc|]. rewrite bind_Ok. exists (). split; [by rewrite ensure_Ok, negb_true_iff, Z.leb_gt|].
    rewrite ensure_Ok, negb_true_iff, <-not_true_iff_false, existsb_exists. intros ([]&Hin%list_elem_of_In&?); done.
Qed.
Context `{TM : TimeCrate}.
Definition canonical_timestamp (value : string) (t : OffsetDateTime) : Prop :=
  rfc3339_parse value = Some t ∧ rfc3339_format t = Some value.
Lemma parse_canonical_timestamp_Ok value field t :
  parse_canonical_timestamp value field = Ok t ↔ canonical_timestamp value t.
Proof.
  unfold parse_canonical_timestamp, canonical_timestamp. split.
  - intros H. run_ok H. match goal with H : str_eqb _ _ = true |- _ => apply str_eqb_true in H end. simplify_eq. done.
  - intros [Hp Hf]. rewrite bind_Ok. exists t. split; [by rewrite Hp|]. rewrite bind_Ok. exists value.
    split; [by rewrite Hf|]. rewrite bind_Ok. exists (). by rewrite ensure_Ok, str_eqb_refl.
Qed.
(** Valid claims have canonical timestamps, an expiry after the issue as instants, a confidence
    that is a number between 0 and 1, and disclose payment. *)
Lemma validate_claims_Ok c : validate_claims c = Ok () ↔
  (ac_issuer c ≠ "" ∧ ac_methodology c ≠ "" ∧ ac_scope c ≠ "" ∧ ac_issued_at c ≠ "") ∧
  (∃ t, canonical_timestamp (ac_issued_at c) t ∧
     ∀ expiry, ac_expires_at c = Some expiry → ∃ u, canonical_timestamp expiry u ∧ (instant t < instant u)%Z) ∧
  unit_interval (ac_confidence c) = true ∧ ac_payment_disclosure c ≠ "".
Proof.
  assert (∀ s, is_empty s = false ↔ s ≠ "") as Hempty by (by intros []).
  unfold validate_claims. split.
  - intros H. run_ok H. bool_prop. rewrite Hempty in *.
    match goal with H : parse_canonical_timestamp _ _ = Ok ?t |- _ => apply parse_canonical_timestamp_Ok in H; rename H into Ht, t into issued end.
    split_and!; [done..| |done|done]. exists issued. split; [done|]. intros expiry He.
    match goal with H : match ac_expires_at c with _ => _ end = Ok _ |- _ => rename H into Hx end. rewrite He in Hx.
    run_ok Hx. match goal with H : parse_canonical_timestamp expiry _ = Ok ?u |- _ => apply parse_canonical_timestamp_Ok in H; exists u end.
    apply negb_true_iff, Z.leb_gt in Hx. done.
  - intros ((Ha&Hb&Hc&Hd)&(t&Ht&Hx)&Hu&Hp). rewrite <-Hempty in Ha, Hb, Hc, Hd, Hp. rewrite bind_Ok. exists ().
    split; [by rewrite Ha, Hb, Hc, Hd|]. rewrite bind_Ok. exists t. split; [by apply parse_canonical_timestamp_Ok|].
    rewrite bind_Ok. exists (). split; [by rewrite Hu|]. rewrite bind_Ok. exists (). split; [|by rewrite Hp].
    destruct (ac_expires_at c) as [expiry|]; [|done]. destruct (Hx _ eq_refl) as (u&Hxu&Hlt).
    rewrite bind_Ok. exists u. split; [by apply parse_canonical_timestamp_Ok|]. by rewrite ensure_Ok, negb_true_iff, Z.leb_gt.
Qed.
End records.

(** ** Witnesses *)
#[local] Instance short_sha256 : Sha256 := {| sha256_hex s := hex_digits 64 (short_sum 0 s) |}.
Definition sample_digest : string := "sha256-" +:+ hex_digits 64 0.
Definition sample_request : SecurityRequest :=
  mk_security_request SECURITY_CONTRACT_V1
    (mk_subject (mk_wire "https://registry.example" "actual" "1.2.3") "alias" "node_modules/alias"
       {["peer" := mk_wire "https://registry.example" "peer" "2.0.0"]} (mk_security_platform (Some "linux") None None))
    (Artifact sample_digest) ["archive-static"] Public.
Definition sample_result : SecurityResult :=
  mk_security_result SECURITY_CONTRACT_V1 sample_request "issuer" 3 NoKnownFindings "scanner" "1" "2" ArtifactBytes
    ["archive-static"] "rules:abc" 1000 1010 2000 [] ["no runtime execution"].
Definition sample_signed_evidence : TrustEnvelope :=
  default sample_envelope (to_ok (sign (evidence_envelope sample_result) "key-1" sample_seed)).
Definition sample_bytes : string := json_pretty (write_envelope sample_signed_evidence) +:+ newline.
Definition sample_trust : SecurityTrust := mk_trust "issuer" sample_ring 3000.
Definition sample_freshness : EvidenceFreshness := mk_freshness 1100 500 0 None.
Definition sample_envelope_digest : string := default "" (to_ok (envelope_digest (evidence_envelope sample_result))).
Lemma sample_validates : SecurityResult_validate sample_result = Ok ().
Proof. by vm_compute. Qed.
Lemma sample_read : json_of_bytes sample_bytes = Some (write_envelope sample_signed_evidence).
Proof.
  unfold json_of_bytes. assert (utf8_valid sample_bytes = true) as -> by (by vm_compute).
  unfold sample_bytes. apply json_parse_pretty. by vm_compute.
Qed.
Lemma sample_signs : sign (evidence_envelope sample_result) "key-1" sample_seed = Ok sample_signed_evidence.
Proof. by vm_compute. Qed.
Lemma sample_length : (str_len sample_bytes <= MAX_SECURITY_BYTES)%Z.
Proof. apply Z.leb_le. by vm_compute. Qed.
Lemma sample_has_digest : envelope_digest (evidence_envelope sample_result) = Ok sample_envelope_digest.
Proof. by vm_compute. Qed.
(** Checked by computation, once with an empty replay state and once at the floor. *)
Lemma sample_accepted freshness :
  freshness = sample_freshness ∨ freshness = mk_freshness 1100 500 3 (Some sample_envelope_digest) →
  verify_security_evidence sample_bytes sample_request sample_trust freshness =
    Ok (mk_verified sample_result sample_envelope_digest).
Proof.
  intros [-> | ->]; by vm_compute.
Qed.
Lemma issued_evidence_accepted_witness :
  verify_security_evidence sample_bytes sample_request sample_trust sample_freshness =
    Ok (mk_verified sample_result sample_envelope_digest).
Proof.
  apply (issued_evidence_accepted sample_bytes sample_trust sample_freshness sample_result "key-1" sample_seed
    sample_signed_evidence sample_envelope_digest); [done|exact sample_signs|exact sample_read|exact sample_length
    |exact sample_validates|repeat constructor; by apply Z.leb_le|done|by vm_compute
    |repeat split; by apply Z.leb_le || by apply Z.ltb_lt|exact sample_has_digest|by left].
Defined.
Lemma accepted_evidence_witness :
  verify_security_evidence sample_bytes sample_request sample_trust sample_freshness =
    Ok (mk_verified sample_result sample_envelope_digest) ∧
  authentic sample_bytes sample_ring sample_digest sample_result sample_envelope_digest.
Proof.
  assert (verify_security_evidence sample_bytes sample_request sample_trust sample_freshness =
    Ok (mk_verified sample_result sample_envelope_digest)) as H by (apply sample_accepted; by left).
  split; [exact H|].
  exact (proj1 (proj2 (proj2 (accepted_evidence sample_bytes sample_request sample_trust sample_freshness _ H)))).
Defined.
Lemma evidence_never_rolls_back_witness :
  accepted_run sample_request [mk_verified sample_result sample_envelope_digest; mk_verified sample_result sample_envelope_digest]
    3 (Some sample_envelope_digest) ∧
  ((∃ s t, s ≠ t ∧ sha256_hex s = sha256_hex t) ∨
   StronglySorted supersedes [mk_verified sample_result sample_envelope_digest; mk_verified sample_result sample_envelope_digest] ∧
   Forall (λ v, sx_sequence (ve_result v) <= 3)%Z
     [mk_verified sample_result sample_envelope_digest; mk_verified sample_result sample_envelope_digest]).
Proof.
  assert (accepted_run sample_request [mk_verified sample_result sample_envelope_digest; mk_verified sample_result sample_envelope_digest]
    3 (Some sample_envelope_digest)) as H.
  { apply (run_accept sample_request _ 3 (Some sample_envelope_digest) sample_bytes sample_trust 1100 500
      (mk_verified sample_result sample_envelope_digest)).
    - apply (run_accept sample_request [] 0 None sample_bytes sample_trust 1100 500
        (mk_verified sample_result sample_envelope_digest)); [constructor|apply sample_accepted; by left].
    - apply sample_accepted. by right. }
  split; [exact H|]. exact (evidence_never_rolls_back _ _ _ _ H).
Defined.
